(* ===== verification/_CoqProject ===== *)
-Q . S2P
Prelude.v
Bytes.v
CNumber.v
Arm64.v
Arm64Machine.v
Assembler.v
Relocator.v
RelocatorCorrect.v
Trampoline.v
Os.v
CodePatch.v
MemoryAllocator.v
HookApi.v
XzCrc32.v
XzLzma.v
XzDict.v
XzRange.v
XzLzmaSafe.v
XzLzma2.v
XzLzma2Safe.v
XzStream.v
XzStreamSafe.v
ElfResolver.v
QjsList.v
Cutils.v
Qsort.v
Exchange.v
CharRange.v
UnicodeTables.v
UnicodeCC.v
UnicodeCaseTables.v
UnicodeCase.v
Unicode.v
Hangul.v
JsSocket.v
JsServer.v
A64Frame.v
JsInterceptor.v
JsAttach.v
JsTrampoline.v
JsValue.v
JsPtr.v
JsMemory.v
JsNative.v
JsNativeRun.v
JsModule.v
JsJava.v
JsEngine.v
Limbs.v
Libbf.v
LibbfRound.v
LibbfOps.v
LibbfAdd.v
JsString.v
JsUri.v
