(* ===== verification/Prelude.v ===== *)
(** * A verification of CALVIN_HOOK

    CALVIN_HOOK is an Android application that hooks native ARM64 functions and
    drives the hooks from a JavaScript engine. Its native code is under
    [src/app/src/main/cpp]. This library models the parts that carry the
    program's own logic and the supporting libraries they stand on, as
    executable functions that follow the source statement by statement, and
    proves what makes each of them correct.

    ** The program

    [hook_sdk/src] installs hooks. [HookInstall] builds a jump patch to the
    replacement ([trampoline.cpp]), allocates executable memory near the target
    ([memory_allocator.cpp]), relocates the instructions the patch will
    overwrite ([relocator.cpp], which emits code through [assembler.cpp] and
    classifies instructions with [arm64_constants.h]), writes both
    ([code_patch.cpp]) and records the hook in a registry ([hook_api.cpp],
    [hook_registry.cpp]); [HookUninstall] undoes it.
    [elf_symbol_resolver.cpp] finds the functions to hook by reading the symbol
    tables of [libart.so], which may be compressed with xz: [hook_sdk/src/xz]
    is the decoder. [js_engine] embeds a JavaScript interpreter and gives
    scripts hooks ([js_interceptor.cpp]), pointers and memory ([js_ptr.cpp],
    [js_memory.cpp]), calls of native code in both directions
    ([js_native.cpp]), modules ([js_module.cpp]) and a socket over which
    scripts arrive ([js_socket_server.cpp]); [js_engine.cpp] starts and stops
    it all under one lock. [quickjs] is the interpreter; its support libraries
    ([list.h], [cutils.c], [libunicode.c]) and its number conversions are
    modelled here.

    ** The files

    - [Prelude]: C integers at their width, arrays with bounds, little-endian
      bytes; the tactics and hints the other files share.
    - [Arm64] ([arm64_constants.h]), [Arm64Machine] (the meaning of the
      instructions involved, from the architecture manual), [Assembler]
      ([assembler.h], [assembler.cpp]), [Relocator] ([relocator.cpp]),
      [RelocatorCorrect] (the simulation of relocated code), [Trampoline]
      ([trampoline.cpp]).
    - [Os]: process memory and the services of the kernel, as the class [OS]
      with the laws [OSLaws]; [CodePatch] ([code_patch.cpp]),
      [MemoryAllocator] ([memory_allocator.cpp]), [HookApi] ([hook_entry.h],
      [hook_registry.cpp], [hook_api.cpp]), proved against that interface.
      [demo_os] is an instance, with which the witnesses run.
    - [XzCrc32] ([xz_crc32.c]); [XzLzma], [XzDict], [XzRange], [XzLzmaSafe]
      (dictionary, range coder and LZMA decoder of [xz_dec_lzma2.c]);
      [XzLzma2], [XzLzma2Safe] (its chunk layer); [XzStream], [XzStreamSafe]
      ([xz_dec_stream.c], [xz_dec.c]).
    - [Bytes], [CNumber]: byte strings, and numbers in them as [printf] and
      [strtoull] write and read them.
    - [ElfResolver] ([elf_symbol_resolver.cpp]).
    - [QjsList] ([list.h]); [Cutils], [Qsort], [Exchange] ([cutils.c],
      [cutils.h]); [CharRange] (the code point sets of [libunicode.c]);
      [UnicodeTables], [UnicodeCC], [Unicode], [Hangul] (normalization in
      [libunicode.c], over the tables of [libunicode-table.h]);
      [UnicodeCaseTables], [UnicodeCase] (case conversion and properties).
    - [JsSocket] (the protocol of [js_socket_server.cpp]: framing, base64,
      JSON), [JsServer] (its threads and descriptors).
    - [A64Frame] (a machine with registers, vector registers and memory, on
      which generated code runs); [JsInterceptor] ([js_interceptor.cpp]),
      [JsAttach] (its hooks over [HookApi]), [JsTrampoline] (the code it
      generates, run).
    - [JsValue] (values and conversions of [quickjs.c], [quickjs.h]), [JsPtr]
      ([js_ptr.cpp]), [JsMemory] ([js_memory.cpp]), [JsNative]
      ([js_native.cpp]), [JsNativeRun] (the code that generates, run),
      [JsModule] ([js_module.cpp]), [JsJava] ([js_java_bridge.cpp] over the Java
      Native Interface), [JsEngine] ([js_engine.cpp], [js_scope.h]).
    - [Limbs], [Libbf], [LibbfRound], [LibbfOps], [LibbfAdd] (the limb
      arithmetic, numbers, rounding and arithmetic of [libbf.c]).
    - [JsString] (the string buffers of [quickjs.c]), [JsUri] ([encodeURI],
      [decodeURI], [escape] and [unescape] of [quickjs.c]).

    Definitions keep the names of the source. State is passed explicitly: a
    structure is a record, an operation returns the new one. Integers are [Z]
    with the wrap-around of their type written out ([u32], [s64], ...). A
    result [None] is undefined behaviour (an access outside an object, a
    division by zero) or an exhausted loop bound, so that a theorem that says
    [Some _] says that there is neither; error codes are values.

    ** What the theorems show

    - Instructions: the classifiers are exclusive and agree with the
      architecture's decoder; relocated code simulates the instructions it
      replaces and returns behind them (C2, C3), but for B.AL
      ([bcond_always_not_taken]); a jump patch jumps (C5).
    - Hooks, whatever the kernel grants or refuses: the allocator hands out
      fresh executable memory for requests of up to a page (C6); installing
      redirects or changes nothing, uninstalling restores or keeps the entry,
      and any sequence of both is reversible (C7 to C9). The one fault, a
      refused write access that the code does not check, is stated.
    - xz: the CRC is the polynomial remainder (C11), the dictionary is the LZ77
      window (C12), the decoders of all layers stay in their buffers and end
      for every input (C14, C17, C18), stored data round-trips (C15).
    - Symbols: the order in which names are resolved and what a symbol table
      yields (C27, C30), with [dlsym] first; where the parsers go wrong, as lemmas.
    - Engine support: linked lists, buffers and sorting refine sequences and
      permutations (C19, C21, C25), UTF-8 as a lemma, sets of code points up to
      the sizes an [int] allows (C34),
      canonical ordering, composition and the normal forms of Hangul text
      (C23, C39); as lemmas, that case conversion and the canonicalization of
      regular expressions are total and stable and that property lookups
      decide the sets of their tables.
    - Big numbers: normalization and rounding keep to the bounds of the mode
      (C40); sums, differences, products and quotients of numbers other than
      zero are correctly rounded, and what zero operands give (C35), both with a
      precision in bits, without the faithful mode and away from the ends of
      the exponent range; comparison, integer conversions and the integer square root, as
      lemmas.
    - Strings: a string buffer holds what was appended, widened in place, as
      a lemma; URI encoding is undone by decoding (C20) up to the length at
      which a buffer could overflow an [int], and [escape] by
      [unescape], as a lemma.
    - Scripts and numbers: doubles become integers as ECMAScript says (C4);
      pointer objects are type safe (C10); memory written is read back (C33)
      and values of foreign types survive the crossing (C37), but for the
      unsigned 64-bit values that come back negative. As lemmas, what the
      Java bridge keeps and that [Java.hookMethod] cannot work
      ([hook_method_outcome]).
    - Script hooks: attaching installs the trampoline, and detaching restores
      every function whose removal the kernel does not refuse (C24, C29); the
      trampoline calls back and returns (C1)
      but loses vector registers (C32). The stubs of native calls and of
      callbacks run as generated, faults included (C16, C38).
    - Server and engine: a script arrives as sent (C13), however a stream
      without NUL bytes is cut (C26); descriptors are safe under every
      interleaving of any number of calls, and calls that do not overlap do not
      end the process (C31; [server_start_race] is an overlap that does);
      stopping waits for [accept] and then completes (C36); the life cycle is a
      machine with three states (C22) and the lock makes evaluation exclusive
      (C28), except against a concurrent shutdown ([shutdown_race]).

    ** Parameters, bounds and fuel

    Code that is not in the repository is a parameter with named laws: the
    kernel ([OS], [OSLaws], [MapsLaws]; it may refuse any request), [realloc] ([realloc_ok] in [Cutils],
    [CharRange] and [JsString]), the dynamic linker and the file system ([ElfResolver]), the
    comparison function of [rqsort] (arbitrary; [cmp_ok] for sortedness only),
    the answers of sockets ([JsServer]), the interpreter where bindings call
    it ([Engine] in [JsValue], without laws), the Java Native Interface ([JVM]
    in [JsJava]), the callbacks of scripts and the
    native functions they call (any that follow the calling convention, the
    record [returns] in [A64Frame]).
    Loops whose recursion is not structural take fuel, and the theorems show
    that what the definitions pass is enough: the decoders pass one round more
    than the bytes left to read and write, the sort one more than its remaining
    work, table searches one more than the entries. [xz_decompress] takes its
    fuel as an argument and is shown to end within one run per input byte and
    one more when it has an output buffer; [to_nfd_rec] takes the depth of its
    recursion.

    ** Not modelled

    - [xz_crc64.c], [xz_dec_bcj.c] and MicroLZMA: not compiled in this
      configuration. The termination of the size query of [xz_decompress] for
      inputs that decode for ever into the discarded buffer.
    - The interpreter [quickjs.c] but for number conversions, string buffers
      and the URI functions, [libregexp.c],
      [quickjs-libc.c]: vendored; of [libbf.c] the Fourier multiplication and
      subquadratic division (parameters), transcendental functions, text and
      decimal numbers; of their support code, the
      sets of scripts, categories and derived properties of [libunicode.c].
    - LSPlant, the dex builder and its hash maps: vendored.
    - The JNI entry points ([native-lib.cpp]), logging and the Java
      application: input and output around the parts above. *)

From Stdlib Require Export ZArith Lia.
From stdpp Require Export base numbers option sets list.

#[export] Set Default Proof Using "Type".
Global Open Scope Z_scope.

(** ** Notations for C integer operators *)

Declare Scope cint_scope.
Delimit Scope cint_scope with cint.
Infix ".&" := Z.land (at level 45, left associativity) : cint_scope.
Infix ".^" := Z.lxor (at level 46, left associativity) : cint_scope.
Infix ".|" := Z.lor (at level 47, left associativity) : cint_scope.
Infix "<<" := Z.shiftl (at level 44, left associativity) : cint_scope.
Infix ">>" := Z.shiftr (at level 44, left associativity) : cint_scope.
Global Open Scope cint_scope.

(** ** Machine-width integers

    An unsigned [w]-bit value is a [Z] in [0, 2^w); every arithmetic result
    is reduced with the width it has in C. [s32] and [s64] reinterpret a
    value as two's complement. *)

Definition u8 (x : Z) : Z := x mod 2 ^ 8.
Definition u16 (x : Z) : Z := x mod 2 ^ 16.
Definition u32 (x : Z) : Z := x mod 2 ^ 32.
Definition u64 (x : Z) : Z := x mod 2 ^ 64.

Definition s32 (x : Z) : Z := let y := u32 x in if y <? 2 ^ 31 then y else y - 2 ^ 32.
Definition s64 (x : Z) : Z := let y := u64 x in if y <? 2 ^ 63 then y else y - 2 ^ 64.

(** Bitwise complement at width 32 and 64. *)
Definition not32 (x : Z) : Z := 2 ^ 32 - 1 - u32 x.
Definition not64 (x : Z) : Z := 2 ^ 64 - 1 - u64 x.

Definition is_u8 (x : Z) : Prop := 0 <= x < 2 ^ 8.
Definition is_u16 (x : Z) : Prop := 0 <= x < 2 ^ 16.
Definition is_u32 (x : Z) : Prop := 0 <= x < 2 ^ 32.
Definition is_u64 (x : Z) : Prop := 0 <= x < 2 ^ 64.

Create HintDb cint.

Lemma u8_range x : is_u8 (u8 x).
Proof. apply Z.mod_pos_bound. lia. Qed.
Lemma u16_range x : is_u16 (u16 x).
Proof. apply Z.mod_pos_bound. lia. Qed.
Lemma u32_range x : is_u32 (u32 x).
Proof. apply Z.mod_pos_bound. lia. Qed.
Lemma u64_range x : is_u64 (u64 x).
Proof. apply Z.mod_pos_bound. lia. Qed.
#[export] Hint Resolve u8_range u16_range u32_range u64_range : cint.

Lemma u8_id x : is_u8 x → u8 x = x.
Proof. apply Z.mod_small. Qed.
Lemma u16_id x : is_u16 x → u16 x = x.
Proof. apply Z.mod_small. Qed.
Lemma u32_id x : is_u32 x → u32 x = x.
Proof. apply Z.mod_small. Qed.
Lemma u64_id x : is_u64 x → u64 x = x.
Proof. apply Z.mod_small. Qed.

(** Unfold every width predicate and width conversion and hand the goal to
    [lia] with the Euclidean equations of the remaining [/] and [mod]. *)
Ltac unfold_cint :=
  unfold u8, u16, u32, u64, s32, s64, not32, not64,
    is_u8, is_u16, is_u32, is_u64 in *.

Ltac zmod_lia :=
  unfold_cint; Z.to_euclidean_division_equations; lia.

(** Split every boolean comparison of the goal into its two cases. *)
Ltac case_cmp :=
  repeat match goal with
  | |- context [?a <? ?b] => destruct (Z.ltb_spec a b)
  | |- context [?a <=? ?b] => destruct (Z.leb_spec a b)
  | |- context [?a =? ?b] => destruct (Z.eqb_spec a b)
  end.

Lemma s64_small x : - 2 ^ 63 <= x < 2 ^ 63 → s64 x = x.
Proof.
  intros H. unfold s64. case_cmp.
  - destruct (decide (0 <= x)); zmod_lia.
  - destruct (decide (0 <= x)); zmod_lia.
Qed.

Lemma u64_s64 x : u64 (s64 x) = u64 x.
Proof. unfold s64. case_cmp; zmod_lia. Qed.

Lemma s64_range x : - 2 ^ 63 <= s64 x < 2 ^ 63.
Proof. unfold s64. pose proof (u64_range x). case_cmp; unfold_cint; lia. Qed.

Lemma u64_add_l x y : u64 (u64 x + y) = u64 (x + y).
Proof. apply Zplus_mod_idemp_l. Qed.

Lemma u64_add_r x y : u64 (x + u64 y) = u64 (x + y).
Proof. apply Zplus_mod_idemp_r. Qed.

(** ** Bitwise reasoning *)

Lemma land_ones_mod x n : 0 <= n → x .& (2 ^ n - 1) = x mod 2 ^ n.
Proof.
  intros. rewrite <- Z.land_ones by done. f_equal. rewrite Z.ones_equiv. lia.
Qed.

(** [x & m] for a literal mask [m = 2^n - 1] becomes [x mod 2^n]. *)
Ltac mask_mod :=
  repeat match goal with
  | |- context [?x .& ?m] =>
      let n := eval vm_compute in (Z.log2 (m + 1)) in
      let ok := eval vm_compute in (Z.eqb (2 ^ n - 1) m) in
      match ok with
      | true => replace (x .& m) with (x mod 2 ^ n)
                 by (symmetry; apply (land_ones_mod x n); lia)
      end
  end.

Lemma testbit_high a n i : 0 <= a < 2 ^ n → n <= i → Z.testbit a i = false.
Proof.
  intros Ha Hi. destruct (decide (0 <= n)).
  - rewrite <- (Z.mod_small a (2 ^ n)) by done. apply Z.mod_pow2_bits_high. lia.
  - rewrite Z.pow_neg_r in Ha by lia. lia.
Qed.

Lemma land_low_high a b n : 0 <= n → 0 <= a < 2 ^ n → (b * 2 ^ n) .& a = 0.
Proof.
  intros Hn Ha. apply Z.bits_inj'. intros i Hi. rewrite Z.land_spec, Z.bits_0.
  destruct (decide (i < n)).
  - by rewrite Z.mul_pow2_bits_low by lia.
  - by rewrite (testbit_high a n), andb_false_r by lia.
Qed.

(** Disjoint fields: [or] of a shifted high field and a low field is a sum. *)
Lemma lor_low_high a b n :
  0 <= n → 0 <= a < 2 ^ n → (b * 2 ^ n) .| a = b * 2 ^ n + a.
Proof.
  intros Hn Ha. symmetry. rewrite <- Z.lxor_lor by (by apply land_low_high).
  apply Z.add_nocarry_lxor. by apply land_low_high.
Qed.

(** Side-condition-free specifications of [Z.testbit], with the guard as a
    boolean. *)
Lemma testbit_mod_pow2 a n i :
  0 <= n → Z.testbit (a mod 2 ^ n) i = (i <? n) && Z.testbit a i.
Proof.
  intros Hn. destruct (Z.ltb_spec i n).
  - by rewrite Z.mod_pow2_bits_low.
  - by rewrite Z.mod_pow2_bits_high by lia.
Qed.

Lemma testbit_shiftl a n i : Z.testbit (a << n) i = (0 <=? i) && Z.testbit a (i - n).
Proof.
  destruct (Z.leb_spec 0 i); [by rewrite Z.shiftl_spec|by rewrite Z.testbit_neg_r].
Qed.

Lemma testbit_shiftr a n i : Z.testbit (a >> n) i = (0 <=? i) && Z.testbit a (i + n).
Proof.
  destruct (Z.leb_spec 0 i); [by rewrite Z.shiftr_spec|by rewrite Z.testbit_neg_r].
Qed.

Create Rewrite HintDb bits.
#[export] Hint Rewrite Z.land_spec Z.lor_spec Z.lxor_spec testbit_shiftl
  testbit_shiftr : bits.
#[export] Hint Rewrite testbit_mod_pow2 using lia : bits.

(** Two values below [2^n] with the same low [n] bits are equal. *)
Lemma bits_ext_below n a b :
  0 <= a < 2 ^ n → 0 <= b < 2 ^ n →
  (∀ i, 0 <= i < n → Z.testbit a i = Z.testbit b i) → a = b.
Proof.
  intros Ha Hb H. apply Z.bits_inj'. intros i Hi. destruct (decide (i < n)); [auto|].
  by rewrite !(testbit_high _ n) by lia.
Qed.

(** Masking a single bit. *)
Lemma land_pow2 x n : 0 <= n → x .& 2 ^ n = if Z.testbit x n then 2 ^ n else 0.
Proof.
  intros Hn. apply Z.bits_inj'. intros i Hi. rewrite Z.land_spec, Z.pow2_bits_eqb by done.
  destruct (Z.eqb_spec n i) as [<-|Hne].
  - rewrite andb_true_r. destruct (Z.testbit x n); [by rewrite Z.pow2_bits_true|by rewrite Z.bits_0].
  - rewrite andb_false_r. destruct (Z.testbit x n); [by rewrite Z.pow2_bits_false|by rewrite Z.bits_0].
Qed.

Lemma land_range a b n : 0 <= a < 2 ^ n → 0 <= a .& b < 2 ^ n.
Proof.
  intros Ha. split; [by apply Z.land_nonneg; left; lia|].
  destruct (decide (0 <= n)); [|rewrite Z.pow_neg_r in Ha by lia; lia].
  assert (a .& b = (a .& b) mod 2 ^ n) as ->; [|by apply Z.mod_pos_bound; lia].
  apply Z.bits_inj'. intros i Hi. autorewrite with bits.
  destruct (Z.ltb_spec i n); [done|]. by rewrite (testbit_high a n) by lia.
Qed.

Lemma lor_range a b n : 0 <= a < 2 ^ n → 0 <= b < 2 ^ n → 0 <= a .| b < 2 ^ n.
Proof.
  intros Ha Hb. split; [by apply Z.lor_nonneg; lia|].
  destruct (decide (0 <= n)); [|rewrite Z.pow_neg_r in Ha by lia; lia].
  assert (a .| b = (a .| b) mod 2 ^ n) as ->; [|by apply Z.mod_pos_bound; lia].
  apply Z.bits_inj'. intros i Hi. autorewrite with bits.
  destruct (Z.ltb_spec i n); [done|]. by rewrite !(testbit_high _ n) by lia.
Qed.

Lemma lxor_range a b n : 0 <= a < 2 ^ n → 0 <= b < 2 ^ n → 0 <= a .^ b < 2 ^ n.
Proof.
  intros Ha Hb. split; [by apply Z.lxor_nonneg; lia|].
  destruct (decide (0 <= n)); [|rewrite Z.pow_neg_r in Ha by lia; lia].
  assert (a .^ b = (a .^ b) mod 2 ^ n) as ->; [|by apply Z.mod_pos_bound; lia].
  apply Z.bits_inj'. intros i Hi. autorewrite with bits.
  destruct (Z.ltb_spec i n); [done|]. by rewrite !(testbit_high _ n) by lia.
Qed.

(** ** Arrays with checked accesses

    [None] is an access outside the object, which C leaves undefined. *)

Definition aget {A} (l : list A) (i : Z) : option A :=
  if 0 <=? i then l !! Z.to_nat i else None.

Definition aset {A} (l : list A) (i : Z) (x : A) : option (list A) :=
  if (0 <=? i) && (i <? Z.of_nat (length l)) then Some (<[Z.to_nat i := x]> l)
  else None.

(** [zlen l] is the number of elements as an integer. *)
Abbreviation zlen l := (Z.of_nat (length l)).

(** The bytes [src[off .. off + n)], when they are inside [src]. *)
Definition slice {A} (src : list A) (off n : Z) : option (list A) :=
  if (0 <=? off) && (0 <=? n) && (off + n <=? zlen src)
  then Some (take (Z.to_nat n) (drop (Z.to_nat off) src)) else None.

(** Overwrite [dst[off ..)] with [bs], when it fits. *)
Definition splice {A} (dst : list A) (off : Z) (bs : list A) : option (list A) :=
  if (0 <=? off) && (off + zlen bs <=? zlen dst)
  then Some (take (Z.to_nat off) dst ++ bs ++ drop (Z.to_nat off + length bs) dst)
  else None.

Lemma aget_Some {A} (l : list A) i :
  0 <= i < zlen l → ∃ x, aget l i = Some x ∧ l !! Z.to_nat i = Some x.
Proof.
  intros Hi. unfold aget. destruct (Z.leb_spec 0 i); [|lia].
  destruct (lookup_lt_is_Some_2 l (Z.to_nat i)) as [x Hx]; [lia|]. eauto.
Qed.

Lemma aset_Some {A} (l : list A) i x :
  0 <= i < zlen l → aset l i x = Some (<[Z.to_nat i := x]> l).
Proof. intros Hi. unfold aset. case_cmp; simpl; [done|lia..]. Qed.

Lemma slice_Some {A} (src : list A) off n :
  0 <= off → 0 <= n → off + n <= zlen src →
  slice src off n = Some (take (Z.to_nat n) (drop (Z.to_nat off) src)).
Proof. intros. unfold slice. case_cmp; simpl; [done|lia..]. Qed.

Lemma slice_length {A} (src : list A) off n bs :
  slice src off n = Some bs → zlen bs = n.
Proof.
  unfold slice. case_cmp; simpl; intros; simplify_eq.
  rewrite length_take, length_drop. lia.
Qed.

Lemma splice_Some {A} (dst : list A) off bs :
  0 <= off → off + zlen bs <= zlen dst →
  splice dst off bs =
    Some (take (Z.to_nat off) dst ++ bs ++ drop (Z.to_nat off + length bs) dst).
Proof. intros. unfold splice. case_cmp; simpl; [done|lia..]. Qed.

Lemma splice_length {A} (dst : list A) off bs r :
  splice dst off bs = Some r → length r = length dst.
Proof.
  unfold splice. case_cmp; simpl; intros; simplify_eq.
  rewrite !length_app, length_take, length_drop. lia.
Qed.

(** ** Little-endian byte sequences *)

(** The [n] low bytes of [v], least significant first: what a store of an
    [n]-byte integer leaves in memory on the (little-endian) target. *)
Fixpoint le_bytes (n : nat) (v : Z) : list Z :=
  match n with
  | O => []
  | S n => v mod 256 :: le_bytes n (v / 256)
  end.

Fixpoint le_val (bs : list Z) : Z :=
  match bs with
  | [] => 0
  | b :: bs => b + 256 * le_val bs
  end.

Lemma le_bytes_length n v : length (le_bytes n v) = n.
Proof. revert v. induction n; intros; cbn; auto. Qed.

Lemma le_bytes_bytes n v : Forall is_u8 (le_bytes n v).
Proof.
  revert v. induction n; intros; simpl; constructor; auto.
  apply Z.mod_pos_bound. lia.
Qed.

Lemma le_val_bytes n v : le_val (le_bytes n v) = v mod 256 ^ Z.of_nat n.
Proof.
  revert v. induction n as [|n IH]; intros v.
  - by rewrite Z.mod_1_r.
  - rewrite Nat2Z.inj_succ, Z.pow_succ_r by lia. cbn [le_bytes le_val]. rewrite IH.
    rewrite Z.rem_mul_r; lia.
Qed.

Lemma le_val_range bs : Forall is_u8 bs → 0 <= le_val bs < 256 ^ zlen bs.
Proof.
  induction 1 as [|b bs Hb Hbs IH]; cbn [le_val length]; [lia|].
  rewrite Nat2Z.inj_succ, Z.pow_succ_r by lia. unfold is_u8 in Hb. lia.
Qed.

Lemma le_bytes_val bs : Forall is_u8 bs → le_bytes (length bs) (le_val bs) = bs.
Proof.
  induction 1 as [|b bs Hb Hbs IH]; cbn [le_val le_bytes length]; [done|].
  unfold is_u8 in Hb. rewrite Z.mul_comm, Z.mod_add, Z.div_add by lia.
  by rewrite Z.mod_small, Z.div_small, Z.add_0_l, IH by lia.
Qed.
#[export] Hint Resolve le_bytes_bytes : cint.
#[global] Arguments le_bytes : simpl never.
#[global] Arguments le_val : simpl never.

(** ** Reading and overwriting a middle part of a list *)

Lemma slice_mid {A} (pre bs post : list A) off n :
  off = zlen pre → n = zlen bs → slice (pre ++ bs ++ post) off n = Some bs.
Proof.
  intros -> ->. rewrite slice_Some by (rewrite ?length_app; lia).
  rewrite !Nat2Z.id, drop_app_length, take_app_length. done.
Qed.

Lemma splice_mid {A} (pre bs post bs' : list A) off :
  off = zlen pre → length bs' = length bs →
  splice (pre ++ bs ++ post) off bs' = Some (pre ++ bs' ++ post).
Proof.
  intros -> Hl. rewrite splice_Some by (rewrite ?length_app; lia).
  rewrite !Nat2Z.id, take_app_length, Hl, <- drop_drop, drop_app_length, drop_app_length.
  done.
Qed.

(** Inserting an element elsewhere keeps a decomposition around [e1]. *)
Lemma app_insert_middle {A} (l1 l2 k1 k2 : list A) e e1 :
  l1 ++ l2 = k1 ++ e1 :: k2 →
  ∃ j1 j2, l1 ++ e :: l2 = j1 ++ e1 :: j2 ∧ ∀ y, y ∈ k1 ++ k2 → y ∈ j1 ++ j2.
Proof.
  intros E. destruct (app_eq_inv _ _ _ _ E) as [(z & -> & Ez)|(z & -> & ->)].
  - destruct z as [|z0 z]; cbn in Ez.
    + subst l2. exists (k1 ++ [e]), k2. rewrite app_nil_r, <- app_assoc. split; [done|].
      intros y. rewrite !elem_of_app. tauto.
    + injection Ez as -> ->. exists k1, (z ++ e :: l2). rewrite <- app_assoc. split; [done|].
      intros y. rewrite !elem_of_app, elem_of_cons. tauto.
  - exists (l1 ++ e :: z), k2. rewrite <- app_assoc. split; [done|].
    intros y. rewrite !elem_of_app, elem_of_cons. tauto.
Qed.

(** A sequence of 32-bit words in memory order. *)
Definition words_bytes (ws : list Z) : list Z := flat_map (le_bytes 4) ws.

Lemma words_bytes_app ws1 ws2 :
  words_bytes (ws1 ++ ws2) = words_bytes ws1 ++ words_bytes ws2.
Proof. apply flat_map_app. Qed.

Lemma words_bytes_cons w ws : words_bytes (w :: ws) = le_bytes 4 w ++ words_bytes ws.
Proof. done. Qed.

Lemma words_bytes_length ws : length (words_bytes ws) = (4 * length ws)%nat.
Proof.
  induction ws; [done|]. rewrite words_bytes_cons, length_app, le_bytes_length, IHws.
  simpl. lia.
Qed.

Lemma words_bytes_bytes ws : Forall is_u8 (words_bytes ws).
Proof.
  induction ws; [constructor|]. rewrite words_bytes_cons. apply Forall_app.
  split; [apply le_bytes_bytes|done].
Qed.
#[export] Hint Resolve words_bytes_bytes : cint.

Lemma slice_word ws tail k w off :
  ws !! k = Some w → off = 4 * Z.of_nat k →
  slice (words_bytes ws ++ tail) off 4 = Some (le_bytes 4 w).
Proof.
  intros Hk ->. pose proof (lookup_lt_Some _ _ _ Hk).
  rewrite <- (take_drop_middle ws k w) by done.
  rewrite words_bytes_app, words_bytes_cons, <- !app_assoc.
  apply slice_mid; [|by rewrite le_bytes_length].
  rewrite words_bytes_length, length_take. lia.
Qed.

Lemma splice_word ws tail k w w' off :
  ws !! k = Some w → off = 4 * Z.of_nat k →
  splice (words_bytes ws ++ tail) off (le_bytes 4 w') =
    Some (words_bytes (<[k := w']> ws) ++ tail).
Proof.
  intros Hk ->. pose proof (lookup_lt_Some _ _ _ Hk).
  rewrite (insert_take_drop ws) by done.
  rewrite <- (take_drop_middle ws k w) at 1 by done.
  rewrite !words_bytes_app, !words_bytes_cons, <- !app_assoc.
  apply splice_mid; [|by rewrite !le_bytes_length].
  rewrite words_bytes_length, length_take. lia.
Qed.

(** The 32-bit words stored in a sequence of bytes. *)
Fixpoint words_of (bs : list Z) : list Z :=
  match bs with
  | b0 :: b1 :: b2 :: b3 :: bs => le_val [b0; b1; b2; b3] :: words_of bs
  | _ => []
  end.

Lemma words_of_words ws : Forall is_u32 ws → words_of (words_bytes ws) = ws.
Proof.
  induction 1 as [|w ws Hw _ IH]; [done|]. rewrite words_bytes_cons.
  pose proof (le_val_bytes 4 w) as E. rewrite Z.mod_small in E by done.
  unfold le_bytes in *. cbn [app words_of]. rewrite E. f_equal. done.
Qed.

Lemma words_of_spec n bs :
  length bs = (4 * n)%nat → Forall is_u8 bs →
  length (words_of bs) = n ∧ words_bytes (words_of bs) = bs ∧ Forall is_u32 (words_of bs).
Proof.
  revert bs. induction n as [|n IH]; intros bs Hl Hb.
  - destruct bs; [|done]. by split_and!.
  - do 4 (destruct bs as [|? bs]; [simpl in Hl; lia|]).
    assert (length bs = (4 * n)%nat) as Hl' by (simpl in Hl; lia).
    pose proof Hb as Hb'. do 4 apply Forall_inv_tail in Hb'.
    assert (Forall is_u8 [z; z0; z1; z2]) as H4.
    { do 4 apply Forall_cons in Hb as [? Hb]. by repeat apply Forall_cons_2. }
    destruct (IH bs Hl' Hb') as (E1 & E2 & E3). cbn [words_of]. split_and!.
    + cbn [length]. by rewrite E1.
    + rewrite words_bytes_cons, E2. pose proof (le_bytes_val _ H4) as E. cbn [length] in E. by rewrite E.
    + constructor; [|done]. exact (le_val_range _ H4).
Qed.
