(* ===== verification/Bytes.v ===== *)
(** * Byte strings

    C and C++ strings as lists of bytes: literals, searching
    ([std::string::find], [strchr]), the part before the terminator, and
    splitting at a delimiter. *)

From Stdlib Require Import (notations) String.
From Stdlib Require Ascii.
From S2P Require Import Prelude.

(** String literals. *)
Fixpoint lit (s : String.string) : list Z :=
  match s with
  | String.EmptyString => []
  | String.String c s => Z.of_N (Ascii.N_of_ascii c) :: lit s
  end.
#[global] Arguments lit s%_string.

(** The bytes of a buffer before its first NUL. *)
Fixpoint c_str (l : list Z) : list Z :=
  match l with
  | [] => []
  | c :: l => if c =? 0 then [] else c :: c_str l
  end.

(** First position of a byte. *)
Fixpoint index_of (c : Z) (l : list Z) : option nat :=
  match l with
  | [] => None
  | d :: l => if d =? c then Some O else S <$> index_of c l
  end.

Fixpoint prefixb (p l : list Z) : bool :=
  match p, l with
  | [], _ => true
  | a :: p, b :: l => (a =? b) && prefixb p l
  | _, [] => false
  end.

(** First position of a substring. *)
Fixpoint index_sub (p l : list Z) : option nat :=
  if prefixb p l then Some O
  else match l with [] => None | _ :: l => S <$> index_sub p l end.

(** [s.find(c, pos)]; [None] is [npos]. *)
Definition find_char (l : list Z) (c : Z) (pos : nat) : option nat :=
  (λ i, pos + i)%nat <$> index_of c (drop pos l).

Lemma c_str_id l : Forall (λ c, c ≠ 0) l → c_str l = l.
Proof.
  induction 1 as [|c l Hc _ IH]; cbn; [done|].
  destruct (Z.eqb_spec c 0); [done|]. by rewrite IH.
Qed.

Lemma index_of_app c l r : c ∉ l → index_of c (l ++ c :: r) = Some (length l).
Proof.
  induction l as [|d l IH]; cbn; intros Hn; [by rewrite Z.eqb_refl|].
  apply not_elem_of_cons in Hn as [Hd Hn]. destruct (Z.eqb_spec d c); [congruence|].
  by rewrite IH.
Qed.

Lemma index_of_None c l : index_of c l = None ↔ c ∉ l.
Proof.
  induction l as [|d l IH]; cbn; [by split; [intros _ ?%elem_of_nil|]|].
  rewrite not_elem_of_cons. destruct (Z.eqb_spec d c) as [->|Hne]; [by split; [|intros []]|].
  rewrite fmap_None, IH. by split; [split; [congruence|]|intros []].
Qed.

Lemma index_of_Some c l i :
  index_of c l = Some i → ∃ p r, l = p ++ (c :: r) ∧ (c ∉ p) ∧ i = length p.
Proof.
  revert i. induction l as [|d l IH]; intros i; cbn; [done|].
  destruct (Z.eqb_spec d c) as [->|Hne].
  - intros [= <-]. exists [], l. repeat split. apply not_elem_of_nil.
  - destruct (index_of c l) as [j|]; cbn; [|done]. intros [= <-].
    destruct (IH j eq_refl) as (p & r & -> & Hn & ->). exists (d :: p), r. repeat split.
    apply not_elem_of_cons. by split.
Qed.

Lemma take_drop_delim {A} (p r : list A) c :
  take (length p) (p ++ c :: r) = p ∧ drop (S (length p)) (p ++ c :: r) = r.
Proof.
  rewrite take_app_length. split; [done|].
  replace (S (length p)) with (length p + 1)%nat by lia. by rewrite <- drop_drop, drop_app_length.
Qed.

Lemma prefixb_app p l : prefixb p (p ++ l) = true.
Proof. induction p; cbn; [done|]. by rewrite Z.eqb_refl. Qed.

(** ** Splitting at a delimiter *)

(** The complete pieces, each before a delimiter, and what follows the last. *)
Fixpoint split_at (c : Z) (l : list Z) : list (list Z) * list Z :=
  match l with
  | [] => ([], [])
  | d :: l =>
      let '(ps, r) := split_at c l in
      if d =? c then ([] :: ps, r)
      else match ps with
           | [] => ([], d :: r)
           | p :: ps => ((d :: p) :: ps, r)
           end
  end.

Lemma split_at_none c l : c ∉ l → split_at c l = ([], l).
Proof.
  induction l as [|d l IH]; cbn; [done|]. intros [Hd Hn]%not_elem_of_cons.
  rewrite IH by done. by destruct (Z.eqb_spec d c); [congruence|].
Qed.

Lemma split_at_first c p l : c ∉ p →
  split_at c (p ++ c :: l) = (p :: (split_at c l).1, (split_at c l).2).
Proof.
  induction p as [|d p IH]; cbn; intros Hn.
  - rewrite Z.eqb_refl. by destruct (split_at c l).
  - apply not_elem_of_cons in Hn as [Hd Hn]. rewrite IH by done.
    by destruct (Z.eqb_spec d c); [congruence|].
Qed.

Lemma split_at_rest c l : c ∉ (split_at c l).2.
Proof.
  induction l as [|d l IH]; cbn; [apply not_elem_of_nil|].
  destruct (split_at c l) as [[|p ps] r]; cbn in *; destruct (Z.eqb_spec d c); cbn; try done.
  apply not_elem_of_cons. split; congruence.
Qed.

Lemma split_at_Forall (P : Z → Prop) c l : Forall P l → Forall (Forall P) (split_at c l).1.
Proof.
  induction 1 as [|d l Hd Hl IH]; cbn; [constructor|].
  destruct (split_at c l) as [[|p ps] r]; cbn in *; destruct (d =? c); cbn; auto.
  apply Forall_cons in IH as [? ?]. auto.
Qed.

(** The pieces of a stream do not depend on where it is cut. *)
Lemma split_at_app c l1 l2 :
  split_at c (l1 ++ l2) =
    ((split_at c l1).1 ++ (split_at c ((split_at c l1).2 ++ l2)).1,
     (split_at c ((split_at c l1).2 ++ l2)).2).
Proof.
  induction l1 as [|d l1 IH]; cbn; [by destruct (split_at c l2)|].
  rewrite IH. destruct (split_at c l1) as [ps r] eqn:E1. cbn [fst snd].
  destruct (Z.eqb_spec d c) as [->|Hne].
  - done.
  - destruct ps as [|p ps]; cbn [fst snd app]; [|done].
    cbn [split_at app]. destruct (split_at c (r ++ l2)) as [[|q qs] r2]; cbn;
      by destruct (Z.eqb_spec d c).
Qed.
