(* ===== verification/CNumber.v ===== *)
(** * Numbers in C strings

    [printf("%lx")] and [strtoull(s, &end, 0)] of the C library, on byte
    strings. *)
From Stdlib Require Import (notations) String.
From S2P Require Import Prelude Bytes.

(** A digit as ["%x"] prints it. *)
Definition hex_char (d : Z) : Z := if d <? 10 then 48 + d else 87 + d.

(** The digits of [v], most significant first, before [tl]; 16 are enough for
    64 bits. *)
Fixpoint hex_digits (fuel : nat) (v : Z) (tl : list Z) : list Z :=
  match fuel with
  | O => tl
  | S fuel =>
      let tl := hex_char (v mod 16) :: tl in
      if v / 16 =? 0 then tl else hex_digits fuel (v / 16) tl
  end.

(** ["0x%lx"]. *)
Definition hex_string (v : Z) : list Z := lit "0x" ++ hex_digits 16 v [].

(** ** [strtoull] with base 0 *)

Definition isspace (c : Z) : bool := ((9 <=? c) && (c <=? 13)) || (c =? 32).

Definition digit_value (c : Z) : option Z :=
  if (48 <=? c) && (c <=? 57) then Some (c - 48)
  else if (97 <=? c) && (c <=? 122) then Some (c - 87)
  else if (65 <=? c) && (c <=? 90) then Some (c - 55)
  else None.

Definition is_digit (base c : Z) : bool :=
  match digit_value c with Some d => d <? base | None => false end.

(** The value of the digits at the start of [l], behind [acc]. *)
Fixpoint digits (base : Z) (l : list Z) (acc : Z) : Z :=
  match l with
  | c :: l => match digit_value c with
              | Some d => if d <? base then digits base l (acc * base + d) else acc
              | None => acc
              end
  | [] => acc
  end.

Fixpoint skip_space (l : list Z) : list Z :=
  match l with c :: l' => if isspace c then skip_space l' else l | [] => [] end.

(** The sign, and what follows it. *)
Definition sign_of (l : list Z) : bool * list Z :=
  match l with
  | 45 :: l => (true, l)
  | 43 :: l => (false, l)
  | _ => (false, l)
  end.

(** The base the prefix selects, and the digits behind it. *)
Definition base_of (l : list Z) : Z * list Z :=
  match l with
  | 48 :: x :: d :: l' =>
      if ((x =? 120) || (x =? 88)) && is_digit 16 d then (16, d :: l') else (8, l)
  | 48 :: _ => (8, l)
  | _ => (10, l)
  end.

(** [None]: no digits, [end == s]. A value out of range gives [ULLONG_MAX]. *)
Definition strtoull (s : list Z) : option Z :=
  let '(neg, l) := sign_of (skip_space (c_str s)) in
  let '(base, l) := base_of l in
  match l with
  | c :: _ =>
      if is_digit base c then
        let v := digits base l 0 in
        Some (if 2 ^ 64 <=? v then 2 ^ 64 - 1 else if (neg : bool) then u64 (- v) else v)
      else None
  | [] => None
  end.

(** ** Printing and parsing *)

Lemma digit_value_hex d : 0 <= d < 16 → digit_value (hex_char d) = Some d.
Proof. intros. unfold digit_value, hex_char. case_cmp; cbn [andb]; f_equal; lia. Qed.

Lemma is_digit_hex d : 0 <= d < 16 → is_digit 16 (hex_char d) = true.
Proof. intros. unfold is_digit. rewrite digit_value_hex by done. lia. Qed.

Lemma digits_hex fuel v tl acc : 0 <= v < 16 ^ Z.of_nat fuel → (0 < fuel)%nat →
  ∃ n, 0 <= n ∧ digits 16 (hex_digits fuel v tl) acc = digits 16 tl (acc * 16 ^ n + v).
Proof.
  revert v tl. induction fuel as [|fuel IH]; intros v tl Hv Hf; [lia|].
  cbn [hex_digits]. pose proof (Z.mod_pos_bound v 16 ltac:(lia)) as Hm.
  pose proof (Z.div_mod v 16 ltac:(lia)) as Hd.
  assert (∀ a, digits 16 (hex_char (v mod 16) :: tl) a = digits 16 tl (a * 16 + v mod 16)) as Hs.
  { intros a. cbn [digits]. rewrite digit_value_hex by done.
    by rewrite (proj2 (Z.ltb_lt _ _)) by lia. }
  destruct (Z.eqb_spec (v / 16) 0) as [E|E].
  - exists 1. split; [lia|]. rewrite Hs. f_equal. lia.
  - rewrite Nat2Z.inj_succ, Z.pow_succ_r in Hv by lia.
    pose proof (Z.div_pos v 16 ltac:(lia) ltac:(lia)).
    destruct fuel as [|fuel]; [change (16 ^ Z.of_nat 0) with 1 in Hv; lia|].
    destruct (IH (v / 16) (hex_char (v mod 16) :: tl)) as (n & Hn & ->); [lia|lia|].
    exists (n + 1). split; [lia|]. rewrite Hs, Z.pow_add_r by lia. f_equal. lia.
Qed.

(** Every printed byte is a digit, and there is one. *)
Lemma hex_digits_Forall fuel v tl : 0 <= v → Forall (λ c, is_digit 16 c = true) tl →
  Forall (λ c, is_digit 16 c = true) (hex_digits fuel v tl).
Proof.
  revert v tl. induction fuel as [|fuel IH]; intros v tl Hv Ht; [done|]. cbn [hex_digits].
  pose proof (Z.mod_pos_bound v 16 ltac:(lia)).
  assert (Forall (λ c, is_digit 16 c = true) (hex_char (v mod 16) :: tl))
    by (constructor; [by apply is_digit_hex|done]).
  destruct (v / 16 =? 0); [done|]. apply IH; [|done]. by apply Z.div_pos.
Qed.

Lemma hex_digits_cons fuel v tl : (0 < fuel ∨ tl ≠ [])%nat → hex_digits fuel v tl ≠ [].
Proof.
  revert v tl. induction fuel as [|fuel IH]; intros v tl Hf; cbn [hex_digits]; [intuition lia|].
  destruct (v / 16 =? 0); [done|]. apply IH. by right.
Qed.

(** Parsing what was printed gives the number back. *)
Lemma strtoull_hex_string v : is_u64 v → strtoull (hex_string v) = Some v.
Proof.
  intros Hv. unfold is_u64 in Hv. unfold strtoull, hex_string. set (ds := hex_digits 16 v []).
  assert (Forall (λ c, is_digit 16 c = true) ds) as Hd by (apply hex_digits_Forall; [lia|done]).
  destruct (digits_hex 16 v [] 0) as (n & _ & Ed); [cbn; lia|lia|]. fold ds in Ed.
  assert (c_str (lit "0x" ++ ds) = lit "0x" ++ ds) as ->.
  { apply c_str_id. apply Forall_app. split; [by repeat constructor|].
    eapply Forall_impl; [exact Hd|]. intros c Hc ->. discriminate Hc. }
  destruct ds as [|d ds'] eqn:Eds; [by apply (hex_digits_cons 16 v []) in Eds; [|left; lia]|].
  apply Forall_cons in Hd as [Hd _].
  change (sign_of (skip_space (lit "0x" ++ d :: ds'))) with (false, 48 :: 120 :: d :: ds').
  cbn iota beta. cbn [base_of]. change ((120 =? 120) || (120 =? 88)) with true.
  rewrite Hd. cbn [andb]. rewrite Hd, Ed. cbn [digits].
  rewrite Z.mul_0_l, Z.add_0_l. destruct (Z.leb_spec (2 ^ 64) v); [lia|done].
Qed.

Lemma hex_string_u8 v : is_u64 v → Forall is_u8 (hex_string v).
Proof.
  intros Hv. unfold hex_string. apply Forall_app. split; [by repeat constructor|].
  eapply Forall_impl; [apply (hex_digits_Forall 16 v []); [apply Hv|done]|].
  intros c. unfold is_digit, digit_value, is_u8. case_cmp; cbn [andb]; try discriminate; lia.
Qed.
