(* ===== verification/Arm64.v ===== *)
(** * A64 field helpers ([hook_sdk/src/arm64_constants.h])

    The bit-manipulation helpers, opcode constants, immediate encoders and
    decoders and instruction classifiers every other part of the hook engine
    is built from, with their round trips. *)

From S2P Require Import Prelude.

Module Arm64.

(** ** Bit manipulation helpers *)

Definition Bits (val hi lo : Z) : Z :=
  let width := hi - lo + 1 in (val >> lo) .& (u32 (1 << width) - 1).

Definition Bit (val n : Z) : bool := negb ((val >> n) .& 1 =? 0).

Definition SetBits (val hi lo bits : Z) : Z :=
  let width := hi - lo + 1 in
  let mask := u32 ((u32 (1 << width) - 1) << lo) in
  (val .& not32 mask) .| u32 ((bits .& (u32 (1 << width) - 1)) << lo).

Definition SignExtend (val bits : Z) : Z :=
  let sign_bit := u64 (1 << (bits - 1)) in
  let mask := u64 (u64 (1 << bits) - 1) in
  let val := val .& mask in
  let val := if val .& sign_bit =? 0 then val else val .| not64 mask in
  s64 val.

(** ** Opcodes *)

Definition kOpB : Z := 0x14000000.
Definition kMaskOpB : Z := 0xFC000000.
Definition kOpBL : Z := 0x94000000.
Definition kOpBCond : Z := 0x54000000.
Definition kMaskOpBCond : Z := 0xFF000010.
Definition kOpCBZ : Z := 0x34000000.
Definition kOpCBNZ : Z := 0x35000000.
Definition kOpTBZ : Z := 0x36000000.
Definition kOpTBNZ : Z := 0x37000000.
Definition kOpADRP : Z := 0x90000000.
Definition kOpNOP : Z := 0xD503201F.
Definition kOpBR : Z := 0xD61F0000.
Definition kOpBLR : Z := 0xD63F0000.
Definition kOpMovZ : Z := 0xD2800000.
Definition kOpMovK : Z := 0xF2800000.
Definition kRegX17 : Z := 17.
Definition kRegLR : Z := 30.
Definition kMaxBRange : Z := 1 << 27.

(** ** Immediates

    C division of signed integers truncates, hence [Z.quot]. *)

Definition DecodeImm26 (inst : Z) : Z := SignExtend (inst .& 0x03FFFFFF) 26 * 4.
Definition EncodeImm26 (offset : Z) : Z := (offset ÷ 4) .& 0x03FFFFFF.

Definition DecodeImm19 (inst : Z) : Z := SignExtend (Bits inst 23 5) 19 * 4.
Definition EncodeImm19 (offset : Z) : Z := u32 (((offset ÷ 4) .& 0x7FFFF) << 5).

Definition DecodeCompImm19 (inst : Z) : Z := SignExtend (Bits inst 23 5) 19 * 4.
Definition EncodeCompImm19 (offset : Z) : Z := u32 (((offset ÷ 4) .& 0x7FFFF) << 5).

Definition DecodeImm14 (inst : Z) : Z := SignExtend (Bits inst 18 5) 14 * 4.
Definition EncodeImm14 (offset : Z) : Z := u32 (((offset ÷ 4) .& 0x3FFF) << 5).

Definition DecodeLdrLitImm19 (inst : Z) : Z := SignExtend (Bits inst 23 5) 19 * 4.
Definition EncodeLdrLitImm19 (offset : Z) : Z := u32 (((offset ÷ 4) .& 0x7FFFF) << 5).

Definition DecodeAdrImm (inst : Z) : Z :=
  let immhi := Bits inst 23 5 in
  let immlo := Bits inst 30 29 in
  let imm21 := u32 (immhi << 2) .| immlo in
  SignExtend imm21 21.

Definition EncodeAdrImm (offset : Z) : Z :=
  let imm := u64 offset .& 0x1FFFFF in
  let immlo := imm .& 0x3 in
  let immhi := (imm >> 2) .& 0x7FFFF in
  u32 (immlo << 29) .| u32 (immhi << 5).

Definition DecodeAdrpImm (inst : Z) : Z :=
  let immhi := Bits inst 23 5 in
  let immlo := Bits inst 30 29 in
  let imm21 := u32 (immhi << 2) .| immlo in
  SignExtend imm21 21 * 4096.

Definition EncodeAdrpImm (offset : Z) : Z :=
  let page_offset := offset ÷ 4096 in
  let imm := u64 page_offset .& 0x1FFFFF in
  let immlo := imm .& 0x3 in
  let immhi := (imm >> 2) .& 0x7FFFF in
  u32 (immlo << 29) .| u32 (immhi << 5).

(** ** Classification *)

Definition IsB (inst : Z) : bool := inst .& kMaskOpB =? kOpB.
Definition IsBL (inst : Z) : bool := inst .& kMaskOpB =? kOpBL.
Definition IsBCond (inst : Z) : bool := inst .& kMaskOpBCond =? kOpBCond.
Definition IsCBZ (inst : Z) : bool := inst .& 0x7F000000 =? kOpCBZ.
Definition IsCBNZ (inst : Z) : bool := inst .& 0x7F000000 =? kOpCBNZ.
Definition IsTBZ (inst : Z) : bool := inst .& 0x7F000000 =? kOpTBZ.
Definition IsTBNZ (inst : Z) : bool := inst .& 0x7F000000 =? kOpTBNZ.
Definition IsLdrLiteral (inst : Z) : bool := inst .& 0x3B000000 =? 0x18000000.
Definition IsADR (inst : Z) : bool := inst .& 0x9F000000 =? 0x10000000.
Definition IsADRP (inst : Z) : bool := inst .& 0x9F000000 =? 0x90000000.

Definition CondFromBCond (inst : Z) : Z := inst .& 0xF.
Definition InvertCond (cond : Z) : Z := cond .^ 1.
Definition GetRt (inst : Z) : Z := Bits inst 4 0.
Definition GetRd (inst : Z) : Z := Bits inst 4 0.

(** ** Facts *)

Lemma Bits_eq val hi lo :
  0 <= lo <= hi → hi - lo < 31 →
  Bits val hi lo = (val / 2 ^ lo) mod 2 ^ (hi - lo + 1).
Proof.
  intros H1 H2. unfold Bits. rewrite Z.shiftr_div_pow2, Z.shiftl_1_l by lia.
  rewrite u32_id, land_ones_mod by
    (first [lia|split; [lia|apply Z.pow_lt_mono_r; lia]]). done.
Qed.

Lemma Bits_range val hi lo :
  0 <= lo <= hi → hi - lo < 31 → 0 <= Bits val hi lo < 2 ^ (hi - lo + 1).
Proof. intros. rewrite Bits_eq by done. apply Z.mod_pos_bound. lia. Qed.

Lemma SignExtend_eq val bits :
  1 <= bits <= 63 → 0 <= val < 2 ^ bits →
  SignExtend val bits = if val <? 2 ^ (bits - 1) then val else val - 2 ^ bits.
Proof.
  intros Hb Hv. unfold SignExtend.
  assert (2 ^ bits = 2 * 2 ^ (bits - 1)) as E.
  { rewrite <- Z.pow_succ_r by lia. f_equal. lia. }
  assert (2 ^ bits < 2 ^ 64) by (apply Z.pow_lt_mono_r; lia).
  rewrite !Z.shiftl_1_l, (u64_id (2 ^ bits)), (u64_id (2 ^ bits - 1)),
    (u64_id (2 ^ (bits - 1))) by (unfold is_u64; lia).
  rewrite land_ones_mod, Z.mod_small by lia.
  assert (val .& 2 ^ (bits - 1) = if val <? 2 ^ (bits - 1) then 0 else 2 ^ (bits - 1)) as ->.
  { apply Z.bits_inj'. intros i Hi. rewrite Z.land_spec, Z.pow2_bits_eqb by lia.
    destruct (Z.eqb_spec (bits - 1) i) as [<-|Hne].
    - rewrite andb_true_r. case_cmp.
      + by rewrite (testbit_high val (bits - 1)), Z.bits_0 by lia.
      + rewrite Z.pow2_bits_true by lia.
        apply Z.testbit_true; [lia|].
        assert (val / 2 ^ (bits - 1) = 1) as ->; [|done].
        symmetry. apply Z.div_unique with (val - 2 ^ (bits - 1)); lia.
    - rewrite andb_false_r. case_cmp; [by rewrite Z.bits_0|].
      by rewrite Z.pow2_bits_false. }
  destruct (Z.ltb_spec val (2 ^ (bits - 1))).
  - rewrite Z.eqb_refl. apply s64_small.
    assert (2 ^ (bits - 1) <= 2 ^ 62) by (apply Z.pow_le_mono_r; lia). lia.
  - destruct (Z.eqb_spec (2 ^ (bits - 1)) 0); [lia|].
    assert (not64 (2 ^ bits - 1) = (2 ^ (64 - bits) - 1) * 2 ^ bits) as ->.
    { unfold not64. rewrite u64_id by (unfold is_u64; lia).
      rewrite Z.mul_sub_distr_r, <- Z.pow_add_r by lia.
      replace (64 - bits + bits) with 64 by lia. lia. }
    rewrite Z.lor_comm, lor_low_high by lia.
    rewrite Z.mul_sub_distr_r, <- Z.pow_add_r by lia.
    replace (64 - bits + bits) with 64 by lia.
    rewrite <- (s64_small (val - 2 ^ bits)).
    + unfold s64. assert (u64 (2 ^ 64 - 1 * 2 ^ bits + val) = u64 (val - 2 ^ bits)) as ->;
        [|done]. replace (2 ^ 64 - 1 * 2 ^ bits + val) with (val - 2 ^ bits + 1 * 2 ^ 64) by lia.
      apply Z_mod_plus_full.
    + assert (2 ^ bits <= 2 ^ 63) by (apply Z.pow_le_mono_r; lia). lia.
Qed.

(** Sign extension of the low [bits] bits of an offset gives it back when it
    is in the two's-complement range of the field. *)
Lemma SignExtend_mod off bits :
  1 <= bits <= 63 → - 2 ^ (bits - 1) <= off < 2 ^ (bits - 1) →
  SignExtend (off mod 2 ^ bits) bits = off.
Proof.
  intros Hb Ho.
  assert (2 ^ bits = 2 * 2 ^ (bits - 1)) as E.
  { rewrite <- Z.pow_succ_r by lia. f_equal. lia. }
  rewrite SignExtend_eq by (try apply Z.mod_pos_bound; lia).
  destruct (decide (0 <= off)).
  - rewrite Z.mod_small by lia. case_cmp; lia.
  - assert (off mod 2 ^ bits = off + 2 ^ bits) as ->.
    { rewrite <- (Z_mod_plus_full off 1), Z.mod_small; lia. }
    case_cmp; lia.
Qed.

Lemma Bits_lor a b hi lo : Bits (a .| b) hi lo = Bits a hi lo .| Bits b hi lo.
Proof. unfold Bits. by rewrite Z.shiftr_lor, Z.land_lor_distr_l. Qed.

(** The field written by [x << lo] is read back by [Bits]. *)
Lemma Bits_field x hi lo :
  0 <= lo <= hi → hi < 31 → 0 <= x < 2 ^ (hi - lo + 1) → Bits (u32 (x << lo)) hi lo = x.
Proof.
  intros H1 H2 Hx. rewrite Bits_eq by lia. rewrite Z.shiftl_mul_pow2 by lia.
  assert (x * 2 ^ lo < 2 ^ 32).
  { apply Z.lt_le_trans with (2 ^ (hi - lo + 1) * 2 ^ lo); [nia|].
    rewrite <- Z.pow_add_r by lia. apply Z.pow_le_mono_r; lia. }
  rewrite u32_id by (unfold is_u32; nia).
  rewrite Z.div_mul by lia. by apply Z.mod_small.
Qed.

(** A field read at a position the shifted value does not reach is zero. *)
Lemma Bits_below x n hi lo :
  0 <= lo <= hi → hi < n → n < 32 → Bits (u32 (x << n)) hi lo = 0.
Proof.
  intros H1 H2 H3. rewrite Bits_eq by lia. unfold u32.
  rewrite <- Z.shiftr_div_pow2, <- Z.land_ones by lia.
  apply Z.bits_inj'. intros i Hi. autorewrite with bits. rewrite Z.bits_0.
  rewrite Z.testbit_ones_nonneg by lia. case_cmp; simpl; try lia;
    rewrite ?(Z.testbit_neg_r x) by lia; by rewrite ?andb_false_r.
Qed.

Lemma Bits_above x n hi lo :
  0 <= lo <= hi → hi < 31 → 0 <= n < lo → 0 <= x < 2 ^ (lo - n) → Bits (u32 (x << n)) hi lo = 0.
Proof.
  intros H1 H2 H3 Hx. rewrite Bits_eq by lia. rewrite Z.shiftl_mul_pow2 by lia.
  assert (x * 2 ^ n < 2 ^ lo).
  { apply Z.lt_le_trans with (2 ^ (lo - n) * 2 ^ n); [nia|].
    rewrite <- Z.pow_add_r by lia. apply Z.pow_le_mono_r; lia. }
  assert (2 ^ lo < 2 ^ 32) by (apply Z.pow_lt_mono_r; lia).
  rewrite u32_id by (unfold is_u32; nia). rewrite (Z.div_small (x * 2 ^ n)) by nia.
  apply Z.mod_0_l. lia.
Qed.

Lemma quot_exact off k : 0 < k → off mod k = 0 → off ÷ k = off / k.
Proof.
  intros Hk H. apply Z.mod_divide in H as [q ->]; [|lia].
  by rewrite Z.quot_mul, Z.div_mul by lia.
Qed.

(** The common shape of the word-scaled immediates. *)
Lemma scaled_imm_roundtrip off n :
  2 <= n <= 60 → off mod 4 = 0 → - 2 ^ (n + 1) <= off < 2 ^ (n + 1) →
  SignExtend ((off ÷ 4) .& (2 ^ n - 1)) n * 4 = off.
Proof.
  intros Hn Hm Ho. rewrite land_ones_mod, quot_exact by lia.
  assert (2 ^ (n + 1) = 4 * 2 ^ (n - 1)) as E.
  { change 4 with (2 ^ 2). rewrite <- Z.pow_add_r by lia. f_equal. lia. }
  rewrite SignExtend_mod by (Z.to_euclidean_division_equations; lia). zmod_lia.
Qed.

Lemma EncodeImm26_range off : 0 <= EncodeImm26 off < 2 ^ 26.
Proof. unfold EncodeImm26. mask_mod. apply Z.mod_pos_bound. lia. Qed.

Lemma Imm26_roundtrip base off :
  base .& 0x03FFFFFF = 0 → off mod 4 = 0 → - 2 ^ 27 <= off < 2 ^ 27 →
  DecodeImm26 (base .| EncodeImm26 off) = off.
Proof.
  intros Hb Hm Ho. unfold DecodeImm26. rewrite Z.land_lor_distr_l, Hb, Z.lor_0_l.
  unfold EncodeImm26. rewrite <- Z.land_assoc, Z.land_diag.
  by apply (scaled_imm_roundtrip off 26).
Qed.

Lemma imm19_field off :
  Bits (u32 (((off ÷ 4) .& 0x7FFFF) << 5)) 23 5 = (off ÷ 4) .& (2 ^ 19 - 1).
Proof.
  apply Bits_field; [lia|lia|]. mask_mod. apply Z.mod_pos_bound. lia.
Qed.

Lemma Imm19_roundtrip base off :
  Bits base 23 5 = 0 → off mod 4 = 0 → - 2 ^ 20 <= off < 2 ^ 20 →
  DecodeImm19 (base .| EncodeImm19 off) = off.
Proof.
  intros Hb Hm Ho. unfold DecodeImm19, EncodeImm19.
  rewrite Bits_lor, Hb, Z.lor_0_l, imm19_field. by apply scaled_imm_roundtrip.
Qed.

Lemma Imm14_roundtrip base off :
  Bits base 18 5 = 0 → off mod 4 = 0 → - 2 ^ 15 <= off < 2 ^ 15 →
  DecodeImm14 (base .| EncodeImm14 off) = off.
Proof.
  intros Hb Hm Ho. unfold DecodeImm14, EncodeImm14.
  rewrite Bits_lor, Hb, Z.lor_0_l, Bits_field; [|lia|lia|].
  - by apply (scaled_imm_roundtrip off 14).
  - mask_mod. apply Z.mod_pos_bound. lia.
Qed.

(** The split 21-bit immediate of ADR and ADRP. *)
Lemma adr_fields base imm :
  Bits base 23 5 = 0 → Bits base 30 29 = 0 → 0 <= imm < 2 ^ 21 →
  let w := base .| (u32 ((imm .& 3) << 29) .| u32 (((imm >> 2) .& 0x7FFFF) << 5)) in
  u32 (Bits w 23 5 << 2) .| Bits w 30 29 = imm.
Proof.
  intros Hb1 Hb2 Hi w. subst w.
  assert (0 <= imm .& 3 < 2 ^ 2) by (mask_mod; apply Z.mod_pos_bound; lia).
  assert (0 <= (imm >> 2) .& 0x7FFFF < 2 ^ 19) by (mask_mod; apply Z.mod_pos_bound; lia).
  rewrite !Bits_lor, Hb1, Hb2, !Z.lor_0_l.
  rewrite (Bits_field _ 23 5), (Bits_field _ 30 29), Bits_below, Bits_above by lia.
  rewrite Z.lor_0_l, Z.lor_0_r.
  assert (((imm >> 2) .& 0x7FFFF) = imm / 4) as ->.
  { mask_mod. rewrite Z.shiftr_div_pow2 by lia. change (2 ^ 2) with 4.
    apply Z.mod_small. zmod_lia. }
  mask_mod. rewrite Z.shiftl_mul_pow2 by lia. rewrite u32_id by zmod_lia.
  rewrite lor_low_high by zmod_lia. zmod_lia.
Qed.

Lemma AdrImm_roundtrip base off :
  Bits base 23 5 = 0 → Bits base 30 29 = 0 → - 2 ^ 20 <= off < 2 ^ 20 →
  DecodeAdrImm (base .| EncodeAdrImm off) = off.
Proof.
  intros Hb1 Hb2 Ho. unfold DecodeAdrImm, EncodeAdrImm. rewrite adr_fields; [|done..|].
  - assert (u64 off .& 0x1FFFFF = off mod 2 ^ 21) as ->.
    { mask_mod. zmod_lia. }
    by apply SignExtend_mod.
  - mask_mod. apply Z.mod_pos_bound. lia.
Qed.

Lemma AdrpImm_roundtrip base off :
  Bits base 23 5 = 0 → Bits base 30 29 = 0 → off mod 4096 = 0 → - 2 ^ 32 <= off < 2 ^ 32 →
  DecodeAdrpImm (base .| EncodeAdrpImm off) = off.
Proof.
  intros Hb1 Hb2 Hm Ho. unfold DecodeAdrpImm, EncodeAdrpImm. rewrite adr_fields; [|done..|].
  - rewrite quot_exact by lia.
    assert (u64 (off / 4096) .& 0x1FFFFF = (off / 4096) mod 2 ^ 21) as ->.
    { mask_mod. zmod_lia. }
    rewrite SignExtend_mod by (Z.to_euclidean_division_equations; lia). zmod_lia.
  - mask_mod. apply Z.mod_pos_bound. lia.
Qed.

(** ** Classifiers as field comparisons *)

Lemma land_shifted x m n : 0 <= n → x .& (m * 2 ^ n) = ((x / 2 ^ n) .& m) * 2 ^ n.
Proof.
  intros Hn. rewrite <- !Z.shiftl_mul_pow2, <- Z.shiftr_div_pow2 by done.
  apply Z.bits_inj'. intros i Hi. autorewrite with bits.
  destruct (decide (i < n)).
  - by rewrite !(Z.testbit_neg_r _ (i - n)), !andb_false_r by lia.
  - replace (i - n + n) with i by lia. case_cmp; simpl; [done|lia..].
Qed.

Lemma land_shifted_eqb x m n v :
  0 <= n → (x .& (m * 2 ^ n) =? v * 2 ^ n) = ((x / 2 ^ n) .& m =? v).
Proof.
  intros Hn. rewrite land_shifted by done. pose proof (Z.pow_pos_nonneg 2 n).
  apply eq_true_iff_eq. rewrite !Z.eqb_eq. nia.
Qed.

(** The top byte of an instruction word. *)
Definition top (inst : Z) : Z := inst / 2 ^ 24.

Lemma top_range inst : is_u32 inst → 0 <= top inst < 256.
Proof. unfold is_u32, top. intros. zmod_lia. Qed.

Lemma IsB_top inst : IsB inst = (top inst .& 0xFC =? 0x14).
Proof. apply (land_shifted_eqb inst 0xFC 24 0x14). lia. Qed.
Lemma IsBL_top inst : IsBL inst = (top inst .& 0xFC =? 0x94).
Proof. apply (land_shifted_eqb inst 0xFC 24 0x94). lia. Qed.
Lemma IsCBZ_top inst : IsCBZ inst = (top inst .& 0x7F =? 0x34).
Proof. apply (land_shifted_eqb inst 0x7F 24 0x34). lia. Qed.
Lemma IsCBNZ_top inst : IsCBNZ inst = (top inst .& 0x7F =? 0x35).
Proof. apply (land_shifted_eqb inst 0x7F 24 0x35). lia. Qed.
Lemma IsTBZ_top inst : IsTBZ inst = (top inst .& 0x7F =? 0x36).
Proof. apply (land_shifted_eqb inst 0x7F 24 0x36). lia. Qed.
Lemma IsTBNZ_top inst : IsTBNZ inst = (top inst .& 0x7F =? 0x37).
Proof. apply (land_shifted_eqb inst 0x7F 24 0x37). lia. Qed.
Lemma IsLdrLiteral_top inst : IsLdrLiteral inst = (top inst .& 0x3B =? 0x18).
Proof. apply (land_shifted_eqb inst 0x3B 24 0x18). lia. Qed.
Lemma IsADR_top inst : IsADR inst = (top inst .& 0x9F =? 0x10).
Proof. apply (land_shifted_eqb inst 0x9F 24 0x10). lia. Qed.
Lemma IsADRP_top inst : IsADRP inst = (top inst .& 0x9F =? 0x90).
Proof. apply (land_shifted_eqb inst 0x9F 24 0x90). lia. Qed.

Lemma IsBCond_top inst :
  is_u32 inst → IsBCond inst = (top inst =? 0x54) && negb (Z.testbit inst 4).
Proof.
  intros Hi. unfold IsBCond, kMaskOpBCond, kOpBCond, top.
  change 0xFF000010 with (0xFF * 2 ^ 24 .| 2 ^ 4).
  rewrite Z.land_lor_distr_r, land_shifted by lia.
  assert (inst .& 2 ^ 4 = if Z.testbit inst 4 then 2 ^ 4 else 0) as ->.
  { apply Z.bits_inj'. intros i Hi'. rewrite Z.land_spec, Z.pow2_bits_eqb by lia.
    destruct (Z.eqb_spec 4 i) as [<-|]; destruct (Z.testbit inst 4);
      rewrite ?Z.bits_0, ?Z.pow2_bits_eqb, ?andb_false_r by lia; try done.
    by destruct (Z.eqb_spec 4 i). }
  change 0xFF with (2 ^ 8 - 1). rewrite land_ones_mod by lia.
  rewrite (Z.mod_small (inst / 2 ^ 24)) by zmod_lia.
  destruct (Z.testbit inst 4); simpl negb; rewrite ?andb_true_r, ?andb_false_r, ?Z.lor_0_r.
  - rewrite lor_low_high by lia. apply Z.eqb_neq. zmod_lia.
  - apply eq_true_iff_eq. rewrite !Z.eqb_eq. zmod_lia.
Qed.

(** The classes of PC-relative instructions the relocator distinguishes. *)
Definition class_tests (inst : Z) : list bool :=
  [IsB inst; IsBL inst; IsBCond inst; IsCBZ inst; IsCBNZ inst; IsTBZ inst;
   IsTBNZ inst; IsLdrLiteral inst; IsADR inst; IsADRP inst].

Definition top_tests (t : Z) : list bool :=
  [t .& 0xFC =? 0x14; t .& 0xFC =? 0x94; t =? 0x54; t .& 0x7F =? 0x34;
   t .& 0x7F =? 0x35; t .& 0x7F =? 0x36; t .& 0x7F =? 0x37; t .& 0x3B =? 0x18;
   t .& 0x9F =? 0x10; t .& 0x9F =? 0x90].

(** Case analysis over the 256 values of a byte by evaluation. *)
Lemma byte_cases (P : Z → bool) :
  forallb P (seqZ 0 256) = true → ∀ t, 0 <= t < 256 → P t = true.
Proof.
  intros H t Ht. rewrite forallb_forall in H. apply H.
  rewrite <- list_elem_of_In. apply elem_of_seqZ. lia.
Qed.

Lemma top_tests_exclusive t :
  0 <= t < 256 → (length (filter Is_true (top_tests t)) <= 1)%nat.
Proof.
  intros Ht. apply Nat.leb_le. revert t Ht.
  apply (byte_cases (λ t, (length (filter Is_true (top_tests t)) <=? 1)%nat)).
  vm_compute. done.
Qed.

Lemma count_true_drop (l1 l2 : list bool) (b : bool) :
  (length (filter Is_true (l1 ++ false :: l2)) <=
   length (filter Is_true (l1 ++ b :: l2)))%nat.
Proof. 
  rewrite !filter_app, !length_app, !filter_cons.
  destruct b; repeat case_decide; simpl in *; tauto || lia.
Qed.

(** The ten classifiers of [arm64_constants.h] are mutually exclusive on
    every 32-bit instruction word, so the order of the [else if] chain in
    [RelocateInstructions] never decides how an instruction is relocated. *)
Theorem classifiers_exclusive inst :
  is_u32 inst → (length (filter Is_true (class_tests inst)) <= 1)%nat.
Proof.
  intros Hi. unfold class_tests.
  rewrite IsB_top, IsBL_top, IsBCond_top, IsCBZ_top, IsCBNZ_top, IsTBZ_top,
    IsTBNZ_top, IsLdrLiteral_top, IsADR_top, IsADRP_top by done.
  pose proof (top_tests_exclusive (top inst) (top_range _ Hi)) as H.
  unfold top_tests in H. destruct (top inst =? 0x54), (Z.testbit inst 4); try exact H.
  eapply Nat.le_trans; [|exact H]. apply (count_true_drop [_; _]).
Qed.

Lemma classifiers_exclusive_witness :
  is_u32 0x54000040 ∧ (length (filter Is_true (class_tests 0x54000040)) <= 1)%nat.
Proof.
  split; [unfold is_u32; lia|]. apply (classifiers_exclusive 0x54000040).
  unfold is_u32. lia.
Defined.

End Arm64.
