(* ===== verification/Arm64Machine.v ===== *)
(** * The A64 instructions the hook engine reads and emits

    Specification vocabulary: a decoder and a one-step semantics, written from
    the Arm Architecture Reference Manual, of the PC-relative instructions the
    relocator rewrites and of the instructions the assembler emits. The
    program contains no such interpreter; it is what "jumps to [to]" and
    "behaves like the original instruction" mean in the theorems about
    [assembler.cpp], [relocator.cpp] and [trampoline.cpp]. The encodings are
    compared field by field with [/] and [mod], independently of the masks of
    [arm64_constants.h]. *)

From S2P Require Import Prelude.

Module A64.

Definition sext (n x : Z) : Z := if x <? 2 ^ (n - 1) then x else x - 2 ^ n.

(** Bits [lo .. lo+n) of a word. *)
Definition fld (w lo n : Z) : Z := (w / 2 ^ lo) mod 2 ^ n.

Inductive inst : Set :=
| IB (off : Z)
| IBL (off : Z)
| IBcond (cond off : Z)
| ICB (nz : bool) (sf rt off : Z)
| ITB (nz : bool) (bit rt off : Z)
| ILdrLit (opc v rt off : Z)
| IAdr (rd off : Z)
| IAdrp (rd off : Z)
| IBr (rn : Z)
| IBlr (rn : Z)
| ILdrX (rt rn off : Z)
| ILdrW (rt rn off : Z)
| IMov (rd rm : Z)
| IAddImm (rd rn imm : Z)
| IMovz (rd imm hw : Z)
| IMovk (rd imm hw : Z)
| INop
| IOther (w : Z).

(** The instructions that are not PC-relative. *)
Definition decode_plain (w : Z) : inst :=
  if (fld w 10 22 =? 0x3587C0) && (fld w 0 5 =? 0) then IBr (fld w 5 5)
  else if (fld w 10 22 =? 0x358FC0) && (fld w 0 5 =? 0) then IBlr (fld w 5 5)
  else if fld w 22 10 =? 0x3E5 then ILdrX (fld w 0 5) (fld w 5 5) (8 * fld w 10 12)
  else if fld w 22 10 =? 0x2E5 then ILdrW (fld w 0 5) (fld w 5 5) (4 * fld w 10 12)
  else if (fld w 21 11 =? 0x550) && (fld w 5 11 =? 0x1F)
  then IMov (fld w 0 5) (fld w 16 5)
  else if fld w 22 10 =? 0x244 then IAddImm (fld w 0 5) (fld w 5 5) (fld w 10 12)
  else if fld w 23 9 =? 0x1A5 then IMovz (fld w 0 5) (fld w 5 16) (fld w 21 2)
  else if fld w 23 9 =? 0x1E5 then IMovk (fld w 0 5) (fld w 5 16) (fld w 21 2)
  else if w =? 0xD503201F then INop
  else IOther w.

Definition decode (w : Z) : inst :=
  if fld w 26 6 =? 0x05 then IB (4 * sext 26 (fld w 0 26))
  else if fld w 26 6 =? 0x25 then IBL (4 * sext 26 (fld w 0 26))
  else if (fld w 24 8 =? 0x54) && (fld w 4 1 =? 0)
  then IBcond (fld w 0 4) (4 * sext 19 (fld w 5 19))
  else if fld w 25 6 =? 0x1A
  then ICB (fld w 24 1 =? 1) (fld w 31 1) (fld w 0 5) (4 * sext 19 (fld w 5 19))
  else if fld w 25 6 =? 0x1B
  then ITB (fld w 24 1 =? 1) (32 * fld w 31 1 + fld w 19 5) (fld w 0 5)
         (4 * sext 14 (fld w 5 14))
  else if (fld w 27 3 =? 3) && (fld w 24 2 =? 0)
  then ILdrLit (fld w 30 2) (fld w 26 1) (fld w 0 5) (4 * sext 19 (fld w 5 19))
  else if (fld w 24 5 =? 0x10) && (fld w 31 1 =? 0)
  then IAdr (fld w 0 5) (sext 21 (4 * fld w 5 19 + fld w 29 2))
  else if (fld w 24 5 =? 0x10) && (fld w 31 1 =? 1)
  then IAdrp (fld w 0 5) (4096 * sext 21 (4 * fld w 5 19 + fld w 29 2))
  else decode_plain w.

(** PC-relative instructions. *)
Definition pc_relative (i : inst) : bool :=
  match i with
  | IB _ | IBL _ | IBcond _ _ | ICB _ _ _ _ | ITB _ _ _ _ | ILdrLit _ _ _ _
  | IAdr _ _ | IAdrp _ _ => true
  | _ => false
  end.

(** ** Machine state *)

Record state : Type := State {
  xr : Z → Z;        (* X0 .. X30 *)
  vr : Z → Z;        (* SIMD and floating-point registers *)
  sp : Z;
  nzcv : bool * bool * bool * bool;
  pc : Z;
  mem : Z → Z        (* bytes *)
}.

Definition set_pc (s : state) (p : Z) : state :=
  State (xr s) (vr s) (sp s) (nzcv s) (u64 p) (mem s).
Definition set_x (s : state) (r v : Z) : state :=
  State (λ q, if (q =? r) && negb (r =? 31) then u64 v else xr s q)
    (vr s) (sp s) (nzcv s) (pc s) (mem s).
Definition set_v (s : state) (r v : Z) : state :=
  State (xr s) (λ q, if q =? r then v else vr s q) (sp s) (nzcv s) (pc s) (mem s).

(** Register 31 is XZR for data and SP as a base or in ADD (immediate). *)
Definition get_x (s : state) (r : Z) : Z := if r =? 31 then 0 else xr s r.
Definition get_xsp (s : state) (r : Z) : Z := if r =? 31 then sp s else xr s r.

Definition load (s : state) (a : Z) (n : nat) : Z :=
  le_val (map (λ i, mem s (u64 (a + Z.of_nat i))) (seq 0 n)).

(** [ConditionHolds] of the Arm manual: condition 1111 is "always", like 1110. *)
Definition cond_holds (f : bool * bool * bool * bool) (c : Z) : bool :=
  let '(n, z, cf, v) := f in
  let base :=
    match c / 2 with
    | 0 => z | 1 => cf | 2 => n | 3 => v
    | 4 => cf && negb z
    | 5 => Bool.eqb n v
    | 6 => Bool.eqb n v && negb z
    | _ => true
    end in
  if (c mod 2 =? 1) && negb (c =? 15) then negb base else base.

Definition next (s : state) : state := set_pc s (pc s + 4).

(** One instruction; [None] for an instruction outside the modelled subset. *)
Definition exec (i : inst) (s : state) : option state :=
  match i with
  | IB off => Some (set_pc s (pc s + off))
  | IBL off => Some (set_pc (set_x s 30 (pc s + 4)) (pc s + off))
  | IBcond c off =>
      Some (if cond_holds (nzcv s) c then set_pc s (pc s + off) else next s)
  | ICB nz sf rt off =>
      let v := if sf =? 1 then get_x s rt else get_x s rt mod 2 ^ 32 in
      Some (if xorb (v =? 0) nz then set_pc s (pc s + off) else next s)
  | ITB nz bit rt off =>
      Some (if Bool.eqb (Z.testbit (get_x s rt) bit) nz
            then set_pc s (pc s + off) else next s)
  | ILdrLit opc v rt off =>
      let a := pc s + off in
      if v =? 0 then
        if opc =? 0 then Some (next (set_x s rt (load s a 4)))
        else if opc =? 1 then Some (next (set_x s rt (load s a 8)))
        else if opc =? 2 then Some (next (set_x s rt (sext 32 (load s a 4))))
        else Some (next s)
      else
        if opc =? 0 then Some (next (set_v s rt (load s a 4)))
        else if opc =? 1 then Some (next (set_v s rt (load s a 8)))
        else if opc =? 2 then Some (next (set_v s rt (load s a 16)))
        else None
  | IAdr rd off => Some (next (set_x s rd (pc s + off)))
  | IAdrp rd off => Some (next (set_x s rd (pc s / 4096 * 4096 + off)))
  | IBr rn => Some (set_pc s (get_x s rn))
  | IBlr rn => Some (set_pc (set_x s 30 (pc s + 4)) (get_x s rn))
  | ILdrX rt rn off => Some (next (set_x s rt (load s (get_xsp s rn + off) 8)))
  | ILdrW rt rn off => Some (next (set_x s rt (load s (get_xsp s rn + off) 4)))
  | IMov rd rm => Some (next (set_x s rd (get_x s rm)))
  | IAddImm rd rn imm => Some (next (set_x s rd (get_xsp s rn + imm)))
  | IMovz rd imm hw => Some (next (set_x s rd (imm * 2 ^ (16 * hw))))
  | IMovk rd imm hw =>
      let x := get_x s rd in
      Some (next (set_x s rd (x - fld x (16 * hw) 16 * 2 ^ (16 * hw)
                                + imm * 2 ^ (16 * hw))))
  | INop => Some (next s)
  | IOther _ => None
  end.

Definition fetch (s : state) : Z := load s (pc s) 4.

Definition step (s : state) : option state := exec (decode (fetch s)) s.

Fixpoint run (n : nat) (s : state) : option state :=
  match n with
  | O => Some s
  | S n => s' ← step s; run n s'
  end.

(** The bytes [bs] are in memory at [a]. *)
Definition code_at (m : Z → Z) (a : Z) (bs : list Z) : Prop :=
  ∀ i b, bs !! i = Some b → m (u64 (a + Z.of_nat i)) = b.

(** Two states that agree on everything but the listed general registers. *)
Definition agree_but (rs : list Z) (s t : state) : Prop :=
  (∀ r, r ∉ rs → xr s r = xr t r) ∧ vr s = vr t ∧ sp s = sp t ∧
  nzcv s = nzcv t ∧ mem s = mem t.

(** ** Facts *)

Lemma code_at_app m a bs1 bs2 :
  code_at m a (bs1 ++ bs2) ↔ code_at m a bs1 ∧ code_at m (a + zlen bs1) bs2.
Proof.
  unfold code_at. split.
  - intros H. split; intros i b Hi.
    + apply H. by apply lookup_app_l_Some.
    + replace (a + zlen bs1 + Z.of_nat i) with (a + Z.of_nat (length bs1 + i)) by lia.
      apply H. rewrite lookup_app_r by lia. rewrite <- Hi. f_equal. lia.
  - intros [H1 H2] i b Hi. apply lookup_app_Some in Hi as [Hi|[Hl Hi]]; [by apply H1|].
    replace (a + Z.of_nat i) with (a + zlen bs1 + Z.of_nat (i - length bs1)) by lia.
    by apply H2.
Qed.

(** A memory that holds exactly [bs] at [base]. *)
Definition place (base : Z) (bs : list Z) (a : Z) : Z :=
  default 0 (bs !! Z.to_nat (a - base)).

Lemma code_at_place base bs :
  0 <= base → base + zlen bs <= 2 ^ 64 → code_at (place base bs) base bs.
Proof.
  intros Hb Hl i b Hi. pose proof (lookup_lt_Some _ _ _ Hi). unfold place.
  rewrite u64_id by (unfold is_u64; lia).
  replace (Z.to_nat (base + Z.of_nat i - base)) with i by lia. by rewrite Hi.
Qed.

Lemma load_code s a bs : code_at (mem s) a bs → load s a (length bs) = le_val bs.
Proof.
  intros H. unfold load. f_equal. apply list_eq. intros i. rewrite list_lookup_fmap.
  destruct (decide (i < length bs)%nat).
  - rewrite lookup_seq_lt by lia. simpl. destruct (lookup_lt_is_Some_2 bs i) as [b Hb]; [lia|].
    rewrite Hb. f_equal. by apply H.
  - rewrite (lookup_ge_None_2 (seq _ _)) by (rewrite length_seq; lia).
    by rewrite lookup_ge_None_2 by lia.
Qed.

Lemma load_word s a w : is_u32 w → code_at (mem s) a (le_bytes 4 w) → load s a 4 = w.
Proof.
  intros Hw H. apply load_code in H. rewrite le_bytes_length, le_val_bytes in H.
  rewrite H. by apply Z.mod_small.
Qed.

Lemma load_dword s a w : is_u64 w → code_at (mem s) a (le_bytes 8 w) → load s a 8 = w.
Proof.
  intros Hw H. apply load_code in H. rewrite le_bytes_length, le_val_bytes in H.
  rewrite H. by apply Z.mod_small.
Qed.

(** Execute the instruction word [w] known to be in memory at the pc. *)
Lemma step_word s w i :
  is_u32 w → code_at (mem s) (pc s) (le_bytes 4 w) → decode w = i → step s = exec i s.
Proof. intros Hw H <-. unfold step, fetch. by rewrite (load_word s _ w). Qed.

Lemma run_S n s : run (S n) s = s' ← step s; run n s'.
Proof. done. Qed.

Lemma run_app n m s : run (n + m) s = s' ← run n s; run m s'.
Proof.
  revert s. induction n as [|n IH]; intros s; simpl; [done|].
  destruct (step s); simpl; auto.
Qed.

(** Evaluate the decoder on a word whose fields [lia] can compute. *)
Ltac eval_eqb :=
  match goal with
  | |- context [?a =? ?b] =>
      first
        [ replace (a =? b) with false by (symmetry; apply Z.eqb_neq; zmod_lia)
        | replace (a =? b) with true by (symmetry; apply Z.eqb_eq; zmod_lia) ]
  end; cbn [andb orb].

Ltac decode_word := unfold decode, decode_plain, fld; repeat eval_eqb.

(** [LDR X17, label] with a forward displacement of [n] words. *)
Lemma decode_ldr_x17 n :
  0 <= n < 2 ^ 18 → decode (0x58000011 + 32 * n) = ILdrLit 1 0 17 (4 * n).
Proof.
  intros Hn. decode_word. unfold sext. f_equal; [zmod_lia..|].
  replace ((0x58000011 + 32 * n) / 2 ^ 5 mod 2 ^ 19) with n by zmod_lia.
  case_cmp; lia.
Qed.

Lemma decode_plain_pc w : pc_relative (decode_plain w) = false.
Proof. unfold decode_plain. by repeat case_match. Qed.

Lemma u64_u64 x : u64 (u64 x) = u64 x.
Proof. apply Z.mod_mod. lia. Qed.

Lemma code_at_u64 m a bs : code_at m (u64 a) bs ↔ code_at m a bs.
Proof. unfold code_at. by setoid_rewrite u64_add_l. Qed.

Lemma code_at_u64_add m a o bs : code_at m (u64 a + o) bs ↔ code_at m (a + o) bs.
Proof. by rewrite <- code_at_u64, u64_add_l, code_at_u64. Qed.

End A64.
