(* ===== verification/Assembler.v ===== *)
(** * Code buffer and assembler ([hook_sdk/src/assembler.h], [assembler.cpp])

    [CodeBuffer] is the growable byte buffer, [Assembler] the instruction
    emitter with deferred 8-byte data labels. A function returns [None] where
    the C++ would write outside the allocation or loop for ever; [malloc] and
    [realloc] are taken to succeed (the source does not test their result). *)

From S2P Require Import Prelude Arm64 Arm64Machine.
Import Arm64.

Module Assembler.

(** ** CodeBuffer *)

(** [data] holds the initialised bytes, those below [size], of the heap block
    of [capacity] bytes. *)
Record CodeBuffer : Set := mkCodeBuffer {
  data : list Z;
  size : Z;
  capacity : Z
}.

Definition CodeBuffer_new : CodeBuffer := mkCodeBuffer [] 0 256.

(** Move construction: the new buffer, and the emptied source. *)
Definition CodeBuffer_move (other : CodeBuffer) : CodeBuffer * CodeBuffer :=
  (mkCodeBuffer (data other) (size other) (capacity other), mkCodeBuffer [] 0 0).

(** [while (size + needed > capacity) capacity *= 2], in 32-bit arithmetic. *)
Fixpoint grow_loop (fuel : nat) (want cap : Z) : option Z :=
  match fuel with
  | O => None
  | S fuel => if cap <? want then grow_loop fuel want (u32 (cap * 2)) else Some cap
  end.

Definition EnsureCapacity (b : CodeBuffer) (needed : Z) : option CodeBuffer :=
  if u32 (size b + needed) <=? capacity b then Some b
  else
    cap ← grow_loop 33 (u32 (size b + needed)) (capacity b);
    Some (mkCodeBuffer (data b) (size b) cap).

(** [memcpy(data + size, src, len); size += len]. *)
Definition append_bytes (b : CodeBuffer) (bs : list Z) : option CodeBuffer :=
  if size b + zlen bs <=? capacity b
  then Some (mkCodeBuffer (data b ++ bs) (u32 (size b + zlen bs)) (capacity b))
  else None.

Definition EmitU32 (b : CodeBuffer) (val : Z) : option CodeBuffer :=
  b ← EnsureCapacity b 4; append_bytes b (le_bytes 4 val).

Definition EmitU64 (b : CodeBuffer) (val : Z) : option CodeBuffer :=
  b ← EnsureCapacity b 8; append_bytes b (le_bytes 8 val).

Definition EmitBytes (b : CodeBuffer) (src : list Z) : option CodeBuffer :=
  b ← EnsureCapacity b (zlen src); append_bytes b src.

Definition CurrentOffset (b : CodeBuffer) : Z := size b.

(** ** Assembler *)

Record DataLabel : Set := mkDataLabel {
  code_offset : Z;
  data_offset : Z;
  value : Z
}.

Record Assembler : Set := mkAssembler {
  buf_ : CodeBuffer;
  labels_ : list DataLabel
}.

Definition Assembler_new : Assembler := mkAssembler CodeBuffer_new [].

(** [buf_.EmitU32(inst)] on the assembler's buffer. *)
Definition EmitInst (a : Assembler) (inst : Z) : option Assembler :=
  b ← EmitU32 (buf_ a) inst; Some (mkAssembler b (labels_ a)).

Definition EmitB (a : Assembler) (offset : Z) : option Assembler :=
  EmitInst a (kOpB .| EncodeImm26 offset).

Definition EmitBR (a : Assembler) (rn : Z) : option Assembler :=
  EmitInst a (kOpBR .| u32 (rn << 5)).

Definition EmitBLR (a : Assembler) (rn : Z) : option Assembler :=
  EmitInst a (kOpBLR .| u32 (rn << 5)).

(** Returns the offset of the placeholder [LDR X17, [PC, #0]]. *)
Definition EmitLdrX17Placeholder (a : Assembler) : option (Assembler * Z) :=
  let offset := CurrentOffset (buf_ a) in
  a ← EmitInst a 0x58000011; Some (a, offset).

Definition EmitLdrReg (a : Assembler) (rt rn : Z) : option Assembler :=
  EmitInst a (0xF9400200 .| u32 (rn << 5) .| rt).

Definition EmitNop (a : Assembler) : option Assembler := EmitInst a kOpNOP.

Definition EmitMovZ (a : Assembler) (rd imm shift : Z) : option Assembler :=
  let hw := (shift ÷ 16) .& 3 in
  EmitInst a (kOpMovZ .| u32 (hw << 21) .| u32 (imm << 5) .| rd).

Definition EmitMovK (a : Assembler) (rd imm shift : Z) : option Assembler :=
  let hw := (shift ÷ 16) .& 3 in
  EmitInst a (kOpMovK .| u32 (hw << 21) .| u32 (imm << 5) .| rd).

Definition EmitMovImm64 (a : Assembler) (rd val : Z) : option Assembler :=
  a ← EmitMovZ a rd (u16 (val .& 0xFFFF)) 0;
  a ← EmitMovK a rd (u16 ((val >> 16) .& 0xFFFF)) 16;
  a ← EmitMovK a rd (u16 ((val >> 32) .& 0xFFFF)) 32;
  EmitMovK a rd (u16 ((val >> 48) .& 0xFFFF)) 48.

Definition EmitAdrp (a : Assembler) (rd offset : Z) : option Assembler :=
  EmitInst a (kOpADRP .| EncodeAdrpImm offset .| rd).

Definition EmitAddImm (a : Assembler) (rd rn imm : Z) : option Assembler :=
  EmitInst a (0x91000000 .| u32 (imm << 10) .| u32 (rn << 5) .| rd).

Definition PlaceDataLabel (a : Assembler) (val ldr_code_offset : Z) : Assembler :=
  mkAssembler (buf_ a) (labels_ a ++ [mkDataLabel ldr_code_offset 0 val]).

(** [while (buf_.CurrentOffset() < aligned_size) EmitNop()]. *)
Fixpoint pad_loop (fuel : nat) (aligned_size : Z) (a : Assembler) : option Assembler :=
  match fuel with
  | O => None
  | S fuel =>
      if CurrentOffset (buf_ a) <? aligned_size
      then a ← EmitNop a; pad_loop fuel aligned_size a else Some a
  end.

(** Place one label's data and patch its LDR: the body of the [for] loop. *)
Definition place_label (b : CodeBuffer) (label : DataLabel) : option CodeBuffer :=
  let data_off := CurrentOffset b in
  b ← EmitU64 b (value label);
  let disp := data_off - code_offset label in
  let imm19 := s32 (disp ÷ 4) in
  inst ← slice (data b) (code_offset label) 4;
  let imm19_bits := u32 ((imm19 .& 0x7FFFF) << 5) in
  let patched := (le_val inst .& not32 0x00FFFFE0) .| imm19_bits in
  d ← splice (data b) (code_offset label) (le_bytes 4 patched);
  Some (mkCodeBuffer d (size b) (capacity b)).

Fixpoint place_labels (b : CodeBuffer) (ls : list DataLabel) : option CodeBuffer :=
  match ls with
  | [] => Some b
  | l :: ls => b ← place_label b l; place_labels b ls
  end.

Definition Finalize (a : Assembler) : option Assembler :=
  let code_size := CurrentOffset (buf_ a) in
  let aligned_size := u32 (code_size + 7) .& not32 7 in
  a ← pad_loop 3 aligned_size a;
  b ← place_labels (buf_ a) (labels_ a);
  Some (mkAssembler b []).

Definition Reset (a : Assembler) : Assembler :=
  mkAssembler (mkCodeBuffer [] 0 (capacity (buf_ a))) [].

Definition EmitLdrX17Branch (a : Assembler) (target_addr : Z) : option Assembler :=
  '(a, ldr_offset) ← EmitLdrX17Placeholder a;
  a ← EmitBR a kRegX17;
  Some (PlaceDataLabel a target_addr ldr_offset).

Definition EmitLdrLRBranch (a : Assembler) (target_addr : Z) : option Assembler :=
  '(a, ldr_offset) ← EmitLdrX17Placeholder a;
  let mov_inst := 0xAA0003E0 .| u32 (kRegX17 << 16) .| kRegLR in
  a ← EmitInst a mov_inst;
  a ← EmitBLR a kRegLR;
  Some (PlaceDataLabel a target_addr ldr_offset).

(** ** The buffer invariant *)

Record wf (b : CodeBuffer) : Prop := {
  wf_size : size b = zlen (data b);
  wf_cap : size b <= capacity b;
  wf_pos : 1 <= capacity b < 2 ^ 32;
  wf_bytes : Forall is_u8 (data b)
}.

Lemma wf_new : wf CodeBuffer_new.
Proof. by split; simpl; [|lia|lia|constructor]. Qed.

(** The doubling loop needs at most [k + 1] tests to reach a size below
    [2^k] times the starting capacity. *)
Lemma grow_loop_ok k want cap :
  1 <= cap → cap < 2 ^ 32 → want <= 2 ^ 31 → want <= cap * 2 ^ Z.of_nat k →
  ∃ cap', grow_loop (S k) want cap = Some cap' ∧ want <= cap' ∧ cap <= cap' < 2 ^ 32.
Proof.
  revert cap. induction k as [|k IH]; intros cap H1 H2 H3 H4.
  - simpl in H4. exists cap. cbn. destruct (Z.ltb_spec cap want); [lia|].
    repeat split; lia.
  - remember (S k) as k'. cbn [grow_loop]. subst k'.
    destruct (Z.ltb_spec cap want); [|exists cap; repeat split; lia].
    rewrite u32_id by (unfold is_u32; lia).
    destruct (IH (cap * 2)) as (cap' & -> & ? & ?); [lia|lia|lia| |].
    + rewrite Nat2Z.inj_succ, Z.pow_succ_r in H4 by lia. lia.
    + exists cap'. repeat split; lia.
Qed.

Lemma EnsureCapacity_ok b n :
  wf b → 0 <= n → size b + n <= 2 ^ 31 →
  ∃ b', EnsureCapacity b n = Some b' ∧ wf b' ∧ data b' = data b ∧ size b' = size b ∧
        size b + n <= capacity b'.
Proof.
  intros [W1 W2 W3 W4] Hn Hs. unfold EnsureCapacity.
  rewrite u32_id by (unfold is_u32; lia).
  destruct (Z.leb_spec (size b + n) (capacity b)).
  - exists b. repeat split; auto; lia.
  - destruct (grow_loop_ok 32 (size b + n) (capacity b)) as (cap & -> & ? & ?); [lia..|].
    eexists. split; [done|]. repeat split; simpl; auto; lia.
Qed.

(** Every emitter appends exactly its bytes, whatever growth it needs. *)
Lemma EmitBytes_ok b bs :
  wf b → Forall is_u8 bs → size b + zlen bs <= 2 ^ 31 →
  ∃ b', EmitBytes b bs = Some b' ∧ wf b' ∧ data b' = data b ++ bs.
Proof.
  intros W Hbs Hs.
  destruct (EnsureCapacity_ok b (zlen bs)) as (b1 & E & [W1 W2 W3 W4] & D & S & C); [done|lia|done|].
  unfold EmitBytes. rewrite E. simpl. unfold append_bytes.
  rewrite S. destruct (Z.leb_spec (size b + zlen bs) (capacity b1)); [|lia].
  eexists. split; [done|]. pose proof (wf_size _ W). split; simpl; [|by rewrite D].
  rewrite S in *. split; simpl; rewrite ?D in *.
  - rewrite length_app, u32_id by (unfold is_u32; lia). lia.
  - rewrite u32_id by (unfold is_u32; lia). lia.
  - lia.
  - by apply Forall_app.
Qed.

Lemma EmitU32_EmitBytes b v : EmitU32 b v = EmitBytes b (le_bytes 4 v).
Proof. unfold EmitU32, EmitBytes. by rewrite le_bytes_length. Qed.

Lemma EmitU64_EmitBytes b v : EmitU64 b v = EmitBytes b (le_bytes 8 v).
Proof. unfold EmitU64, EmitBytes. by rewrite le_bytes_length. Qed.

(** ** The assembler seen as words and labels

    [view a ws ls]: the buffer holds the instruction words [ws], and [ls] are
    the pending labels as (index of the LDR in [ws], value) pairs. *)

Definition label_of (kv : nat * Z) : DataLabel :=
  mkDataLabel (4 * Z.of_nat kv.1) 0 kv.2.

Record view (a : Assembler) (ws : list Z) (ls : list (nat * Z)) : Prop := {
  view_wf : wf (buf_ a);
  view_data : data (buf_ a) = words_bytes ws;
  view_labels : labels_ a = label_of <$> ls
}.

Lemma view_new : view Assembler_new [] [].
Proof. split; [apply wf_new|done|done]. Qed.

Lemma view_offset a ws ls : view a ws ls → CurrentOffset (buf_ a) = 4 * zlen ws.
Proof.
  intros [W D _]. unfold CurrentOffset.
  rewrite (wf_size _ W), D, words_bytes_length. lia.
Qed.

Lemma EmitInst_view a ws ls w :
  view a ws ls → zlen ws < 2 ^ 28 →
  ∃ a', EmitInst a w = Some a' ∧ view a' (ws ++ [w]) ls.
Proof.
  intros V Hl. pose proof (view_offset _ _ _ V) as Ho. destruct V as [W D L].
  destruct (EmitBytes_ok (buf_ a) (le_bytes 4 w)) as (b & E & W' & D');
    [done|auto with cint|rewrite le_bytes_length; unfold CurrentOffset in Ho; lia|].
  unfold EmitInst. rewrite EmitU32_EmitBytes, E. eexists. split; [done|].
  split; simpl; [done| |done]. rewrite D', D, words_bytes_app, words_bytes_cons.
  change (words_bytes []) with (@nil Z). by rewrite app_nil_r.
Qed.

(** A relocated block: its words and its labels, indexed inside the block. *)
Definition block : Set := list Z * list (nat * Z).

(** [emits n f bl]: run after any [ws], [ls] with room for [n] more words, the
    emitter [f] appends [bl]. *)
Definition emits (n : Z) (f : Assembler → option Assembler) (bl : block) : Prop :=
  ∀ a ws ls, view a ws ls → zlen ws + n < 2 ^ 28 →
    ∃ a', f a = Some a' ∧
      view a' (ws ++ bl.1) (ls ++ (prod_map (Nat.add (length ws)) id <$> bl.2)).

Lemma emits_seq n1 n2 n f g b1 b2 :
  emits n1 f b1 → emits n2 g b2 → n1 <= n → zlen b1.1 + n2 <= n →
  emits n (λ a, a ← f a; g a)
    (b1.1 ++ b2.1, b1.2 ++ (prod_map (Nat.add (length b1.1)) id <$> b2.2)).
Proof.
  intros Hf Hg Hn1 Hn2 a ws ls V Hl.
  destruct (Hf a ws ls) as (a1 & -> & V1); [done|lia|]. simpl.
  destruct (Hg a1 _ _ V1) as (a2 & -> & V2); [rewrite length_app; lia|].
  exists a2. split; [done|]. rewrite <- !app_assoc in V2. rewrite fmap_app.
  rewrite <- list_fmap_compose. erewrite (list_fmap_ext _ _ b2.2); [exact V2|].
  intros i [k v] _. cbn. unfold prod_map. cbn. rewrite length_app. f_equal. lia.
Qed.

Lemma emits_inst w : emits 1 (λ a, EmitInst a w) ([w], []).
Proof.
  intros a ws ls V Hl. destruct (EmitInst_view a ws ls w) as (a' & E & V'); [done|lia|].
  exists a'. split; [done|]. simpl. by rewrite app_nil_r.
Qed.

Lemma PlaceDataLabel_view a ws ls v k :
  view a ws ls → view (PlaceDataLabel a v (4 * Z.of_nat k)) ws (ls ++ [(k, v)]).
Proof.
  intros [W D L]. split; simpl; [done..|]. by rewrite L, fmap_app.
Qed.

Lemma emits_ldr_branch t :
  emits 2 (λ a, EmitLdrX17Branch a t) ([0x58000011; 0xD61F0220], [(0%nat, t)]).
Proof.
  intros a ws ls V Hl. unfold EmitLdrX17Branch, EmitLdrX17Placeholder.
  rewrite (view_offset _ _ _ V).
  destruct (EmitInst_view a ws ls 0x58000011) as (a1 & E1 & V1); [done|lia|].
  destruct (EmitInst_view a1 (ws ++ [0x58000011]) ls 0xD61F0220) as (a2 & E2 & V2);
    [done|rewrite length_app; simpl; lia|].
  rewrite E1. simpl. unfold EmitBR. change (kOpBR .| u32 (kRegX17 << 5)) with 0xD61F0220.
  rewrite E2. simpl. eexists. split; [done|]. rewrite <- app_assoc in V2. simpl in V2.
  rewrite Nat.add_0_r. by apply PlaceDataLabel_view.
Qed.

Lemma emits_ldr_lr_branch t :
  emits 3 (λ a, EmitLdrLRBranch a t) ([0x58000011; 0xAA1103FE; 0xD63F03C0], [(0%nat, t)]).
Proof.
  intros a ws ls V Hl. unfold EmitLdrLRBranch, EmitLdrX17Placeholder.
  rewrite (view_offset _ _ _ V).
  destruct (EmitInst_view a ws ls 0x58000011) as (a1 & E1 & V1); [done|lia|].
  destruct (EmitInst_view a1 (ws ++ [0x58000011]) ls 0xAA1103FE) as (a2 & E2 & V2);
    [done|rewrite length_app; simpl; lia|].
  destruct (EmitInst_view a2 ((ws ++ [0x58000011]) ++ [0xAA1103FE]) ls 0xD63F03C0)
    as (a3 & E3 & V3); [done|rewrite !length_app; simpl; lia|].
  rewrite E1. simpl. change (0xAA0003E0 .| u32 (kRegX17 << 16) .| kRegLR) with 0xAA1103FE.
  rewrite E2. simpl. unfold EmitBLR.
  change (kOpBLR .| u32 (kRegLR << 5)) with 0xD63F03C0. rewrite E3. simpl.
  eexists. split; [done|]. rewrite <- !app_assoc in V3. simpl in V3.
  rewrite Nat.add_0_r. by apply PlaceDataLabel_view.
Qed.

(** A literal load into X17 followed by one use of it. *)
Lemma emits_ldr_use t w :
  emits 2 (λ a, '(a, off) ← EmitLdrX17Placeholder a; EmitInst (PlaceDataLabel a t off) w)
    ([0x58000011; w], [(0%nat, t)]).
Proof.
  intros a ws ls V Hl. unfold EmitLdrX17Placeholder. rewrite (view_offset _ _ _ V).
  destruct (EmitInst_view a ws ls 0x58000011) as (a1 & E1 & V1); [done|lia|].
  rewrite E1. simpl. apply (PlaceDataLabel_view _ _ _ t (length ws)) in V1.
  destruct (EmitInst_view _ _ _ w V1) as (a2 & E2 & V2); [rewrite length_app; simpl; lia|].
  rewrite E2. eexists. split; [done|]. rewrite <- app_assoc in V2. simpl in V2.
  by rewrite Nat.add_0_r.
Qed.

(** ** Finalize *)

Definition setimm19 (w n : Z) : Z :=
  (w .& not32 0x00FFFFE0) .| u32 ((s32 n .& 0x7FFFF) << 5).

(** The words once every label of [ls] is placed from offset [off] on. *)
Fixpoint patch_all (ws : list Z) (ls : list (nat * Z)) (off : Z) : list Z :=
  match ls with
  | [] => ws
  | (k, _) :: ls =>
      let w := default 0 (ws !! k) in
      patch_all (<[k := setimm19 w ((off - 4 * Z.of_nat k) ÷ 4)]> ws) ls (off + 8)
  end.

Definition label_data (ls : list (nat * Z)) : list Z :=
  flat_map (λ kv, le_bytes 8 kv.2) ls.

Lemma setimm19_range w n : is_u32 w → is_u32 (setimm19 w n).
Proof.
  intros Hw. apply (lor_range _ _ 32); [by apply land_range|apply u32_range].
Qed.

Lemma label_data_length ls : length (label_data ls) = (8 * length ls)%nat.
Proof.
  induction ls; [done|]. cbn [label_data flat_map length].
  rewrite length_app, le_bytes_length. unfold label_data in IHls. rewrite IHls. lia.
Qed.

Lemma place_label_ok b ws tail k v :
  wf b → data b = words_bytes ws ++ tail → (k < length ws)%nat → Forall is_u32 ws →
  size b + 8 <= 2 ^ 31 →
  ∃ b', place_label b (label_of (k, v)) = Some b' ∧ wf b' ∧ size b' = size b + 8 ∧
    data b' = words_bytes
        (<[k := setimm19 (default 0 (ws !! k)) ((size b - 4 * Z.of_nat k) ÷ 4)]> ws)
      ++ tail ++ le_bytes 8 v.
Proof.
  intros W D Hk Hws Hs. unfold place_label. rewrite EmitU64_EmitBytes. simpl value. simpl code_offset.
  destruct (EmitBytes_ok b (le_bytes 8 v)) as (b1 & -> & W1 & D1);
    [done|auto with cint|by rewrite le_bytes_length|].
  destruct (lookup_lt_is_Some_2 ws k Hk) as [w Hw].
  assert (is_u32 w) by (rewrite Forall_lookup in Hws; eauto).
  simpl. rewrite D1, D, <- app_assoc, (slice_word ws _ k w) by done. simpl.
  rewrite (splice_word ws _ k w) by done. simpl.
  assert (size b1 = size b + 8).
  { rewrite (wf_size _ W1), (wf_size _ W), D1, length_app, le_bytes_length. lia. }
  eexists. split; [done|]. simpl. split_and!; [|done|].
  - destruct W1 as [A1 A2 A3 A4]. rewrite D1, D, <- app_assoc in *.
    split; simpl; auto.
    + rewrite A1, !length_app, !words_bytes_length, length_insert. done.
    + rewrite !Forall_app in *. destruct A4 as (? & ? & ?). split_and!; auto with cint.
  - by rewrite Hw, (le_val_bytes 4), Z.mod_small by done.
Qed.

Lemma place_labels_ok ls b ws tail :
  wf b → data b = words_bytes ws ++ tail →
  Forall (λ kv, (kv.1 < length ws)%nat) ls → Forall is_u32 ws →
  size b + 8 * zlen ls <= 2 ^ 31 →
  ∃ b', place_labels b (label_of <$> ls) = Some b' ∧ wf b' ∧
    data b' = words_bytes (patch_all ws ls (size b)) ++ tail ++ label_data ls.
Proof.
  revert b ws tail. induction ls as [|[k v] ls IH]; intros b ws tail W D Hls Hws Hs.
  - exists b. cbn. rewrite app_nil_r. auto.
  - apply Forall_cons in Hls as [Hk Hls]. cbn [length] in Hs. cbn [fmap list_fmap place_labels].
    destruct (place_label_ok b ws tail k v) as (b1 & -> & W1 & S1 & D1); [done..|lia|].
    edestruct (IH b1) as (b' & E & W' & D'); [done|exact D1|..].
    + rewrite length_insert. done.
    + apply Forall_insert; [done|]. apply setimm19_range.
      destruct (ws !! k) as [w|] eqn:E; [|unfold is_u32; simpl; lia].
      rewrite Forall_lookup in Hws. simpl. eauto.
    + lia.
    + exists b'. split; [exact E|]. split; [done|].
      rewrite D', S1, <- !app_assoc. done.
Qed.

(** Offset of the data area behind [n] code words: rounded up to 8 bytes. *)
Definition data_start (n : nat) : Z := 8 * ((Z.of_nat n + 1) / 2).

Definition pad_words (n : nat) : list Z := if Nat.even n then [] else [kOpNOP].

Lemma data_start_pad n : data_start n = 4 * (Z.of_nat n + zlen (pad_words n)).
Proof.
  unfold data_start, pad_words. pose proof (Nat.even_spec n) as Hev.
  destruct (Nat.even n) eqn:E.
  - destruct (proj1 Hev) as [m ->]; [done|]. simpl length. zmod_lia.
  - assert (Nat.odd n = true) as Ho by (unfold Nat.odd; by rewrite E).
    apply Nat.odd_spec in Ho as [m ->]. simpl length. zmod_lia.
Qed.

Lemma pad_loop_ok a ws ls :
  view a ws ls → zlen ws + 8 < 2 ^ 28 →
  ∃ a', pad_loop 3 (data_start (length ws)) a = Some a' ∧
        view a' (ws ++ pad_words (length ws)) ls.
Proof.
  intros V Hl. pose proof (view_offset _ _ _ V) as Ho.
  pose proof (data_start_pad (length ws)) as Hd. unfold pad_words in *.
  cbn [pad_loop]. rewrite Ho. destruct (Nat.even (length ws)).
  - simpl length in Hd. destruct (Z.ltb_spec (4 * zlen ws) (data_start (length ws))); [lia|].
    exists a. by rewrite app_nil_r.
  - simpl length in Hd. destruct (Z.ltb_spec (4 * zlen ws) (data_start (length ws))); [|lia].
    destruct (EmitInst_view a ws ls kOpNOP) as (a' & E & V'); [done|lia|].
    unfold EmitNop. rewrite E. cbn. rewrite (view_offset _ _ _ V'), length_app. cbn [length].
    destruct (Z.ltb_spec (4 * Z.of_nat (length ws + 1)) (data_start (length ws))); [lia|].
    eauto.
Qed.

Lemma aligned_size_eq n :
  Z.of_nat n < 2 ^ 28 → u32 (4 * Z.of_nat n + 7) .& not32 7 = data_start n.
Proof.
  intros Hn. rewrite u32_id by (unfold is_u32; lia).
  assert (not32 7 = (2 ^ 29 - 1) * 2 ^ 3) as -> by done.
  rewrite land_shifted, land_ones_mod by lia. unfold data_start. zmod_lia.
Qed.

Lemma Finalize_ok a ws ls :
  view a ws ls → Forall (λ kv, (kv.1 < length ws)%nat) ls → Forall is_u32 ws →
  zlen ws + 2 * zlen ls + 8 < 2 ^ 28 →
  ∃ a', Finalize a = Some a' ∧ wf (buf_ a') ∧ labels_ a' = [] ∧
    data (buf_ a') =
      words_bytes (patch_all ws ls (data_start (length ws)) ++ pad_words (length ws))
      ++ label_data ls.
Proof.
  intros V Hls Hws Hl. unfold Finalize. rewrite (view_offset _ _ _ V), aligned_size_eq by lia.
  destruct (pad_loop_ok a ws ls) as (a1 & -> & V1); [done|lia|]. simpl.
  pose proof (view_offset _ _ _ V1) as Ho. destruct V1 as [W1 D1 L1].
  assert (CurrentOffset (buf_ a1) = data_start (length ws)) as Hs.
  { rewrite Ho, length_app, data_start_pad. lia. }
  rewrite L1. rewrite words_bytes_app in D1.
  destruct (place_labels_ok ls (buf_ a1) ws (words_bytes (pad_words (length ws))))
    as (b' & -> & W' & D'); [done..| |].
  - unfold CurrentOffset in Hs. rewrite Hs, data_start_pad. unfold pad_words.
    destruct (Nat.even (length ws)); simpl length; lia.
  - eexists. split; [done|]. simpl. split_and!; [done|done|].
    unfold CurrentOffset in Hs. by rewrite D', Hs, words_bytes_app, <- app_assoc.
Qed.

(** ** What the patched words are *)

Lemma patch_all_length ws ls off : length (patch_all ws ls off) = length ws.
Proof.
  revert ws off. induction ls as [|[k v] ls IH]; intros; simpl; [done|].
  by rewrite IH, length_insert.
Qed.

Lemma patch_all_other ws ls off k :
  k ∉ ls.*1 → patch_all ws ls off !! k = ws !! k.
Proof.
  revert ws off. induction ls as [|[k' v] ls IH]; intros ws off Hk; simpl; [done|].
  cbn in Hk. apply not_elem_of_cons in Hk as [Hne Hk].
  rewrite IH by done. by apply list_lookup_insert_ne.
Qed.

Lemma patch_all_label ws ls off j k v w :
  NoDup ls.*1 → ls !! j = Some (k, v) → ws !! k = Some w →
  patch_all ws ls off !! k =
    Some (setimm19 w ((off + 8 * Z.of_nat j - 4 * Z.of_nat k) ÷ 4)).
Proof.
  revert ws off j. induction ls as [|[k' v'] ls IH]; intros ws off j Hnd Hj Hw; [done|].
  cbn in Hnd. apply NoDup_cons in Hnd as [Hni Hnd]. destruct j as [|j]; cbn in Hj.
  - injection Hj as -> ->. cbn [patch_all]. rewrite patch_all_other by done.
    rewrite list_lookup_insert_eq by (by eapply lookup_lt_Some). rewrite Hw. simpl.
    by rewrite Z.add_0_r.
  - cbn [patch_all]. assert (k' ≠ k).
    { intros ->. apply Hni. apply list_elem_of_fmap. exists (k, v). split; [done|].
      by eapply list_elem_of_lookup_2. }
    rewrite (IH _ _ j) by (rewrite ?list_lookup_insert_ne; done).
    do 2 f_equal. f_equal. lia.
Qed.

Lemma setimm19_ldr n :
  0 <= n < 2 ^ 18 → setimm19 0x58000011 n = 0x58000011 + 32 * n.
Proof.
  intros Hn. unfold setimm19. assert (s32 n = n) as ->.
  { unfold s32. rewrite u32_id by (unfold is_u32; lia). case_cmp; lia. }
  mask_mod. rewrite Z.mod_small, Z.shiftl_mul_pow2, u32_id by (unfold is_u32; lia).
  change (0x58000011 .& not32 0x00FFFFE0) with 0x58000011.
  apply bits_ext_below with 32; [apply lor_range; lia|lia|].
  change 0x58000011 with (0x58 * 2 ^ 24 .| 17).
  assert ((n * 2 ^ 5) .| 17 = n * 2 ^ 5 + 17) as E by (apply lor_low_high; lia).
  rewrite <- Z.lor_assoc, (Z.lor_comm 17), E, lor_low_high by lia.
  change (0x58 * 2 ^ 24 .| 17) with (0x58 * 2 ^ 24 + 17).
  intros. f_equal. lia.
Qed.

Lemma label_data_at ls j k v :
  ls !! j = Some (k, v) →
  ∃ pre post, label_data ls = pre ++ le_bytes 8 v ++ post ∧ zlen pre = 8 * Z.of_nat j.
Proof.
  intros Hj. exists (label_data (take j ls)), (label_data (drop (S j) ls)).
  pose proof (lookup_lt_Some _ _ _ Hj). split.
  - rewrite <- (take_drop_middle ls j (k, v)) at 1 by done.
    unfold label_data. by rewrite flat_map_app.
  - rewrite label_data_length, length_take. lia.
Qed.

(** ** The finalized image in the machine *)

(** What [Finalize] leaves in the buffer of an assembler with view [ws], [ls]. *)
Definition image (ws : list Z) (ls : list (nat * Z)) : list Z :=
  words_bytes (patch_all ws ls (data_start (length ws)) ++ pad_words (length ws))
  ++ label_data ls.

Lemma image_word ws ls m base k w :
  A64.code_at m base (image ws ls) →
  patch_all ws ls (data_start (length ws)) !! k = Some w →
  A64.code_at m (base + 4 * Z.of_nat k) (le_bytes 4 w).
Proof.
  intros H Hk. unfold image in H. apply A64.code_at_app in H as [H _].
  rewrite words_bytes_app in H. apply A64.code_at_app in H as [H _].
  pose proof (lookup_lt_Some _ _ _ Hk).
  rewrite <- (take_drop_middle (patch_all ws ls (data_start (length ws))) k w),
    words_bytes_app, words_bytes_cons in H by done.
  apply A64.code_at_app in H as [_ H]. apply A64.code_at_app in H as [H _].
  rewrite words_bytes_length, length_take, Nat.min_l in H by lia.
  by replace (4 * Z.of_nat k) with (Z.of_nat (4 * k)) by lia.
Qed.

(** Run the instruction at index [k] of a placed image, for a word that no
    label patches. *)
Lemma step_image ws ls s base k w i :
  A64.code_at (A64.mem s) base (image ws ls) → k ∉ ls.*1 → ws !! k = Some w → is_u32 w →
  A64.pc s = u64 (base + 4 * Z.of_nat k) → A64.decode w = i →
  A64.step s = A64.exec i s.
Proof.
  intros H Hk Hw Hu Hpc Hd. apply (A64.step_word s w); [done| |done].
  rewrite Hpc. apply A64.code_at_u64. eapply image_word; [exact H|].
  by rewrite patch_all_other.
Qed.

(** A labelled [LDR X17] placeholder loads the value of its label. *)
Lemma step_literal ws ls s base j k v :
  A64.code_at (A64.mem s) base (image ws ls) → NoDup ls.*1 → ls !! j = Some (k, v) →
  ws !! k = Some 0x58000011 → is_u64 v → zlen ws + 2 * zlen ls + 1 < 2 ^ 18 →
  A64.pc s = u64 (base + 4 * Z.of_nat k) →
  A64.step s = Some (A64.next (A64.set_x s 17 v)).
Proof.
  intros H Hnd Hj Hk Hv Hl Hpc. pose proof (lookup_lt_Some _ _ _ Hk).
  pose proof (lookup_lt_Some _ _ _ Hj).
  pose proof (data_start_pad (length ws)) as Hd.
  assert (zlen (pad_words (length ws)) <= 1)
    by (unfold pad_words; destruct (Nat.even _); simpl; lia).
  set (n := Z.of_nat (length ws + length (pad_words (length ws)) + 2 * j - k)).
  assert (0 <= n < 2 ^ 18) by lia.
  assert (patch_all ws ls (data_start (length ws)) !! k = Some (0x58000011 + 32 * n)) as Hw.
  { rewrite (patch_all_label _ _ _ j k v 0x58000011) by done. f_equal.
    rewrite <- setimm19_ldr by done. f_equal. rewrite Hd.
    replace (_ - _) with (n * 4) by lia. apply Z.quot_mul. lia. }
  rewrite (A64.step_word s (0x58000011 + 32 * n) _ (ltac:(unfold is_u32; lia))
    (ltac:(rewrite Hpc; apply A64.code_at_u64; by eapply image_word))
    (A64.decode_ldr_x17 n ltac:(done))).
  simpl. do 2 f_equal. f_equal. apply A64.load_dword; [done|].
  rewrite Hpc. apply A64.code_at_u64_add.
  destruct (label_data_at ls j k v Hj) as (pre & post & E & Hpre).
  unfold image in H. rewrite E in H. apply A64.code_at_app in H as [_ H].
  apply A64.code_at_app in H as [_ H]. apply A64.code_at_app in H as [H _].
  rewrite words_bytes_length, length_app, patch_all_length in H.
  by replace (base + 4 * Z.of_nat k + 4 * n) with
    (base + Z.of_nat (4 * (length ws + length (pad_words (length ws)))) + zlen pre) by lia.
Qed.

End Assembler.
