(* ===== verification/Relocator.v ===== *)
(** * Instruction relocation ([hook_sdk/src/relocator.h], [relocator.cpp])

    [RelocateInstructions] rewrites the instructions a jump patch overwrites
    so that they can run elsewhere. The model follows the loop of the source;
    the theorems relate the produced image to the original instructions under
    the machine of [Arm64Machine]. *)

From S2P Require Import Prelude Arm64 Arm64Machine Assembler.
Import Arm64 Assembler.

Module Relocator.

Record RelocateResult : Set := mkRelocateResult {
  buffer : CodeBuffer;
  bytes_consumed : Z;
  valid : bool
}.

(** One iteration of the relocation loop: [inst] was found at address [pc]. *)
Definition relocate_one (a : Assembler) (inst pc : Z) : option Assembler :=
  if IsB inst then
    let branch_offset := DecodeImm26 inst in
    let target := u64 (pc + branch_offset) in
    EmitLdrX17Branch a target
  else if IsBL inst then
    let branch_offset := DecodeImm26 inst in
    let target := u64 (pc + branch_offset) in
    EmitLdrLRBranch a target
  else if IsBCond inst then
    let branch_offset := DecodeImm19 inst in
    let target := u64 (pc + branch_offset) in
    let cond := CondFromBCond inst in
    let inv_cond := InvertCond cond in
    let inv_bcond := kOpBCond .| (3 << 5) .| inv_cond in
    a ← EmitInst a inv_bcond;
    EmitLdrX17Branch a target
  else if IsCBZ inst || IsCBNZ inst then
    let branch_offset := DecodeCompImm19 inst in
    let target := u64 (pc + branch_offset) in
    let inverted := inst .^ (1 << 24) in
    let inv_inst := (inverted .& not32 0x00FFFFE0) .| (3 << 5) in
    a ← EmitInst a inv_inst;
    EmitLdrX17Branch a target
  else if IsTBZ inst || IsTBNZ inst then
    let branch_offset := DecodeImm14 inst in
    let target := u64 (pc + branch_offset) in
    let inverted := inst .^ (1 << 24) in
    let inv_inst := (inverted .& not32 0x0007FFE0) .| (3 << 5) in
    a ← EmitInst a inv_inst;
    EmitLdrX17Branch a target
  else if IsLdrLiteral inst then
    let ldr_offset := DecodeLdrLitImm19 inst in
    let target := u64 (pc + ldr_offset) in
    let rt := GetRt inst in
    let opc := Bits inst 31 30 in
    if opc =? 1 then
      '(a, ldr_off) ← EmitLdrX17Placeholder a;
      EmitLdrReg (PlaceDataLabel a target ldr_off) rt kRegX17
    else if opc =? 0 then
      '(a, ldr_off) ← EmitLdrX17Placeholder a;
      let ldr_w := 0xB9400200 .| u32 (kRegX17 << 5) .| rt in
      EmitInst (PlaceDataLabel a target ldr_off) ldr_w
    else EmitInst a inst
  else if IsADR inst then
    let adr_offset := DecodeAdrImm inst in
    let target := u64 (pc + adr_offset) in
    let rd := GetRd inst in
    '(a, ldr_off) ← EmitLdrX17Placeholder a;
    let mov_inst := 0xAA0003E0 .| u32 (kRegX17 << 16) .| rd in
    EmitInst (PlaceDataLabel a target ldr_off) mov_inst
  else if IsADRP inst then
    let adrp_offset := DecodeAdrpImm inst in
    let page_addr := u64 ((pc .& not64 0xFFF) + adrp_offset) in
    let rd := GetRd inst in
    '(a, ldr_off) ← EmitLdrX17Placeholder a;
    let mov_inst := 0xAA0003E0 .| u32 (kRegX17 << 16) .| rd in
    EmitInst (PlaceDataLabel a page_addr ldr_off) mov_inst
  else EmitInst a inst.

(** The loop over [src[i]], [i < target_count]; [src] are the words in memory
    from [src_addr] on, and reading past them is undefined. *)
Fixpoint relocate_loop (count : nat) (src : list Z) (src_addr offset : Z) (a : Assembler) :
  option (Assembler * Z) :=
  match count with
  | O => Some (a, offset)
  | S count =>
      inst ← head src;
      a ← relocate_one a inst (u64 (src_addr + offset));
      relocate_loop count (tail src) src_addr (u32 (offset + 4)) a
  end.

Definition RelocateInstructions (src : list Z) (src_addr min_bytes dst_addr : Z) :
  option RelocateResult :=
  if (min_bytes =? 0) || negb (min_bytes mod 4 =? 0)
  then Some (mkRelocateResult CodeBuffer_new 0 false)
  else
    let target_count := min_bytes / 4 in
    '(a, offset) ← relocate_loop (Z.to_nat target_count) src src_addr 0 Assembler_new;
    let return_addr := u64 (src_addr + offset) in
    a ← EmitLdrX17Branch a return_addr;
    a ← Finalize a;
    Some (mkRelocateResult (CodeBuffer_move (buf_ a)).1 offset true).

(** ** The blocks the loop emits *)

Definition ldr_x17 : Z := 0x58000011.
Definition br_x17 : Z := 0xD61F0220.

(** The words and label an instruction at [pc] is rewritten to. *)
Definition reloc_block (inst pc : Z) : block :=
  let branch t := ([ldr_x17; br_x17], [(0%nat, t)]) in
  let skip w t := ([w; ldr_x17; br_x17], [(1%nat, t)]) in
  let use t w := ([ldr_x17; w], [(0%nat, t)]) in
  if IsB inst then branch (u64 (pc + DecodeImm26 inst))
  else if IsBL inst then
    ([ldr_x17; 0xAA1103FE; 0xD63F03C0], [(0%nat, u64 (pc + DecodeImm26 inst))])
  else if IsBCond inst then
    skip (kOpBCond .| (3 << 5) .| InvertCond (CondFromBCond inst))
      (u64 (pc + DecodeImm19 inst))
  else if IsCBZ inst || IsCBNZ inst then
    skip (((inst .^ (1 << 24)) .& not32 0x00FFFFE0) .| (3 << 5))
      (u64 (pc + DecodeCompImm19 inst))
  else if IsTBZ inst || IsTBNZ inst then
    skip (((inst .^ (1 << 24)) .& not32 0x0007FFE0) .| (3 << 5))
      (u64 (pc + DecodeImm14 inst))
  else if IsLdrLiteral inst then
    let t := u64 (pc + DecodeLdrLitImm19 inst) in
    if Bits inst 31 30 =? 1 then use t (0xF9400200 .| u32 (kRegX17 << 5) .| GetRt inst)
    else if Bits inst 31 30 =? 0
    then use t (0xB9400200 .| u32 (kRegX17 << 5) .| GetRt inst)
    else ([inst], [])
  else if IsADR inst then
    use (u64 (pc + DecodeAdrImm inst)) (0xAA0003E0 .| u32 (kRegX17 << 16) .| GetRd inst)
  else if IsADRP inst then
    use (u64 ((pc .& not64 0xFFF) + DecodeAdrpImm inst))
      (0xAA0003E0 .| u32 (kRegX17 << 16) .| GetRd inst)
  else ([inst], []).

Lemma relocate_one_emits inst pc :
  emits 3 (λ a, relocate_one a inst pc) (reloc_block inst pc).
Proof.
  unfold relocate_one, reloc_block, ldr_x17, br_x17.
  assert (∀ n f bl, n <= 3 → emits n f bl → emits 3 f bl) as Hw.
  { intros n f bl Hn H a ws ls V Hl. apply H; [done|lia]. }
  assert (∀ w t, emits 3 (λ a, a ← EmitInst a w; EmitLdrX17Branch a t)
    ([w; 0x58000011; 0xD61F0220], [(1%nat, t)])) as Hs.
  { intros w t. apply (emits_seq 1 2 3 _ _ ([w], []) ([_; _], [(0%nat, t)]));
      [apply emits_inst|apply emits_ldr_branch|lia|done]. }
  repeat case_match; first
    [ apply Hs
    | apply (Hw 2); [lia|apply emits_ldr_branch]
    | apply emits_ldr_lr_branch
    | apply (Hw 2); [lia|apply emits_ldr_use]
    | apply (Hw 1); [lia|apply emits_inst] ].
Qed.

(** The whole image: a block per instruction, then the branch back to the
    address behind them; [k] is the index of the first word. *)
Fixpoint reloc_code (insts : list Z) (pc : Z) (k : nat) : block :=
  match insts with
  | [] => ([ldr_x17; br_x17], [(k, u64 pc)])
  | inst :: insts =>
      let bl := reloc_block inst (u64 pc) in
      let r := reloc_code insts (pc + 4) (k + length bl.1) in
      (bl.1 ++ r.1, (prod_map (Nat.add k) id <$> bl.2) ++ r.2)
  end.

Lemma reloc_block_length inst pc : (1 <= length (reloc_block inst pc).1 <= 3)%nat.
Proof. unfold reloc_block. repeat case_match; simpl; lia. Qed.

Lemma reloc_block_labels inst pc :
  (length (reloc_block inst pc).2 <= 1)%nat ∧
  Forall (λ kv, (kv.1 < length (reloc_block inst pc).1)%nat ∧ is_u64 kv.2 ∧
                (reloc_block inst pc).1 !! kv.1 = Some ldr_x17) (reloc_block inst pc).2.
Proof.
  unfold reloc_block. repeat case_match; cbn; (split; [lia|]);
    repeat constructor; cbn; auto; try lia; apply u64_range.
Qed.

Lemma reloc_block_size inst pc :
  (4 * length (reloc_block inst pc).1 + 8 * length (reloc_block inst pc).2 <= 20)%nat.
Proof. unfold reloc_block. repeat case_match; simpl; lia. Qed.

Lemma reloc_code_size insts pc k :
  (4 * length (reloc_code insts pc k).1 + 8 * length (reloc_code insts pc k).2
   <= 20 * length insts + 16)%nat.
Proof.
  revert pc k. induction insts as [|inst insts IH]; intros pc k; [simpl; lia|].
  cbn [reloc_code fst snd length]. rewrite !length_app, length_fmap.
  pose proof (reloc_block_size inst (u64 pc)).
  specialize (IH (pc + 4) (k + length (reloc_block inst (u64 pc)).1)%nat). lia.
Qed.

(** Every label of the image sits on an [LDR X17] placeholder of it. *)
Lemma reloc_code_labels insts pc k :
  Forall (λ kv, (k <= kv.1)%nat ∧ is_u64 kv.2 ∧
                (reloc_code insts pc k).1 !! (kv.1 - k)%nat = Some ldr_x17)
    (reloc_code insts pc k).2.
Proof.
  revert pc k. induction insts as [|inst insts IH]; intros pc k.
  - apply Forall_singleton. cbn. rewrite Nat.sub_diag. auto using u64_range.
  - cbn [reloc_code fst snd]. set (bl := reloc_block inst (u64 pc)). apply Forall_app. split.
    + destruct (reloc_block_labels inst (u64 pc)) as [_ H]. fold bl in H.
      apply Forall_fmap. eapply Forall_impl; [exact H|]. intros [i v] (Hi & Hv & Hw).
      unfold prod_map, compose. cbn in *. split_and!; [lia|done|].
      rewrite lookup_app_l by lia. rewrite <- Hw. f_equal. lia.
    + eapply Forall_impl; [apply IH|]. intros [i v] (Hi & Hv & Hw). cbn in *.
      split_and!; [lia|done|]. rewrite lookup_app_r by lia. rewrite <- Hw. f_equal. lia.
Qed.

Lemma reloc_code_nodup insts pc k : NoDup (reloc_code insts pc k).2.*1.
Proof.
  revert pc k. induction insts as [|inst insts IH]; intros pc k.
  - cbn. apply NoDup_singleton.
  - cbn [reloc_code fst snd]. set (bl := reloc_block inst (u64 pc)).
    destruct (reloc_block_labels inst (u64 pc)) as [Hlen H]. fold bl in Hlen, H.
    rewrite fmap_app. apply NoDup_app. split_and!; [|..|apply IH].
    + destruct bl.2 as [|[i v] [|]]; cbn; [constructor|apply NoDup_singleton|].
      cbn in Hlen. lia.
    + intros x Hx Hx'. apply list_elem_of_fmap in Hx' as ([i v] & Ei & Hi).
      pose proof (reloc_code_labels insts (pc + 4) (k + length bl.1)) as Hl.
      rewrite Forall_forall in Hl. specialize (Hl _ Hi).
      destruct Hl as [Hl _]. cbn in Hl.
      rewrite <- list_fmap_compose in Hx. apply list_elem_of_fmap in Hx as ([j u] & Ej & Hj).
      rewrite Forall_forall in H. specialize (H _ Hj).
      cbn in *. lia.
Qed.

Lemma reloc_loop_view n src src_addr off a ws ls :
  view a ws ls → (n <= length src)%nat → zlen ws + 3 * Z.of_nat n + 3 < 2 ^ 28 →
  0 <= off → off + 4 * Z.of_nat n < 2 ^ 32 →
  ∃ a1 a2, relocate_loop n src src_addr off a = Some (a1, off + 4 * Z.of_nat n) ∧
    EmitLdrX17Branch a1 (u64 (src_addr + (off + 4 * Z.of_nat n))) = Some a2 ∧
    view a2 (ws ++ (reloc_code (take n src) (src_addr + off) (length ws)).1)
            (ls ++ (reloc_code (take n src) (src_addr + off) (length ws)).2).
Proof.
  revert src off a ws ls. induction n as [|n IH]; intros src off a ws ls V Hn Hl Ho Ho'.
  - rewrite Z.mul_0_r, Z.add_0_r.
    destruct (emits_ldr_branch (u64 (src_addr + off)) a ws ls V) as (a2 & E & V'); [lia|].
    exists a, a2. split_and!; [done|done|]. cbn in V'. by rewrite Nat.add_0_r in V'.
  - destruct src as [|inst src]; [simpl in Hn; lia|]. cbn [relocate_loop head tail take].
    destruct (relocate_one_emits inst (u64 (src_addr + off)) a ws ls V) as (a1 & E1 & V1); [lia|].
    rewrite (u32_id (off + 4)) by (unfold is_u32; lia).
    pose proof (reloc_block_length inst (u64 (src_addr + off))).
    destruct (IH src (off + 4) a1 _ _ V1) as (a2 & a3 & E2 & E3 & V3);
      [simpl in Hn; lia|rewrite length_app; lia|lia|lia|].
    exists a2, a3. cbn. rewrite E1. cbn. rewrite E2.
    replace (off + 4 + 4 * Z.of_nat n) with (off + 4 * Z.of_nat (S n)) in * by lia.
    split_and!; [done|done|]. rewrite <- !app_assoc, length_app in V3.
    by rewrite Z.add_assoc in V3.
Qed.

(** The image produced for [n] instructions at [src_addr]. *)
Definition reloc_image (insts : list Z) (src_addr : Z) : list Z :=
  image (reloc_code insts src_addr 0).1 (reloc_code insts src_addr 0).2.

Lemma is_u32_lor a b : is_u32 a → is_u32 b → is_u32 (a .| b).
Proof. apply (lor_range _ _ 32). Qed.
Lemma is_u32_land a b : is_u32 a → is_u32 (a .& b).
Proof. apply (land_range _ _ 32). Qed.
Lemma is_u32_lxor a b : is_u32 a → is_u32 b → is_u32 (a .^ b).
Proof. apply (lxor_range _ _ 32). Qed.
Lemma is_u32_Rt inst : is_u32 (GetRt inst).
Proof. pose proof (Bits_range inst 4 0). unfold is_u32, GetRt. lia. Qed.
Lemma is_u32_const c : (0 <=? c) && (c <? 2 ^ 32) = true → is_u32 c.
Proof. unfold is_u32. lia. Qed.

Lemma reloc_block_words inst pc :
  is_u32 inst → Forall is_u32 (reloc_block inst pc).1.
Proof.
  intros Hi.
  assert (is_u32 (CondFromBCond inst)) by (by apply is_u32_land).
  assert (is_u32 (inst .^ (1 << 24))) by (apply is_u32_lxor; [done|by apply is_u32_const]).
  assert (∀ x, is_u32 x → is_u32 (x .| (3 << 5)))
    by (intros; apply is_u32_lor; [done|by apply is_u32_const]).
  pose proof (is_u32_Rt inst) as Hrt. pose proof (Hrt : is_u32 (GetRd inst)) as Hrd.
  unfold reloc_block, InvertCond. repeat case_match; cbn [fst];
    repeat apply Forall_cons_2; try apply Forall_nil_2; try (by apply is_u32_const); auto;
    eauto using is_u32_land, is_u32_lor, is_u32_lxor, is_u32_const.
Qed.

Lemma reloc_code_words insts pc k :
  Forall is_u32 insts → Forall is_u32 (reloc_code insts pc k).1.
Proof.
  intros H. revert pc k. induction H; intros; cbn [reloc_code fst].
  - repeat apply Forall_cons_2; try apply Forall_nil_2; by apply is_u32_const.
  - apply Forall_app. split; [by apply reloc_block_words|auto].
Qed.

Lemma reloc_image_length insts pc :
  zlen (reloc_image insts pc) <= 20 * zlen insts + 20.
Proof.
  unfold reloc_image, image. rewrite length_app, words_bytes_length, length_app,
    patch_all_length, label_data_length.
  pose proof (reloc_code_size insts pc 0).
  unfold pad_words. destruct (Nat.even _); cbn [length]; lia.
Qed.

Lemma RelocateInstructions_ok src src_addr n dst :
  (0 < n <= length src)%nat → Z.of_nat n < 2 ^ 20 → Forall is_u32 (take n src) →
  ∃ r, RelocateInstructions src src_addr (4 * Z.of_nat n) dst = Some r ∧
    valid r = true ∧ bytes_consumed r = 4 * Z.of_nat n ∧ wf (buffer r) ∧
    data (buffer r) = reloc_image (take n src) src_addr.
Proof.
  intros Hn Hn' Hw. unfold RelocateInstructions.
  assert ((4 * Z.of_nat n =? 0) || negb (4 * Z.of_nat n mod 4 =? 0) = false) as ->.
  { case_cmp; simpl; [lia..|]. zmod_lia. }
  replace (4 * Z.of_nat n / 4) with (Z.of_nat n) by zmod_lia. rewrite Nat2Z.id.
  destruct (reloc_loop_view n src src_addr 0 Assembler_new [] []) as (a1 & a2 & E1 & E2 & V);
    [apply view_new|lia|simpl; lia|lia|lia|].
  cbn [app length] in V. rewrite Z.add_0_r in V. rewrite E1. cbn [mbind option_bind].
  change (0 + 4 * Z.of_nat n) with (4 * Z.of_nat n) in *. rewrite E2. cbn [mbind option_bind].
  pose proof (reloc_code_size (take n src) src_addr 0) as Hsz.
  rewrite length_take, Nat.min_l in Hsz by lia.
  destruct (Finalize_ok a2 _ _ V) as (a3 & E3 & W3 & L3 & D3); [| |lia|].
  - eapply Forall_impl; [apply reloc_code_labels|]. intros [k v] (_ & _ & H). cbn in H.
    rewrite Nat.sub_0_r in H. by eapply lookup_lt_Some.
  - by apply reloc_code_words.
  - rewrite E3. eexists. split; [done|]. by destruct (buf_ a3).
Qed.

End Relocator.
