(* ===== verification/RelocatorCorrect.v ===== *)
(** * Relocated code behaves like the original instructions

    Each classifier of [arm64_constants.h] agrees with the A64 decoder, and the
    block a supported instruction is rewritten to simulates it: from equal
    registers and memory it reaches the successor the original instruction
    reaches, having changed nothing else but the scratch register X17 (and, for
    calls, the return address, which is the next relocated instruction). *)

From S2P Require Import Prelude Arm64 Arm64Machine Assembler Relocator.
Import Arm64 Assembler Relocator.

Module RelocatorCorrect.
Import A64.

(** ** Classifiers and decoder *)

Lemma fld_top w lo n : 24 <= lo → fld w lo n = (top w / 2 ^ (lo - 24)) mod 2 ^ n.
Proof.
  intros H. unfold fld, top. rewrite Z.div_div by lia.
  rewrite <- Z.pow_add_r by lia. do 3 f_equal. lia.
Qed.

Lemma fld_range w lo n : 0 <= n → 0 <= fld w lo n < 2 ^ n.
Proof. intros. apply Z.mod_pos_bound. lia. Qed.

Lemma SignExtend_sext w lo n :
  1 <= n <= 63 → SignExtend (fld w lo n) n = sext n (fld w lo n).
Proof. intros. apply SignExtend_eq; [lia|]. apply fld_range. lia. Qed.

Lemma Bits_fld w hi lo : 0 <= lo <= hi → hi - lo < 31 → Bits w hi lo = fld w lo (hi - lo + 1).
Proof. intros. by apply Bits_eq. Qed.

(** The decoder with the tests on the top byte made explicit. *)
Definition decode_top (t w : Z) : inst :=
  let imm26 := 4 * sext 26 (fld w 0 26) in
  let imm19 := 4 * sext 19 (fld w 5 19) in
  let imm21 := sext 21 (4 * fld w 5 19 + fld w 29 2) in
  if t .& 0xFC =? 0x14 then IB imm26
  else if t .& 0xFC =? 0x94 then IBL imm26
  else if (t =? 0x54) && negb (Z.testbit w 4) then IBcond (fld w 0 4) imm19
  else if t .& 0x7E =? 0x34
  then ICB (Z.testbit t 0) (t / 128) (fld w 0 5) imm19
  else if t .& 0x7E =? 0x36
  then ITB (Z.testbit t 0) (32 * (t / 128) + fld w 19 5) (fld w 0 5)
         (4 * sext 14 (fld w 5 14))
  else if t .& 0x3B =? 0x18
  then ILdrLit (t / 64) ((t / 4) mod 2) (fld w 0 5) imm19
  else if t .& 0x9F =? 0x10 then IAdr (fld w 0 5) imm21
  else if t .& 0x9F =? 0x90 then IAdrp (fld w 0 5) (4096 * imm21)
  else decode_plain w.

Definition top_agree (t : Z) : bool :=
  let b := Bool.eqb in
  b (t / 4 mod 64 =? 0x05) (t .& 0xFC =? 0x14) &&
  b (t / 4 mod 64 =? 0x25) (t .& 0xFC =? 0x94) &&
  b (t / 1 mod 256 =? 0x54) (t =? 0x54) &&
  b (t / 2 mod 64 =? 0x1A) (t .& 0x7E =? 0x34) &&
  b (t / 2 mod 64 =? 0x1B) (t .& 0x7E =? 0x36) &&
  b ((t / 8 mod 8 =? 3) && (t / 1 mod 4 =? 0)) (t .& 0x3B =? 0x18) &&
  b ((t / 1 mod 32 =? 0x10) && (t / 128 mod 2 =? 0)) (t .& 0x9F =? 0x10) &&
  b ((t / 1 mod 32 =? 0x10) && (t / 128 mod 2 =? 1)) (t .& 0x9F =? 0x90) &&
  b (t / 1 mod 2 =? 1) (Z.testbit t 0) &&
  (t / 64 mod 4 =? t / 64) && (t / 128 mod 2 =? t / 128).

Lemma top_agree_true t : 0 <= t < 256 → top_agree t = true.
Proof. apply (byte_cases top_agree). vm_compute. done. Qed.

Lemma fld_bit w n : (fld w n 1 =? 0) = negb (Z.testbit w n) .
Proof.
  destruct (decide (0 <= n)).
  - unfold fld. rewrite <- Z.shiftr_div_pow2 by done.
    change (2 ^ 1) with 2. pose proof (Z.bit0_odd (w >> n)) as E.
    rewrite Z.shiftr_spec in E by lia. rewrite Z.add_0_l in E. rewrite E, Zmod_odd.
    by destruct (Z.odd (w >> n)).
  - unfold fld. rewrite Z.pow_neg_r, Z.div_0_r, Z.mod_0_l, Z.testbit_neg_r by lia. done.
Qed.

Lemma decode_decode_top w : is_u32 w → decode w = decode_top (top w) w.
Proof.
  intros Hw. pose proof (top_agree_true _ (top_range _ Hw)) as H.
  unfold top_agree in H. rewrite !andb_true_iff in H.
  destruct H as [[[[[[[[[[H1 H2] H3] H4] H5] H6] H7] H8] H9] H10] H11].
  apply Bool.eqb_prop in H1, H2, H3, H4, H5, H6, H7, H8, H9.
  apply Z.eqb_eq in H10, H11.
  assert (decode w = decode w) as E by done. unfold decode at 1 in E.
  rewrite !(fld_top w 26), !(fld_top w 24), !(fld_top w 25), !(fld_top w 27),
    !(fld_top w 31), !(fld_top w 30) in E by lia.
  change (2 ^ (26 - 24)) with 4 in E. change (2 ^ (24 - 24)) with 1 in E.
  change (2 ^ (25 - 24)) with 2 in E. change (2 ^ (27 - 24)) with 8 in E.
  change (2 ^ (31 - 24)) with 128 in E. change (2 ^ (30 - 24)) with 64 in E.
  change (2 ^ 6) with 64 in E. change (2 ^ 8) with 256 in E. change (2 ^ 1) with 2 in E.
  change (2 ^ 3) with 8 in E. change (2 ^ 2) with 4 in E. change (2 ^ 5) with 32 in E.
  rewrite H1, H2, H3, H4, H5, H6, H7, H8, H9, H10, H11, fld_bit in E.
  rewrite <- E at 1. unfold decode_top. repeat case_match; done.
Qed.

(** How the relocator's tests resolve the decoder's, on every top byte. *)
Definition class_table (t : Z) : bool :=
  let b := t .& 0xFC =? 0x14 in
  let bl := t .& 0xFC =? 0x94 in
  let c := t =? 0x54 in
  let cb := t .& 0x7E =? 0x34 in
  let tb := t .& 0x7E =? 0x36 in
  let ll := t .& 0x3B =? 0x18 in
  let adr := t .& 0x9F =? 0x10 in
  let adrp := t .& 0x9F =? 0x90 in
  Bool.eqb ((t .& 0x7F =? 0x34) || (t .& 0x7F =? 0x35)) cb &&
  Bool.eqb ((t .& 0x7F =? 0x36) || (t .& 0x7F =? 0x37)) tb &&
  implb bl (negb b) && implb c (negb (b || bl)) &&
  implb cb (negb (b || bl || c)) && implb tb (negb (b || bl || c || cb)) &&
  implb ll (negb (b || bl || c || cb || tb)) &&
  implb adr (negb (b || bl || c || cb || tb || ll)) &&
  implb adrp (negb (b || bl || c || cb || tb || ll || adr)).

Lemma class_table_true t : 0 <= t < 256 → class_table t = true.
Proof. apply (byte_cases class_table). vm_compute. done. Qed.

(** The relocator's case analysis is the decoder's. *)
Inductive reloc_class (w : Z) : inst → Prop :=
| RC_B : IsB w = true → reloc_class w (IB (DecodeImm26 w))
| RC_BL : IsB w = false → IsBL w = true → reloc_class w (IBL (DecodeImm26 w))
| RC_BCond :
    IsB w = false → IsBL w = false → IsBCond w = true →
    reloc_class w (IBcond (fld w 0 4) (DecodeImm19 w))
| RC_CB :
    IsB w = false → IsBL w = false → IsBCond w = false → IsCBZ w || IsCBNZ w = true →
    reloc_class w (ICB (Z.testbit w 24) (fld w 31 1) (fld w 0 5) (DecodeCompImm19 w))
| RC_TB :
    IsB w = false → IsBL w = false → IsBCond w = false → IsCBZ w || IsCBNZ w = false →
    IsTBZ w || IsTBNZ w = true →
    reloc_class w (ITB (Z.testbit w 24) (32 * fld w 31 1 + fld w 19 5) (fld w 0 5)
                     (DecodeImm14 w))
| RC_LdrLit :
    IsB w = false → IsBL w = false → IsBCond w = false → IsCBZ w || IsCBNZ w = false →
    IsTBZ w || IsTBNZ w = false → IsLdrLiteral w = true →
    reloc_class w (ILdrLit (Bits w 31 30) (fld w 26 1) (GetRt w) (DecodeLdrLitImm19 w))
| RC_ADR :
    IsB w = false → IsBL w = false → IsBCond w = false → IsCBZ w || IsCBNZ w = false →
    IsTBZ w || IsTBNZ w = false → IsLdrLiteral w = false → IsADR w = true →
    reloc_class w (IAdr (GetRd w) (DecodeAdrImm w))
| RC_ADRP :
    IsB w = false → IsBL w = false → IsBCond w = false → IsCBZ w || IsCBNZ w = false →
    IsTBZ w || IsTBNZ w = false → IsLdrLiteral w = false → IsADR w = false →
    IsADRP w = true → reloc_class w (IAdrp (GetRd w) (DecodeAdrpImm w))
| RC_verbatim i :
    IsB w = false → IsBL w = false → IsBCond w = false → IsCBZ w || IsCBNZ w = false →
    IsTBZ w || IsTBNZ w = false → IsLdrLiteral w = false → IsADR w = false →
    IsADRP w = false → pc_relative i = false → reloc_class w i.

Lemma DecodeImm26_eq w : DecodeImm26 w = 4 * sext 26 (fld w 0 26).
Proof.
  unfold DecodeImm26. assert (w .& 0x3FFFFFF = fld w 0 26) as ->.
  { mask_mod. unfold fld. by rewrite Z.div_1_r. }
  rewrite SignExtend_sext by lia. lia.
Qed.

Lemma DecodeImm19_eq w : DecodeImm19 w = 4 * sext 19 (fld w 5 19).
Proof.
  unfold DecodeImm19. rewrite Bits_fld by lia. change (23 - 5 + 1) with 19.
  rewrite SignExtend_sext by lia. lia.
Qed.

Lemma DecodeImm14_eq w : DecodeImm14 w = 4 * sext 14 (fld w 5 14).
Proof.
  unfold DecodeImm14. rewrite Bits_fld by lia. change (18 - 5 + 1) with 14.
  rewrite SignExtend_sext by lia. lia.
Qed.

Lemma DecodeAdrImm_eq w : DecodeAdrImm w = sext 21 (4 * fld w 5 19 + fld w 29 2).
Proof.
  unfold DecodeAdrImm. rewrite !Bits_fld by lia. change (23 - 5 + 1) with 19.
  change (30 - 29 + 1) with 2.
  pose proof (fld_range w 5 19). pose proof (fld_range w 29 2).
  rewrite Z.shiftl_mul_pow2, u32_id, lor_low_high by (unfold is_u32; lia).
  rewrite Z.mul_comm. apply SignExtend_eq; lia.
Qed.

Lemma DecodeAdrpImm_eq w : DecodeAdrpImm w = 4096 * sext 21 (4 * fld w 5 19 + fld w 29 2).
Proof. rewrite <- DecodeAdrImm_eq. unfold DecodeAdrpImm, DecodeAdrImm. lia. Qed.

Lemma testbit_top w n : 24 <= n → Z.testbit (top w) (n - 24) = Z.testbit w n.
Proof.
  intros Hn. unfold top. rewrite <- Z.shiftr_div_pow2, Z.shiftr_spec by lia. f_equal. lia.
Qed.

Lemma top_fields w : is_u32 w → fld w 31 1 = top w / 128 ∧ Bits w 31 30 = top w / 64.
Proof.
  intros Hw. pose proof (top_range _ Hw). rewrite Bits_fld, !fld_top by lia.
  change (2 ^ (31 - 24)) with 128. change (2 ^ (30 - 24)) with 64.
  change (2 ^ (31 - 30 + 1)) with 4. split; apply Z.mod_small; zmod_lia.
Qed.

Lemma decode_class w : is_u32 w → reloc_class w (decode w).
Proof.
  intros Hw. pose proof (class_table_true _ (top_range _ Hw)) as H.
  pose proof (top_range _ Hw) as Ht.
  unfold class_table in H. rewrite !andb_true_iff, !implb_true_iff in H.
  destruct H as [[[[[[[[Hcb Htb] Hbl] Hc] Hcb'] Htb'] Hll] Hadr] Hadrp].
  apply Bool.eqb_prop in Hcb, Htb. rewrite decode_decode_top by done. unfold decode_top.
  rewrite <- DecodeImm26_eq, <- DecodeImm19_eq, <- DecodeImm14_eq, <- DecodeAdrImm_eq.
  rewrite <- IsB_top, <- IsBL_top, <- IsBCond_top, <- IsLdrLiteral_top, <- IsADR_top,
    <- IsADRP_top, <- Hcb, <- Htb, <- IsCBZ_top, <- IsCBNZ_top, <- IsTBZ_top, <- IsTBNZ_top
    by done.
  destruct (top_fields w Hw) as [E31 E30].
  assert (fld w 26 1 = (top w / 4) mod 2) as E26 by (by rewrite fld_top by lia).
  assert (GetRt w = fld w 0 5) as Ert by (unfold GetRt; by rewrite Bits_fld by lia).
  change (Z.testbit (top w) 0) with (Z.testbit (top w) (24 - 24)).
  rewrite testbit_top, <- E31, <- E30, <- E26, <- Ert by lia.
  destruct (IsB w) eqn:?; [by constructor|]. destruct (IsBL w) eqn:?; [by constructor|].
  destruct (IsBCond w) eqn:?; [by constructor|].
  destruct (IsCBZ w || IsCBNZ w) eqn:?; [rewrite Ert; by constructor|].
  destruct (IsTBZ w || IsTBNZ w) eqn:?; [rewrite Ert; by constructor|].
  destruct (IsLdrLiteral w) eqn:?; [by constructor|].
  destruct (IsADR w) eqn:?; [by constructor|].
  destruct (IsADRP w) eqn:?; [|by constructor; auto using decode_plain_pc].
  rewrite DecodeAdrImm_eq, <- DecodeAdrpImm_eq. by constructor.
Qed.

(** ** The emitted words *)

#[local] Instance inst_eq_dec : EqDecision inst.
Proof. solve_decision. Defined.

Lemma small_cases (P : Z → Prop) `{∀ c, Decision (P c)} n :
  forallb (λ c, bool_decide (P c)) (seqZ 0 n) = true → ∀ c, 0 <= c < n → P c.
Proof.
  rewrite forallb_forall. intros Hf c Hc. apply (bool_decide_eq_true (P c)), Hf.
  apply list_elem_of_In, elem_of_seqZ. lia.
Qed.

Ltac enum_cases := apply (small_cases _); vm_compute; reflexivity.

Lemma decode_inv_bcond c :
  0 <= c < 16 → decode (kOpBCond .| (3 << 5) .| InvertCond c) = IBcond (InvertCond c) 12.
Proof. revert c. enum_cases. Qed.

Lemma cond_invert f c :
  0 <= c < 14 → cond_holds f (InvertCond c) = negb (cond_holds f c).
Proof. destruct f as [[[[] []] []] []]; revert c; enum_cases. Qed.

Lemma decode_ldr_x_x17 rt :
  0 <= rt < 32 → decode (0xF9400200 .| u32 (kRegX17 << 5) .| rt) = ILdrX rt 17 0.
Proof. revert rt. enum_cases. Qed.

Lemma decode_ldr_w_x17 rt :
  0 <= rt < 32 → decode (0xB9400200 .| u32 (kRegX17 << 5) .| rt) = ILdrW rt 17 0.
Proof. revert rt. enum_cases. Qed.

Lemma decode_mov_x17 rd :
  0 <= rd < 32 → decode (0xAA0003E0 .| u32 (kRegX17 << 16) .| rd) = IMov rd 17.
Proof. revert rd. enum_cases. Qed.

Lemma lxor_pow2 x n : 0 <= n →
  x .^ 2 ^ n = if Z.testbit x n then x - 2 ^ n else x + 2 ^ n.
Proof.
  intros Hn. destruct (Z.testbit x n) eqn:E.
  - rewrite Z.sub_nocarry_ldiff.
    + apply Z.bits_inj'. intros i Hi.
      rewrite Z.lxor_spec, Z.ldiff_spec, Z.pow2_bits_eqb by lia.
      destruct (Z.eqb_spec n i) as [<-|]; [by rewrite E|]. by destruct (Z.testbit x i).
    + apply Z.bits_inj'. intros i Hi. rewrite Z.ldiff_spec, Z.pow2_bits_eqb, Z.bits_0 by lia.
      destruct (Z.eqb_spec n i) as [<-|]; [by rewrite E|done].
  - symmetry. apply Z.add_nocarry_lxor. apply Z.bits_inj'. intros i Hi.
    rewrite Z.land_spec, Z.pow2_bits_eqb, Z.bits_0 by lia.
    destruct (Z.eqb_spec n i) as [<-|]; [by rewrite E|by rewrite andb_false_r].
Qed.

(** The inverted, retargeted compare or test branch, field by field: bits
    from [n] up with bit 24 flipped, a skip of three words, the old [Rt]. *)
Lemma inv_word_eq x n :
  is_u32 x → n = 19 ∨ n = 24 →
  (x .& not32 (2 ^ n - 32)) .| (3 << 5) = x / 2 ^ n * 2 ^ n + 96 + x mod 32.
Proof.
  intros Hx Hn. change (3 << 5) with 96.
  assert (not32 (2 ^ n - 32) = (2 ^ (32 - n) - 1) * 2 ^ n .| 31) as ->
    by (destruct Hn as [->| ->]; done).
  rewrite Z.land_lor_distr_r, land_shifted by lia.
  rewrite land_ones_mod by lia. change 31 with (2 ^ 5 - 1). rewrite land_ones_mod by lia.
  change (2 ^ 5) with 32. rewrite <- Z.lor_assoc, (Z.lor_comm (x mod 32)).
  change 96 with (3 * 2 ^ 5). rewrite (lor_low_high (x mod 32)) by zmod_lia.
  unfold is_u32 in Hx.
  rewrite (Z.mod_small (x / 2 ^ n)) by (destruct Hn as [->| ->]; zmod_lia).
  rewrite lor_low_high by (destruct Hn as [->| ->]; zmod_lia). lia.
Qed.

Lemma flip24 w : is_u32 w →
  is_u32 (w .^ (1 << 24)) ∧ (w .^ (1 << 24)) mod 32 = w mod 32 ∧
  (w .^ (1 << 24)) / 2 ^ 19 mod 32 = w / 2 ^ 19 mod 32 ∧
  top (w .^ (1 << 24)) = top w .^ 1.
Proof.
  intros Hw. split_and!.
  - apply is_u32_lxor; [done|by apply is_u32_const].
  - change (1 << 24) with (2 ^ 24). rewrite lxor_pow2 by lia.
    destruct (Z.testbit w 24); unfold is_u32 in Hw; zmod_lia.
  - change (1 << 24) with (2 ^ 24). rewrite lxor_pow2 by lia.
    destruct (Z.testbit w 24); unfold is_u32 in Hw; zmod_lia.
  - unfold top. rewrite <- !Z.shiftr_div_pow2 by lia. by rewrite Z.shiftr_lxor.
Qed.

Definition flip_table (t : Z) : bool :=
  let t' := t .^ 1 in
  let early := (t' .& 0xFC =? 0x14) || (t' .& 0xFC =? 0x94) || (t' =? 0x54) in
  implb ((t .& 0x7F =? 0x34) || (t .& 0x7F =? 0x35))
    (negb early && (t' .& 0x7E =? 0x34)) &&
  implb ((t .& 0x7F =? 0x36) || (t .& 0x7F =? 0x37))
    (negb early && negb (t' .& 0x7E =? 0x34) && (t' .& 0x7E =? 0x36)) &&
  Bool.eqb (Z.testbit t' 0) (negb (Z.testbit t 0)) && (t' / 128 =? t / 128).

Lemma flip_table_true t : 0 <= t < 256 → flip_table t = true.
Proof. apply (byte_cases flip_table). vm_compute. done. Qed.

Lemma inv_word_fields w n :
  is_u32 w → n = 19 ∨ n = 24 →
  let w' := ((w .^ (1 << 24)) .& not32 (2 ^ n - 32)) .| (3 << 5) in
  is_u32 w' ∧ top w' = top w .^ 1 ∧ fld w' 0 5 = fld w 0 5 ∧ fld w' 5 (n - 5) = 3 ∧
  (n = 19 → fld w' 19 5 = fld w 19 5).
Proof.
  intros Hw Hn w'. subst w'. destruct (flip24 w Hw) as (Hx & H5 & H19 & Ht).
  rewrite inv_word_eq by done. set (x := w .^ (1 << 24)) in *. clearbody x.
  unfold is_u32, top, fld in *. rewrite Z.div_1_r, <- Ht.
  assert (x mod 32 < 32) by zmod_lia.
  destruct Hn as [->| ->]; split_and!; try (intros; zmod_lia).
Qed.

Lemma decode_inv_cb w :
  is_u32 w → IsCBZ w || IsCBNZ w = true →
  decode (((w .^ (1 << 24)) .& not32 0x00FFFFE0) .| (3 << 5)) =
    ICB (negb (Z.testbit w 24)) (fld w 31 1) (fld w 0 5) 12.
Proof.
  intros Hw Hc. rewrite IsCBZ_top, IsCBNZ_top in Hc.
  destruct (inv_word_fields w 24) as (Hu & Ht & Hrt & Himm & _); [done|auto|].
  change (2 ^ 24 - 32) with 0x00FFFFE0 in *. change (24 - 5) with 19 in *.
  rewrite decode_decode_top by done. unfold decode_top. rewrite Ht, Hrt, Himm.
  pose proof (flip_table_true _ (top_range _ Hw)) as Hf. unfold flip_table in Hf.
  rewrite !andb_true_iff, !implb_true_iff in Hf. destruct Hf as [[[Hf _] Hb] Hs].
  apply Hf in Hc. apply andb_true_iff in Hc as [He Hc].
  apply negb_true_iff in He. apply orb_false_iff in He as [He H3].
  apply orb_false_iff in He as [H1 H2].
  apply Bool.eqb_prop in Hb. apply Z.eqb_eq in Hs.
  rewrite H1, H2, H3, Hc, Hb, Hs, (proj1 (top_fields w Hw)).
  by rewrite <- (testbit_top w 24) by lia.
Qed.

Lemma decode_inv_tb w :
  is_u32 w → IsTBZ w || IsTBNZ w = true →
  decode (((w .^ (1 << 24)) .& not32 0x0007FFE0) .| (3 << 5)) =
    ITB (negb (Z.testbit w 24)) (32 * fld w 31 1 + fld w 19 5) (fld w 0 5) 12.
Proof.
  intros Hw Hc. rewrite IsTBZ_top, IsTBNZ_top in Hc.
  destruct (inv_word_fields w 19) as (Hu & Ht & Hrt & Himm & H19); [done|auto|].
  change (2 ^ 19 - 32) with 0x0007FFE0 in *. change (19 - 5) with 14 in *.
  rewrite decode_decode_top by done. unfold decode_top. rewrite Ht, Hrt, Himm, H19 by done.
  pose proof (flip_table_true _ (top_range _ Hw)) as Hf. unfold flip_table in Hf.
  rewrite !andb_true_iff, !implb_true_iff in Hf. destruct Hf as [[[_ Hf] Hb] Hs].
  apply Hf in Hc. apply andb_true_iff in Hc as [He Hc].
  apply andb_true_iff in He as [He H4]. apply negb_true_iff in He, H4.
  apply orb_false_iff in He as [He H3]. apply orb_false_iff in He as [H1 H2].
  apply Bool.eqb_prop in Hb. apply Z.eqb_eq in Hs.
  rewrite H1, H2, H3, H4, Hc, Hb, Hs, (proj1 (top_fields w Hw)).
  by rewrite <- (testbit_top w 24) by lia.
Qed.

(** ** Where a block sits in the image *)

Fixpoint blk_off (insts : list Z) (pc : Z) : nat :=
  match insts with
  | [] => 0
  | inst :: insts => length (reloc_block inst (u64 pc)).1 + blk_off insts (pc + 4)
  end.

Lemma reloc_code_split l1 l2 pc k :
  ∃ pre prel, length pre = blk_off l1 pc ∧
    reloc_code (l1 ++ l2) pc k =
      (pre ++ (reloc_code l2 (pc + 4 * zlen l1) (k + blk_off l1 pc)).1,
       prel ++ (reloc_code l2 (pc + 4 * zlen l1) (k + blk_off l1 pc)).2).
Proof.
  revert pc k. induction l1 as [|inst l1 IH]; intros pc k; cbn [app reloc_code blk_off length].
  - exists [], []. rewrite Z.mul_0_r, Z.add_0_r, Nat.add_0_r.
    split; [done|]. by destruct (reloc_code l2 pc k).
  - destruct (IH (pc + 4) (k + length (reloc_block inst (u64 pc)).1)%nat)
      as (pre & prel & Hl & ->). cbn [fst snd].
    exists ((reloc_block inst (u64 pc)).1 ++ pre),
      ((prod_map (Nat.add k) id <$> (reloc_block inst (u64 pc)).2) ++ prel).
    rewrite length_app, Hl. split; [done|].
    rewrite <- !app_assoc. replace (pc + 4 + 4 * zlen l1) with (pc + 4 * Z.of_nat (S (length l1))) by lia.
    rewrite !Nat.add_assoc. done.
Qed.

Lemma blk_off_snoc l1 inst pc :
  blk_off (l1 ++ [inst]) pc =
    (blk_off l1 pc + length (reloc_block inst (u64 (pc + 4 * zlen l1))).1)%nat.
Proof.
  revert pc. induction l1 as [|i l1 IH]; intros pc; cbn [app blk_off length].
  - rewrite Z.mul_0_r, Z.add_0_r. lia.
  - rewrite IH. replace (pc + 4 + 4 * zlen l1) with (pc + 4 * Z.of_nat (S (length l1))) by lia.
    lia.
Qed.

Lemma neq17 r l : r ∉ 17 :: l → (r =? 17) = false.
Proof. intros H. apply Z.eqb_neq. intros ->. apply H. by constructor. Qed.

(** Calls write the return address; an instruction that falls through
    continues at the following one. *)
Definition is_call (i : inst) : bool :=
  match i with IBL _ | IBlr _ => true | _ => false end.

Definition falls (i : inst) (s : state) : bool :=
  match i with
  | IB _ | IBL _ | IBr _ | IBlr _ => false
  | IBcond c _ => negb (cond_holds (nzcv s) c)
  | ICB nz sf rt _ =>
      let v := if sf =? 1 then get_x s rt else get_x s rt mod 2 ^ 32 in
      negb (xorb (v =? 0) nz)
  | ITB nz bit rt _ => negb (Bool.eqb (Z.testbit (get_x s rt) bit) nz)
  | _ => true
  end.

(** Running the relocated code from [s] has the effect [t] of the original
    instruction [i], up to X17 and, for a call, X30; falling through leads to
    [nextpc], the next relocated instruction, which is also where a call
    returns to. *)
Definition simulates (i : inst) (s t : state) (nextpc : Z) : Prop :=
  ∃ n s', run n s = Some s' ∧
    agree_but (17 :: if is_call i then [30] else []) s' t ∧
    pc s' = (if falls i s then nextpc else pc t) ∧
    (is_call i = true → xr s' 30 = nextpc).

Lemma load_u64 s a n : load s (u64 a) n = load s a n.
Proof.
  unfold load. f_equal. apply map_ext. intros i. by rewrite u64_add_l.
Qed.

Lemma set_pc_u64 s a off : set_pc s (u64 a + off) = set_pc s (u64 (a + off)).
Proof. unfold set_pc. by rewrite u64_add_l, u64_u64. Qed.

Lemma not_ldr_x17 w : decode w ≠ ILdrLit 1 0 17 0 → w ≠ ldr_x17.
Proof. intros H ->. apply H. done. Qed.

Lemma GetRt_range w : 0 <= GetRt w < 32.
Proof. apply (Bits_range w 4 0); lia. Qed.

Lemma page_base p : is_u64 p → p .& not64 0xFFF = p / 4096 * 4096.
Proof.
  intros Hp. assert (not64 0xFFF = (2 ^ 52 - 1) * 2 ^ 12) as -> by done.
  rewrite land_shifted, land_ones_mod, Z.mod_small by (unfold is_u64 in Hp; zmod_lia). done.
Qed.

Section block.
Context (l1 l2 : list Z) (inst src_addr base : Z).
Let all := l1 ++ inst :: l2.
Let K := blk_off l1 src_addr.
Let opc := u64 (src_addr + 4 * zlen l1).
Let bl := reloc_block inst opc.
Let ws := (reloc_code all src_addr 0).1.
Let ls := (reloc_code all src_addr 0).2.

Lemma block_word i w : bl.1 !! i = Some w → ws !! (K + i)%nat = Some w.
Proof using Type.
  intros Hi. destruct (reloc_code_split l1 (inst :: l2) src_addr 0) as (pre & prel & Hl & E).
  subst ws all. rewrite E. cbn [fst]. rewrite lookup_app_r by lia.
  replace (K + i - length pre)%nat with i by lia.
  cbn [reloc_code fst]. by apply lookup_app_l_Some.
Qed.

Lemma block_label i v : (i, v) ∈ bl.2 → (K + i, v)%nat ∈ ls.
Proof using Type.
  intros Hi. destruct (reloc_code_split l1 (inst :: l2) src_addr 0) as (pre & prel & Hl & E).
  subst ls all. rewrite E. cbn [snd reloc_code]. apply elem_of_app. right.
  apply elem_of_app. left. apply list_elem_of_fmap. exists (i, v). split; done.
Qed.

Context (Hu : Forall is_u32 all) (Hlen : zlen all < 2 ^ 12).

(** Run an unlabelled word of the block. *)
Lemma step_block s i w j :
  code_at (mem s) base (reloc_image all src_addr) →
  bl.1 !! i = Some w → w ≠ ldr_x17 → decode w = j →
  pc s = u64 (base + 4 * Z.of_nat (K + i)) → step s = exec j s.
Proof using Hu.
  intros Hc Hi Hne Hd Hpc. apply block_word in Hi. eapply step_image; eauto.
  - intros Hin. apply list_elem_of_fmap in Hin as ([k v] & Ek & Hin). cbn in Ek. subst k.
    pose proof (reloc_code_labels all src_addr 0) as Hl. rewrite Forall_forall in Hl.
    destruct (Hl _ Hin) as (_ & _ & Hw). cbn in Hw. rewrite Nat.sub_0_r in Hw.
    fold ws in Hw. congruence.
  - pose proof (reloc_code_words all src_addr 0 Hu) as Hw. fold ws in Hw.
    rewrite Forall_lookup in Hw. eauto.
Qed.

(** Run a labelled literal load of the block. *)
Lemma step_block_literal s i v :
  code_at (mem s) base (reloc_image all src_addr) →
  (i, v) ∈ bl.2 → pc s = u64 (base + 4 * Z.of_nat (K + i)) →
  step s = Some (next (set_x s 17 v)).
Proof using Hlen.
  intros Hc Hi Hpc. apply block_label in Hi.
  pose proof (reloc_code_labels all src_addr 0) as Hl. rewrite Forall_forall in Hl.
  destruct (Hl _ Hi) as (_ & Hv & Hw). cbn in Hv, Hw. rewrite Nat.sub_0_r in Hw.
  apply list_elem_of_lookup in Hi as [j Hj].
  pose proof (reloc_code_size all src_addr 0) as Hsz.
  eapply step_literal; eauto; [apply reloc_code_nodup|]. fold ws ls in Hsz |- *. lia.
Qed.

(** ** Simulation of one instruction *)

Context (s : state).
Context (Hc : code_at (mem s) base (reloc_image all src_addr)).
Context (Hpc : pc s = u64 (base + 4 * Z.of_nat K)).
Let nextpc := u64 (base + 4 * Z.of_nat (K + length bl.1)).

Lemma run_ldr_br s1 i v :
  mem s1 = mem s → (i, v) ∈ bl.2 → bl.1 !! S i = Some br_x17 →
  pc s1 = u64 (base + 4 * Z.of_nat (K + i)) →
  run 2 s1 = Some (set_pc (next (set_x s1 17 v)) (u64 v)).
Proof using Hc Hlen Hu.
  intros Hm Hi Hb Hp. cbn [run].
  rewrite (step_block_literal s1 i v) by (rewrite ?Hm; done). cbn [mbind option_bind].
  rewrite (step_block (next (set_x s1 17 v)) (S i) br_x17 (IBr 17)); [done| |done|done|done|].
  - by rewrite <- Hm in Hc.
  - cbn. rewrite Hp, u64_add_l. f_equal. lia.
Qed.

(** A compare-and-branch form: an inverted skip over the long jump. *)
Lemma sim_skip i w j v (b : bool) t :
  bl = ([w; ldr_x17; br_x17], [(1%nat, v)]) → w ≠ ldr_x17 → decode w = j → is_u64 v →
  exec j s = Some (if b then set_pc s (pc s + 12) else next s) →
  is_call i = false → falls i s = b →
  t = (if b then next (set_pc s opc) else set_pc (set_pc s opc) v) →
  simulates i s t nextpc.
Proof using Hc Hlen Hpc Hu.
  intros Hbl Hne Hd Hv He Hcall Hf ->. unfold simulates. rewrite Hcall, Hf.
  assert (step s = exec j s) as Hs.
  { apply (step_block s 0 w); rewrite ?Hbl; auto. by rewrite Nat.add_0_r. }
  destruct b.
  - exists 1%nat, (set_pc s (pc s + 12)). cbn [run]. rewrite Hs, He.
    split; [done|]. split; [by split_and!|]. split; [|done].
    subst nextpc. rewrite Hbl. cbn. rewrite Hpc, u64_add_l. f_equal. lia.
  - exists 3%nat, (set_pc (next (set_x (next s) 17 v)) (u64 v)).
    rewrite run_S, Hs, He. cbn [mbind option_bind].
    rewrite (run_ldr_br (next s) 1 v); [|done|rewrite Hbl; set_solver|by rewrite Hbl|].
    + split; [done|]. split; [|split; [|done]].
      * split_and!; try done. intros r Hr. cbn.
        by rewrite (neq17 r _ Hr).
      * cbn. by rewrite u64_u64.
    + cbn. rewrite Hpc, u64_add_l. f_equal. lia.
Qed.

(** A use of the loaded address: [LDR X17, =v] then one instruction. *)
Lemma sim_use i w j v t s2 :
  bl = ([ldr_x17; w], [(0%nat, v)]) → w ≠ ldr_x17 → decode w = j →
  exec j (next (set_x s 17 v)) = Some (next s2) →
  is_call i = false → falls i s = true → pc s2 = pc (next (set_x s 17 v)) →
  agree_but [17] s2 t → simulates i s t nextpc.
Proof using Hc Hlen Hpc Hu.
  intros Hbl Hne Hd He Hcall Hf Hp2 Ha. unfold simulates. rewrite Hcall, Hf.
  exists 2%nat, (next s2). cbn [run].
  rewrite (step_block_literal s 0 v);
    [|done|rewrite Hbl; set_solver|by rewrite Nat.add_0_r].
  cbn [mbind option_bind].
  rewrite (step_block (next (set_x s 17 v)) 1 w j); [|done|by rewrite Hbl|done|done|].
  - rewrite He. split; [done|]. split; [done|]. split; [|done].
    subst nextpc. rewrite Hbl. cbn. rewrite Hp2. cbn.
    rewrite Hpc, u64_add_l, <- Z.add_assoc, u64_add_l. f_equal. lia.
  - cbn. rewrite Hpc, u64_add_l. f_equal. lia.
Qed.

Lemma sim_branch off t :
  bl = ([ldr_x17; br_x17], [(0%nat, u64 (opc + off))]) →
  exec (IB off) (set_pc s opc) = Some t → simulates (IB off) s t nextpc.
Proof using Hc Hlen Hpc Hu.
  intros Hbl [= <-]. eexists 2%nat, _. split.
  - apply (run_ldr_br s 0 (u64 (opc + off))); rewrite ?Hbl; [done|set_solver|done|].
    by rewrite Nat.add_0_r.
  - split_and!; try done.
    + split_and!; try done. intros r Hr. cbn. by rewrite (neq17 r _ Hr).
    + cbn. subst opc. by rewrite !u64_u64.
Qed.

Lemma sim_call off t :
  bl = ([ldr_x17; 0xAA1103FE; 0xD63F03C0], [(0%nat, u64 (opc + off))]) →
  exec (IBL off) (set_pc s opc) = Some t → simulates (IBL off) s t nextpc.
Proof using Hc Hlen Hpc Hu.
  intros Hbl [= <-]. set (v := u64 (opc + off)) in *.
  set (s1 := next (set_x s 17 v)). set (s2 := next (set_x s1 30 (get_x s1 17))).
  exists 3%nat, (set_pc (set_x s2 30 (pc s2 + 4)) (get_x s2 30)). cbn [run].
  assert (pc s1 = u64 (base + 4 * Z.of_nat (K + 1))) as P1.
  { cbn. rewrite Hpc, u64_add_l. f_equal. lia. }
  assert (pc s2 = u64 (base + 4 * Z.of_nat (K + 2))) as P2.
  { cbn. change (u64 (pc s1 + 4) = u64 (base + 4 * Z.of_nat (K + 2))).
    rewrite P1, u64_add_l. f_equal. lia. }
  rewrite (step_block_literal s 0 v);
    [|done|rewrite Hbl; set_solver|by rewrite Nat.add_0_r]. cbn [mbind option_bind].
  change (next (set_x s 17 v)) with s1.
  rewrite (step_block s1 1 0xAA1103FE (IMov 30 17)); [|done|by rewrite Hbl|done|done|done].
  cbn [mbind option_bind exec]. change (next (set_x s1 30 (get_x s1 17))) with s2.
  rewrite (step_block s2 2 0xD63F03C0 (IBlr 30)); [|done|by rewrite Hbl|done|done|done].
  split; [done|]. split_and!; try done.
  - split_and!; try done. intros r Hr. cbn.
    destruct (Z.eqb_spec r 30); [set_solver|]. by rewrite (neq17 r _ Hr).
  - cbn. subst v opc. by rewrite !u64_u64.
  - intros _. cbn. change (u64 (pc s2 + 4) = nextpc). subst nextpc. rewrite P2, u64_add_l, Hbl.
    cbn. f_equal. lia.
Qed.

(** A word copied verbatim whose effect does not depend on its address. *)
Lemma sim_verbatim w j t :
  bl = ([w], []) → w ≠ ldr_x17 → decode w = j →
  pc_relative j = false →
  exec j (set_pc s opc) = Some t → simulates j s t nextpc.
Proof using Hc Hlen Hpc Hu.
  intros Hbl Hne Hd Hj He.
  assert (step s = exec j s) as Hs.
  { apply (step_block s 0 w); rewrite ?Hbl; auto. by rewrite Nat.add_0_r. }
  assert (nextpc = u64 (pc s + 4)) as Hn.
  { subst nextpc. rewrite Hbl, Hpc, u64_add_l. cbn. f_equal. lia. }
  unfold simulates. exists 1%nat. cbn [run]. rewrite Hs, Hn.
  destruct j; try done; cbn in He |- *; simplify_eq; eexists; (split; [done|]);
    split_and!; try done; unfold agree_but; cbn; split_and!; try done.
  intros r Hr. destruct (Z.eqb_spec r 30); [set_solver|done].
Qed.

Context (Hi : is_u32 inst).

Lemma opc_u64 : is_u64 opc.
Proof using Type. apply u64_range. Qed.

Lemma sim_bcond t :
  bl = ([kOpBCond .| (3 << 5) .| InvertCond (CondFromBCond inst); ldr_x17; br_x17],
        [(1%nat, u64 (opc + DecodeImm19 inst))]) →
  fld inst 0 4 < 14 →
  exec (IBcond (fld inst 0 4) (DecodeImm19 inst)) (set_pc s opc) = Some t →
  simulates (IBcond (fld inst 0 4) (DecodeImm19 inst)) s t nextpc.
Proof using Hc Hlen Hpc Hu.
  intros B Hc14 He. pose proof (fld_range inst 0 4).
  assert (CondFromBCond inst = fld inst 0 4) as Ec.
  { unfold CondFromBCond. mask_mod. unfold fld. by rewrite Z.div_1_r. }
  rewrite Ec in B.
  eapply (sim_skip _ _ (IBcond (InvertCond (fld inst 0 4)) 12) _
    (negb (cond_holds (nzcv s) (fld inst 0 4)))); [exact B|..|done|done|].
  - apply not_ldr_x17. by rewrite decode_inv_bcond by lia.
  - apply decode_inv_bcond. lia.
  - apply u64_range.
  - cbn. by rewrite cond_invert by lia.
  - cbn in He. injection He as <-.
    destruct (cond_holds (nzcv s) (fld inst 0 4)); cbn; [apply set_pc_u64|done].
Qed.

Lemma sim_cb t :
  let i := ICB (Z.testbit inst 24) (fld inst 31 1) (fld inst 0 5) (DecodeCompImm19 inst) in
  bl = ([((inst .^ (1 << 24)) .& not32 0x00FFFFE0) .| (3 << 5); ldr_x17; br_x17],
        [(1%nat, u64 (opc + DecodeCompImm19 inst))]) →
  IsCBZ inst || IsCBNZ inst = true →
  exec i (set_pc s opc) = Some t → simulates i s t nextpc.
Proof using Hc Hi Hlen Hpc Hu.
  intros i B Hcb He. eapply (sim_skip i _ _ _ (falls i s)); [exact B|..|done|done|].
  - apply not_ldr_x17. by rewrite decode_inv_cb.
  - by apply decode_inv_cb.
  - apply u64_range.
  - cbn. by destruct (_ =? 0), (Z.testbit inst 24).
  - cbn in He. injection He as <-. cbn. change (get_x (set_pc s opc)) with (get_x s).
    destruct (xorb _ _); cbn; [apply set_pc_u64|done].
Qed.

Lemma sim_tb t :
  let i := ITB (Z.testbit inst 24) (32 * fld inst 31 1 + fld inst 19 5) (fld inst 0 5)
             (DecodeImm14 inst) in
  bl = ([((inst .^ (1 << 24)) .& not32 0x0007FFE0) .| (3 << 5); ldr_x17; br_x17],
        [(1%nat, u64 (opc + DecodeImm14 inst))]) →
  IsTBZ inst || IsTBNZ inst = true →
  exec i (set_pc s opc) = Some t → simulates i s t nextpc.
Proof using Hc Hi Hlen Hpc Hu.
  intros i B Htb He. eapply (sim_skip i _ _ _ (falls i s)); [exact B|..|done|done|].
  - apply not_ldr_x17. by rewrite decode_inv_tb.
  - by apply decode_inv_tb.
  - apply u64_range.
  - subst i. cbn [exec falls].
    generalize (Z.testbit (get_x s (fld inst 0 5)) (32 * fld inst 31 1 + fld inst 19 5)),
      (Z.testbit inst 24). by intros [] [].
  - subst i. cbn [exec] in He. injection He as <-. cbn [falls].
    change (get_x (set_pc s opc)) with (get_x s).
    destruct (Bool.eqb _ _); cbn [negb]; [apply set_pc_u64|done].
Qed.

(** A literal load of [n] bytes whose address is [v]. *)
Lemma ldr_agree v n :
  agree_but [17]
    (set_x (next (set_x s 17 (u64 v))) (GetRt inst)
       (load (next (set_x s 17 (u64 v))) (get_xsp (next (set_x s 17 (u64 v))) 17 + 0) n))
    (next (set_x (set_pc s opc) (GetRt inst) (load (set_pc s opc) v n))).
Proof using Type.
  split_and!; try done. cbn. rewrite Z.add_0_r, !u64_u64. intros r Hr.
  change (load (next (set_x s 17 (u64 v)))) with (load s).
  change (load (set_pc s opc)) with (load s).
  rewrite load_u64. cbn. by rewrite (neq17 r _ Hr).
Qed.

Lemma sim_ldr_lit opcode t :
  let i := ILdrLit opcode 0 (GetRt inst) (DecodeLdrLitImm19 inst) in
  bl = ([ldr_x17; (if opcode =? 1 then 0xF9400200 else 0xB9400200)
                    .| u32 (kRegX17 << 5) .| GetRt inst],
        [(0%nat, u64 (opc + DecodeLdrLitImm19 inst))]) →
  opcode = 0 ∨ opcode = 1 →
  exec i (set_pc s opc) = Some t → simulates i s t nextpc.
Proof using Hc Hlen Hpc Hu.
  intros i B Ho He. pose proof (GetRt_range inst). pose proof opc_u64.
  destruct Ho as [->| ->]; cbn in B, He; injection He as <-;
    rewrite (u64_id opc) by done.
  - eapply (sim_use _ _ (ILdrW (GetRt inst) 17 0)); [exact B|..|apply ldr_agree]; try done.
    + apply not_ldr_x17. by rewrite decode_ldr_w_x17.
    + by apply decode_ldr_w_x17.
  - eapply (sim_use _ _ (ILdrX (GetRt inst) 17 0)); [exact B|..|apply ldr_agree]; try done.
    + apply not_ldr_x17. by rewrite decode_ldr_x_x17.
    + by apply decode_ldr_x_x17.
Qed.

(** ADR and ADRP: the address [v] is moved from X17 to [Rd]. *)
Lemma sim_adr i v t :
  bl = ([ldr_x17; 0xAA0003E0 .| u32 (kRegX17 << 16) .| GetRd inst], [(0%nat, u64 v)]) →
  is_call i = false → falls i s = true →
  t = next (set_x (set_pc s opc) (GetRd inst) v) → simulates i s t nextpc.
Proof using Hc Hlen Hpc Hu.
  intros B H1 H2 ->. pose proof (GetRt_range inst : 0 <= GetRd inst < 32).
  eapply (sim_use i _ (IMov (GetRd inst) 17) _ _
    (set_x (next (set_x s 17 (u64 v))) (GetRd inst) _)); [exact B|..|done|done|done|].
  - apply not_ldr_x17. by rewrite decode_mov_x17.
  - by apply decode_mov_x17.
  - done.
  - split_and!; try done. cbn. intros r Hr. rewrite !u64_u64. by rewrite (neq17 r _ Hr).
Qed.
End block.

(** Instructions whose relocation is faithful. Excluded are [B.AL]/[B.NV]
    (conditions 14 and 15), the SIMD and sign-extending literal loads, and
    words outside the modelled subset. *)
Definition supported (w : Z) : bool :=
  match decode w with
  | IBcond c _ => c <? 14
  | ILdrLit opc v _ _ => (v =? 0) && (opc <? 2)
  | IOther _ => false
  | _ => true
  end.

Lemma block_simulates l1 l2 inst src_addr base s t :
  let all := l1 ++ inst :: l2 in
  Forall is_u32 all → zlen all < 2 ^ 12 → supported inst = true →
  code_at (mem s) base (reloc_image all src_addr) →
  pc s = u64 (base + 4 * Z.of_nat (blk_off l1 src_addr)) →
  exec (decode inst) (set_pc s (src_addr + 4 * zlen l1)) = Some t →
  simulates (decode inst) s t
    (u64 (base + 4 * Z.of_nat (blk_off (l1 ++ [inst]) src_addr))).
Proof.
  intros all Hu Hlen Hsup Hc Hpc He. rewrite blk_off_snoc.
  assert (is_u32 inst) as Hi.
  { rewrite Forall_forall in Hu. apply Hu. subst all. set_solver. }
  set (opc := u64 (src_addr + 4 * zlen l1)).
  assert (set_pc s (src_addr + 4 * zlen l1) = set_pc s opc) as E.
  { unfold set_pc. subst opc. by rewrite u64_u64. }
  rewrite E in He. unfold supported in Hsup. assert (is_u64 opc) as Hopc by apply u64_range.
  pose proof (decode_class inst Hi) as C. revert Hsup He. remember (decode inst) as i eqn:Ei.
  assert (reloc_block inst opc = reloc_block inst opc) as B by done.
  unfold reloc_block at 2 in B.
  destruct C as [H1|H1 H2|H1 H2 H3|H1 H2 H3 H4|H1 H2 H3 H4 H5|H1 H2 H3 H4 H5 H6
    |H1 H2 H3 H4 H5 H6 H7|H1 H2 H3 H4 H5 H6 H7 H8|i H1 H2 H3 H4 H5 H6 H7 H8 H9];
    rewrite ?H1, ?H2, ?H3, ?H4, ?H5, ?H6, ?H7, ?H8 in B; intros Hsup He.
  - by eapply sim_branch.
  - by eapply sim_call.
  - apply Z.ltb_lt in Hsup. by eapply sim_bcond.
  - by eapply sim_cb.
  - by eapply sim_tb.
  - apply andb_true_iff in Hsup as [Hv Ho]. apply Z.eqb_eq in Hv. apply Z.ltb_lt in Ho.
    rewrite Hv in *. pose proof (Bits_range inst 31 30).
    eapply sim_ldr_lit; eauto; [|lia]. etransitivity; [exact B|].
    destruct (Z.eqb_spec (Bits inst 31 30) 1); [done|].
    by destruct (Z.eqb_spec (Bits inst 31 30) 0); [|lia].
  - eapply sim_adr; [exact Hu|exact Hlen|exact Hc|exact Hpc|exact B|done|done|].
    injection He as <-. cbn. by rewrite !(u64_id opc) by done.
  - eapply sim_adr; [exact Hu|exact Hlen|exact Hc|exact Hpc|exact B|done|done|].
    injection He as <-. rewrite page_base by done. cbn. by rewrite !(u64_id opc) by done.
  - assert (IsLdrLiteral ldr_x17 = true) as HL by done.
    eapply (sim_verbatim _ _ _ _ _ Hu Hlen s Hc Hpc inst); [exact B|congruence|done..].
Qed.

(** ** Properties of [RelocateInstructions] *)

(** C2: relocation is faithful. Whatever the address, [RelocateInstructions]
    succeeds on [n] instruction words, and wherever its buffer is then placed,
    running the block of a supported instruction has the effect of the original
    instruction at its original address: same registers, flags and memory up
    to X17 (and X30 for a call), a taken branch reaches the original target, a
    fall-through and a call's return address lead to the next relocated
    instruction. *)
Theorem RelocateInstructions_simulates src src_addr n dst l1 inst l2 :
  (0 < n <= length src)%nat → Z.of_nat n < 2 ^ 12 → take n src = l1 ++ inst :: l2 →
  Forall is_u32 (take n src) → supported inst = true →
  ∃ r, RelocateInstructions src src_addr (4 * Z.of_nat n) dst = Some r ∧ valid r = true ∧
    ∀ base s t,
      code_at (mem s) base (data (buffer r)) →
      pc s = u64 (base + 4 * Z.of_nat (blk_off l1 src_addr)) →
      exec (decode inst) (set_pc s (src_addr + 4 * zlen l1)) = Some t →
      simulates (decode inst) s t
        (u64 (base + 4 * Z.of_nat (blk_off (l1 ++ [inst]) src_addr))).
Proof.
  intros Hn Hn' Hsplit Hu Hsup.
  destruct (RelocateInstructions_ok src src_addr n dst) as (r & E & V & _ & _ & D);
    [done|lia|done|].
  exists r. split_and!; [done..|]. intros base s t Hc Hpc He.
  assert (length (take n src) = n) as Hlen by (rewrite length_take; lia).
  rewrite Hsplit in *. rewrite D in Hc. by eapply block_simulates; eauto; lia.
Qed.

(** A state with the image of [insts] at [0x20000] and the given flags. *)
Definition demo_state (insts : list Z) (src_addr pc0 : Z) : state :=
  State (λ r, r) (λ _, 0) 0x7000 (false, true, false, false) pc0
    (place 0x20000 (reloc_image insts src_addr)).

Lemma RelocateInstructions_simulates_witness :
  ∃ r, RelocateInstructions [0xD503201F; 0x54000080; 0xD503201F] 0x1000 12 0 = Some r ∧
    valid r = true ∧
    ∃ s t, code_at (mem s) 0x20000 (data (buffer r)) ∧
      exec (decode 0x54000080) (set_pc s (0x1000 + 4 * 1)) = Some t ∧ pc t = 0x1014 ∧
      simulates (decode 0x54000080) s t (u64 (0x20000 + 4 * 4)).
Proof.
  destruct (RelocateInstructions_simulates [0xD503201F; 0x54000080; 0xD503201F] 0x1000 3 0
    [0xD503201F] 0x54000080 [0xD503201F]) as (r & E & V & H).
  - simpl. lia.
  - lia.
  - done.
  - repeat (apply Forall_cons_2; [by apply is_u32_const|]). apply Forall_nil_2.
  - vm_compute. done.
  - exists r. split; [exact E|]. split; [exact V|].
    set (s := demo_state [0xD503201F; 0x54000080; 0xD503201F] 0x1000 0x20004).
    exists s, (set_pc (set_pc s 0x1004) 0x1014).
    assert (code_at (mem s) 0x20000 (data (buffer r))) as Hc.
    { vm_compute in E. injection E as <-. intros i b Hi.
      do 60 (destruct i as [|i]; [vm_compute in Hi |- *; congruence|]).
      vm_compute in Hi. congruence. }
    split; [exact Hc|]. split; [done|]. split; [done|].
    apply (H 0x20000 s (set_pc (set_pc s 0x1004) 0x1014)); [exact Hc|done|done].
Defined.

Lemma tail_returns insts src_addr base s :
  Forall is_u32 insts → zlen insts < 2 ^ 12 →
  code_at (mem s) base (reloc_image insts src_addr) →
  pc s = u64 (base + 4 * Z.of_nat (blk_off insts src_addr)) →
  run 2 s = Some (set_pc (next (set_x s 17 (src_addr + 4 * zlen insts)))
                    (src_addr + 4 * zlen insts)).
Proof.
  intros Hu Hlen Hc Hpc. set (ret := u64 (src_addr + 4 * zlen insts)).
  destruct (reloc_code_split insts [] src_addr 0) as (pre & prel & Hpre & E).
  rewrite app_nil_r in E. cbn [reloc_code fst snd] in E. fold ret in E.
  pose proof (reloc_code_size insts src_addr 0) as Hsz.
  pose proof (reloc_code_nodup insts src_addr 0) as Hnd.
  unfold reloc_image in Hc. rewrite E in Hc, Hsz, Hnd. cbn [fst snd] in Hc, Hsz, Hnd.
  set (K := blk_off insts src_addr) in *.
  assert (∀ i, (pre ++ [ldr_x17; br_x17]) !! (K + i)%nat = [ldr_x17; br_x17] !! i) as Hw.
  { intros i. rewrite lookup_app_r by lia. f_equal. lia. }
  cbn [run]. rewrite (step_literal _ _ s base (length prel) K ret Hc Hnd); cycle 1.
  - by rewrite lookup_app_r, Nat.sub_diag by lia.
  - specialize (Hw 0%nat). by rewrite Nat.add_0_r in Hw.
  - apply u64_range.
  - lia.
  - done.
  - cbn [mbind option_bind].
    rewrite (step_image _ _ (next (set_x s 17 ret)) base (K + 1) br_x17 (IBr 17) Hc);
      [|..|done].
    + unfold exec. cbn [mbind option_bind]. unfold set_pc, set_x. cbn. subst ret.
      by rewrite !u64_u64.
    + intros Hin. apply list_elem_of_fmap in Hin as ([k v] & Ek & Hin). cbn in Ek. subst k.
      pose proof (reloc_code_labels insts src_addr 0) as Hl. rewrite E, Forall_forall in Hl.
      destruct (Hl _ Hin) as (_ & _ & Hk). cbn [fst] in Hk.
      rewrite Nat.sub_0_r, Hw in Hk. done.
    + by rewrite Hw.
    + by apply is_u32_const.
    + cbn. rewrite Hpc, u64_add_l. f_equal. lia.
Qed.

(** C3: relocated code rejoins the original function. After the last block
    the image jumps back to the first instruction behind the [4 n] bytes that
    were relocated, whatever the distance, changing only X17. *)
Theorem RelocateInstructions_returns src src_addr n dst :
  (0 < n <= length src)%nat → Z.of_nat n < 2 ^ 12 → Forall is_u32 (take n src) →
  ∃ r, RelocateInstructions src src_addr (4 * Z.of_nat n) dst = Some r ∧
    bytes_consumed r = 4 * Z.of_nat n ∧
    ∀ base s, code_at (mem s) base (data (buffer r)) →
      pc s = u64 (base + 4 * Z.of_nat (blk_off (take n src) src_addr)) →
      ∃ s', run 2 s = Some s' ∧ agree_but [17] s' s ∧ pc s' = u64 (src_addr + bytes_consumed r).
Proof.
  intros Hn Hn' Hu.
  destruct (RelocateInstructions_ok src src_addr n dst) as (r & E & V & C & _ & D);
    [done|lia|done|].
  exists r. split_and!; [done..|]. intros base s Hc Hpc. rewrite D in Hc.
  assert (length (take n src) = n) as Hlen by (rewrite length_take; lia).
  eexists. split; [apply (tail_returns (take n src) src_addr base); [done|lia|done|done]|].
  rewrite C, Hlen. split; [|done]. split_and!; try done.
  intros q Hq. cbn. by rewrite (neq17 q _ Hq).
Qed.

Lemma RelocateInstructions_returns_witness :
  ∃ r, RelocateInstructions [0xD503201F; 0x14000010] 0xFFFFFFFFFFFFF000 8 0 = Some r ∧
    bytes_consumed r = 8.
Proof.
  destruct (RelocateInstructions_returns [0xD503201F; 0x14000010] 0xFFFFFFFFFFFFF000 2 0)
    as (r & E & C & _).
  - simpl. lia.
  - lia.
  - repeat (apply Forall_cons_2; [by apply is_u32_const|]). apply Forall_nil_2.
  - exists r. split; [exact E|exact C].
Defined.

(** ** Instructions that are relocated incorrectly *)

Lemma cond_always f c : c = 14 ∨ c = 15 → cond_holds f c = true.
Proof. by destruct f as [[[]]]; intros [-> | ->]. Qed.

(** An unconditional [B.AL] (condition 14) loses its branch. Inverting
    the condition gives 15, which also always holds, so the relocated block
    always skips its long jump: it continues with the next relocated
    instruction while the original instruction goes to its target. *)
Theorem bcond_always_not_taken l1 l2 inst src_addr base s :
  let all := l1 ++ inst :: l2 in
  Forall is_u32 all → zlen all < 2 ^ 12 → IsBCond inst = true → CondFromBCond inst = 14 →
  code_at (mem s) base (reloc_image all src_addr) →
  pc s = u64 (base + 4 * Z.of_nat (blk_off l1 src_addr)) →
  (∃ s', run 1 s = Some s' ∧
     pc s' = u64 (base + 4 * Z.of_nat (blk_off (l1 ++ [inst]) src_addr))) ∧
  (∃ t, exec (decode inst) (set_pc s (src_addr + 4 * zlen l1)) = Some t ∧
     pc t = u64 (src_addr + 4 * zlen l1 + DecodeImm19 inst)).
Proof.
  intros all Hu Hlen Hb Hcond Hc Hpc.
  assert (is_u32 inst) as Hi.
  { rewrite Forall_forall in Hu. apply Hu. subst all. set_solver. }
  pose proof Hb as Ht. rewrite IsBCond_top in Ht by done. apply andb_true_iff in Ht as [Ht Hb4].
  apply Z.eqb_eq in Ht.
  assert (IsB inst = false ∧ IsBL inst = false) as [H1 H2]
    by (rewrite IsB_top, IsBL_top, Ht; done).
  assert (fld inst 0 4 = 14) as Hf.
  { rewrite <- Hcond. unfold CondFromBCond. mask_mod. unfold fld. by rewrite Z.div_1_r. }
  split.
  - rewrite blk_off_snoc. set (opc := u64 (src_addr + 4 * zlen l1)).
    assert (reloc_block inst opc = ([0x5400006F; ldr_x17; br_x17],
              [(1%nat, u64 (opc + DecodeImm19 inst))])) as B
      by (unfold reloc_block; by rewrite H1, H2, Hb, Hcond).
    eexists. split.
    + rewrite run_S. rewrite (step_block l1 l2 inst src_addr base Hu s 0 0x5400006F (IBcond 15 12) Hc);
        [|by fold opc; rewrite B|done|done|by rewrite Nat.add_0_r].
      cbn [exec mbind option_bind run]. by rewrite cond_always by auto.
    + rewrite B. cbn [set_pc pc fst length]. rewrite Hpc, u64_add_l. f_equal. lia.
  - rewrite decode_decode_top by done. unfold decode_top.
    rewrite Ht, Hb4, Hf, <- DecodeImm19_eq. change (84 .& 252 =? 20) with false. change (84 .& 252 =? 148) with false.
    cbn [Z.eqb Pos.eqb andb exec]. rewrite cond_always by auto. eexists. split; [done|]. cbn [set_pc pc].
    by rewrite u64_add_l.
Qed.

Lemma bcond_always_not_taken_witness :
  (∃ s', run 1 (demo_state [0x5400008E] 0x1000 0x20000) = Some s' ∧ pc s' = 0x2000C) ∧
  (∃ t, exec (decode 0x5400008E) (set_pc (demo_state [0x5400008E] 0x1000 0x20000) 0x1000)
        = Some t ∧ pc t = 0x1010).
Proof.
  apply (bcond_always_not_taken [] [] 0x5400008E 0x1000 0x20000
    (demo_state [0x5400008E] 0x1000 0x20000)).
  - apply Forall_cons_2; [by apply is_u32_const|apply Forall_nil_2].
  - simpl. lia.
  - done.
  - done.
  - apply code_at_place; [lia|vm_compute; congruence].
  - done.
Defined.

End RelocatorCorrect.
