(* ===== verification/Trampoline.v ===== *)
(** * Jump patches ([hook_sdk/src/trampoline.h], [trampoline.cpp])

    [BuildJumpPatch] chooses the shortest of three encodings of a jump;
    [BuildRelocatedCode] wraps the relocator. The theorem runs the patch bytes
    on the machine of [Arm64Machine]. *)

From S2P Require Import Prelude Arm64 Arm64Machine Assembler Relocator.
Import Arm64 Assembler Relocator.

Module Trampoline.

Record JumpPatch : Set := mkJumpPatch {
  code : CodeBuffer;
  patch_size : Z
}.

(** [patch.code = std::move(assem.Buffer())] after [assem.Finalize()]. *)
Definition finish_patch (a : Assembler) (n : Z) : option JumpPatch :=
  a ← Finalize a;
  Some (mkJumpPatch (CodeBuffer_move (buf_ a)).1 n).

Definition BuildJumpPatch (from to : Z) : option JumpPatch :=
  let distance := s64 (s64 to - s64 from) in
  if (- kMaxBRange <=? distance) && (distance <? kMaxBRange) && (Z.rem distance 4 =? 0)
  then
    a ← EmitB Assembler_new distance;
    finish_patch a 4
  else
    let from_page := s64 (from .& not64 0xFFF) in
    let to_page := s64 (to .& not64 0xFFF) in
    let page_dist := s64 (to_page - from_page) in
    if (- (1 << 32) <=? page_dist) && (page_dist <? 1 << 32)
    then
      let rd := kRegX17 in
      a ← EmitAdrp Assembler_new rd page_dist;
      let page_off := u32 (to .& 0xFFF) in
      a ← EmitAddImm a rd rd page_off;
      a ← EmitBR a rd;
      finish_patch a 12
    else
      a ← EmitLdrX17Branch Assembler_new to;
      finish_patch a 16.

(** [src] are the instruction words at [original_addr]. *)
Definition BuildRelocatedCode (src : list Z) (original_addr bytes_to_overwrite relocated_addr : Z) :
  option CodeBuffer :=
  result ← RelocateInstructions src original_addr bytes_to_overwrite relocated_addr;
  if negb (valid result) then Some CodeBuffer_new
  else Some (CodeBuffer_move (buffer result)).1.

(** ** The three encodings *)

Lemma not_page_land x : is_u64 x → x .& not64 0xFFF = x / 4096 * 4096.
Proof.
  intros Hx. change (not64 0xFFF) with ((2 ^ 52 - 1) * 2 ^ 12).
  rewrite land_shifted, land_ones_mod by lia. change (2 ^ 12) with 4096.
  rewrite Z.mod_small; [done|]. unfold is_u64 in Hx. zmod_lia.
Qed.

(** The words of the patch and the label of the literal form. *)
Definition patch_block (from to : Z) : block * Z :=
  let distance := to - from in
  let page_dist := to / 4096 * 4096 - from / 4096 * 4096 in
  if (- kMaxBRange <=? distance) && (distance <? kMaxBRange) && (Z.rem distance 4 =? 0)
  then (([kOpB .| EncodeImm26 distance], []), 4)
  else if (- (1 << 32) <=? page_dist) && (page_dist <? 1 << 32)
  then (([kOpADRP .| EncodeAdrpImm page_dist .| 17;
          0x91000000 .| u32 ((to mod 4096) << 10) .| 0x220 .| 17; br_x17], []), 12)
  else (([ldr_x17; br_x17], [(0%nat, to)]), 16).

Lemma finish_patch_ok a ws ls n :
  view a ws ls → Forall is_u32 ws → Forall (λ kv, (kv.1 < length ws)%nat) ls →
  zlen ws + 2 * zlen ls < 2 ^ 20 →
  ∃ p, finish_patch a n = Some p ∧ patch_size p = n ∧ wf (code p) ∧
       data (code p) = image ws ls.
Proof.
  intros V Hw Hl Hn. unfold finish_patch.
  destruct (Finalize_ok a ws ls) as (a' & -> & W & _ & D); [done..|lia|].
  eexists. split; [done|]. cbn. by destruct (buf_ a').
Qed.

Lemma is_u32_imm26 d : is_u32 (kOpB .| EncodeImm26 d).
Proof.
  apply is_u32_lor; [by apply is_u32_const|]. pose proof (EncodeImm26_range d).
  unfold is_u32. lia.
Qed.

Lemma is_u32_adrp d : is_u32 (kOpADRP .| EncodeAdrpImm d .| 17).
Proof.
  repeat apply is_u32_lor; try (by apply is_u32_const); apply u32_range.
Qed.

Lemma is_u32_add x : is_u32 (0x91000000 .| u32 (x << 10) .| 0x220 .| 17).
Proof. repeat apply is_u32_lor; try (by apply is_u32_const). apply u32_range. Qed.

Lemma BuildJumpPatch_ok from to :
  0 <= from < 2 ^ 63 → 0 <= to < 2 ^ 63 →
  ∃ p, BuildJumpPatch from to = Some p ∧ patch_size p = (patch_block from to).2 ∧
    wf (code p) ∧
    data (code p) = image (patch_block from to).1.1 (patch_block from to).1.2.
Proof.
  intros Hf Ht. unfold BuildJumpPatch, patch_block.
  assert (is_u64 from ∧ is_u64 to) as [Hf' Ht'] by (unfold is_u64; lia).
  rewrite !not_page_land, !(s64_small from), !(s64_small to), !(s64_small (to - from)) by (done || lia).
  rewrite (s64_small (from / _ * _)), (s64_small (to / _ * _)) by zmod_lia.
  rewrite s64_small by zmod_lia. mask_mod. change (2 ^ 12) with 4096.
  rewrite (u32_id (to mod 4096)) by zmod_lia.
  destruct ((_ <=? to - from) && _ && _).
  { destruct (emits_inst (kOpB .| EncodeImm26 (to - from)) _ [] [] view_new) as (a & E & V); [done|].
    unfold EmitB. rewrite E. eapply finish_patch_ok; [exact V|..|done].
    - apply Forall_singleton, is_u32_imm26.
    - by constructor. }
  set (d := to / 4096 * 4096 - from / 4096 * 4096).
  destruct ((_ <=? d) && _).
  - destruct (emits_inst (kOpADRP .| EncodeAdrpImm d .| 17) _ [] [] view_new) as (a1 & E1 & V1); [done|].
    destruct (emits_inst (0x91000000 .| u32 ((to mod 4096) << 10) .| 0x220 .| 17) _ _ _ V1)
      as (a2 & E2 & V2); [simpl; lia|].
    destruct (emits_inst br_x17 _ _ _ V2) as (a3 & E3 & V3); [simpl; lia|].
    unfold EmitAdrp, kRegX17. rewrite E1. cbn [mbind option_bind]. unfold EmitAddImm.
    change (u32 (17 << 5)) with 0x220. rewrite E2. cbn [mbind option_bind]. unfold EmitBR.
    change (kOpBR .| u32 (17 << 5)) with br_x17. rewrite E3. cbn [mbind option_bind].
    eapply finish_patch_ok; [exact V3|..|done].
    + repeat apply Forall_cons_2; [apply is_u32_adrp|apply is_u32_add|by apply is_u32_const|].
      apply Forall_nil_2.
    + by constructor.
  - destruct (emits_ldr_branch to _ [] [] view_new) as (a & E & V); [done|].
    rewrite E. cbn [mbind option_bind]. eapply finish_patch_ok; [exact V|..|done].
    + repeat apply Forall_cons_2; try apply Forall_nil_2; by apply is_u32_const.
    + apply Forall_singleton. simpl. lia.
Qed.

(** ** Decoding the emitted words *)

Lemma decode_b d :
  d mod 4 = 0 → - 2 ^ 27 <= d < 2 ^ 27 → A64.decode (kOpB .| EncodeImm26 d) = A64.IB d.
Proof.
  intros Hm Hd. unfold EncodeImm26. mask_mod. rewrite quot_exact by lia.
  change kOpB with (5 * 2 ^ 26). rewrite lor_low_high by zmod_lia.
  set (e := (d / 4) mod 2 ^ 26).
  assert (0 <= e < 2 ^ 26) by (by apply Z.mod_pos_bound).
  unfold A64.decode. replace (A64.fld _ 26 6) with 5 by (unfold A64.fld; zmod_lia).
  cbn [Z.eqb Pos.eqb]. f_equal.
  replace (A64.fld _ 0 26) with e by (unfold A64.fld; zmod_lia).
  unfold A64.sext. subst e. case_cmp; zmod_lia.
Qed.

Lemma adrp_word d :
  d mod 4096 = 0 → - 2 ^ 32 <= d < 2 ^ 32 →
  ∃ lo hi, 0 <= lo < 4 ∧ 0 <= hi < 2 ^ 19 ∧
    kOpADRP .| EncodeAdrpImm d .| 17 = 2 ^ 31 + lo * 2 ^ 29 + 2 ^ 28 + hi * 32 + 17 ∧
    4 * hi + lo = (d / 4096) mod 2 ^ 21.
Proof.
  intros Hm Hd. unfold EncodeAdrpImm. rewrite quot_exact by lia.
  rewrite Z.shiftr_div_pow2 by lia. mask_mod.
  set (e := u64 (d / 4096) mod 2 ^ 21).
  assert (e = (d / 4096) mod 2 ^ 21) as He.
  { subst e. unfold u64. rewrite Z.mod_mod_divide; [done|]. by exists (2 ^ 43). }
  assert (0 <= e < 2 ^ 21) by (by apply Z.mod_pos_bound).
  exists (e mod 4), (e / 4). rewrite <- He. split_and!; [zmod_lia..| |zmod_lia].
  change (2 ^ 2) with 4. rewrite (Z.mod_small (e / 4)) by zmod_lia.
  rewrite !Z.shiftl_mul_pow2, !u32_id by (first [lia | zmod_lia]).
  set (lo := e mod 4). set (hi := e / 4).
  assert (0 <= lo < 4 ∧ 0 <= hi < 2 ^ 19) as [] by (subst lo hi; zmod_lia).
  change kOpADRP with (1 * 2 ^ 31 .| 1 * 2 ^ 28).
  replace ((1 * 2 ^ 31 .| 1 * 2 ^ 28) .| (lo * 2 ^ 29 .| hi * 2 ^ 5) .| 17)
    with (1 * 2 ^ 31 .| (lo * 2 ^ 29 .| (1 * 2 ^ 28 .| (hi * 2 ^ 5 .| 17))))
    by (apply Z.bits_inj; intros i; autorewrite with bits; btauto.Btauto.btauto).
  rewrite (lor_low_high 17), (lor_low_high _ 1 28), (lor_low_high _ lo 29),
    (lor_low_high _ 1 31) by lia. lia.
Qed.

Lemma decode_adrp d :
  d mod 4096 = 0 → - 2 ^ 32 <= d < 2 ^ 32 →
  A64.decode (kOpADRP .| EncodeAdrpImm d .| 17) = A64.IAdrp 17 d.
Proof.
  intros Hm Hd. destruct (adrp_word d Hm Hd) as (lo & hi & Hlo & Hhi & -> & E).
  A64.decode_word. f_equal; [zmod_lia|].
  replace (4 * _ + _) with (4 * hi + lo) by zmod_lia. rewrite E.
  unfold A64.sext. clear E. case_cmp; zmod_lia.
Qed.

Lemma decode_add x :
  0 <= x < 4096 →
  A64.decode (0x91000000 .| u32 (x << 10) .| 0x220 .| 17) = A64.IAddImm 17 17 x.
Proof.
  intros Hx. rewrite Z.shiftl_mul_pow2, u32_id, <- Z.lor_assoc, <- Z.lor_assoc by (unfold is_u32; lia).
  change (0x220 .| 17) with 561. rewrite lor_low_high by lia.
  change 0x91000000 with (0x91 * 2 ^ 24). rewrite lor_low_high by lia.
  A64.decode_word. f_equal; zmod_lia.
Qed.

(** ** Running a patch *)

Lemma code_word m a ws k w :
  A64.code_at m a (words_bytes ws) → ws !! k = Some w →
  A64.code_at m (a + 4 * Z.of_nat k) (le_bytes 4 w).
Proof.
  intros H Hk. pose proof (lookup_lt_Some _ _ _ Hk).
  rewrite <- (take_drop_middle ws k w), words_bytes_app, words_bytes_cons in H by done.
  apply A64.code_at_app in H as [_ H]. apply A64.code_at_app in H as [H _].
  rewrite words_bytes_length, length_take, Nat.min_l in H by lia.
  by replace (4 * Z.of_nat k) with (Z.of_nat (4 * k)) by lia.
Qed.

(** Only the first [patch_size] bytes of the buffer, without the padding of
    [Finalize], are written over the target. *)
Definition patch_bytes (p : JumpPatch) : list Z := take (Z.to_nat (patch_size p)) (data (code p)).

Lemma take_image ws n : n = (4 * length ws)%nat → take n (image ws []) = words_bytes ws.
Proof.
  intros ->. unfold image. rewrite app_nil_r. cbn [patch_all]. rewrite words_bytes_app.
  rewrite <- words_bytes_length. by rewrite take_app_length.
Qed.

Lemma image_length ws ls : zlen (image ws ls) = data_start (length ws) + 8 * zlen ls.
Proof.
  unfold image. rewrite length_app, words_bytes_length, length_app, patch_all_length,
    label_data_length, data_start_pad. lia.
Qed.

(** The state after a patch: at [to], X17 clobbered. *)
Definition jumped (s : A64.state) (to : Z) : Prop :=
  ∃ k s', A64.run k s = Some s' ∧ A64.pc s' = to ∧ A64.agree_but [17] s' s.

Lemma agree_x17 s v p : A64.agree_but [17] (A64.set_pc (A64.set_x s 17 v) p) s.
Proof.
  split_and!; try done. intros r Hr. cbn. destruct (Z.eqb_spec r 17) as [->|]; [|done].
  exfalso. apply Hr. by left.
Qed.

Lemma agree_trans rs s t u :
  A64.agree_but rs s t → A64.agree_but rs t u → A64.agree_but rs s u.
Proof.
  intros (R1 & V1 & S1 & F1 & M1) (R2 & V2 & S2 & F2 & M2). split_and!; try congruence.
  intros r Hr. by rewrite R1, R2.
Qed.

Lemma jump_b s d to :
  A64.code_at (A64.mem s) (A64.pc s) (words_bytes [kOpB .| EncodeImm26 d]) →
  d mod 4 = 0 → - 2 ^ 27 <= d < 2 ^ 27 → A64.pc s + d = to → is_u64 to → jumped s to.
Proof.
  intros Hc Hm Hd Hp Ht. pose proof (code_word _ _ _ 0 _ Hc eq_refl) as H0. clear Hc.
  rename H0 into Hc. rewrite Z.add_0_r in Hc.
  exists 1%nat. cbn [A64.run].
  rewrite (A64.step_word _ _ _ (is_u32_imm26 d) Hc (decode_b d Hm Hd)). eexists.
  split; [done|]. cbn. rewrite Hp. split; [by apply u64_id|]. by split_and!.
Qed.

Lemma jump_adrp s to d :
  let ws := [kOpADRP .| EncodeAdrpImm d .| 17;
             0x91000000 .| u32 ((to mod 4096) << 10) .| 0x220 .| 17; br_x17] in
  A64.code_at (A64.mem s) (A64.pc s) (words_bytes ws) →
  d = to / 4096 * 4096 - A64.pc s / 4096 * 4096 → - 2 ^ 32 <= d < 2 ^ 32 →
  is_u64 to → is_u64 (A64.pc s) → jumped s to.
Proof.
  intros ws Hc Hd Hr Ht Hp.
  assert (d mod 4096 = 0) as Hm by (rewrite Hd; zmod_lia).
  assert (0 <= to mod 4096 < 4096) as Hto by (by apply Z.mod_pos_bound).
  exists 3%nat. cbn [A64.run].
  pose proof (code_word _ _ _ 0 _ Hc eq_refl) as H0. rewrite Z.add_0_r in H0.
  rewrite (A64.step_word _ _ _ (is_u32_adrp d) H0 (decode_adrp d Hm Hr)).
  cbn [A64.exec mbind option_bind].
  set (s1 := A64.next _).
  rewrite (A64.step_word s1 _ _ (is_u32_add _)
    (ltac:(apply A64.code_at_u64; apply (code_word _ _ _ 1 _ Hc eq_refl))) (decode_add _ Hto)).
  cbn [A64.exec mbind option_bind]. set (s2 := A64.next _).
  rewrite (A64.step_word s2 br_x17 (A64.IBr 17)); [|by apply is_u32_const| |done].
  - cbn [A64.exec]. eexists. split; [done|]. split.
    + cbn. rewrite A64.u64_u64, Hd, u64_add_l. unfold is_u64 in *. unfold u64. zmod_lia.
    + apply (agree_trans _ _ s2); [by split_and!|].
      apply (agree_trans _ _ s1); apply agree_x17.
  - cbn. apply A64.code_at_u64. rewrite <- A64.code_at_u64, u64_add_l, A64.code_at_u64.
    rewrite <- Z.add_assoc. apply (code_word _ _ _ 2 _ Hc eq_refl).
Qed.

Lemma jump_literal s to :
  A64.code_at (A64.mem s) (A64.pc s) (image [ldr_x17; br_x17] [(0%nat, to)]) →
  is_u64 to → is_u64 (A64.pc s) → jumped s to.
Proof.
  intros Hc Ht Hp. exists 2%nat. cbn [A64.run].
  rewrite (step_literal _ _ s (A64.pc s) 0 0 to Hc);
    [|apply NoDup_singleton|done|done|done|done|by rewrite Z.add_0_r, u64_id].
  cbn [mbind option_bind].
  rewrite (step_image _ _ (A64.next (A64.set_x s 17 to)) (A64.pc s) 1 br_x17 (A64.IBr 17) Hc);
    [|apply (bool_decide_unpack _); done|done|by apply is_u32_const|done|done].
  eexists. split; [done|]. split; [cbn; by rewrite !(u64_id to)|].
  apply (agree_trans _ _ (A64.next (A64.set_x s 17 to))); [by split_and!|apply agree_x17].
Qed.

(** The patch between any two user-space addresses occupies 4, 12 or 16 bytes
    and jumps. *)
Lemma patch_block_jumps from to :
  0 <= from < 2 ^ 63 → 0 <= to < 2 ^ 63 →
  let n := (patch_block from to).2 in
  let img := image (patch_block from to).1.1 (patch_block from to).1.2 in
  n ∈ [4; 12; 16] ∧ n <= zlen img ∧
  ∀ s, A64.code_at (A64.mem s) from (take (Z.to_nat n) img) → A64.pc s = from → jumped s to.
Proof.
  intros Hf Ht. assert (is_u64 from ∧ is_u64 to) as [Hf' Ht'] by (unfold is_u64; lia).
  cbv zeta. unfold patch_block. rewrite Z.shiftl_1_l. unfold kMaxBRange. rewrite Z.shiftl_1_l.
  destruct (_ && (Z.rem _ _ =? 0)) eqn:E1; [|destruct ((_ <=? to / _ * _ - _) && _) eqn:E2]; cbn [fst snd];
    (split; [rewrite !elem_of_cons; auto|]); rewrite image_length; (split; [vm_compute; congruence|]); intros s Hc Hpc.
  - rewrite take_image in Hc by done. rewrite <- Hpc in Hc.
    rewrite !andb_true_iff, Z.leb_le, Z.ltb_lt, Z.eqb_eq in E1. destruct E1 as [[? ?] Hr].
    eapply jump_b; [exact Hc| |lia|lia|done]. apply Z.rem_mod_eq_0; [lia|by rewrite Hpc].
  - rewrite take_image in Hc by done. rewrite <- Hpc in Hc.
    rewrite andb_true_iff, Z.leb_le, Z.ltb_lt in E2.
    rewrite <- Hpc in E2; eapply jump_adrp; [exact Hc|done|exact E2|done|by rewrite Hpc].
  - rewrite firstn_all2 in Hc; [|pose proof (image_length [ldr_x17; br_x17] [(0%nat, to)]) as L;
      vm_compute in L; vm_compute; lia].
    rewrite <- Hpc in Hc. eapply jump_literal; [exact Hc|done|by rewrite Hpc].
Qed.

(** C5: a jump patch jumps. Between any two user-space addresses
    [BuildJumpPatch] succeeds with a patch of 4, 12 or 16 bytes, no longer than
    the code it built, and running exactly those [patch_size] bytes at [from]
    transfers control to [to] changing nothing but X17. *)
Theorem BuildJumpPatch_jumps from to :
  0 <= from < 2 ^ 63 → 0 <= to < 2 ^ 63 →
  ∃ p, BuildJumpPatch from to = Some p ∧ patch_size p ∈ [4; 12; 16] ∧
    patch_size p <= size (code p) ∧
    ∀ s, A64.code_at (A64.mem s) from (patch_bytes p) → A64.pc s = from → jumped s to.
Proof.
  intros Hf Ht. destruct (BuildJumpPatch_ok from to Hf Ht) as (p & E & Hn & W & D).
  destruct (patch_block_jumps from to Hf Ht) as (H1 & H2 & H3).
  exists p. unfold patch_bytes. rewrite (wf_size _ W), Hn, D. by split_and!.
Qed.

Lemma BuildJumpPatch_jumps_witness :
  ∃ p, BuildJumpPatch 0x7FF0001000 0x5500002004 = Some p ∧ patch_size p = 16.
Proof.
  destruct (BuildJumpPatch_jumps 0x7FF0001000 0x5500002004) as (p & E & _); [lia..|].
  exists p. split; [exact E|]. vm_compute in E. by injection E as <-.
Defined.

(** Relocated code fits the space [HookInstall] reserves for it:
    [max_reloc_size = (patch_size / 4) * 20 + 64]. *)
Lemma BuildRelocatedCode_ok src addr n dst :
  (0 < n <= length src)%nat → Z.of_nat n < 2 ^ 20 → Forall is_u32 (take n src) →
  ∃ b, BuildRelocatedCode src addr (4 * Z.of_nat n) dst = Some b ∧ wf b ∧
    data b = reloc_image (take n src) addr ∧ 0 < size b <= Z.of_nat n * 20 + 20.
Proof.
  intros Hn Hn' Hw. unfold BuildRelocatedCode.
  destruct (RelocateInstructions_ok src addr n dst) as (r & -> & V & _ & W & D); [done..|].
  cbn [mbind option_bind]. rewrite V. cbn [negb]. eexists. split; [done|].
  assert ((CodeBuffer_move (buffer r)).1 = buffer r) as -> by (by destruct (buffer r)).
  split; [done|]. split; [done|]. rewrite (wf_size _ W), D.
  pose proof (reloc_image_length (take n src) addr) as Hl.
  rewrite length_take in Hl.
  enough (0 < zlen (reloc_image (take n src) addr)) by lia.
  unfold reloc_image. rewrite image_length.
  assert (1 <= length (reloc_code (take n src) addr 0).1)%nat.
  { destruct (take n src); cbn [reloc_code fst]; [simpl; lia|].
    rewrite length_app. pose proof (reloc_block_length z (u64 addr)). lia. }
  unfold data_start. zmod_lia.
Qed.

End Trampoline.
