(* ===== verification/Os.v ===== *)
(** * The operating system as the hook engine sees it

    The process memory (bytes and page permissions) and the three services the
    engine calls: [mprotect], [mmap] and [/proc/self/maps]. They are not part
    of the repository: the services are the operations of the class [OS], what
    the engine relies on is the class [OSLaws], and [demo_os] is a concrete
    kernel that satisfies it. An access that faults is [None]. *)

From S2P Require Import Prelude Arm64Machine.

Module Os.

Record perm : Set := mkPerm { p_read : bool; p_write : bool; p_exec : bool }.

Definition PROT_RWX : perm := mkPerm true true true.
Definition PROT_RX : perm := mkPerm true false true.

(** Every byte of the address space, and the permissions of mapped bytes. *)
Record World : Type := mkWorld {
  bytes : Z → Z;
  perms : Z → option perm
}.

Definition readable (w : World) (a : Z) : bool :=
  match perms w a with Some p => p_read p | None => false end.
Definition writable (w : World) (a : Z) : bool :=
  match perms w a with Some p => p_write p | None => false end.

Definition executable (w : World) (a : Z) : bool :=
  match perms w a with Some p => p_exec p | None => false end.

Definition in_range (a n x : Z) : bool := (a <=? x) && (x <? a + n).

(** [memcpy] out of and into process memory; [None] is a fault. *)
Definition read_bytes (w : World) (a : Z) (n : nat) : option (list Z) :=
  if forallb (λ i, readable w (a + i)) (seqZ 0 (Z.of_nat n))
  then Some ((λ i, bytes w (a + i)) <$> seqZ 0 (Z.of_nat n)) else None.

Definition overwrite (m : Z → Z) (a : Z) (bs : list Z) (x : Z) : Z :=
  if in_range a (zlen bs) x then default 0 (bs !! Z.to_nat (x - a)) else m x.

Definition write_bytes (w : World) (a : Z) (bs : list Z) : option World :=
  if forallb (λ i, writable w (a + i)) (seqZ 0 (zlen bs))
  then Some (mkWorld (overwrite (bytes w) a bs) (perms w)) else None.

Inductive map_flag : Set := MAP_ANY | MAP_FIXED_NOREPLACE | MAP_FIXED.

Class OS := {
  page_size : Z;
  (** the new state, and whether the call returned 0 *)
  mprotect : World → Z → Z → perm → World * bool;
  (** an anonymous private R-X mapping; [None] is [MAP_FAILED] *)
  mmap : World → Z → Z → map_flag → World * option Z;
  (** the lines of [/proc/self/maps], as bytes *)
  proc_maps : World → list (list Z)
}.

Class OSLaws `(O : OS) := {
  page_size_pow2 : ∃ k, 12 <= k < 32 ∧ page_size = 2 ^ k;
  mprotect_bytes w a n p : bytes (mprotect w a n p).1 = bytes w;
  mprotect_outside w a n p x :
    in_range a n x = false → perms (mprotect w a n p).1 x = perms w x;
  mprotect_inside w a n p x :
    (mprotect w a n p).2 = true → in_range a n x = true →
    perms w x ≠ None → perms (mprotect w a n p).1 x = Some p;
  (** a call may be applied in part before it fails; it never unmaps *)
  mprotect_either w a n p x :
    perms (mprotect w a n p).1 x = perms w x ∨
    (perms w x ≠ None ∧ perms (mprotect w a n p).1 x = Some p);
  (** a failed [mmap] that does not replace mappings changes nothing *)
  mmap_failed w a n f :
    (mmap w a n f).2 = None → f ≠ MAP_FIXED → (mmap w a n f).1 = w;
  (** a failed [MAP_FIXED] may have removed what was mapped in its range *)
  mmap_failed_fixed w a n f x :
    (mmap w a n f).2 = None →
    (in_range a n x = false →
      perms (mmap w a n f).1 x = perms w x ∧ bytes (mmap w a n f).1 x = bytes w x) ∧
    (perms (mmap w a n f).1 x = perms w x ∨ perms (mmap w a n f).1 x = None);
  (** a new mapping is page-aligned, is not at address 0 and lies below the
      top of the address space *)
  mmap_page w a n f b :
    (mmap w a n f).2 = Some b → b mod page_size = 0 ∧ 0 < b ∧ b + n <= 2 ^ 63;
  mmap_perms w a n f b x :
    (mmap w a n f).2 = Some b →
    perms (mmap w a n f).1 x = if in_range b n x then Some PROT_RX else perms w x;
  mmap_bytes w a n f b x :
    (mmap w a n f).2 = Some b → in_range b n x = false →
    bytes (mmap w a n f).1 x = bytes w x;
  (** without [MAP_FIXED] the pages were free *)
  mmap_fresh w a n f b x :
    (mmap w a n f).2 = Some b → f ≠ MAP_FIXED → in_range b n x = true → perms w x = None;
  mmap_fixed w a n b : (mmap w a n MAP_FIXED).2 = Some b → b = a
}.

(** ** Memory facts *)

Lemma in_range_spec a n x : in_range a n x = true ↔ a <= x < a + n.
Proof. unfold in_range. rewrite andb_true_iff, Z.leb_le, Z.ltb_lt. done. Qed.

Lemma in_range_false a n x : in_range a n x = false ↔ x < a ∨ a + n <= x.
Proof. unfold in_range. rewrite andb_false_iff, Z.leb_gt, Z.ltb_ge. done. Qed.

Lemma forallb_seqZ (P : Z → bool) n :
  forallb P (seqZ 0 n) = true ↔ ∀ i, 0 <= i < n → P i = true.
Proof.
  rewrite forallb_forall. split; intros H i Hi.
  - apply H. rewrite <- list_elem_of_In. apply elem_of_seqZ. lia.
  - apply H. rewrite <- list_elem_of_In in Hi. apply elem_of_seqZ in Hi. lia.
Qed.

Lemma write_bytes_Some w a bs :
  (∀ x, a <= x < a + zlen bs → writable w x = true) →
  write_bytes w a bs = Some (mkWorld (overwrite (bytes w) a bs) (perms w)).
Proof.
  intros H. unfold write_bytes.
  assert (forallb (λ i, writable w (a + i)) (seqZ 0 (zlen bs)) = true) as ->; [|done].
  apply forallb_seqZ. intros. apply H. lia.
Qed.

Lemma read_bytes_Some w a n :
  (∀ x, a <= x < a + Z.of_nat n → readable w x = true) →
  read_bytes w a n = Some ((λ i, bytes w (a + i)) <$> seqZ 0 (Z.of_nat n)).
Proof.
  intros H. unfold read_bytes.
  assert (forallb (λ i, readable w (a + i)) (seqZ 0 (Z.of_nat n)) = true) as ->; [|done].
  apply forallb_seqZ. intros. apply H. lia.
Qed.

Lemma read_bytes_length w a n bs : read_bytes w a n = Some bs → length bs = n.
Proof.
  unfold read_bytes. case_match; [|done]. intros [= <-].
  rewrite length_fmap, length_seqZ. lia.
Qed.

Lemma read_bytes_lookup w a n bs i :
  read_bytes w a n = Some bs → (i < n)%nat → bs !! i = Some (bytes w (a + Z.of_nat i)).
Proof.
  unfold read_bytes. case_match; [|done]. intros [= <-] Hi.
  rewrite list_lookup_fmap, lookup_seqZ_lt by lia. done.
Qed.

(** Writing back what was read restores the memory. *)
Lemma overwrite_restore m m' a n w bs :
  read_bytes w a n = Some bs → bytes w = m →
  (∀ x, in_range a (Z.of_nat n) x = false → m' x = m x) →
  ∀ x, overwrite m' a bs x = m x.
Proof.
  intros Hr <- Ho x. unfold overwrite. rewrite (read_bytes_length _ _ _ _ Hr).
  destruct (in_range a (Z.of_nat n) x) eqn:E; [|auto].
  apply in_range_spec in E. rewrite (read_bytes_lookup _ _ _ _ _ Hr) by lia.
  simpl. f_equal. lia.
Qed.

Lemma overwrite_other m a bs x :
  in_range a (zlen bs) x = false → overwrite m a bs x = m x.
Proof. intros H. unfold overwrite. by rewrite H. Qed.

Lemma overwrite_at m a bs :
  0 <= a → a + zlen bs <= 2 ^ 64 → A64.code_at (overwrite m a bs) a bs.
Proof.
  intros Ha Hl i b Hi. pose proof (lookup_lt_Some _ _ _ Hi).
  rewrite u64_id by (unfold is_u64; lia). unfold overwrite.
  rewrite (proj2 (in_range_spec _ _ _)) by lia.
  replace (Z.to_nat (a + Z.of_nat i - a)) with i by lia. by rewrite Hi.
Qed.

(** ** A concrete kernel

    4 KiB pages; [mprotect] succeeds on whole pages that are mapped and refuses
    others; [mmap] without a hint looks for the first free page from [0x10000]
    on in the first 16 pages, and the maps file lists those of the first three
    that are not free, between two reserved areas. *)

Definition page_free (w : World) (a : Z) : bool :=
  forallb (λ i, match perms w (a + i) with None => true | _ => false end) (seqZ 0 4096).

Definition map_page (w : World) (b n : Z) : World :=
  mkWorld (λ x, if in_range b n x then 0 else bytes w x)
          (λ x, if in_range b n x then Some PROT_RX else perms w x).

Definition demo_mmap (w : World) (a n : Z) (f : map_flag) : World * option Z :=
  if negb (n =? 4096) then (w, None) else
  match f with
  | MAP_ANY =>
      match filter (λ b, page_free w b = true) ((λ i, 0x10000 + 4096 * i) <$> seqZ 0 16) with
      | b :: _ => (map_page w b n, Some b)
      | [] => (w, None)
      end
  | _ =>
      if (a mod 4096 =? 0) && (0 <? a) && (a + n <=? 2 ^ 63) &&
         (page_free w a || match f with MAP_FIXED => true | _ => false end)
      then (map_page w a n, Some a) else (w, None)
  end.

(** [10000-11000 r-xp] and so on. *)
Definition demo_line (i : Z) : list Z :=
  [49; 48 + i; 48; 48; 48; 45; 49; 49 + i; 48; 48; 48; 32; 114; 45; 120; 112].

(** [0-10000 ---p] and [13000-8000000000000000 ---p]. *)
Definition demo_low : list Z := [48; 45; 49; 48; 48; 48; 48; 32; 45; 45; 45; 112].
Definition demo_high : list Z :=
  [49; 51; 48; 48; 48; 45; 56] ++ replicate 15 48 ++ [32; 45; 45; 45; 112].

Definition demo_pages : list Z := seqZ 0 3.

Definition demo_proc_maps (w : World) : list (list Z) :=
  demo_low :: (demo_line <$> filter (λ i, page_free w (0x10000 + 4096 * i) = false) demo_pages) ++ [demo_high].

Definition demo_mprotect (w : World) (a n : Z) (p : perm) : World * bool :=
  if (a mod 4096 =? 0) && (n mod 4096 =? 0) &&
     forallb (λ i, match perms w (a + 4096 * i) with Some _ => true | None => false end) (seqZ 0 (n / 4096))
  then (mkWorld (bytes w) (λ x, if in_range a n x then ((λ _, p) <$> perms w x) else perms w x), true)
  else (w, false).

Definition demo_os : OS := {|
  page_size := 4096;
  mprotect := demo_mprotect;
  mmap := demo_mmap;
  proc_maps := demo_proc_maps
|}.

Lemma demo_mmap_Some w a n f w' b :
  demo_mmap w a n f = (w', Some b) →
  n = 4096 ∧ w' = map_page w b n ∧ b mod 4096 = 0 ∧ 0 < b ∧ b + n <= 2 ^ 63 ∧
  (f ≠ MAP_FIXED → page_free w b = true) ∧ (f = MAP_FIXED → b = a).
Proof.
  unfold demo_mmap. destruct (Z.eqb_spec n 4096) as [->|]; [|done]. cbn [negb]. destruct f.
  - case_match eqn:E; [done|]. intros [= <- <-].
    assert (z ∈ filter (λ b, page_free w b = true) ((λ i, 0x10000 + 4096 * i) <$> seqZ 0 16)) as Hin
      by (rewrite E; by left).
    apply list_elem_of_filter in Hin as [Hf Hin]. apply list_elem_of_fmap in Hin as (i & -> & Hi).
    apply elem_of_seqZ in Hi. split_and!; try done; try lia. zmod_lia.
  - case_match eqn:E; [|done]. intros [= <- <-]. rewrite orb_false_r in E.
    rewrite !andb_true_iff, Z.eqb_eq, Z.ltb_lt, Z.leb_le in E.
    destruct E as [[[? ?] ?] ?]. split_and!; done.
  - case_match eqn:E; [|done]. intros [= <- <-].
    rewrite !andb_true_iff, Z.eqb_eq, Z.ltb_lt, Z.leb_le in E.
    destruct E as [[[? ?] ?] ?]. split_and!; done.
Qed.

Lemma demo_mmap_None w a n f w' : demo_mmap w a n f = (w', None) → w' = w.
Proof. unfold demo_mmap. repeat case_match; congruence. Qed.

Lemma demo_os_laws : OSLaws demo_os.
Proof.
  assert (∀ w a n f b, (demo_mmap w a n f).2 = Some b →
    demo_mmap w a n f = ((demo_mmap w a n f).1, Some b)) as Hp
    by (intros ????? E; rewrite <- E; by destruct (demo_mmap _ _ _ _)).
  split; cbn [page_size mprotect mmap proc_maps demo_os fst snd bytes perms].
  - exists 12. split; [lia|done].
  - intros w a n p. unfold demo_mprotect. by destruct (_ && _).
  - intros w a n p x Hx. unfold demo_mprotect. destruct (_ && _); [|done]. cbn. by rewrite Hx.
  - intros w a n p x. unfold demo_mprotect. destruct (_ && _); [|done]. cbn. intros _ ->. by destruct (perms w x).
  - intros w a n p x. unfold demo_mprotect. destruct (_ && _); [|by left]. cbn. destruct (in_range a n x); [|by left].
    destruct (perms w x) as [q|]; [by right|by left].
  - intros w a n f H _. destruct (demo_mmap w a n f) as [w' [b|]] eqn:E; [done|].
    by eapply demo_mmap_None.
  - intros w a n f x H. destruct (demo_mmap w a n f) as [w' [b|]] eqn:E; [done|].
    apply demo_mmap_None in E as ->. auto.
  - intros w a n f b H. apply Hp, demo_mmap_Some in H as (? & ? & ? & ? & ? & _). done.
  - intros w a n f b x H. apply Hp, demo_mmap_Some in H as (? & -> & _). done.
  - intros w a n f b x H. apply Hp, demo_mmap_Some in H as (? & -> & _). cbn. by intros ->.
  - intros w a n f b x H Hf Hx. apply Hp, demo_mmap_Some in H as (-> & _ & _ & _ & _ & Hfree & _).
    specialize (Hfree Hf). unfold page_free in Hfree. rewrite forallb_seqZ in Hfree.
    apply in_range_spec in Hx. specialize (Hfree (x - b) ltac:(lia)).
    replace (b + (x - b)) with x in Hfree by lia. by destruct (perms w x).
  - intros w a n b H. apply Hp, demo_mmap_Some in H as (_ & _ & _ & _ & _ & _ & H). auto.
Qed.

End Os.
