(* ===== verification/CodePatch.v ===== *)
(** * Patching code ([hook_sdk/src/code_patch.h], [code_patch.cpp])

    Page arithmetic, permission changes and the write of a patch, over the
    memory and services of [Os]. *)

From S2P Require Import Prelude Arm64 Arm64Machine Os.
Import Os.

Module CodePatch.

#[local] Set Default Proof Using "Type*".

Section with_os.
Context `{O : OS}.

Definition PageAlign (addr : Z) : Z := addr .& not64 (u64 page_size - 1).

Definition PageSize : Z := page_size.

(** The page-aligned range [(page, total)] around [addr, addr + size). *)
Definition page_span (addr size : Z) : Z * Z :=
  let page := PageAlign addr in
  let page_size := u64 PageSize in
  let end_ := u64 (addr + size) in
  let page_end := u64 (end_ + page_size - 1) .& not64 (page_size - 1) in
  (page, u64 (page_end - page)).

Definition MakeMemoryRWX (w : World) (addr size : Z) : World * Z :=
  let '(page, total) := page_span addr size in
  let '(w, ok) := mprotect w page total PROT_RWX in
  (w, if ok then 0 else -1).

Definition MakeMemoryRX (w : World) (addr size : Z) : World * Z :=
  let '(page, total) := page_span addr size in
  let '(w, ok) := mprotect w page total PROT_RX in
  (w, if ok then 0 else -1).

(** [patch] is the source buffer, [None] the null pointer. The outer [None] is
    a fault; the result of the second permission change is not looked at. *)
Definition PatchCode (w : World) (target : Z) (patch : option (list Z)) (size : Z) :
  option (World * Z) :=
  match patch with
  | None => Some (w, -1)
  | Some patch =>
      if (target =? 0) || (size =? 0) then Some (w, -1)
      else
        let '(w, ret) := MakeMemoryRWX w target size in
        if negb (ret =? 0) then Some (w, -1)
        else
          bs ← slice patch 0 size;
          w ← write_bytes w target bs;
          let '(w, _) := MakeMemoryRX w target size in
          Some (w, 0)
  end.

(** ** Page arithmetic *)

Context `{L : !OSLaws O}.

Lemma mask_down k x : 0 <= k < 64 → is_u64 x → x .& not64 (2 ^ k - 1) = x / 2 ^ k * 2 ^ k.
Proof.
  intros Hk Hx.
  assert (2 ^ 64 = 2 ^ (64 - k) * 2 ^ k) as E by (rewrite <- Z.pow_add_r by lia; f_equal; lia).
  assert (0 < 2 ^ k) by lia. assert (0 < 2 ^ (64 - k)) by lia.
  assert (not64 (2 ^ k - 1) = (2 ^ (64 - k) - 1) * 2 ^ k) as ->.
  { unfold not64. rewrite u64_id by (unfold is_u64; nia). nia. }
  rewrite Arm64.land_shifted, land_ones_mod, Z.mod_small; [done| |lia|lia].
  unfold is_u64 in Hx. split; [by apply Z.div_pos; lia|]. apply Z.div_lt_upper_bound; nia.
Qed.

Lemma round_down x ps : 0 < ps → x / ps * ps <= x < x / ps * ps + ps.
Proof. intros. pose proof (Z.div_mod x ps ltac:(lia)). pose proof (Z.mod_pos_bound x ps ltac:(lia)). lia. Qed.

Lemma page_size_range : 4096 <= page_size < 2 ^ 32.
Proof.
  destruct page_size_pow2 as (k & Hk & ->). split; [|apply Z.pow_lt_mono_r; lia].
  apply (Z.pow_le_mono_r 2 12 k); lia.
Qed.

(** An address is rounded down, and a span rounded out, to pages. *)
Lemma PageAlign_eq a : is_u64 a → PageAlign a = a / page_size * page_size.
Proof.
  intros Ha. unfold PageAlign. pose proof page_size_range.
  rewrite u64_id by (unfold is_u64; lia). destruct page_size_pow2 as (k & Hk & E).
  rewrite E in *. apply mask_down; [lia|done].
Qed.

Lemma page_span_eq a n :
  0 <= a → 0 < n → a + n + page_size <= 2 ^ 64 →
  page_span a n =
    (a / page_size * page_size,
     (a + n + page_size - 1) / page_size * page_size - a / page_size * page_size).
Proof.
  intros Ha Hn Hl. unfold page_span, PageSize. pose proof page_size_range as Hp.
  rewrite PageAlign_eq, (u64_id page_size), (u64_id (a + n)), (u64_id (a + n + page_size - 1))
    by (unfold is_u64; lia).
  f_equal. destruct page_size_pow2 as (k & Hk & E). rewrite E in *.
  rewrite mask_down by (unfold is_u64; lia). apply u64_id. unfold is_u64.
  assert (0 < 2 ^ k) by lia. set (ps := 2 ^ k) in *. clearbody ps.
  pose proof (round_down a ps ltac:(lia)). pose proof (round_down (a + n + ps - 1) ps ltac:(lia)).
  assert (0 <= a / ps * ps) by (apply Z.mul_nonneg_nonneg; [apply Z.div_pos|]; lia). lia.
Qed.

(** The rounded span covers the bytes and less than a page on each side. *)
Lemma page_span_covers a n :
  0 <= a → 0 < n → a + n + page_size <= 2 ^ 64 →
  ∃ p t, page_span a n = (p, t) ∧ p mod page_size = 0 ∧ t mod page_size = 0 ∧
         p <= a < p + page_size ∧ a + n <= p + t < a + n + page_size.
Proof.
  intros Ha Hn Hl. rewrite page_span_eq by done. do 2 eexists. split; [done|].
  pose proof page_size_range. set (ps := page_size) in *. clearbody ps.
  pose proof (round_down a ps ltac:(lia)). pose proof (round_down (a + n + ps - 1) ps ltac:(lia)).
  rewrite <- Z.mul_sub_distr_r, !Z.mod_mul by lia. split_and!; lia.
Qed.

(** ** Effects of the operations *)

(** Bytes outside the pages of the patched range keep their permissions. *)
Definition near (a n x : Z) : Prop := a - page_size < x < a + n + page_size.

Lemma protect_frame w a n p w' ok x :
  0 <= a → 0 < n → a + n + page_size <= 2 ^ 64 →
  mprotect w (page_span a n).1 (page_span a n).2 p = (w', ok) →
  bytes w' = bytes w ∧ (¬ near a n x → perms w' x = perms w x) ∧
  (ok = true → a <= x < a + n → perms w x ≠ None → perms w' x = Some p).
Proof.
  intros Ha Hn Hl E. destruct (page_span_covers a n) as (pg & t & Es & _ & _ & H1 & H2); [done..|].
  rewrite Es in E. cbn in E. split_and!.
  - pose proof (mprotect_bytes w pg t p) as H. by rewrite E in H.
  - intros Hx. pose proof (mprotect_outside w pg t p x) as H. rewrite E in H. apply H.
    apply in_range_false. unfold near in Hx. lia.
  - intros -> Hx. pose proof (mprotect_inside w pg t p x) as H. rewrite E in H. intros. apply H; [done| |done].
    apply in_range_spec. lia.
Qed.

Lemma MakeMemory_frame w a n x :
  0 <= a → 0 < n → a + n + page_size <= 2 ^ 64 →
  (bytes (MakeMemoryRWX w a n).1 = bytes w ∧
   (¬ near a n x → perms (MakeMemoryRWX w a n).1 x = perms w x) ∧
   ((MakeMemoryRWX w a n).2 = 0 → a <= x < a + n → perms w x ≠ None →
     perms (MakeMemoryRWX w a n).1 x = Some PROT_RWX)) ∧
  (bytes (MakeMemoryRX w a n).1 = bytes w ∧
   (¬ near a n x → perms (MakeMemoryRX w a n).1 x = perms w x) ∧
   ((MakeMemoryRX w a n).2 = 0 → a <= x < a + n → perms w x ≠ None →
     perms (MakeMemoryRX w a n).1 x = Some PROT_RX)).
Proof.
  intros Ha Hn Hl. unfold MakeMemoryRWX, MakeMemoryRX.
  destruct (page_span a n) as [pg t] eqn:Es.
  destruct (mprotect w pg t PROT_RWX) as [w1 ok1] eqn:E1.
  destruct (mprotect w pg t PROT_RX) as [w2 ok2] eqn:E2. cbn.
  pose proof (protect_frame w a n PROT_RWX w1 ok1 x Ha Hn Hl) as F1.
  pose proof (protect_frame w a n PROT_RX w2 ok2 x Ha Hn Hl) as F2.
  rewrite Es in F1, F2. cbn in F1, F2. specialize (F1 E1) as (B1 & P1 & Q1).
  specialize (F2 E2) as (B2 & P2 & Q2).
  split; (split_and!; [done..|]); [destruct ok1|destruct ok2]; cbn; auto; done.
Qed.

(** Nothing is unmapped and nothing becomes unreadable or not executable. *)
Record world_le (w w' : World) : Prop := {
  le_mapped : ∀ x, perms w x ≠ None → perms w' x ≠ None;
  le_readable : ∀ x, readable w x = true → readable w' x = true;
  le_executable : ∀ x, executable w x = true → executable w' x = true
}.

#[export] Instance world_le_preorder : PreOrder world_le.
Proof. split; [by split|]. intros w1 w2 w3 [M1 R1 X1] [M2 R2 X2]. split; auto. Qed.

Lemma world_le_perms b w w' : world_le w w' → world_le w (mkWorld b (perms w')).
Proof. intros [M R X]. by split. Qed.

Lemma mprotect_le w a n p : p_read p = true → p_exec p = true → world_le w (mprotect w a n p).1.
Proof.
  intros Hp Hq. pose proof (mprotect_either w a n p) as H. split; intros x Hx.
  - destruct (H x) as [->|[_ ->]]; done.
  - unfold readable in *. destruct (H x) as [->|[_ ->]]; done.
  - unfold executable in *. destruct (H x) as [->|[_ ->]]; done.
Qed.

Lemma MakeMemory_le w a n :
  world_le w (MakeMemoryRWX w a n).1 ∧ world_le w (MakeMemoryRX w a n).1.
Proof.
  unfold MakeMemoryRWX, MakeMemoryRX. destruct (page_span a n) as [pg t].
  pose proof (mprotect_le w pg t PROT_RWX eq_refl eq_refl).
  pose proof (mprotect_le w pg t PROT_RX eq_refl eq_refl).
  by destruct (mprotect w pg t PROT_RWX), (mprotect w pg t PROT_RX).
Qed.

(** On mapped memory [PatchCode] never faults: it either returns -1 with the
    memory untouched, or 0 with exactly the [size] bytes at [target] replaced. *)
Lemma PatchCode_ok w target patch n :
  0 < target → 0 < n <= zlen patch → target + n + page_size <= 2 ^ 64 →
  (∀ x, target <= x < target + n → perms w x ≠ None) →
  ∃ w' ret, PatchCode w target (Some patch) n = Some (w', ret) ∧ world_le w w' ∧
    (∀ x, ¬ near target n x → perms w' x = perms w x) ∧
    ((ret = -1 ∧ bytes w' = bytes w ∧ (MakeMemoryRWX w target n).2 ≠ 0) ∨
     (ret = 0 ∧ bytes w' = overwrite (bytes w) target (take (Z.to_nat n) patch) ∧
      (MakeMemoryRWX w target n).2 = 0)).
Proof.
  intros Ht Hn Hl Hmap. unfold PatchCode.
  assert ((target =? 0) || (n =? 0) = false) as -> by (case_cmp; simpl; lia || done).
  pose proof (λ x, proj1 (MakeMemory_frame w target n x ltac:(lia) ltac:(lia) Hl)) as F.
  destruct (MakeMemory_le w target n) as [Hle _].
  destruct (MakeMemoryRWX w target n) as [w1 ret1] eqn:E1. cbn in F, Hle.
  destruct (Z.eqb_spec ret1 0) as [->|Hne]; cbn [negb].
  - rewrite slice_Some by lia. cbn [mbind option_bind]. rewrite drop_0.
    set (bs := take (Z.to_nat n) patch).
    assert (zlen bs = n) as Hbs by (subst bs; rewrite length_take; lia).
    rewrite write_bytes_Some; cycle 1.
    { intros x Hx. destruct (F x) as (_ & _ & Hp). unfold writable.
      rewrite Hp by (first [lia|apply Hmap; lia]). done. }
    cbn [mbind option_bind]. set (w2 := mkWorld _ _).
    pose proof (λ x, proj2 (MakeMemory_frame w2 target n x ltac:(lia) ltac:(lia) Hl)) as G.
    destruct (MakeMemory_le w2 target n) as [_ Hle2].
    destruct (MakeMemoryRX w2 target n) as [w3 ret3]. cbn in G, Hle2.
    do 2 eexists. split; [done|]. split_and!.
    + etransitivity; [|exact Hle2]. by apply world_le_perms.
    + intros x Hx. destruct (F x) as (_ & P1 & _), (G x) as (_ & P2 & _).
      by rewrite P2, P1.
    + right. split; [done|]. destruct (F 0) as (B1 & _), (G 0) as (B2 & _).
      split; [|done]. by rewrite B2, B1.
  - do 2 eexists. split; [done|]. split_and!; [done|intros x Hx; by apply (F x)|].
    left. by destruct (F 0) as (B1 & _).
Qed.

End with_os.
End CodePatch.
