(* ===== verification/MemoryAllocator.v ===== *)
(** * Executable memory near a target ([hook_sdk/src/memory_allocator.h],
    [memory_allocator.cpp])

    [NearCodeAllocator]: a bump allocator over pages it maps, in three tiers
    (an existing page in range, a gap of [/proc/self/maps] in range, any page).
    The theorem shows that an allocation hands out bytes no earlier allocation
    owns, and disturbs no memory that was mapped. *)

From stdpp Require Import sorting.
From S2P Require Import Prelude Arm64 Os CodePatch.
Import Os CodePatch.

Module MemoryAllocator.

#[local] Set Default Proof Using "Type*".

Record MemRegion : Set := mkMemRegion {
  start : Z;
  end_ : Z;
  r_readable : bool;
  r_writable : bool;
  r_executable : bool
}.

Record LinearPage : Set := mkLinearPage {
  base : Z;
  used : Z;
  capacity : Z
}.

(** The process and the allocator's [pages_]. *)
Record Alloc : Type := mkAlloc {
  world : World;
  pages_ : list LinearPage
}.

(** ** [sscanf(line, "%lx-%lx %4s", ...)] *)

Definition is_space (c : Z) : bool := (c =? 32) || ((9 <=? c) && (c <=? 13)).

Fixpoint skip_ws (l : list Z) : list Z :=
  match l with
  | c :: l' => if is_space c then skip_ws l' else l
  | [] => []
  end.

Definition hex_digit (c : Z) : option Z :=
  if (48 <=? c) && (c <=? 57) then Some (c - 48)
  else if (97 <=? c) && (c <=? 102) then Some (c - 87)
  else if (65 <=? c) && (c <=? 70) then Some (c - 55)
  else None.

(** Digits accumulate; [strtoul] saturates at [ULONG_MAX]. *)
Fixpoint scan_digits (l : list Z) (acc : Z) : Z * list Z :=
  match l with
  | c :: l' =>
      match hex_digit c with
      | Some d => scan_digits l' (16 * acc + d)
      | None => (acc, l)
      end
  | [] => (acc, [])
  end.

Definition scan_lx (l : list Z) : option (Z * list Z) :=
  let l := skip_ws l in
  let '(neg, l) :=
    match l with
    | 45 :: l' => (true, l')
    | 43 :: l' => (false, l')
    | _ => (false, l)
    end in
  let l :=
    match l with
    | 48 :: x :: d :: l' =>
        if ((x =? 120) || (x =? 88)) && (if hex_digit d is Some _ then true else false)
        then d :: l' else l
    | _ => l
    end in
  match l with
  | c :: _ =>
      match hex_digit c with
      | Some _ =>
          let '(v, rest) := scan_digits l 0 in
          if 2 ^ 64 <=? v then Some (2 ^ 64 - 1, rest)
          else Some (if neg then u64 (- v) else v, rest)
      | None => None
      end
  | [] => None
  end.

Fixpoint scan_word (n : nat) (l : list Z) : list Z :=
  match n, l with
  | S n, c :: l => if is_space c then [] else c :: scan_word n l
  | _, _ => []
  end.

(** The three conversions, or [None] when fewer than three succeed. *)
Definition sscanf_maps (line : list Z) : option (Z * Z * list Z) :=
  '(s, l) ← scan_lx line;
  l ← match l with 45 :: l => Some l | _ => None end;
  '(e, l) ← scan_lx l;
  let perms := scan_word 4 (skip_ws l) in
  if (length perms =? 0)%nat then None else Some (s, e, perms).

Definition parse_line (line : list Z) : option MemRegion :=
  '(s, e, perms) ← sscanf_maps line;
  let c i := default 0 (perms !! i) in
  Some (mkMemRegion s e (c 0%nat =? 114) (c 1%nat =? 119) (c 2%nat =? 120)).

Section with_os.
Context `{O : OS}.

Definition GetPageSize : Z := page_size.

Definition ParseMaps (w : World) : list MemRegion := omap parse_line (proc_maps w).

(** ** Pages *)

Definition new_page (page : Z) : LinearPage := mkLinearPage page 0 (u32 GetPageSize).

(** A null pointer is 0. *)
Definition AllocPage (s : Alloc) : Alloc * Z :=
  let '(w, page) := mmap (world s) 0 GetPageSize MAP_ANY in
  match page with
  | None => (mkAlloc w (pages_ s), 0)
  | Some page => (mkAlloc w (pages_ s ++ [new_page page]), page)
  end.

Definition AllocFixedPage (s : Alloc) (addr : Z) : Alloc * Z :=
  let aligned := addr .& not64 (u64 GetPageSize - 1) in
  let '(w, page) := mmap (world s) aligned GetPageSize MAP_FIXED_NOREPLACE in
  match page with
  | Some page => (mkAlloc w (pages_ s ++ [new_page page]), page)
  | None =>
      let '(w, page) := mmap w aligned GetPageSize MAP_FIXED in
      match page with
      | None => (mkAlloc w (pages_ s), 0)
      | Some page => (mkAlloc w (pages_ s ++ [new_page page]), page)
      end
  end.

Definition BeginWrite (s : Alloc) (addr size : Z) : Alloc * Z :=
  let '(w, ret) := MakeMemoryRWX (world s) addr size in (mkAlloc w (pages_ s), ret).

Definition EndWrite (s : Alloc) (addr size : Z) : Alloc * Z :=
  let '(w, ret) := MakeMemoryRX (world s) addr size in (mkAlloc w (pages_ s), ret).

(** [pages_.back().used = size]. *)
Definition set_last_used (ps : list LinearPage) (size : Z) : list LinearPage :=
  match last ps with
  | Some p => take (pred (length ps)) ps ++ [mkLinearPage (base p) (u32 size) (capacity p)]
  | None => ps
  end.

(** The loop of [TryAllocFromExisting]: the updated pages and the address. *)
Fixpoint existing_loop (ps : list LinearPage) (size lo hi : Z) : option (list LinearPage * Z) :=
  match ps with
  | [] => None
  | page :: ps =>
      let remaining := u32 (capacity page - used page) in
      let alloc_addr := u64 (base page + used page) in
      if negb (remaining <? size) && (lo <=? alloc_addr) && (alloc_addr <=? hi)
      then
        Some (mkLinearPage (base page) (u32 (used page + u32 size)) (capacity page) :: ps,
              alloc_addr)
      else
        '(ps', a) ← existing_loop ps size lo hi; Some (page :: ps', a)
  end.

Definition range_lo (near_addr range : Z) : Z :=
  if range <? near_addr then near_addr - range else 0.

Definition TryAllocFromExisting (s : Alloc) (size near_addr range : Z) : Alloc * Z :=
  let lo := range_lo near_addr range in
  let hi := u64 (near_addr + range) in
  match existing_loop (pages_ s) size lo hi with
  | Some (ps, a) => (mkAlloc (world s) ps, a)
  | None => (s, 0)
  end.

(** The loop over the gaps between consecutive regions. *)
Fixpoint gap_loop (rs : list MemRegion) (s : Alloc) (size lo hi : Z) : Alloc * Z :=
  match rs with
  | r1 :: ((r2 :: _) as rs') =>
      let gap_start := end_ r1 in
      let gap_end := start r2 in
      if gap_end <=? gap_start then gap_loop rs' s size lo hi
      else
        let candidate := u64 (gap_start + page_size - 1) .& not64 (u64 page_size - 1) in
        if gap_end <? u64 (candidate + page_size) then gap_loop rs' s size lo hi
        else if (lo <=? candidate) && (candidate <=? hi) then
          let '(s, page) := AllocFixedPage s candidate in
          if page =? 0 then gap_loop rs' s size lo hi
          else (mkAlloc (world s) (set_last_used (pages_ s) size), page)
        else gap_loop rs' s size lo hi
  | _ => (s, 0)
  end.

(** [std::sort] by start address, as an insertion sort. *)
Fixpoint insert_region (r : MemRegion) (rs : list MemRegion) : list MemRegion :=
  match rs with
  | [] => [r]
  | r' :: rs' => if start r' <? start r then r' :: insert_region r rs' else r :: rs
  end.

Definition sort_regions (rs : list MemRegion) : list MemRegion := foldr insert_region [] rs.

Definition TryAllocInGap (s : Alloc) (size near_addr range : Z) : Alloc * Z :=
  let regions := ParseMaps (world s) in
  match regions with
  | [] => (s, 0)
  | _ =>
      let lo := range_lo near_addr range in
      let hi := u64 (near_addr + range) in
      let regions := sort_regions regions in
      let '(s, page) := gap_loop regions s size lo hi in
      if negb (page =? 0) then (s, page)
      else
        match regions with
        | [] => (s, 0)
        | r0 :: _ =>
            let before := u64 (lo + page_size - 1) .& not64 (u64 page_size - 1) in
            if (before <? start r0) && (lo <=? before) then
              let '(s, page) := AllocFixedPage s before in
              if page =? 0 then (s, 0)
              else (mkAlloc (world s) (set_last_used (pages_ s) size), page)
            else (s, 0)
        end
  end.

Definition AllocNearCode (s : Alloc) (size near_addr range : Z) : Alloc * Z :=
  let size := u64 (size + 7) .& not64 7 in
  let '(s, result) := TryAllocFromExisting s size near_addr range in
  if negb (result =? 0) then (s, result)
  else
    let '(s, result) := TryAllocInGap s size near_addr range in
    if negb (result =? 0) then (s, result)
    else
      let '(s, page) := AllocPage s in
      if page =? 0 then (s, 0)
      else (mkAlloc (world s) (set_last_used (pages_ s) size), page).

(** ** What an allocation promises

    [/proc/self/maps] lists every mapping: nothing is mapped below its first
    region or between two consecutive ones, and regions are whole pages. *)
Class MapsLaws := {
  maps_gap w l1 r1 r2 l2 x :
    sort_regions (ParseMaps w) = l1 ++ r1 :: r2 :: l2 → end_ r1 <= x < start r2 →
    perms w x = None;
  maps_first w r l x :
    sort_regions (ParseMaps w) = r :: l → 0 <= x < start r → perms w x = None;
  maps_pages w r :
    r ∈ sort_regions (ParseMaps w) →
    0 <= start r ∧ 0 < end_ r ∧ start r <= 2 ^ 63 ∧ end_ r <= 2 ^ 63 ∧
    start r mod page_size = 0 ∧ end_ r mod page_size = 0
}.

Definition mapped (s : Alloc) (x : Z) : Prop := perms (world s) x ≠ None.

(** Bytes handed out so far, and bytes of the allocator's pages. *)
Definition owned (s : Alloc) (x : Z) : Prop :=
  ∃ p, p ∈ pages_ s ∧ base p <= x < base p + used p.
Definition managed (s : Alloc) (x : Z) : Prop :=
  ∃ p, p ∈ pages_ s ∧ base p <= x < base p + capacity p.

Record page_ok (p : LinearPage) : Prop := {
  ok_cap : capacity p = page_size;
  ok_base : 0 < base p ∧ base p + page_size <= 2 ^ 63;
  ok_align : base p mod page_size = 0;
  ok_used : 0 <= used p <= page_size;
  ok_used8 : used p mod 8 = 0
}.

Record inv (s : Alloc) : Prop := {
  inv_pages : Forall page_ok (pages_ s);
  inv_nodup : NoDup (base <$> pages_ s);
  inv_exec : ∀ x, managed s x → executable (world s) x = true
}.

Lemma executable_mapped s x : executable (world s) x = true → mapped s x.
Proof. unfold executable, mapped. by destruct (perms (world s) x). Qed.

Lemma inv_mapped s : inv s → ∀ x, managed s x → mapped s x.
Proof. intros I x Hx. by apply executable_mapped, (inv_exec _ I). Qed.

(** Mapped memory keeps its contents and permissions. *)
Definition frame (s s' : Alloc) : Prop :=
  ∀ x, mapped s x → bytes (world s') x = bytes (world s) x ∧
                    perms (world s') x = perms (world s) x.

(** [s'] owns, besides what [s] owned, exactly the [n] bytes at [a], which are
    executable. *)
Record grants (s s' : Alloc) (a n : Z) : Prop := {
  g_inv : inv s';
  g_addr : 0 < a ∧ a + n <= 2 ^ 63 ∧ a mod 8 = 0;
  g_owned : ∀ x, owned s' x ↔ owned s x ∨ a <= x < a + n;
  g_fresh : ∀ x, a <= x < a + n → ¬ owned s x;
  g_managed : ∀ x, a <= x < a + n → managed s' x;
  g_exec : ∀ x, a <= x < a + n → executable (world s') x = true;
  g_outside : ∀ x, managed s' x → mapped s x → managed s x;
  g_frame : frame s s'
}.

Record refuses (s s' : Alloc) : Prop := {
  r_inv : inv s';
  r_pages : pages_ s' = pages_ s;
  r_frame : frame s s';
  r_mapped : ∀ x, mapped s' x → mapped s x
}.

Context `{L : !OSLaws O}.

Lemma frame_mapped s s' x : frame s s' → mapped s x → mapped s' x.
Proof. intros F H. destruct (F x H) as [_ E]. unfold mapped. by rewrite E. Qed.

Lemma frame_executable s s' x : frame s s' → executable (world s) x = true → executable (world s') x = true.
Proof. intros F H. destruct (F x (executable_mapped _ _ H)) as [_ E]. unfold executable. by rewrite E. Qed.

Lemma frame_trans s1 s2 s3 : frame s1 s2 → frame s2 s3 → frame s1 s3.
Proof.
  intros F1 F2 x H. destruct (F1 x H) as [B1 P1].
  destruct (F2 x (frame_mapped _ _ _ F1 H)) as [B2 P2]. split; congruence.
Qed.

Lemma refuses_refl s : inv s → refuses s s.
Proof. by split. Qed.

Lemma refuses_trans s1 s2 s3 : refuses s1 s2 → refuses s2 s3 → refuses s1 s3.
Proof.
  intros [I1 P1 F1 M1] [I2 P2 F2 M2]. split; [done|congruence|by eapply frame_trans|auto].
Qed.

Lemma refuses_grants s1 s2 s3 a n : refuses s1 s2 → grants s2 s3 a n → grants s1 s3 a n.
Proof.
  intros [I1 P1 F1 M1] [I2 A2 O2 X2 G2 E2 H2 F2].
  assert (∀ x, owned s2 x ↔ owned s1 x) as Ho by (intros x; unfold owned; by rewrite P1).
  assert (∀ x, managed s2 x ↔ managed s1 x) as Hm by (intros x; unfold managed; by rewrite P1).
  split; [done..| | | | | |by eapply frame_trans].
  - intros x. rewrite O2, Ho. done.
  - intros x Hx. rewrite <- Ho. auto.
  - done.
  - done.
  - intros x Hx Hx'. apply Hm, H2; [done|]. by eapply frame_mapped.
Qed.

Lemma page_size_u32 : u32 GetPageSize = page_size.
Proof. pose proof page_size_range. apply u32_id. unfold is_u32, GetPageSize. lia. Qed.

(** *** A freshly mapped page *)

(** [s'] is [s] with one new page at [b], on memory that was free. *)
Record mapped_page (s s' : Alloc) (b : Z) : Prop := {
  m_pages : pages_ s' = pages_ s ++ [new_page b];
  m_addr : 0 < b ∧ b + page_size <= 2 ^ 63 ∧ b mod page_size = 0;
  m_free : ∀ x, b <= x < b + page_size → ¬ mapped s x;
  m_new : ∀ x, b <= x < b + page_size → executable (world s') x = true;
  m_frame : frame s s'
}.

Lemma mmap_mapped_page s a f w b :
  mmap (world s) a GetPageSize f = (w, Some b) →
  (f = MAP_FIXED → ∀ x, a <= x < a + page_size → ¬ mapped s x) →
  mapped_page s (mkAlloc w (pages_ s ++ [new_page b])) b.
Proof.
  intros E Hf. unfold GetPageSize in E.
  assert (w = (mmap (world s) a page_size f).1) as Hw by (by rewrite E).
  assert ((mmap (world s) a page_size f).2 = Some b) as Hb by (by rewrite E).
  assert (∀ x, b <= x < b + page_size → ¬ mapped s x) as Hfree.
  { intros x Hx. destruct f.
    - intros H. apply H. eapply mmap_fresh; [exact Hb|done|by apply in_range_spec].
    - intros H. apply H. eapply mmap_fresh; [exact Hb|done|by apply in_range_spec].
    - apply Hf; [done|]. by rewrite <- (mmap_fixed _ _ _ _ Hb). }
  split; cbn; [done| |done|..].
  - pose proof (mmap_page _ _ _ _ _ Hb). tauto.
  - intros x Hx. unfold executable. cbn. rewrite Hw, (mmap_perms _ _ _ _ _ _ Hb).
    by rewrite (proj2 (in_range_spec _ _ _)).
  - intros x Hx. cbn. rewrite Hw.
    assert (in_range b page_size x = false) as Hr.
    { apply not_true_is_false. intros Hr. apply in_range_spec in Hr. by apply (Hfree x). }
    rewrite (mmap_bytes _ _ _ _ _ _ Hb), (mmap_perms _ _ _ _ _ _ Hb) by done. by rewrite Hr.
Qed.

Lemma set_last_used_snoc ps p n :
  set_last_used (ps ++ [p]) n = ps ++ [mkLinearPage (base p) (u32 n) (capacity p)].
Proof.
  unfold set_last_used. rewrite last_snoc, length_app. cbn [length].
  replace (pred (length ps + 1)) with (length ps) by lia. by rewrite take_app_length.
Qed.

(** Two pages of the allocator at different addresses do not overlap. *)
Lemma aligned_apart b1 b2 x :
  b1 mod page_size = 0 → b2 mod page_size = 0 →
  b1 <= x < b1 + page_size → b2 <= x < b2 + page_size → b1 = b2.
Proof.
  pose proof page_size_range. intros H1 H2 Hx1 Hx2.
  apply Z.mod_divide in H1 as [q1 ->]; [|lia]. apply Z.mod_divide in H2 as [q2 ->]; [|lia].
  assert (q1 = q2) as ->; [nia|done].
Qed.

Lemma page_owned s p x : inv s → p ∈ pages_ s → base p <= x < base p + used p → managed s x.
Proof.
  intros [I _ _] Hp Hx. exists p. split; [done|]. rewrite Forall_forall in I.
  destruct (I _ Hp) as [C _ _ U _]. lia.
Qed.

Lemma owned_managed s x : inv s → owned s x → managed s x.
Proof. intros I (p & Hp & Hx). by eapply page_owned. Qed.

(** Handing out the first [n] bytes of a fresh page. *)
Lemma mapped_page_grants s s' b n :
  inv s → mapped_page s s' b → 0 <= n <= page_size → n mod 8 = 0 →
  grants s (mkAlloc (world s') (set_last_used (pages_ s') n)) b n.
Proof.
  intros I [P A Fr N F] Hn Hn8. pose proof page_size_range as Hps. rewrite P, set_last_used_snoc.
  cbn [new_page base capacity]. rewrite page_size_u32, u32_id by (unfold is_u32; lia).
  set (s2 := mkAlloc _ _).
  assert (∀ x, managed s2 x ↔ managed s x ∨ b <= x < b + page_size) as Hm.
  { intros x. unfold managed, s2. cbn. setoid_rewrite elem_of_app.
    setoid_rewrite list_elem_of_singleton. split.
    - intros (p & [Hp| ->] & Hx); [left; eauto|by right].
    - intros [(p & Hp & Hx)|Hx]; [eauto|]. eexists. split; [by right|]. done. }
  assert (∀ x, owned s2 x ↔ owned s x ∨ b <= x < b + n) as Ho.
  { intros x. unfold owned, s2. cbn. setoid_rewrite elem_of_app.
    setoid_rewrite list_elem_of_singleton. split.
    - intros (p & [Hp| ->] & Hx); [left; eauto|by right].
    - intros [(p & Hp & Hx)|Hx]; [eauto|]. eexists. split; [by right|]. done. }
  assert (∀ x, b <= x < b + page_size → ¬ managed s x) as Hnm.
  { intros x Hx Hx'. apply (Fr x Hx). by apply (inv_mapped s I). }
  split.
  - split.
    + cbn. apply Forall_app. split; [apply I|]. apply Forall_singleton. split; cbn; tauto || lia.
    + cbn. rewrite fmap_app. apply NoDup_app. split_and!; [apply I| |apply NoDup_singleton].
      intros y Hy Hy'. apply list_elem_of_singleton in Hy' as ->. cbn in Hy.
      apply list_elem_of_fmap in Hy as (p & Ep & Hp). apply (Hnm b); [lia|].
      exists p. pose proof (inv_pages s I) as HI. rewrite Forall_forall in HI.
      destruct (HI _ Hp) as [C _ _ _ _]. cbn in Ep. split; [done|]. lia.
    + intros x Hx. apply Hm in Hx as [Hx|Hx]; [|by apply N].
      apply (frame_executable s s'); [done|]. by apply (inv_exec s I).
  - split_and!; [lia|lia|]. destruct A as (_ & _ & Ha).
    destruct page_size_pow2 as (k & Hk & E). rewrite E in Ha.
    apply Z.mod_divide in Ha as [q ->]; [|lia].
    replace k with (k - 3 + 3) by lia. rewrite Z.pow_add_r, Z.mul_assoc by lia.
    apply Z.mod_mul. done.
  - done.
  - intros x Hx Hx'. apply (Hnm x); [lia|]. by apply owned_managed.
  - intros x Hx. apply Hm. right. lia.
  - intros x Hx. apply N. lia.
  - intros x Hx Hx'. apply Hm in Hx as [Hx|Hx]; [done|]. by destruct (Fr x Hx).
  - done.
Qed.

(** *** The three tiers *)

Lemma AllocPage_ok s :
  inv s → let '(s', b) := AllocPage s in
  (b = 0 ∧ refuses s s') ∨ (b ≠ 0 ∧ mapped_page s s' b).
Proof.
  intros I. unfold AllocPage.
  destruct (mmap (world s) 0 GetPageSize MAP_ANY) as [w [b|]] eqn:E.
  - right. assert (mapped_page s (mkAlloc w (pages_ s ++ [new_page b])) b) as M
      by (by eapply mmap_mapped_page).
    split; [|done]. destruct (m_addr _ _ _ M). lia.
  - left. split; [done|]. pose proof (mmap_failed (world s) 0 GetPageSize MAP_ANY) as H.
    rewrite E in H. cbn in H. rewrite H by done. destruct s. by apply refuses_refl.
Qed.

Lemma AllocFixedPage_ok s a :
  inv s → is_u64 a → a mod page_size = 0 →
  (∀ x, a <= x < a + page_size → ¬ mapped s x) →
  let '(s', b) := AllocFixedPage s a in
  (b = 0 ∧ refuses s s') ∨ (b ≠ 0 ∧ mapped_page s s' b).
Proof.
  intros I Ha Hm Hfree. unfold AllocFixedPage.
  replace (a .& not64 (u64 GetPageSize - 1)) with a; cycle 1.
  { change (a = PageAlign a). rewrite PageAlign_eq by done. pose proof page_size_range.
    apply Z.mod_divide in Hm as [q ->]; [|lia]. by rewrite Z.div_mul by lia. }
  destruct (mmap (world s) a GetPageSize MAP_FIXED_NOREPLACE) as [w [b|]] eqn:E.
  - right. assert (mapped_page s (mkAlloc w (pages_ s ++ [new_page b])) b) as M
      by (by eapply mmap_mapped_page).
    split; [|done]. destruct (m_addr _ _ _ M). lia.
  - pose proof (mmap_failed (world s) a GetPageSize MAP_FIXED_NOREPLACE) as H.
    rewrite E in H. cbn in H. rewrite H by done. clear H E w.
    destruct (mmap (world s) a GetPageSize MAP_FIXED) as [w [b|]] eqn:E.
    + right. assert (mapped_page s (mkAlloc w (pages_ s ++ [new_page b])) b) as M
        by (by eapply mmap_mapped_page).
      split; [|done]. destruct (m_addr _ _ _ M). lia.
    + left. split; [done|].
      pose proof (λ x, mmap_failed_fixed (world s) a GetPageSize MAP_FIXED x) as H.
      rewrite E in H. cbn in H.
      assert (frame s (mkAlloc w (pages_ s))) as F.
      { intros x Hx. destruct (H x eq_refl) as [H1 _]. cbn. destruct H1; [|done].
        apply not_true_is_false. intros Hr. apply in_range_spec in Hr. by apply (Hfree x). }
      split; [|done|done|].
      * destruct I as [I1 I2 I3]. split; [done|done|]. intros x Hx. eapply frame_executable; [exact F|].
        by apply I3.
      * intros x Hx. destruct (H x eq_refl) as [_ [H2|H2]]; unfold mapped in *; cbn in *; congruence.
Qed.

Lemma existing_loop_Some ps n lo hi ps' a :
  existing_loop ps n lo hi = Some (ps', a) →
  ∃ l1 p l2, ps = l1 ++ p :: l2 ∧
    ps' = l1 ++ mkLinearPage (base p) (u32 (used p + u32 n)) (capacity p) :: l2 ∧
    a = u64 (base p + used p) ∧ n <= u32 (capacity p - used p) ∧ lo <= a <= hi.
Proof.
  revert ps'. induction ps as [|p ps IH]; intros ps' H; [done|]. cbn in H.
  destruct (_ && _ && _) eqn:E.
  - injection H as <- <-. exists [], p, ps.
    rewrite !andb_true_iff, negb_true_iff, Z.ltb_ge, !Z.leb_le in E.
    split_and!; try done; lia.
  - destruct (existing_loop ps n lo hi) as [[ps1 a1]|] eqn:E1; [|done]. cbn in H.
    injection H as <- <-. destruct (IH _ eq_refl) as (l1 & q & l2 & -> & -> & H).
    by exists (p :: l1), q, l2.
Qed.

(** Bumping the [used] mark of one page. *)
Lemma bump_grants w l1 p l2 n :
  inv (mkAlloc w (l1 ++ p :: l2)) → 0 < n → n mod 8 = 0 → used p + n <= page_size →
  grants (mkAlloc w (l1 ++ p :: l2))
    (mkAlloc w (l1 ++ mkLinearPage (base p) (used p + n) (capacity p) :: l2))
    (base p + used p) n.
Proof.
  intros I Hn Hn8 Hu. set (s := mkAlloc w (l1 ++ p :: l2)) in *. set (p' := mkLinearPage _ _ _).
  set (s' := mkAlloc w (l1 ++ p' :: l2)).
  assert (page_ok p) as [C B A U U8].
  { pose proof (inv_pages s I) as H. cbn in H. apply Forall_app in H as [_ H].
    by apply Forall_cons in H as [? _]. }
  assert (∀ x, managed s' x ↔ managed s x) as Hm.
  { intros x. unfold managed, s, s'. cbn. setoid_rewrite elem_of_app. setoid_rewrite elem_of_cons.
    split; intros (q & [Hq|[-> |Hq]] & Hx); eauto; eexists; (split; [right; left; reflexivity|done]). }
  split.
  - destruct I as [I1 I2 I3]. split.
    + cbn in *. apply Forall_app in I1 as [H1 H2]. apply Forall_cons in H2 as [_ H2].
      apply Forall_app. split; [done|]. apply Forall_cons. split; [|done].
      split; cbn; try done; [lia|]. rewrite <- Z.add_mod_idemp_l, U8 by lia. done.
    + cbn in *. rewrite fmap_app, fmap_cons in *. done.
    + intros x Hx. apply Hm in Hx. by apply (I3 x).
  - split_and!; [lia|lia|]. rewrite <- Z.add_mod_idemp_r, U8, Z.add_0_r by lia.
    destruct page_size_pow2 as (k & Hk & E). rewrite E in A. apply Z.mod_divide in A as [q ->]; [|lia].
    replace k with (k - 3 + 3) by lia. rewrite Z.pow_add_r, Z.mul_assoc by lia.
    by apply Z.mod_mul.
  - intros x. unfold owned, s, s'. cbn. setoid_rewrite elem_of_app. setoid_rewrite elem_of_cons.
    split.
    + intros (q & [Hq|[-> |Hq]] & Hx); [left; eauto|..|left; eauto]. cbn in Hx.
      destruct (decide (x < base p + used p)); [left|right; lia].
      exists p. split; [auto|lia].
    + intros [(q & [Hq|[-> |Hq]] & Hx)|Hx]; [eauto|..|eauto|];
        (exists p'; split; [auto|cbn; lia]).
  - intros x Hx (q & Hq & Hx').
    assert (q = p) as ->; [|lia]. pose proof (inv_pages s I) as Hok. rewrite Forall_forall in Hok.
    destruct (Hok _ Hq) as [Cq _ Aq Uq _].
    assert (base q = base p) as Eb by (eapply (aligned_apart _ _ x); [done|done|lia|lia]).
    pose proof (inv_nodup s I) as Hnd. apply list_elem_of_lookup in Hq as [i Hi].
    assert (pages_ s !! length l1 = Some p) as Hj by (by apply list_lookup_middle).
    assert (i = length l1) as ->; [|congruence].
    eapply (NoDup_lookup (base <$> pages_ s)); [done|rewrite list_lookup_fmap, Hi; done|].
    by rewrite list_lookup_fmap, Hj, Eb.
  - intros x Hx. apply Hm. exists p. split; [apply elem_of_app; right; by left|]. lia.
  - intros x Hx. apply (inv_exec s I). exists p. split; [apply elem_of_app; right; by left|]. lia.
  - intros x Hx _. by apply Hm.
  - done.
Qed.

Lemma TryAllocFromExisting_ok s n near range :
  inv s → 0 < n <= page_size → n mod 8 = 0 →
  let '(s', a) := TryAllocFromExisting s n near range in
  (a = 0 ∧ s' = s) ∨
  (a ≠ 0 ∧ grants s s' a n ∧ range_lo near range <= a <= u64 (near + range)).
Proof.
  intros I Hn Hn8. unfold TryAllocFromExisting.
  destruct (existing_loop _ _ _ _) as [[ps a]|] eqn:E; [|by left].
  apply existing_loop_Some in E as (l1 & p & l2 & E1 & -> & -> & Hr & Hb). right.
  destruct s as [w ps0]. cbn in E1. subst ps0. cbn [world].
  pose proof (inv_pages _ I) as Hok. cbn in Hok. apply Forall_app in Hok as [_ Hok].
  apply Forall_cons in Hok as [[C B A U U8] _]. pose proof page_size_range as Hps.
  rewrite C, u32_id in Hr by (unfold is_u32; lia).
  rewrite (u32_id n), (u32_id (used p + n)) by (unfold is_u32; lia).
  rewrite u64_id in * by (unfold is_u64; lia).
  split_and!; [lia| |lia|lia]. apply bump_grants; [done|lia|done|lia].
Qed.

Context `{M : !MapsLaws}.

(** Every gap of [rs] is free page-aligned memory. *)
Fixpoint free_gaps (s : Alloc) (rs : list MemRegion) : Prop :=
  match rs with
  | r1 :: ((r2 :: _) as rs') =>
      0 < end_ r1 <= 2 ^ 63 ∧ start r2 <= 2 ^ 63 ∧ end_ r1 mod page_size = 0 ∧
      (∀ x, end_ r1 <= x < start r2 → ¬ mapped s x) ∧ free_gaps s rs'
  | _ => True
  end.

Lemma free_gaps_refuses s s' rs : refuses s s' → free_gaps s rs → free_gaps s' rs.
Proof.
  intros R. induction rs as [|r1 rs IH]; [done|]. destruct rs as [|r2 rs]; [done|].
  intros (? & ? & ? & Hf & Hr). split_and!; try done; try lia; [|by apply IH].
  intros x Hx Hx'. apply (Hf x Hx). by apply (r_mapped _ _ R).
Qed.

Lemma align_up_id x : 0 < x <= 2 ^ 63 → x mod page_size = 0 →
  u64 (x + page_size - 1) .& not64 (u64 page_size - 1) = x.
Proof.
  intros Hx Hm. pose proof page_size_range. change (PageAlign (u64 (x + page_size - 1)) = x).
  rewrite u64_id, PageAlign_eq by (unfold is_u64; lia). apply Z.mod_divide in Hm as [q ->]; [|lia].
  replace (q * page_size + page_size - 1) with (page_size - 1 + q * page_size) by lia.
  rewrite Z.div_add, Z.div_small by lia. lia.
Qed.

(** A gap allocation: nothing, or a grant on a page that was free. *)
Definition outcome (s s' : Alloc) (a n : Z) : Prop :=
  (a = 0 ∧ refuses s s') ∨ (a ≠ 0 ∧ grants s s' a n).

Lemma fixed_outcome s c n :
  inv s → 0 <= n <= page_size → n mod 8 = 0 → is_u64 c → c mod page_size = 0 →
  (∀ x, c <= x < c + page_size → ¬ mapped s x) →
  let '(s', page) := AllocFixedPage s c in
  (page = 0 ∧ refuses s s') ∨
  (page ≠ 0 ∧ grants s (mkAlloc (world s') (set_last_used (pages_ s') n)) page n).
Proof.
  intros I Hn Hn8 Hc Hm Hf. pose proof (AllocFixedPage_ok s c I Hc Hm Hf) as H.
  destruct (AllocFixedPage s c) as [s' page]. destruct H as [H|[Hp H]]; [by left|right].
  split; [done|]. by apply mapped_page_grants.
Qed.

Lemma gap_loop_ok rs s n lo hi :
  inv s → free_gaps s rs → 0 <= n <= page_size → n mod 8 = 0 →
  let '(s', a) := gap_loop rs s n lo hi in outcome s s' a n.
Proof.
  unfold outcome. intros I Hg Hn Hn8. revert s I Hg. induction rs as [|r1 rs IH]; intros s I Hg.
  { left. split; [done|by apply refuses_refl]. }
  destruct rs as [|r2 rs]; [left; split; [done|by apply refuses_refl]|].
  destruct Hg as (He & Hs2 & Hm & Hf & Hg). pose proof page_size_range as Hps.
  cbn [gap_loop]. destruct (start r2 <=? end_ r1); [by apply IH|].
  rewrite align_up_id by done. destruct (Z.ltb_spec (start r2) (u64 (end_ r1 + page_size))) as [|Hle];
    [by apply IH|].
  rewrite u64_id in Hle by (unfold is_u64; lia).
  destruct (_ && _); [|by apply IH].
  pose proof (fixed_outcome s (end_ r1) n I Hn Hn8 ltac:(unfold is_u64; lia) Hm
    ltac:(intros x Hx; apply Hf; lia)) as H.
  destruct (AllocFixedPage s (end_ r1)) as [s1 page]. destruct H as [[-> R]|[Hp G]].
  - specialize (IH s1 (r_inv _ _ R) (free_gaps_refuses _ _ _ R Hg)).
    change (if 0 =? 0 then ?a else _) with a.
    remember (gap_loop (r2 :: rs) s1 n lo hi) as g eqn:Eg. cbn [gap_loop] in Eg. rewrite <- Eg.
    destruct g as [s2 a]. destruct IH as [[-> R2]|[Ha G]].
    + left. split; [done|by eapply refuses_trans].
    + right. split; [done|by eapply refuses_grants].
  - rewrite (proj2 (Z.eqb_neq page 0)) by done. by right.
Qed.

Lemma maps_free_gaps s : free_gaps s (sort_regions (ParseMaps (world s))).
Proof.
  pose proof (maps_gap (world s)) as Hgap. pose proof (maps_pages (world s)) as Hpg.
  set (all := sort_regions _) in *.
  assert (∀ rs l, all = l ++ rs → free_gaps s rs) as H; [|by apply (H all [])].
  induction rs as [|r1 rs IH]; intros l El; [done|]. destruct rs as [|r2 rs]; [done|].
  assert (r1 ∈ all ∧ r2 ∈ all) as [Hr1 Hr2].
  { rewrite El, !elem_of_app, !elem_of_cons. auto. }
  destruct (Hpg _ Hr1) as (? & ? & ? & ? & ? & ?), (Hpg _ Hr2) as (? & ? & ? & ? & ? & ?).
  change (free_gaps s (r1 :: r2 :: rs)) with
    (0 < end_ r1 <= 2 ^ 63 ∧ start r2 <= 2 ^ 63 ∧ end_ r1 mod page_size = 0 ∧
     (∀ x, end_ r1 <= x < start r2 → ¬ mapped s x) ∧ free_gaps s (r2 :: rs)).
  split_and!; try done; try lia.
  - intros x Hx Hx'. apply Hx'. by eapply (Hgap l r1 r2 rs).
  - apply (IH (l ++ [r1])). by rewrite <- app_assoc.
Qed.

Lemma TryAllocInGap_ok s n near range :
  inv s → 0 <= n <= page_size → n mod 8 = 0 → is_u64 near → 0 <= range →
  near + 2 ^ 32 <= 2 ^ 64 →
  let '(s', a) := TryAllocInGap s n near range in outcome s s' a n.
Proof.
  intros I Hn Hn8 Hnear Hrange Hup. unfold TryAllocInGap, outcome.
  assert ((0 = 0 ∧ refuses s s) ∨ (0 ≠ 0 ∧ grants s s 0 n)) as Hno by (left; split; [done|by apply refuses_refl]).
  destruct (ParseMaps (world s)) as [|r rs] eqn:Ep; [done|]. rewrite <- Ep. clear Ep r rs.
  pose proof (gap_loop_ok _ s n (range_lo near range) (u64 (near + range)) I (maps_free_gaps s)
    Hn Hn8) as H.
  destruct (gap_loop _ _ _ _ _) as [s1 a]. destruct H as [[-> R]|[Ha G]]; cycle 1.
  { rewrite (proj2 (Z.eqb_neq a 0)) by done. by right. }
  cbn [Z.eqb negb]. assert ((0 = 0 ∧ refuses s s1) ∨ (0 ≠ 0 ∧ grants s s1 0 n)) as Hno1 by (by left).
  pose proof (maps_first (world s)) as Hfirst. pose proof (maps_pages (world s)) as Hpg.
  destruct (sort_regions _) as [|r0 rest]; [done|].
  specialize (Hpg r0 ltac:(by left)) as (? & ? & ? & ? & Hal & ?).
  assert (range_lo near range <= near) as Hlo
    by (unfold range_lo; destruct (Z.ltb_spec range near); unfold is_u64 in *; lia).
  assert (0 <= range_lo near range) by (unfold range_lo; case_cmp; lia).
  pose proof page_size_range as Hps.
  assert (u64 (range_lo near range + page_size - 1) .& not64 (u64 page_size - 1) =
    (range_lo near range + page_size - 1) / page_size * page_size) as Eb.
  { change (PageAlign (u64 (range_lo near range + page_size - 1)) =
      (range_lo near range + page_size - 1) / page_size * page_size).
    unfold is_u64 in *. rewrite u64_id, PageAlign_eq by (unfold is_u64; lia). done. }
  rewrite Eb. clear Eb.
  remember ((range_lo near range + page_size - 1) / page_size * page_size) as before eqn:Eb.
  destruct (_ && _) eqn:E; [|done].
  rewrite andb_true_iff, Z.ltb_lt, Z.leb_le in E. destruct E as [Hb1 Hb2].
  assert (before mod page_size = 0) as Hbm by (rewrite Eb; apply Z.mod_mul; lia).
  assert (before + page_size <= start r0) as Hfit.
  { apply Z.mod_divide in Hbm as [q1 Eq1]; [|lia]. apply Z.mod_divide in Hal as [q2 Eq2]; [|lia].
    rewrite Eq1, Eq2 in *. assert (q1 < q2) by nia. nia. }
  pose proof (fixed_outcome s1 before n (r_inv _ _ R) Hn Hn8 ltac:(unfold is_u64; lia) Hbm) as H'.
  destruct (AllocFixedPage s1 before) as [s2 page]. destruct H' as [[-> R2]|[Hp G]].
  - intros x Hx Hx'. apply (r_mapped _ _ R) in Hx'. apply Hx'. eapply Hfirst; [done|lia].
  - left. split; [done|by eapply refuses_trans].
  - rewrite (proj2 (Z.eqb_neq page 0)) by done. right. split; [done|by eapply refuses_grants].
Qed.

(** The size is rounded up to a multiple of 8. *)
Definition round8 (n : Z) : Z := (n + 7) / 8 * 8.

Lemma AllocNearCode_ok s size near range :
  inv s → 0 < size <= page_size - 7 → is_u64 near → 0 <= range → near + 2 ^ 32 <= 2 ^ 64 →
  let '(s', a) := AllocNearCode s size near range in outcome s s' a (round8 size).
Proof.
  intros I Hsz Hnear Hrange Hup. unfold AllocNearCode, outcome. pose proof page_size_range as Hps.
  replace (u64 (size + 7) .& not64 7) with (round8 size); cycle 1.
  { rewrite u64_id by (unfold is_u64; lia). symmetry.
    apply (mask_down 3 (size + 7)); [lia|unfold is_u64; lia]. }
  assert (0 < round8 size <= page_size ∧ round8 size mod 8 = 0) as [Hn Hn8].
  { unfold round8. rewrite Z.mod_mul by lia. zmod_lia. }
  pose proof (TryAllocFromExisting_ok s _ near range I Hn Hn8) as H.
  destruct (TryAllocFromExisting _ _ _ _) as [s1 a1]. destruct H as [[-> ->]|(Ha & G & _)]; cycle 1.
  { rewrite (proj2 (Z.eqb_neq a1 0)) by done. by right. }
  cbn [Z.eqb negb]. pose proof (TryAllocInGap_ok s (round8 size) near range I ltac:(lia) Hn8 Hnear Hrange Hup) as H.
  destruct (TryAllocInGap _ _ _ _) as [s2 a2]. destruct H as [[-> R]|[Ha G]]; cycle 1.
  { rewrite (proj2 (Z.eqb_neq a2 0)) by done. by right. }
  cbn [Z.eqb negb]. pose proof (AllocPage_ok s2 (r_inv _ _ R)) as H.
  destruct (AllocPage s2) as [s3 page]. destruct H as [[-> R3]|[Hp P]].
  - left. split; [done|by eapply refuses_trans].
  - rewrite (proj2 (Z.eqb_neq page 0)) by done. right. split; [done|].
    eapply refuses_grants; [done|]. apply mapped_page_grants; [apply R|done|lia|done].
Qed.

(** C6: allocations are disjoint. For a request of at most a page less 7 bytes,
    near an address below the last 4 GiB, on a kernel that satisfies [OSLaws] and [MapsLaws], [AllocNearCode] either
    returns null and leaves the allocator and all mapped memory as they were,
    or returns an 8-aligned block of the rounded-up size whose bytes are
    executable, lie in one of its pages and overlap no earlier block; what it
    owns afterwards is exactly what it owned before and the block, and no byte
    that was mapped changes. Larger requests are not checked by the code
    ([alloc_exceeds_page]). *)
Theorem AllocNearCode_grants s size near range :
  inv s → 0 < size <= page_size - 7 → is_u64 near → 0 <= range → near + 2 ^ 32 <= 2 ^ 64 →
  ∃ s' a, AllocNearCode s size near range = (s', a) ∧
    ((a = 0 ∧ refuses s s') ∨ (a ≠ 0 ∧ grants s s' a (round8 size))).
Proof.
  intros. pose proof (AllocNearCode_ok s size near range) as Hok.
  destruct (AllocNearCode s size near range) as [s' a]. exists s', a. split; [done|].
  by apply Hok.
Qed.

End with_os.

(** ** The maps file of the concrete kernel *)

Definition demo_region (i : Z) : MemRegion :=
  mkMemRegion (0x10000 + 4096 * i) (0x10000 + 4096 * (i + 1)) true false true.
Definition low_region : MemRegion := mkMemRegion 0 0x10000 false false false.
Definition high_region : MemRegion := mkMemRegion 0x13000 (2 ^ 63) false false false.

Lemma sorted_regions rs : StronglySorted (λ r r', end_ r <= start r') rs → Forall (λ r, start r <= end_ r) rs → sort_regions rs = rs.
Proof.
  induction 1 as [|r rs Hs IH Hr]; [done|]. intros Hrs. apply Forall_cons in Hrs as [H1 H2]. cbn. unfold sort_regions in IH. rewrite IH by done.
  destruct rs as [|r' rs]; [done|]. cbn. apply Forall_cons in Hr as [Hr _]. by rewrite (proj2 (Z.ltb_ge _ _)) by lia.
Qed.

Lemma sorted_filter (P : Z → Prop) `{!∀ x, Decision (P x)} l : StronglySorted Z.lt l → StronglySorted Z.lt (filter P l).
Proof.
  induction 1 as [|x l Hs IH Hx]; [constructor|]. rewrite filter_cons. case_decide; [|done]. constructor; [done|].
  rewrite Forall_forall in Hx |- *. intros y Hy. apply Hx. by apply list_elem_of_filter in Hy as [_ ?].
Qed.

(** Consecutive regions have nothing between them. *)
Lemma regions_between l1 r1 r2 l2 r :
  StronglySorted (λ r r', end_ r <= start r') (l1 ++ r1 :: r2 :: l2) → Forall (λ r, start r <= end_ r) (l1 ++ r1 :: r2 :: l2) →
  r ∈ l1 ++ r1 :: r2 :: l2 → end_ r <= end_ r1 ∨ start r2 <= start r.
Proof.
  intros Hs Hf Hr. rewrite Forall_forall in Hf. pose proof (Hf r1) as H1. pose proof (Hf r2) as H2.
  rewrite !elem_of_app, !elem_of_cons in H1, H2. specialize (H1 ltac:(auto)). specialize (H2 ltac:(auto)).
  induction l1 as [|r0 l1 IH]; cbn in Hs, Hr.
  - apply StronglySorted_inv in Hs as [Hs _]. apply StronglySorted_inv in Hs as [_ Hs]. rewrite Forall_forall in Hs.
    rewrite !elem_of_cons in Hr. destruct Hr as [->|[->|Hr]]; [by left|by right|]. right. specialize (Hs r Hr). lia.
  - apply StronglySorted_inv in Hs as [Hs H0]. apply elem_of_cons in Hr as [->|Hr].
    + left. rewrite Forall_forall in H0. specialize (H0 r1). rewrite elem_of_app, elem_of_cons in H0. specialize (H0 ltac:(auto)). lia.
    + apply IH; [done| |done]. intros x Hx. apply Hf. by right.
Qed.

Lemma demo_lines : (λ i, parse_line (demo_line i)) <$> demo_pages = (λ i, Some (demo_region i)) <$> demo_pages.
Proof. by vm_compute. Qed.

Lemma demo_line_region i : 0 <= i < 3 → parse_line (demo_line i) = Some (demo_region i).
Proof.
  intros Hi. pose proof (f_equal (.!! Z.to_nat i) demo_lines) as E. cbn beta in E. rewrite !list_lookup_fmap in E.
  unfold demo_pages in E. rewrite lookup_seqZ_lt in E by lia. cbn [fmap option_fmap option_map] in E.
  injection E as E. by rewrite Z2Nat.id, Z.add_0_l in E by lia.
Qed.

(** The regions that are listed. *)
Lemma demo_maps w : let l := filter (λ i, page_free w (0x10000 + 4096 * i) = false) demo_pages in
  sort_regions (@ParseMaps demo_os w) = low_region :: (demo_region <$> l) ++ [high_region] ∧
  StronglySorted (λ r r', end_ r <= start r') (low_region :: (demo_region <$> l) ++ [high_region]) ∧
  Forall (λ r, start r <= end_ r) (low_region :: (demo_region <$> l) ++ [high_region]).
Proof.
  intros l. assert (Forall (λ i, 0 <= i < 3) l) as Hl.
  { apply Forall_forall. intros i Hi. apply list_elem_of_filter in Hi as [_ Hi]. apply elem_of_seqZ in Hi. lia. }
  assert (StronglySorted (λ r r', end_ r <= start r') (low_region :: (demo_region <$> l) ++ [high_region])) as Hs.
  { assert (StronglySorted Z.lt l) as Hlt by (apply sorted_filter; vm_compute; repeat constructor).
    constructor.
    - induction Hlt as [|i l' Hs IH Hi]; [repeat constructor|]. apply Forall_cons in Hl as [H1 H2]. cbn. constructor; [by apply IH|].
      apply Forall_app. split; [|repeat constructor; cbn; lia]. apply Forall_fmap. eapply Forall_impl; [exact Hi|]. cbn. lia.
    - apply Forall_app. split; [|repeat constructor; cbn; lia]. apply Forall_fmap. eapply Forall_impl; [exact Hl|]. cbn. lia. }
  assert (Forall (λ r, start r <= end_ r) (low_region :: (demo_region <$> l) ++ [high_region])) as Hf.
  { apply Forall_cons. split; [cbn; lia|]. apply Forall_app. split; [|apply Forall_singleton; cbn; lia].
    apply Forall_fmap, Forall_true. intros i. cbn. lia. }
  split; [|done]. assert (@ParseMaps demo_os w = low_region :: (demo_region <$> l) ++ [high_region]) as ->.
  { unfold ParseMaps. cbn [proc_maps demo_os]. unfold demo_proc_maps. fold l.
    change (low_region :: omap parse_line ((demo_line <$> l) ++ [demo_high]) = low_region :: (demo_region <$> l) ++ [high_region]).
    f_equal. rewrite omap_app. f_equal. clear Hs Hf. induction l as [|i l' IH]; [done|].
    apply Forall_cons in Hl as [Hi Hl]. cbn [fmap list_fmap omap list_omap].
    rewrite demo_line_region by done. f_equal. by apply IH. }
  by apply sorted_regions.
Qed.

Lemma demo_maps_laws : @MapsLaws demo_os.
Proof.
  split; intros w.
  - intros l1 r1 r2 l2 x E Hx. destruct (demo_maps w) as (Em & Hs & Hf). rewrite Em in E.
    assert (∀ r, r ∈ low_region :: (demo_region <$> filter (λ i, page_free w (0x10000 + 4096 * i) = false) demo_pages) ++ [high_region] →
      end_ r <= end_ r1 ∨ start r2 <= start r) as Hside by (intros r; rewrite E in Hs, Hf |- *; by apply regions_between).
    pose proof (Hside low_region ltac:(by left)) as Hlow. pose proof (Hside high_region ltac:(right; apply elem_of_app; right; by left)) as Hhigh.
    cbn in Hlow, Hhigh. set (i := (x - 0x10000) / 4096).
    assert (0x10000 <= x < 0x13000) as Hx'.
    { assert (r1 ∈ l1 ++ r1 :: r2 :: l2 ∧ r2 ∈ l1 ++ r1 :: r2 :: l2) as [H1 H2] by (rewrite !elem_of_app, !elem_of_cons; auto).
      rewrite <- E in H1, H2. rewrite !elem_of_cons, !elem_of_app, !list_elem_of_fmap, !list_elem_of_singleton in H1, H2.
      split.
      - destruct H1 as [->|[(k & -> & Hk)| ->]]; cbn in Hx; [lia| |lia]. apply list_elem_of_filter in Hk as [_ Hk].
        apply elem_of_seqZ in Hk. lia.
      - destruct H2 as [->|[(k & -> & Hk)| ->]]; cbn in Hx; [lia| |lia]. apply list_elem_of_filter in Hk as [_ Hk].
        apply elem_of_seqZ in Hk. lia. }
    assert (0 <= i < 3 ∧ 0x10000 + 4096 * i <= x < 0x10000 + 4096 * (i + 1)) as [Hi Hin] by (unfold i; zmod_lia).
    destruct (page_free w (0x10000 + 4096 * i)) eqn:Ef.
    + unfold page_free in Ef. rewrite forallb_seqZ in Ef. specialize (Ef (x - (0x10000 + 4096 * i)) ltac:(lia)).
      replace (0x10000 + 4096 * i + (x - (0x10000 + 4096 * i))) with x in Ef by lia. by destruct (perms w x).
    + destruct (Hside (demo_region i)) as [H|H]; [|cbn in H; lia|cbn in H; lia].
      apply elem_of_cons. right. apply elem_of_app. left. apply list_elem_of_fmap. exists i. split; [done|].
      apply list_elem_of_filter. split; [done|]. apply elem_of_seqZ. lia.
  - intros r l x E Hx. destruct (demo_maps w) as [Em _]. rewrite Em in E. apply (f_equal head) in E. change (head (low_region :: ?k)) with (Some low_region) in E. cbn [head] in E. injection E as <-. cbn in Hx. lia.
  - intros r H. destruct (demo_maps w) as [Em _]. rewrite Em in H. apply elem_of_cons in H as [->|H]; [vm_compute; split_and!; congruence|].
    apply elem_of_app in H as [H|H]; [|apply list_elem_of_singleton in H as ->; vm_compute; split_and!; congruence].
    apply list_elem_of_fmap in H as (i & -> & Hi). apply list_elem_of_filter in Hi as [_ Hi]. apply elem_of_seqZ in Hi. cbn. split_and!; zmod_lia.
Qed.

Definition demo_world : World :=
  mkWorld (λ x, x mod 251) (λ x, if in_range 0x10000 4096 x then Some PROT_RX else None).

Lemma demo_alloc : snd (@AllocNearCode demo_os (mkAlloc demo_world []) 100 0x10000 0x8000000) = 0x11000.
Proof. vm_compute. reflexivity. Qed.

(** The block is in the gap behind the mapped page. *)
Lemma AllocNearCode_grants_witness :
  ∃ s' a, @AllocNearCode demo_os (mkAlloc demo_world []) 100 0x10000 0x8000000 = (s', a) ∧
    a = 0x11000 ∧ @grants demo_os (mkAlloc demo_world []) s' a 104.
Proof.
  destruct (@AllocNearCode_grants demo_os demo_os_laws demo_maps_laws (mkAlloc demo_world []) 100
    0x10000 0x8000000) as (s' & a & E & H).
  - split; [constructor|constructor|]. intros x (p & Hp & _). by apply elem_of_nil in Hp.
  - cbn. lia.
  - unfold is_u64. lia.
  - lia.
  - lia.
  - exists s', a. split; [exact E|]. assert (a = 0x11000) as Ha.
    { pose proof demo_alloc as Hd. rewrite E in Hd. exact Hd. }
    split; [exact Ha|]. destruct H as [[H _]|[_ H]]; [lia|exact H].
Defined.

(** A request of more than a page gets a block that ends behind its page. *)
Example alloc_exceeds_page :
  pages_ (fst (@AllocNearCode demo_os (mkAlloc demo_world []) 5000 0x10000 0x8000000)) = [mkLinearPage 0x11000 5000 4096].
Proof. vm_compute. reflexivity. Qed.

End MemoryAllocator.
