(* ===== verification/HookApi.v ===== *)
(** * The hook registry and the public API ([hook_sdk/src/hook_entry.h],
    [hook_registry.h], [hook_registry.cpp], [hook_api.cpp])

    [HookInstall] and [HookUninstall] over the process memory, the allocator
    and the registry, with every error code. The theorems state what a hook
    does to the running code and that memory is restored, for one hook and for
    any sequence of operations. *)

From stdpp Require Import relations.
From S2P Require Import Prelude Arm64 Arm64Machine Assembler Relocator Trampoline.
From S2P Require Import Os CodePatch MemoryAllocator.
Import Os CodePatch MemoryAllocator.

Module HookApi.

#[local] Set Default Proof Using "Type*".

(** ** HookEntry and HookRegistry *)

Record HookEntry : Set := mkHookEntry {
  target_addr : Z;
  replace_addr : Z;
  orig_func : Z;
  saved_bytes : list Z;
  saved_size : Z;
  relocated_mem : Z;
  relocated_size : Z;
  active : bool
}.

(** The constructor: [saved_bytes] is an array of 32 zeros. *)
Definition HookEntry_new : HookEntry := mkHookEntry 0 0 0 (replicate 32 0) 0 0 0 false.

Definition Add (entries : list HookEntry) (e : HookEntry) : list HookEntry := entries ++ [e].

Fixpoint Find (entries : list HookEntry) (target : Z) : option HookEntry :=
  match entries with
  | [] => None
  | e :: entries => if target_addr e =? target then Some e else Find entries target
  end.

Fixpoint Remove (entries : list HookEntry) (target : Z) : list HookEntry * option HookEntry :=
  match entries with
  | [] => ([], None)
  | e :: entries =>
      if target_addr e =? target then (entries, Some e)
      else let '(es, r) := Remove entries target in (e :: es, r)
  end.

(** ** The API *)

Record Sys : Type := mkSys {
  mem : Alloc;
  entries_ : list HookEntry
}.

Section with_os.
Context `{O : OS}.

(** Result: the new state, the return code and the value stored through
    [orig_func]. [orig_null] says that the caller passed a null [orig_func].
    [None] is a fault. *)
Definition HookInstall (s : Sys) (target replace : Z) (orig_null : bool) :
  option (Sys * Z * option Z) :=
  if (target =? 0) || (replace =? 0) || orig_null then Some (s, -1, None)
  else if (if Find (entries_ s) target is Some _ then true else false) then Some (s, -2, None)
  else
    patch ← Trampoline.BuildJumpPatch target replace;
    if Assembler.size (Trampoline.code patch) =? 0 then Some (s, -3, None)
    else
      let patch_size := Trampoline.patch_size patch in
      let max_reloc_size := u32 (patch_size / 4 * 20 + 64) in
      let '(m, relocated_mem) := AllocNearCode (mem s) max_reloc_size target Arm64.kMaxBRange in
      if relocated_mem =? 0 then Some (mkSys m (entries_ s), -4, None)
      else
        insts ← read_bytes (world m) target (Z.to_nat patch_size);
        relocated ← Trampoline.BuildRelocatedCode (words_of insts) target patch_size relocated_mem;
        if Assembler.size relocated =? 0 then Some (mkSys m (entries_ s), -5, None)
        else
          let '(m, _) := BeginWrite m relocated_mem (Assembler.size relocated) in
          w ← write_bytes (world m) relocated_mem (Assembler.data relocated);
          let '(m, _) := EndWrite (mkAlloc w (pages_ m)) relocated_mem (Assembler.size relocated) in
          orig ← read_bytes (world m) target (Z.to_nat patch_size);
          saved ← splice (saved_bytes HookEntry_new) 0 orig;
          let entry := mkHookEntry target replace relocated_mem saved patch_size
                         relocated_mem (Assembler.size relocated) true in
          '(w, ret) ← PatchCode (world m) target (Some (Assembler.data (Trampoline.code patch)))
                        patch_size;
          let m := mkAlloc w (pages_ m) in
          if negb (ret =? 0) then Some (mkSys m (entries_ s), -6, None)
          else Some (mkSys m (Add (entries_ s) entry), 0, Some (orig_func entry)).

Definition set_inactive (e : HookEntry) : HookEntry :=
  mkHookEntry (target_addr e) (replace_addr e) (orig_func e) (saved_bytes e) (saved_size e)
    (relocated_mem e) (relocated_size e) false.

Definition HookUninstall (s : Sys) (target : Z) : option (Sys * Z) :=
  if target =? 0 then Some (s, -1)
  else
    let '(entries, entry) := Remove (entries_ s) target in
    match entry with
    | None => Some (mkSys (mem s) entries, -2)
    | Some entry =>
        '(w, ret) ← PatchCode (world (mem s)) target (Some (saved_bytes entry)) (saved_size entry);
        let m := mkAlloc w (pages_ (mem s)) in
        if negb (ret =? 0) then Some (mkSys m (Add entries (set_inactive entry)), -3)
        else Some (mkSys m entries, 0)
    end.

(** ** Registry facts *)

Lemma Find_None es t : Find es t = None ↔ t ∉ (target_addr <$> es).
Proof.
  induction es as [|e es IH]; cbn; [split; [intros _ H; by apply elem_of_nil in H|done]|].
  rewrite not_elem_of_cons. destruct (Z.eqb_spec (target_addr e) t); [naive_solver|].
  rewrite IH. naive_solver.
Qed.

(** [Remove] takes out the first entry of the target, which is the one [Find]
    sees, and keeps the order of the others. *)
Lemma Remove_Find es t :
  match Find es t with
  | Some e => ∃ l1 l2, es = l1 ++ e :: l2 ∧ target_addr e = t ∧
                t ∉ (target_addr <$> l1) ∧ Remove es t = (l1 ++ l2, Some e)
  | None => Remove es t = (es, None)
  end.
Proof.
  induction es as [|e es IH]; cbn; [done|].
  destruct (Z.eqb_spec (target_addr e) t).
  - exists [], es. split_and!; [done..| |done]. intros H. by apply elem_of_nil in H.
  - destruct (Find es t) as [e'|].
    + destruct IH as (l1 & l2 & -> & ? & ? & ->). exists (e :: l1), l2.
      split_and!; [done..| |done]. cbn. rewrite not_elem_of_cons. auto.
    + by rewrite IH.
Qed.

(** ** The system invariant

    [s0] is the state before any hook was installed; its program memory is
    what was mapped and did not belong to the allocator. *)

Definition program (s0 : Alloc) (x : Z) : Prop := mapped s0 x ∧ ¬ managed s0 x.

Definition patched (e : HookEntry) (x : Z) : Prop :=
  target_addr e <= x < target_addr e + saved_size e.

Record entry_ok (s0 : Alloc) (e : HookEntry) : Prop := {
  e_addr : 0 < target_addr e ∧ target_addr e + 2 ^ 33 <= 2 ^ 63;
  e_size : saved_size e ∈ [4; 12; 16];
  e_len : length (saved_bytes e) = 32%nat;
  e_saved : ∀ i, 0 <= i < saved_size e →
    saved_bytes e !! Z.to_nat i = Some (bytes (world s0) (target_addr e + i));
  e_program : ∀ x, patched e x → program s0 x
}.

Record Inv (s0 : Alloc) (s : Sys) : Prop := {
  Inv_alloc : inv (mem s);
  Inv_program : ∀ x, program s0 x → mapped (mem s) x ∧ ¬ managed (mem s) x;
  Inv_readable : ∀ x, program s0 x → readable (world s0) x = true →
    readable (world (mem s)) x = true;
  Inv_nodup : NoDup (target_addr <$> entries_ s);
  Inv_entries : Forall (entry_ok s0) (entries_ s);
  Inv_apart : ∀ l1 e l2, entries_ s = l1 ++ e :: l2 →
    ∀ e' x, e' ∈ l1 ++ l2 → patched e x → ¬ patched e' x;
  Inv_bytes : ∀ x, program s0 x → (∀ e, e ∈ entries_ s → ¬ patched e x) →
    bytes (world (mem s)) x = bytes (world s0) x
}.

(** A function that can be hooked: 16 readable bytes of user-space program
    memory, clear of the patches already in place. *)
Record hookable (s0 : Alloc) (s : Sys) (t : Z) : Prop := {
  h_addr : 0 < t ∧ t + 2 ^ 33 <= 2 ^ 63;
  h_program : ∀ x, t <= x < t + 16 → program s0 x ∧ readable (world s0) x = true;
  h_clear : ∀ e x, e ∈ entries_ s → patched e x → ¬ (t <= x < t + 16)
}.

Lemma hookable_Find s0 s t : Inv s0 s → hookable s0 s t → Find (entries_ s) t = None.
Proof.
  intros I H. apply Find_None. intros Hin. apply list_elem_of_fmap in Hin as (e & -> & He).
  pose proof (Inv_entries _ _ I) as HE. rewrite Forall_forall in HE.
  pose proof (e_size _ _ (HE _ He)) as Hs. rewrite !elem_of_cons, elem_of_nil in Hs.
  apply (h_clear _ _ _ H e (target_addr e)); [done| |lia]. unfold patched. lia.
Qed.

Lemma saved_splice (bs saved : list Z) :
  splice (saved_bytes HookEntry_new) 0 bs = Some saved →
  length saved = 32%nat ∧ ∀ i, (i < length bs)%nat → saved !! i = bs !! i.
Proof.
  intros H. pose proof (splice_length _ _ _ _ H) as Hl. split; [done|]. intros i Hi.
  unfold splice in H. case_match; [|done]. injection H as <-. cbn [Z.to_nat take app].
  by rewrite lookup_app_l.
Qed.

Context `{L : !OSLaws O} `{M : !MapsLaws}.

(** The kernel refuses to make [n] bytes at [a] writable. *)
Definition refused (w : World) (a n : Z) : Prop := (MakeMemoryRWX w a n).2 ≠ 0.

(** Writing [bs] at [addr] into the block of [n] bytes at [a], between a
    [BeginWrite] whose result is not looked at and an [EndWrite]: the write
    happens, or it faults, and then the kernel had refused. *)
Lemma write_granted m a n addr bs :
  0 < a → 0 < n → a + n + 2 ^ 32 <= 2 ^ 64 → a <= addr → addr + zlen bs <= a + n →
  (∀ x, a <= x < a + n → mapped m x) →
  match write_bytes (world (BeginWrite m a n).1) addr bs with
  | None => refused (world m) a n
  | Some w' =>
      let m' := (EndWrite (mkAlloc w' (pages_ m)) a n).1 in
      pages_ m' = pages_ m ∧ world_le (world m) (world m') ∧
      bytes (world m') = overwrite (bytes (world m)) addr bs
  end.
Proof.
  intros Ha Hn Hl Hlo Hhi Hmap. assert (a + n + page_size <= 2 ^ 64) as Hl'
    by (pose proof page_size_range; lia).
  unfold BeginWrite, refused.
  pose proof (λ x, proj1 (MakeMemory_frame (world m) a n x ltac:(lia) Hn Hl')) as F.
  destruct (MakeMemory_le (world m) a n) as [Hle _].
  destruct (MakeMemoryRWX (world m) a n) as [w1 r1]. cbn in *.
  destruct (write_bytes w1 addr bs) as [w'|] eqn:Ew.
  - unfold write_bytes in Ew. destruct (forallb _ _); [|done]. injection Ew as <-.
    unfold EndWrite. cbn [world pages_]. set (w2 := mkWorld _ _).
    pose proof (proj2 (MakeMemory_frame w2 a n 0 ltac:(lia) Hn Hl')) as G.
    destruct (MakeMemory_le w2 a n) as [_ Hle2].
    destruct (MakeMemoryRX w2 a n) as [w3 r3]. cbn in *.
    split_and!; [done| |].
    + etransitivity; [|exact Hle2]. by apply world_le_perms.
    + destruct G as (-> & _). cbn. by destruct (F 0) as (-> & _).
  - intros ->. rewrite write_bytes_Some in Ew; [done|].
    intros x Hx. destruct (F x) as (_ & _ & Hp). unfold writable.
    rewrite Hp by (first [done|lia|apply Hmap; lia]). done.
Qed.

Lemma inv_world_le m w' : inv m → world_le (world m) w' → inv (mkAlloc w' (pages_ m)).
Proof.
  intros [I1 I2 I3] [_ _ Hm]. split; [done|done|]. intros x Hx. apply Hm. by apply (I3 x).
Qed.

(** Reading the hooked function while the relocated code is being placed: its
    bytes are still those of [s0]. *)
Lemma read_target s0 s t n w :
  Inv s0 s → hookable s0 s t → (n <= 16)%nat →
  (∀ x, t <= x < t + 16 → readable (world (mem s)) x = true → readable w x = true) →
  (∀ x, t <= x < t + 16 → bytes w x = bytes (world (mem s)) x) →
  read_bytes w t n = Some ((λ i, bytes (world s0) (t + i)) <$> seqZ 0 (Z.of_nat n)).
Proof.
  intros I H Hn Hr Hb. rewrite read_bytes_Some.
  - f_equal. apply list_fmap_ext. intros i j Hj. apply lookup_seqZ in Hj as [-> Hi].
    rewrite Hb by lia. apply (Inv_bytes _ _ I); [apply (h_program _ _ _ H); lia|].
    intros e He Hx. eapply (h_clear _ _ _ H); [exact He|exact Hx|lia].
  - intros x Hx. apply Hr; [lia|]. destruct (h_program _ _ _ H x) as [Hp Hrd]; [lia|].
    by apply (Inv_readable _ _ I).
Qed.

(** A granted block lies apart from program memory. *)
Lemma grants_apart s0 s m a k x :
  Inv s0 s → grants (mem s) m a k → program s0 x → ¬ (a <= x < a + k).
Proof.
  intros I G Hx Hb. destruct (Inv_program _ _ I x Hx) as [Hm Hn]. apply Hn.
  apply (g_outside _ _ _ _ G); [|done]. by apply (g_managed _ _ _ _ G).
Qed.

(** The [n] bytes at [t] before any hook. *)
Definition orig_bytes (s0 : Alloc) (t n : Z) : list Z :=
  (λ i, bytes (world s0) (t + i)) <$> seqZ 0 n.

Definition patch_len (t rep : Z) : Z := (Trampoline.patch_block t rep).2.

(** The instructions a hook on [t] displaces, the code they are relocated to
    and the patch that takes their place. *)
Definition displaced (s0 : Alloc) (t rep : Z) : list Z :=
  words_of (orig_bytes s0 t (patch_len t rep)).
Definition reloc_img (s0 : Alloc) (t rep : Z) : list Z :=
  Relocator.reloc_image (displaced s0 t rep) t.
Definition patch_img (t rep : Z) : list Z :=
  take (Z.to_nat (patch_len t rep))
    (Assembler.image (Trampoline.patch_block t rep).1.1 (Trampoline.patch_block t rep).1.2).

(** What a successful installation leaves behind. *)
Record installed (s0 : Alloc) (s s' : Sys) (t rep a : Z) (e : HookEntry) (m : Alloc) (k : Z) :
  Prop := {
  i_entries : entries_ s' = entries_ s ++ [e];
  i_entry : entry_ok s0 e ∧ target_addr e = t ∧ saved_size e = patch_len t rep;
  i_active : active e = true;
  i_grants : grants (mem s) m a k;
  i_fits : zlen (reloc_img s0 t rep) <= k;
  i_pages : pages_ (mem s') = pages_ m;
  i_world : world_le (world m) (world (mem s'));
  i_bytes : bytes (world (mem s')) =
    overwrite (overwrite (bytes (world m)) a (reloc_img s0 t rep)) t (patch_img t rep)
}.

Lemma patch_len_cases t rep :
  patch_len t rep = 4 ∨ patch_len t rep = 12 ∨ patch_len t rep = 16.
Proof. unfold patch_len, Trampoline.patch_block. repeat case_match; cbn; auto. Qed.

Lemma displaced_ok s0 t rep :
  (∀ x, is_u8 (bytes (world s0) x)) →
  4 * zlen (displaced s0 t rep) = patch_len t rep ∧
  Forall is_u32 (displaced s0 t rep) ∧
  words_bytes (displaced s0 t rep) = orig_bytes s0 t (patch_len t rep).
Proof.
  intros Hu. destruct (words_of_spec (Z.to_nat (patch_len t rep / 4))
    (orig_bytes s0 t (patch_len t rep))) as (E1 & E2 & E3).
  - unfold orig_bytes. rewrite length_fmap, length_seqZ.
    by destruct (patch_len_cases t rep) as [->|[->| ->]].
  - unfold orig_bytes. apply Forall_fmap, Forall_true. intros x. apply Hu.
  - unfold displaced. rewrite E1. split_and!; [|done|done].
    by destruct (patch_len_cases t rep) as [->|[->| ->]].
Qed.

(** The entry with the bytes saved at the target. *)
Lemma saved_entry s0 s t n rep a sz : hookable s0 s t → n ∈ [4; 12; 16] →
  ∃ saved, splice (saved_bytes HookEntry_new) 0 (orig_bytes s0 t n) = Some saved ∧
    entry_ok s0 (mkHookEntry t rep a saved n a sz true).
Proof.
  intros H Hn. assert (4 <= n <= 16) as Hr by (rewrite !elem_of_cons, elem_of_nil in Hn; lia).
  assert (zlen (orig_bytes s0 t n) = n) as Hol.
  { unfold orig_bytes. rewrite length_fmap, length_seqZ. lia. }
  destruct (splice _ 0 (orig_bytes s0 t n)) as [saved|] eqn:Es; cycle 1.
  { rewrite splice_Some in Es; [done|lia|]. rewrite Hol. cbn. lia. }
  apply saved_splice in Es as [Es1 Es2]. exists saved. split; [done|]. split; cbn.
  - apply (h_addr _ _ _ H).
  - done.
  - done.
  - intros i Hi. rewrite Es2 by lia. unfold orig_bytes.
    rewrite list_lookup_fmap, lookup_seqZ_lt by lia. cbn. do 2 f_equal. lia.
  - intros x Hx. apply (h_program _ _ _ H). unfold patched in Hx. cbn in Hx. lia.
Qed.

(** What an installation leaves behind whose patch the kernel refused. *)
Record abandoned (s0 : Alloc) (s s' : Sys) (t rep a : Z) (m : Alloc) (k : Z) : Prop := {
  b_entries : entries_ s' = entries_ s;
  b_grants : grants (mem s) m a k;
  b_fits : zlen (reloc_img s0 t rep) <= k;
  b_pages : pages_ (mem s') = pages_ m;
  b_world : world_le (world m) (world (mem s'));
  b_bytes : bytes (world (mem s')) = overwrite (bytes (world m)) a (reloc_img s0 t rep);
  b_refused : ∃ w, bytes w = bytes (world (mem s')) ∧ world_le w (world (mem s')) ∧ refused w t (patch_len t rep)
}.

(** Every outcome; a fault comes from a relocated block that the kernel refused
    to make writable. *)
Lemma HookInstall_ok s0 s t rep :
  Inv s0 s → hookable s0 s t → 0 < rep < 2 ^ 63 → (∀ x, is_u8 (bytes (world s0) x)) →
  match HookInstall s t rep false with
  | None => ∃ m a k, grants (mem s) m a k ∧ zlen (reloc_img s0 t rep) <= k ∧ refused (world m) a (zlen (reloc_img s0 t rep))
  | Some (s', ret, r) =>
      (ret = -4 ∧ r = None ∧ entries_ s' = entries_ s ∧ refuses (mem s) (mem s')) ∨
      (ret = -6 ∧ r = None ∧ ∃ a m k, abandoned s0 s s' t rep a m k) ∨
      (ret = 0 ∧ ∃ a e m k, r = Some a ∧ installed s0 s s' t rep a e m k)
  end.
Proof.
  intros I H Hrep Hu. pose proof (h_addr _ _ _ H) as Ht. pose proof page_size_range as Hps.
  unfold HookInstall. rewrite (proj2 (Z.eqb_neq t 0)), (proj2 (Z.eqb_neq rep 0)) by lia.
  cbn [orb]. rewrite (hookable_Find _ _ _ I H).
  destruct (Trampoline.BuildJumpPatch_ok t rep) as (p & -> & Hn & Wp & Dp); [lia..|].
  destruct (Trampoline.patch_block_jumps t rep) as (_ & Hlen & _); [lia..|].
  fold (patch_len t rep) in Hn, Hlen. cbn [mbind option_bind].
  pose proof (patch_len_cases t rep) as Hcases.
  pose proof (displaced_ok s0 t rep Hu) as (Hwl & Hwu & Hwb).
  assert (4 <= patch_len t rep <= 16) as Hn16 by lia.
  rewrite (Assembler.wf_size _ Wp), Dp. rewrite (proj2 (Z.eqb_neq _ 0)) by lia. rewrite Hn.
  set (N := length (displaced s0 t rep)) in *.
  replace (patch_len t rep / 4) with (Z.of_nat N) by zmod_lia.
  rewrite (u32_id (Z.of_nat N * 20 + 64)) by (unfold is_u32; lia).
  pose proof (AllocNearCode_ok (mem s) (Z.of_nat N * 20 + 64) t Arm64.kMaxBRange (Inv_alloc _ _ I)
    ltac:(lia) ltac:(unfold is_u64; lia) ltac:(done) ltac:(lia)) as HA.
  destruct (AllocNearCode _ _ _ _) as [m a]. destruct HA as [[-> R]|[Ha G]].
  { cbn [Z.eqb]. left. by split_and!. }
  rewrite (proj2 (Z.eqb_neq a 0)) by done. pose proof (g_frame _ _ _ _ G) as F.
  assert (∀ x, t <= x < t + 16 → program s0 x) as Hprog by (intros; by apply (h_program _ _ _ H)).
  assert (∀ x, t <= x < t + 16 → mapped (mem s) x) as Hmap
    by (intros x Hx; by apply (Inv_program _ _ I), Hprog).
  rewrite (read_target s0 s t _ (world m) I H) by
    (first [lia|intros x Hx; unfold readable; destruct (F x (Hmap x Hx)) as [? ->]; done
           |intros x Hx; by destruct (F x (Hmap x Hx))]).
  rewrite Z2Nat.id by lia. fold (orig_bytes s0 t (patch_len t rep)). cbn [mbind option_bind].
  fold (displaced s0 t rep).
  destruct (Trampoline.BuildRelocatedCode_ok (displaced s0 t rep) t N a) as
    (b & Eb & Wb & Db & Hb); [lia|lia|unfold N; by rewrite firstn_all|].
  rewrite <- Hwl, Eb. cbn [mbind option_bind]. rewrite Hwl. unfold N in Db. rewrite firstn_all in Db.
  fold (reloc_img s0 t rep) in Db. rewrite (Assembler.wf_size _ Wb), Db in *.
  rewrite (proj2 (Z.eqb_neq _ 0)) by lia.
  set (img := reloc_img s0 t rep) in *. set (k := round8 _) in *.
  assert (zlen img <= k) as Hfit.
  { subst k. unfold round8. zmod_lia. }
  destruct (g_addr _ _ _ _ G) as (Ha1 & Ha2 & _).
  pose proof (write_granted m a (zlen img) a img ltac:(lia) ltac:(lia) ltac:(lia) ltac:(lia) ltac:(lia)
    ltac:(intros x Hx; apply (inv_mapped _ (g_inv _ _ _ _ G)), (g_managed _ _ _ _ G); lia)) as H2.
  destruct (BeginWrite m a (zlen img)) as [m1 r1] eqn:EB. cbn [fst] in H2.
  assert (pages_ m1 = pages_ m) as Ep1.
  { unfold BeginWrite in EB. destruct (MakeMemoryRWX _ _ _). by injection EB as <- _. }
  destruct (write_bytes (world m1) a img) as [w2|]; cbn [mbind option_bind]; [|by exists m, a, k].
  rewrite Ep1.
  destruct (EndWrite _ a (zlen img)) as [m2 r2]. cbn [fst] in H2. destruct H2 as (Ep2 & Hle2 & Hb2).
  rewrite (read_target s0 s t _ (world m2) I H); cycle 1.
  { lia. }
  { intros x Hx Hr. apply (le_readable _ _ Hle2). unfold readable in *.
    by destruct (F x (Hmap x Hx)) as [? ->]. }
  { intros x Hx. rewrite Hb2. destruct (F x (Hmap x Hx)) as [<- _]. apply overwrite_other.
    apply in_range_false. pose proof (grants_apart _ _ _ _ _ x I G (Hprog x Hx)). lia. }
  rewrite Z2Nat.id by lia. fold (orig_bytes s0 t (patch_len t rep)). cbn [mbind option_bind].
  destruct (saved_entry s0 s t (patch_len t rep) rep a (zlen img) H) as (saved & -> & Hentry);
    [rewrite !elem_of_cons; lia|]. cbn [mbind option_bind].
  destruct (PatchCode_ok (world m2) t (Assembler.image (Trampoline.patch_block t rep).1.1
    (Trampoline.patch_block t rep).1.2) (patch_len t rep)) as (w3 & ret & -> & Hle3 & _ & Hret);
    [lia|lia|lia|intros x Hx; apply (le_mapped _ _ Hle2), (frame_mapped _ _ _ F), Hmap; lia|].
  cbn [mbind option_bind]. destruct Hret as [(-> & Hb3 & Hw)|(-> & Hb3 & _)]; cbn [Z.eqb Pos.eqb negb].
  { right; left. split; [done|]. split; [done|]. exists a, m, k. split; cbn [mem entries_ world pages_]; try done.
    - etransitivity; [exact Hle2|exact Hle3].
    - by rewrite Hb3.
    - exists (world m2). split; [by rewrite Hb3|]. by split. }
  right; right. split; [done|].
  do 4 eexists. split; [done|]. split; cbn [mem entries_ world pages_ target_addr saved_size]; try done.
  - etransitivity; [exact Hle2|exact Hle3].
  - by rewrite Hb3, Hb2.
Qed.

Lemma patch_img_length t rep :
  0 <= t < 2 ^ 63 → 0 <= rep < 2 ^ 63 → zlen (patch_img t rep) = patch_len t rep.
Proof.
  intros Ht Hr. destruct (Trampoline.patch_block_jumps t rep Ht Hr) as (_ & Hl & _).
  fold (patch_len t rep) in Hl. pose proof (patch_len_cases t rep).
  unfold patch_img. rewrite length_take. lia.
Qed.

Lemma refuses_Inv s0 s s' :
  Inv s0 s → entries_ s' = entries_ s → refuses (mem s) (mem s') → Inv s0 s'.
Proof.
  intros [I1 I2 I3 I4 I5 I6 I7] He [R1 R2 R3 R4].
  assert (∀ x, program s0 x → mapped (mem s) x) as Hm by (intros x Hx; by apply I2).
  split; rewrite ?He; try done.
  - intros x Hx. destruct (I2 x Hx) as [H1 H2]. split; [by eapply frame_mapped|].
    unfold managed. by rewrite R2.
  - intros x Hx Hr. unfold readable. destruct (R3 x (Hm x Hx)) as [_ ->]. by apply I3.
  - intros x Hx Hp. destruct (R3 x (Hm x Hx)) as [-> _]. by apply I7.
Qed.

Lemma grants_Inv s0 s m c n : Inv s0 s → grants (mem s) m c n → Inv s0 (mkSys m (entries_ s)).
Proof.
  intros [I1 I2 I3 I4 I5 I6 I7] [G1 G2 G3 G4 G5 G5' G6 G7].
  assert (∀ x, program s0 x → mapped (mem s) x) as Hm by (intros x Hx; by apply I2).
  split; cbn [mem entries_]; try done.
  - intros x Hx. destruct (I2 x Hx) as [H1 H2]. split; [by eapply frame_mapped|].
    intros Hx'. apply H2. by apply G6.
  - intros x Hx Hr. unfold readable. destruct (G7 x (Hm x Hx)) as [_ ->]. by apply I3.
  - intros x Hx Hp. destruct (G7 x (Hm x Hx)) as [-> _]. by apply I7.
Qed.

(** Writing to the allocator's own memory. *)
Lemma write_Inv s0 s m' addr bs : Inv s0 s → pages_ m' = pages_ (mem s) →
  world_le (world (mem s)) (world m') →
  bytes (world m') = overwrite (bytes (world (mem s))) addr bs →
  (∀ x, addr <= x < addr + zlen bs → owned (mem s) x) →
  Inv s0 (mkSys m' (entries_ s)) ∧
  ∀ x, program s0 x → bytes (world m') x = bytes (world (mem s)) x.
Proof.
  intros I Hp W Hb Ho. pose proof I as [I1 I2 I3 I4 I5 I6 I7].
  assert (∀ x, program s0 x → bytes (world m') x = bytes (world (mem s)) x) as Hx.
  { intros x Hx. rewrite Hb. apply overwrite_other, not_true_is_false. intros Hin.
    apply in_range_spec in Hin. destruct (I2 x Hx) as [_ Hn]. apply Hn.
    apply owned_managed; [done|]. by apply Ho. }
  split; [|done]. split; cbn [mem entries_]; try done.
  - assert (m' = mkAlloc (world m') (pages_ (mem s))) as -> by (rewrite <- Hp; by destruct m').
    by apply inv_world_le.
  - intros x Hpx. destruct (I2 x Hpx). split; [by apply (le_mapped _ _ W)|].
    unfold managed. by rewrite Hp.
  - intros x Hpx Hr. apply (le_readable _ _ W). by apply I3.
  - intros x Hpx Hq. rewrite Hx by done. by apply I7.
Qed.

Lemma abandoned_Inv s0 s s' t rep a m k : Inv s0 s → abandoned s0 s s' t rep a m k →
  Inv s0 s' ∧ ∀ x, program s0 x → bytes (world (mem s')) x = bytes (world (mem s)) x.
Proof.
  intros I [E G Hf Hp W Hb _]. pose proof (grants_Inv s0 s m a k I G) as I1.
  destruct (write_Inv s0 (mkSys m (entries_ s)) (mem s') a (reloc_img s0 t rep) I1 Hp W Hb) as [I2 Hx].
  { intros x Hx. apply (g_owned _ _ _ _ G). right. cbn [mem]. lia. }
  cbn [entries_] in I2. rewrite <- E in I2. split; [by destruct s'|]. intros x Hpx. rewrite Hx by done. cbn [mem].
  apply (g_frame _ _ _ _ G). by apply (Inv_program _ _ I).
Qed.

(** The program memory of a successful installation: patched at the target,
    untouched elsewhere. *)
Lemma installed_program s0 s s' t rep a e m k x :
  Inv s0 s → 0 <= t < 2 ^ 63 → 0 <= rep < 2 ^ 63 → installed s0 s s' t rep a e m k →
  program s0 x →
  bytes (world (mem s')) x = overwrite (bytes (world (mem s))) t (patch_img t rep) x.
Proof.
  intros I Ht Hr J Hx. rewrite (i_bytes _ _ _ _ _ _ _ _ _ J).
  destruct (Inv_program _ _ I x Hx) as [Hm _].
  destruct (g_frame _ _ _ _ (i_grants _ _ _ _ _ _ _ _ _ J) x Hm) as [Hb _].
  unfold overwrite at 1 3. destruct (in_range t _ x); [done|]. rewrite <- Hb.
  apply overwrite_other, in_range_false.
  pose proof (grants_apart _ _ _ _ _ x I (i_grants _ _ _ _ _ _ _ _ _ J) Hx).
  pose proof (i_fits _ _ _ _ _ _ _ _ _ J). lia.
Qed.

(** The patch does not overlap the relocated code. *)
Lemma installed_reloc s0 s s' t rep a e m k :
  Inv s0 s → hookable s0 s t → 0 <= t < 2 ^ 63 → 0 <= rep < 2 ^ 63 →
  installed s0 s s' t rep a e m k →
  A64.code_at (overwrite (overwrite (bytes (world m)) a (reloc_img s0 t rep)) t (patch_img t rep))
    a (reloc_img s0 t rep).
Proof.
  intros I H Ht Hr J. pose proof (i_grants _ _ _ _ _ _ _ _ _ J) as G.
  pose proof (i_fits _ _ _ _ _ _ _ _ _ J) as Hfit. destruct (g_addr _ _ _ _ G) as (Ha1 & Ha2 & _).
  pose proof (overwrite_at (bytes (world m)) a (reloc_img s0 t rep) ltac:(lia) ltac:(lia)) as Hc.
  intros i b Hi. pose proof (lookup_lt_Some _ _ _ Hi). rewrite <- (Hc i b Hi).
  rewrite u64_id by (unfold is_u64; lia). apply overwrite_other.
  rewrite patch_img_length by lia. pose proof (patch_len_cases t rep).
  apply not_true_is_false. intros Hin. apply in_range_spec in Hin.
  apply (grants_apart s0 s m a k (a + Z.of_nat i) I G); [|lia].
  apply (h_program _ _ _ H). lia.
Qed.

Lemma installed_Inv s0 s s' t rep a e m k :
  Inv s0 s → hookable s0 s t → 0 < rep < 2 ^ 63 → installed s0 s s' t rep a e m k → Inv s0 s'.
Proof.
  intros I H Hr J. pose proof (h_addr _ _ _ H) as Ht.
  pose proof (i_entry _ _ _ _ _ _ _ _ _ J) as (Ee & Et & Es).
  pose proof (i_grants _ _ _ _ _ _ _ _ _ J) as G. pose proof (g_frame _ _ _ _ G) as F.
  pose proof (i_world _ _ _ _ _ _ _ _ _ J) as W. pose proof (patch_len_cases t rep) as Hc.
  assert (∀ x, patched e x → t <= x < t + 16) as Hpe by (intros x; unfold patched; lia).
  assert (∀ x, program s0 x → mapped (mem s) x) as Hm by (intros x Hx; by apply (Inv_program _ _ I)).
  split; rewrite ?(i_entries _ _ _ _ _ _ _ _ _ J).
  - pose proof (i_pages _ _ _ _ _ _ _ _ _ J) as Hp.
    assert (mem s' = mkAlloc (world (mem s')) (pages_ m)) as ->
      by (rewrite <- Hp; by destruct (mem s')).
    apply inv_world_le; [apply G|done].
  - intros x Hx. split; [apply (le_mapped _ _ W), (frame_mapped _ _ _ F), Hm, Hx|].
    unfold managed. rewrite (i_pages _ _ _ _ _ _ _ _ _ J). intros Hx'.
    destruct (Inv_program _ _ I x Hx) as [? Hn]. apply Hn.
    apply (g_outside _ _ _ _ G); [done|by apply Hm].
  - intros x Hx Hrd. apply (le_readable _ _ W). unfold readable.
    destruct (F x (Hm x Hx)) as [_ ->]. by apply (Inv_readable _ _ I).
  - rewrite fmap_app. apply NoDup_app. split_and!; [apply I| |apply NoDup_singleton].
    intros y Hy Hy'. apply list_elem_of_singleton in Hy' as ->. cbn in Hy. rewrite Et in Hy.
    by apply (Find_None (entries_ s) t) in Hy; [|eapply hookable_Find].
  - apply Forall_app. split; [apply I|]. by apply Forall_singleton.
  - intros l1 e1 l2 E e' x He' Hx Hx'.
    destruct l2 as [|e2 l2 _] using rev_ind.
    + apply app_inj_tail in E as [<- <-]. rewrite app_nil_r in He'.
      apply (h_clear _ _ _ H e' x He' Hx'). by apply Hpe.
    + rewrite app_comm_cons, app_assoc in E. apply app_inj_tail in E as [E <-].
      rewrite app_assoc, elem_of_app, list_elem_of_singleton in He'.
      destruct He' as [He'| ->]; [by eapply (Inv_apart _ _ I)|].
      apply (h_clear _ _ _ H e1 x); [rewrite E; apply elem_of_app; right; by left|done|].
      by apply Hpe.
  - intros x Hx Hp. rewrite (installed_program s0 s s' t rep a e m k x) by (done || lia).
    rewrite overwrite_other.
    + apply (Inv_bytes _ _ I); [done|]. intros e' He'. apply Hp, elem_of_app. by left.
    + rewrite patch_img_length by lia. apply in_range_false.
      assert (¬ patched e x) as Hne by (apply Hp, elem_of_app; right; by left).
      unfold patched in Hne. lia.
Qed.

(** ** Uninstalling *)

Lemma Inv_remove_bytes s0 s l1 e l2 w' :
  Inv s0 s → entries_ s = l1 ++ e :: l2 → world_le (world (mem s)) w' →
  bytes w' = overwrite (bytes (world (mem s))) (target_addr e)
               (take (Z.to_nat (saved_size e)) (saved_bytes e)) →
  Inv s0 (mkSys (mkAlloc w' (pages_ (mem s))) (l1 ++ l2)) ∧
  ∀ x, patched e x → bytes w' x = bytes (world s0) x.
Proof.
  intros I E W Hb. pose proof (Inv_entries _ _ I) as HE. rewrite E in HE.
  apply Forall_app in HE as [HE1 HE2]. apply Forall_cons in HE2 as [He HE2].
  pose proof (e_size _ _ He) as Hs. rewrite !elem_of_cons, elem_of_nil in Hs.
  assert (zlen (take (Z.to_nat (saved_size e)) (saved_bytes e)) = saved_size e) as Hl.
  { rewrite length_take, (e_len _ _ He). lia. }
  assert (∀ x, patched e x → bytes w' x = bytes (world s0) x) as Hrest.
  { intros x Hx. rewrite Hb. unfold overwrite. rewrite Hl.
    unfold patched in Hx. rewrite (proj2 (in_range_spec _ _ _)) by lia.
    rewrite lookup_take_lt by lia. rewrite (e_saved _ _ He) by lia. cbn. f_equal. lia. }
  split; [|done]. destruct I as [I1 I2 I3 I4 I5 I6 I7]. split; cbn.
  - by apply inv_world_le.
  - intros x Hx. destruct (I2 x Hx). split; [by apply (le_mapped _ _ W)|done].
  - intros x Hx Hr. apply (le_readable _ _ W). by apply I3.
  - rewrite E, fmap_app, fmap_cons in I4. rewrite fmap_app.
    by apply NoDup_remove_1 in I4 || (apply NoDup_app in I4 as (? & H1 & H2);
      apply NoDup_cons in H2 as [? ?]; apply NoDup_app; split_and!; [done| |done];
      intros y Hy Hy'; apply (H1 y Hy); by right).
  - by apply Forall_app.
  - intros k1 e1 k2 Ek e' x He' Hx.
    destruct (app_insert_middle l1 l2 k1 k2 e e1 Ek) as (j1 & j2 & Ej & Hj).
    eapply (I6 j1 e1 j2); [by rewrite E|by apply Hj|done].
  - intros x Hx Hp. destruct (decide (target_addr e <= x < target_addr e + saved_size e)) as [Hd|Hd].
    + by apply Hrest.
    + rewrite Hb, overwrite_other by (rewrite Hl; apply in_range_false; lia).
      apply I7; [done|]. intros e' He'. rewrite E, elem_of_app, elem_of_cons in He'.
      destruct He' as [He'|[-> |He']]; [apply Hp, elem_of_app; by left|exact Hd|].
      apply Hp, elem_of_app. by right.
Qed.

(** A refused removal: the entry moves to the end, marked inactive. *)
Lemma Inv_kept s0 s l1 e l2 w' :
  Inv s0 s → entries_ s = l1 ++ e :: l2 → world_le (world (mem s)) w' → bytes w' = bytes (world (mem s)) →
  Inv s0 (mkSys (mkAlloc w' (pages_ (mem s))) ((l1 ++ l2) ++ [set_inactive e])).
Proof.
  intros I E W Hb. destruct I as [I1 I2 I3 I4 I5 I6 I7].
  assert (∀ x, patched (set_inactive e) x ↔ patched e x) as Hpe by done.
  assert (∀ e' x, e' ∈ l1 ++ l2 → patched e x → ¬ patched e' x) as Hsep by (intros e' x He'; by apply (I6 l1 e l2)).
  assert (Permutation (entries_ s) (e :: l1 ++ l2)) as HP by (rewrite E; by rewrite Permutation_middle).
  split; cbn.
  - by apply inv_world_le.
  - intros x Hx. destruct (I2 x Hx). split; [by apply (le_mapped _ _ W)|done].
  - intros x Hx Hr. apply (le_readable _ _ W). by apply I3.
  - rewrite HP, fmap_cons in I4. apply NoDup_cons in I4 as [Hn Hd]. rewrite fmap_app. apply NoDup_app. split_and!; [done| |apply NoDup_singleton].
    intros y Hy Hy'. cbn in Hy'. apply list_elem_of_singleton in Hy' as ->. done.
  - rewrite HP in I5. apply Forall_cons in I5 as [He Hl]. apply Forall_app. split; [done|]. apply Forall_singleton. by destruct He.
  - intros k1 e1 k2 Ek e' x He' Hx Hx'. destruct k2 as [|e2 k2 _] using rev_ind.
    + apply app_inj_tail in Ek as [<- <-]. rewrite app_nil_r in He'. by apply (Hsep e' x He').
    + rewrite app_comm_cons, app_assoc in Ek. apply app_inj_tail in Ek as [Ek <-].
      destruct (app_insert_middle l1 l2 k1 k2 e e1 Ek) as (j1 & j2 & Ej & Hj).
      rewrite app_assoc, elem_of_app, list_elem_of_singleton in He'. destruct He' as [He'| ->].
      * eapply (I6 j1 e1 j2); [by rewrite E|by apply Hj|done|done].
      * apply (Hsep e1 x); [|done|done]. rewrite Ek, elem_of_app, elem_of_cons. auto.
  - intros x Hx Hp. rewrite Hb. apply I7; [done|]. intros e' He'. rewrite E, elem_of_app, elem_of_cons in He'.
    destruct He' as [He'|[-> |He']]; [apply Hp; rewrite !elem_of_app; auto| |apply Hp; rewrite !elem_of_app; auto].
    rewrite <- Hpe. apply Hp. rewrite elem_of_app. right. by left.
Qed.

(** Every outcome of an uninstallation of a registered target. *)
Record uninstalled (s0 : Alloc) (s s' : Sys) (t : Z) (e : HookEntry) : Prop := {
  u_inv : Inv s0 s';
  u_entries : entries_ s' = (Remove (entries_ s) t).1;
  u_gone : Find (entries_ s') t = None;
  u_restored : ∀ x, patched e x → bytes (world (mem s')) x = bytes (world s0) x
}.

Record kept (s0 : Alloc) (s s' : Sys) (t : Z) (e : HookEntry) : Prop := {
  k_inv : Inv s0 s';
  k_entries : entries_ s' = (Remove (entries_ s) t).1 ++ [set_inactive e];
  k_bytes : bytes (world (mem s')) = bytes (world (mem s));
  k_refused : refused (world (mem s)) t (saved_size e)
}.

Lemma HookUninstall_ok s0 s t :
  Inv s0 s → t ≠ 0 →
  match Find (entries_ s) t with
  | None => HookUninstall s t = Some (mkSys (mem s) (entries_ s), -2)
  | Some e => ∃ s' ret, HookUninstall s t = Some (s', ret) ∧
      ((ret = 0 ∧ uninstalled s0 s s' t e) ∨ (ret = -3 ∧ kept s0 s s' t e))
  end.
Proof.
  intros I Ht. unfold HookUninstall. rewrite (proj2 (Z.eqb_neq t 0)) by done.
  pose proof (Remove_Find (entries_ s) t) as HR.
  destruct (Find (entries_ s) t) as [e|] eqn:EF; [|by rewrite HR].
  destruct HR as (l1 & l2 & E & Et & Hni & ER). rewrite ER.
  pose proof (Inv_entries _ _ I) as HE. rewrite E in HE.
  apply Forall_app in HE as [_ HE]. apply Forall_cons in HE as [He _].
  pose proof (e_size _ _ He) as Hs. rewrite !elem_of_cons, elem_of_nil in Hs.
  pose proof (e_addr _ _ He) as Ha. pose proof page_size_range as Hps.
  destruct (PatchCode_ok (world (mem s)) t (saved_bytes e) (saved_size e)) as
    (w' & ret & -> & W & _ & Hret);
    [lia|rewrite (e_len _ _ He); lia|lia|
     intros x Hx; apply (Inv_program _ _ I), (e_program _ _ He); unfold patched; lia|].
  cbn [mbind option_bind]. destruct Hret as [(-> & Hb & Hw)|(-> & Hb & _)]; cbn [Z.eqb Pos.eqb negb]; eexists _, _; (split; [done|]).
  { right. split; [done|]. split; [by eapply Inv_kept|by rewrite ER|done|done]. }
  left. split; [done|]. destruct (Inv_remove_bytes s0 s l1 e l2 w' I E W) as [I' Hrest]; [by rewrite Et|].
  split; [done|by rewrite ER| |done].
  cbn. apply Find_None. pose proof (Inv_nodup _ _ I) as Hnd.
  rewrite E, fmap_app, fmap_cons in Hnd. rewrite fmap_app, elem_of_app. intros [Hin|Hin]; [done|].
  apply NoDup_app in Hnd as (_ & _ & Hnd). apply NoDup_cons in Hnd as [Hnd _]. by rewrite Et in Hnd.
Qed.

(** ** Properties *)

(** C7: what [HookInstall] does to a hookable function (16 readable bytes of
    user-space program memory, clear of other patches), whatever the kernel
    grants or refuses. It returns -4 when no memory is left and -6 when the
    kernel refuses to make the target writable, both with program memory and
    registrations as they were; or 0 and an address [orig] such that control
    arriving at the target goes to the replacement with only X17 changed, at
    [orig] stands in executable memory the relocated form of exactly the
    displaced instructions, program memory is unchanged outside the patch and
    the target is registered. It faults only if the kernel has refused to make
    the block for the relocated code writable, which the code does not check. *)
Theorem HookInstall_redirects s0 s t rep :
  Inv s0 s → hookable s0 s t → 0 < rep < 2 ^ 63 → (∀ x, is_u8 (bytes (world s0) x)) →
  match HookInstall s t rep false with
  | None => ∃ m a k, grants (mem s) m a k ∧ zlen (reloc_img s0 t rep) <= k ∧ refused (world m) a (zlen (reloc_img s0 t rep))
  | Some (s', ret, r) => Inv s0 s' ∧
      (((ret = -4 ∨ ret = -6 ∧ ∃ w, bytes w = bytes (world (mem s')) ∧ world_le w (world (mem s')) ∧ refused w t (patch_len t rep)) ∧ r = None ∧ entries_ s' = entries_ s ∧
        ∀ x, program s0 x → bytes (world (mem s')) x = bytes (world (mem s)) x) ∨
       (ret = 0 ∧ ∃ orig n, r = Some orig ∧ 4 * zlen (displaced s0 t rep) = n ∧
         (∀ st, A64.mem st = bytes (world (mem s')) → A64.pc st = t → Trampoline.jumped st rep) ∧
         words_bytes (displaced s0 t rep) = orig_bytes s0 t n ∧
         A64.code_at (bytes (world (mem s'))) orig (Relocator.reloc_image (displaced s0 t rep) t) ∧
         (∀ x, orig <= x < orig + zlen (reloc_img s0 t rep) → executable (world (mem s')) x = true) ∧
         (∀ x, program s0 x → ¬ (t <= x < t + n) →
            bytes (world (mem s')) x = bytes (world (mem s)) x) ∧
         Find (entries_ s') t ≠ None))
  end.
Proof.
  intros I H Hr Hu. pose proof (HookInstall_ok s0 s t rep I H Hr Hu) as Hres.
  destruct (HookInstall s t rep false) as [[[s' ret] r]|]; [|done]. pose proof (h_addr _ _ _ H) as Ht.
  destruct Hres as [(-> & -> & He & R)|[(-> & -> & a & m & k & B)|(-> & a & e & m & k & -> & J)]].
  { split; [by eapply refuses_Inv|]. left. split; [by left|]. split_and!; [done|done|].
    intros x Hx. apply (r_frame _ _ R). by apply (Inv_program _ _ I). }
  { destruct (abandoned_Inv _ _ _ _ _ _ _ _ I B) as [I' Hx]. split; [done|]. left. split; [right|].
    - split; [done|apply B].
    - split_and!; [done|apply B|done]. }
  split; [by eapply installed_Inv|]. right. split; [done|].
  pose proof (displaced_ok s0 t rep Hu) as (Hwl & _ & Hwb).
  exists a, (patch_len t rep). split_and!; [done|done|..].
  - intros st Hmem Hpc. apply (Trampoline.patch_block_jumps t rep ltac:(lia) ltac:(lia)); [|done].
    rewrite Hmem, (i_bytes _ _ _ _ _ _ _ _ _ J). apply (overwrite_at _ t (patch_img t rep)); [lia|].
    rewrite patch_img_length by lia. pose proof (patch_len_cases t rep). lia.
  - done.
  - rewrite (i_bytes _ _ _ _ _ _ _ _ _ J). eapply installed_reloc; done || lia.
  - intros x Hx. apply (le_executable _ _ (i_world _ _ _ _ _ _ _ _ _ J)).
    apply (g_exec _ _ _ _ (i_grants _ _ _ _ _ _ _ _ _ J)). pose proof (i_fits _ _ _ _ _ _ _ _ _ J). lia.
  - intros x Hx Hx'. rewrite (installed_program s0 s s' t rep a e m k x) by (done || lia).
    apply overwrite_other, in_range_false. rewrite patch_img_length by lia. lia.
  - rewrite (i_entries _ _ _ _ _ _ _ _ _ J), Find_None, fmap_app, elem_of_app. intros Hn. apply Hn.
    right. destruct (i_entry _ _ _ _ _ _ _ _ _ J) as (_ & <- & _). by left.
Qed.

(** C8: uninstalling restores the function, unless the kernel refuses. For a
    registered target [HookUninstall] returns 0, and then every patched byte is
    again what it was before any hook, the registration is gone and the others
    are kept; or it returns -3, and then the kernel refused to make the target
    writable, no byte has changed, and the entry is the last of the registry,
    marked inactive. *)
Theorem HookUninstall_restores s0 s t e :
  Inv s0 s → t ≠ 0 → Find (entries_ s) t = Some e →
  ∃ s' ret, HookUninstall s t = Some (s', ret) ∧
    ((ret = 0 ∧ uninstalled s0 s s' t e) ∨ (ret = -3 ∧ kept s0 s s' t e)).
Proof.
  intros I Ht E. pose proof (HookUninstall_ok s0 s t I Ht) as H. by rewrite E in H.
Qed.

(** *** Sequences of operations *)

Inductive hook_step (s0 : Alloc) : Sys → Sys → Prop :=
| step_install s t rep s' ret r :
    hookable s0 s t → 0 < rep < 2 ^ 63 →
    HookInstall s t rep false = Some (s', ret, r) → hook_step s0 s s'
| step_uninstall s t s' ret :
    HookUninstall s t = Some (s', ret) → hook_step s0 s s'.

Lemma Inv_init s0 : inv s0 → Inv s0 (mkSys s0 []).
Proof.
  intros I. split; cbn; try done; [constructor|]. intros l1 e l2 E. by destruct l1.
Qed.

Lemma hook_step_Inv s0 s s' :
  (∀ x, is_u8 (bytes (world s0) x)) → Inv s0 s → hook_step s0 s s' → Inv s0 s'.
Proof.
  intros Hu I Hst. revert I. destruct Hst as [s1 t rep s2 ret r H Hr E|s1 t s2 ret E]; intros I.
  - pose proof (HookInstall_ok s0 s1 t rep I H Hr Hu) as Hres. rewrite E in Hres.
    destruct Hres as [(_ & _ & He & R)|[(_ & _ & a & m & k & B)|(_ & a & e & m & k & _ & J)]];
      [by eapply refuses_Inv|by eapply abandoned_Inv|by eapply installed_Inv].
  - destruct (decide (t = 0)) as [->|Ht]; [by injection E as <- _|].
    pose proof (HookUninstall_ok s0 s1 t I Ht) as H. destruct (Find (entries_ s1) t).
    + destruct H as (s3 & ret3 & E3 & [[_ U]|[_ K]]); rewrite E in E3; injection E3 as <- <-; [apply U|apply K].
    + rewrite E in H. injection H as -> _. by destruct s1.
Qed.

(** C9: after any sequence of installations of hookable functions and
    uninstallations, in any order and whatever the kernel grants or refuses,
    the registry has no two entries for a target; the next installation faults
    only if the kernel refuses to make its block writable and the next
    uninstallation does not fault; every byte of program memory that no
    registered patch covers is what it was before the first hook; so once the
    registry is empty all program memory is. *)
Theorem hooks_reversible s0 s :
  inv s0 → (∀ x, is_u8 (bytes (world s0) x)) → rtc (hook_step s0) (mkSys s0 []) s →
  NoDup (target_addr <$> entries_ s) ∧
  (∀ t rep, hookable s0 s t → 0 < rep < 2 ^ 63 → HookInstall s t rep false = None →
     ∃ m a k, grants (mem s) m a k ∧ zlen (reloc_img s0 t rep) <= k ∧ refused (world m) a (zlen (reloc_img s0 t rep))) ∧
  (∀ t, HookUninstall s t ≠ None) ∧
  (∀ x, program s0 x → (∀ e, e ∈ entries_ s → ¬ patched e x) → bytes (world (mem s)) x = bytes (world s0) x) ∧
  (entries_ s = [] → ∀ x, program s0 x → bytes (world (mem s)) x = bytes (world s0) x).
Proof.
  intros I0 Hu Hsteps. assert (Inv s0 s) as I.
  { pose proof (Inv_init s0 I0) as I. induction Hsteps as [|s1 s2 s3 Hstep _ IH]; [done|].
    apply IH. by eapply hook_step_Inv. }
  split; [apply I|]. split; [|split; [|split]].
  - intros t rep H Hr E. pose proof (HookInstall_ok s0 s t rep I H Hr Hu) as Hres. by rewrite E in Hres.
  - intros t. destruct (decide (t = 0)) as [->|Ht]; [done|].
    pose proof (HookUninstall_ok s0 s t I Ht) as H. destruct (Find (entries_ s) t).
    + by destruct H as (? & ? & -> & _).
    + by rewrite H.
  - apply I.
  - intros E x Hx. apply (Inv_bytes _ _ I); [done|]. intros e He. rewrite E in He.
    by apply elem_of_nil in He.
Qed.

End with_os.

(** ** Error codes, on any kernel *)

(** [HookUninstall] on every branch, whatever the kernel answers: a null
    target is -1, an unregistered one -2, both leaving memory and registry as
    they are; for a registered target of at least one and at most 32 saved
    bytes it returns 0 with the entry removed, or -3 with memory bytes
    unchanged and the entry moved to the end of the registry, marked inactive. *)
Theorem HookUninstall_codes `{OSLaws} s t :
  (t = 0 → HookUninstall s t = Some (s, -1)) ∧
  (t ≠ 0 → Find (entries_ s) t = None → HookUninstall s t = Some (s, -2)) ∧
  (∀ e, 0 < t → Find (entries_ s) t = Some e → 0 < saved_size e <= zlen (saved_bytes e) →
    t + saved_size e + page_size <= 2 ^ 64 →
    (∀ x, patched e x → mapped (mem s) x) →
    ∃ s' ret, HookUninstall s t = Some (s', ret) ∧
      ((ret = 0 ∧ entries_ s' = (Remove (entries_ s) t).1) ∨
       (ret = -3 ∧ bytes (world (mem s')) = bytes (world (mem s)) ∧
        entries_ s' = (Remove (entries_ s) t).1 ++ [set_inactive e] ∧
        Find (entries_ s') t ≠ None))).
Proof.
  unfold HookUninstall. split_and!.
  - by intros ->.
  - intros Ht E. rewrite (proj2 (Z.eqb_neq t 0)) by done.
    pose proof (Remove_Find (entries_ s) t) as HR. rewrite E in HR. rewrite HR. by destruct s.
  - intros e Ht E Hs Hl Hm. rewrite (proj2 (Z.eqb_neq t 0)) by lia.
    pose proof (Remove_Find (entries_ s) t) as HR. rewrite E in HR.
    destruct HR as (l1 & l2 & El & Et & Hni & HR). rewrite HR. cbn [fst].
    destruct (PatchCode_ok (world (mem s)) t (saved_bytes e) (saved_size e)) as
      (w' & ret & -> & _ & _ & Hret); [lia|lia|lia|intros x Hx; apply Hm; unfold patched; lia|].
    cbn [mbind option_bind]. destruct Hret as [(-> & Hb & _)|(-> & Hb & _)]; cbn [Z.eqb negb Pos.eqb].
    + do 2 eexists. split; [done|]. right. split_and!; [done|done|done|].
      cbn. unfold Add. rewrite Find_None, fmap_app, elem_of_app. intros Hn. apply Hn. right.
      cbn. rewrite Et. by left.
    + do 2 eexists. split; [done|]. by left.
Qed.

Definition demo_sys : Sys := mkSys (mkAlloc demo_world []) [].

Lemma demo_inv : @inv demo_os (mem demo_sys).
Proof. split; [constructor|constructor|]. intros x (p & Hp & _). by apply elem_of_nil in Hp. Qed.

Lemma demo_bytes x : is_u8 (bytes demo_world x).
Proof. cbn. unfold is_u8. pose proof (Z.mod_pos_bound x 251). lia. Qed.

Lemma demo_Inv : @Inv demo_os (mem demo_sys) demo_sys.
Proof.
  apply (@Inv_init demo_os demo_os_laws demo_maps_laws), demo_inv.
Qed.

Lemma demo_hookable s : entries_ s = [] → hookable (mem demo_sys) s 0x10000.
Proof.
  intros E. split; [lia| |].
  - intros x Hx. assert (perms demo_world x = Some PROT_RX) as Hp.
    { cbn. by rewrite (proj2 (in_range_spec _ _ _)) by lia. }
    unfold program, mapped, readable. cbn [mem demo_sys world]. rewrite Hp. split_and!; [done| |done].
    intros (p & Hin & _). by apply elem_of_nil in Hin.
  - intros e x He. rewrite E in He. by apply elem_of_nil in He.
Qed.

Lemma HookUninstall_codes_witness :
  @HookUninstall demo_os demo_sys 0x10000 = Some (demo_sys, -2).
Proof.
  destruct (@HookUninstall_codes demo_os demo_os_laws demo_sys 0x10000) as (_ & H & _).
  apply H; done.
Defined.

(** A hook on the demonstration kernel. *)
Lemma demo_install_code : (λ x, x.1.2) <$> @HookInstall demo_os demo_sys 0x10000 0x10800 false = Some 0.
Proof. vm_compute. reflexivity. Qed.

Lemma HookInstall_redirects_witness :
  ∃ s' orig, @HookInstall demo_os demo_sys 0x10000 0x10800 false = Some (s', 0, Some orig) ∧
    ∀ st, A64.mem st = bytes (world (mem s')) → A64.pc st = 0x10000 →
      Trampoline.jumped st 0x10800.
Proof.
  pose proof (@HookInstall_redirects demo_os demo_os_laws demo_maps_laws
    (mem demo_sys) demo_sys 0x10000 0x10800 demo_Inv (demo_hookable demo_sys eq_refl) ltac:(lia) demo_bytes) as H.
  pose proof demo_install_code as Hc. destruct (@HookInstall demo_os demo_sys 0x10000 0x10800 false) as [[[s' ret] r]|]; [|discriminate Hc].
  injection Hc as ->. destruct H as (_ & [([H|[H _]] & _)|(_ & orig & n & -> & _ & H & _)]); [lia|lia|].
  exists s', orig. split; [reflexivity|exact H].
Defined.

(** A system with one hook. *)
Lemma demo_installed :
  ∃ s e, hook_step (O := demo_os) (mem demo_sys) demo_sys s ∧
    Inv (O := demo_os) (mem demo_sys) s ∧ Find (entries_ s) 0x10000 = Some e.
Proof.
  pose proof (@HookInstall_ok demo_os demo_os_laws demo_maps_laws
    (mem demo_sys) demo_sys 0x10000 0x10800 demo_Inv (demo_hookable demo_sys eq_refl) ltac:(lia) demo_bytes) as H.
  pose proof demo_install_code as Hc. destruct (@HookInstall demo_os demo_sys 0x10000 0x10800 false) as [[[s' ret] r]|] eqn:E; [|discriminate Hc].
  injection Hc as ->. destruct H as [(H & _)|[(H & _)|(_ & a & e & m & k & _ & J)]]; [lia|lia|].
  exists s', e. split_and!.
  - apply (@step_install demo_os _ _ 0x10000 0x10800 s' 0 r); [by apply demo_hookable|lia|exact E].
  - apply (@installed_Inv demo_os demo_os_laws demo_maps_laws _ demo_sys s'
      0x10000 0x10800 a e m k); [exact demo_Inv|by apply demo_hookable|lia|exact J].
  - rewrite (i_entries _ _ _ _ _ _ _ _ _ J). cbn.
    destruct (i_entry _ _ _ _ _ _ _ _ _ J) as (_ & -> & _). done.
Qed.

Lemma HookUninstall_restores_witness :
  ∃ s s' ret e, Find (entries_ s) 0x10000 = Some e ∧ @HookUninstall demo_os s 0x10000 = Some (s', ret) ∧
    (ret = 0 ∧ uninstalled (O := demo_os) (mem demo_sys) s s' 0x10000 e ∨ ret = -3 ∧ kept (O := demo_os) (mem demo_sys) s s' 0x10000 e).
Proof.
  destruct demo_installed as (s & e & _ & I & F).
  destruct (@HookUninstall_restores demo_os demo_os_laws demo_maps_laws
    (mem demo_sys) s 0x10000 e I ltac:(lia) F) as (s' & ret & E & H).
  exists s, s', ret, e. split; [exact F|]. split; [exact E|exact H].
Defined.

Lemma hooks_reversible_witness :
  ∃ s, NoDup (target_addr <$> entries_ s) ∧ entries_ s ≠ [] ∧
    @HookUninstall demo_os s 0x10000 ≠ None.
Proof.
  destruct demo_installed as (s & e & Hs & _ & F). exists s.
  destruct (@hooks_reversible demo_os demo_os_laws demo_maps_laws (mem demo_sys) s
    demo_inv demo_bytes (rtc_once _ _ Hs)) as (H1 & _ & H2 & _).
  split; [exact H1|]. split; [|apply H2]. intros E. by rewrite E in F.
Defined.

(** A kernel that grants no write access: an installation faults. *)
Definition strict_os : OS := {|
  page_size := 4096;
  mprotect w a n p := (w, false);
  mmap := demo_mmap;
  proc_maps := demo_proc_maps
|}.

Example install_faults : @HookInstall strict_os demo_sys 0x10000 0x10800 false = None.
Proof. vm_compute. reflexivity. Qed.

End HookApi.
