(* ===== verification/XzCrc32.v ===== *)
(** * CRC32 ([hook_sdk/src/xz/xz_crc32.c])

    The table-driven CRC the .xz container uses, its equivalence with the
    bit-serial division by the IEEE 802.3 polynomial, and the property the
    stream decoder relies on: a CRC can be computed piece by piece. *)

From S2P Require Import Prelude.

Module XzCrc32.

(** One step of the inner loop of [xz_crc32_init]:
    [r = (r >> 1) ^ (poly & ~((r & 1) - 1))]. *)
Definition poly : Z := 0xEDB88320.

Definition crc_shift (r : Z) : Z := (r >> 1) .^ (poly .& not32 (u32 ((r .& 1) - 1))).

Definition table_entry (i : Z) : Z := Nat.iter 8 crc_shift i.

(** [xz_crc32_init]: the table. *)
Definition xz_crc32_init : list Z := table_entry <$> seqZ 0 256.

(** The loop of [xz_crc32]; [None] is a read outside the table. *)
Fixpoint crc_loop (table : list Z) (buf : list Z) (crc : Z) : option Z :=
  match buf with
  | [] => Some crc
  | b :: buf =>
      t ← aget table (b .^ (crc .& 0xFF));
      crc_loop table buf (t .^ (crc >> 8))
  end.

Definition xz_crc32_table (table : list Z) (buf : list Z) (crc : Z) : option Z :=
  crc ← crc_loop table buf (not32 crc); Some (not32 crc).

(** With the table [xz_crc32_init] computed, as a total function on bytes
    (on bytes the lookup is always inside the table, so the default is never taken). *)
Definition xz_crc32 (buf : list Z) (crc : Z) : Z :=
  default 0 (xz_crc32_table xz_crc32_init buf crc).

(** ** Reference: bit-serial division *)

(** One message byte, least significant bit first. *)
Definition crc_byte (crc b : Z) : Z := Nat.iter 8 crc_shift (crc .^ b).

Definition crc32_spec (buf : list Z) (crc : Z) : Z :=
  not32 (foldl crc_byte (not32 crc) buf).

(** ** Equivalence *)

Lemma crc_shift_odd r : crc_shift r = if Z.odd r then (r >> 1) .^ poly else r >> 1.
Proof.
  unfold crc_shift. assert (r .& 1 = r mod 2) as -> by (apply (land_ones_mod r 1); lia).
  rewrite Zmod_odd. destruct (Z.odd r).
  - change (not32 (u32 (1 - 1))) with (2 ^ 32 - 1). by rewrite land_ones_mod.
  - change (not32 (u32 (0 - 1))) with 0. by rewrite Z.land_0_r, Z.lxor_0_r.
Qed.

Lemma crc_shift_lxor a b : crc_shift (a .^ b) = crc_shift a .^ crc_shift b.
Proof.
  rewrite !crc_shift_odd, <- !Z.bit0_odd, Z.lxor_spec, !Z.bit0_odd, Z.shiftr_lxor.
  destruct (Z.odd a), (Z.odd b); cbn [xorb];
    apply Z.bits_inj; intros i; autorewrite with bits; btauto.Btauto.btauto.
Qed.

Lemma crc_shift_range r : 0 <= r < 2 ^ 32 → 0 <= crc_shift r < 2 ^ 32.
Proof.
  intros Hr. rewrite crc_shift_odd.
  assert (0 <= r >> 1 < 2 ^ 32) by (rewrite Z.shiftr_div_pow2 by lia; zmod_lia).
  destruct (Z.odd r); [apply lxor_range; unfold poly; lia|lia].
Qed.

Lemma iter_shift_lxor n a b :
  Nat.iter n crc_shift (a .^ b) = Nat.iter n crc_shift a .^ Nat.iter n crc_shift b.
Proof. induction n as [|n IH]; [done|]. by rewrite !Nat.iter_succ, IH, crc_shift_lxor. Qed.

(** Shifting out [n] zero bits only moves the value down. *)
Lemma iter_shift_zeros n x :
  0 <= x → Nat.iter n crc_shift (x << Z.of_nat n) = x.
Proof.
  revert x. induction n as [|n IH]; intros x Hx; [apply Z.shiftl_0_r|].
  rewrite Nat.iter_succ_r, crc_shift_odd.
  assert (x << Z.of_nat (S n) = 2 * (x << Z.of_nat n)) as ->.
  { rewrite !Z.shiftl_mul_pow2, Nat2Z.inj_succ, Z.pow_succ_r by lia. lia. }
  rewrite Z.odd_mul. cbn [Z.odd andb].
  rewrite Z.shiftr_div_pow2 by lia. change (2 ^ 1) with 2.
  rewrite Z.mul_comm, Z.div_mul by lia. auto.
Qed.

(** The table step equals eight bit-serial steps. *)
Lemma table_step crc b :
  0 <= crc < 2 ^ 32 → is_u8 b →
  table_entry (b .^ (crc .& 0xFF)) .^ (crc >> 8) = crc_byte crc b.
Proof.
  intros Hc Hb. unfold crc_byte, table_entry.
  assert (crc .^ b = (b .^ (crc .& 0xFF)) .^ ((crc >> 8) << 8)) as ->.
  { apply Z.bits_inj'. intros i Hi. change 0xFF with (2 ^ 8 - 1). rewrite land_ones_mod by lia.
    autorewrite with bits. rewrite (proj2 (Z.leb_le 0 i)) by done.
    destruct (Z.ltb_spec i 8).
    - rewrite (proj2 (Z.leb_gt 0 (i - 8))) by lia. cbn.
      by rewrite xorb_false_r, xorb_comm.
    - rewrite (testbit_high b 8) by (unfold is_u8 in Hb; lia).
      rewrite (proj2 (Z.leb_le 0 (i - 8))) by lia. cbn.
      rewrite xorb_false_r. f_equal. lia. }
  pose proof (iter_shift_zeros 8 (crc >> 8)) as E. change (Z.of_nat 8) with 8 in E.
  rewrite (iter_shift_lxor 8 (b .^ (crc .& 0xFF)) ((crc >> 8) << 8)), E; [done|]. apply Z.shiftr_nonneg. lia.
Qed.

Lemma iter_shift_range n r : 0 <= r < 2 ^ 32 → 0 <= Nat.iter n crc_shift r < 2 ^ 32.
Proof.
  intros. induction n; [done|]. rewrite Nat.iter_succ. by apply crc_shift_range.
Qed.

Lemma crc_byte_range crc b : 0 <= crc < 2 ^ 32 → is_u8 b → 0 <= crc_byte crc b < 2 ^ 32.
Proof.
  intros Hc Hb. apply iter_shift_range, lxor_range; [done|]. unfold is_u8 in Hb. lia.
Qed.

Lemma not32_range x : 0 <= not32 x < 2 ^ 32.
Proof. unfold not32. pose proof (u32_range x). unfold is_u32 in *. lia. Qed.

Lemma not32_not32 x : is_u32 x → not32 (not32 x) = x.
Proof.
  intros Hx. unfold not32 at 1. rewrite (u32_id (not32 x)) by apply not32_range.
  unfold not32. rewrite u32_id by done. lia.
Qed.

Lemma crc_loop_spec buf crc :
  0 <= crc < 2 ^ 32 → Forall is_u8 buf →
  crc_loop xz_crc32_init buf crc = Some (foldl crc_byte crc buf) ∧
  0 <= foldl crc_byte crc buf < 2 ^ 32.
Proof.
  intros Hc Hb. revert crc Hc. induction Hb as [|b buf Hb _ IH]; intros crc Hc; [done|].
  cbn [crc_loop foldl].
  assert (0 <= b .^ (crc .& 0xFF) < 256) as Hi.
  { apply (lxor_range _ _ 8); [done|]. rewrite Z.land_comm. apply land_range. lia. }
  assert (aget xz_crc32_init (b .^ (crc .& 0xFF)) = Some (table_entry (b .^ (crc .& 0xFF)))) as ->.
  { unfold aget, xz_crc32_init. rewrite (proj2 (Z.leb_le 0 _)) by lia.
    rewrite list_lookup_fmap, lookup_seqZ_lt by lia. cbn [fmap option_fmap option_map].
    do 2 f_equal. lia. }
  cbn [mbind option_bind]. rewrite table_step by done. apply IH. by apply crc_byte_range.
Qed.

Lemma xz_crc32_eq buf crc : Forall is_u8 buf → xz_crc32 buf crc = crc32_spec buf crc.
Proof.
  intros Hb. unfold xz_crc32, xz_crc32_table.
  destruct (crc_loop_spec buf (not32 crc)) as [-> _]; [apply not32_range|done|]. done.
Qed.

Lemma xz_crc32_range buf crc : is_u32 (xz_crc32 buf crc).
Proof.
  unfold xz_crc32, xz_crc32_table. destruct (crc_loop _ _ _); cbn; [apply not32_range|].
  unfold is_u32. lia.
Qed.

Lemma crc32_spec_app b1 b2 crc :
  Forall is_u8 b1 → crc32_spec (b1 ++ b2) crc = crc32_spec b2 (crc32_spec b1 crc).
Proof.
  intros Hb. unfold crc32_spec. rewrite not32_not32, foldl_app; [done|].
  apply (crc_loop_spec b1 (not32 crc)); [apply not32_range|done].
Qed.

Lemma xz_crc32_app b1 b2 crc :
  Forall is_u8 b1 → Forall is_u8 b2 →
  xz_crc32 (b1 ++ b2) crc = xz_crc32 b2 (xz_crc32 b1 crc).
Proof.
  intros H1 H2. rewrite !xz_crc32_eq by (try apply Forall_app; done). by apply crc32_spec_app.
Qed.

(** C11: the table-driven CRC never reads outside its table, equals the
    bit-serial remainder modulo the IEEE 802.3 polynomial for every message
    and starting value, and can be computed piecewise, which is how
    [dec_block] and [index_update] use it. *)
Theorem xz_crc32_correct b1 b2 crc :
  Forall is_u8 b1 → Forall is_u8 b2 →
  xz_crc32_table xz_crc32_init b1 crc = Some (crc32_spec b1 crc) ∧
  xz_crc32 (b1 ++ b2) crc = xz_crc32 b2 (xz_crc32 b1 crc).
Proof.
  intros H1 H2. split; [|by apply xz_crc32_app]. unfold xz_crc32_table.
  destruct (crc_loop_spec b1 (not32 crc)) as [-> _]; [apply not32_range|done|]. done.
Qed.

(** The standard check value, of the ASCII string 123456789. *)
Lemma xz_crc32_correct_witness :
  xz_crc32_table xz_crc32_init [49; 50; 51; 52; 53; 54; 55; 56; 57] 0 = Some 0xCBF43926 ∧
  Forall is_u8 [49; 50; 51; 52; 53; 54; 55; 56; 57].
Proof.
  assert (Forall is_u8 [49; 50; 51; 52; 53; 54; 55; 56; 57]) as H
    by (repeat (apply Forall_cons_2; [unfold is_u8; lia|]); apply Forall_nil_2).
  destruct (xz_crc32_correct [49; 50; 51; 52; 53; 54; 55; 56; 57] [] 0 H (Forall_nil_2 _)) as [E _].
  split; [|exact H]. rewrite E. vm_compute. done.
Defined.

End XzCrc32.
