(* ===== verification/XzLzma.v ===== *)
(** * Dictionary, range decoder and LZMA decoder
    ([hook_sdk/src/xz/xz_lzma2.h], [xz_dec_lzma2.c])

    The part of the decoder that turns range-coded bits into dictionary
    operations, in the configuration of [xz_config.h]: multi-call mode with a
    dynamically allocated dictionary. An array access outside its object (the
    dictionary, the input, or one of the probability arrays) is [None], and so
    is a loop that runs out of fuel; a result [Some _] thus says that the C
    code is free of both. *)

From S2P Require Import Prelude.

Module XzLzma.

(** ** Buffers ([struct xz_buf] of [xz.h]); the sizes are the list lengths *)

Record xz_buf : Set := mk_xz_buf {
  in_ : list Z;
  in_pos : Z;
  out : list Z;
  out_pos : Z
}.

Definition in_size (b : xz_buf) : Z := zlen (in_ b).
Definition out_size (b : xz_buf) : Z := zlen (out b).

Definition set_in_pos (b : xz_buf) (p : Z) : xz_buf := mk_xz_buf (in_ b) p (out b) (out_pos b).

(** [b->in[b->in_pos++]]. *)
Definition next_in (b : xz_buf) : option (Z * xz_buf) :=
  x ← aget (in_ b) (in_pos b); Some (x, set_in_pos b (u64 (in_pos b + 1))).

Definition min_ (a b : Z) : Z := if a <? b then a else b.

(** ** Dictionary *)

Record dictionary : Set := mk_dictionary {
  buf : list Z;
  start : Z;
  pos : Z;
  full : Z;
  limit : Z;
  end_ : Z;
  size : Z;
  size_max : Z;
  allocated : Z
}.

Definition dict_reset (d : dictionary) : dictionary :=
  mk_dictionary (buf d) 0 0 0 0 (end_ d) (size d) (size_max d) (allocated d).

Definition set_limit (d : dictionary) (l : Z) : dictionary :=
  mk_dictionary (buf d) (start d) (pos d) (full d) l (end_ d) (size d) (size_max d) (allocated d).

Definition dict_limit (d : dictionary) (out_max : Z) : dictionary :=
  if u64 (end_ d - pos d) <=? out_max then set_limit d (end_ d)
  else set_limit d (u64 (pos d + out_max)).

Definition dict_has_space (d : dictionary) : bool := pos d <? limit d.

Definition dict_get (d : dictionary) (dist : Z) : option Z :=
  let offset := u64 (pos d - dist - 1) in
  let offset := if pos d <=? dist then u64 (offset + end_ d) else offset in
  if 0 <? full d then aget (buf d) offset else Some 0.

(** The new contents and position, with [full] raised to the position. *)
Definition advance (d : dictionary) (bs : list Z) (p : Z) : dictionary :=
  mk_dictionary bs (start d) p (if full d <? p then p else full d)
    (limit d) (end_ d) (size d) (size_max d) (allocated d).

Definition dict_put (d : dictionary) (byte : Z) : option dictionary :=
  bs ← aset (buf d) (pos d) byte;
  Some (advance d bs (u64 (pos d + 1))).

(** [n] rounds of [buf[pos++] = buf[back++]; if (back == end) back = 0;]. *)
Fixpoint repeat_loop (n : nat) (bs : list Z) (p back e : Z) : option (list Z * Z) :=
  match n with
  | O => Some (bs, p)
  | S n =>
      x ← aget bs back;
      bs ← aset bs p x;
      let back := u64 (back + 1) in
      repeat_loop n bs (u64 (p + 1)) (if back =? e then 0 else back) e
  end.

(** The [do ... while (--left > 0)] loop runs [left] times, and [2^32] times
    for [left = 0]. Result: success, the dictionary and the new [*len]. *)
Definition dict_repeat (d : dictionary) (len dist : Z) : option (bool * dictionary * Z) :=
  if (full d <=? dist) || (size d <=? dist) then Some (false, d, len)
  else
    let left := u32 (min_ (u64 (limit d - pos d)) len) in
    let len := u32 (len - left) in
    let back := u64 (pos d - dist - 1) in
    let back := if pos d <=? dist then u64 (back + end_ d) else back in
    '(bs, p) ← repeat_loop (Z.to_nat (if left =? 0 then 2 ^ 32 else left)) (buf d) (pos d) back (end_ d);
    Some (true, advance d bs p, len).

(** One round of [dict_uncompressed]: copy to the dictionary and the output. *)
Definition uncompressed_step (d : dictionary) (b : xz_buf) (left : Z) :
  option (dictionary * xz_buf * Z) :=
  let copy_size := min_ (u64 (in_size b - in_pos b)) (u64 (out_size b - out_pos b)) in
  let copy_size :=
    if u64 (end_ d - pos d) <? copy_size then u64 (end_ d - pos d) else copy_size in
  let copy_size := if left <? copy_size then left else copy_size in
  let left := u32 (left - copy_size) in
  src ← slice (in_ b) (in_pos b) copy_size;
  bs ← splice (buf d) (pos d) src;
  let d := advance d bs (u64 (pos d + copy_size)) in
  let p := if pos d =? end_ d then 0 else pos d in
  o ← splice (out b) (out_pos b) src;
  Some (mk_dictionary (buf d) p p (full d) (limit d) (end_ d) (size d) (size_max d) (allocated d),
        mk_xz_buf (in_ b) (u64 (in_pos b + copy_size)) o (u64 (out_pos b + copy_size)), left).

Fixpoint uncompressed_loop (fuel : nat) (d : dictionary) (b : xz_buf) (left : Z) :
  option (dictionary * xz_buf * Z) :=
  match fuel with
  | O => None
  | S fuel =>
      if (0 <? left) && (in_pos b <? in_size b) && (out_pos b <? out_size b) then
        '(d, b, rest) ← uncompressed_step d b left;
        uncompressed_loop fuel d b rest
      else Some (d, b, left)
  end.

Definition dict_uncompressed (d : dictionary) (b : xz_buf) (left : Z) :
  option (dictionary * xz_buf * Z) :=
  uncompressed_loop (S (Z.to_nat left)) d b left.

Definition dict_flush (d : dictionary) (b : xz_buf) : option (dictionary * xz_buf * Z) :=
  let copy_size := u64 (pos d - start d) in
  let p := if pos d =? end_ d then 0 else pos d in
  src ← slice (buf d) (start d) copy_size;
  o ← splice (out b) (out_pos b) src;
  Some (mk_dictionary (buf d) p p (full d) (limit d) (end_ d) (size d) (size_max d) (allocated d),
        mk_xz_buf (in_ b) (in_pos b) o (u64 (out_pos b + copy_size)), u32 copy_size).

(** ** Range decoder *)

Definition RC_TOP_VALUE : Z := 1 << 24.
Definition RC_SHIFT_BITS : Z := 8.
Definition RC_BIT_MODEL_TOTAL_BITS : Z := 11.
Definition RC_BIT_MODEL_TOTAL : Z := 1 << RC_BIT_MODEL_TOTAL_BITS.
Definition RC_MOVE_BITS : Z := 5.
Definition RC_INIT_BYTES : Z := 5.

(** [rc_in] is the buffer the decoder reads, [temp.buf] or the caller's. *)
Record rc_dec : Set := mk_rc_dec {
  range : Z;
  code : Z;
  init_bytes_left : Z;
  rc_in : list Z;
  rc_in_pos : Z;
  in_limit : Z
}.

Definition rc_reset (r : rc_dec) : rc_dec :=
  mk_rc_dec (2 ^ 32 - 1) 0 RC_INIT_BYTES (rc_in r) (rc_in_pos r) (in_limit r).

(** The loop of [rc_read_init], [n] bytes left to read. *)
Fixpoint read_init_loop (n : nat) (r : rc_dec) (b : xz_buf) : option (bool * rc_dec * xz_buf) :=
  match n with
  | O => Some (true, r, b)
  | S n =>
      if in_pos b =? in_size b then Some (false, r, b)
      else
        '(x, b) ← next_in b;
        read_init_loop n
          (mk_rc_dec (range r) (u32 (u32 (code r << 8) + x)) (u32 (init_bytes_left r - 1))
             (rc_in r) (rc_in_pos r) (in_limit r)) b
  end.

Definition rc_read_init (r : rc_dec) (b : xz_buf) : option (bool * rc_dec * xz_buf) :=
  read_init_loop (Z.to_nat (init_bytes_left r)) r b.

Definition rc_limit_exceeded (r : rc_dec) : bool := in_limit r <? rc_in_pos r.
Definition rc_is_finished (r : rc_dec) : bool := code r =? 0.

Definition set_range_code (r : rc_dec) (rg c : Z) : rc_dec :=
  mk_rc_dec rg c (init_bytes_left r) (rc_in r) (rc_in_pos r) (in_limit r).

Definition rc_normalize (r : rc_dec) : option rc_dec :=
  if range r <? RC_TOP_VALUE then
    x ← aget (rc_in r) (rc_in_pos r);
    Some (mk_rc_dec (u32 (range r << RC_SHIFT_BITS)) (u32 (u32 (code r << RC_SHIFT_BITS) + x))
            (init_bytes_left r) (rc_in r) (u64 (rc_in_pos r + 1)) (in_limit r))
  else Some r.

(** A probability array: [len] entries from index [off] on of [lzma.probs]. *)
Record parr : Set := mk_parr { off : Z; len_ : Z }.

(** [rc_bit(rc, &probs[i])] with [probs] the array [a]. *)
Definition rc_bit (r : rc_dec) (ps : list Z) (a : parr) (i : Z) : option (bool * rc_dec * list Z) :=
  r ← rc_normalize r;
  if (0 <=? i) && (i <? len_ a) then
    prob ← aget ps (off a + i);
    let bound := u32 ((range r >> RC_BIT_MODEL_TOTAL_BITS) * prob) in
    if code r <? bound then
      ps ← aset ps (off a + i) (u16 (prob + ((RC_BIT_MODEL_TOTAL - prob) >> RC_MOVE_BITS)));
      Some (false, set_range_code r bound (code r), ps)
    else
      ps ← aset ps (off a + i) (u16 (prob - (prob >> RC_MOVE_BITS)));
      Some (true, set_range_code r (u32 (range r - bound)) (u32 (code r - bound)), ps)
  else None.

(** [do { symbol = 2 * symbol + bit } while (symbol < limit)]; [n] is fuel. *)
Fixpoint bittree_loop (n : nat) (r : rc_dec) (ps : list Z) (a : parr) (lim symbol : Z) :
  option (Z * rc_dec * list Z) :=
  match n with
  | O => None
  | S n =>
      '(bit, r, ps) ← rc_bit r ps a symbol;
      let symbol := if (bit : bool) then u32 (u32 (symbol << 1) + 1) else u32 (symbol << 1) in
      if symbol <? lim then bittree_loop n r ps a lim symbol else Some (symbol, r, ps)
  end.

Definition rc_bittree (r : rc_dec) (ps : list Z) (a : parr) (lim : Z) : option (Z * rc_dec * list Z) :=
  bittree_loop 32 r ps a lim 1.

(** [limit] rounds; [base] is added to the symbol to form the index, since
    the caller passes a pointer into the middle of an array. *)
Fixpoint reverse_loop (n : nat) (r : rc_dec) (ps : list Z) (a : parr) (base i symbol dest : Z) :
  option (Z * rc_dec * list Z) :=
  match n with
  | O => Some (dest, r, ps)
  | S n =>
      '(bit, r, ps) ← rc_bit r ps a (base + symbol);
      let '(symbol, dest) :=
        if (bit : bool) then (u32 (u32 (symbol << 1) + 1), u32 (dest + u32 (1 << i)))
        else (u32 (symbol << 1), dest) in
      reverse_loop n r ps a base (i + 1) symbol dest
  end.

Definition rc_bittree_reverse (r : rc_dec) (ps : list Z) (a : parr) (base dest lim : Z) :
  option (Z * rc_dec * list Z) :=
  reverse_loop (Z.to_nat (if lim =? 0 then 1 else lim)) r ps a base 0 1 dest.

Fixpoint direct_loop (n : nat) (r : rc_dec) (dest : Z) : option (Z * rc_dec) :=
  match n with
  | O => Some (dest, r)
  | S n =>
      r ← rc_normalize r;
      let rg := range r >> 1 in
      let c := u32 (code r - rg) in
      let mask := u32 (0 - (c >> 31)) in
      direct_loop n (set_range_code r rg (u32 (c + (rg .& mask))))
        (u32 (u32 (dest << 1) + u32 (mask + 1)))
  end.

(** [do ... while (--limit > 0)]: [2^32] rounds for [limit = 0]. *)
Definition rc_direct (r : rc_dec) (dest lim : Z) : option (Z * rc_dec) :=
  direct_loop (Z.to_nat (if lim =? 0 then 2 ^ 32 else lim)) r dest.

(** ** LZMA ([xz_lzma2.h]) *)

(** [enum lzma_state]: the code computes with the values. *)
Definition STATE_LIT_LIT : Z := 0.
Definition STATE_SHORTREP_LIT_LIT : Z := 3.
Definition STATE_LIT_MATCH : Z := 7.
Definition STATE_LIT_LONGREP : Z := 8.
Definition STATE_LIT_SHORTREP : Z := 9.
Definition STATE_NONLIT_MATCH : Z := 10.
Definition STATE_NONLIT_REP : Z := 11.
Definition STATES : Z := 12.
Definition LIT_STATES : Z := 7.

Definition lzma_state_literal (state : Z) : Z :=
  if state <=? STATE_SHORTREP_LIT_LIT then STATE_LIT_LIT
  else if state <=? STATE_LIT_SHORTREP then state - 3 else state - 6.
Definition lzma_state_match (state : Z) : Z :=
  if state <? LIT_STATES then STATE_LIT_MATCH else STATE_NONLIT_MATCH.
Definition lzma_state_long_rep (state : Z) : Z :=
  if state <? LIT_STATES then STATE_LIT_LONGREP else STATE_NONLIT_REP.
Definition lzma_state_short_rep (state : Z) : Z :=
  if state <? LIT_STATES then STATE_LIT_SHORTREP else STATE_NONLIT_REP.
Definition lzma_state_is_literal (state : Z) : bool := state <? LIT_STATES.

Definition POS_STATES_MAX : Z := 16.
Definition LITERAL_CODER_SIZE : Z := 0x300.
Definition LITERAL_CODERS_MAX : Z := 16.
Definition MATCH_LEN_MIN : Z := 2.
Definition LEN_LOW_SYMBOLS : Z := 8.
Definition LEN_MID_SYMBOLS : Z := 8.
Definition LEN_HIGH_SYMBOLS : Z := 256.
Definition DIST_STATES : Z := 4.
Definition DIST_SLOTS : Z := 64.
Definition DIST_MODEL_START : Z := 4.
Definition DIST_MODEL_END : Z := 14.
Definition FULL_DISTANCES : Z := 128.
Definition ALIGN_BITS : Z := 4.
Definition ALIGN_SIZE : Z := 16.
Definition PROBS_TOTAL : Z := 1846 + LITERAL_CODERS_MAX * LITERAL_CODER_SIZE.

Definition lzma_get_dist_state (len : Z) : Z :=
  if len <? DIST_STATES + MATCH_LEN_MIN then len - MATCH_LEN_MIN else DIST_STATES - 1.

(** The probability arrays of [struct lzma_dec] and [struct lzma_len_dec] in
    the order of their declaration; [lzma_reset] relies on their being
    adjacent. *)
Definition is_match : parr := mk_parr 0 (STATES * POS_STATES_MAX).
Definition is_rep : parr := mk_parr 192 STATES.
Definition is_rep0 : parr := mk_parr 204 STATES.
Definition is_rep1 : parr := mk_parr 216 STATES.
Definition is_rep2 : parr := mk_parr 228 STATES.
Definition is_rep0_long : parr := mk_parr 240 (STATES * POS_STATES_MAX).
Definition dist_slot_arr : parr := mk_parr 432 (DIST_STATES * DIST_SLOTS).
Definition dist_special : parr := mk_parr 688 (FULL_DISTANCES - DIST_MODEL_END).
Definition dist_align : parr := mk_parr 802 ALIGN_SIZE.
Definition literal : parr := mk_parr 1846 (LITERAL_CODERS_MAX * LITERAL_CODER_SIZE).

(** [struct lzma_len_dec], by its first index. *)
Definition match_len_dec : Z := 818.
Definition rep_len_dec : Z := 1332.
Definition choice (l : Z) : parr := mk_parr l 1.
Definition choice2 (l : Z) : parr := mk_parr (l + 1) 1.
Definition low (l : Z) : parr := mk_parr (l + 2) (POS_STATES_MAX * LEN_LOW_SYMBOLS).
Definition mid (l : Z) : parr := mk_parr (l + 130) (POS_STATES_MAX * LEN_MID_SYMBOLS).
Definition high (l : Z) : parr := mk_parr (l + 258) LEN_HIGH_SYMBOLS.

(** Row [i] of an array of rows of [n] entries; outside the array it is empty. *)
Definition row (a : parr) (n i : Z) : parr :=
  if (0 <=? i) && ((i + 1) * n <=? len_ a) then mk_parr (off a + i * n) n else mk_parr 0 0.

Record lzma_dec : Set := mk_lzma_dec {
  rep0 : Z;
  rep1 : Z;
  rep2 : Z;
  rep3 : Z;
  state : Z;
  len : Z;
  lc : Z;
  literal_pos_mask : Z;
  pos_mask : Z;
  probs : list Z
}.

Definition set_probs (l : lzma_dec) (ps : list Z) : lzma_dec :=
  mk_lzma_dec (rep0 l) (rep1 l) (rep2 l) (rep3 l) (state l) (len l) (lc l)
    (literal_pos_mask l) (pos_mask l) ps.
Definition set_state (l : lzma_dec) (st : Z) : lzma_dec :=
  mk_lzma_dec (rep0 l) (rep1 l) (rep2 l) (rep3 l) st (len l) (lc l)
    (literal_pos_mask l) (pos_mask l) (probs l).
Definition set_len (l : lzma_dec) (n : Z) : lzma_dec :=
  mk_lzma_dec (rep0 l) (rep1 l) (rep2 l) (rep3 l) (state l) n (lc l)
    (literal_pos_mask l) (pos_mask l) (probs l).
Definition set_reps (l : lzma_dec) (r0 r1 r2 r3 : Z) : lzma_dec :=
  mk_lzma_dec r0 r1 r2 r3 (state l) (len l) (lc l) (literal_pos_mask l) (pos_mask l) (probs l).

(** The state the LZMA core works on: range decoder, dictionary, LZMA. *)
Record lzma : Set := mk_lzma { rc : rc_dec; dict : dictionary; lz : lzma_dec }.

(** [rc_bit] on the decoder state. *)
Definition s_bit (s : lzma) (a : parr) (i : Z) : option (bool * lzma) :=
  '(bit, r, ps) ← rc_bit (rc s) (probs (lz s)) a i;
  Some (bit, mk_lzma r (dict s) (set_probs (lz s) ps)).

Definition s_bittree (s : lzma) (a : parr) (lim : Z) : option (Z * lzma) :=
  '(sym, r, ps) ← rc_bittree (rc s) (probs (lz s)) a lim;
  Some (sym, mk_lzma r (dict s) (set_probs (lz s) ps)).

Definition with_lz (s : lzma) (f : lzma_dec → lzma_dec) : lzma := mk_lzma (rc s) (dict s) (f (lz s)).

(** [lzma_literal_probs]: the row of [literal] for the context. *)
Definition lzma_literal_probs (s : lzma) : option parr :=
  prev_byte ← dict_get (dict s) 0;
  let lo := prev_byte >> (8 - lc (lz s)) in
  let hi := u32 ((pos (dict s) .& literal_pos_mask (lz s)) << lc (lz s)) in
  Some (row literal LITERAL_CODER_SIZE (u32 (lo + hi))).

(** The loop for a literal after a match; [n] is fuel. *)
Fixpoint matched_loop (n : nat) (s : lzma) (a : parr) (match_byte offset symbol : Z) :
  option (Z * lzma) :=
  match n with
  | O => None
  | S n =>
      let match_bit := match_byte .& offset in
      let match_byte := u32 (match_byte << 1) in
      '(bit, s) ← s_bit s a (u32 (offset + match_bit + symbol));
      let '(symbol, offset) :=
        if (bit : bool) then (u32 (u32 (symbol << 1) + 1), offset .& match_bit)
        else (u32 (symbol << 1), offset .& not32 match_bit) in
      if symbol <? 0x100 then matched_loop n s a match_byte offset symbol else Some (symbol, s)
  end.

Definition lzma_literal (s : lzma) : option lzma :=
  a ← lzma_literal_probs s;
  '(symbol, s) ←
    (if lzma_state_is_literal (state (lz s)) then s_bittree s a 0x100
     else
       mb ← dict_get (dict s) (rep0 (lz s));
       matched_loop 32 s a (u32 (mb << 1)) 0x100 1);
  d ← dict_put (dict s) (u8 symbol);
  Some (mk_lzma (rc s) d (set_state (lz s) (lzma_state_literal (state (lz s))))).

(** [lzma_len]: the length decoder at index [l]. *)
Definition lzma_len (s : lzma) (l pos_state : Z) : option lzma :=
  '(bit, s) ← s_bit s (choice l) 0;
  '(a, lim, base, s) ←
    (if negb bit then Some (row (low l) LEN_LOW_SYMBOLS pos_state, LEN_LOW_SYMBOLS, MATCH_LEN_MIN, s)
     else
       '(bit, s) ← s_bit s (choice2 l) 0;
       if negb bit
       then Some (row (mid l) LEN_MID_SYMBOLS pos_state, LEN_MID_SYMBOLS,
                  MATCH_LEN_MIN + LEN_LOW_SYMBOLS, s)
       else Some (high l, LEN_HIGH_SYMBOLS, MATCH_LEN_MIN + LEN_LOW_SYMBOLS + LEN_MID_SYMBOLS, s));
  '(sym, s) ← s_bittree s a lim;
  Some (with_lz s (λ z, set_len z (u32 (base + u32 (sym - lim))))).

(** The distance of a match, into [rep0]. *)
Definition match_dist (s : lzma) (dist_slot : Z) : option lzma :=
  let z := lz s in
  if dist_slot <? DIST_MODEL_START
  then Some (with_lz s (λ z, set_reps z dist_slot (rep1 z) (rep2 z) (rep3 z)))
  else
    let lim := u32 ((dist_slot >> 1) - 1) in
    let r0 := 2 + (dist_slot .& 1) in
    if dist_slot <? DIST_MODEL_END then
      let r0 := u32 (r0 << lim) in
      '(r0, r, ps) ← rc_bittree_reverse (rc s) (probs z) dist_special (r0 - dist_slot - 1) r0 lim;
      Some (mk_lzma r (dict s) (set_probs (set_reps z r0 (rep1 z) (rep2 z) (rep3 z)) ps))
    else
      '(r0, r) ← rc_direct (rc s) r0 (u32 (lim - ALIGN_BITS));
      let r0 := u32 (r0 << ALIGN_BITS) in
      '(r0, r, ps) ← rc_bittree_reverse r (probs z) dist_align 0 r0 ALIGN_BITS;
      Some (mk_lzma r (dict s) (set_probs (set_reps z r0 (rep1 z) (rep2 z) (rep3 z)) ps)).

Definition lzma_match (s : lzma) (pos_state : Z) : option lzma :=
  let s := with_lz s (λ z, set_state z (lzma_state_match (state z))) in
  let s := with_lz s (λ z, set_reps z (rep0 z) (rep0 z) (rep1 z) (rep2 z)) in
  s ← lzma_len s match_len_dec pos_state;
  '(slot, s) ← s_bittree s (row dist_slot_arr DIST_SLOTS (lzma_get_dist_state (len (lz s)))) DIST_SLOTS;
  match_dist s (u32 (slot - DIST_SLOTS)).

Definition lzma_rep_match (s : lzma) (pos_state : Z) : option lzma :=
  let long s :=
    let s := with_lz s (λ z, set_state z (lzma_state_long_rep (state z))) in
    lzma_len s rep_len_dec pos_state in
  '(bit, s) ← s_bit s is_rep0 (state (lz s));
  if negb bit then
    '(bit, s) ← s_bit s (row is_rep0_long POS_STATES_MAX (state (lz s))) pos_state;
    if negb bit
    then Some (with_lz s (λ z, set_len (set_state z (lzma_state_short_rep (state z))) 1))
    else long s
  else
    '(bit, s) ← s_bit s is_rep1 (state (lz s));
    if negb bit
    then long (with_lz s (λ z, set_reps z (rep1 z) (rep0 z) (rep2 z) (rep3 z)))
    else
      '(bit, s) ← s_bit s is_rep2 (state (lz s));
      if negb bit
      then long (with_lz s (λ z, set_reps z (rep2 z) (rep0 z) (rep1 z) (rep3 z)))
      else long (with_lz s (λ z, set_reps z (rep3 z) (rep0 z) (rep1 z) (rep2 z))).

(** One symbol: the body of the loop of [lzma_main]; [false] is an invalid
    distance. *)
Definition lzma_symbol (s : lzma) : option (bool * lzma) :=
  let pos_state := pos (dict s) .& pos_mask (lz s) in
  '(bit, s) ← s_bit s (row is_match POS_STATES_MAX (state (lz s))) pos_state;
  if negb bit then
    s ← lzma_literal s; Some (true, s)
  else
    '(bit, s) ← s_bit s is_rep (state (lz s));
    s ← (if (bit : bool) then lzma_rep_match s pos_state else lzma_match s pos_state);
    '(ok, d, n) ← dict_repeat (dict s) (len (lz s)) (rep0 (lz s));
    Some (ok, mk_lzma (rc s) d (set_len (lz s) n)).

(** [n] is fuel: every symbol fills at least one byte below [limit]. *)
Fixpoint main_loop (n : nat) (s : lzma) : option (bool * lzma) :=
  match n with
  | O => None
  | S n =>
      if dict_has_space (dict s) && negb (rc_limit_exceeded (rc s)) then
        '(ok, s) ← lzma_symbol s;
        if (ok : bool) then main_loop n s else Some (false, s)
      else
        r ← rc_normalize (rc s);
        Some (true, mk_lzma r (dict s) (lz s))
  end.

Definition lzma_main (s : lzma) : option (bool * lzma) :=
  s ← (if dict_has_space (dict s) && (0 <? len (lz s)) then
         '(_, d, n) ← dict_repeat (dict s) (len (lz s)) (rep0 (lz s));
         Some (mk_lzma (rc s) d (set_len (lz s) n))
       else Some s);
  main_loop (S (Z.to_nat (limit (dict s) - pos (dict s)))) s.

Definition lzma_reset (s : lzma) : lzma :=
  mk_lzma (rc_reset (rc s)) (dict s)
    (mk_lzma_dec 0 0 0 0 STATE_LIT_LIT 0 (lc (lz s)) (literal_pos_mask (lz s)) (pos_mask (lz s))
       (replicate (Z.to_nat PROBS_TOTAL) (RC_BIT_MODEL_TOTAL / 2))).

(** [while (props >= k) { props -= k; ++n; }]. *)
Fixpoint props_loop (fuel : nat) (k props n : Z) : option (Z * Z) :=
  match fuel with
  | O => None
  | S fuel => if k <=? props then props_loop fuel k (props - k) (n + 1) else Some (props, n)
  end.

(** On failure the masks written so far are kept, as in the source. *)
Definition lzma_props (s : lzma) (props : Z) : option (bool * lzma) :=
  if (4 * 5 + 4) * 9 + 8 <? props then Some (false, s)
  else
    '(props, pb) ← props_loop 256 (9 * 5) props 0;
    let pm := u32 (u32 (1 << pb) - 1) in
    '(props, lp) ← props_loop 256 9 props 0;
    let set l m :=
      with_lz s (λ z, mk_lzma_dec (rep0 z) (rep1 z) (rep2 z) (rep3 z) (state z) (len z) l m pm (probs z)) in
    if 4 <? u32 (props + lp) then Some (false, set props lp)
    else Some (true, lzma_reset (set props (u32 (u32 (1 << lp) - 1)))).

End XzLzma.
