(* ===== verification/XzDict.v ===== *)
(** * The dictionary is a sliding window
    ([hook_sdk/src/xz/xz_dec_lzma2.c], section Dictionary)

    The circular buffer of [XzLzma] refines the abstract history of LZ77: the
    list of the most recent bytes. [dict_get] reads it at a distance,
    [dict_put] and [dict_repeat] append to it, and none of them leaves the
    buffer. *)

From S2P Require Import Prelude XzLzma.
Import XzLzma.

Module XzDict.

(** ** Invariant (the comment of [struct dictionary]) *)

Record dict_ok (d : dictionary) : Prop := {
  d_len : zlen (buf d) = allocated d;
  d_end : end_ d = size d;
  d_size : 0 < size d <= allocated d;
  d_alloc : allocated d < 2 ^ 32;
  d_start : 0 <= start d <= pos d;
  d_pos : pos d <= limit d <= end_ d;
  d_full : pos d <= full d <= end_ d;
  d_wrap : pos d = full d ∨ full d = end_ d;
  d_bytes : Forall is_u8 (buf d)
}.

(** The bytes still in the dictionary, oldest first. *)
Definition hist (d : dictionary) : list Z :=
  drop (Z.to_nat (pos d)) (take (Z.to_nat (full d)) (buf d)) ++ take (Z.to_nat (pos d)) (buf d).

(** Appending to a window of [n] bytes. *)
Definition push (n : Z) (h : list Z) (b : Z) : list Z :=
  drop (length h + 1 - Z.to_nat n) (h ++ [b]).

(** The byte at a distance; 0 is the most recent one. *)
Definition at_dist (h : list Z) (dist : Z) : option Z := h !! Z.to_nat (zlen h - 1 - dist).

(** The LZ77 copy of [n] bytes from distance [dist]. *)
Fixpoint lz_copy (sz : Z) (n : nat) (dist : Z) (h : list Z) : option (list Z) :=
  match n with
  | O => Some h
  | S n => b ← at_dist h dist; lz_copy sz n dist (push sz h b)
  end.

(** ** Index arithmetic *)

Definition back_of (d : dictionary) (dist : Z) : Z :=
  if pos d <=? dist then pos d - dist - 1 + end_ d else pos d - dist - 1.

Lemma back_of_range d dist :
  dict_ok d → 0 <= dist < full d → 0 <= back_of d dist < end_ d.
Proof.
  intros [] Hd. unfold back_of. destruct (Z.leb_spec (pos d) dist); lia.
Qed.

(** The C expression for the offset, with its unsigned wrap-around. *)
Lemma back_of_eq d dist :
  dict_ok d → 0 <= dist < full d →
  (if pos d <=? dist then u64 (u64 (pos d - dist - 1) + end_ d) else u64 (pos d - dist - 1))
  = back_of d dist.
Proof.
  intros Hok Hd. pose proof (back_of_range d dist Hok Hd) as Hr. destruct Hok.
  unfold back_of in *. destruct (Z.leb_spec (pos d) dist).
  - rewrite u64_add_l. apply u64_id. unfold is_u64. lia.
  - apply u64_id. unfold is_u64. lia.
Qed.

Lemma hist_length d : dict_ok d → zlen (hist d) = full d.
Proof.
  intros []. unfold hist. rewrite length_app, length_drop, !length_take. lia.
Qed.

Lemma hist_lookup d dist :
  dict_ok d → 0 <= dist < full d → at_dist (hist d) dist = buf d !! Z.to_nat (back_of d dist).
Proof.
  intros Hok Hd. unfold at_dist. rewrite hist_length by done. pose proof Hok as [].
  unfold hist, back_of. destruct (Z.leb_spec (pos d) dist).
  - rewrite lookup_app_l by (rewrite length_drop, length_take; lia).
    rewrite lookup_drop, lookup_take_lt by lia. f_equal. lia.
  - rewrite lookup_app_r by (rewrite length_drop, length_take; lia).
    rewrite length_drop, length_take, lookup_take_lt by lia. f_equal. lia.
Qed.

(** ** Reading *)

Lemma dict_get_ok d dist :
  dict_ok d → 0 <= dist < full d →
  ∃ x, dict_get d dist = Some x ∧ at_dist (hist d) dist = Some x ∧ is_u8 x.
Proof.
  intros Hok Hd. pose proof (back_of_range d dist Hok Hd) as Hr.
  unfold dict_get. rewrite back_of_eq by done. rewrite (proj2 (Z.ltb_lt 0 (full d))) by lia.
  destruct (aget_Some (buf d) (back_of d dist)) as (x & E & Hx); [destruct Hok; lia|].
  exists x. rewrite E, hist_lookup by done. split_and!; [done|done|].
  destruct Hok as [? ? ? ? ? ? ? ? Hb]. rewrite Forall_lookup in Hb. eauto.
Qed.

(** With an empty dictionary the result is 0. *)
Lemma dict_get_empty d : full d = 0 → dict_get d 0 = Some 0.
Proof. intros E. unfold dict_get. by rewrite E. Qed.

(** ** Writing *)

Lemma hist_put d b bs :
  dict_ok d → pos d < end_ d → bs = <[Z.to_nat (pos d) := b]> (buf d) →
  hist (advance d bs (pos d + 1)) = push (end_ d) (hist d) b.
Proof.
  intros Hok Hs ->. pose proof (hist_length d Hok) as Hl. pose proof Hok as [].
  unfold push. replace (length (hist d) + 1 - Z.to_nat (end_ d))%nat
    with (if full d =? pos d then 0%nat else 1%nat) by (case_cmp; lia).
  unfold hist, advance. cbn [buf pos full].
  replace (Z.to_nat (pos d + 1)) with (S (Z.to_nat (pos d))) by lia.
  rewrite (take_S_r (<[Z.to_nat (pos d):=b]> (buf d)) (Z.to_nat (pos d)) b)
    by (apply list_lookup_insert_eq; lia).
  rewrite (take_insert_ge (buf d) (Z.to_nat (pos d)) (Z.to_nat (pos d))) by lia.
  destruct (Z.eqb_spec (full d) (pos d)) as [E|E].
  - rewrite drop_0, E, (proj2 (Z.ltb_lt _ _)) by lia.
    rewrite !drop_ge by (rewrite length_take; lia). done.
  - rewrite (proj2 (Z.ltb_ge _ _)) by lia.
    rewrite take_insert_lt, drop_insert_lt by (rewrite ?length_take; lia).
    assert (length (drop (Z.to_nat (pos d)) (take (Z.to_nat (full d)) (buf d))) ≠ 0%nat) as Hne
      by (rewrite length_drop, length_take; lia).
    replace (S (Z.to_nat (pos d))) with (Z.to_nat (pos d) + 1)%nat by lia. rewrite <- drop_drop.
    rewrite <- app_assoc. by destruct (drop (Z.to_nat (pos d)) (take _ _)).
Qed.

Lemma advance_ok d bs p :
  dict_ok d → length bs = length (buf d) → Forall is_u8 bs → pos d <= p <= limit d →
  dict_ok (advance d bs p).
Proof.
  intros [] Hl Hb Hp. split; cbn; try done; try lia; destruct (Z.ltb_spec (full d) p); lia.
Qed.

(** *** [dict_put] *)
Lemma dict_put_ok d b :
  dict_ok d → dict_has_space d = true → is_u8 b →
  ∃ d', dict_put d b = Some d' ∧ dict_ok d' ∧ hist d' = push (end_ d) (hist d) b ∧
    d' = advance d (<[Z.to_nat (pos d) := b]> (buf d)) (pos d + 1).
Proof.
  intros Hok Hs Hb. unfold dict_has_space in Hs. apply Z.ltb_lt in Hs. pose proof Hok as [].
  unfold dict_put. rewrite aset_Some by lia. cbn. rewrite u64_id by (unfold is_u64; lia).
  eexists. split; [done|]. split_and!; [|by apply hist_put; [|lia|]|done].
  apply advance_ok; [done|by rewrite length_insert|by apply Forall_insert|lia].
Qed.

(** *** [dict_repeat] as repeated get and put *)

Definition copy1 (dist : Z) (d : dictionary) : option dictionary :=
  x ← dict_get d dist; dict_put d x.

Fixpoint copy_n (n : nat) (dist : Z) (d : dictionary) : option dictionary :=
  match n with
  | O => Some d
  | S n => d ← copy1 dist d; copy_n n dist d
  end.

Lemma copy1_ok d dist :
  dict_ok d → dict_has_space d = true → 0 <= dist < full d →
  ∃ x d', dict_get d dist = Some x ∧ copy1 dist d = Some d' ∧ dict_ok d' ∧
    d' = advance d (<[Z.to_nat (pos d) := x]> (buf d)) (pos d + 1) ∧
    at_dist (hist d) dist = Some x ∧ hist d' = push (end_ d) (hist d) x.
Proof.
  intros Hok Hs Hd. destruct (dict_get_ok d dist Hok Hd) as (x & E & Ha & Hx).
  destruct (dict_put_ok d x Hok Hs Hx) as (d' & E' & Hok' & Hh & Ed).
  exists x, d'. unfold copy1. rewrite E. by split_and!.
Qed.

Lemma repeat_loop_copy n d dist :
  dict_ok d → Z.of_nat n <= limit d - pos d → 0 <= dist < full d →
  ∃ d', repeat_loop n (buf d) (pos d) (back_of d dist) (end_ d) = Some (buf d', pos d + Z.of_nat n) ∧
    copy_n n dist d = Some d' ∧ dict_ok d' ∧ d' = advance d (buf d') (pos d + Z.of_nat n) ∧
    lz_copy (end_ d) n dist (hist d) = Some (hist d').
Proof.
  revert d. induction n as [|n IH]; intros d Hok Hn Hd.
  - exists d. rewrite Z.add_0_r. split_and!; try done. destruct d, Hok. unfold advance. cbn in *.
    rewrite (proj2 (Z.ltb_ge _ _)) by lia. done.
  - assert (dict_has_space d = true) as Hs by (unfold dict_has_space; apply Z.ltb_lt; lia).
    destruct (copy1_ok d dist Hok Hs Hd) as (x & d1 & Eg & E1 & Hok1 & Ed1 & Ha & Hh).
    pose proof (back_of_range d dist Hok Hd) as Hr. pose proof Hok as [].
    assert (pos d1 = pos d + 1 ∧ end_ d1 = end_ d ∧ limit d1 = limit d ∧ full d <= full d1)
      as (P1 & P2 & P3 & P4).
    { rewrite Ed1. cbn. destruct (Z.ltb_spec (full d) (pos d + 1)); lia. }
    destruct (IH d1) as (d' & E2 & E3 & Hok' & Ed' & Hl); [done|lia|lia|].
    exists d'. cbn [repeat_loop copy_n lz_copy]. unfold dict_get in Eg.
    rewrite back_of_eq in Eg by done. rewrite (proj2 (Z.ltb_lt 0 (full d))) in Eg by lia.
    rewrite Eg, E1, Ha. cbn [mbind option_bind]. rewrite aset_Some by lia. cbn [mbind option_bind].
    rewrite <- Hh. rewrite !u64_id by (unfold is_u64; lia).
    replace (<[Z.to_nat (pos d):=x]> (buf d)) with (buf d1) by (by rewrite Ed1).
    replace (if back_of d dist + 1 =? end_ d then 0 else back_of d dist + 1) with (back_of d1 dist).
    + rewrite P1, P2 in *. replace (pos d + Z.of_nat (S n)) with (pos d + 1 + Z.of_nat n) by lia.
      split_and!; try done. rewrite Ed' at 1. rewrite Ed1. unfold advance. cbn.
      f_equal. destruct (Z.ltb_spec (full d) (pos d + 1)); repeat case_match; lia.
    + unfold back_of in *. rewrite P1, P2. destruct (Z.leb_spec (pos d) dist), (Z.leb_spec (pos d + 1) dist);
        destruct (Z.eqb_spec (pos d - dist - 1 + end_ d + 1) (end_ d));
        destruct (Z.eqb_spec (pos d - dist - 1 + 1) (end_ d)); lia.
Qed.

(** [dict_repeat] with a valid distance copies [min(limit - pos, len)] bytes. *)
Lemma dict_repeat_ok d n dist :
  dict_ok d → dict_has_space d = true → 0 < n < 2 ^ 32 → 0 <= dist →
  ∃ ok d' n', dict_repeat d n dist = Some (ok, d', n') ∧ dict_ok d' ∧
    (ok = false ∧ d' = d ∧ n' = n ∧ full d <= dist ∨
     ok = true ∧ dist < full d ∧
     let k := Z.min (limit d - pos d) n in
     n' = n - k ∧ d' = advance d (buf d') (pos d + k) ∧
     lz_copy (end_ d) (Z.to_nat k) dist (hist d) = Some (hist d')).
Proof.
  intros Hok Hs Hn Hd. unfold dict_has_space in Hs. apply Z.ltb_lt in Hs. pose proof Hok as [].
  unfold dict_repeat. destruct (_ || _) eqn:E.
  - exists false, d, n. split_and!; [done|done|]. left. split_and!; try done.
    rewrite orb_true_iff, !Z.leb_le in E. lia.
  - rewrite orb_false_iff, !Z.leb_gt in E. rewrite back_of_eq by (done || lia).
    rewrite (u64_id (limit d - pos d)) by (unfold is_u64; lia).
    assert (min_ (limit d - pos d) n = Z.min (limit d - pos d) n) as ->
      by (unfold min_; case_cmp; lia).
    set (k := Z.min (limit d - pos d) n). assert (0 < k <= n ∧ k <= limit d - pos d) as [? ?] by lia.
    rewrite (u32_id k), (u32_id (n - k)), (proj2 (Z.eqb_neq k 0)) by (unfold is_u32; lia).
    destruct (repeat_loop_copy (Z.to_nat k) d dist) as (d' & -> & _ & Hok' & Ed & Hl); [done|lia|lia|].
    cbn [mbind option_bind]. rewrite Z2Nat.id in * by lia. rewrite <- Ed.
    exists true, d', (n - k). split_and!; [done|done|]. right. split_and!; try done; lia.
Qed.

(** C12: the circular buffer refines the LZ77 window. In a well-formed
    dictionary with room, [dict_put] appends a byte to the history; a match of
    [n] bytes at distance [dist] is refused exactly when the distance reaches
    beyond the history and otherwise appends the LZ77 copy of the
    [min(limit - pos, n)] bytes that fit, reporting the rest; every access
    stays inside the buffer and the invariant is kept. *)
Theorem dict_refines_window d n dist b :
  dict_ok d → dict_has_space d = true → 0 < n < 2 ^ 32 → 0 <= dist → is_u8 b →
  (∃ d', dict_put d b = Some d' ∧ dict_ok d' ∧ hist d' = push (end_ d) (hist d) b) ∧
  (∃ d' n', dict_repeat d n dist = Some (dist <? zlen (hist d), d', n') ∧ dict_ok d' ∧
     (zlen (hist d) <= dist → d' = d ∧ n' = n) ∧
     (dist < zlen (hist d) →
        lz_copy (end_ d) (Z.to_nat (n - n')) dist (hist d) = Some (hist d') ∧
        n - n' = Z.min (limit d - pos d) n)).
Proof.
  intros Hok Hs Hn Hd Hb. split.
  - destruct (dict_put_ok d b Hok Hs Hb) as (d' & ? & ? & ? & _). eauto.
  - destruct (dict_repeat_ok d n dist Hok Hs Hn Hd) as (ok & d' & n' & E & Hok' & H).
    exists d', n'. rewrite E, hist_length by done.
    destruct H as [(-> & -> & -> & Hf)|(-> & Hf & -> & Ed & Hl)].
    + rewrite (proj2 (Z.ltb_ge _ _)) by done. split_and!; try done. lia.
    + rewrite (proj2 (Z.ltb_lt _ _)) by done. split_and!; [done|done|lia|]. intros _.
      replace (n - (n - Z.min (limit d - pos d) n)) with (Z.min (limit d - pos d) n) by lia. done.
Qed.

(** A window of 8 bytes holding 5, with room for 3: an overlapping match. *)
Definition demo_dict : dictionary :=
  mk_dictionary [1; 2; 3; 4; 5; 0; 0; 0] 0 5 5 8 8 8 8 8.

Lemma demo_dict_ok : dict_ok demo_dict.
Proof. split; cbn; try lia. repeat (apply Forall_cons_2; [unfold is_u8; lia|]). apply Forall_nil_2. Qed.

Lemma dict_refines_window_witness :
  ∃ d', dict_repeat demo_dict 7 1 = Some (true, d', 4) ∧ hist d' = [1; 2; 3; 4; 5; 4; 5; 4].
Proof.
  destruct (dict_refines_window demo_dict 7 1 0) as [_ (d' & n' & E & _ & _ & H)].
  - exact demo_dict_ok.
  - done.
  - lia.
  - lia.
  - unfold is_u8. lia.
  - destruct H as [Hl Hn]; [vm_compute; done|].
    assert (n' = 4) as -> by (change (Z.min (limit demo_dict - pos demo_dict) 7) with 3 in Hn; lia).
    exists d'. split; [exact E|]. apply Some_inj. rewrite <- Hl. vm_compute. done.
Defined.

End XzDict.
