(* ===== verification/XzRange.v ===== *)
(** * Range decoder: bounds ([hook_sdk/src/xz/xz_dec_lzma2.c], section Range
    decoder)

    Every probability stays in [31, 2017], the range never falls below
    [31 * 2^13], and the input a sequence of bits consumes is bounded by the
    information it can carry: at most 20 bytes for 22 modelled and 26 direct
    bits, the claim behind [LZMA_IN_REQUIRED]. *)

From S2P Require Import Prelude XzLzma.
Import XzLzma.

Module XzRange.

Definition range_min : Z := 31 * 2 ^ 13.

Record rc_ok (r : rc_dec) : Prop := {
  rc_range : range_min <= range r < 2 ^ 32;
  rc_code : is_u32 (code r);
  rc_pos : 0 <= rc_in_pos r;
  rc_bytes : Forall is_u8 (rc_in r);
  rc_len : zlen (rc_in r) < 2 ^ 63
}.

Definition probs_ok (ps : list Z) : Prop :=
  zlen ps = PROBS_TOTAL ∧ Forall (λ p, 31 <= p <= 2017) ps.

Definition parr_ok (a : parr) : Prop := 0 <= off a ∧ 0 <= len_ a ∧ off a + len_ a <= PROBS_TOTAL.

(** ** The budget of a symbol

    A modelled bit keeps at least [31 * 8191 / 2^24] of the range, a direct
    bit [(2^23 - 1) / 2^24], and reading a byte multiplies it by 256. *)

Definition lossP (k d : nat) : Z := (31 * 8191) ^ Z.of_nat k * (2 ^ 23 - 1) ^ Z.of_nat d.
Definition lossQ (k d : nat) : Z := (2 ^ 24) ^ Z.of_nat k * (2 ^ 24) ^ Z.of_nat d.

Record spent (r0 r : rc_dec) (k d : nat) (n : Z) : Prop := {
  sp_ok : rc_ok r;
  sp_in : rc_in r = rc_in r0;
  sp_limit : in_limit r = in_limit r0;
  sp_init : init_bytes_left r = init_bytes_left r0;
  sp_pos : rc_in_pos r = rc_in_pos r0 + n;
  sp_n : 0 <= n <= 20;
  sp_budget : range r0 * 256 ^ n * lossP k d <= range r * lossQ k d
}.

(** A decoder about to decode a symbol within its input limit. *)
Record start_ok (r0 : rc_dec) : Prop := {
  st_ok : rc_ok r0;
  st_limit : rc_in_pos r0 <= in_limit r0;
  st_room : in_limit r0 + 21 <= zlen (rc_in r0)
}.

Lemma spent_refl r : rc_ok r → spent r r 0 0 0.
Proof.
  intros H. split; try done; try lia. change (lossP 0 0) with 1. change (lossQ 0 0) with 1.
  change (256 ^ 0) with 1. lia.
Qed.

Lemma lossP_pos k d : 0 < lossP k d.
Proof. unfold lossP. apply Z.mul_pos_pos; apply Z.pow_pos_nonneg; lia. Qed.
Lemma lossQ_pos k d : 0 < lossQ k d.
Proof. unfold lossQ. apply Z.mul_pos_pos; apply Z.pow_pos_nonneg; lia. Qed.

Lemma loss_mono k d k' d' :
  (k <= k')%nat → (d <= d')%nat → lossP k' d' * lossQ k d <= lossP k d * lossQ k' d'.
Proof.
  intros Hk Hd. unfold lossP, lossQ.
  replace (Z.of_nat k') with (Z.of_nat k + Z.of_nat (k' - k)) by lia.
  replace (Z.of_nat d') with (Z.of_nat d + Z.of_nat (d' - d)) by lia.
  rewrite !Z.pow_add_r by lia.
  assert ((31 * 8191) ^ Z.of_nat (k' - k) <= (2 ^ 24) ^ Z.of_nat (k' - k)) as H1
    by (apply Z.pow_le_mono_l; lia).
  assert ((2 ^ 23 - 1) ^ Z.of_nat (d' - d) <= (2 ^ 24) ^ Z.of_nat (d' - d)) as H2
    by (apply Z.pow_le_mono_l; lia).
  set (a := (31 * 8191) ^ Z.of_nat k) in *. set (b := (31 * 8191) ^ Z.of_nat (k' - k)) in *.
  set (c := (2 ^ 23 - 1) ^ Z.of_nat d) in *. set (e := (2 ^ 23 - 1) ^ Z.of_nat (d' - d)) in *.
  set (f := (2 ^ 24) ^ Z.of_nat k) in *. set (g := (2 ^ 24) ^ Z.of_nat (k' - k)) in *.
  set (h := (2 ^ 24) ^ Z.of_nat d) in *. set (i := (2 ^ 24) ^ Z.of_nat (d' - d)) in *.
  assert (0 < a ∧ 0 < b ∧ 0 < c ∧ 0 < e ∧ 0 < f ∧ 0 < h) as (? & ? & ? & ? & ? & ?)
    by (subst a b c e f h; split_and!; apply Z.pow_pos_nonneg; lia).
  clearbody a b c e f g h i.
  replace (a * b * (c * e) * (f * h)) with (a * c * (f * h) * (b * e)) by ring.
  replace (a * c * (f * g * (h * i))) with (a * c * (f * h) * (g * i)) by ring.
  apply Z.mul_le_mono_nonneg_l; [|apply Z.mul_le_mono_nonneg; lia].
  apply Z.mul_nonneg_nonneg; apply Z.mul_nonneg_nonneg; lia.
Qed.

(** What may have been decoded before the last bit of a symbol: a match with
    a long distance has 22 modelled and up to 26 direct bits, other symbols
    have at most 23 modelled bits. *)
Definition fits (k d : nat) : Prop := ((k <= 21 ∧ d <= 26) ∨ (k <= 25 ∧ d = 0))%nat.

Lemma fits_le k d k' d' : fits k' d' → (k <= k')%nat → (d <= d')%nat → fits k d.
Proof. unfold fits. lia. Qed.

Lemma budget_21 k d :
  (k = 21%nat ∧ d = 26%nat) ∨ (k = 25%nat ∧ d = 0%nat) →
  2 ^ 32 * lossQ k d < range_min * 256 ^ 21 * lossP k d.
Proof. intros [[-> ->]|[-> ->]]; vm_compute; done. Qed.

(** Before the last bit of a symbol another byte is only needed while fewer
    than 20 were read. *)
Lemma spent_room r0 r k d n :
  rc_ok r0 → spent r0 r k d n → fits k d → range r < RC_TOP_VALUE → n < 20.
Proof.
  intros [Hr0 _ _ _ _] [_ _ _ _ _ Hn Hb] Hf Ht.
  assert (∃ k' d', (k <= k')%nat ∧ (d <= d')%nat ∧
    ((k' = 21%nat ∧ d' = 26%nat) ∨ (k' = 25%nat ∧ d' = 0%nat))) as (k' & d' & Hk & Hd & Hkd)
    by (destruct Hf; [exists 21%nat, 26%nat|exists 25%nat, 0%nat]; lia).
  destruct (decide (n < 20)) as [|Hge]; [done|exfalso].
  assert (n = 20) as -> by lia. change RC_TOP_VALUE with (2 ^ 24) in Ht.
  pose proof (loss_mono k d k' d' Hk Hd) as Hm. pose proof (budget_21 k' d' Hkd) as H21.
  pose proof (lossP_pos k d) as HP. pose proof (lossQ_pos k d) as HQ.
  pose proof (lossP_pos k' d') as HP'. pose proof (lossQ_pos k' d') as HQ'.
  change (256 ^ 21) with (256 * 256 ^ 20) in H21.
  set (P := lossP k d) in *. set (Q := lossQ k d) in *.
  set (P' := lossP k' d') in *. set (Q' := lossQ k' d') in *.
  set (B := 256 ^ 20) in *. assert (0 < B) as HB by (subst B; lia). clearbody P Q P' Q' B.
  assert (range_min * B * P < 2 ^ 24 * Q) as H1.
  { apply Z.le_lt_trans with (range r0 * B * P); [|apply Z.le_lt_trans with (range r * Q); [done|]].
    - apply Z.mul_le_mono_nonneg_r; [lia|]. apply Z.mul_le_mono_nonneg_r; lia.
    - apply Z.mul_lt_mono_pos_r; lia. }
  assert (range_min * B * P * Q' < 2 ^ 24 * Q * Q') as H2 by (by apply Z.mul_lt_mono_pos_r).
  assert (range_min * B * (P' * Q) <= range_min * B * (P * Q')) as H3.
  { apply Z.mul_le_mono_nonneg_l; [|done]. apply Z.mul_nonneg_nonneg; [unfold range_min|]; lia. }
  assert (2 ^ 32 * Q' * Q < range_min * (256 * B) * P' * Q) as H4 by (by apply Z.mul_lt_mono_pos_r).
  nia.
Qed.

(** ** Normalization *)

Lemma rc_normalize_ok r0 r k d n :
  start_ok r0 → spent r0 r k d n → fits k d →
  ∃ r' n', rc_normalize r = Some r' ∧ spent r0 r' k d n' ∧ RC_TOP_VALUE <= range r'.
Proof.
  intros [H0 Hl Hroom] Hs Hf. pose proof Hs as [[Hr Hc Hp Hb Hlen] Hin Hlim Hini Hpos Hn Hbud].
  unfold rc_normalize. destruct (Z.ltb_spec (range r) RC_TOP_VALUE) as [Ht|Ht].
  - pose proof (spent_room _ _ _ _ _ H0 Hs Hf Ht) as Hn'.
    destruct (aget_Some (rc_in r) (rc_in_pos r)) as (x & -> & Hx); [rewrite Hin; lia|].
    cbn [mbind option_bind]. change RC_TOP_VALUE with (2 ^ 24) in *.
    assert (is_u8 x) as Hx8 by (rewrite Forall_lookup in Hb; eauto).
    assert (u32 (range r << RC_SHIFT_BITS) = range r * 256) as E.
    { rewrite Z.shiftl_mul_pow2 by (unfold RC_SHIFT_BITS; lia). change (2 ^ RC_SHIFT_BITS) with 256.
      apply u32_id. unfold is_u32, range_min in *. lia. }
    assert (range_min * 256 >= 2 ^ 24) by (vm_compute; done).
    eexists _, (n + 1). split; [done|]. split; [|cbn; rewrite E; lia].
    split; cbn; rewrite ?E; try done; try lia.
    + split; cbn; rewrite ?E; try done; [unfold range_min in *; lia|apply u32_range|].
      apply u64_range.
    + rewrite u64_id by (unfold is_u64; rewrite <- Hin in Hroom; lia). lia.
    + rewrite Z.pow_add_r by lia. change (256 ^ 1) with 256. nia.
  - exists r, n. split_and!; done.
Qed.

(** ** One bit *)

Lemma prob_update p :
  31 <= p <= 2017 →
  31 <= u16 (p + ((RC_BIT_MODEL_TOTAL - p) >> RC_MOVE_BITS)) <= 2017 ∧
  31 <= u16 (p - (p >> RC_MOVE_BITS)) <= 2017.
Proof.
  intros Hp. rewrite !Z.shiftr_div_pow2 by (unfold RC_MOVE_BITS; lia).
  change RC_BIT_MODEL_TOTAL with 2048. change (2 ^ RC_MOVE_BITS) with 32.
  rewrite !u16_id by (unfold is_u16; zmod_lia). zmod_lia.
Qed.

(** The two halves of a normalized range. *)
Lemma bound_range rg p :
  2 ^ 24 <= rg < 2 ^ 32 → 31 <= p <= 2017 →
  let bound := rg / 2048 * p in
  range_min <= bound ∧ range_min <= rg - bound ∧ bound < 2 ^ 32 ∧
  rg * (31 * 8191) <= bound * 2 ^ 24 ∧ rg * (31 * 8191) <= (rg - bound) * 2 ^ 24.
Proof.
  intros Hr Hp bound. subst bound. unfold range_min.
  assert (2 ^ 13 <= rg / 2048 <= rg) as Hq by zmod_lia.
  assert (rg / 2048 * 2048 <= rg < rg / 2048 * 2048 + 2048) as Hd by zmod_lia.
  set (q := rg / 2048) in *. clearbody q. split_and!; nia.
Qed.

Lemma loss_prob k d rg rg' r0 B :
  0 <= rg → 0 <= B →
  r0 * B * lossP k d <= rg * lossQ k d → rg * (31 * 8191) <= rg' * 2 ^ 24 →
  r0 * B * lossP (S k) d <= rg' * lossQ (S k) d.
Proof.
  intros Hrg HB H1 H2. unfold lossP, lossQ in *. rewrite Nat2Z.inj_succ, !Z.pow_succ_r by lia.
  set (a := (31 * 8191) ^ Z.of_nat k) in *. set (b := (2 ^ 23 - 1) ^ Z.of_nat d) in *.
  set (c := (2 ^ 24) ^ Z.of_nat k) in *. set (e := (2 ^ 24) ^ Z.of_nat d) in *.
  assert (0 < c * e) by (apply Z.mul_pos_pos; apply Z.pow_pos_nonneg; lia).
  clearbody a b c e.
  replace (r0 * B * (31 * 8191 * a * b)) with (r0 * B * (a * b) * (31 * 8191)) by ring.
  replace (rg' * (2 ^ 24 * c * e)) with (rg' * 2 ^ 24 * (c * e)) by ring.
  apply Z.le_trans with (rg * (c * e) * (31 * 8191)); [apply Z.mul_le_mono_nonneg_r; lia|].
  replace (rg * (c * e) * (31 * 8191)) with (rg * (31 * 8191) * (c * e)) by ring.
  apply Z.mul_le_mono_nonneg_r; lia.
Qed.

Lemma loss_direct k d rg rg' r0 B :
  r0 * B * lossP k d <= rg * lossQ k d → rg * (2 ^ 23 - 1) <= rg' * 2 ^ 24 →
  r0 * B * lossP k (S d) <= rg' * lossQ k (S d).
Proof.
  intros H1 H2. unfold lossP, lossQ in *. rewrite Nat2Z.inj_succ, !Z.pow_succ_r by lia.
  set (a := (31 * 8191) ^ Z.of_nat k) in *. set (b := (2 ^ 23 - 1) ^ Z.of_nat d) in *.
  set (c := (2 ^ 24) ^ Z.of_nat k) in *. set (e := (2 ^ 24) ^ Z.of_nat d) in *.
  assert (0 < c * e) by (apply Z.mul_pos_pos; apply Z.pow_pos_nonneg; lia).
  clearbody a b c e.
  replace (r0 * B * (a * ((2 ^ 23 - 1) * b))) with (r0 * B * (a * b) * (2 ^ 23 - 1)) by ring.
  replace (rg' * (c * (2 ^ 24 * e))) with (rg' * 2 ^ 24 * (c * e)) by ring.
  apply Z.le_trans with (rg * (c * e) * (2 ^ 23 - 1)); [apply Z.mul_le_mono_nonneg_r; lia|].
  replace (rg * (c * e) * (2 ^ 23 - 1)) with (rg * (2 ^ 23 - 1) * (c * e)) by ring.
  apply Z.mul_le_mono_nonneg_r; lia.
Qed.

(** Replacing range and code of a decoder. *)
Lemma spent_set r0 r k d n rg c k' d' :
  spent r0 r k d n → range_min <= rg < 2 ^ 32 → is_u32 c →
  range r0 * 256 ^ n * lossP k' d' <= rg * lossQ k' d' →
  spent r0 (set_range_code r rg c) k' d' n.
Proof. intros [[] ? ? ? ? ? ?] Hrg Hc Hb. by split. Qed.

Lemma rc_bit_ok r0 r ps a i k d n :
  start_ok r0 → spent r0 r k d n → fits k d →
  probs_ok ps → parr_ok a → 0 <= i < len_ a →
  ∃ bit r' ps' n', rc_bit r ps a i = Some (bit, r', ps') ∧ spent r0 r' (S k) d n' ∧ probs_ok ps'.
Proof.
  intros H0 Hs Hf [Hpl Hpp] (Ha1 & Ha2 & Ha3) Hi. unfold rc_bit.
  destruct (rc_normalize_ok r0 r k d n H0 Hs Hf) as (r1 & n1 & -> & Hs1 & Ht).
  cbn [mbind option_bind]. rewrite (proj2 (Z.leb_le 0 i)), (proj2 (Z.ltb_lt i _)) by lia.
  cbn [andb]. destruct (aget_Some ps (off a + i)) as (p & -> & Hp); [lia|].
  cbn [mbind option_bind].
  assert (31 <= p <= 2017) as Hp' by (rewrite Forall_lookup in Hpp; eauto).
  change RC_TOP_VALUE with (2 ^ 24) in Ht.
  pose proof (rc_range _ (sp_ok _ _ _ _ _ Hs1)) as Hr1. pose proof (rc_code _ (sp_ok _ _ _ _ _ Hs1)) as Hc1.
  rewrite Z.shiftr_div_pow2 by (unfold RC_BIT_MODEL_TOTAL_BITS; lia).
  change (2 ^ RC_BIT_MODEL_TOTAL_BITS) with 2048.
  destruct (bound_range (range r1) p) as (B1 & B2 & B3 & B4 & B5); [lia|done|].
  assert (0 <= range_min) as Hrm by (vm_compute; done).
  rewrite (u32_id (range r1 / 2048 * p)) by (unfold is_u32; lia).
  set (bound := range r1 / 2048 * p) in *. clearbody bound.
  destruct (prob_update p Hp') as [Hu0 Hu1].
  assert (0 <= 256 ^ n1) by (apply Z.pow_nonneg; lia).
  pose proof (sp_budget _ _ _ _ _ Hs1) as Hb1.
  destruct (Z.ltb_spec (code r1) bound).
  - rewrite aset_Some by lia. do 4 eexists. split; [done|]. split.
    + eapply spent_set; [done|lia|done|]. eapply loss_prob; [| |done|]; lia.
    + split; [by rewrite length_insert|by apply Forall_insert].
  - rewrite aset_Some by lia. rewrite (u32_id (range r1 - bound)) by (unfold is_u32; lia).
    do 4 eexists. split; [done|]. split.
    + eapply spent_set; [done|lia|apply u32_range|]. eapply loss_prob; [| |done|]; lia.
    + split; [by rewrite length_insert|by apply Forall_insert].
Qed.

(** ** Sequences of bits *)

(** [k] modelled and [d] direct bits after [r0]. *)
Definition after (r0 r : rc_dec) (k d : nat) : Prop := ∃ n, spent r0 r k d n.

Lemma after_bit r0 r ps a i k d :
  start_ok r0 → after r0 r k d → fits k d →
  probs_ok ps → parr_ok a → 0 <= i < len_ a →
  ∃ bit r' ps', rc_bit r ps a i = Some (bit, r', ps') ∧ after r0 r' (S k) d ∧ probs_ok ps'.
Proof.
  intros H0 [n Hs] Hf Hp Ha Hi.
  destruct (rc_bit_ok r0 r ps a i k d n) as (bit & r' & ps' & n' & E & H & Hp'); [done..|].
  exists bit, r', ps'. split_and!; [done|by exists n'|done].
Qed.

(** The next symbol of a bit tree. *)
Lemma double_range (bit : bool) symbol j :
  (j <= 30)%nat → 2 ^ Z.of_nat j <= symbol < 2 ^ Z.of_nat (S j) →
  let symbol' := if bit then u32 (u32 (symbol << 1) + 1) else u32 (symbol << 1) in
  2 ^ Z.of_nat (S j) <= symbol' < 2 ^ Z.of_nat (S (S j)) ∧
  symbol' = 2 * symbol + (if bit then 1 else 0).
Proof.
  intros Hj Hs. rewrite Z.shiftl_mul_pow2 by lia. change (2 ^ 1) with 2.
  rewrite !(Nat2Z.inj_succ (S j)), !(Nat2Z.inj_succ j), !Z.pow_succ_r in * by lia.
  assert (2 ^ Z.of_nat j <= 2 ^ 30) by (apply Z.pow_le_mono_r; lia).
  rewrite (u32_id (symbol * 2)) by (unfold is_u32; lia).
  destruct bit; [rewrite u32_id by (unfold is_u32; lia)|]; lia.
Qed.

Lemma bittree_loop_ok r0 r ps a k d m j fuel symbol :
  start_ok r0 → after r0 r k d → probs_ok ps → parr_ok a →
  2 ^ Z.of_nat m <= len_ a → (j < m <= 8)%nat → fits (k + (m - j) - 1) d → (m - j <= fuel)%nat →
  2 ^ Z.of_nat j <= symbol < 2 ^ Z.of_nat (S j) →
  ∃ sym r' ps', bittree_loop fuel r ps a (2 ^ Z.of_nat m) symbol = Some (sym, r', ps') ∧
    after r0 r' (k + (m - j)) d ∧ probs_ok ps' ∧ 2 ^ Z.of_nat m <= sym < 2 ^ Z.of_nat (S m).
Proof.
  intros H0 Hs Hp Ha Hla. revert r ps k j symbol Hs Hp.
  induction fuel as [|fuel IH]; intros r ps k j symbol Hs Hp Hj Hk Hf Hsym; [lia|].
  assert (2 ^ Z.of_nat (S j) <= 2 ^ Z.of_nat m) by (apply Z.pow_le_mono_r; lia).
  destruct (after_bit r0 r ps a symbol k d) as (bit & r1 & ps1 & E & Hs1 & Hp1);
    [done|done|eapply fits_le; [done|lia..]|done..|lia|].
  cbn [bittree_loop]. rewrite E. cbn [mbind option_bind].
  destruct (double_range bit symbol j) as [Hd1 _]; [lia|done|].
  set (symbol' := if bit then _ else _) in *. clearbody symbol'.
  destruct (decide (S j = m)) as [<-|Hne].
  - rewrite (proj2 (Z.ltb_ge _ _)) by lia. exists symbol', r1, ps1.
    replace (k + (S j - j))%nat with (S k) by lia. split_and!; try done; lia.
  - assert (2 ^ Z.of_nat (S (S j)) <= 2 ^ Z.of_nat m) by (apply Z.pow_le_mono_r; lia).
    rewrite (proj2 (Z.ltb_lt _ _)) by lia.
    destruct (IH r1 ps1 (S k) (S j) symbol') as (sym & r' & ps' & E' & Hs' & Hp' & Hr);
      [done|done|lia|eapply fits_le; [done|lia..]|lia|done|].
    exists sym, r', ps'. replace (k + (m - j))%nat with (S k + (m - S j))%nat by lia. done.
Qed.

Lemma rc_bittree_ok r0 r ps a k d m :
  start_ok r0 → after r0 r k d → probs_ok ps → parr_ok a →
  2 ^ Z.of_nat m <= len_ a → (0 < m <= 8)%nat → fits (k + m - 1) d →
  ∃ sym r' ps', rc_bittree r ps a (2 ^ Z.of_nat m) = Some (sym, r', ps') ∧
    after r0 r' (k + m) d ∧ probs_ok ps' ∧ 2 ^ Z.of_nat m <= sym < 2 ^ Z.of_nat (S m).
Proof.
  intros H0 Hs Hp Ha Hla Hm Hf.
  destruct (bittree_loop_ok r0 r ps a k d m 0 32 1) as (sym & r' & ps' & E & H);
    [done..|lia|by rewrite Nat.sub_0_r|lia|cbn; lia|].
  exists sym, r', ps'. rewrite Nat.sub_0_r in H. done.
Qed.

(** [d0] is the value before the loop; after [i] bits less than [2^i] was
    added to it. *)
Lemma reverse_loop_ok r0 r ps a base k d n i symbol d0 dest :
  start_ok r0 → after r0 r k d → probs_ok ps → parr_ok a →
  fits (k + n - 1) d → (i + n <= 8)%nat → 2 ^ Z.of_nat i <= symbol < 2 ^ Z.of_nat (S i) →
  0 <= base + 1 → base + 2 ^ Z.of_nat (i + n) <= len_ a →
  0 <= d0 → d0 + 2 ^ Z.of_nat (i + n) <= 2 ^ 32 → d0 <= dest < d0 + 2 ^ Z.of_nat i →
  ∃ dest' r' ps', reverse_loop n r ps a base (Z.of_nat i) symbol dest = Some (dest', r', ps') ∧
    after r0 r' (k + n) d ∧ probs_ok ps' ∧ d0 <= dest' < d0 + 2 ^ Z.of_nat (i + n).
Proof.
  intros H0 Hs Hp Ha. revert r ps k i symbol dest Hs Hp.
  induction n as [|n IH]; intros r ps k i symbol dest Hs Hp Hk Hi Hsym Hb1 Hb2 Hd1 Hd2 Hdest.
  - exists dest, r, ps. rewrite !Nat.add_0_r in *. split_and!; try done; lia.
  - assert (2 ^ Z.of_nat (S i) <= 2 ^ Z.of_nat (i + S n)) by (apply Z.pow_le_mono_r; lia).
    assert (1 <= 2 ^ Z.of_nat i) by (apply (Z.pow_le_mono_r 2 0); lia).
    destruct (after_bit r0 r ps a (base + symbol) k d) as (bit & r1 & ps1 & E & Hs1 & Hp1);
      [done|done|eapply fits_le; [done|lia..]|done..|lia|].
    cbn [reverse_loop]. rewrite E. cbn [mbind option_bind].
    destruct (double_range bit symbol i) as [Hds _]; [lia|done|].
    assert (2 ^ Z.of_nat (S i) = 2 * 2 ^ Z.of_nat i) as E2
      by (rewrite Nat2Z.inj_succ, Z.pow_succ_r by lia; done).
    assert (2 ^ Z.of_nat i <= 2 ^ 8) by (apply Z.pow_le_mono_r; lia).
    rewrite Z.shiftl_1_l, (u32_id (2 ^ Z.of_nat i)) by (unfold is_u32; lia).
    rewrite (u32_id (dest + _)) by (unfold is_u32; lia).
    replace (i + S n)%nat with (S i + n)%nat in * by lia.
    replace (k + S n)%nat with (S k + n)%nat by lia.
    replace (Z.of_nat i + 1) with (Z.of_nat (S i)) by lia.
    destruct bit; eapply IH; first [done|lia|eapply fits_le; [done|lia..]].
Qed.

Lemma rc_bittree_reverse_ok r0 r ps a base k d n dest :
  start_ok r0 → after r0 r k d → probs_ok ps → parr_ok a →
  fits (k + n - 1) d → (0 < n <= 8)%nat →
  0 <= base + 1 → base + 2 ^ Z.of_nat n <= len_ a → 0 <= dest → dest + 2 ^ Z.of_nat n <= 2 ^ 32 →
  ∃ dest' r' ps', rc_bittree_reverse r ps a base dest (Z.of_nat n) = Some (dest', r', ps') ∧
    after r0 r' (k + n) d ∧ probs_ok ps' ∧ dest <= dest' < dest + 2 ^ Z.of_nat n.
Proof.
  intros H0 Hs Hp Ha Hf Hn Hb1 Hb2 Hd1 Hd2. unfold rc_bittree_reverse.
  rewrite (proj2 (Z.eqb_neq _ _)), Nat2Z.id by lia.
  eapply (reverse_loop_ok r0 r ps a base k d n 0 1 dest dest); done || (cbn; lia).
Qed.

Lemma direct_range rg :
  2 ^ 24 <= rg < 2 ^ 32 → range_min <= rg >> 1 < 2 ^ 32 ∧ rg * (2 ^ 23 - 1) <= (rg >> 1) * 2 ^ 24.
Proof. intros H. rewrite Z.shiftr_div_pow2 by lia. unfold range_min. zmod_lia. Qed.

Lemma direct_loop_ok r0 r k d n dest :
  start_ok r0 → after r0 r k d → (k <= 21)%nat → (d + n <= 26)%nat → is_u32 dest →
  ∃ dest' r', direct_loop n r dest = Some (dest', r') ∧ after r0 r' k (d + n) ∧ is_u32 dest'.
Proof.
  intros H0 Hs Hk. revert r d dest Hs.
  induction n as [|n IH]; intros r d dest Hs Hd Hdest.
  - exists dest, r. by rewrite Nat.add_0_r.
  - destruct Hs as [m Hs]. destruct (rc_normalize_ok r0 r k d m) as (r1 & m1 & E & Hs1 & Ht);
      [done|done|left; lia|].
    cbn [direct_loop]. rewrite E. cbn [mbind option_bind]. change RC_TOP_VALUE with (2 ^ 24) in Ht.
    pose proof (rc_range _ (sp_ok _ _ _ _ _ Hs1)) as Hr1.
    destruct (direct_range (range r1)) as [D1 D2]; [lia|].
    replace (d + S n)%nat with (S d + n)%nat by lia. eapply IH; [|lia|apply u32_range].
    exists m1. eapply spent_set; [done|done|apply u32_range|].
    eapply loss_direct; [apply Hs1|done].
Qed.

Lemma rc_direct_ok r0 r k d n dest :
  start_ok r0 → after r0 r k d → (k <= 21)%nat → (0 < n)%nat → (d + n <= 26)%nat → is_u32 dest →
  ∃ dest' r', rc_direct r dest (Z.of_nat n) = Some (dest', r') ∧ after r0 r' k (d + n) ∧ is_u32 dest'.
Proof.
  intros H0 Hs Hk Hn Hd Hdest. unfold rc_direct.
  rewrite (proj2 (Z.eqb_neq _ _)), Nat2Z.id by lia. by apply direct_loop_ok.
Qed.

(** ** Upper bounds on what was decoded *)

Definition upto (r0 r : rc_dec) (K D : nat) : Prop :=
  ∃ k d, (k <= K)%nat ∧ (d <= D)%nat ∧ after r0 r k d.

Lemma upto_start r : rc_ok r → upto r r 0 0.
Proof. intros H. exists 0%nat, 0%nat. split_and!; try lia. exists 0. by apply spent_refl. Qed.

Lemma upto_le r0 r K D K' D' : upto r0 r K D → (K <= K')%nat → (D <= D')%nat → upto r0 r K' D'.
Proof. intros (k & d & ? & ? & ?) ? ?. exists k, d. split_and!; [lia|lia|done]. Qed.

Lemma upto_bit r0 r ps a i K D :
  start_ok r0 → upto r0 r K D → fits K D → probs_ok ps → parr_ok a → 0 <= i < len_ a →
  ∃ bit r' ps', rc_bit r ps a i = Some (bit, r', ps') ∧ upto r0 r' (S K) D ∧ probs_ok ps'.
Proof.
  intros H0 (k & d & Hk & Hd & Hs) Hf Hp Ha Hi.
  destruct (after_bit r0 r ps a i k d) as (bit & r' & ps' & E & H & Hp');
    [done|done|by eapply fits_le|done..|].
  exists bit, r', ps'. split_and!; [done| |done]. exists (S k), d. split_and!; [lia|lia|done].
Qed.

Lemma upto_bittree r0 r ps a K D m lim :
  start_ok r0 → upto r0 r K D → probs_ok ps → parr_ok a → lim = 2 ^ Z.of_nat m →
  lim <= len_ a → (0 < m <= 8)%nat → fits (K + m - 1) D →
  ∃ sym r' ps', rc_bittree r ps a lim = Some (sym, r', ps') ∧
    upto r0 r' (K + m) D ∧ probs_ok ps' ∧ lim <= sym < 2 * lim.
Proof.
  intros H0 (k & d & Hk & Hd & Hs) Hp Ha -> Hl Hm Hf.
  destruct (rc_bittree_ok r0 r ps a k d m) as (sym & r' & ps' & E & H & Hp' & Hr);
    [done..|eapply fits_le; [done|lia..]|].
  exists sym, r', ps'. split_and!; [done| |done|lia|].
  - exists (k + m)%nat, d. split_and!; [lia|lia|done].
  - rewrite Nat2Z.inj_succ, Z.pow_succ_r in Hr by lia. lia.
Qed.

Lemma upto_reverse r0 r ps a base K D n lim dest :
  start_ok r0 → upto r0 r K D → probs_ok ps → parr_ok a → lim = Z.of_nat n →
  fits (K + n - 1) D → (0 < n <= 8)%nat →
  0 <= base + 1 → base + 2 ^ lim <= len_ a → 0 <= dest → dest + 2 ^ lim <= 2 ^ 32 →
  ∃ dest' r' ps', rc_bittree_reverse r ps a base dest lim = Some (dest', r', ps') ∧
    upto r0 r' (K + n) D ∧ probs_ok ps' ∧ dest <= dest' < dest + 2 ^ lim.
Proof.
  intros H0 (k & d & Hk & Hd & Hs) Hp Ha -> Hf Hn Hb1 Hb2 Hd1 Hd2.
  destruct (rc_bittree_reverse_ok r0 r ps a base k d n dest) as (dest' & r' & ps' & E & H & Hp' & Hr);
    [done|done|done|done|eapply fits_le; [done|lia..]|done..|].
  exists dest', r', ps'. split_and!; [done| |done|lia|lia].
  exists (k + n)%nat, d. split_and!; [lia|lia|done].
Qed.

Lemma upto_direct r0 r K n lim dest :
  start_ok r0 → upto r0 r K 0 → (K <= 21)%nat → lim = Z.of_nat n → (0 < n <= 26)%nat → is_u32 dest →
  ∃ dest' r', rc_direct r dest lim = Some (dest', r') ∧ upto r0 r' K n ∧ is_u32 dest'.
Proof.
  intros H0 (k & d & Hk & Hd & Hs) HK -> Hn Hdest. assert (d = 0%nat) as -> by lia.
  destruct (rc_direct_ok r0 r k 0 n dest) as (dest' & r' & E & H & Hr); [done..|lia|lia|lia|done|].
  exists dest', r'. split_and!; [done| |done]. exists k, n. split_and!; [lia|lia|done].
Qed.

(** The final normalization of [lzma_main]: one more byte at most. *)
Lemma normalize_end r :
  rc_ok r → rc_in_pos r < zlen (rc_in r) →
  ∃ r', rc_normalize r = Some r' ∧ rc_ok r' ∧ rc_in r' = rc_in r ∧ in_limit r' = in_limit r ∧
    init_bytes_left r' = init_bytes_left r ∧ rc_in_pos r <= rc_in_pos r' <= rc_in_pos r + 1 ∧
    RC_TOP_VALUE <= range r'.
Proof.
  intros Hok Hp. pose proof Hok as [Hr Hc Hpos Hb Hl]. unfold rc_normalize.
  destruct (Z.ltb_spec (range r) RC_TOP_VALUE) as [Ht|Ht]; [|exists r; split_and!; done || lia].
  destruct (aget_Some (rc_in r) (rc_in_pos r)) as (x & -> & Hx); [lia|].
  cbn [mbind option_bind]. change RC_TOP_VALUE with (2 ^ 24) in *.
  assert (u32 (range r << RC_SHIFT_BITS) = range r * 256) as E.
  { rewrite Z.shiftl_mul_pow2 by (unfold RC_SHIFT_BITS; lia). change (2 ^ RC_SHIFT_BITS) with 256.
    apply u32_id. unfold is_u32, range_min in *. lia. }
  eexists. split; [done|]. cbn. rewrite E, u64_id by (unfold is_u64; lia).
  unfold range_min in *. split_and!; try done; try lia.
  split; cbn; rewrite ?E, ?u64_id by (unfold is_u64; lia); try done; try lia;
    [unfold range_min; lia|apply u32_range].
Qed.

End XzRange.
