(* ===== verification/XzLzmaSafe.v ===== *)
(** * The LZMA core is memory safe and terminates
    ([hook_sdk/src/xz/xz_dec_lzma2.c], section LZMA)

    For any input bytes, [lzma_main] reads only inside its input window, the
    probability arrays and the dictionary, writes only below the dictionary
    limit, and returns. *)

From S2P Require Import Prelude XzLzma XzDict XzRange.
Import XzLzma XzDict XzRange.

Module XzLzmaSafe.

(** ** Invariant of the LZMA state *)

(** After a match the last distance is valid in the dictionary. *)
Record lz_ok (z : lzma_dec) : Prop := {
  z_state : 0 <= state z < STATES;
  z_reps : is_u32 (rep0 z) ∧ is_u32 (rep1 z) ∧ is_u32 (rep2 z) ∧ is_u32 (rep3 z);
  z_len : is_u32 (len z);
  z_lit : ∃ lp, 0 <= lc z ∧ 0 <= lp ∧ lc z + lp <= 4 ∧ literal_pos_mask z = 2 ^ lp - 1;
  z_pos : ∃ pb, 0 <= pb <= 4 ∧ pos_mask z = 2 ^ pb - 1;
  z_probs : probs_ok (probs z)
}.

Definition rep_valid (z : lzma_dec) (d : dictionary) : Prop :=
  LIT_STATES <= state z → rep0 z < full d.

(** Reduce binds and the projections of an explicit state, nothing else. *)
Ltac proj_state :=
  repeat match goal with
  | |- context [dict (mk_lzma ?r ?d ?z)] => change (dict (mk_lzma r d z)) with d
  | |- context [rc (mk_lzma ?r ?d ?z)] => change (rc (mk_lzma r d z)) with r
  | |- context [lz (mk_lzma ?r ?d ?z)] => change (lz (mk_lzma r d z)) with z
  end.
Ltac next := cbv [negb mbind option_bind]; proj_state.

(** ** Arrays *)

Lemma row_ok a n i :
  parr_ok a → 0 < n → 0 <= i → (i + 1) * n <= len_ a →
  parr_ok (row a n i) ∧ len_ (row a n i) = n.
Proof.
  intros (H1 & H2 & H3) Hn Hi Hl. unfold row.
  rewrite (proj2 (Z.leb_le 0 i)), (proj2 (Z.leb_le _ (len_ a))) by lia. cbn.
  split; [|done]. unfold parr_ok. cbn. nia.
Qed.

Ltac solve_parr := unfold parr_ok; cbn; vm_compute; intuition congruence.

Lemma arrays_ok :
  parr_ok is_match ∧ parr_ok is_rep ∧ parr_ok is_rep0 ∧ parr_ok is_rep1 ∧ parr_ok is_rep2 ∧
  parr_ok is_rep0_long ∧ parr_ok dist_slot_arr ∧ parr_ok dist_special ∧ parr_ok dist_align ∧
  parr_ok literal.
Proof. split_and!; solve_parr. Qed.

(** A length decoder is one of the two in [struct lzma_dec]. *)
Definition len_dec (l : Z) : Prop := l = match_len_dec ∨ l = rep_len_dec.

Lemma len_arrays_ok l :
  len_dec l →
  parr_ok (choice l) ∧ parr_ok (choice2 l) ∧ parr_ok (low l) ∧ parr_ok (mid l) ∧ parr_ok (high l).
Proof. intros [-> | ->]; split_and!; solve_parr. Qed.

(** ** Bits on the decoder state *)

Lemma s_bit_ok r0 s a i K D :
  start_ok r0 → upto r0 (rc s) K D → fits K D → probs_ok (probs (lz s)) → parr_ok a →
  0 <= i < len_ a →
  ∃ bit r' ps', s_bit s a i = Some (bit, mk_lzma r' (dict s) (set_probs (lz s) ps')) ∧
    upto r0 r' (S K) D ∧ probs_ok ps'.
Proof.
  intros H0 Hs Hf Hp Ha Hi. unfold s_bit.
  destruct (upto_bit r0 (rc s) (probs (lz s)) a i K D) as (bit & r' & ps' & -> & H & Hp'); [done..|].
  exists bit, r', ps'. done.
Qed.

Lemma s_bittree_ok r0 s a K D m lim :
  start_ok r0 → upto r0 (rc s) K D → probs_ok (probs (lz s)) → parr_ok a →
  lim = 2 ^ Z.of_nat m → lim <= len_ a → (0 < m <= 8)%nat → fits (K + m - 1) D →
  ∃ sym r' ps', s_bittree s a lim = Some (sym, mk_lzma r' (dict s) (set_probs (lz s) ps')) ∧
    upto r0 r' (K + m) D ∧ probs_ok ps' ∧ lim <= sym < 2 * lim.
Proof.
  intros H0 Hs Hp Ha Hl Hla Hm Hf. unfold s_bittree.
  destruct (upto_bittree r0 (rc s) (probs (lz s)) a K D m lim) as (sym & r' & ps' & -> & H & Hp' & Hr);
    [done..|].
  exists sym, r', ps'. done.
Qed.

(** ** Literals *)

Lemma literal_row_ok s :
  dict_ok (dict s) → lz_ok (lz s) →
  ∃ a, lzma_literal_probs s = Some a ∧ parr_ok a ∧ len_ a = LITERAL_CODER_SIZE.
Proof.
  intros Hd Hz. unfold lzma_literal_probs.
  assert (∃ x, dict_get (dict s) 0 = Some x ∧ is_u8 x) as (x & -> & Hx).
  { destruct (decide (full (dict s) = 0)) as [E|E].
    - exists 0. split; [by apply dict_get_empty|unfold is_u8; lia].
    - destruct (dict_get_ok (dict s) 0) as (x & E1 & _ & E2); [done|destruct Hd; lia|]. eauto. }
  cbn [mbind option_bind]. eexists. split; [done|].
  destruct (z_lit _ Hz) as (lp & Hlc & Hlp & Hsum & ->). set (c := lc (lz s)) in *.
  assert (0 <= x >> (8 - c) < 2 ^ c) as Hlo.
  { rewrite Z.shiftr_div_pow2 by lia. unfold is_u8 in Hx. split; [apply Z.div_pos; lia|].
    apply Z.div_lt_upper_bound; [lia|]. rewrite <- Z.pow_add_r by lia.
    replace (8 - c + c) with 8 by lia. lia. }
  rewrite land_ones_mod, Z.shiftl_mul_pow2 by lia.
  pose proof (Z.mod_pos_bound (pos (dict s)) (2 ^ lp) ltac:(lia)) as Hhi.
  set (m := pos (dict s) mod 2 ^ lp) in *.
  assert (2 ^ c * 2 ^ lp <= 16) as Hp.
  { rewrite <- Z.pow_add_r by lia. apply (Z.pow_le_mono_r 2 _ 4); lia. }
  assert (0 < 2 ^ c) by lia.
  rewrite (u32_id (m * 2 ^ c)), u32_id by (unfold is_u32; nia).
  destruct (row_ok literal LITERAL_CODER_SIZE (x >> (8 - c) + m * 2 ^ c)) as [R1 R2].
  - apply arrays_ok.
  - vm_compute. done.
  - lia.
  - cbn. unfold LITERAL_CODER_SIZE, LITERAL_CODERS_MAX. nia.
  - done.
Qed.

(** The offset of the matched-literal loop is 0 or 0x100. *)
Lemma offset_cases mb offset (bit : bool) :
  offset = 0 ∨ offset = 0x100 →
  (mb .& offset = 0 ∨ mb .& offset = 0x100) ∧ mb .& offset <= offset ∧
  (let o := if bit then offset .& (mb .& offset) else offset .& not32 (mb .& offset) in
   o = 0 ∨ o = 0x100).
Proof.
  intros [-> | ->].
  - rewrite Z.land_0_r. split_and!; [by left|lia|]. destruct bit; by left.
  - change 0x100 with (2 ^ 8). rewrite land_pow2 by lia.
    destruct (Z.testbit mb 8); split_and!; try lia; destruct bit; vm_compute; auto.
Qed.

Lemma matched_loop_ok r0 s a K D mb offset symbol j fuel :
  start_ok r0 → upto r0 (rc s) K D → probs_ok (probs (lz s)) → parr_ok a →
  len_ a = LITERAL_CODER_SIZE → offset = 0 ∨ offset = 0x100 →
  (j < 8)%nat → fits (K + (8 - j) - 1) D → (8 - j <= fuel)%nat →
  2 ^ Z.of_nat j <= symbol < 2 ^ Z.of_nat (S j) →
  ∃ sym r' ps', matched_loop fuel s a mb offset symbol =
      Some (sym, mk_lzma r' (dict s) (set_probs (lz s) ps')) ∧
    upto r0 r' (K + (8 - j)) D ∧ probs_ok ps' ∧ 0x100 <= sym < 0x200.
Proof.
  intros H0 Hs Hp Ha Hla. revert s K mb offset symbol j Hs Hp.
  induction fuel as [|fuel IH]; intros s K mb offset symbol j Hs Hp Ho Hj Hf Hfu Hsym; [lia|].
  cbn [matched_loop].
  assert (2 ^ Z.of_nat (S j) <= 2 ^ 8) by (apply Z.pow_le_mono_r; lia).
  assert (1 <= 2 ^ Z.of_nat j) by (apply (Z.pow_le_mono_r 2 0); lia).
  destruct (offset_cases mb offset true Ho) as (Hm & Hm' & _).
  rewrite (u32_id (offset + mb .& offset + symbol)) by (unfold is_u32; lia).
  destruct (s_bit_ok r0 s a (offset + mb .& offset + symbol) K D) as (bit & r1 & ps1 & -> & Hs1 & Hp1);
    [done|done|eapply fits_le; [done|lia..]|done..|rewrite Hla; unfold LITERAL_CODER_SIZE; lia|].
  cbn [mbind option_bind]. destruct (offset_cases mb offset bit Ho) as (_ & _ & Ho').
  destruct (double_range bit symbol j) as [Hd _]; [lia|done|].
  assert ((if bit then (u32 (u32 (symbol << 1) + 1), offset .& (mb .& offset))
           else (u32 (symbol << 1), offset .& not32 (mb .& offset)))
          = (if bit then u32 (u32 (symbol << 1) + 1) else u32 (symbol << 1),
             if bit then offset .& (mb .& offset) else offset .& not32 (mb .& offset))) as ->
    by (by destruct bit).
  set (sym1 := if bit then u32 _ else _) in *. set (o1 := if bit then offset .& _ else _) in *.
  clearbody sym1 o1. destruct (decide (j = 7%nat)) as [->|Hne].
  - rewrite (proj2 (Z.ltb_ge _ _)) by (change (2 ^ Z.of_nat 8) with 256 in Hd; lia).
    exists sym1, r1, ps1. replace (K + (8 - 7))%nat with (S K) by lia.
    split_and!; try done; change (2 ^ Z.of_nat 8) with 256 in Hd; change (2 ^ Z.of_nat 9) with 512 in Hd; lia.
  - assert (2 ^ Z.of_nat (S (S j)) <= 2 ^ 8) by (apply Z.pow_le_mono_r; lia).
    rewrite (proj2 (Z.ltb_lt _ _)) by lia.
    destruct (IH (mk_lzma r1 (dict s) (set_probs (lz s) ps1)) (S K) (u32 (mb << 1)) o1 sym1 (S j))
      as (sym & r' & ps' & E & Hs' & Hp' & Hr);
      [done|done|done|lia|eapply fits_le; [done|lia..]|lia|done|].
    exists sym, r', ps'. replace (K + (8 - j))%nat with (S K + (8 - S j))%nat by lia.
    rewrite E. done.
Qed.

(** *** State transitions *)

Lemma state_literal_range st :
  0 <= st < STATES → 0 <= lzma_state_literal st < LIT_STATES.
Proof.
  unfold STATES, LIT_STATES, lzma_state_literal, STATE_SHORTREP_LIT_LIT, STATE_LIT_LIT,
    STATE_LIT_SHORTREP. intros H. case_cmp; lia.
Qed.

Lemma state_nonlit_range st :
  LIT_STATES <= lzma_state_match st < STATES ∧ LIT_STATES <= lzma_state_long_rep st < STATES ∧
  LIT_STATES <= lzma_state_short_rep st < STATES.
Proof.
  unfold lzma_state_match, lzma_state_long_rep, lzma_state_short_rep.
  destruct (st <? LIT_STATES); vm_compute; intuition congruence.
Qed.

Lemma lz_ok_update z z' :
  lz_ok z → 0 <= state z' < STATES →
  is_u32 (rep0 z') → is_u32 (rep1 z') → is_u32 (rep2 z') → is_u32 (rep3 z') →
  is_u32 (len z') → lc z' = lc z → literal_pos_mask z' = literal_pos_mask z →
  pos_mask z' = pos_mask z → probs_ok (probs z') → lz_ok z'.
Proof.
  intros [? ? ? Hl Hp ?] ? ? ? ? ? ? E1 E2 E3 ?.
  split; try done; [by rewrite E1, E2|by rewrite E3].
Qed.

(** What symbol decoding may change of the dictionary. *)
Record dict_ext (d d' : dictionary) : Prop := {
  x_start : start d' = start d;
  x_limit : limit d' = limit d;
  x_end : end_ d' = end_ d;
  x_size : size d' = size d;
  x_size_max : size_max d' = size_max d;
  x_alloc : allocated d' = allocated d;
  x_pos : pos d <= pos d';
  x_full : full d <= full d'
}.

#[export] Instance dict_ext_preorder : PreOrder dict_ext.
Proof.
  split; [intros d; split; done || lia|].
  intros d1 d2 d3 [] []. split; congruence || lia.
Qed.

Lemma advance_ext d bs p : pos d <= p → dict_ext d (advance d bs p).
Proof. intros H. split; try done. cbn. destruct (Z.ltb_spec (full d) p); lia. Qed.

Lemma upto_facts r0 r K D :
  upto r0 r K D →
  rc_ok r ∧ rc_in r = rc_in r0 ∧ in_limit r = in_limit r0 ∧ init_bytes_left r = init_bytes_left r0 ∧
  rc_in_pos r0 <= rc_in_pos r <= rc_in_pos r0 + 20.
Proof. intros (k & d & _ & _ & n & []). split_and!; try done; lia. Qed.

Lemma lzma_literal_ok r0 s K D :
  start_ok r0 → upto r0 (rc s) K D → fits (K + 7) D →
  dict_ok (dict s) → dict_has_space (dict s) = true → lz_ok (lz s) → rep_valid (lz s) (dict s) →
  ∃ s', lzma_literal s = Some s' ∧ upto r0 (rc s') (K + 8) D ∧ dict_ok (dict s') ∧
    dict_ext (dict s) (dict s') ∧ pos (dict s') = pos (dict s) + 1 ∧ lz_ok (lz s') ∧
    state (lz s') < LIT_STATES ∧ len (lz s') = len (lz s).
Proof.
  intros H0 Hs Hf Hd Hsp Hz Hrv. unfold lzma_literal.
  destruct (literal_row_ok s Hd Hz) as (a & -> & Ha & Hla). cbn [mbind option_bind].
  pose proof (z_probs _ Hz) as Hp.
  assert (∃ sym r' ps',
    (if lzma_state_is_literal (state (lz s)) then s_bittree s a 0x100
     else mb ← dict_get (dict s) (rep0 (lz s)); matched_loop 32 s a (u32 (mb << 1)) 0x100 1)
    = Some (sym, mk_lzma r' (dict s) (set_probs (lz s) ps')) ∧
    upto r0 r' (K + 8) D ∧ probs_ok ps') as (sym & r' & ps' & -> & Hs' & Hp').
  { unfold lzma_state_is_literal. destruct (Z.ltb_spec (state (lz s)) LIT_STATES) as [Hst|Hst].
    - destruct (s_bittree_ok r0 s a K D 8 0x100) as (sym & r' & ps' & E & H1 & H2 & _);
        [done..|rewrite Hla; vm_compute; congruence|lia|eapply fits_le; [done|lia..]|]. eauto 10.
    - specialize (Hrv Hst). destruct (z_reps _ Hz) as (Hr0 & _).
      destruct (dict_get_ok (dict s) (rep0 (lz s))) as (mb & -> & _ & _); [done|unfold is_u32 in Hr0; lia|].
      cbn [mbind option_bind].
      destruct (matched_loop_ok r0 s a K D (u32 (mb << 1)) 0x100 1 0 32)
        as (sym & r' & ps' & E & H1 & H2 & _);
        [done..|by right|lia|eapply fits_le; [done|lia..]|lia|cbn; lia|]. eauto 10. }
  cbn [mbind option_bind]. cbn [dict rc lz].
  destruct (dict_put_ok (dict s) (u8 sym) Hd Hsp) as (d' & -> & Hd' & _ & Ed); [apply u8_range|].
  cbn [mbind option_bind]. eexists. split; [done|]. cbn [rc dict lz].
  pose proof (state_literal_range _ (z_state _ Hz)) as Hst.
  destruct (z_reps _ Hz) as (? & ? & ? & ?).
  split_and!; [done|done|rewrite Ed; apply advance_ext; lia|by rewrite Ed| |cbn; lia|done].
  apply (lz_ok_update (lz s)); try done; [|apply Hz]. cbn. unfold LIT_STATES, STATES in *. lia.
Qed.

(** ** Lengths *)


Lemma lzma_len_ok r0 s l pos_state K D :
  start_ok r0 → upto r0 (rc s) K D → fits (K + 9) D → probs_ok (probs (lz s)) →
  len_dec l → 0 <= pos_state < POS_STATES_MAX →
  ∃ r' ps' n, lzma_len s l pos_state = Some (mk_lzma r' (dict s) (set_len (set_probs (lz s) ps') n)) ∧
    upto r0 r' (K + 10) D ∧ probs_ok ps' ∧ MATCH_LEN_MIN <= n <= 273.
Proof.
  intros H0 Hs Hf Hp Hl Hps. destruct (len_arrays_ok l Hl) as (A1 & A2 & A3 & A4 & A5).
  unfold POS_STATES_MAX in Hps.
  destruct (row_ok (low l) LEN_LOW_SYMBOLS pos_state) as [R1 R1'];
    [done|done|lia|cbn; unfold LEN_LOW_SYMBOLS, POS_STATES_MAX; lia|].
  destruct (row_ok (mid l) LEN_MID_SYMBOLS pos_state) as [R2 R2'];
    [done|done|lia|cbn; unfold LEN_MID_SYMBOLS, POS_STATES_MAX; lia|].
  unfold lzma_len.
  destruct (s_bit_ok r0 s (choice l) 0 K D) as (b1 & r1 & ps1 & -> & Hs1 & Hp1);
    [done|done|eapply fits_le; [done|lia..]|done|done|done|].
  cbn [mbind option_bind]. destruct b1; next.
  - destruct (s_bit_ok r0 (mk_lzma r1 (dict s) (set_probs (lz s) ps1)) (choice2 l) 0 (S K) D)
      as (b2 & r2 & ps2 & -> & Hs2 & Hp2); [done|done|eapply fits_le; [done|lia..]|done|done|done|].
    cbn [mbind option_bind]. destruct b2; next.
    + destruct (s_bittree_ok r0 (mk_lzma r2 (dict s) (set_probs (set_probs (lz s) ps1) ps2)) (high l)
        (S (S K)) D 8 LEN_HIGH_SYMBOLS) as (sym & r3 & ps3 & -> & Hs3 & Hp3 & Hr);
        [done..|lia|eapply fits_le; [done|lia..]|].
      cbn [mbind option_bind]. exists r3, ps3. eexists. split; [done|].
      unfold LEN_HIGH_SYMBOLS, MATCH_LEN_MIN, LEN_LOW_SYMBOLS, LEN_MID_SYMBOLS in *.
      rewrite (u32_id (sym - 256)), u32_id by (unfold is_u32; lia).
      split_and!; [eapply upto_le; [done|lia..]|done|lia|lia].
    + destruct (s_bittree_ok r0 (mk_lzma r2 (dict s) (set_probs (set_probs (lz s) ps1) ps2))
        (row (mid l) LEN_MID_SYMBOLS pos_state) (S (S K)) D 3 LEN_MID_SYMBOLS)
        as (sym & r3 & ps3 & -> & Hs3 & Hp3 & Hr);
        [done..|rewrite R2'; lia|lia|eapply fits_le; [done|lia..]|].
      cbn [mbind option_bind]. exists r3, ps3. eexists. split; [done|].
      unfold MATCH_LEN_MIN, LEN_LOW_SYMBOLS, LEN_MID_SYMBOLS in *.
      rewrite (u32_id (sym - 8)), u32_id by (unfold is_u32; lia).
      split_and!; [eapply upto_le; [done|lia..]|done|lia|lia].
  - destruct (s_bittree_ok r0 (mk_lzma r1 (dict s) (set_probs (lz s) ps1))
      (row (low l) LEN_LOW_SYMBOLS pos_state) (S K) D 3 LEN_LOW_SYMBOLS)
      as (sym & r3 & ps3 & -> & Hs3 & Hp3 & Hr);
      [done..|rewrite R1'; lia|lia|eapply fits_le; [done|lia..]|].
    cbn [mbind option_bind]. exists r3, ps3. eexists. split; [done|].
    unfold MATCH_LEN_MIN, LEN_LOW_SYMBOLS in *.
    rewrite (u32_id (sym - 8)), u32_id by (unfold is_u32; lia).
    split_and!; [eapply upto_le; [done|lia..]|done|lia|lia].
Qed.

(** ** Matches *)

(** The distance slots that use [dist_special]: the row starts inside the
    array (its index 0 is never used) and ends inside it. *)
Lemma slot_special slot :
  DIST_MODEL_START <= slot < DIST_MODEL_END →
  ∃ n, u32 ((slot >> 1) - 1) = Z.of_nat n ∧ (0 < n <= 5)%nat ∧
  let base := u32 ((2 + (slot .& 1)) << Z.of_nat n) in
  0 <= base - slot - 1 + 1 ∧ base - slot - 1 + 2 ^ Z.of_nat n <= len_ dist_special ∧
  0 <= base <= 96.
Proof.
  unfold DIST_MODEL_START, DIST_MODEL_END. intros H.
  assert (slot ∈ [4; 5; 6; 7; 8; 9; 10; 11; 12; 13]) as Hin by (rewrite !elem_of_cons; lia).
  rewrite !elem_of_cons in Hin. repeat destruct Hin as [->|Hin]; [..|by apply elem_of_nil in Hin];
    match goal with |- context [u32 ((?x >> 1) - 1)] => exists (Z.to_nat ((x >> 1) - 1)) end;
    (split; [done|split; [vm_compute; lia|vm_compute; intuition congruence]]).
Qed.

Lemma slot_direct slot :
  DIST_MODEL_END <= slot < DIST_SLOTS →
  let n := Z.to_nat ((slot >> 1) - 5) in
  u32 (u32 ((slot >> 1) - 1) - ALIGN_BITS) = Z.of_nat n ∧ (0 < n <= 26)%nat ∧ is_u32 (2 + (slot .& 1)).
Proof.
  unfold DIST_MODEL_END, DIST_SLOTS. intros H. cbn zeta.
  mask_mod. rewrite Z.shiftr_div_pow2 by lia. change (2 ^ 1) with 2.
  rewrite (u32_id (slot / 2 - 1)) by (unfold is_u32; zmod_lia).
  rewrite u32_id by (unfold is_u32, ALIGN_BITS; zmod_lia). unfold is_u32, ALIGN_BITS. zmod_lia.
Qed.

(** A shifted word leaves room for the bits shifted in. *)
Lemma u32_shiftl_room x n : is_u32 x → 0 <= n <= 32 → u32 (x << n) + 2 ^ n <= 2 ^ 32.
Proof.
  intros Hx Hn. rewrite Z.shiftl_mul_pow2 by lia. unfold u32.
  replace (2 ^ 32) with (2 ^ (32 - n) * 2 ^ n) by (rewrite <- Z.pow_add_r by lia; f_equal; lia).
  rewrite Zmult_mod_distr_r. pose proof (Z.mod_pos_bound x (2 ^ (32 - n)) ltac:(lia)).
  assert (0 < 2 ^ n) by lia. nia.
Qed.

(** The distance of a match: [rep0] is set, the rest of the state kept. *)
Lemma match_dist_ok r0 s slot K :
  start_ok r0 → upto r0 (rc s) K 0 → (K <= 18)%nat → probs_ok (probs (lz s)) →
  0 <= slot < DIST_SLOTS →
  ∃ r' ps' d0, match_dist s slot =
      Some (mk_lzma r' (dict s)
              (set_probs (set_reps (lz s) d0 (rep1 (lz s)) (rep2 (lz s)) (rep3 (lz s))) ps')) ∧
    upto r0 r' 25 26 ∧ probs_ok ps' ∧ is_u32 d0.
Proof.
  intros H0 Hs HK Hp Hslot. unfold match_dist.
  destruct (Z.ltb_spec slot DIST_MODEL_START) as [H1|H1].
  { exists (rc s), (probs (lz s)), slot. unfold DIST_MODEL_START in H1.
    split_and!; [done|eapply upto_le; [done|lia..]|done|unfold is_u32; lia]. }
  destruct (Z.ltb_spec slot DIST_MODEL_END) as [H2|H2].
  - destruct (slot_special slot) as (n & -> & Hn & B1 & B2 & B3); [lia|]. cbn zeta in *.
    set (base := u32 ((2 + slot .& 1) << Z.of_nat n)) in *.
    assert (2 ^ Z.of_nat n <= 2 ^ 5) by (apply Z.pow_le_mono_r; lia).
    destruct (upto_reverse r0 (rc s) (probs (lz s)) dist_special (base - slot - 1) K 0 n (Z.of_nat n) base)
      as (d' & r' & ps' & -> & Hs' & Hp' & Hr);
      [done..|apply arrays_ok|done|right; lia|lia|lia|lia|lia|lia|].
    next. exists r', ps', d'. split_and!; [done|eapply upto_le; [done|lia..]|done|unfold is_u32; lia].
  - destruct (slot_direct slot) as (E & Hn & Hb); [lia|]. cbn zeta in *. rewrite E.
    set (n := Z.to_nat ((slot >> 1) - 5)) in *.
    destruct (upto_direct r0 (rc s) K n (Z.of_nat n) (2 + slot .& 1)) as (d1 & r1 & -> & Hs1 & Hd1);
      [done|done|lia|done|lia|done|]. next.
    destruct (upto_reverse r0 r1 (probs (lz s)) dist_align 0 K n 4 ALIGN_BITS (u32 (d1 << ALIGN_BITS)))
      as (d' & r' & ps' & -> & Hs' & Hp' & Hr);
      [done..|apply arrays_ok|done|left; lia|lia|lia|vm_compute; congruence| | |].
    { apply u32_range. }
    { apply u32_shiftl_room; [done|unfold ALIGN_BITS; lia]. }
    next. exists r', ps', d'. split_and!; [done|eapply upto_le; [done|lia..]|done|].
    pose proof (u32_range (d1 << ALIGN_BITS)) as Hu.
    pose proof (u32_shiftl_room d1 ALIGN_BITS Hd1 ltac:(unfold ALIGN_BITS; lia)). unfold is_u32 in *. lia.
Qed.

(** What a decoded match or repeated match has set. *)
Record match_post (r0 : rc_dec) (s s' : lzma) : Prop := {
  m_rc : upto r0 (rc s') 25 26;
  m_dict : dict s' = dict s;
  m_lz : lz_ok (lz s');
  m_state : LIT_STATES <= state (lz s');
  m_len : 0 < len (lz s') <= 273
}.

Lemma lz_ok_probs z ps : lz_ok z → probs_ok ps → lz_ok (set_probs z ps).
Proof. intros [] ?. by split. Qed.

Lemma lz_ok_state z st : lz_ok z → 0 <= st < STATES → lz_ok (set_state z st).
Proof. intros [] ?. by split. Qed.

Lemma lz_ok_len z n : lz_ok z → is_u32 n → lz_ok (set_len z n).
Proof. intros [] ?. by split. Qed.

Lemma lz_ok_reps z r0 r1 r2 r3 :
  lz_ok z → is_u32 r0 → is_u32 r1 → is_u32 r2 → is_u32 r3 → lz_ok (set_reps z r0 r1 r2 r3).
Proof. intros [] ? ? ? ?. by split. Qed.

Lemma len_u32 n : MATCH_LEN_MIN <= n <= 273 → is_u32 n ∧ 0 < n <= 273.
Proof. unfold MATCH_LEN_MIN, is_u32. lia. Qed.

Lemma nonlit_states st : LIT_STATES <= st < STATES → 0 <= st < STATES.
Proof. unfold LIT_STATES, STATES. lia. Qed.

Lemma lzma_match_ok r0 s pos_state K :
  start_ok r0 → upto r0 (rc s) K 0 → (K <= 2)%nat → lz_ok (lz s) →
  0 <= pos_state < POS_STATES_MAX →
  ∃ s', lzma_match s pos_state = Some s' ∧ match_post r0 s s'.
Proof.
  intros H0 Hs HK Hz Hps. unfold lzma_match, with_lz. proj_state.
  destruct (state_nonlit_range (state (lz s))) as (Hst & _ & _).
  destruct (z_reps _ Hz) as (? & ? & ? & ?).
  set (z1 := set_reps _ _ _ _ _). assert (lz_ok z1) as Hz1
    by (apply lz_ok_reps; try done; by apply lz_ok_state, nonlit_states).
  destruct (lzma_len_ok r0 (mk_lzma (rc s) (dict s) z1) match_len_dec pos_state K 0)
    as (r1 & ps1 & n & -> & Hs1 & Hp1 & Hn); [done|done|right; lia|apply Hz1|by left|done|].
  next. destruct (len_u32 n Hn) as [Hn' Hn''].
  set (z2 := set_len (set_probs z1 ps1) n). assert (lz_ok z2) as Hz2
    by (apply lz_ok_len; [by apply lz_ok_probs|done]).
  destruct (row_ok dist_slot_arr DIST_SLOTS (lzma_get_dist_state (len z2))) as [R R'];
    [apply arrays_ok|done|subst z2; cbn|subst z2; cbn|].
  1, 2: unfold lzma_get_dist_state, MATCH_LEN_MIN, DIST_STATES, DIST_SLOTS in *; case_cmp; lia.
  destruct (s_bittree_ok r0 (mk_lzma r1 (dict s) z2)
    (row dist_slot_arr DIST_SLOTS (lzma_get_dist_state (len z2))) (K + 10) 0 6 DIST_SLOTS)
    as (slot & r2 & ps2 & -> & Hs2 & Hp2 & Hslot); [done..|rewrite R'; lia|lia|right; lia|].
  next. unfold DIST_SLOTS in Hslot.
  rewrite (u32_id (slot - DIST_SLOTS)) by (unfold is_u32, DIST_SLOTS; lia).
  destruct (match_dist_ok r0 (mk_lzma r2 (dict s) (set_probs z2 ps2)) (slot - DIST_SLOTS) (K + 10 + 6))
    as (r3 & ps3 & d0 & E & Hs3 & Hp3 & Hd0); [done|done|lia|done|unfold DIST_SLOTS; lia|].
  eexists. split; [exact E|]. proj_state. split; proj_state; [done|done| |cbn; lia|done].
  apply lz_ok_probs; [|done]. by apply lz_ok_reps; [apply lz_ok_probs|..].
Qed.

(** The common tail of the repeated matches: new state and length. *)
Lemma long_rep_ok r0 r s z pos_state K :
  start_ok r0 → upto r0 r K 0 → (K <= 5)%nat → lz_ok z →
  0 <= pos_state < POS_STATES_MAX →
  ∃ s', lzma_len (mk_lzma r (dict s) (set_state z (lzma_state_long_rep (state z))))
          rep_len_dec pos_state = Some s' ∧ match_post r0 s s'.
Proof.
  intros H0 Hs HK Hz Hps. destruct (state_nonlit_range (state z)) as (_ & Hst & _).
  set (z1 := set_state z _). assert (lz_ok z1) as Hz1 by (by apply lz_ok_state, nonlit_states).
  destruct (lzma_len_ok r0 (mk_lzma r (dict s) z1) rep_len_dec pos_state K 0)
    as (r1 & ps1 & n & E & Hs1 & Hp1 & Hn); [done|done|right; lia|apply Hz1|by right|done|].
  destruct (len_u32 n Hn) as [Hn' Hn''].
  eexists. split; [exact E|]. split; proj_state; [eapply upto_le; [done|lia..]|done| |cbn; lia|done].
  apply lz_ok_len; [by apply lz_ok_probs|done].
Qed.

Lemma lzma_rep_match_ok r0 s pos_state K :
  start_ok r0 → upto r0 (rc s) K 0 → (K <= 2)%nat → lz_ok (lz s) →
  0 <= pos_state < POS_STATES_MAX →
  ∃ s', lzma_rep_match s pos_state = Some s' ∧ match_post r0 s s'.
Proof.
  intros H0 Hs HK Hz Hps. pose proof (z_state _ Hz) as Hst. pose proof (z_probs _ Hz) as Hp.
  destruct (z_reps _ Hz) as (? & ? & ? & ?). unfold STATES in Hst.
  destruct arrays_ok as (_ & _ & A0 & A1 & A2 & A3 & _). unfold lzma_rep_match.
  destruct (s_bit_ok r0 s is_rep0 (state (lz s)) K 0) as (b1 & r1 & ps1 & -> & Hs1 & Hp1);
    [done|done|right; lia|done|done|done|].
  next. set (z1 := set_probs (lz s) ps1). assert (lz_ok z1) as Hz1 by (by apply lz_ok_probs).
  destruct b1.
  - destruct (s_bit_ok r0 (mk_lzma r1 (dict s) z1) is_rep1 (state z1) (S K) 0)
      as (b2 & r2 & ps2 & -> & Hs2 & Hp2); [done|done|right; lia|done|done|done|].
    next. set (z2 := set_probs z1 ps2). assert (lz_ok z2) as Hz2 by (by apply lz_ok_probs).
    destruct b2.
    + destruct (s_bit_ok r0 (mk_lzma r2 (dict s) z2) is_rep2 (state z2) (S (S K)) 0)
        as (b3 & r3 & ps3 & -> & Hs3 & Hp3); [done|done|right; lia|done|done|done|].
      next. set (z3 := set_probs z2 ps3). assert (lz_ok z3) as Hz3 by (by apply lz_ok_probs).
      destruct b3; unfold with_lz; proj_state;
        (eapply (long_rep_ok r0 r3 s); [done|done|lia|by apply lz_ok_reps|done]).
    + unfold with_lz; proj_state.
      eapply (long_rep_ok r0 r2 s); [done|done|lia|by apply lz_ok_reps|done].
  - destruct (row_ok is_rep0_long POS_STATES_MAX (state z1)) as [R R'];
      [done|done|apply Hst|cbn; unfold STATES, POS_STATES_MAX; lia|].
    destruct (s_bit_ok r0 (mk_lzma r1 (dict s) z1) (row is_rep0_long POS_STATES_MAX (state z1))
      pos_state (S K) 0) as (b2 & r2 & ps2 & -> & Hs2 & Hp2);
      [done|done|right; lia|done|done|by rewrite R'|].
    next. set (z2 := set_probs z1 ps2). assert (lz_ok z2) as Hz2 by (by apply lz_ok_probs).
    unfold with_lz; proj_state. destruct b2.
    + eapply (long_rep_ok r0 r2 s); [done|done|lia|done|done].
    + destruct (state_nonlit_range (state z2)) as (_ & _ & Hst2).
      eexists. split; [done|]. split; proj_state; [eapply upto_le; [done|lia..]|done| |apply Hst2|cbn; lia].
      apply lz_ok_len; [by apply lz_ok_state, nonlit_states|unfold is_u32; lia].
Qed.

(** ** One symbol *)

(** What the loop of [lzma_main] keeps. [pending]: a match that did not fit
    has filled the dictionary up to the limit and its distance is valid. *)
Record sym_ok (s : lzma) : Prop := {
  y_rc : rc_ok (rc s);
  y_dict : dict_ok (dict s);
  y_lz : lz_ok (lz s);
  y_rep : rep_valid (lz s) (dict s)
}.

Definition pending_ok (s : lzma) : Prop :=
  0 < len (lz s) → rep0 (lz s) < full (dict s) ∧ pos (dict s) = limit (dict s).

Record sym_post (s s' : lzma) : Prop := {
  p_dict : dict_ext (dict s) (dict s');
  p_lz : lz_ok (lz s');
  p_dict_ok : dict_ok (dict s');
  p_rc : rc_ok (rc s');
  p_in : rc_in (rc s') = rc_in (rc s);
  p_limit : in_limit (rc s') = in_limit (rc s);
  p_init : init_bytes_left (rc s') = init_bytes_left (rc s);
  p_pos : rc_in_pos (rc s) <= rc_in_pos (rc s') <= rc_in_pos (rc s) + 20
}.

(** The copy that ends a match. *)
Lemma match_finish s s1 :
  dict_ok (dict s) → dict_has_space (dict s) = true → lz_ok (lz s1) →
  LIT_STATES <= state (lz s1) → 0 < len (lz s1) <= 273 →
  rc_ok (rc s1) → rc_in (rc s1) = rc_in (rc s) → in_limit (rc s1) = in_limit (rc s) →
  init_bytes_left (rc s1) = init_bytes_left (rc s) →
  rc_in_pos (rc s) <= rc_in_pos (rc s1) <= rc_in_pos (rc s) + 20 →
  ∃ ok s',
    match dict_repeat (dict s) (len (lz s1)) (rep0 (lz s1)) with
    | Some (ok, d, n) => Some (ok, mk_lzma (rc s1) d (set_len (lz s1) n))
    | None => None
    end = Some (ok, s') ∧ sym_post s s' ∧
    (ok = true → pos (dict s) < pos (dict s') ∧ rep_valid (lz s') (dict s') ∧ pending_ok s').
Proof.
  intros Hd Hsp Hz Hst Hn Hrc. destruct (z_reps _ Hz) as (Hr0 & _). unfold is_u32 in Hr0.
  destruct (dict_repeat_ok (dict s) (len (lz s1)) (rep0 (lz s1))) as (ok & d' & n' & -> & Hd' & Hc);
    [done|done|lia|lia|].
  unfold dict_has_space in Hsp. apply Z.ltb_lt in Hsp. exists ok. eexists. split; [done|].
  destruct Hc as [(-> & -> & -> & _)|(-> & Hf & -> & Ed & _)].
  - split; [|done]. split; proj_state; try done. by apply lz_ok_len; [|apply Hz].
  - pose proof (advance_ext (dict s) (buf d') (pos (dict s) + Z.min (limit (dict s) - pos (dict s)) (len (lz s1)))
      ltac:(lia)) as Hx. rewrite <- Ed in Hx.
    assert (pos d' = pos (dict s) + Z.min (limit (dict s) - pos (dict s)) (len (lz s1))) as Hpos
      by (by rewrite Ed).
    destruct Hx as []. split.
    + split; proj_state; try done. apply lz_ok_len; [done|unfold is_u32; lia].
    + intros _. unfold rep_valid, pending_ok. proj_state. cbn. split_and!; lia.
Qed.

Lemma lzma_symbol_ok s :
  sym_ok s → start_ok (rc s) → dict_has_space (dict s) = true → len (lz s) = 0 →
  ∃ ok s', lzma_symbol s = Some (ok, s') ∧ sym_post s s' ∧
    (ok = true → pos (dict s) < pos (dict s') ∧ rep_valid (lz s') (dict s') ∧ pending_ok s').
Proof.
  intros [Hrc Hd Hz Hrv] H0 Hsp Hlen. pose proof (z_state _ Hz) as Hst. pose proof (z_probs _ Hz) as Hp.
  destruct arrays_ok as (A0 & A1 & _). unfold lzma_symbol.
  destruct (z_pos _ Hz) as (pb & Hpb & ->). rewrite land_ones_mod by lia.
  assert (0 <= pos (dict s) mod 2 ^ pb < POS_STATES_MAX) as Hps.
  { pose proof (Z.mod_pos_bound (pos (dict s)) (2 ^ pb) ltac:(lia)).
    assert (2 ^ pb <= 2 ^ 4) by (apply Z.pow_le_mono_r; lia). unfold POS_STATES_MAX. lia. }
  set (pos_state := pos (dict s) mod 2 ^ pb) in *. clearbody pos_state.
  destruct (row_ok is_match POS_STATES_MAX (state (lz s))) as [R R'];
    [done|done|lia|cbn; unfold STATES, POS_STATES_MAX in *; lia|].
  destruct (s_bit_ok (rc s) s (row is_match POS_STATES_MAX (state (lz s))) pos_state 0 0)
    as (b1 & r1 & ps1 & -> & Hs1 & Hp1); [done|by apply upto_start|left; lia|done|done|by rewrite R'|].
  next. set (z1 := set_probs (lz s) ps1). assert (lz_ok z1) as Hz1 by (by apply lz_ok_probs).
  destruct b1.
  - destruct (s_bit_ok (rc s) (mk_lzma r1 (dict s) z1) is_rep (state z1) 1 0)
      as (b2 & r2 & ps2 & -> & Hs2 & Hp2); [done|done|left; lia|done|done|done|].
    next. set (z2 := set_probs z1 ps2). assert (lz_ok z2) as Hz2 by (by apply lz_ok_probs).
    assert (∃ s', (if b2 then lzma_rep_match (mk_lzma r2 (dict s) z2) pos_state
                   else lzma_match (mk_lzma r2 (dict s) z2) pos_state) = Some s' ∧
                  match_post (rc s) s s') as (s1 & -> & [M1 M2 M3 M4 M5]).
    { assert (∀ s', match_post (rc s) (mk_lzma r2 (dict s) z2) s' → match_post (rc s) s s')
        by (intros s' []; by split).
      destruct b2; [destruct (lzma_rep_match_ok (rc s) (mk_lzma r2 (dict s) z2) pos_state 2)
                      as (s' & -> & ?)
                   |destruct (lzma_match_ok (rc s) (mk_lzma r2 (dict s) z2) pos_state 2)
                      as (s' & -> & ?)]; try done; try lia; eauto. }
    next. rewrite M2. apply upto_facts in M1 as (? & ? & ? & ? & ?).
    apply (match_finish s s1); done || lia.
  - destruct (lzma_literal_ok (rc s) (mk_lzma r1 (dict s) z1) 1 0)
      as (s' & -> & Hs' & Hd' & Hx & Hpos & Hz' & Hst' & Hl'); [done|done|right; lia|done|done|done|done|].
    next. exists true, s'. split; [done|]. proj_state. split.
    + apply upto_facts in Hs' as (? & ? & ? & ? & ?). by split.
    + intros _. cbn in Hpos, Hl'. split; [lia|]. split; [unfold rep_valid; lia|unfold pending_ok; lia].
Qed.

(** ** The symbol loop *)

(** The state [lzma_main] starts from: room for a whole symbol beyond the
    input limit, and a pending match whose distance was checked. *)
Record main_pre (s : lzma) : Prop := {
  n_sym : sym_ok s;
  n_pos : rc_in_pos (rc s) <= in_limit (rc s) + 20;
  n_room : in_limit (rc s) + 21 <= zlen (rc_in (rc s));
  n_pending : 0 < len (lz s) → rep0 (lz s) < full (dict s)
}.

Record main_post (ok : bool) (s s' : lzma) : Prop := {
  f_dict : dict_ext (dict s) (dict s');
  f_dict_ok : dict_ok (dict s');
  f_lz : lz_ok (lz s');
  f_rc : rc_ok (rc s');
  f_in : rc_in (rc s') = rc_in (rc s);
  f_limit : in_limit (rc s') = in_limit (rc s);
  f_init : init_bytes_left (rc s') = init_bytes_left (rc s);
  f_pos : rc_in_pos (rc s) <= rc_in_pos (rc s') <= in_limit (rc s) + 21;
  f_ok : ok = true →
    rep_valid (lz s') (dict s') ∧
    (0 < len (lz s') → rep0 (lz s') < full (dict s') ∧ pos (dict s') = limit (dict s')) ∧
    (pos (dict s') = limit (dict s') ∨ in_limit (rc s') < rc_in_pos (rc s')) ∧
    (dict_has_space (dict s) = true → rc_in_pos (rc s) <= in_limit (rc s) → pos (dict s) < pos (dict s'))
}.

Lemma main_end s :
  main_pre s → pending_ok s →
  dict_has_space (dict s) && negb (rc_limit_exceeded (rc s)) = false →
  ∃ s', (r ← rc_normalize (rc s); Some (true, mk_lzma r (dict s) (lz s))) = Some (true, s') ∧
    main_post true s s'.
Proof.
  intros [[Hrc Hd Hz Hrv] Hpos Hroom _] Hpen Hend.
  destruct (normalize_end (rc s)) as (r' & -> & Hr' & E1 & E2 & E3 & Hp & _); [done|lia|].
  next. eexists. split; [done|]. split; proj_state; try done; [lia|].
  rewrite andb_false_iff, negb_false_iff in Hend. unfold dict_has_space, rc_limit_exceeded in *.
  rewrite Z.ltb_ge, Z.ltb_lt in Hend. rewrite Z.ltb_lt.
  intros _. split_and!; [done|apply Hpen..| |lia]. rewrite E2. destruct Hd. lia.
Qed.

Lemma main_loop_ok n s :
  main_pre s → pending_ok s → limit (dict s) - pos (dict s) < Z.of_nat n →
  ∃ ok s', main_loop n s = Some (ok, s') ∧ main_post ok s s'.
Proof.
  revert s. induction n as [|n IH]; intros s Hpre Hpen Hn; [destruct Hpre as [[_ [] _ _] _ _]; lia|].
  cbn [main_loop]. destruct (_ && _) eqn:Ec.
  2: { destruct (main_end s Hpre Hpen Ec) as (s' & E & Hs'). exists true, s'. done. }
  apply andb_true_iff in Ec as [Hsp Hlim]. apply negb_true_iff in Hlim.
  unfold rc_limit_exceeded in Hlim. apply Z.ltb_ge in Hlim.
  pose proof Hpre as [Hsym Hpos Hroom _]. pose proof Hsym as [Hrc Hd Hz _].
  assert (len (lz s) = 0) as Hlen.
  { pose proof Hsp as Hsp'. unfold dict_has_space in Hsp'. apply Z.ltb_lt in Hsp'.
    destruct (z_len _ Hz). destruct (decide (0 < len (lz s))) as [Hl|]; [|lia].
    destruct (Hpen Hl). lia. }
  destruct (lzma_symbol_ok s) as (ok & s1 & -> & [P1 P2 P3 P4 P5 P6 P7 P8] & Hok); [done|by split|done|done|].
  next. pose proof P1 as []. destruct ok.
  - destruct (Hok eq_refl) as (Hadv & Hrv & Hpen1).
    destruct (IH s1) as (ok & s' & -> & [F1 F2 F3 F4 F5 F6 F7 F8 F9]); [|done|lia|].
    { split; [by split|lia|by rewrite P5, P6|apply Hpen1]. }
    exists ok, s'. split; [done|]. split; try done; [by etrans|congruence..|rewrite P6 in F8; lia|].
    intros Hok'. destruct (F9 Hok') as (? & ? & ? & _). split_and!; try done. destruct F1. lia.
  - exists false, s1. split; [done|]. split; try done. lia.
Qed.

Lemma lzma_main_ok s :
  main_pre s → ∃ ok s', lzma_main s = Some (ok, s') ∧ main_post ok s s'.
Proof.
  intros Hpre. pose proof Hpre as [[Hrc Hd Hz Hrv] Hpos Hroom Hpend]. unfold lzma_main.
  destruct (dict_has_space (dict s) && (0 <? len (lz s))) eqn:Ec.
  - apply andb_true_iff in Ec as [Hsp Hl]. apply Z.ltb_lt in Hl.
    destruct (z_reps _ Hz) as (Hr0 & _). pose proof (z_len _ Hz) as Hlen. unfold is_u32 in Hr0, Hlen.
    destruct (dict_repeat_ok (dict s) (len (lz s)) (rep0 (lz s))) as (ok & d' & n' & -> & Hd' & Hc);
      [done|done|lia|lia|].
    unfold dict_has_space in Hsp. apply Z.ltb_lt in Hsp. next.
    destruct Hc as [(_ & _ & _ & Hbad)|(_ & Hf & -> & Ed & _)]; [specialize (Hpend Hl); lia|].
    set (k := Z.min (limit (dict s) - pos (dict s)) (len (lz s))) in *.
    pose proof (advance_ext (dict s) (buf d') (pos (dict s) + k) ltac:(lia)) as Hx. rewrite <- Ed in Hx.
    assert (pos d' = pos (dict s) + k) as Hpd by (by rewrite Ed). pose proof Hx as [].
    destruct (main_loop_ok (S (Z.to_nat (limit d' - pos d'))) (mk_lzma (rc s) d' (set_len (lz s) (len (lz s) - k))))
      as (ok' & s' & -> & [F1 F2 F3 F4 F5 F6 F7 F8 F9]).
    + split; [split|..]; proj_state; try done.
      * apply lz_ok_len; [done|unfold is_u32; lia].
      * intros Hst. specialize (Hrv Hst). cbn in *. lia.
      * cbn. lia.
    + intros Hl'. proj_state. cbn in *. lia.
    + proj_state. destruct Hd'. lia.
    + exists ok', s'. split; [done|]. split; try done; [by etrans|].
      intros Hok'. destruct (F9 Hok') as (? & ? & ? & _). split_and!; try done. destruct F1. cbn in *. lia.
  - next. apply main_loop_ok; [done| |destruct Hd; lia].
    intros Hl. rewrite (proj2 (Z.ltb_lt _ _)), andb_true_r in Ec by done.
    unfold dict_has_space in Ec. apply Z.ltb_ge in Ec. split; [by apply Hpend|destruct Hd; lia].
Qed.

(** Decoding LZMA is memory safe, bounded and terminates. From a
    well-formed decoder whose input window has 21 bytes beyond the input
    limit, [lzma_main] returns for every input: no access leaves the input,
    the probability arrays or the dictionary and no loop runs without end. It
    reads at most 21 bytes beyond the limit, writes the dictionary only below
    its limit, and keeps the decoder well-formed. If it succeeds, the
    dictionary is filled up to the limit or the input limit is reached, so the
    caller makes progress; a match that was cut has a valid distance. *)
Theorem lzma_main_safe s :
  main_pre s →
  ∃ ok s', lzma_main s = Some (ok, s') ∧
    dict_ok (dict s') ∧ lz_ok (lz s') ∧ rc_ok (rc s') ∧ dict_ext (dict s) (dict s') ∧
    rc_in_pos (rc s) <= rc_in_pos (rc s') <= in_limit (rc s) + 21 ∧
    (ok = true →
       rep_valid (lz s') (dict s') ∧
       (pos (dict s') = limit (dict s') ∨ in_limit (rc s') < rc_in_pos (rc s')) ∧
       (0 < len (lz s') → rep0 (lz s') < full (dict s'))).
Proof.
  intros Hpre. destruct (lzma_main_ok s Hpre) as (ok & s' & E & []). exists ok, s'.
  split_and!; try done; [apply f_pos0..|].
  intros Hok. destruct (f_ok0 Hok) as (? & Hl & ? & _). split_and!; [done|done|apply Hl].
Qed.

(** The state after [lzma_reset], with 22 input bytes and a limit of 1. *)
Definition demo_lzma : lzma :=
  let s := mk_lzma (mk_rc_dec (2 ^ 32 - 1) 0 0 (replicate 22 0x5a) 0 1) demo_dict
             (mk_lzma_dec 0 0 0 0 0 0 3 0 3 []) in
  lzma_reset s.

Lemma demo_main_pre : main_pre demo_lzma.
Proof.
  split; [split| | |].
  - split; try done; apply Forall_replicate; done.
  - exact demo_dict_ok.
  - split; try done.
    + exists 0. done.
    + exists 2. split; [lia|done].
    + split; [done|]. apply Forall_replicate. vm_compute. split; congruence.
  - intros H. done.
  - vm_compute. congruence.
  - vm_compute. congruence.
  - intros H. done.
Qed.

Lemma lzma_main_safe_witness :
  main_pre demo_lzma ∧ ∃ ok s', lzma_main demo_lzma = Some (ok, s') ∧ dict_ok (dict s').
Proof.
  split; [exact demo_main_pre|].
  destruct (lzma_main_safe demo_lzma demo_main_pre) as (ok & s' & E & H & _).
  exists ok, s'. split; [exact E|exact H].
Defined.

End XzLzmaSafe.
