(* ===== verification/XzLzma2.v ===== *)
(** * LZMA2 layer ([hook_sdk/src/xz/xz_dec_lzma2.c], [xz_config.h])

    Chunk parsing, the input window of the LZMA core ([lzma2_lzma]) and the
    decoder entry points [xz_dec_lzma2_create], [_reset] and [_run]. *)

From S2P Require Import Prelude XzLzma.
Import XzLzma.

Module XzLzma2.

(** [enum xz_ret] of [xz.h]. *)
Inductive xz_ret : Set :=
| XZ_OK | XZ_STREAM_END | XZ_UNSUPPORTED_CHECK | XZ_MEM_ERROR | XZ_MEMLIMIT_ERROR
| XZ_FORMAT_ERROR | XZ_OPTIONS_ERROR | XZ_DATA_ERROR | XZ_BUF_ERROR.

#[export] Instance xz_ret_eq_dec : EqDecision xz_ret.
Proof. solve_decision. Defined.

Inductive lzma2_seq : Set :=
| SEQ_CONTROL | SEQ_UNCOMPRESSED_1 | SEQ_UNCOMPRESSED_2 | SEQ_COMPRESSED_0 | SEQ_COMPRESSED_1
| SEQ_PROPERTIES | SEQ_LZMA_PREPARE | SEQ_LZMA_RUN | SEQ_COPY.

#[export] Instance lzma2_seq_eq_dec : EqDecision lzma2_seq.
Proof. solve_decision. Defined.

Definition LZMA_IN_REQUIRED : Z := 21.

Record lzma2_dec : Set := mk_lzma2_dec {
  sequence : lzma2_seq;
  next_sequence : lzma2_seq;
  uncompressed : Z;
  compressed : Z;
  need_dict_reset : bool;
  need_props : bool
}.

(** [temp] is the buffer of [3 * LZMA_IN_REQUIRED] bytes, [temp_size] bytes of
    which are in use. *)
Record xz_dec_lzma2 : Set := mk_xz_dec_lzma2 {
  core : lzma;
  lzma2 : lzma2_dec;
  temp_size : Z;
  temp_buf : list Z
}.

Definition set_core (s : xz_dec_lzma2) (c : lzma) : xz_dec_lzma2 :=
  mk_xz_dec_lzma2 c (lzma2 s) (temp_size s) (temp_buf s).
Definition set_lzma2 (s : xz_dec_lzma2) (l : lzma2_dec) : xz_dec_lzma2 :=
  mk_xz_dec_lzma2 (core s) l (temp_size s) (temp_buf s).
Definition set_temp (s : xz_dec_lzma2) (n : Z) (bs : list Z) : xz_dec_lzma2 :=
  mk_xz_dec_lzma2 (core s) (lzma2 s) n bs.
Definition set_sequence (l : lzma2_dec) (q : lzma2_seq) : lzma2_dec :=
  mk_lzma2_dec q (next_sequence l) (uncompressed l) (compressed l) (need_dict_reset l) (need_props l).
Definition set_next (l : lzma2_dec) (q : lzma2_seq) : lzma2_dec :=
  mk_lzma2_dec (sequence l) q (uncompressed l) (compressed l) (need_dict_reset l) (need_props l).
Definition set_uncompressed (l : lzma2_dec) (n : Z) : lzma2_dec :=
  mk_lzma2_dec (sequence l) (next_sequence l) n (compressed l) (need_dict_reset l) (need_props l).
Definition set_compressed (l : lzma2_dec) (n : Z) : lzma2_dec :=
  mk_lzma2_dec (sequence l) (next_sequence l) (uncompressed l) n (need_dict_reset l) (need_props l).
Definition set_needs (l : lzma2_dec) (dr np : bool) : lzma2_dec :=
  mk_lzma2_dec (sequence l) (next_sequence l) (uncompressed l) (compressed l) dr np.

Definition set_dict (c : lzma) (d : dictionary) : lzma := mk_lzma (rc c) d (lz c).
Definition set_rc (c : lzma) (r : rc_dec) : lzma := mk_lzma r (dict c) (lz c).

(** [s->rc.in = buf; s->rc.in_pos = p; s->rc.in_limit = lim]. *)
Definition set_rc_in (c : lzma) (bs : list Z) (p lim : Z) : lzma :=
  set_rc c (mk_rc_dec (range (rc c)) (code (rc c)) (init_bytes_left (rc c)) bs p lim).

(** ** [lzma2_lzma] *)

(** The first part, decoding from [temp]: [inl] returns from the function,
    [inr] continues. *)
Definition lzma2_temp (s : xz_dec_lzma2) (b : xz_buf) :
  option ((bool * xz_dec_lzma2 * xz_buf) + (xz_dec_lzma2 * xz_buf)) :=
  let in_avail := u64 (in_size b - in_pos b) in
  let c := compressed (lzma2 s) in
  if (0 <? temp_size s) || (c =? 0) then
    let tmp := u32 (2 * LZMA_IN_REQUIRED - temp_size s) in
    let tmp := if u32 (c - temp_size s) <? tmp then u32 (c - temp_size s) else tmp in
    let tmp := if in_avail <? tmp then u32 in_avail else tmp in
    src ← slice (in_ b) (in_pos b) tmp;
    bs ← splice (temp_buf s) (temp_size s) src;
    let filled := u32 (temp_size s + tmp) in
    '(bs, go) ←
      (if filled =? c then
         bs ← splice bs filled (replicate (Z.to_nat (63 - temp_size s - tmp)) 0);
         Some (bs, Some filled)
       else if filled <? LZMA_IN_REQUIRED then Some (bs, None)
       else Some (bs, Some (u32 (filled - LZMA_IN_REQUIRED))));
    match go with
    | None =>
        Some (inl (true, set_temp s filled bs, set_in_pos b (u64 (in_pos b + tmp))))
    | Some lim =>
        '(ok, k) ← lzma_main (set_rc_in (core s) bs 0 lim);
        let s := set_temp (set_core s k) (temp_size s) bs in
        let used := rc_in_pos (rc k) in
        if negb ok || (filled <? used) then Some (inl (false, s, b))
        else
          let s := set_lzma2 s (set_compressed (lzma2 s) (u32 (c - used))) in
          if used <? temp_size s then
            let n := u32 (temp_size s - used) in
            src ← slice bs used n;
            bs ← splice bs 0 src;
            Some (inl (true, set_temp s n bs, b))
          else
            Some (inr (set_temp s 0 bs, set_in_pos b (u64 (in_pos b + (used - temp_size s)))))
    end
  else Some (inr (s, b)).

(** The second part, decoding from the caller's buffer; [None] inside is the
    error return. *)
Definition lzma2_direct (s : xz_dec_lzma2) (b : xz_buf) :
  option (option xz_dec_lzma2 * xz_buf) :=
  let in_avail := u64 (in_size b - in_pos b) in
  if LZMA_IN_REQUIRED <=? in_avail then
    let c := compressed (lzma2 s) in
    let lim := if u32 (c + LZMA_IN_REQUIRED) <=? in_avail
               then u64 (in_pos b + c) else u64 (in_size b - LZMA_IN_REQUIRED) in
    '(ok, k) ← lzma_main (set_rc_in (core s) (in_ b) (in_pos b) lim);
    let s := set_core s k in
    if negb ok then Some (None, b)
    else
      let in_avail := u64 (rc_in_pos (rc k) - in_pos b) in
      if c <? in_avail then Some (None, b)
      else
        Some (Some (set_lzma2 s (set_compressed (lzma2 s) (u32 (c - in_avail)))),
              set_in_pos b (rc_in_pos (rc k)))
  else Some (Some s, b).

(** The last part: keep a short rest of the input in [temp]. *)
Definition lzma2_save (s : xz_dec_lzma2) (b : xz_buf) : option (xz_dec_lzma2 * xz_buf) :=
  let in_avail := u64 (in_size b - in_pos b) in
  if in_avail <? LZMA_IN_REQUIRED then
    let n := if compressed (lzma2 s) <? in_avail then compressed (lzma2 s) else in_avail in
    src ← slice (in_ b) (in_pos b) n;
    bs ← splice (temp_buf s) 0 src;
    Some (set_temp s (u32 n) bs, set_in_pos b (u64 (in_pos b + n)))
  else Some (s, b).

Definition lzma2_lzma (s : xz_dec_lzma2) (b : xz_buf) : option (bool * xz_dec_lzma2 * xz_buf) :=
  r ← lzma2_temp s b;
  match r with
  | inl res => Some res
  | inr (s, b) =>
      '(os, b) ← lzma2_direct s b;
      match os with
      | None => Some (false, s, b)
      | Some s => '(s, b) ← lzma2_save s b; Some (true, s, b)
      end
  end.

(** ** [xz_dec_lzma2_run] *)

(** A step of the state machine either returns or goes round the loop. *)
Inductive action : Set := Return (r : xz_ret) | Continue.

Definition step_control (s : xz_dec_lzma2) (b : xz_buf) : option (action * xz_dec_lzma2 * xz_buf) :=
  '(tmp, b) ← next_in b;
  if tmp =? 0x00 then Some (Return XZ_STREAM_END, s, b)
  else
    let l := lzma2 s in
    let reset := (0xE0 <=? tmp) || (tmp =? 0x01) in
    if negb reset && need_dict_reset l then Some (Return XZ_DATA_ERROR, s, b)
    else
      let s := if (reset : bool)
               then set_lzma2 (set_core s (set_dict (core s) (dict_reset (dict (core s)))))
                      (set_needs l false true)
               else s in
      let l := lzma2 s in
      if 0x80 <=? tmp then
        let l := set_sequence (set_uncompressed l (u32 ((tmp .& 0x1F) << 16))) SEQ_UNCOMPRESSED_1 in
        if 0xC0 <=? tmp then
          Some (Continue, set_lzma2 s (set_next (set_needs l (need_dict_reset l) false) SEQ_PROPERTIES), b)
        else if need_props l then Some (Return XZ_DATA_ERROR, set_lzma2 s l, b)
        else
          let s := set_lzma2 s (set_next l SEQ_LZMA_PREPARE) in
          Some (Continue, (if 0xA0 <=? tmp then set_core s (lzma_reset (core s)) else s), b)
      else if 0x02 <? tmp then Some (Return XZ_DATA_ERROR, s, b)
      else Some (Continue, set_lzma2 s (set_next (set_sequence l SEQ_COMPRESSED_0) SEQ_COPY), b).

Definition step_lzma_run (s : xz_dec_lzma2) (b : xz_buf) : option (action * xz_dec_lzma2 * xz_buf) :=
  let d := dict_limit (dict (core s)) (min_ (u64 (out_size b - out_pos b)) (uncompressed (lzma2 s))) in
  '(ok, s, b) ← lzma2_lzma (set_core s (set_dict (core s) d)) b;
  if negb ok then Some (Return XZ_DATA_ERROR, s, b)
  else
    '(d, b, n) ← dict_flush (dict (core s)) b;
    let s := set_core s (set_dict (core s) d) in
    let left := u32 (uncompressed (lzma2 s) - n) in
    let s := set_lzma2 s (set_uncompressed (lzma2 s) left) in
    if left =? 0 then
      if (0 <? compressed (lzma2 s)) || (0 <? len (lz (core s))) || negb (rc_is_finished (rc (core s)))
      then Some (Return XZ_DATA_ERROR, s, b)
      else
        Some (Continue, set_lzma2 (set_core s (set_rc (core s) (rc_reset (rc (core s)))))
                          (set_sequence (lzma2 s) SEQ_CONTROL), b)
    else if (out_pos b =? out_size b) ||
            ((in_pos b =? in_size b) && (temp_size s <? compressed (lzma2 s)))
    then Some (Return XZ_OK, s, b)
    else Some (Continue, s, b).

Definition step_prepare (s : xz_dec_lzma2) (b : xz_buf) : option (action * xz_dec_lzma2 * xz_buf) :=
  if compressed (lzma2 s) <? RC_INIT_BYTES then Some (Return XZ_DATA_ERROR, s, b)
  else
    '(ok, r, b) ← rc_read_init (rc (core s)) b;
    let s := set_core s (set_rc (core s) r) in
    if negb ok then Some (Return XZ_OK, s, b)
    else
      let l := set_compressed (lzma2 s) (u32 (compressed (lzma2 s) - RC_INIT_BYTES)) in
      step_lzma_run (set_lzma2 s (set_sequence l SEQ_LZMA_RUN)) b.

(** One round of the [switch], with its fall-throughs. *)
Definition lzma2_step (s : xz_dec_lzma2) (b : xz_buf) : option (action * xz_dec_lzma2 * xz_buf) :=
  let l := lzma2 s in
  match sequence l with
  | SEQ_CONTROL => step_control s b
  | SEQ_UNCOMPRESSED_1 =>
      '(x, b) ← next_in b;
      Some (Continue, set_lzma2 s (set_sequence (set_uncompressed l
              (u32 (uncompressed l + u32 (x << 8)))) SEQ_UNCOMPRESSED_2), b)
  | SEQ_UNCOMPRESSED_2 =>
      '(x, b) ← next_in b;
      Some (Continue, set_lzma2 s (set_sequence (set_uncompressed l
              (u32 (uncompressed l + u32 (x + 1)))) SEQ_COMPRESSED_0), b)
  | SEQ_COMPRESSED_0 =>
      '(x, b) ← next_in b;
      Some (Continue, set_lzma2 s (set_sequence (set_compressed l (u32 (x << 8))) SEQ_COMPRESSED_1), b)
  | SEQ_COMPRESSED_1 =>
      '(x, b) ← next_in b;
      Some (Continue, set_lzma2 s (set_sequence (set_compressed l
              (u32 (compressed l + u32 (x + 1)))) (next_sequence l)), b)
  | SEQ_PROPERTIES =>
      '(x, b) ← next_in b;
      '(ok, k) ← lzma_props (core s) x;
      let s := set_core s k in
      if negb ok then Some (Return XZ_DATA_ERROR, s, b)
      else step_prepare (set_lzma2 s (set_sequence l SEQ_LZMA_PREPARE)) b
  | SEQ_LZMA_PREPARE => step_prepare s b
  | SEQ_LZMA_RUN => step_lzma_run s b
  | SEQ_COPY =>
      '(d, b, rest) ← dict_uncompressed (dict (core s)) b (compressed l);
      let s := set_lzma2 (set_core s (set_dict (core s) d)) (set_compressed l rest) in
      if 0 <? rest then Some (Return XZ_OK, s, b)
      else Some (Continue, set_lzma2 s (set_sequence (lzma2 s) SEQ_CONTROL), b)
  end.

(** [n] is fuel: every round that continues consumes input or produces
    output. *)
Fixpoint run_loop (n : nat) (s : xz_dec_lzma2) (b : xz_buf) : option (xz_ret * xz_dec_lzma2 * xz_buf) :=
  match n with
  | O => None
  | S n =>
      if (in_pos b <? in_size b) || bool_decide (sequence (lzma2 s) = SEQ_LZMA_RUN) then
        '(a, s, b) ← lzma2_step s b;
        match a with
        | Return r => Some (r, s, b)
        | Continue => run_loop n s b
        end
      else Some (XZ_OK, s, b)
  end.

Definition xz_dec_lzma2_run (s : xz_dec_lzma2) (b : xz_buf) : option (xz_ret * xz_dec_lzma2 * xz_buf) :=
  run_loop (S (Z.to_nat (in_size b - in_pos b + (out_size b - out_pos b)))) s b.

(** ** Creation and reset *)

(** [calloc]: every field starts as zero; the enumerations as their first
    constructors. *)
Definition xz_dec_lzma2_create (dict_max : Z) : xz_dec_lzma2 :=
  mk_xz_dec_lzma2
    (mk_lzma (mk_rc_dec 0 0 0 [] 0 0) (mk_dictionary [] 0 0 0 0 0 0 dict_max 0)
       (mk_lzma_dec 0 0 0 0 0 0 0 0 0 (replicate (Z.to_nat PROBS_TOTAL) 0)))
    (mk_lzma2_dec SEQ_CONTROL SEQ_CONTROL 0 0 false false) 0 (replicate 63 0).

Section vmalloc.
(** [vmalloc n]: a block of [n] bytes with any contents, or [None]. *)
Variable vmalloc : Z → option (list Z).

Definition xz_dec_lzma2_reset (s : xz_dec_lzma2) (props : Z) : xz_ret * xz_dec_lzma2 :=
  if 39 <? props then (XZ_OPTIONS_ERROR, s)
  else
    let d := dict (core s) in
    let sz := u32 ((2 + (props .& 1)) << ((props >> 1) + 11)) in
    let upd bs e al := set_core s (set_dict (core s)
      (mk_dictionary bs (start d) (pos d) (full d) (limit d) e sz (size_max d) al)) in
    if size_max d <? sz then (XZ_MEMLIMIT_ERROR, upd (buf d) (end_ d) (allocated d))
    else
      let finish s :=
        (XZ_OK, set_temp (set_lzma2 s (set_needs (set_sequence (lzma2 s) SEQ_CONTROL) true
                                         (need_props (lzma2 s)))) 0 (temp_buf s)) in
      if allocated d <? sz then
        match vmalloc sz with
        | None => (XZ_MEM_ERROR, upd [] sz 0)
        | Some bs => finish (upd bs sz sz)
        end
      else finish (upd (buf d) sz (allocated d)).

End vmalloc.

End XzLzma2.
