(* ===== verification/XzLzma2Safe.v ===== *)
(** * The LZMA2 decoder is memory safe and terminates
    ([hook_sdk/src/xz/xz_dec_lzma2.c], section LZMA2)

    [xz_dec_lzma2_run] on arbitrary input: every access stays in its buffer,
    every round of its loop consumes input or produces output, and the state it
    leaves can be resumed. Uncompressed chunks decode to their contents. *)

From S2P Require Import Prelude XzLzma XzLzma2 XzDict XzRange XzLzmaSafe.
Import XzLzma XzLzma2 XzDict XzRange XzLzmaSafe.

Module XzLzma2Safe.

(** ** Buffers *)

Record buf_ok (b : xz_buf) : Prop := {
  b_in : 0 <= in_pos b <= in_size b;
  b_in_size : in_size b < 2 ^ 62;
  b_out : 0 <= out_pos b <= out_size b;
  b_out_size : out_size b < 2 ^ 62;
  b_bytes : Forall is_u8 (in_ b)
}.

(** [b'] is [b] after more input was read and more output written. *)
Record buf_le (b b' : xz_buf) : Prop := {
  l_in : in_ b' = in_ b;
  l_in_pos : in_pos b <= in_pos b';
  l_out_size : out_size b' = out_size b;
  l_out_pos : out_pos b <= out_pos b';
  l_written : take (Z.to_nat (out_pos b)) (out b') = take (Z.to_nat (out_pos b)) (out b)
}.

#[export] Instance buf_le_preorder : PreOrder buf_le.
Proof.
  split; [intros b; split; done || lia|].
  intros b1 b2 b3 [A1 A2 A3 A4 A5] [B1 B2 B3 B4 B5]. split; try congruence; try lia.
  rewrite <- A5. replace (Z.to_nat (out_pos b1)) with (Z.to_nat (out_pos b1) `min` Z.to_nat (out_pos b2))%nat by lia.
  by rewrite <- !take_take, B5.
Qed.

Lemma in_size_le b b' : buf_le b b' → in_size b' = in_size b.
Proof. intros []. unfold in_size. by f_equal; rewrite l_in0. Qed.

Lemma set_in_pos_ok b p :
  buf_ok b → in_pos b <= p <= in_size b → buf_ok (set_in_pos b p) ∧ buf_le b (set_in_pos b p).
Proof. intros [] Hp. split; split; try done; cbn; unfold in_size, out_size in *; cbn; lia. Qed.

Lemma next_in_ok b :
  buf_ok b → in_pos b < in_size b →
  ∃ x, next_in b = Some (x, set_in_pos b (in_pos b + 1)) ∧ is_u8 x ∧ in_ b !! Z.to_nat (in_pos b) = Some x ∧
    buf_ok (set_in_pos b (in_pos b + 1)) ∧ buf_le b (set_in_pos b (in_pos b + 1)).
Proof.
  intros Hb Hlt. pose proof Hb as []. unfold next_in.
  destruct (aget_Some (in_ b) (in_pos b)) as (x & -> & Hx); [unfold in_size in *; lia|].
  cbn [mbind option_bind]. rewrite u64_id by (unfold is_u64; lia). exists x.
  rewrite Forall_lookup in b_bytes0.
  split_and!; [done|eauto|done|apply set_in_pos_ok; [done|lia]..].
Qed.

(** Writing [src] at the output position. *)
Lemma emit_ok b src ip :
  buf_ok b → in_pos b <= ip <= in_size b → out_pos b + zlen src <= out_size b →
  ∃ o, splice (out b) (out_pos b) src = Some o ∧
    let b' := mk_xz_buf (in_ b) ip o (out_pos b + zlen src) in
    buf_ok b' ∧ buf_le b b' ∧
    take (Z.to_nat (out_pos b')) o = take (Z.to_nat (out_pos b)) (out b) ++ src.
Proof.
  intros [] Hip Hfit. unfold out_size in *. rewrite splice_Some by lia. eexists. split; [done|].
  cbn zeta. set (o := _ ++ src ++ _).
  assert (zlen o = zlen (out b)) as Hl
    by (subst o; rewrite !length_app, length_take, length_drop; lia).
  assert (length (take (Z.to_nat (out_pos b)) (out b)) = Z.to_nat (out_pos b)) as Ht
    by (rewrite length_take; lia).
  split_and!.
  - split; cbn; unfold in_size, out_size in *; cbn; try done; lia.
  - split; cbn; unfold out_size; cbn; try done; try lia.
    subst o. rewrite take_app_le, take_take by lia. f_equal. lia.
  - cbn. subst o. rewrite app_assoc, take_app_le by (rewrite length_app; lia).
    apply take_ge. rewrite length_app. lia.
Qed.

(** ** Dictionary between chunks *)

(** The limit is only meaningful while LZMA symbols are decoded. *)
Definition dict_wf (d : dictionary) : Prop := dict_ok (set_limit d (end_ d)) ∧ start d = pos d ∧ pos d < end_ d.

(** Memory and sizes, which also hold before the first dictionary reset. *)
Record dict_mem (d : dictionary) : Prop := {
  e_len : zlen (buf d) = allocated d;
  e_end : end_ d = size d;
  e_size : 0 < size d <= allocated d;
  e_alloc : allocated d < 2 ^ 32;
  e_bytes : Forall is_u8 (buf d)
}.

Lemma dict_reset_wf d : dict_mem d → dict_wf (dict_reset d).
Proof. intros []. split; [split; cbn; try done; lia|]. cbn. lia. Qed.

Lemma dict_wf_mem d : dict_wf d → dict_mem d.
Proof. intros ([] & _ & _). by split. Qed.

Lemma dict_limit_ok d n :
  dict_wf d → 0 <= n < 2 ^ 63 →
  let d' := dict_limit d n in
  dict_ok d' ∧ dict_ext (set_limit d (limit d')) d' ∧ start d' = start d ∧ pos d' = pos d ∧
  full d' = full d ∧ limit d' = Z.min (end_ d) (pos d + n).
Proof.
  intros ([] & Hs & Hp) Hn. cbn in *. unfold dict_limit.
  rewrite !u64_id by (unfold is_u64; lia).
  destruct (Z.leb_spec (end_ d - pos d) n); cbn; (split_and!; try lia); try reflexivity;
    split; cbn; try done; lia.
Qed.

(** [dict_flush] writes what was decoded since [start]. *)
Lemma dict_flush_ok d b :
  dict_ok d → start d < end_ d → buf_ok b → out_pos b + (pos d - start d) <= out_size b →
  ∃ d' b', dict_flush d b = Some (d', b', pos d - start d) ∧ dict_wf d' ∧
    full d' = full d ∧ end_ d' = end_ d ∧
    buf_ok b' ∧ buf_le b b' ∧ in_pos b' = in_pos b ∧ out_pos b' = out_pos b + (pos d - start d).
Proof.
  intros Hd Hs Hb Hfit. pose proof Hd as []. unfold dict_flush.
  rewrite (u64_id (pos d - start d)) by (unfold is_u64; lia).
  rewrite slice_Some by lia. cbn [mbind option_bind].
  set (src := take _ _). assert (zlen src = pos d - start d) as Hl
    by (subst src; rewrite length_take, length_drop; lia).
  destruct (emit_ok b src (in_pos b)) as (o & -> & Hb' & Hle & _); [done|destruct Hb; lia|lia|].
  cbn [mbind option_bind]. rewrite Hl in *.
  rewrite u64_id by (destruct Hb; unfold is_u64; lia). rewrite u32_id by (unfold is_u32; lia).
  do 2 eexists. split; [done|]. split_and!; try done.
  - split; cbn; [|destruct (Z.eqb_spec (pos d) (end_ d)); lia].
    split; cbn; try done; destruct (Z.eqb_spec (pos d) (end_ d)); lia.
Qed.

(** ** Uncompressed chunks *)

Lemma min_spec a b : min_ a b = Z.min a b.
Proof. unfold min_. case_cmp; lia. Qed.

(** [k] bytes were copied from the input to the output. *)
Record copied (k : Z) (b b' : xz_buf) : Prop := {
  c_ok : buf_ok b';
  c_le : buf_le b b';
  c_in : in_pos b' = in_pos b + k;
  c_out : out_pos b' = out_pos b + k;
  c_bytes : take (Z.to_nat (out_pos b')) (out b') =
    take (Z.to_nat (out_pos b)) (out b) ++ take (Z.to_nat k) (drop (Z.to_nat (in_pos b)) (in_ b))
}.

Lemma copied_0 b : buf_ok b → copied 0 b b.
Proof. intros H. split; [done|done|lia|lia|]. by rewrite take_0, app_nil_r. Qed.

Lemma copied_trans k1 k2 b1 b2 b3 :
  0 <= k1 → 0 <= k2 → buf_ok b1 → copied k1 b1 b2 → copied k2 b2 b3 → copied (k1 + k2) b1 b3.
Proof.
  intros H1 H2 Hb [A1 A2 A3 A4 A5] [B1 B2 B3 B4 B5]. split; [done|by etrans|lia|lia|].
  rewrite B5, A5, <- app_assoc. f_equal. rewrite (l_in _ _ A2), A3. destruct Hb.
  rewrite !Z2Nat.inj_add, <- drop_drop by lia. by rewrite take_take_drop.
Qed.

Lemma uncompressed_step_ok d b left :
  dict_wf d → buf_ok b → 0 < left < 2 ^ 32 → in_pos b < in_size b → out_pos b < out_size b →
  ∃ d' b' k, uncompressed_step d b left = Some (d', b', left - k) ∧ dict_wf d' ∧ full d <= full d' ∧
    0 < k <= Z.min left (Z.min (in_size b - in_pos b) (out_size b - out_pos b)) ∧ copied k b b'.
Proof.
  intros Hwf Hb Hl Hi Ho. pose proof Hwf as (Hd & Hs & Hp). pose proof Hd as [].
  pose proof Hb as []. cbn in *. unfold uncompressed_step.
  rewrite (u64_id (in_size b - in_pos b)), (u64_id (out_size b - out_pos b)),
    (u64_id (end_ d - pos d)) by (unfold is_u64; lia).
  change (if end_ d - pos d <? ?x then end_ d - pos d else ?x) with (min_ (end_ d - pos d) x).
  change (if left <? ?x then left else ?x) with (min_ left x). rewrite !min_spec.
  set (k := Z.min left _). assert (0 < k ∧ k <= left ∧ k <= in_size b - in_pos b ∧
    k <= out_size b - out_pos b ∧ k <= end_ d - pos d) as (K1 & K2 & K3 & K4 & K5) by lia.
  clearbody k. unfold in_size in *. rewrite slice_Some by lia. cbn [mbind option_bind].
  set (src := take _ _). assert (zlen src = k) as Hsrc
    by (subst src; rewrite length_take, length_drop; lia).
  rewrite (splice_Some (buf d)) by lia. cbn [mbind option_bind].
  set (bs := _ ++ src ++ _).
  assert (Forall is_u8 bs) as Hbs.
  { subst bs src. repeat apply Forall_app_2; auto using Forall_take, Forall_drop. }
  assert (zlen bs = zlen (buf d)) as Hbl
    by (subst bs; rewrite !length_app, length_take, length_drop; lia).
  destruct (emit_ok b src (in_pos b + k)) as (o & -> & Hb' & Hle & Hout);
    [done|unfold in_size; lia|lia|]. cbn zeta in *. rewrite Hsrc in *.
  cbn [mbind option_bind]. rewrite !u64_id by (unfold is_u64; lia).
  rewrite u32_id by (unfold is_u32; lia). cbn.
  do 2 eexists. exists k. split; [done|]. split_and!; try lia.
  - split; cbn; [|destruct (Z.eqb_spec (pos d + k) (end_ d)); lia].
    split; cbn; try done; try lia; destruct (Z.eqb_spec (pos d + k) (end_ d)), (Z.ltb_spec (full d) (pos d + k)); lia.
  - cbn. destruct (Z.ltb_spec (full d) (pos d + k)); lia.
  - split; done.
Qed.

Lemma uncompressed_loop_ok fuel d b left :
  dict_wf d → buf_ok b → 0 <= left < 2 ^ 32 → left < Z.of_nat fuel →
  ∃ d' b' k, uncompressed_loop fuel d b left = Some (d', b', left - k) ∧ dict_wf d' ∧ full d <= full d' ∧
    k = Z.min left (Z.min (in_size b - in_pos b) (out_size b - out_pos b)) ∧ copied k b b'.
Proof.
  revert d b left. induction fuel as [|fuel IH]; intros d b left Hwf Hb Hl Hf; [lia|].
  cbn [uncompressed_loop]. destruct ((0 <? left) && _ && _) eqn:Ec.
  - rewrite !andb_true_iff, !Z.ltb_lt in Ec. destruct Ec as [[E1 E2] E3].
    destruct (uncompressed_step_ok d b left) as (d1 & b1 & k1 & -> & Hwf1 & Hf1 & Hk1 & Hc1); [done..|lia|done|done|].
    cbn [mbind option_bind]. pose proof Hc1 as [B1 B2 B3 B4 _].
    destruct (IH d1 b1 (left - k1)) as (d' & b' & k & -> & Hwf' & Hf' & Hk & Hc); [done|done|lia|lia|].
    exists d', b', (k1 + k). replace (left - (k1 + k)) with (left - k1 - k) by lia.
    rewrite (in_size_le _ _ B2), (l_out_size _ _ B2), B3, B4 in Hk.
    split_and!; [done|done|lia|lia|]. eapply copied_trans; try done; lia.
  - exists d, b, 0. rewrite Z.sub_0_r. split_and!; try done; [|by apply copied_0].
    rewrite !andb_false_iff, !Z.ltb_ge in Ec. destruct Hb. lia.
Qed.

(** ** Feeding the LZMA core *)

Record rc_live (r : rc_dec) : Prop := {
  v_range : range_min <= range r < 2 ^ 32;
  v_code : is_u32 (code r);
  v_init : 0 <= init_bytes_left r <= RC_INIT_BYTES
}.

(** The LZMA state of a chunk, against the dictionary. *)
Record lz_live (z : lzma_dec) (d : dictionary) : Prop := {
  w_lz : lz_ok z;
  w_rep : rep_valid z d;
  w_pending : 0 < len z → rep0 z < full d
}.

Record live (c : lzma) : Prop := {
  a_rc : rc_live (rc c);
  a_lz : lz_live (lz c) (dict c);
  a_dict : dict_ok (dict c)
}.

Lemma lz_live_mono z d d' : lz_live z d → full d <= full d' → lz_live z d'.
Proof.
  intros [H1 H2 H3] H. split; [done|intros Hs; specialize (H2 Hs); lia|intros Hl; specialize (H3 Hl); lia].
Qed.

Lemma main_call c bs p lim :
  live c → Forall is_u8 bs → zlen bs < 2 ^ 63 → 0 <= p <= lim → lim + LZMA_IN_REQUIRED <= zlen bs →
  ∃ ok k, lzma_main (set_rc_in c bs p lim) = Some (ok, k) ∧ dict_ext (dict c) (dict k) ∧
    dict_ok (dict k) ∧ p <= rc_in_pos (rc k) <= lim + LZMA_IN_REQUIRED ∧
    (ok = true → live k ∧ (dict_has_space (dict c) = true → pos (dict c) < pos (dict k))).
Proof.
  unfold LZMA_IN_REQUIRED. intros [[R1 R2 R3] [Z1 Z2 Z3] D] Hbs Hl Hp Hlim.
  destruct (lzma_main_ok (set_rc_in c bs p lim)) as (ok & k & -> & [F1 F2 F3 F4 F5 F6 F7 F8 F9]).
  { split; [split|..]; cbn; try done; try lia. split; cbn; try done; lia. }
  exists ok, k. cbn in F8. split_and!; try done; try lia.
  intros Hok. destruct (F9 Hok) as (G1 & G2 & _ & G4). split.
  - split; [|split; [done|done|apply G2]|done].
    split; [apply F4|apply F4|]. rewrite F7. done.
  - intros Hsp. apply G4; [done|]. cbn. lia.
Qed.

Record temp_ok (s : xz_dec_lzma2) : Prop := {
  tm_len : zlen (temp_buf s) = 63;
  tm_bytes : Forall is_u8 (temp_buf s);
  tm_size : 0 <= temp_size s < LZMA_IN_REQUIRED;
  tm_size_le : temp_size s <= compressed (lzma2 s)
}.

Lemma splice_u8 dst off bs r :
  splice dst off bs = Some r → Forall is_u8 dst → Forall is_u8 bs → Forall is_u8 r.
Proof.
  unfold splice. case_match; [|done]. intros ? ? ?; simplify_eq.
  repeat apply Forall_app_2; auto using Forall_take, Forall_drop.
Qed.

Lemma slice_u8 src off n r : slice src off n = Some r → Forall is_u8 src → Forall is_u8 r.
Proof. unfold slice. case_match; [|done]. intros ? ?; simplify_eq. auto using Forall_take, Forall_drop. Qed.

Lemma splice_ok dst off bs :
  0 <= off → off + zlen bs <= zlen dst → Forall is_u8 dst → Forall is_u8 bs →
  ∃ r, splice dst off bs = Some r ∧ zlen r = zlen dst ∧ Forall is_u8 r.
Proof.
  intros. destruct (splice dst off bs) as [r|] eqn:E; [|by rewrite splice_Some in E].
  exists r. split; [done|]. split; [by erewrite splice_length|by eapply splice_u8].
Qed.

Lemma slice_ok src off n :
  0 <= off → 0 <= n → off + n <= zlen src → Forall is_u8 src →
  ∃ r, slice src off n = Some r ∧ zlen r = n ∧ Forall is_u8 r.
Proof.
  intros. destruct (slice src off n) as [r|] eqn:E; [|by rewrite slice_Some in E].
  exists r. split; [done|]. split; [by eapply slice_length|by eapply slice_u8].
Qed.

(** The state while a chunk of LZMA data is decoded. *)
Record feed_ok (s : xz_dec_lzma2) (b : xz_buf) : Prop := {
  g_live : live (core s);
  g_temp : temp_ok s;
  g_comp : 0 <= compressed (lzma2 s) <= 2 ^ 16;
  g_buf : buf_ok b
}.

(** What one part of [lzma2_lzma] may change. *)
Record feed_le (s : xz_dec_lzma2) (b : xz_buf) (s' : xz_dec_lzma2) (b' : xz_buf) : Prop := {
  h_dict : dict_ext (dict (core s)) (dict (core s'));
  h_dict_ok : dict_ok (dict (core s'));
  h_buf : b' = set_in_pos b (in_pos b');
  h_in : in_pos b <= in_pos b' <= in_size b;
  h_lzma2 : lzma2 s' = set_compressed (lzma2 s) (compressed (lzma2 s'))
}.

(** Input was taken or output made, or the input is exhausted with data of
    the chunk missing. *)
Definition progress (s : xz_dec_lzma2) (b : xz_buf) (s' : xz_dec_lzma2) (b' : xz_buf) : Prop :=
  dict_has_space (dict (core s)) = true →
  pos (dict (core s)) < pos (dict (core s')) ∨ in_pos b < in_pos b' ∨
  (in_pos b' = in_size b ∧ temp_size s' < compressed (lzma2 s')).

Lemma feed_le_trans s1 b1 s2 b2 s3 b3 :
  feed_le s1 b1 s2 b2 → feed_le s2 b2 s3 b3 → feed_le s1 b1 s3 b3.
Proof.
  intros [A1 A2 A3 A4 A5] [B1 B2 B3 B4 B5]. split; [by etrans|done| | |].
  - rewrite B3, A3. done.
  - assert (in_size b2 = in_size b1) as E by (rewrite A3; done). rewrite E in B4. lia.
  - rewrite B5, A5. done.
Qed.

(** The number of bytes copied into [temp]. *)
Lemma temp_amount ts c avail :
  0 <= ts < 21 → ts <= c <= 2 ^ 16 → 0 <= avail < 2 ^ 62 →
  (let tmp := u32 (2 * 21 - ts) in
   let tmp := if u32 (c - ts) <? tmp then u32 (c - ts) else tmp in
   if u64 avail <? tmp then u32 (u64 avail) else tmp) = Z.min avail (Z.min (c - ts) (42 - ts)).
Proof.
  intros Ht Hc Ha. cbn zeta. rewrite (u64_id avail) by (unfold is_u64; lia).
  rewrite !(u32_id (2 * 21 - ts)), !(u32_id (c - ts)) by (unfold is_u32; lia).
  destruct (Z.ltb_spec (c - ts) (2 * 21 - ts)); case_cmp; try rewrite u32_id by (unfold is_u32; lia); lia.
Qed.

(** What follows in [lzma2_temp] once [temp] is filled. *)
Definition temp_decode (s : xz_dec_lzma2) (b : xz_buf) (bs : list Z) (filled lim : Z) :
  option ((bool * xz_dec_lzma2 * xz_buf) + (xz_dec_lzma2 * xz_buf)) :=
  '(ok, k) ← lzma_main (set_rc_in (core s) bs 0 lim);
  let c := compressed (lzma2 s) in
  let s := set_temp (set_core s k) (temp_size s) bs in
  let used := rc_in_pos (rc k) in
  if negb ok || (filled <? used) then Some (inl (false, s, b))
  else
    let s := set_lzma2 s (set_compressed (lzma2 s) (u32 (c - used))) in
    if used <? temp_size s then
      let n := u32 (temp_size s - used) in
      src ← slice bs used n;
      bs ← splice bs 0 src;
      Some (inl (true, set_temp s n bs, b))
    else
      Some (inr (set_temp s 0 bs, set_in_pos b (u64 (in_pos b + (used - temp_size s))))).

Definition temp_post (s : xz_dec_lzma2) (b : xz_buf)
    (r : (bool * xz_dec_lzma2 * xz_buf) + (xz_dec_lzma2 * xz_buf)) : Prop :=
  match r with
  | inl (ok, s', b') => feed_le s b s' b' ∧ (ok = true → feed_ok s' b' ∧ progress s b s' b')
  | inr (s', b') =>
      feed_le s b s' b' ∧ feed_ok s' b' ∧ temp_size s' = 0 ∧
      (s' = s ∧ b' = b ∧ 0 < compressed (lzma2 s) ∨
       (dict_has_space (dict (core s)) = true → pos (dict (core s)) < pos (dict (core s'))))
  end.

Lemma temp_decode_ok s b bs tmp lim :
  feed_ok s b → zlen bs = 63 → Forall is_u8 bs →
  0 <= tmp <= in_size b - in_pos b → temp_size s + tmp <= compressed (lzma2 s) →
  temp_size s + tmp <= 42 → 0 <= lim → lim + 21 <= 63 →
  ∃ r, temp_decode s b bs (temp_size s + tmp) lim = Some r ∧ temp_post s b r.
Proof.
  intros [HL [T1 T2 T3 T4] HC HB] L1 L2 Htmp Hc Hf Hl Hl2. pose proof HB as [I1 I2 O1 O2 I3].
  unfold temp_decode, LZMA_IN_REQUIRED in *.
  destruct (main_call (core s) bs 0 lim) as (ok & k & -> & D1 & D2 & Hu & Hok);
    [done|done|lia|lia|unfold LZMA_IN_REQUIRED; lia|]. next. set (used := rc_in_pos (rc k)) in *.
  destruct ok; cbn [orb].
  2: { eexists. split; [done|]. split; [|done]. split; try done; [by destruct b|lia|by destruct s as [? []]]. }
  destruct (Hok eq_refl) as [Hlive Hadv]. cbn [temp_size set_temp set_core set_lzma2 lzma2].
  destruct (Z.ltb_spec (temp_size s + tmp) used) as [Hbig|Hbig].
  { eexists. split; [done|]. split; [|done]. split; try done; [by destruct b|lia|by destruct s as [? []]]. }
  rewrite (u32_id (compressed (lzma2 s) - used)) by (unfold is_u32; lia).
  destruct (Z.ltb_spec used (temp_size s)) as [Hs|Hs].
  - rewrite (u32_id (temp_size s - used)) by (unfold is_u32; lia).
    destruct (slice_ok bs used (temp_size s - used)) as (src & -> & S1 & S2); [lia..|done|]. next.
    destruct (splice_ok bs 0 src) as (bs' & -> & S3 & S4); [lia..|done|done|]. next.
    eexists. split; [done|]. split.
    + split; try done; [by destruct b|lia].
    + intros _. split; [|left; auto].
      split; cbn; try done; [|lia]. split; cbn; unfold LZMA_IN_REQUIRED; try done; lia.
  - eexists. split; [done|]. rewrite (u64_id (in_pos b + (used - temp_size s))) by (unfold is_u64; lia).
    split_and!; [split; try done; cbn; lia| |done|by right].
    split; cbn; try done; [|lia|apply set_in_pos_ok; done || lia].
    split; cbn; unfold LZMA_IN_REQUIRED; try done; lia.
Qed.

Lemma lzma2_temp_ok s b :
  feed_ok s b → ∃ r, lzma2_temp s b = Some r ∧ temp_post s b r.
Proof.
  intros Hfeed. pose proof Hfeed as [HL [T1 T2 T3 T4] HC HB]. pose proof HB as [I1 I2 O1 O2 I3].
  unfold lzma2_temp. destruct (_ || _) eqn:Eg.
  2: { rewrite orb_false_iff, Z.ltb_ge, Z.eqb_neq in Eg. eexists. split; [done|].
       split_and!; [|done|lia|left; split_and!; done || lia].
       split; [done|apply HL|by destruct b|lia|by destruct s as [? []]]. }
  unfold LZMA_IN_REQUIRED in *. set (c := compressed (lzma2 s)) in *. set (ts := temp_size s) in *.
  rewrite temp_amount by (unfold in_size in *; lia).
  set (tmp := Z.min _ _). assert (0 <= tmp ∧ tmp <= in_size b - in_pos b ∧ ts + tmp <= c ∧ ts + tmp <= 42 ∧
    (ts + tmp < 21 → ts + tmp < c → in_pos b + tmp = in_size b)) as (M1 & M2 & M3 & M4 & M5) by lia.
  clearbody tmp. unfold in_size in *.
  destruct (slice_ok (in_ b) (in_pos b) tmp) as (src & -> & S1 & S2); [lia..|done|]. next.
  destruct (splice_ok (temp_buf s) ts src) as (bs & -> & S3 & S4); [lia..|done|done|]. next.
  rewrite (u32_id (ts + tmp)) by (unfold is_u32; lia).
  destruct (Z.eqb_spec (ts + tmp) c) as [Ef|Ef].
  - destruct (splice_ok bs (ts + tmp) (replicate (Z.to_nat (63 - ts - tmp)) 0)) as (bs' & -> & S5 & S6);
      [lia|rewrite length_replicate; lia|done|by apply Forall_replicate|]. next.
    apply (temp_decode_ok s b bs' tmp (ts + tmp)); unfold in_size; done || lia.
  - destruct (Z.ltb_spec (ts + tmp) 21).
    + next. eexists. split; [done|]. rewrite (u64_id (in_pos b + tmp)) by (unfold is_u64; lia).
      split; [split; cbn; unfold in_size; try done; [apply HL|lia|by destruct s as [? []]]|].
      intros _. split; [|unfold progress; cbn; unfold in_size; lia].
      split; cbn; try done; [|apply set_in_pos_ok; unfold in_size; done || lia].
      split; cbn; unfold LZMA_IN_REQUIRED; try done; lia.
    + next. rewrite (u32_id (ts + tmp - 21)) by (unfold is_u32; lia).
      apply (temp_decode_ok s b bs tmp (ts + tmp - 21)); unfold in_size; done || lia.
Qed.

Lemma lzma2_direct_ok s b :
  feed_ok s b → temp_size s = 0 →
  ∃ os b', lzma2_direct s b = Some (os, b') ∧
    match os with
    | None => b' = b
    | Some s' =>
        feed_le s b s' b' ∧ feed_ok s' b' ∧ temp_size s' = 0 ∧
        (LZMA_IN_REQUIRED <= in_size b - in_pos b → dict_has_space (dict (core s)) = true →
         pos (dict (core s)) < pos (dict (core s'))) ∧
        (in_size b - in_pos b < LZMA_IN_REQUIRED → s' = s ∧ b' = b)
    end.
Proof.
  intros Hfeed Hts. pose proof Hfeed as [HL [T1 T2 T3 T4] HC HB]. pose proof HB as [I1 I2 O1 O2 I3].
  unfold lzma2_direct. rewrite (u64_id (in_size b - in_pos b)) by (unfold is_u64; lia).
  unfold LZMA_IN_REQUIRED in *. destruct (Z.leb_spec 21 (in_size b - in_pos b)) as [Ha|Ha].
  2: { eexists _, _. split; [done|]. split_and!; try done; [|lia].
       split; [done|apply HL|by destruct b|lia|by destruct s as [? []]]. }
  set (c := compressed (lzma2 s)) in *.
  rewrite (u32_id (c + 21)), (u64_id (in_pos b + c)), (u64_id (in_size b - 21))
    by (unfold is_u32, is_u64; lia).
  set (lim := if c + 21 <=? in_size b - in_pos b then in_pos b + c else in_size b - 21).
  assert (in_pos b <= lim ∧ lim + 21 <= in_size b) as [L1 L2] by (subst lim; case_cmp; lia).
  clearbody lim.
  destruct (main_call (core s) (in_ b) (in_pos b) lim) as (ok & k & -> & D1 & D2 & Hu & Hok);
    [done|done|unfold in_size in *; lia|lia|unfold LZMA_IN_REQUIRED, in_size in *; lia|].
  next. unfold LZMA_IN_REQUIRED in Hu. destruct ok; [|by eexists _, _].
  destruct (Hok eq_refl) as [Hlive Hadv].
  rewrite (u64_id (rc_in_pos (rc k) - in_pos b)) by (unfold is_u64; lia).
  destruct (Z.ltb_spec c (rc_in_pos (rc k) - in_pos b)); [by eexists _, _|].
  rewrite u32_id by (unfold is_u32; lia). eexists _, _. split; [done|]. split_and!.
  - split; try done; cbn; lia.
  - split; cbn; try done; [|lia|apply set_in_pos_ok; done || lia].
    split; cbn; unfold LZMA_IN_REQUIRED; try done; lia.
  - done.
  - intros _ Hsp. by apply Hadv.
  - lia.
Qed.

Lemma lzma2_save_ok s b :
  feed_ok s b → temp_size s = 0 →
  ∃ s' b', lzma2_save s b = Some (s', b') ∧ feed_le s b s' b' ∧ feed_ok s' b' ∧
    core s' = core s ∧
    (in_size b - in_pos b < LZMA_IN_REQUIRED → 0 < compressed (lzma2 s) →
     in_pos b < in_pos b' ∨ in_pos b' = in_size b ∧ temp_size s' < compressed (lzma2 s')).
Proof.
  intros Hfeed Hts. pose proof Hfeed as [HL [T1 T2 T3 T4] HC HB]. pose proof HB as [I1 I2 O1 O2 I3].
  unfold lzma2_save. rewrite (u64_id (in_size b - in_pos b)) by (unfold is_u64; lia).
  unfold LZMA_IN_REQUIRED in *. destruct (Z.ltb_spec (in_size b - in_pos b) 21) as [Ha|Ha].
  2: { eexists _, _. split; [done|]. split_and!; try done; [|lia].
       split; [done|apply HL|by destruct b|lia|by destruct s as [? []]]. }
  set (c := compressed (lzma2 s)) in *.
  change (if c <? ?x then c else ?x) with (min_ c x). rewrite min_spec.
  set (n := Z.min c _). assert (0 <= n <= c ∧ n <= in_size b - in_pos b) as [N1 N2] by lia.
  destruct (slice_ok (in_ b) (in_pos b) n) as (src & -> & S1 & S2);
    [lia|lia|unfold in_size in *; lia|done|]. next.
  destruct (splice_ok (temp_buf s) 0 src) as (bs' & -> & S3 & S4); [lia..|done|done|]. next.
  rewrite (u64_id (in_pos b + n)), u32_id by (unfold is_u64, is_u32; lia).
  eexists _, _. split; [done|]. split_and!; [|..|done|].
  - split; cbn; try done; [apply HL|lia|by destruct s as [? []]].
  - split; cbn; try done; [|apply set_in_pos_ok; done || lia].
    split; cbn; unfold LZMA_IN_REQUIRED; try done; lia.
  - cbn. subst c. lia.
Qed.

Lemma lzma2_lzma_ok s b :
  feed_ok s b →
  ∃ ok s' b', lzma2_lzma s b = Some (ok, s', b') ∧
    buf_ok b' ∧ buf_le b b' ∧
    (ok = true → feed_le s b s' b' ∧ feed_ok s' b' ∧ progress s b s' b').
Proof.
  intros Hfeed. unfold lzma2_lzma.
  assert (∀ s' b', feed_le s b s' b' → buf_ok b' ∧ buf_le b b') as Hbuf.
  { intros s' b' [_ _ -> Hi _]. apply set_in_pos_ok; [apply Hfeed|done]. }
  destruct (lzma2_temp_ok s b Hfeed) as ([[[ok s1] b1]|[s1 b1]] & -> & Hpost); next.
  { destruct Hpost as [Hle Hok]. exists ok, s1, b1. split; [done|].
    destruct (Hbuf _ _ Hle). split_and!; try done. intros E. by destruct (Hok E). }
  destruct Hpost as (Hle1 & Hf1 & Hts1 & Hpr1). destruct (Hbuf _ _ Hle1) as [B1 B1'].
  destruct (lzma2_direct_ok s1 b1 Hf1 Hts1) as (os & b2 & -> & Hd). next.
  destruct os as [s2|]; [|subst b2; by exists false, s1, b1].
  destruct Hd as (Hle2 & Hf2 & Hts2 & Hpr2 & Hsame).
  destruct (lzma2_save_ok s2 b2 Hf2 Hts2) as (s3 & b3 & -> & Hle3 & Hf3 & Hc3 & Hpr3). next.
  assert (feed_le s b s3 b3) as Hle by (eauto using feed_le_trans).
  destruct (Hbuf _ _ Hle). exists true, s3, b3. split_and!; try done. intros _. split_and!; try done.
  intros Hsp. rewrite Hc3. pose proof (h_dict _ _ _ _ Hle1) as X1. pose proof (h_dict _ _ _ _ Hle2) as X2.
  destruct Hpr1 as [(-> & -> & Hc)|Hadv1].
  - destruct (decide (LZMA_IN_REQUIRED <= in_size b - in_pos b)) as [Ha|Ha]; [left; by apply Hpr2|].
    destruct (Hsame ltac:(lia)) as [-> ->]. right. apply Hpr3; [lia|done].
  - left. specialize (Hadv1 Hsp). destruct X2. lia.
Qed.

(** ** Invariant of the chunk state machine *)

(** The header fields read so far. *)
Definition sizes_ok (l : lzma2_dec) : Prop :=
  let unc := 1 <= uncompressed l <= 2 ^ 21 in
  let copy_or P := next_sequence l = SEQ_COPY ∨ P in
  match sequence l with
  | SEQ_CONTROL => True
  | SEQ_UNCOMPRESSED_1 => 0 <= uncompressed l <= 0x1F0000
  | SEQ_UNCOMPRESSED_2 => 0 <= uncompressed l <= 0x1FFF00
  | SEQ_COMPRESSED_0 => copy_or unc
  | SEQ_COMPRESSED_1 => copy_or unc ∧ 0 <= compressed l <= 0xFF00
  | SEQ_PROPERTIES | SEQ_LZMA_PREPARE => unc ∧ 1 <= compressed l <= 2 ^ 16
  | SEQ_LZMA_RUN => unc ∧ 0 <= compressed l <= 2 ^ 16
  | SEQ_COPY => 1 <= compressed l <= 2 ^ 16
  end.

(** Where the header leads. *)
Definition target (l : lzma2_dec) : lzma2_seq :=
  match sequence l with
  | SEQ_UNCOMPRESSED_1 | SEQ_UNCOMPRESSED_2 | SEQ_COMPRESSED_0 | SEQ_COMPRESSED_1 => next_sequence l
  | q => q
  end.

Definition target_ok (l : lzma2_dec) : Prop :=
  match sequence l with
  | SEQ_UNCOMPRESSED_1 | SEQ_UNCOMPRESSED_2 =>
      next_sequence l = SEQ_PROPERTIES ∨ next_sequence l = SEQ_LZMA_PREPARE
  | SEQ_COMPRESSED_0 | SEQ_COMPRESSED_1 =>
      next_sequence l = SEQ_PROPERTIES ∨ next_sequence l = SEQ_LZMA_PREPARE ∨ next_sequence l = SEQ_COPY
  | _ => True
  end.

Record l2_ok (s : xz_dec_lzma2) : Prop := {
  k_temp : zlen (temp_buf s) = 63 ∧ Forall is_u8 (temp_buf s);
  k_temp_size : if decide (sequence (lzma2 s) = SEQ_LZMA_RUN)
                then 0 <= temp_size s < LZMA_IN_REQUIRED ∧ temp_size s <= compressed (lzma2 s)
                else temp_size s = 0;
  k_mem : dict_mem (dict (core s));
  k_reset : sequence (lzma2 s) ≠ SEQ_CONTROL → need_dict_reset (lzma2 s) = false;
  k_dict : need_dict_reset (lzma2 s) = false → dict_wf (dict (core s));
  k_sizes : sizes_ok (lzma2 s);
  k_target : target_ok (lzma2 s);
  k_props : target (lzma2 s) ≠ SEQ_CONTROL → target (lzma2 s) ≠ SEQ_COPY →
            need_props (lzma2 s) = false;
  k_ready : need_dict_reset (lzma2 s) = false → need_props (lzma2 s) = false →
            target (lzma2 s) ≠ SEQ_PROPERTIES → rc_live (rc (core s)) ∧ lz_live (lz (core s)) (dict (core s))
}.

(** Input and output left. *)
Definition rest (b : xz_buf) : Z := in_size b - in_pos b + (out_size b - out_pos b).

(** The outcome of a round. *)
Record round_ok (b : xz_buf) (a : action) (s' : xz_dec_lzma2) (b' : xz_buf) : Prop := {
  o_buf : buf_ok b';
  o_le : buf_le b b';
  o_state : a = Return XZ_DATA_ERROR ∨ l2_ok s';
  o_measure : a = Continue → rest b' < rest b;
  o_codes : a ∈ [Continue; Return XZ_OK; Return XZ_STREAM_END; Return XZ_DATA_ERROR]
}.

Ltac in_list := rewrite !elem_of_cons; tauto.

(** An error return: nothing is claimed of the state. *)
Lemma round_error b b' s' :
  buf_ok b' → buf_le b b' → round_ok b (Return XZ_DATA_ERROR) s' b'.
Proof. intros. split; try done; [by left|in_list]. Qed.

(** A round that consumed one byte. *)
Lemma round_byte b s' :
  buf_ok b → in_pos b < in_size b → l2_ok s' →
  round_ok b Continue s' (set_in_pos b (in_pos b + 1)).
Proof.
  intros Hb Hi Hs. destruct (set_in_pos_ok b (in_pos b + 1) Hb) as [? ?]; [lia|].
  split; try done; [by right| |in_list]. intros _. unfold rest, in_size, out_size. cbn. lia.
Qed.

Lemma probs_reset_ok : probs_ok (replicate (Z.to_nat PROBS_TOTAL) (RC_BIT_MODEL_TOTAL / 2)).
Proof.
  split; [rewrite length_replicate; by apply Z2Nat.id|apply Forall_replicate].
  vm_compute. split; congruence.
Qed.

Lemma lzma_reset_ready c :
  (∃ lp, 0 <= lc (lz c) ∧ 0 <= lp ∧ lc (lz c) + lp <= 4 ∧ literal_pos_mask (lz c) = 2 ^ lp - 1) →
  (∃ pb, 0 <= pb <= 4 ∧ pos_mask (lz c) = 2 ^ pb - 1) → rc_live (rc (lzma_reset c)) ∧ ∀ d, lz_live (lz (lzma_reset c)) d.
Proof.
  intros Hl Hp. split; [split; cbn; unfold range_min, is_u32, RC_INIT_BYTES; lia|]. intros d. split.
  - pose proof probs_reset_ok. by split.
  - intros H. cbn in H. unfold LIT_STATES, STATE_LIT_LIT in H. lia.
  - cbn. lia.
Qed.

(** The dictionary reset of a control byte. *)
Lemma control_reset_ok s :
  l2_ok s → sequence (lzma2 s) = SEQ_CONTROL →
  let s1 := set_lzma2 (set_core s (set_dict (core s) (dict_reset (dict (core s)))))
              (set_needs (lzma2 s) false true) in
  l2_ok s1 ∧ sequence (lzma2 s1) = SEQ_CONTROL ∧ need_dict_reset (lzma2 s1) = false.
Proof.
  intros [T1 T2 M R D Z G P Y] Es. pose proof (dict_reset_wf _ M) as Hwf. cbn zeta.
  split_and!; [|done|done]. rewrite Es in T2. cbn in T2.
  split; try done; cbn; rewrite ?Es; try done.
  - by apply dict_wf_mem.
  - unfold target. cbn. by rewrite Es.
Qed.

(** From the control state to the header of a chunk. *)
Lemma control_to s l' c' :
  l2_ok s → sequence (lzma2 s) = SEQ_CONTROL → need_dict_reset (lzma2 s) = false →
  dict c' = dict (core s) → need_dict_reset l' = false →
  sizes_ok l' → target_ok l' → sequence l' ≠ SEQ_LZMA_RUN →
  (target l' ≠ SEQ_COPY → need_props l' = false) →
  (need_props l' = false → target l' ≠ SEQ_PROPERTIES →
   rc_live (rc c') ∧ lz_live (lz c') (dict (core s))) →
  l2_ok (set_lzma2 (set_core s c') l').
Proof.
  intros [T1 T2 M R D Z G P Y] Es En Ed En' Hz Hg Hr Hp Hy. rewrite Es in T2. cbn in T2.
  split; cbn; rewrite ?Ed; try done.
  - by rewrite decide_False.
  - auto.
Qed.

Lemma land_31 x : 0 <= x .& 0x1F <= 0x1F.
Proof. mask_mod. pose proof (Z.mod_pos_bound x (2 ^ 5) ltac:(lia)). lia. Qed.

Lemma step_control_ok s b :
  l2_ok s → sequence (lzma2 s) = SEQ_CONTROL → buf_ok b → in_pos b < in_size b →
  ∃ a s' b', step_control s b = Some (a, s', b') ∧ round_ok b a s' b'.
Proof.
  intros Hs Es Hb Hi. unfold step_control.
  destruct (next_in_ok b Hb Hi) as (x & -> & Hx & _ & Hb' & Hle). next.
  destruct (Z.eqb_spec x 0) as [->|Hx0].
  { eexists _, _, _. split; [done|]. split; try done; [by right|in_list]. }
  destruct (_ && need_dict_reset _) eqn:En.
  { eexists _, _, _. split; [done|]. by apply round_error. }
  set (s1 := if _ || _ then _ else s).
  assert (l2_ok s1 ∧ sequence (lzma2 s1) = SEQ_CONTROL ∧ need_dict_reset (lzma2 s1) = false)
    as (Hs1 & Es1 & En1).
  { subst s1. destruct (_ || _); [by apply control_reset_ok|].
    cbn in En. split_and!; done. }
  clearbody s1. clear En.
  destruct (Z.leb_spec 0x80 x).
  - pose proof (land_31 x) as Hl. rewrite Z.shiftl_mul_pow2 by lia. change (2 ^ 16) with 65536.
    rewrite (u32_id (_ * 65536)) by (unfold is_u32; lia).
    destruct (Z.leb_spec 0xC0 x).
    + eexists _, _, _. split; [done|]. apply round_byte; [done|done|].
      replace s1 with (set_core s1 (core s1)) at 1 by (by destruct s1).
      apply control_to; try done; first [by left|unfold sizes_ok; cbn; lia].
    + destruct (need_props _) eqn:Ep; cbn in Ep.
      { eexists _, _, _. split; [done|]. by apply round_error. }
      pose proof (k_ready _ Hs1 En1 Ep ltac:(unfold target; by rewrite Es1)) as [Y1 Y2].
      destruct (Z.leb_spec 0xA0 x).
      * eexists _, _, _. split; [done|]. apply round_byte; [done|done|].
        destruct (lzma_reset_ready (core s1)) as [Z1 Z2]; [apply (w_lz _ _ Y2)..|].
        apply (control_to s1 _ (lzma_reset (core s1))); try done; first [by right|unfold sizes_ok; cbn; lia].
      * eexists _, _, _. split; [done|]. apply round_byte; [done|done|].
        replace s1 with (set_core s1 (core s1)) at 1 by (by destruct s1).
        apply control_to; try done; first [by right|unfold sizes_ok; cbn; lia].
  - destruct (Z.ltb_spec 2 x).
    { eexists _, _, _. split; [done|]. by apply round_error. }
    eexists _, _, _. split; [done|]. apply round_byte; [done|done|].
    replace s1 with (set_core s1 (core s1)) at 1 by (by destruct s1).
    apply control_to; try done; [by left|right; by right|].
    intros Hp _. cbn in Hp. apply (k_ready _ Hs1 En1 Hp). unfold target. by rewrite Es1.
Qed.

(** A chunk in progress, in one record. *)
Record chunk_ok (s : xz_dec_lzma2) (b : xz_buf) : Prop := {
  q_seq : sequence (lzma2 s) = SEQ_LZMA_RUN;
  q_reset : need_dict_reset (lzma2 s) = false;
  q_props : need_props (lzma2 s) = false;
  q_wf : dict_wf (dict (core s));
  q_rc : rc_live (rc (core s));
  q_lz : lz_live (lz (core s)) (dict (core s));
  q_temp : temp_ok s;
  q_comp : 0 <= compressed (lzma2 s) <= 2 ^ 16;
  q_unc : 1 <= uncompressed (lzma2 s) <= 2 ^ 21;
  q_buf : buf_ok b
}.

Lemma l2_chunk s b : l2_ok s → sequence (lzma2 s) = SEQ_LZMA_RUN → buf_ok b → chunk_ok s b.
Proof.
  intros [[T1 T1'] T2 M R D Z G P Y] Es Hb. rewrite decide_True in T2 by done.
  unfold sizes_ok in Z. rewrite Es in Z. cbn in Z. pose proof (R ltac:(by rewrite Es)) as Hr.
  pose proof (P ltac:(unfold target; by rewrite Es) ltac:(unfold target; by rewrite Es)) as Hp.
  destruct (Y Hr Hp) as [Y1 Y2]; [unfold target; by rewrite Es|]. split; try done; [auto|..|apply Z|apply Z].
  split; try done; apply T2.
Qed.

Lemma chunk_l2 s b : chunk_ok s b → l2_ok s.
Proof.
  intros [Q1 Q2 Q3 Q4 Q5 Q6 [T1 T2 T3 T4] Q8 Q9 _]. split; try done.
  - by rewrite decide_True.
  - by apply dict_wf_mem.
  - unfold sizes_ok. by rewrite Q1.
  - unfold target_ok. by rewrite Q1.
Qed.

(** The end of a chunk leads back to the control state. *)
Lemma chunk_end s b u :
  chunk_ok s b → compressed (lzma2 s) = 0 →
  l2_ok (set_lzma2 (set_core s (set_rc (core s) (rc_reset (rc (core s)))))
           (set_sequence (set_uncompressed (lzma2 s) u) SEQ_CONTROL)).
Proof.
  intros [Q1 Q2 Q3 Q4 Q5 Q6 [T1 T2 T3 T4] Q8 Q9 _] Hc. split; cbn; try done.
  - rewrite decide_False by done. lia.
  - by apply dict_wf_mem.
Qed.

(** The chunk after decoding and flushing, with [left] bytes to come. *)
Lemma flushed_ok s s1 b b1 d2 b2 left :
  chunk_ok s b → feed_ok s1 b1 → lzma2 s1 = set_compressed (lzma2 s) (compressed (lzma2 s1)) →
  dict_wf d2 → full (dict (core s1)) <= full d2 → buf_ok b2 → 1 <= left <= uncompressed (lzma2 s) →
  chunk_ok (set_lzma2 (set_core s1 (set_dict (core s1) d2)) (set_uncompressed (lzma2 s1) left)) b2.
Proof.
  intros [Q1 Q2 Q3 Q4 Q5 Q6 Q7 Q8 Q9 _] [[R L D] [T1 T2 T3 T4] C B] E Hd Hf Hb Hl.
  split; cbn; try done; try (by rewrite E); try lia; first [by eapply lz_live_mono|by split].
Qed.

Lemma limit_feed s b n :
  chunk_ok s b → n = min_ (u64 (out_size b - out_pos b)) (uncompressed (lzma2 s)) →
  feed_ok (set_core s (set_dict (core s) (dict_limit (dict (core s)) n))) b.
Proof.
  intros [Q1 Q2 Q3 Q4 Q5 Q6 [T1 T2 T3 T4] Q8 Q9 Q10] ->. pose proof Q10 as [].
  rewrite min_spec, (u64_id (out_size b - out_pos b)) by (unfold is_u64; lia).
  destruct (dict_limit_ok (dict (core s)) (Z.min (out_size b - out_pos b) (uncompressed (lzma2 s))))
    as (D1 & D2 & D3 & D4 & D5 & D6); [done|lia|].
  split; cbn; try done. split; cbn; [done|eapply lz_live_mono; [done|lia]|done].
Qed.

Lemma step_lzma_run_ok s b :
  chunk_ok s b → ∃ a s' b', step_lzma_run s b = Some (a, s', b') ∧ round_ok b a s' b'.
Proof.
  intros Hq. pose proof Hq as [Q1 Q2 Q3 Q4 Q5 Q6 Q7 Q8 Q9 Q10]. pose proof Q10 as [I1 I2 O1 O2 I3].
  unfold step_lzma_run. pose proof (limit_feed s b _ Hq eq_refl) as Hfeed.
  rewrite min_spec, (u64_id (out_size b - out_pos b)) in * by (unfold is_u64; lia).
  set (n := Z.min _ _) in *. assert (0 <= n ∧ n <= out_size b - out_pos b ∧ n <= uncompressed (lzma2 s))
    as (N1 & N2 & N3) by lia.
  destruct (dict_limit_ok (dict (core s)) n) as (D1 & D2 & D3 & D4 & D5 & D6); [done|lia|].
  destruct Q4 as (_ & Hsp & Hpe).
  assert (end_ (dict_limit (dict (core s)) n) = end_ (dict (core s))) as D7
    by (unfold dict_limit; by destruct (_ <=? _)).
  set (d0 := dict_limit _ n) in *.
  destruct (lzma2_lzma_ok _ b Hfeed) as (ok & s1 & b1 & -> & B1 & L1 & Hok). next.
  destruct ok; [|eexists _, _, _; split; [done|]; by apply round_error].
  destruct (Hok eq_refl) as (Hle & Hf1 & Hpr). destruct Hle as [X1 X2 X3 X4 X5]. cbn in X1.
  pose proof X1 as []. pose proof X2 as [].
  assert (out_pos b1 = out_pos b ∧ out_size b1 = out_size b ∧ in_size b1 = in_size b) as (E1 & E2 & E3)
    by (by rewrite X3).
  destruct (dict_flush_ok (dict (core s1)) b1) as (d2 & b2 & -> & W2 & F2 & G2 & B2 & L2 & P2 & P3);
    [done|lia|done|lia|]. next.
  pose proof (in_size_le _ _ L2) as E4. pose proof (l_out_size _ _ L2) as E5.
  set (k := pos (dict (core s1)) - start (dict (core s1))) in *.
  assert (uncompressed (lzma2 s1) = uncompressed (lzma2 s)) as E6 by (by rewrite X5).
  cbn [lzma2 set_core]. rewrite E6. rewrite (u32_id (uncompressed (lzma2 s) - k)) by (unfold is_u32; lia).
  destruct (Z.eqb_spec (uncompressed (lzma2 s) - k) 0) as [E0|E0].
  - destruct (_ || _ || _) eqn:Ee.
    { eexists _, _, _. split; [done|]. apply round_error; [done|by etrans]. }
    rewrite !orb_false_iff, !Z.ltb_ge in Ee. destruct Ee as [[Ee1 Ee2] Ee3]. cbn in Ee1, Ee2.
    eexists _, _, _. split; [done|].
    split; [done|by etrans| |intros _; unfold rest in *; lia|in_list]. right.
    apply (chunk_end (set_lzma2 (set_core s1 (set_dict (core s1) d2)) (set_uncompressed (lzma2 s1) 1)) b2).
    + eapply flushed_ok; done || lia.
    + destruct Hf1 as [_ _ C1 _]. cbn. lia.
  - assert (chunk_ok (set_lzma2 (set_core s1 (set_dict (core s1) d2))
      (set_uncompressed (lzma2 s1) (uncompressed (lzma2 s) - k))) b2) as Hq2
      by (eapply flushed_ok; done || lia).
    destruct (_ || _) eqn:Ee.
    { eexists _, _, _. split; [done|]. split; [done|by etrans|right; by eapply chunk_l2|done|in_list]. }
    rewrite orb_false_iff, andb_false_iff, !Z.eqb_neq, Z.ltb_ge in Ee. cbn in Ee.
    eexists _, _, _. split; [done|]. split; [done|by etrans|right; by eapply chunk_l2| |in_list].
    intros _. unfold rest in *. unfold progress, dict_has_space in Hpr. cbn in Hpr. fold d0 in Hpr.
    specialize (Hpr ltac:(apply Z.ltb_lt; lia)). lia.
Qed.

(** ** Starting a chunk *)

Lemma rest_le b b' : buf_le b b' → rest b' <= rest b.
Proof. intros H. pose proof (in_size_le _ _ H). destruct H. unfold rest. lia. Qed.

Lemma round_after b b1 a s' b' : buf_le b b1 → round_ok b1 a s' b' → round_ok b a s' b'.
Proof.
  intros H [H1 H2 H3 H4 H5]. pose proof (rest_le _ _ H). split; try done; [by etrans|].
  intros E. specialize (H4 E). lia.
Qed.

Lemma read_init_ok n r b :
  buf_ok b → rc_live r → Z.of_nat n <= init_bytes_left r →
  ∃ ok r' b', read_init_loop n r b = Some (ok, r', b') ∧ rc_live r' ∧ buf_ok b' ∧ buf_le b b'.
Proof.
  revert r b. induction n as [|n IH]; intros r b Hb Hr Hn; cbn [read_init_loop]; [by eexists _, _, _|].
  destruct (Z.eqb_spec (in_pos b) (in_size b)); [by eexists _, _, _|].
  destruct (next_in_ok b) as (x & -> & Hx & _ & Hb' & Hle); [done|destruct Hb; lia|]. next.
  destruct Hr as [R1 R2 R3]. unfold RC_INIT_BYTES in R3.
  rewrite (u32_id (init_bytes_left r - 1)) by (unfold is_u32; lia).
  edestruct IH as (ok & r' & b' & -> & Hr' & Hb'' & Hle'); [exact Hb'|..].
  3: exists ok, r', b'; split_and!; [done..|by etrans].
  - split; cbn; [done|apply u32_range|unfold RC_INIT_BYTES; lia].
  - cbn. lia.
Qed.

Lemma step_prepare_ok s b :
  l2_ok s → sequence (lzma2 s) = SEQ_LZMA_PREPARE → buf_ok b →
  ∃ a s' b', step_prepare s b = Some (a, s', b') ∧ round_ok b a s' b'.
Proof.
  intros [[T1 T1'] T2 M R D Z G P Y] Es Hb. unfold step_prepare.
  assert (sequence (lzma2 s) ≠ SEQ_CONTROL) as Hc by (by rewrite Es).
  assert (target (lzma2 s) = SEQ_LZMA_PREPARE) as Ht by (unfold target; by rewrite Es).
  specialize (R Hc). specialize (P ltac:(by rewrite Ht) ltac:(by rewrite Ht)). specialize (D R).
  destruct (Y R P) as [Y1 Y2]; [by rewrite Ht|]. rewrite decide_False in T2 by (by rewrite Es).
  pose proof Z as Z'. unfold sizes_ok in Z'. rewrite Es in Z'.
  destruct (Z.ltb_spec (compressed (lzma2 s)) RC_INIT_BYTES) as [Hlt|Hge].
  { eexists _, _, _. split; [done|]. by apply round_error. }
  destruct (read_init_ok (Z.to_nat (init_bytes_left (rc (core s)))) (rc (core s)) b)
    as (ok & r & b1 & E & Hr & Hb1 & Hle); [done|done|destruct Y1; lia|].
  unfold rc_read_init. rewrite E. next. destruct ok.
  - change (compressed (lzma2 (set_core s (set_rc (core s) r)))) with (compressed (lzma2 s)).
    unfold RC_INIT_BYTES in *. rewrite u32_id by (unfold is_u32; lia).
    destruct (step_lzma_run_ok (set_lzma2 (set_core s (set_rc (core s) r))
      (set_sequence (set_compressed (lzma2 s) (compressed (lzma2 s) - 5)) SEQ_LZMA_RUN)) b1)
      as (a & s' & b' & E' & Hok).
    { split; cbn; try done; try lia. split; cbn; unfold LZMA_IN_REQUIRED; done || lia. }
    exists a, s', b'. split; [exact E'|]. by eapply round_after.
  - eexists _, _, _. split; [done|]. split; [done|done|right|done|in_list].
    split; cbn; try done. rewrite decide_False; [done|by rewrite Es].
Qed.

(** [lzma_props] accepts a byte only with [lc + lp <= 4]. *)
Lemma props_loop_ok fuel k props n :
  0 < k → 0 <= props → 0 <= n → props < k * Z.of_nat fuel →
  props_loop fuel k props n = Some (props mod k, n + props / k).
Proof.
  intros Hk. revert props n. induction fuel as [|fuel IH]; intros props n Hp Hn Hf; [lia|].
  cbn [props_loop]. destruct (Z.leb_spec k props).
  - rewrite IH by lia. replace props with (props - k + 1 * k) at 3 4 by lia.
    rewrite Z.mod_add, Z.div_add by lia. do 2 f_equal. lia.
  - rewrite Z.mod_small, Z.div_small by lia. do 2 f_equal. lia.
Qed.

Lemma lzma_props_ok c props :
  is_u8 props →
  ∃ ok c', lzma_props c props = Some (ok, c') ∧ dict c' = dict c ∧
    (ok = true → rc_live (rc c') ∧ lz_live (lz c') (dict c')).
Proof.
  intros Hp. unfold lzma_props. destruct (Z.ltb_spec ((4 * 5 + 4) * 9 + 8) props) as [Hb|Hb];
    [by eexists _, _|]. unfold is_u8 in Hp.
  rewrite props_loop_ok by lia. next.
  assert (0 <= props / (9 * 5) <= 4) as Hpb by zmod_lia.
  pose proof (Z.mod_pos_bound props (9 * 5) ltac:(lia)) as Hm. set (p1 := props mod (9 * 5)) in *.
  rewrite props_loop_ok by lia. next.
  assert (0 <= p1 / 9 <= 4) as Hlp by zmod_lia.
  pose proof (Z.mod_pos_bound p1 9 ltac:(lia)) as Hm2. rewrite !Z.add_0_l.
  set (pb := props / (9 * 5)) in *. set (lp := p1 / 9) in *. set (l := p1 mod 9) in *. clearbody pb lp l.
  rewrite (u32_id (l + lp)) by (unfold is_u32; lia).
  destruct (Z.ltb_spec 4 (l + lp)); [by eexists _, _|].
  eexists _, _. split; [done|]. split; [done|]. intros _.
  assert (∀ x, 0 <= x <= 4 → u32 (u32 (1 << x) - 1) = 2 ^ x - 1) as Hmask.
  { intros x Hx. rewrite Z.shiftl_1_l. assert (2 ^ x <= 2 ^ 4) by (apply Z.pow_le_mono_r; lia).
    assert (0 < 2 ^ x) by lia. by rewrite !u32_id by (unfold is_u32; rewrite ?u32_id; unfold is_u32; lia). }
  edestruct lzma_reset_ready as [H1 H2]; [| |split; [exact H1|apply H2]].
  - exists lp. cbn. split_and!; [lia..|]. by rewrite Hmask by lia.
  - exists pb. cbn. split; [lia|]. by rewrite Hmask by lia.
Qed.

(** ** All rounds *)

(** A header byte changes only the sizes and the position in the header. *)
Lemma header_to s l' :
  l2_ok s → sequence (lzma2 s) ≠ SEQ_CONTROL → sequence (lzma2 s) ≠ SEQ_LZMA_RUN →
  sequence l' ≠ SEQ_LZMA_RUN → need_dict_reset l' = need_dict_reset (lzma2 s) →
  need_props l' = need_props (lzma2 s) → target l' = target (lzma2 s) →
  sizes_ok l' → target_ok l' → l2_ok (set_lzma2 s l').
Proof.
  intros [T1 T2 M R D Z G P Y] H1 H2 H3 E1 E2 E3 Hz Hg.
  rewrite decide_False in T2 by done. split; cbn; rewrite ?E1, ?E2, ?E3; auto.
  - by rewrite decide_False.
Qed.

Lemma l2_unfold s :
  l2_ok s → sizes_ok (lzma2 s) ∧ target_ok (lzma2 s).
Proof. by intros []. Qed.

Lemma header_step_ok s b :
  l2_ok s → buf_ok b → in_pos b < in_size b →
  sequence (lzma2 s) ∈ [SEQ_UNCOMPRESSED_1; SEQ_UNCOMPRESSED_2; SEQ_COMPRESSED_0; SEQ_COMPRESSED_1] →
  ∃ a s' b', lzma2_step s b = Some (a, s', b') ∧ round_ok b a s' b'.
Proof.
  intros Hs Hb Hi Hin. destruct (next_in_ok b Hb Hi) as (x & E & Hx & _).
  destruct (l2_unfold s Hs) as [Hz Hg]. unfold is_u8 in Hx.
  unfold lzma2_step, sizes_ok, target_ok in *.
  rewrite !elem_of_cons, elem_of_nil in Hin.
  destruct Hin as [Es|[Es|[Es|[Es|[]]]]]; rewrite Es in *; rewrite E; next;
    rewrite ?Z.shiftl_mul_pow2 by lia; change (2 ^ 8) with 256 in *;
    (eexists _, _, _; split; [done|]); apply round_byte; try done;
    (apply header_to; [done|by rewrite Es|by rewrite Es|cbn|done..|unfold target; cbn; rewrite Es|
      unfold sizes_ok; cbn|unfold target_ok; cbn]); try done.
  - rewrite (u32_id (x * 256)), u32_id by (unfold is_u32; rewrite ?u32_id; unfold is_u32; lia). lia.
  - right. rewrite (u32_id (x + 1)), u32_id by (unfold is_u32; rewrite ?u32_id; unfold is_u32; lia). lia.
  - destruct Hg as [Hg|Hg]; [by left|by right; left].
  - split; [done|]. rewrite u32_id by (unfold is_u32; lia). lia.
  - destruct Hg as [->|[->| ->]]; done.
  - destruct Hg as [->|[->| ->]]; done.
  - rewrite (u32_id (x + 1)), u32_id by (unfold is_u32; rewrite ?u32_id; unfold is_u32; lia).
    destruct Hg as [E'|[E'|E']]; rewrite E' in *; try lia; destruct Hz as [[?|?] ?]; try done; split; lia.
  - destruct Hg as [->|[->| ->]]; done.
Qed.

Lemma properties_step_ok s b :
  l2_ok s → buf_ok b → in_pos b < in_size b → sequence (lzma2 s) = SEQ_PROPERTIES →
  ∃ a s' b', lzma2_step s b = Some (a, s', b') ∧ round_ok b a s' b'.
Proof.
  intros Hs Hb Hi Es. unfold lzma2_step. rewrite Es.
  destruct (next_in_ok b Hb Hi) as (x & -> & Hx & _ & Hb' & Hle). next.
  destruct (lzma_props_ok (core s) x Hx) as (ok & c & -> & Ed & Hok). next.
  destruct ok; [|eexists _, _, _; split; [done|]; by apply round_error].
  destruct (Hok eq_refl) as [Hr Hl]. destruct Hs as [T1 T2 M R D Z G P Y].
  rewrite decide_False in T2 by (by rewrite Es). unfold sizes_ok in Z. rewrite Es in Z.
  assert (target (lzma2 s) = SEQ_PROPERTIES) as Ht by (unfold target; by rewrite Es).
  destruct (step_prepare_ok (set_lzma2 (set_core s c) (set_sequence (lzma2 s) SEQ_LZMA_PREPARE))
    (set_in_pos b (in_pos b + 1))) as (a & s' & b' & E' & Hround); [|done|done|].
  { split; cbn; rewrite ?Ed; try done.
    - intros _. apply R. by rewrite Es.
    - intros _ _. apply P; by rewrite Ht.
    - rewrite Ed in Hl. done. }
  exists a, s', b'. split; [exact E'|]. by eapply round_after.
Qed.

Lemma copy_step_ok s b :
  l2_ok s → buf_ok b → in_pos b < in_size b → sequence (lzma2 s) = SEQ_COPY →
  ∃ a s' b', lzma2_step s b = Some (a, s', b') ∧ round_ok b a s' b'.
Proof.
  intros [T1 T2 M R D Z G P Y] Hb Hi Es. unfold lzma2_step. rewrite Es.
  rewrite decide_False in T2 by (by rewrite Es). unfold sizes_ok in Z. rewrite Es in Z.
  specialize (R ltac:(by rewrite Es)). specialize (D R).
  assert (target (lzma2 s) = SEQ_COPY) as Ht by (unfold target; by rewrite Es).
  unfold dict_uncompressed. set (c := compressed (lzma2 s)) in *.
  destruct (uncompressed_loop_ok (S (Z.to_nat c)) (dict (core s)) b c)
    as (d & b' & k & -> & Hwf & Hf & Hk & [C1 C2 C3 C4 _]); [done|done|lia|lia|]. next.
  assert (need_props (lzma2 s) = false → rc_live (rc (core s)) ∧ lz_live (lz (core s)) d) as Hready.
  { intros Hp. destruct (Y R Hp) as [Y1 Y2]; [by rewrite Ht|]. split; [done|by eapply lz_live_mono]. }
  destruct (Z.ltb_spec 0 (c - k)).
  - eexists _, _, _. split; [done|]. split; [done|done|right|done|in_list].
    split; cbn; unfold target; cbn; rewrite ?Es; try done; [by apply dict_wf_mem| |auto].
    unfold sizes_ok. cbn. rewrite Es. destruct Hb. lia.
  - eexists _, _, _. split; [done|]. split; [done|done|right| |in_list].
    + split; cbn; try done; [by apply dict_wf_mem|auto].
    + intros _. unfold rest. rewrite (in_size_le _ _ C2), (l_out_size _ _ C2), C3, C4. lia.
Qed.

Lemma lzma2_step_ok s b :
  l2_ok s → buf_ok b → in_pos b < in_size b ∨ sequence (lzma2 s) = SEQ_LZMA_RUN →
  ∃ a s' b', lzma2_step s b = Some (a, s', b') ∧ round_ok b a s' b'.
Proof.
  intros Hs Hb Hg. destruct (decide (sequence (lzma2 s) = SEQ_LZMA_RUN)) as [Er|Hr].
  { unfold lzma2_step. rewrite Er. by apply step_lzma_run_ok, l2_chunk. }
  destruct Hg as [Hi|]; [|done]. destruct (sequence (lzma2 s)) eqn:Es; try done.
  - unfold lzma2_step. rewrite Es. by apply step_control_ok.
  - apply header_step_ok; [done..|]. rewrite Es. in_list.
  - apply header_step_ok; [done..|]. rewrite Es. in_list.
  - apply header_step_ok; [done..|]. rewrite Es. in_list.
  - apply header_step_ok; [done..|]. rewrite Es. in_list.
  - by apply properties_step_ok.
  - unfold lzma2_step. rewrite Es. by apply step_prepare_ok.
  - by apply copy_step_ok.
Qed.

(** The result of a run. *)
Record run_ok (b : xz_buf) (r : xz_ret) (s' : xz_dec_lzma2) (b' : xz_buf) : Prop := {
  r_buf : buf_ok b';
  r_le : buf_le b b';
  r_state : r = XZ_DATA_ERROR ∨ l2_ok s';
  r_codes : r ∈ [XZ_OK; XZ_STREAM_END; XZ_DATA_ERROR]
}.

Lemma run_loop_ok n s b :
  l2_ok s → buf_ok b → rest b < Z.of_nat n →
  ∃ r s' b', run_loop n s b = Some (r, s', b') ∧ run_ok b r s' b'.
Proof.
  revert s b. induction n as [|n IH]; intros s b Hs Hb Hn; [destruct Hb; unfold rest in Hn; lia|].
  cbn [run_loop]. destruct (_ || _) eqn:Eg.
  - rewrite orb_true_iff, Z.ltb_lt, bool_decide_eq_true in Eg.
    destruct (lzma2_step_ok s b Hs Hb Eg) as (a & s1 & b1 & -> & [O1 O2 O3 O4 O5]). next.
    destruct a as [r|].
    + eexists _, _, _. split; [done|]. split; try done.
      * destruct O3 as [[= ->]|?]; [by left|by right].
      * rewrite !elem_of_cons in *. destruct O5 as [?|[?|[?|[?|?]]]]; simplify_eq; try tauto.
        by apply elem_of_nil in H.
    + destruct O3 as [|Hs1]; [done|]. specialize (O4 eq_refl).
      destruct (IH s1 b1 Hs1 O1) as (r & s' & b' & E & [R1 R2 R3 R4]); [lia|].
      exists r, s', b'. split; [done|]. split; try done. by etrans.
  - eexists _, _, _. split; [done|]. split; try done; [by right|in_list].
Qed.

Lemma xz_dec_lzma2_run_ok s b :
  l2_ok s → buf_ok b → ∃ r s' b', xz_dec_lzma2_run s b = Some (r, s', b') ∧ run_ok b r s' b'.
Proof. intros Hs Hb. apply run_loop_ok; [done|done|]. destruct Hb. unfold rest. lia. Qed.

(** ** Creation, reset and the reachable decoders *)

(** What [vmalloc] promises: a block of the requested size. *)
Definition vmalloc_ok (vmalloc : Z → option (list Z)) : Prop :=
  ∀ n bs, vmalloc n = Some bs → zlen bs = n ∧ Forall is_u8 bs.

(** The memory a reset relies on. *)
Record l2_base (s : xz_dec_lzma2) : Prop := {
  z_temp : zlen (temp_buf s) = 63 ∧ Forall is_u8 (temp_buf s);
  z_buf : zlen (buf (dict (core s))) = allocated (dict (core s));
  z_alloc : allocated (dict (core s)) < 2 ^ 32;
  z_bytes : Forall is_u8 (buf (dict (core s)))
}.

Lemma create_base dict_max : l2_base (xz_dec_lzma2_create dict_max).
Proof. split; try done. split; [done|]. by apply Forall_replicate. Qed.

Lemma l2_ok_base s : l2_ok s → l2_base s.
Proof. intros [T _ [] _ _ _ _ _ _]. by split. Qed.

(** The dictionary size of a properties byte. *)
Lemma dict_size_range props :
  0 <= props <= 39 →
  0 < u32 ((2 + (props .& 1)) << ((props >> 1) + 11)) < 2 ^ 32.
Proof.
  intros Hp. mask_mod. rewrite Z.shiftr_div_pow2 by lia. change (2 ^ 1) with 2.
  assert (0 <= props / 2 <= 19) as Hh by zmod_lia.
  pose proof (Z.mod_pos_bound props 2 ltac:(lia)) as Hm. set (h := props / 2) in *. set (m := props mod 2) in *.
  rewrite Z.shiftl_mul_pow2 by lia.
  assert (2 ^ (h + 11) <= 2 ^ 30) by (apply Z.pow_le_mono_r; lia).
  assert (0 < 2 ^ (h + 11)) by lia. rewrite u32_id by (unfold is_u32; nia). nia.
Qed.

Lemma reset_ok vmalloc s props s' :
  vmalloc_ok vmalloc → l2_base s → 0 <= props → xz_dec_lzma2_reset vmalloc s props = (XZ_OK, s') →
  l2_ok s' ∧ sequence (lzma2 s') = SEQ_CONTROL ∧ need_dict_reset (lzma2 s') = true.
Proof.
  intros Hv [[T1 T2] B1 B2 B3] Hp. unfold xz_dec_lzma2_reset.
  destruct (Z.ltb_spec 39 props) as [|Hle]; [done|].
  pose proof (dict_size_range props ltac:(lia)) as Hsz. set (sz := u32 _) in *. clearbody sz.
  destruct (size_max _ <? sz); [done|].
  destruct (Z.ltb_spec (allocated (dict (core s))) sz).
  - destruct (vmalloc sz) as [bs|] eqn:E; [|done]. destruct (Hv _ _ E) as [V1 V2].
    intros [= <-]. split_and!; try done.
    split; try done. split; cbn; try done; lia.
  - intros [= <-]. split_and!; try done. split; try done. split; cbn; try done; lia.
Qed.

Inductive l2_reach (vmalloc : Z → option (list Z)) : xz_dec_lzma2 → Prop :=
| reach_create dict_max props s :
    0 <= props → xz_dec_lzma2_reset vmalloc (xz_dec_lzma2_create dict_max) props = (XZ_OK, s) →
    l2_reach vmalloc s
| reach_reset s props s' :
    l2_reach vmalloc s → 0 <= props → xz_dec_lzma2_reset vmalloc s props = (XZ_OK, s') →
    l2_reach vmalloc s'
| reach_run s b r s' b' :
    l2_reach vmalloc s → buf_ok b → xz_dec_lzma2_run s b = Some (r, s', b') → r ≠ XZ_DATA_ERROR →
    l2_reach vmalloc s'.

Lemma l2_reach_ok vmalloc s : vmalloc_ok vmalloc → l2_reach vmalloc s → l2_ok s.
Proof.
  intros Hv. induction 1 as [dm props s Hp E|s props s' _ IH Hp E|s b r s' b' _ IH Hb E Hr].
  - by destruct (reset_ok vmalloc _ props s Hv (create_base dm) Hp E).
  - by destruct (reset_ok vmalloc s props s' Hv (l2_ok_base _ IH) Hp E).
  - destruct (xz_dec_lzma2_run_ok s b IH Hb) as (r1 & s1 & b1 & E1 & [_ _ Hs _]).
    rewrite E in E1. simplify_eq. by destruct Hs.
Qed.

(** C14: the LZMA2 decoder is memory safe and terminates on every input. In
    every state reached from creation by resets and runs that did not fail,
    [xz_dec_lzma2_run] returns for any buffers: no access is out of bounds and
    the loop ends. It only reads forward in the input and appends to the
    output, whose earlier bytes it keeps, and returns [XZ_OK],
    [XZ_STREAM_END] or [XZ_DATA_ERROR]. *)
Theorem lzma2_run_safe vmalloc s b :
  vmalloc_ok vmalloc → l2_reach vmalloc s → buf_ok b →
  ∃ r s' b', xz_dec_lzma2_run s b = Some (r, s', b') ∧ buf_ok b' ∧ buf_le b b' ∧
    r ∈ [XZ_OK; XZ_STREAM_END; XZ_DATA_ERROR] ∧ (r ≠ XZ_DATA_ERROR → l2_reach vmalloc s').
Proof.
  intros Hv Hs Hb.
  destruct (xz_dec_lzma2_run_ok s b (l2_reach_ok _ _ Hv Hs) Hb) as (r & s' & b' & E & [R1 R2 R3 R4]).
  exists r, s', b'. split_and!; try done. intros Hr. by apply (reach_run vmalloc s b r s' b').
Qed.

(** An allocator that clears its blocks. *)
Definition demo_vmalloc (n : Z) : option (list Z) :=
  if 0 <=? n then Some (replicate (Z.to_nat n) 0) else None.

Lemma demo_vmalloc_ok : vmalloc_ok demo_vmalloc.
Proof.
  intros n bs. unfold demo_vmalloc. destruct (Z.leb_spec 0 n); [|done]. intros [= <-].
  rewrite length_replicate. split; [lia|]. by apply Forall_replicate.
Qed.

(** A decoder with a dictionary of 4096 bytes. *)
Definition demo_l2 : xz_dec_lzma2 :=
  snd (xz_dec_lzma2_reset demo_vmalloc (xz_dec_lzma2_create (2 ^ 26)) 0).

Lemma lzma2_run_safe_witness :
  ∃ r s' b', xz_dec_lzma2_run demo_l2 (mk_xz_buf [0xe0; 1; 2; 3; 4] 0 [0; 0] 0) = Some (r, s', b') ∧
    buf_ok b'.
Proof.
  destruct (lzma2_run_safe demo_vmalloc demo_l2 (mk_xz_buf [0xe0; 1; 2; 3; 4] 0 [0; 0] 0))
    as (r & s' & b' & E & Hb & _).
  - exact demo_vmalloc_ok.
  - apply (reach_create _ (2 ^ 26) 0); [done|vm_compute; reflexivity].
  - split; try done. repeat (apply Forall_cons_2; [done|]). apply Forall_nil_2.
  - exists r, s', b'. split; [exact E|exact Hb].
Defined.

(** ** Stored data: an encoder and its round trip *)

(** An uncompressed chunk: control byte, size minus one (big endian), data. *)
Definition stored_chunk (control : Z) (data : list Z) : list Z :=
  control :: (zlen data - 1) / 256 :: (zlen data - 1) mod 256 :: data.

(** The first chunk resets the dictionary, the byte 0 ends the stream. *)
Fixpoint stored_rest (chunks : list (list Z)) : list Z :=
  match chunks with
  | [] => [0]
  | c :: cs => stored_chunk 0x02 c ++ stored_rest cs
  end.
Definition stored (c : list Z) (cs : list (list Z)) : list Z := stored_chunk 0x01 c ++ stored_rest cs.

Definition chunk_data_ok (c : list Z) : Prop := 1 <= zlen c <= 2 ^ 16.

Lemma stored_chunk_bytes ctl c : is_u8 ctl → chunk_data_ok c → Forall is_u8 c → Forall is_u8 (stored_chunk ctl c).
Proof.
  intros Hctl Hc Hb. unfold chunk_data_ok in Hc.
  repeat apply Forall_cons_2; try done; unfold is_u8; zmod_lia.
Qed.

Lemma stored_bytes c cs :
  chunk_data_ok c → Forall chunk_data_ok cs → Forall (Forall is_u8) (c :: cs) → Forall is_u8 (stored c cs).
Proof.
  intros Hc Hcs Hb. apply Forall_cons in Hb as [Hb Hbs]. apply Forall_app_2; [by apply stored_chunk_bytes|].
  induction Hcs as [|c' cs' Hc' _ IH]; [by repeat constructor|].
  apply Forall_cons in Hbs as [Hb' Hbs]. apply Forall_app_2; [by apply stored_chunk_bytes|by apply IH].
Qed.

(** The input still to be read is [l]. *)
Definition ahead (b : xz_buf) (l : list Z) : Prop :=
  buf_ok b ∧ drop (Z.to_nat (in_pos b)) (in_ b) = l.

Lemma ahead_length b l : ahead b l → in_size b - in_pos b = zlen l.
Proof. intros [[] <-]. unfold in_size in *. rewrite length_drop. lia. Qed.

Lemma ahead_next b x l :
  ahead b (x :: l) →
  next_in b = Some (x, set_in_pos b (in_pos b + 1)) ∧ ahead (set_in_pos b (in_pos b + 1)) l ∧
  in_pos b < in_size b.
Proof.
  intros H. pose proof (ahead_length _ _ H) as Hl. cbn in Hl. destruct H as [Hb E].
  destruct (next_in_ok b) as (y & -> & _ & Hy & Hb' & _); [done|lia|].
  assert (x = y) as -> by (rewrite <- (Nat.add_0_r (Z.to_nat (in_pos b))), <- lookup_drop, E in Hy; by injection Hy).
  split_and!; [done| |lia]. split; [done|]. cbn. destruct Hb.
  replace (Z.to_nat (in_pos b + 1)) with (Z.to_nat (in_pos b) + 1)%nat by lia.
  by rewrite <- drop_drop, E.
Qed.

(** A round that continues. *)
Lemma run_loop_step n s b s' b' :
  in_pos b < in_size b → lzma2_step s b = Some (Continue, s', b') →
  run_loop (S n) s b = run_loop n s' b'.
Proof. intros Hi E. cbn [run_loop]. rewrite (proj2 (Z.ltb_lt _ _)) by done. cbn [orb]. by rewrite E. Qed.

(** A decoder between stored chunks. *)
Definition idle (s : xz_dec_lzma2) : Prop := l2_ok s ∧ sequence (lzma2 s) = SEQ_CONTROL.

(** The control byte of a stored chunk. *)
Lemma control_stored s b x l :
  idle s → ahead b (x :: l) → x = 0x01 ∨ x = 0x02 ∧ need_dict_reset (lzma2 s) = false →
  ∃ s', lzma2_step s b = Some (Continue, s', set_in_pos b (in_pos b + 1)) ∧
    sequence (lzma2 s') = SEQ_COMPRESSED_0 ∧ next_sequence (lzma2 s') = SEQ_COPY.
Proof.
  intros [Hs Es] Ha Hx. destruct (ahead_next _ _ _ Ha) as (E & _ & _).
  unfold lzma2_step. rewrite Es. unfold step_control. rewrite E. next.
  destruct Hx as [-> | [-> Hn]]; [cbn|cbn; rewrite Hn]; (eexists; split; [reflexivity|done]).
Qed.

(** Any continuing round keeps the invariant. *)
Lemma step_keeps s b s' b' :
  l2_ok s → buf_ok b → in_pos b < in_size b → lzma2_step s b = Some (Continue, s', b') → l2_ok s'.
Proof.
  intros Hs Hb Hi E. destruct (lzma2_step_ok s b Hs Hb (or_introl Hi)) as (a & s1 & b1 & E1 & [_ _ H _ _]).
  rewrite E in E1. simplify_eq. by destruct H.
Qed.

(** The two size bytes. *)
Lemma sizes_stored s b hi lo l :
  l2_ok s → sequence (lzma2 s) = SEQ_COMPRESSED_0 → next_sequence (lzma2 s) = SEQ_COPY →
  0 <= hi < 256 → 0 <= lo < 256 → ahead b (hi :: lo :: l) →
  ∃ s' b', (∀ n, run_loop (S (S n)) s b = run_loop n s' b') ∧ l2_ok s' ∧ ahead b' l ∧
    b' = set_in_pos b (in_pos b + 2) ∧
    sequence (lzma2 s') = SEQ_COPY ∧ compressed (lzma2 s') = hi * 256 + lo + 1.
Proof.
  intros Hs Es En Hhi Hlo Ha. destruct (ahead_next _ _ _ Ha) as (E1 & Ha1 & Hi1).
  destruct (ahead_next _ _ _ Ha1) as (E2 & Ha2 & Hi2).
  set (b1 := set_in_pos b (in_pos b + 1)) in *.
  set (l1 := set_sequence (set_compressed (lzma2 s) (u32 (hi << 8))) SEQ_COMPRESSED_1).
  assert (lzma2_step s b = Some (Continue, set_lzma2 s l1, b1)) as S1
    by (unfold lzma2_step; by rewrite Es, E1).
  pose proof (step_keeps _ _ _ _ Hs (proj1 Ha) Hi1 S1) as Hs1.
  set (l2 := set_sequence (set_compressed l1 (u32 (compressed l1 + u32 (lo + 1)))) (next_sequence l1)).
  assert (lzma2_step (set_lzma2 s l1) b1 = Some (Continue, set_lzma2 s l2, set_in_pos b1 (in_pos b1 + 1))) as S2
    by (unfold lzma2_step; cbn [lzma2 set_lzma2 sequence l1 set_sequence]; rewrite E2; done).
  pose proof (step_keeps _ _ _ _ Hs1 (proj1 Ha1) Hi2 S2) as Hs2.
  eexists _, _. split; [intros n; rewrite (run_loop_step _ _ _ _ _ Hi1 S1); apply (run_loop_step _ _ _ _ _ Hi2 S2)|].
  split_and!; try done.
  - subst b1. unfold set_in_pos. cbn. f_equal. lia.
  - cbn. rewrite Z.shiftl_mul_pow2 by lia. change (2 ^ 8) with 256.
    rewrite (u32_id (hi * 256)), (u32_id (lo + 1)), u32_id by (unfold is_u32; lia). lia.
Qed.

Lemma copy_stored s b c l :
  l2_ok s → sequence (lzma2 s) = SEQ_COPY → compressed (lzma2 s) = zlen c → chunk_data_ok c →
  ahead b (c ++ l) → zlen c <= out_size b - out_pos b →
  ∃ s' b', lzma2_step s b = Some (Continue, s', b') ∧ idle s' ∧ need_dict_reset (lzma2 s') = false ∧
    ahead b' l ∧ copied (zlen c) b b'.
Proof.
  intros Hs Es Ec Hc Ha Ho. pose proof (ahead_length _ _ Ha) as Hl. rewrite length_app in Hl.
  unfold chunk_data_ok in Hc. pose proof (k_reset _ Hs ltac:(by rewrite Es)) as Hn.
  destruct (uncompressed_loop_ok (S (Z.to_nat (zlen c))) (dict (core s)) b (zlen c))
    as (d & b' & k & E & _ & _ & Hk & Hcop); [by apply Hs|apply Ha|lia|lia|].
  assert (k = zlen c) as -> by lia. rewrite Z.sub_diag in E.
  set (s1 := set_lzma2 (set_core s (set_dict (core s) d)) (set_compressed (lzma2 s) 0)).
  assert (lzma2_step s b = Some (Continue, set_lzma2 s1 (set_sequence (lzma2 s1) SEQ_CONTROL), b')) as S1
    by (unfold lzma2_step, dict_uncompressed; rewrite Es, Ec, E; done).
  eexists _, b'. split; [exact S1|]. split_and!; try done.
  - split; [|done]. eapply step_keeps; [exact Hs|apply Ha| |exact S1]. lia.
  - destruct Hcop as [C1 C2 C3 C4 _]. split; [done|]. rewrite C3, (l_in _ _ C2). destruct Ha as [[] Ea].
    by rewrite Z2Nat.inj_add, <- drop_drop, Ea, Nat2Z.id, drop_app_length by lia.
Qed.

Lemma stored_chunk_run s b ctl c l :
  idle s → ctl = 0x01 ∨ ctl = 0x02 ∧ need_dict_reset (lzma2 s) = false → chunk_data_ok c →
  ahead b (stored_chunk ctl c ++ l) → zlen c <= out_size b - out_pos b →
  ∃ s' b', (∀ n, run_loop (4 + n) s b = run_loop n s' b') ∧
    idle s' ∧ need_dict_reset (lzma2 s') = false ∧ ahead b' l ∧
    out_pos b' = out_pos b + zlen c ∧ out_size b' = out_size b ∧ in_ b' = in_ b ∧
    take (Z.to_nat (out_pos b')) (out b') = take (Z.to_nat (out_pos b)) (out b) ++ c.
Proof.
  intros Hid Hctl Hc Ha Ho. unfold stored_chunk in Ha. cbn [app] in Ha.
  destruct (control_stored _ _ _ _ Hid Ha Hctl) as (s1 & S1 & Es1 & En1).
  destruct (ahead_next _ _ _ Ha) as (_ & Ha1 & Hi).
  pose proof (step_keeps _ _ _ _ (proj1 Hid) (proj1 Ha) Hi S1) as Hs1.
  unfold chunk_data_ok in Hc.
  destruct (sizes_stored s1 (set_in_pos b (in_pos b + 1)) ((zlen c - 1) / 256) ((zlen c - 1) mod 256) (c ++ l) Hs1 Es1 En1)
    as (s2 & b2 & R2 & Hs2 & Ha2 & Eb2 & Es2 & Ec2); [zmod_lia|zmod_lia|done|].
  assert (out_pos b2 = out_pos b ∧ out_size b2 = out_size b ∧ out b2 = out b ∧ in_ b2 = in_ b)
    as (E1 & E2 & E3 & E4) by (by rewrite Eb2).
  destruct (copy_stored s2 b2 c l) as (s3 & b3 & S3 & Hid3 & En3 & Ha3 & [C1 C2 C3 C4 C5]);
    [done|done|rewrite Ec2; zmod_lia|done|done|lia|].
  exists s3, b3. split_and!; try done.
  - intros n. change (4 + n)%nat with (S (S (S (S n)))).
    rewrite (run_loop_step _ _ _ _ _ Hi S1), R2. apply run_loop_step; [|done].
    pose proof (ahead_length _ _ Ha2) as Hl. rewrite length_app in Hl. lia.
  - by rewrite C4, E1.
  - by rewrite (l_out_size _ _ C2).
  - by rewrite (l_in _ _ C2).
  - rewrite C5, E1, E3. f_equal. destruct Ha2 as [_ ->]. rewrite Nat2Z.id. apply take_app_length.
Qed.

Lemma stored_rest_run cs s b n :
  idle s → need_dict_reset (lzma2 s) = false → Forall chunk_data_ok cs →
  ahead b (stored_rest cs) → zlen (concat cs) <= out_size b - out_pos b → zlen (stored_rest cs) <= Z.of_nat n →
  ∃ s' b', run_loop n s b = Some (XZ_STREAM_END, s', b') ∧ in_pos b' = in_size b ∧
    out_pos b' = out_pos b + zlen (concat cs) ∧
    take (Z.to_nat (out_pos b')) (out b') = take (Z.to_nat (out_pos b)) (out b) ++ concat cs.
Proof.
  revert s b n. induction cs as [|c cs IH]; intros s b n Hid Hn Hcs Ha Ho Hf.
  - cbn in *. destruct (ahead_next _ _ _ Ha) as (E & Ha1 & Hi). destruct n as [|n]; [lia|].
    pose proof (ahead_length _ _ Ha1) as Hl. cbn in Hl. unfold in_size in Hl. cbn in Hl.
    cbn [run_loop]. rewrite (proj2 (Z.ltb_lt _ _)) by done. cbn [orb]. unfold lzma2_step.
    rewrite (proj2 Hid). unfold step_control. rewrite E. eexists _, _. split; [reflexivity|].
    cbn. rewrite app_nil_r. unfold in_size. split_and!; [lia|lia|done].
  - apply Forall_cons in Hcs as [Hc Hcs]. cbn [concat stored_rest] in *.
    rewrite length_app in Ho, Hf. unfold chunk_data_ok in Hc.
    assert (length (stored_chunk 2 c) = S (S (S (length c)))) as Hlc by done.
    destruct (stored_chunk_run s b 0x02 c (stored_rest cs)) as (s1 & b1 & R & Hid1 & Hn1 & Ha1 & P1 & P2 & P3 & P4);
      [done|by right|done|done|lia|].
    replace n with (4 + (n - 4))%nat by lia. rewrite R.
    destruct (IH s1 b1 (n - 4)%nat) as (s' & b' & -> & Q1 & Q2 & Q3); [done..|lia|lia|].
    exists s', b'. unfold in_size in *. rewrite P3 in Q1. rewrite length_app.
    split_and!; [done|done|lia|]. by rewrite Q3, P4, <- app_assoc.
Qed.

(** C15: stored data survive the round trip. On the LZMA2 encoding of any
    chunks of 1 to 65536 bytes as uncompressed chunks, a decoder that was just
    reset, given enough output space, ends the stream, has read the whole
    input and has written exactly the concatenation of the chunks. *)
Theorem stored_roundtrip vmalloc dict_max props s c cs out0 :
  vmalloc_ok vmalloc → 0 <= props →
  xz_dec_lzma2_reset vmalloc (xz_dec_lzma2_create dict_max) props = (XZ_OK, s) →
  Forall chunk_data_ok (c :: cs) → Forall (Forall is_u8) (c :: cs) →
  zlen (stored c cs) < 2 ^ 62 → zlen (concat (c :: cs)) <= zlen out0 < 2 ^ 62 →
  ∃ s' b', xz_dec_lzma2_run s (mk_xz_buf (stored c cs) 0 out0 0) = Some (XZ_STREAM_END, s', b') ∧
    in_pos b' = zlen (stored c cs) ∧ out_pos b' = zlen (concat (c :: cs)) ∧
    take (length (concat (c :: cs))) (out b') = concat (c :: cs).
Proof.
  intros Hv Hp E Hcs Hu Hin Hout.
  destruct (reset_ok vmalloc _ props s Hv (create_base dict_max) Hp E) as (Hs & Es & _).
  apply Forall_cons in Hcs as [Hc Hcs]. set (b := mk_xz_buf _ 0 out0 0).
  assert (ahead b (stored c cs)) as Ha.
  { split; [|done]. split; unfold in_size, out_size; cbn [in_ in_pos out out_pos b]; try lia.
    by apply stored_bytes. }
  cbn [concat] in *. rewrite length_app in Hout. unfold chunk_data_ok in Hc.
  assert (length (stored_chunk 1 c) = S (S (S (length c)))) as Hlc by done.
  destruct (stored_chunk_run s b 0x01 c (stored_rest cs)) as (s1 & b1 & R & Hid1 & Hn1 & Ha1 & P1 & P2 & P3 & P4);
    [done|by left|done|done|unfold out_size; cbn; lia|].
  unfold xz_dec_lzma2_run. set (fuel := S _).
  assert (zlen (stored c cs) < Z.of_nat fuel) as Hfuel
    by (subst fuel; unfold in_size, out_size; cbn; lia).
  unfold stored in Hfuel. rewrite length_app in Hfuel.
  replace fuel with (4 + (fuel - 4))%nat by lia. rewrite R.
  assert (out_size b1 = zlen out0) as Eo by (by rewrite P2). cbn in P1.
  destruct (stored_rest_run cs s1 b1 (fuel - 4)%nat) as (s' & b' & -> & Q1 & Q2 & Q3);
    [done..|lia|lia|].
  exists s', b'. unfold in_size in Q1. rewrite P3 in Q1. cbn in Q1.
  split_and!; [done|done|rewrite length_app; lia|].
  rewrite P4 in Q3. cbn [out_pos out b] in Q3. rewrite take_0 in Q3. cbn [app] in Q3.
  rewrite <- Q3 at 2. f_equal. rewrite length_app. lia.
Qed.

(** Two chunks, [1, 2, 3] and [4, 5]. *)
Lemma stored_roundtrip_witness :
  ∃ s' b', xz_dec_lzma2_run demo_l2 (mk_xz_buf (stored [1; 2; 3] [[4; 5]]) 0 (replicate 6 0) 0)
             = Some (XZ_STREAM_END, s', b') ∧ take 5 (out b') = [1; 2; 3; 4; 5].
Proof.
  destruct (stored_roundtrip demo_vmalloc (2 ^ 26) 0 demo_l2 [1; 2; 3] [[4; 5]] (replicate 6 0))
    as (s' & b' & E & _ & _ & H).
  - exact demo_vmalloc_ok.
  - done.
  - vm_compute. reflexivity.
  - repeat (apply Forall_cons_2; [by vm_compute|]). apply Forall_nil_2.
  - repeat (apply Forall_cons_2; [repeat (apply Forall_cons_2; [done|]); apply Forall_nil_2|]). apply Forall_nil_2.
  - done.
  - done.
  - exists s', b'. split; [exact E|exact H].
Defined.

End XzLzma2Safe.
