(* ===== verification/XzStream.v ===== *)
(** * The .xz container ([hook_sdk/src/xz/xz_dec_stream.c], [xz_stream.h],
    [xz_dec.c])

    Stream header, block headers, index and footer, the resumable state
    machine [dec_main] and its wrappers [xz_dec_run] and [xz_decompress], built
    on the LZMA2 decoder. [None] is an out-of-bounds access or an exhausted
    loop bound, as in [XzLzma]. *)

From S2P Require Import Prelude XzCrc32 XzLzma XzLzma2.
Import XzCrc32 XzLzma XzLzma2.

Module XzStream.

Inductive stream_seq : Set :=
| SEQ_STREAM_HEADER | SEQ_BLOCK_START | SEQ_BLOCK_HEADER | SEQ_BLOCK_UNCOMPRESS
| SEQ_BLOCK_PADDING | SEQ_BLOCK_CHECK | SEQ_INDEX | SEQ_INDEX_PADDING | SEQ_INDEX_CRC32
| SEQ_STREAM_FOOTER.

Inductive index_seq : Set := SEQ_INDEX_COUNT | SEQ_INDEX_UNPADDED | SEQ_INDEX_UNCOMPRESSED.

Definition STREAM_HEADER_SIZE : Z := 12.
Definition HEADER_MAGIC : list Z := [0xFD; 0x37; 0x7A; 0x58; 0x5A; 0x00].
Definition HEADER_MAGIC_SIZE : Z := 6.
Definition FOOTER_MAGIC : list Z := [0x59; 0x5A].
Definition VLI_UNKNOWN : Z := 2 ^ 64 - 1.
Definition VLI_BYTES_MAX : Z := 8 * 8 / 7.
Definition XZ_CHECK_CRC32 : Z := 1.
Definition XZ_CHECK_MAX : Z := 15.

Definition check_sizes : list Z := [0; 4; 4; 4; 8; 8; 8; 16; 16; 16; 32; 32; 32; 64; 64; 64].

Record xz_dec_hash : Set := mk_hash {
  h_unpadded : Z;
  h_uncompressed : Z;
  h_crc32 : Z
}.

(** [struct xz_dec_hash] in memory: two 64-bit fields, the CRC and four bytes
    of padding, zero since the object was cleared. *)
Definition hash_bytes (h : xz_dec_hash) : list Z :=
  le_bytes 8 (h_unpadded h) ++ le_bytes 8 (h_uncompressed h) ++ le_bytes 4 (h_crc32 h) ++ [0; 0; 0; 0].

Record block_header : Set := mk_block_header {
  bh_compressed : Z;
  bh_uncompressed : Z;
  bh_size : Z
}.

Record block_info : Set := mk_block_info {
  bl_compressed : Z;
  bl_uncompressed : Z;
  bl_count : Z;
  bl_hash : xz_dec_hash
}.

Record index_info : Set := mk_index_info {
  ix_sequence : index_seq;
  ix_size : Z;
  ix_count : Z;
  ix_hash : xz_dec_hash
}.

Record xz_dec : Set := mk_xz_dec {
  sequence : stream_seq;
  vpos : Z;
  vli : Z;
  in_start : Z;
  out_start : Z;
  crc32 : Z;
  check_type : Z;
  allow_buf_error : bool;
  hdr : block_header;
  block : block_info;
  index : index_info;
  t_pos : Z;
  t_size : Z;
  t_buf : list Z;
  lzma2_ : xz_dec_lzma2
}.

(** Field updates. *)
Definition upd_seq (s : xz_dec) (q : stream_seq) : xz_dec :=
  mk_xz_dec q (vpos s) (vli s) (in_start s) (out_start s) (crc32 s) (check_type s)
    (allow_buf_error s) (hdr s) (block s) (index s) (t_pos s) (t_size s) (t_buf s) (lzma2_ s).
Definition upd_vli (s : xz_dec) (p v : Z) : xz_dec :=
  mk_xz_dec (sequence s) p v (in_start s) (out_start s) (crc32 s) (check_type s)
    (allow_buf_error s) (hdr s) (block s) (index s) (t_pos s) (t_size s) (t_buf s) (lzma2_ s).
Definition upd_start (s : xz_dec) (i o : Z) : xz_dec :=
  mk_xz_dec (sequence s) (vpos s) (vli s) i o (crc32 s) (check_type s)
    (allow_buf_error s) (hdr s) (block s) (index s) (t_pos s) (t_size s) (t_buf s) (lzma2_ s).
Definition upd_crc (s : xz_dec) (c : Z) : xz_dec :=
  mk_xz_dec (sequence s) (vpos s) (vli s) (in_start s) (out_start s) c (check_type s)
    (allow_buf_error s) (hdr s) (block s) (index s) (t_pos s) (t_size s) (t_buf s) (lzma2_ s).
Definition upd_check (s : xz_dec) (c : Z) : xz_dec :=
  mk_xz_dec (sequence s) (vpos s) (vli s) (in_start s) (out_start s) (crc32 s) c
    (allow_buf_error s) (hdr s) (block s) (index s) (t_pos s) (t_size s) (t_buf s) (lzma2_ s).
Definition upd_abe (s : xz_dec) (x : bool) : xz_dec :=
  mk_xz_dec (sequence s) (vpos s) (vli s) (in_start s) (out_start s) (crc32 s) (check_type s)
    x (hdr s) (block s) (index s) (t_pos s) (t_size s) (t_buf s) (lzma2_ s).
Definition upd_hdr (s : xz_dec) (h : block_header) : xz_dec :=
  mk_xz_dec (sequence s) (vpos s) (vli s) (in_start s) (out_start s) (crc32 s) (check_type s)
    (allow_buf_error s) h (block s) (index s) (t_pos s) (t_size s) (t_buf s) (lzma2_ s).
Definition upd_block (s : xz_dec) (x : block_info) : xz_dec :=
  mk_xz_dec (sequence s) (vpos s) (vli s) (in_start s) (out_start s) (crc32 s) (check_type s)
    (allow_buf_error s) (hdr s) x (index s) (t_pos s) (t_size s) (t_buf s) (lzma2_ s).
Definition upd_index (s : xz_dec) (x : index_info) : xz_dec :=
  mk_xz_dec (sequence s) (vpos s) (vli s) (in_start s) (out_start s) (crc32 s) (check_type s)
    (allow_buf_error s) (hdr s) (block s) x (t_pos s) (t_size s) (t_buf s) (lzma2_ s).
Definition upd_temp (s : xz_dec) (p n : Z) (bs : list Z) : xz_dec :=
  mk_xz_dec (sequence s) (vpos s) (vli s) (in_start s) (out_start s) (crc32 s) (check_type s)
    (allow_buf_error s) (hdr s) (block s) (index s) p n bs (lzma2_ s).
Definition upd_lzma2 (s : xz_dec) (l : xz_dec_lzma2) : xz_dec :=
  mk_xz_dec (sequence s) (vpos s) (vli s) (in_start s) (out_start s) (crc32 s) (check_type s)
    (allow_buf_error s) (hdr s) (block s) (index s) (t_pos s) (t_size s) (t_buf s) l.

(** ** Fields of the container *)

Definition get_le32 (bs : list Z) (p : Z) : option Z := b ← slice bs p 4; Some (le_val b).

Definition fill_temp (s : xz_dec) (b : xz_buf) : option (bool * xz_dec * xz_buf) :=
  let copy_size := min_ (u64 (in_size b - in_pos b)) (u64 (t_size s - t_pos s)) in
  src ← slice (in_ b) (in_pos b) copy_size;
  bs ← splice (t_buf s) (t_pos s) src;
  let b := set_in_pos b (u64 (in_pos b + copy_size)) in
  let p := u64 (t_pos s + copy_size) in
  if p =? t_size s then Some (true, upd_temp s 0 (t_size s) bs, b)
  else Some (false, upd_temp s p (t_size s) bs, b).

(** The loop of [dec_vli] on [s->pos] and [s->vli]; [n] is fuel. *)
Fixpoint vli_loop (n : nat) (bs : list Z) (in_sz p v ip : Z) : option (xz_ret * Z * Z * Z) :=
  match n with
  | O => None
  | S n =>
      if ip <? in_sz then
        byte ← aget bs ip;
        let ip := u64 (ip + 1) in
        let v := v .| u64 ((byte .& 0x7F) << p) in
        if byte .& 0x80 =? 0 then
          if (byte =? 0) && negb (p =? 0) then Some (XZ_DATA_ERROR, p, v, ip)
          else Some (XZ_STREAM_END, 0, v, ip)
        else
          let p := u32 (p + 7) in
          if p =? 7 * VLI_BYTES_MAX then Some (XZ_DATA_ERROR, p, v, ip)
          else vli_loop n bs in_sz p v ip
      else Some (XZ_OK, p, v, ip)
  end.

(** Returns the code, the decoder and the new [*in_pos]. *)
Definition dec_vli (s : xz_dec) (bs : list Z) (ip in_sz : Z) : option (xz_ret * xz_dec * Z) :=
  let v := if vpos s =? 0 then 0 else vli s in
  '(r, p, v, ip) ← vli_loop (S (Z.to_nat (in_sz - ip))) bs in_sz (vpos s) v ip;
  Some (r, upd_vli s p v, ip).

Definition dec_block (s : xz_dec) (b : xz_buf) : option (xz_ret * xz_dec * xz_buf) :=
  let s := upd_start s (in_pos b) (out_pos b) in
  '(ret, l, b) ← xz_dec_lzma2_run (lzma2_ s) b;
  let s := upd_lzma2 s l in
  let bl := block s in
  let bl := mk_block_info (u64 (bl_compressed bl + u64 (in_pos b - in_start s)))
              (u64 (bl_uncompressed bl + u64 (out_pos b - out_start s))) (bl_count bl) (bl_hash bl) in
  let s := upd_block s bl in
  if (bh_compressed (hdr s) <? bl_compressed bl) || (bh_uncompressed (hdr s) <? bl_uncompressed bl)
  then Some (XZ_DATA_ERROR, s, b)
  else
    written ← slice (out b) (out_start s) (u64 (out_pos b - out_start s));
    let s := if check_type s =? XZ_CHECK_CRC32 then upd_crc s (xz_crc32 written (crc32 s)) else s in
    if bool_decide (ret = XZ_STREAM_END) then
      if (negb (bh_compressed (hdr s) =? VLI_UNKNOWN) &&
          negb (bh_compressed (hdr s) =? bl_compressed bl)) ||
         (negb (bh_uncompressed (hdr s) =? VLI_UNKNOWN) &&
          negb (bh_uncompressed (hdr s) =? bl_uncompressed bl))
      then Some (XZ_DATA_ERROR, s, b)
      else
        cs ← aget check_sizes (check_type s);
        let h := bl_hash bl in
        let h := mk_hash (u64 (u64 (h_unpadded h + u64 (bh_size (hdr s) + bl_compressed bl)) + cs))
                   (u64 (h_uncompressed h + bl_uncompressed bl)) (h_crc32 h) in
        let h := mk_hash (h_unpadded h) (h_uncompressed h) (xz_crc32 (hash_bytes h) (h_crc32 h)) in
        Some (ret, upd_block s (mk_block_info (bl_compressed bl) (bl_uncompressed bl)
                                  (u64 (bl_count bl + 1)) h), b)
    else Some (ret, s, b).

Definition index_update (s : xz_dec) (b : xz_buf) : option xz_dec :=
  let in_used := u64 (in_pos b - in_start s) in
  let ix := index s in
  bs ← slice (in_ b) (in_start s) in_used;
  Some (upd_crc (upd_index s (mk_index_info (ix_sequence ix) (u64 (ix_size ix + in_used))
                                (ix_count ix) (ix_hash ix)))
          (xz_crc32 bs (crc32 s))).

(** The loop of [dec_index]; [n] is fuel. *)
Fixpoint index_loop (n : nat) (s : xz_dec) (b : xz_buf) : option (xz_ret * xz_dec * xz_buf) :=
  match n with
  | O => None
  | S n =>
      '(ret, s, ip) ← dec_vli s (in_ b) (in_pos b) (in_size b);
      let b := set_in_pos b ip in
      if negb (bool_decide (ret = XZ_STREAM_END)) then
        s ← index_update s b; Some (ret, s, b)
      else
        let ix := index s in
        match ix_sequence ix with
        | SEQ_INDEX_COUNT =>
            let s := upd_index s (mk_index_info SEQ_INDEX_COUNT (ix_size ix) (vli s) (ix_hash ix)) in
            if negb (vli s =? bl_count (block s)) then Some (XZ_DATA_ERROR, s, b)
            else
              let s := upd_index s (mk_index_info SEQ_INDEX_UNPADDED (ix_size ix) (vli s) (ix_hash ix)) in
              if 0 <? ix_count (index s) then index_loop n s b else Some (XZ_STREAM_END, s, b)
        | SEQ_INDEX_UNPADDED =>
            let h := ix_hash ix in
            let s := upd_index s (mk_index_info SEQ_INDEX_UNCOMPRESSED (ix_size ix) (ix_count ix)
                       (mk_hash (u64 (h_unpadded h + vli s)) (h_uncompressed h) (h_crc32 h))) in
            if 0 <? ix_count (index s) then index_loop n s b else Some (XZ_STREAM_END, s, b)
        | SEQ_INDEX_UNCOMPRESSED =>
            let h := ix_hash ix in
            let h := mk_hash (h_unpadded h) (u64 (h_uncompressed h + vli s)) (h_crc32 h) in
            let h := mk_hash (h_unpadded h) (h_uncompressed h) (xz_crc32 (hash_bytes h) (h_crc32 h)) in
            let s := upd_index s (mk_index_info SEQ_INDEX_UNPADDED (ix_size ix)
                       (u64 (ix_count ix - 1)) h) in
            if 0 <? ix_count (index s) then index_loop n s b else Some (XZ_STREAM_END, s, b)
        end
  end.

Definition dec_index (s : xz_dec) (b : xz_buf) : option (xz_ret * xz_dec * xz_buf) :=
  index_loop (S (Z.to_nat (in_size b - in_pos b))) s b.

Fixpoint validate_loop (n : nat) (s : xz_dec) (b : xz_buf) : option (xz_ret * xz_dec * xz_buf) :=
  match n with
  | O => None
  | S n =>
      if in_pos b =? in_size b then Some (XZ_OK, s, b)
      else
        '(x, b) ← next_in b;
        if negb ((crc32 s >> vpos s) .& 0xFF =? x) then Some (XZ_DATA_ERROR, s, b)
        else
          let s := upd_vli s (u32 (vpos s + 8)) (vli s) in
          if vpos s <? 32 then validate_loop n s b
          else Some (XZ_STREAM_END, upd_vli (upd_crc s 0) 0 (vli s), b)
  end.

Definition crc32_validate (s : xz_dec) (b : xz_buf) : option (xz_ret * xz_dec * xz_buf) :=
  validate_loop 5 s b.

Fixpoint skip_loop (n : nat) (s : xz_dec) (b : xz_buf) : option (bool * xz_dec * xz_buf) :=
  match n with
  | O => None
  | S n =>
      cs ← aget check_sizes (check_type s);
      if vpos s <? cs then
        if in_pos b =? in_size b then Some (false, s, b)
        else skip_loop n (upd_vli s (u32 (vpos s + 1)) (vli s)) (set_in_pos b (u64 (in_pos b + 1)))
      else Some (true, upd_vli s 0 (vli s), b)
  end.

Definition check_skip (s : xz_dec) (b : xz_buf) : option (bool * xz_dec * xz_buf) :=
  skip_loop 65 s b.

(** [memeq] of a field of [temp]. *)
Definition temp_eq (s : xz_dec) (p : Z) (magic : list Z) : option bool :=
  bs ← slice (t_buf s) p (zlen magic); Some (bool_decide (bs = magic)).

Definition temp_crc (s : xz_dec) (p n : Z) : option Z :=
  bs ← slice (t_buf s) p n; Some (xz_crc32 bs 0).

Definition dec_stream_header (s : xz_dec) : option (xz_ret * xz_dec) :=
  magic ← temp_eq s 0 HEADER_MAGIC;
  if negb magic then Some (XZ_FORMAT_ERROR, s)
  else
    crc ← temp_crc s HEADER_MAGIC_SIZE 2;
    want ← get_le32 (t_buf s) (HEADER_MAGIC_SIZE + 2);
    if negb (crc =? want) then Some (XZ_DATA_ERROR, s)
    else
      f0 ← aget (t_buf s) HEADER_MAGIC_SIZE;
      if negb (f0 =? 0) then Some (XZ_OPTIONS_ERROR, s)
      else
        f1 ← aget (t_buf s) (HEADER_MAGIC_SIZE + 1);
        if XZ_CHECK_MAX <? f1 then Some (XZ_OPTIONS_ERROR, s)
        else
          let s := upd_check s f1 in
          if XZ_CHECK_CRC32 <? check_type s then Some (XZ_UNSUPPORTED_CHECK, s)
          else Some (XZ_OK, s).

Definition dec_stream_footer (s : xz_dec) : option xz_ret :=
  magic ← temp_eq s 10 FOOTER_MAGIC;
  if negb magic then Some XZ_DATA_ERROR
  else
    crc ← temp_crc s 4 6;
    want ← get_le32 (t_buf s) 0;
    if negb (crc =? want) then Some XZ_DATA_ERROR
    else
      backward ← get_le32 (t_buf s) 4;
      if negb (ix_size (index s) >> 2 =? backward) then Some XZ_DATA_ERROR
      else
        f8 ← aget (t_buf s) 8;
        f9 ← aget (t_buf s) 9;
        if negb (f8 =? 0) || negb (f9 =? check_type s) then Some XZ_DATA_ERROR
        else Some XZ_STREAM_END.

(** An optional size field of the Block Header; [None] inside is an error. *)
Definition header_size_field (s : xz_dec) (present : bool) : option (option Z * xz_dec) :=
  if present then
    '(r, s, p) ← dec_vli s (t_buf s) (t_pos s) (t_size s);
    let s := upd_temp s p (t_size s) (t_buf s) in
    if bool_decide (r = XZ_STREAM_END) then Some (Some (vli s), s) else Some (None, s)
  else Some (Some VLI_UNKNOWN, s).

(** [s->temp.buf[s->temp.pos++]]. *)
Definition next_temp (s : xz_dec) : option (Z * xz_dec) :=
  x ← aget (t_buf s) (t_pos s);
  Some (x, upd_temp s (u64 (t_pos s + 1)) (t_size s) (t_buf s)).

(** Header padding: every remaining byte must be zero. *)
Fixpoint padding_loop (n : nat) (s : xz_dec) : option (bool * xz_dec) :=
  match n with
  | O => None
  | S n =>
      if t_pos s <? t_size s then
        '(x, s) ← next_temp s;
        if negb (x =? 0) then Some (false, s) else padding_loop n s
      else Some (true, s)
  end.

Section vmalloc.
Variable vmalloc : Z → option (list Z).

(** The filter flags and padding at the end of the Block Header. *)
Definition dec_filter_flags (s : xz_dec) : option (xz_ret * xz_dec) :=
  if u64 (t_size s - t_pos s) <? 2 then Some (XZ_DATA_ERROR, s)
  else
    '(id, s) ← next_temp s;
    if negb (id =? 0x21) then Some (XZ_OPTIONS_ERROR, s)
    else
      '(n, s) ← next_temp s;
      if negb (n =? 0x01) then Some (XZ_OPTIONS_ERROR, s)
      else if u64 (t_size s - t_pos s) <? 1 then Some (XZ_DATA_ERROR, s)
      else
        '(props, s) ← next_temp s;
        let '(ret, l) := xz_dec_lzma2_reset vmalloc (lzma2_ s) props in
        let s := upd_lzma2 s l in
        if negb (bool_decide (ret = XZ_OK)) then Some (ret, s)
        else
          '(ok, s) ← padding_loop (S (Z.to_nat (t_size s - t_pos s))) s;
          if negb ok then Some (XZ_OPTIONS_ERROR, s)
          else
            let bl := block s in
            Some (XZ_OK, upd_block (upd_temp s 0 (t_size s) (t_buf s))
                           (mk_block_info 0 0 (bl_count bl) (bl_hash bl))).

Definition dec_block_header (s : xz_dec) : option (xz_ret * xz_dec) :=
  let s := upd_temp s (t_pos s) (u64 (t_size s - 4)) (t_buf s) in
  crc ← temp_crc s 0 (t_size s);
  want ← get_le32 (t_buf s) (t_size s);
  if negb (crc =? want) then Some (XZ_DATA_ERROR, s)
  else
    let s := upd_temp s 2 (t_size s) (t_buf s) in
    flags ← aget (t_buf s) 1;
    if negb (flags .& 0x3F =? 0) then Some (XZ_OPTIONS_ERROR, s)
    else
      '(oc, s) ← header_size_field s (negb (flags .& 0x40 =? 0));
      match oc with
      | None => Some (XZ_DATA_ERROR, s)
      | Some c =>
          let s := upd_hdr s (mk_block_header c (bh_uncompressed (hdr s)) (bh_size (hdr s))) in
          '(ou, s) ← header_size_field s (negb (flags .& 0x80 =? 0));
          match ou with
          | None => Some (XZ_DATA_ERROR, s)
          | Some u =>
              dec_filter_flags (upd_hdr s (mk_block_header (bh_compressed (hdr s)) u (bh_size (hdr s))))
          end
      end.

(** ** [dec_main], one function per [case] with its fall-through *)

Definition step_footer (s : xz_dec) (b : xz_buf) : option (action * xz_dec * xz_buf) :=
  '(ok, s, b) ← fill_temp s b;
  if negb ok then Some (Return XZ_OK, s, b)
  else r ← dec_stream_footer s; Some (Return r, s, b).

Definition step_index_crc32 (s : xz_dec) (b : xz_buf) : option (action * xz_dec * xz_buf) :=
  '(ret, s, b) ← crc32_validate s b;
  if negb (bool_decide (ret = XZ_STREAM_END)) then Some (Return ret, s, b)
  else step_footer (upd_seq (upd_temp s (t_pos s) STREAM_HEADER_SIZE (t_buf s)) SEQ_STREAM_FOOTER) b.

(** The padding loop: [None] when done, otherwise the code to return. *)
Fixpoint index_padding_loop (n : nat) (s : xz_dec) (b : xz_buf) : option (option xz_ret * xz_dec * xz_buf) :=
  match n with
  | O => None
  | S n =>
      if u64 (ix_size (index s) + u64 (in_pos b - in_start s)) .& 3 =? 0 then Some (None, s, b)
      else if in_pos b =? in_size b then s ← index_update s b; Some (Some XZ_OK, s, b)
      else
        '(x, b) ← next_in b;
        if negb (x =? 0) then Some (Some XZ_DATA_ERROR, s, b) else index_padding_loop n s b
  end.

Definition step_index_padding (s : xz_dec) (b : xz_buf) : option (action * xz_dec * xz_buf) :=
  '(r, s, b) ← index_padding_loop 4 s b;
  match r with
  | Some ret => Some (Return ret, s, b)
  | None =>
      s ← index_update s b;
      if negb (bool_decide (hash_bytes (bl_hash (block s)) = hash_bytes (ix_hash (index s))))
      then Some (Return XZ_DATA_ERROR, s, b)
      else step_index_crc32 (upd_seq s SEQ_INDEX_CRC32) b
  end.

Definition step_index (s : xz_dec) (b : xz_buf) : option (action * xz_dec * xz_buf) :=
  '(ret, s, b) ← dec_index s b;
  if negb (bool_decide (ret = XZ_STREAM_END)) then Some (Return ret, s, b)
  else step_index_padding (upd_seq s SEQ_INDEX_PADDING) b.

Definition step_block_check (s : xz_dec) (b : xz_buf) : option (action * xz_dec * xz_buf) :=
  if check_type s =? XZ_CHECK_CRC32 then
    '(ret, s, b) ← crc32_validate s b;
    if negb (bool_decide (ret = XZ_STREAM_END)) then Some (Return ret, s, b)
    else Some (Continue, upd_seq s SEQ_BLOCK_START, b)
  else
    '(ok, s, b) ← check_skip s b;
    if negb ok then Some (Return XZ_OK, s, b) else Some (Continue, upd_seq s SEQ_BLOCK_START, b).

Fixpoint block_padding_loop (n : nat) (s : xz_dec) (b : xz_buf) : option (option xz_ret * xz_dec * xz_buf) :=
  match n with
  | O => None
  | S n =>
      let bl := block s in
      if bl_compressed bl .& 3 =? 0 then Some (None, s, b)
      else if in_pos b =? in_size b then Some (Some XZ_OK, s, b)
      else
        '(x, b) ← next_in b;
        if negb (x =? 0) then Some (Some XZ_DATA_ERROR, s, b)
        else
          block_padding_loop n
            (upd_block s (mk_block_info (u64 (bl_compressed bl + 1)) (bl_uncompressed bl)
                            (bl_count bl) (bl_hash bl))) b
  end.

Definition step_block_padding (s : xz_dec) (b : xz_buf) : option (action * xz_dec * xz_buf) :=
  '(r, s, b) ← block_padding_loop 4 s b;
  match r with
  | Some ret => Some (Return ret, s, b)
  | None => step_block_check (upd_seq s SEQ_BLOCK_CHECK) b
  end.

Definition step_block_uncompress (s : xz_dec) (b : xz_buf) : option (action * xz_dec * xz_buf) :=
  '(ret, s, b) ← dec_block s b;
  if negb (bool_decide (ret = XZ_STREAM_END)) then Some (Return ret, s, b)
  else step_block_padding (upd_seq s SEQ_BLOCK_PADDING) b.

Definition step_block_header (s : xz_dec) (b : xz_buf) : option (action * xz_dec * xz_buf) :=
  '(ok, s, b) ← fill_temp s b;
  if negb ok then Some (Return XZ_OK, s, b)
  else
    '(ret, s) ← dec_block_header s;
    if negb (bool_decide (ret = XZ_OK)) then Some (Return ret, s, b)
    else step_block_uncompress (upd_seq s SEQ_BLOCK_UNCOMPRESS) b.

Definition step_block_start (s : xz_dec) (b : xz_buf) : option (action * xz_dec * xz_buf) :=
  if in_pos b =? in_size b then Some (Return XZ_OK, s, b)
  else
    x ← aget (in_ b) (in_pos b);
    if x =? 0 then
      Some (Continue, upd_seq (upd_start s (in_pos b) (out_start s)) SEQ_INDEX,
            set_in_pos b (u64 (in_pos b + 1)))
    else
      let n := u32 ((x + 1) * 4) in
      let s := upd_hdr s (mk_block_header (bh_compressed (hdr s)) (bh_uncompressed (hdr s)) n) in
      step_block_header (upd_seq (upd_temp s 0 n (t_buf s)) SEQ_BLOCK_HEADER) b.

Definition step_stream_header (s : xz_dec) (b : xz_buf) : option (action * xz_dec * xz_buf) :=
  '(ok, s, b) ← fill_temp s b;
  if negb ok then Some (Return XZ_OK, s, b)
  else
    '(ret, s) ← dec_stream_header (upd_seq s SEQ_BLOCK_START);
    if negb (bool_decide (ret = XZ_OK)) then Some (Return ret, s, b)
    else step_block_start s b.

Definition main_step (s : xz_dec) (b : xz_buf) : option (action * xz_dec * xz_buf) :=
  match sequence s with
  | SEQ_STREAM_HEADER => step_stream_header s b
  | SEQ_BLOCK_START => step_block_start s b
  | SEQ_BLOCK_HEADER => step_block_header s b
  | SEQ_BLOCK_UNCOMPRESS => step_block_uncompress s b
  | SEQ_BLOCK_PADDING => step_block_padding s b
  | SEQ_BLOCK_CHECK => step_block_check s b
  | SEQ_INDEX => step_index s b
  | SEQ_INDEX_PADDING => step_index_padding s b
  | SEQ_INDEX_CRC32 => step_index_crc32 s b
  | SEQ_STREAM_FOOTER => step_footer s b
  end.

Fixpoint main_loop (n : nat) (s : xz_dec) (b : xz_buf) : option (xz_ret * xz_dec * xz_buf) :=
  match n with
  | O => None
  | S n =>
      '(a, s, b) ← main_step s b;
      match a with
      | Return r => Some (r, s, b)
      | Continue => main_loop n s b
      end
  end.

(** [n] is fuel: going round the loop consumes input, but for the first round
    after a resumed Check field. *)
Definition dec_main (s : xz_dec) (b : xz_buf) : option (xz_ret * xz_dec * xz_buf) :=
  main_loop (S (S (Z.to_nat (in_size b - in_pos b)))) (upd_start s (in_pos b) (out_start s)) b.

(** ** The public interface, in multi-call mode *)

Definition xz_dec_run (s : xz_dec) (b : xz_buf) : option (xz_ret * xz_dec * xz_buf) :=
  let ip := in_pos b in
  let op := out_pos b in
  '(ret, s, b) ← dec_main s b;
  if bool_decide (ret = XZ_OK) && (ip =? in_pos b) && (op =? out_pos b) then
    Some (if allow_buf_error s then XZ_BUF_ERROR else ret, upd_abe s true, b)
  else Some (ret, upd_abe s false, b).

Definition hash_zero : xz_dec_hash := mk_hash 0 0 0.

Definition xz_dec_reset (s : xz_dec) : xz_dec :=
  mk_xz_dec SEQ_STREAM_HEADER 0 (vli s) (in_start s) (out_start s) 0 (check_type s) false (hdr s)
    (mk_block_info 0 0 0 hash_zero) (mk_index_info SEQ_INDEX_COUNT 0 0 hash_zero)
    0 STREAM_HEADER_SIZE (t_buf s) (lzma2_ s).

(** The objects the decoder allocates besides its dictionary: the two
    structures and the scratch buffer of query mode; [kmalloc] tells which
    requests are granted. *)
Inductive kobj : Set := ObjDec | ObjLzma2 | ObjQuery.

Definition new_dec (dict_max : Z) : xz_dec :=
  mk_xz_dec SEQ_STREAM_HEADER 0 0 0 0 0 0 false (mk_block_header 0 0 0)
    (mk_block_info 0 0 0 hash_zero) (mk_index_info SEQ_INDEX_COUNT 0 0 hash_zero)
    0 0 (replicate 1024 0) (xz_dec_lzma2_create dict_max).

(** [None] is the null pointer. *)
Definition xz_dec_init (kmalloc : kobj → bool) (dict_max : Z) : option xz_dec :=
  if negb (kmalloc ObjDec) then None
  else if negb (kmalloc ObjLzma2) then None
  else Some (xz_dec_reset (new_dec dict_max)).

(** [xz_decompress]: [out = None] is query mode, with a scratch output buffer
    of 32768 bytes that is reused. Result: the returned size and the output
    buffer. *)
Fixpoint decompress_loop (fuel : nat) (query : bool) (s : xz_dec) (b : xz_buf) (total : Z) :
  option (Z * list Z) :=
  match fuel with
  | O => None
  | S fuel =>
      '(ret, s, b) ← xz_dec_run s b;
      match ret with
      | XZ_STREAM_END => Some (u64 (total + out_pos b), out b)
      | XZ_OK =>
          let total := u64 (total + out_pos b) in
          if (query : bool)
          then decompress_loop fuel query s (mk_xz_buf (in_ b) (in_pos b) (out b) 0) total
          else Some (0, out b)
      | XZ_UNSUPPORTED_CHECK => decompress_loop fuel query s b total
      | _ => Some (0, out b)
      end
  end.

Definition xz_decompress (kmalloc : kobj → bool) (fuel : nat) (input : list Z) (output : option (list Z)) :
  option (Z * list Z) :=
  match xz_dec_init kmalloc (1 << 26) with
  | None => Some (0, default [] output)
  | Some s =>
      match output with
      | Some o => decompress_loop fuel false s (mk_xz_buf input 0 o 0) 0
      | None =>
          if negb (kmalloc ObjQuery) then Some (0, [])
          else decompress_loop fuel true s (mk_xz_buf input 0 (replicate 32768 0) 0) 0
      end
  end.

End vmalloc.

End XzStream.
