(* ===== verification/XzStreamSafe.v ===== *)
(** * The .xz container decoder is memory safe and terminates
    ([hook_sdk/src/xz/xz_dec_stream.c], [xz_dec.c])

    Variable-length integers round-trip, [dec_main] and [xz_dec_run] return
    for every input and keep the decoder resumable, and [xz_decompress] into a
    caller's buffer is total. *)

From S2P Require Import Prelude XzCrc32 XzLzma XzLzma2 XzStream XzDict XzRange XzLzmaSafe XzLzma2Safe.
Import XzCrc32 XzLzma XzLzma2 XzStream XzDict XzRange XzLzmaSafe XzLzma2Safe.

Module XzStreamSafe.

(** ** Variable-length integers *)

(** The canonical encoding: groups of seven bits, least significant first, all
    but the last with bit 7 set; [n] bounds the number of bytes. *)
Fixpoint vli_enc (n : nat) (v : Z) : list Z :=
  match n with
  | O => [v]
  | S n => if v <? 128 then [v] else (v mod 128 + 128) :: vli_enc n (v / 128)
  end.

Definition encode_vli (v : Z) : list Z := vli_enc 8 v.

(** One byte of a number: the group at bit [p] is added. *)
Lemma vli_group w byte p :
  0 <= w < 2 ^ p → is_u8 byte → 0 <= p <= 56 →
  w .| u64 ((byte .& 0x7F) << p) = w + byte mod 128 * 2 ^ p.
Proof.
  intros Hw Hb Hp. mask_mod. change (2 ^ 7) with 128.
  pose proof (Z.mod_pos_bound byte 128 ltac:(lia)).
  rewrite Z.shiftl_mul_pow2 by lia.
  assert (2 ^ p <= 2 ^ 56) by (apply Z.pow_le_mono_r; lia).
  rewrite u64_id by (unfold is_u64; nia).
  rewrite Z.lor_comm. rewrite lor_low_high by lia. lia.
Qed.

(** The continuation bit. *)
Lemma vli_more byte : is_u8 byte → (byte .& 0x80 =? 0) = (byte <? 128).
Proof.
  intros Hb. change (byte .& 0x80) with (byte .& 2 ^ 7). rewrite land_pow2 by lia. unfold is_u8 in Hb.
  replace (Z.testbit byte 7) with (negb (byte <? 128)).
  - destruct (Z.ltb_spec byte 128); done.
  - destruct (Z.ltb_spec byte 128).
    + symmetry. apply (testbit_high byte 7); lia.
    + symmetry. cbn [negb]. apply Z.testbit_true; [lia|]. change (2 ^ 7) with 128. zmod_lia.
Qed.

Lemma aget_at {A} (pre post : list A) x i : i = zlen pre → aget (pre ++ x :: post) i = Some x.
Proof.
  intros ->. unfold aget. rewrite (proj2 (Z.leb_le _ _)) by lia. rewrite Nat2Z.id.
  by rewrite lookup_app_r, Nat.sub_diag by lia.
Qed.

(** The last byte. *)
Lemma vli_last fuel pre post in_sz p w v :
  zlen pre < in_sz < 2 ^ 62 → 0 <= v < 128 → 0 <= p <= 56 → 0 <= w < 2 ^ p → (v = 0 → p = 0) →
  vli_loop (S fuel) (pre ++ v :: post) in_sz p w (zlen pre) =
    Some (XZ_STREAM_END, 0, w + v * 2 ^ p, zlen pre + 1).
Proof.
  intros Hi Hv Hp Hw Hz. cbn [vli_loop]. rewrite (proj2 (Z.ltb_lt _ in_sz)) by lia.
  rewrite aget_at by done. cbn [mbind option_bind]. rewrite vli_more by (unfold is_u8; lia).
  rewrite (proj2 (Z.ltb_lt v 128)) by lia.
  rewrite vli_group by (unfold is_u8; lia). rewrite (Z.mod_small v 128), u64_id by (unfold is_u64; lia).
  destruct (Z.eqb_spec v 0) as [->|]; [|done]. by rewrite (Hz eq_refl).
Qed.

(** The loop of [dec_vli] over the canonical encoding of [v], of which the
    low groups [w] were read before: it ends with [w + v * 2^p]. *)
Lemma vli_loop_enc n fuel bs ip in_sz p w v pre post :
  bs = pre ++ vli_enc n v ++ post → ip = zlen pre → ip + zlen (vli_enc n v) <= in_sz < 2 ^ 62 →
  0 <= v → v < 128 ^ Z.of_nat (S n) → p + 7 * Z.of_nat n <= 56 → 0 <= p → 0 <= w < 2 ^ p →
  (v = 0 → p = 0) → zlen (vli_enc n v) <= Z.of_nat fuel →
  vli_loop fuel bs in_sz p w ip =
    Some (XZ_STREAM_END, 0, w + v * 2 ^ p, ip + zlen (vli_enc n v)).
Proof.
  revert fuel ip p w v pre. induction n as [|n IH]; intros fuel ip p w v pre Hbs Hip Hsz Hv Hvn Hp Hp0 Hw Hz Hf.
  all: destruct fuel as [|fuel]; [cbn in Hf; repeat case_match; cbn in Hf; lia|].
  - cbn in Hsz, Hvn. subst. apply vli_last; done || lia.
  - cbn [vli_enc] in *. destruct (Z.ltb_spec v 128) as [Hlt|Hge].
    + cbn in Hsz. subst. apply vli_last; done || lia.
    + set (byte := v mod 128 + 128) in *.
      pose proof (Z.mod_pos_bound v 128 ltac:(lia)) as Hm.
      cbn [vli_loop]. rewrite length_cons in *. rewrite (proj2 (Z.ltb_lt ip in_sz)) by lia.
      assert (aget bs ip = Some byte) as -> by (rewrite Hbs; by apply aget_at).
      cbn [mbind option_bind]. rewrite vli_more by (unfold is_u8; lia).
      rewrite (proj2 (Z.ltb_ge byte 128)) by lia.
      rewrite vli_group by (unfold is_u8; lia).
      replace (byte mod 128) with (v mod 128) by (subst byte; zmod_lia).
      rewrite (u32_id (p + 7)) by (unfold is_u32; lia). rewrite (u64_id (ip + 1)) by (unfold is_u64; lia).
      change (7 * VLI_BYTES_MAX) with 63. rewrite (proj2 (Z.eqb_neq (p + 7) 63)) by lia.
      assert (2 ^ (p + 7) = 2 ^ p * 128) as E7 by (rewrite Z.pow_add_r by lia; done).
      rewrite (IH fuel (ip + 1) (p + 7) (w + v mod 128 * 2 ^ p) (v / 128) (pre ++ [byte])); cycle 1.
      * by rewrite <- app_assoc.
      * rewrite length_app. cbn. lia.
      * lia.
      * zmod_lia.
      * rewrite Nat2Z.inj_succ, Z.pow_succ_r in Hvn by lia. apply Z.div_lt_upper_bound; lia.
      * lia.
      * lia.
      * rewrite E7. nia.
      * intros H. assert (v < 128) by zmod_lia. lia.
      * lia.
      * rewrite E7. pose proof (Z.div_mod v 128 ltac:(lia)) as Hdm.
        do 2 f_equal; [f_equal|lia]. rewrite Hdm at 3. ring.
Qed.

(** Conversely, what the loop accepts is a canonical encoding. *)
Lemma vli_loop_canonical fuel bs in_sz p w ip k p' v' ip' :
  Forall is_u8 bs → zlen bs < 2 ^ 62 → 0 <= ip → p = 7 * (8 - Z.of_nat k) → (k <= 8)%nat → 0 <= w < 2 ^ p →
  vli_loop fuel bs in_sz p w ip = Some (XZ_STREAM_END, p', v', ip') →
  ∃ v, v' = w + v * 2 ^ p ∧ p' = 0 ∧ 0 <= v < 128 ^ (Z.of_nat k + 1) ∧ (v = 0 → p = 0) ∧ ip < ip' ∧
    take (Z.to_nat (ip' - ip)) (drop (Z.to_nat ip) bs) = vli_enc k v.
Proof.
  intros Hbs Hlen. revert p w ip k. induction fuel as [|fuel IH]; intros p w ip k Hip Hp Hk Hw; [done|].
  cbn [vli_loop]. destruct (Z.ltb_spec ip in_sz); [|done].
  destruct (aget bs ip) as [byte|] eqn:Eb; [|done]. cbn [mbind option_bind].
  unfold aget in Eb. rewrite (proj2 (Z.leb_le 0 ip)) in Eb by done.
  assert (is_u8 byte) as Hb by (rewrite Forall_lookup in Hbs; eauto).
  pose proof (lookup_lt_Some _ _ _ Eb) as Hlt. rewrite (drop_S bs byte) by done.
  rewrite vli_more, vli_group, (u64_id (ip + 1)) by (done || unfold is_u64; lia). unfold is_u8 in Hb.
  pose proof (Z.mod_pos_bound byte 128 ltac:(lia)) as Hm.
  destruct (Z.ltb_spec byte 128) as [Hlo|Hhi].
  - rewrite (Z.mod_small byte 128) by lia.
    destruct ((byte =? 0) && negb (p =? 0)) eqn:Ez; [done|]. intros [= <- <- <-].
    rewrite andb_false_iff, negb_false_iff, Z.eqb_neq, Z.eqb_eq in Ez.
    assert (128 ^ 1 <= 128 ^ (Z.of_nat k + 1)) by (apply Z.pow_le_mono_r; lia).
    exists byte. split_and!; [done|done|lia|lia|lia|lia|].
    replace (Z.to_nat (ip + 1 - ip)) with 1%nat by lia. cbn. destruct k; [done|]. cbn.
    by rewrite (proj2 (Z.ltb_lt _ _)) by done.
  - rewrite (u32_id (p + 7)) by (unfold is_u32; lia). change (7 * VLI_BYTES_MAX) with 63.
    destruct (Z.eqb_spec (p + 7) 63) as [|Hne]; [done|]. destruct k as [|k]; [lia|].
    assert (2 ^ (p + 7) = 2 ^ p * 128) as E7 by (rewrite Z.pow_add_r by lia; done).
    intros E. destruct (IH (p + 7) (w + byte mod 128 * 2 ^ p) (ip + 1) k) as (v & -> & -> & Hv & Hv0 & Hip' & Et);
      [lia|lia|lia|rewrite E7; nia|done|].
    assert (0 < v) as Hvpos by (destruct (decide (v = 0)) as [->|]; [specialize (Hv0 eq_refl); lia|lia]).
    replace (Z.of_nat (S k) + 1) with (Z.succ (Z.of_nat k + 1)) by lia. rewrite Z.pow_succ_r by lia.
    exists (byte mod 128 + 128 * v). split_and!; [rewrite E7; ring|done|lia|lia|lia|lia|].
    replace (Z.to_nat (ip' - ip)) with (S (Z.to_nat (ip' - (ip + 1)))) by lia. cbn [take vli_enc].
    rewrite (proj2 (Z.ltb_ge _ 128)) by lia.
    replace ((byte mod 128 + 128 * v) mod 128) with (byte mod 128) by zmod_lia.
    replace ((byte mod 128 + 128 * v) / 128) with v by zmod_lia.
    replace (Z.to_nat (ip + 1)) with (S (Z.to_nat ip)) in Et by lia. rewrite Et. f_equal. zmod_lia.
Qed.

(** [dec_vli] inverts the variable-length encoding. Starting a number, it
    decodes the canonical encoding of every value below [2^63] to that value
    and stops right behind it; and every byte sequence it accepts is the
    canonical encoding of the value it returns, so overlong encodings are
    refused. *)
Theorem dec_vli_roundtrip s pre post v bs ip in_sz :
  vpos s = 0 → Forall is_u8 bs → zlen bs < 2 ^ 62 → 0 <= ip → 0 <= v < 2 ^ 63 →
  zlen (pre ++ encode_vli v ++ post) < 2 ^ 62 →
  dec_vli s (pre ++ encode_vli v ++ post) (zlen pre) (zlen (pre ++ encode_vli v ++ post)) =
    Some (XZ_STREAM_END, upd_vli s 0 v, zlen pre + zlen (encode_vli v)) ∧
  (∀ s' ip', dec_vli s bs ip in_sz = Some (XZ_STREAM_END, s', ip') →
     ∃ x, s' = upd_vli s 0 x ∧ 0 <= x < 2 ^ 63 ∧ ip < ip' ∧
       take (Z.to_nat (ip' - ip)) (drop (Z.to_nat ip) bs) = encode_vli x).
Proof.
  intros Hp Hbs Hl Hip Hv Hlen. unfold dec_vli. rewrite Hp. cbn [Z.eqb]. split.
  - rewrite (vli_loop_enc 8 _ _ (zlen pre) _ 0 0 v pre post);
      [|done|done|unfold encode_vli in *; rewrite !length_app in *; lia|lia| |lia|lia|lia|done|
        unfold encode_vli; rewrite !length_app in *; lia].
    + cbn [mbind option_bind]. rewrite Z.add_0_l, Z.mul_1_r. done.
    + change (128 ^ Z.of_nat 9) with (2 ^ 63). lia.
  - intros s' ip'. destruct (vli_loop _ bs in_sz 0 0 ip) as [[[[r p'] v'] ip1]|] eqn:E; [|done].
    cbn [mbind option_bind]. intros [= -> <- ->].
    destruct (vli_loop_canonical (S (Z.to_nat (in_sz - ip))) bs in_sz 0 0 ip 8 p' v' ip') as (x & -> & -> & Hx & _ & Hlt & Ht);
      [done|done|done|done|lia|lia|done|].
    exists x. rewrite Z.add_0_l, Z.mul_1_r. change (128 ^ (Z.of_nat 8 + 1)) with (2 ^ 63) in Hx.
    split_and!; done || lia.
Qed.

Lemma dec_vli_roundtrip_witness :
  encode_vli 300 = [0xac; 2] ∧
  dec_vli (new_dec 4096) [0xac; 2; 7] 0 3 =
    Some (XZ_STREAM_END, upd_vli (new_dec 4096) 0 300, 2).
Proof.
  split; [reflexivity|].
  apply (dec_vli_roundtrip (new_dec 4096) [] [7] 300 [] 0 0); done.
Defined.

(** ** Invariant of the container state machine *)

Definition vpos_ok (s : xz_dec) : Prop :=
  match sequence s with
  | SEQ_INDEX => ∃ k, 0 <= k <= 8 ∧ vpos s = 7 * k
  | SEQ_BLOCK_CHECK | SEQ_INDEX_CRC32 => 0 <= vpos s <= 64
  | _ => vpos s = 0
  end.

Definition temp_pos_ok (s : xz_dec) : Prop :=
  match sequence s with
  | SEQ_STREAM_HEADER | SEQ_STREAM_FOOTER => t_size s = STREAM_HEADER_SIZE ∧ 0 <= t_pos s < t_size s
  | SEQ_BLOCK_HEADER => 8 <= t_size s <= 1024 ∧ 0 <= t_pos s < t_size s
  | _ => t_pos s = 0
  end.

Record st_inv (s : xz_dec) : Prop := {
  i_temp : zlen (t_buf s) = 1024 ∧ Forall is_u8 (t_buf s);
  i_temp_pos : temp_pos_ok s;
  i_vpos : vpos_ok s;
  i_check : sequence s ≠ SEQ_STREAM_HEADER → 0 <= check_type s <= XZ_CHECK_MAX;
  i_base : l2_base (lzma2_ s);
  i_l2 : sequence s = SEQ_BLOCK_UNCOMPRESS → l2_ok (lzma2_ s)
}.

(** Inside a call the input taken so far starts at [in_start]. *)
Record call_ok (s : xz_dec) (b : xz_buf) : Prop := {
  j_inv : st_inv s;
  j_buf : buf_ok b;
  j_start : 0 <= in_start s <= in_pos b
}.

Record spost (b : xz_buf) (a : action) (s' : xz_dec) (b' : xz_buf) : Prop := {
  sp_buf : buf_ok b';
  sp_le : buf_le b b';
  sp_cont : a = Continue → call_ok s' b' ∧ (sequence s' = SEQ_BLOCK_START ∨ sequence s' = SEQ_INDEX);
  sp_ret : a = Return XZ_OK ∨ a = Return XZ_UNSUPPORTED_CHECK → st_inv s';
  sp_unsup : a = Return XZ_UNSUPPORTED_CHECK → in_pos b < in_pos b'
}.

Lemma spost_after b b1 a s' b' : buf_le b b1 → spost b1 a s' b' → spost b a s' b'.
Proof.
  intros H [H1 H2 H3 H4 H5]. split; try done; [by etrans|].
  intros E. specialize (H5 E). destruct H. lia.
Qed.

(** A return that ends decoding. *)
Lemma spost_end b r s' b' :
  buf_ok b' → buf_le b b' → r ≠ XZ_OK → r ≠ XZ_UNSUPPORTED_CHECK → spost b (Return r) s' b'.
Proof. intros. split; try done; [by intros [[= ->]|[= ->]]|by intros [= ->]]. Qed.

(** A return that waits for more input. *)
Lemma spost_wait b s' b' : buf_ok b' → buf_le b b' → st_inv s' → spost b (Return XZ_OK) s' b'.
Proof. intros. by split. Qed.

(** Moving to a state in which [temp] is idle. *)
Lemma st_inv_seq s q :
  st_inv s → t_pos s = 0 → vpos s = 0 → sequence s ≠ SEQ_STREAM_HEADER →
  q ∈ [SEQ_BLOCK_START; SEQ_BLOCK_PADDING; SEQ_BLOCK_CHECK; SEQ_INDEX; SEQ_INDEX_PADDING; SEQ_INDEX_CRC32] →
  st_inv (upd_seq s q).
Proof.
  intros [T P V C B L] Ht Hv Hs Hq. rewrite !elem_of_cons, elem_of_nil in Hq.
  destruct Hq as [->|[->|[->|[->|[->|[->|[]]]]]]]; split; try done; try (intros _; by apply C);
    unfold vpos_ok; cbn; rewrite Hv; try lia. exists 0. lia.
Qed.

(** ** Header bytes *)

Lemma fill_temp_ok s b :
  st_inv s → buf_ok b → 0 <= t_pos s < t_size s → t_size s <= 1024 →
  ∃ ok s' b', fill_temp s b = Some (ok, s', b') ∧ buf_ok b' ∧ buf_le b b' ∧
    (∃ bs p, s' = upd_temp s p (t_size s) bs ∧ zlen bs = 1024 ∧ Forall is_u8 bs ∧ 0 <= p < t_size s ∧
       (ok = true → p = 0 ∧ in_pos b < in_pos b') ∧ (ok = false → t_pos s <= p)).
Proof.
  intros [[T1 T2] _ _ _ _ _] Hb Hp Hsz. pose proof Hb as [I1 I2 O1 O2 I3]. unfold fill_temp.
  rewrite (u64_id (in_size b - in_pos b)), (u64_id (t_size s - t_pos s)) by (unfold is_u64; lia).
  rewrite min_spec. set (n := Z.min _ _).
  assert (0 <= n ∧ n <= in_size b - in_pos b ∧ n <= t_size s - t_pos s) as (N1 & N2 & N3) by lia. clearbody n.
  destruct (slice_ok (in_ b) (in_pos b) n) as (src & -> & S1 & S2); [lia|lia|unfold in_size in *; lia|done|]. next.
  destruct (splice_ok (t_buf s) (t_pos s) src) as (bs & -> & S3 & S4); [lia|lia|done|done|]. next.
  rewrite !u64_id by (unfold is_u64; lia).
  destruct (set_in_pos_ok b (in_pos b + n) Hb) as [B1 B2]; [lia|].
  destruct (Z.eqb_spec (t_pos s + n) (t_size s)).
  - eexists _, _, _. split; [done|]. split_and!; [done|done|].
    exists bs, 0. split_and!; try done; try lia. intros _. cbn. lia.
  - eexists _, _, _. split; [done|]. split_and!; [done|done|].
    exists bs, (t_pos s + n). split_and!; try done; lia.
Qed.

Lemma get_le32_ok bs p : 0 <= p → p + 4 <= zlen bs → ∃ v, get_le32 bs p = Some v.
Proof. intros. unfold get_le32. rewrite slice_Some by lia. by eexists. Qed.

Lemma temp_eq_ok s p magic : 0 <= p → p + zlen magic <= zlen (t_buf s) → ∃ v, temp_eq s p magic = Some v.
Proof. intros. unfold temp_eq. rewrite slice_Some by lia. by eexists. Qed.

Lemma temp_crc_ok s p n : 0 <= p → 0 <= n → p + n <= zlen (t_buf s) → ∃ v, temp_crc s p n = Some v.
Proof. intros. unfold temp_crc. rewrite slice_Some by lia. by eexists. Qed.

Lemma aget_u8 bs p : Forall is_u8 bs → 0 <= p < zlen bs → ∃ x, aget bs p = Some x ∧ is_u8 x.
Proof.
  intros Hb Hp. destruct (aget_Some bs p Hp) as (x & -> & Hx). exists x. split; [done|].
  rewrite Forall_lookup in Hb. eauto.
Qed.

Lemma dec_stream_footer_ok s :
  zlen (t_buf s) = 1024 → ∃ r, dec_stream_footer s = Some r ∧ r ≠ XZ_OK ∧ r ≠ XZ_UNSUPPORTED_CHECK.
Proof.
  intros Hl. unfold dec_stream_footer.
  destruct (temp_eq_ok s 10 FOOTER_MAGIC) as (m & ->); [lia|cbn; lia|]. next. destruct m; [|by eexists].
  destruct (temp_crc_ok s 4 6) as (crc & ->); [lia..|]. next.
  destruct (get_le32_ok (t_buf s) 0) as (want & ->); [lia..|]. next. destruct (crc =? want); [|by eexists].
  destruct (get_le32_ok (t_buf s) 4) as (bw & ->); [lia..|]. next. destruct (_ =? bw); [|by eexists].
  destruct (aget_Some (t_buf s) 8) as (x8 & -> & _); [lia|]. next.
  destruct (aget_Some (t_buf s) 9) as (x9 & -> & _); [lia|]. next.
  destruct (_ || _); by eexists.
Qed.

Lemma dec_stream_header_ok s :
  zlen (t_buf s) = 1024 → Forall is_u8 (t_buf s) →
  ∃ r s', dec_stream_header s = Some (r, s') ∧
    (r = XZ_OK ∨ r = XZ_UNSUPPORTED_CHECK → ∃ c, s' = upd_check s c ∧ 0 <= c <= XZ_CHECK_MAX).
Proof.
  intros Hl Hb. unfold dec_stream_header, HEADER_MAGIC_SIZE.
  destruct (temp_eq_ok s 0 HEADER_MAGIC) as (m & ->); [lia|cbn; lia|]. next.
  destruct m; [|eexists _, _; split; [done|by intros [|]]].
  destruct (temp_crc_ok s 6 2) as (crc & ->); [lia..|]. next.
  destruct (get_le32_ok (t_buf s) (6 + 2)) as (want & ->); [lia..|]. next.
  destruct (crc =? want); [|eexists _, _; split; [done|by intros [|]]].
  destruct (aget_u8 (t_buf s) 6) as (x6 & -> & _); [done|lia|]. next.
  destruct (x6 =? 0); [|eexists _, _; split; [done|by intros [|]]].
  destruct (aget_u8 (t_buf s) (6 + 1)) as (x7 & -> & H7); [done|lia|]. next. unfold is_u8 in H7.
  destruct (Z.ltb_spec XZ_CHECK_MAX x7); [eexists _, _; split; [done|by intros [|]]|].
  destruct (_ <? check_type _); (eexists _, _; split; [done|]; intros _; exists x7; split; [done|lia]).
Qed.

(** ** Numbers and checks *)

(** [dec_vli] stays in its input; only a complete number advances [vpos] to 0. *)
Record vli_post (ip in_sz : Z) (r : xz_ret) (p' ip' : Z) : Prop := {
  x_range : ip <= ip' <= in_sz;
  x_code : r = XZ_OK ∨ r = XZ_STREAM_END ∨ r = XZ_DATA_ERROR;
  x_end : r = XZ_STREAM_END → p' = 0 ∧ ip < ip';
  x_wait : r = XZ_OK → ∃ k, 0 <= k <= 8 ∧ p' = 7 * k
}.

Lemma vli_loop_total fuel bs in_sz k v ip :
  0 <= k <= 8 → 0 <= ip <= in_sz → in_sz <= zlen bs < 2 ^ 62 → in_sz - ip < Z.of_nat fuel →
  ∃ r p' v' ip', vli_loop fuel bs in_sz (7 * k) v ip = Some (r, p', v', ip') ∧ vli_post ip in_sz r p' ip'.
Proof.
  revert k v ip. induction fuel as [|fuel IH]; intros k v ip Hk Hip Hsz Hf; [lia|].
  cbn [vli_loop]. destruct (Z.ltb_spec ip in_sz) as [Hlt|Hge].
  2: { eexists _, _, _, _. split; [done|]. split; [lia|by left|done|intros _; by exists k]. }
  destruct (aget_Some bs ip) as (x & -> & _); [lia|]. next. rewrite (u64_id (ip + 1)) by (unfold is_u64; lia).
  destruct (_ =? 0).
  - destruct (_ && _); (eexists _, _, _, _; split; [done|]; split; try done; first [tauto|intros _; lia|lia]).
  - rewrite u32_id by (unfold is_u32; lia). change (7 * VLI_BYTES_MAX) with 63.
    destruct (Z.eqb_spec (7 * k + 7) 63).
    { eexists _, _, _, _. split; [done|]. split; try done; [lia|tauto]. }
    replace (7 * k + 7) with (7 * (k + 1)) by lia.
    destruct (IH (k + 1) (v .| u64 ((x .& 0x7F) << (7 * k))) (ip + 1)) as (r & p' & v' & ip' & -> & [X1 X2 X3 X4]); [lia..|].
    eexists _, _, _, _. split; [done|]. split; try done; [lia|].
    intros E. destruct (X3 E). lia.
Qed.

Lemma dec_vli_ok s bs ip in_sz k :
  0 <= k <= 8 → vpos s = 7 * k → 0 <= ip <= in_sz → in_sz <= zlen bs < 2 ^ 62 →
  ∃ r p' v' ip', dec_vli s bs ip in_sz = Some (r, upd_vli s p' v', ip') ∧ vli_post ip in_sz r p' ip'.
Proof.
  intros Hk Ev Hip Hsz. unfold dec_vli. rewrite Ev.
  destruct (vli_loop_total (S (Z.to_nat (in_sz - ip))) bs in_sz k (if 7 * k =? 0 then 0 else vli s) ip)
    as (r & p' & v' & ip' & -> & Hp); [done..|lia|]. next. by eexists _, _, _, _.
Qed.

Lemma index_update_ok s b :
  buf_ok b → 0 <= in_start s <= in_pos b →
  ∃ ix c, index_update s b = Some (upd_crc (upd_index s ix) c).
Proof.
  intros [] Hs. unfold index_update. rewrite (u64_id (in_pos b - in_start s)) by (unfold is_u64; lia).
  rewrite slice_Some by (unfold in_size in *; lia). next. by eexists _, _.
Qed.

Lemma st_inv_index s ix : st_inv s → st_inv (upd_index s ix).
Proof. by intros []. Qed.
Lemma st_inv_crc s c : st_inv s → st_inv (upd_crc s c).
Proof. by intros []. Qed.
Lemma st_inv_block s bl : st_inv s → st_inv (upd_block s bl).
Proof. by intros []. Qed.
Lemma st_inv_start s i o : st_inv s → st_inv (upd_start s i o).
Proof. by intros []. Qed.
Lemma st_inv_vli s p v :
  st_inv s → vpos_ok (upd_vli s p v) → st_inv (upd_vli s p v).
Proof. by intros [] ?. Qed.

Lemma index_loop_ok n s b :
  call_ok s b → sequence s = SEQ_INDEX → in_size b - in_pos b < Z.of_nat n →
  ∃ r s' b', index_loop n s b = Some (r, s', b') ∧ buf_ok b' ∧ buf_le b b' ∧
    (r = XZ_OK ∨ r = XZ_STREAM_END → call_ok s' b' ∧ sequence s' = SEQ_INDEX) ∧
    (r = XZ_STREAM_END → vpos s' = 0) ∧ r ≠ XZ_UNSUPPORTED_CHECK.
Proof.
  revert s b. induction n as [|n IH]; intros s b [Hi Hb Hst] Es Hn; [destruct Hb; lia|].
  cbn [index_loop]. pose proof Hi as [_ _ V _ _ _]. unfold vpos_ok in V. rewrite Es in V.
  destruct V as (k & Hk & Ev). pose proof Hb as [I1 I2 O1 O2 I3].
  destruct (dec_vli_ok s (in_ b) (in_pos b) (in_size b) k) as (r & p' & v' & ip & -> & [X1 X2 X3 X4]);
    [done|done|lia|unfold in_size in *; lia|]. next.
  destruct (set_in_pos_ok b ip Hb) as [B1 B2]; [lia|]. set (b1 := set_in_pos b ip) in *.
  set (s1 := upd_vli s p' v').
  assert (in_start s1 = in_start s ∧ in_pos b1 = ip ∧ sequence s1 = SEQ_INDEX) as (E1 & E2 & E3) by done.
  destruct (bool_decide (r = XZ_STREAM_END)) eqn:Er; cbn [negb].
  - apply bool_decide_eq_true in Er. destruct (X3 Er) as [-> Hlt].
    assert (st_inv s1) as Hs1.
    { apply st_inv_vli; [done|]. unfold vpos_ok. cbn. rewrite Es. exists 0. lia. }
    assert (∀ ix ix' : index_info,
      ∃ r s' b', (if 0 <? ix_count ix' then index_loop n (upd_index s1 ix) b1
                  else Some (XZ_STREAM_END, upd_index s1 ix, b1)) = Some (r, s', b') ∧ buf_ok b' ∧ buf_le b b' ∧
        (r = XZ_OK ∨ r = XZ_STREAM_END → call_ok s' b' ∧ sequence s' = SEQ_INDEX) ∧
        (r = XZ_STREAM_END → vpos s' = 0) ∧ r ≠ XZ_UNSUPPORTED_CHECK) as Hgo.
    { intros ix ix'. assert (call_ok (upd_index s1 ix) b1) as Hc by (split; [by apply st_inv_index|done|cbn; lia]).
      destruct (0 <? _).
      - destruct (IH _ _ Hc) as (r' & s' & b' & -> & P1 & P2 & P3); [done|unfold in_size in *; cbn; lia|].
        eexists _, _, _. split; [done|]. split_and!; try done; [by etrans|apply P3..].
      - eexists _, _, _. split; [done|]. by split_and!. }
    subst r. destruct (ix_sequence _); [destruct (_ =? _); cbn [negb]|..]; try apply Hgo.
    eexists _, _, _. split; [done|]. split_and!; try done. by intros [|].
  - apply bool_decide_eq_false in Er.
    destruct (index_update_ok s1 b1) as (ix & c & ->); [done|lia|]. next.
    eexists _, _, _. split; [done|]. split_and!; [done|done| |done|by destruct X2 as [->|[->| ->]]].
    intros [->|?]; [|done]. split; [|done]. destruct (X4 eq_refl) as (k' & Hk' & ->).
    split; [|done|cbn; lia]. apply st_inv_crc, st_inv_index, st_inv_vli; [done|].
    unfold vpos_ok. cbn. rewrite Es. by exists k'.
Qed.

Lemma validate_loop_ok n s b :
  buf_ok b → 0 <= vpos s <= 64 → (5 - vpos s / 8 <= Z.of_nat n) → (0 < n)%nat →
  ∃ r p c s' b', validate_loop n s b = Some (r, s', b') ∧ s' = upd_crc (upd_vli s p (vli s)) c ∧
    buf_ok b' ∧ buf_le b b' ∧ (r = XZ_OK ∨ r = XZ_STREAM_END ∨ r = XZ_DATA_ERROR) ∧
    (r = XZ_OK → 0 <= p <= 64) ∧ (r = XZ_STREAM_END → p = 0 ∧ in_pos b < in_pos b').
Proof.
  revert s b. induction n as [|n IH]; intros s b Hb Hv Hn Hpos; [lia|]. cbn [validate_loop].
  destruct (Z.eqb_spec (in_pos b) (in_size b)).
  { exists XZ_OK, (vpos s), (crc32 s). eexists _, _. split; [done|]. split_and!; try done; first [by left|by destruct s|lia]. }
  destruct (next_in_ok b) as (x & -> & _ & _ & B1 & B2); [done|destruct Hb; lia|]. next.
  destruct (_ =? x); cbn [negb].
  2: { exists XZ_DATA_ERROR, (vpos s), (crc32 s). eexists _, _. split; [done|].
       split_and!; try done; first [tauto|by destruct s]. }
  change (vpos (upd_vli s ?p ?v)) with p. rewrite (u32_id (vpos s + 8)) by (unfold is_u32; lia).
  destruct (Z.ltb_spec (vpos s + 8) 32).
  - edestruct (IH (upd_vli s (vpos s + 8) (vli s))) as (r & p & c & s' & b' & -> & -> & P1 & P2 & P3 & P4 & P5);
      [exact B1|cbn; lia|cbn; zmod_lia|zmod_lia|].
    exists r, p, c. eexists _, _. split; [done|]. split_and!; try done; [by etrans|].
    intros E. destruct (P5 E). cbn in *. split; [done|lia].
  - exists XZ_STREAM_END, 0, 0. eexists _, _. split; [done|]. split_and!; try done; [tauto|].
    intros _. cbn. lia.
Qed.

Lemma check_size_ok c : 0 <= c <= XZ_CHECK_MAX → ∃ cs, aget check_sizes c = Some cs ∧ 0 <= cs <= 64.
Proof.
  intros Hc. unfold XZ_CHECK_MAX in Hc.
  assert (Forall (λ cs, 0 <= cs <= 64) check_sizes) as Hf
    by (repeat (apply Forall_cons_2; [lia|]); apply Forall_nil_2).
  destruct (aget_Some check_sizes c) as (cs & -> & E); [cbn; lia|]. exists cs. split; [done|].
  rewrite Forall_lookup in Hf. eauto.
Qed.

Lemma skip_loop_ok n s b :
  buf_ok b → 0 <= check_type s <= XZ_CHECK_MAX → 0 <= vpos s <= 64 → 64 - vpos s < Z.of_nat n →
  ∃ ok p s' b', skip_loop n s b = Some (ok, s', b') ∧ s' = upd_vli s p (vli s) ∧
    buf_ok b' ∧ buf_le b b' ∧ 0 <= p <= 64 ∧ (ok = true → p = 0).
Proof.
  revert s b. induction n as [|n IH]; intros s b Hb Hc Hv Hn; [lia|]. cbn [skip_loop].
  destruct (check_size_ok _ Hc) as (cs & -> & Hcs). next. destruct (Z.ltb_spec (vpos s) cs) as [Hlt|Hge].
  - destruct (Z.eqb_spec (in_pos b) (in_size b)).
    { exists false, (vpos s). eexists _, _. split; [done|]. split_and!; try done; first [lia|by destruct s]. }
    pose proof Hb as [I1 I2 O1 O2 I3]. destruct (set_in_pos_ok b (in_pos b + 1) Hb) as [B1 B2]; [lia|].
    rewrite (u64_id (in_pos b + 1)), (u32_id (vpos s + 1)) by (unfold is_u64, is_u32; lia).
    edestruct (IH (upd_vli s (vpos s + 1) (vli s))) as (ok & p & s' & b' & -> & -> & P1 & P2 & P3 & P4);
      [exact B1|done|cbn; lia|cbn; lia|].
    exists ok, p. eexists _, _. split; [done|]. split_and!; try done; first [lia|by etrans].
  - exists true, 0. eexists _, _. split; [done|]. split_and!; try done; lia.
Qed.

(** ** Block header *)

(** Header decoding: only fields that the invariant does not constrain
    change, except the position in [temp]. *)
Record hdr_ok (s : xz_dec) : Prop := {
  hd_temp : zlen (t_buf s) = 1024 ∧ Forall is_u8 (t_buf s);
  hd_size : 4 <= t_size s <= 1020;
  hd_pos : 0 <= t_pos s <= t_size s;
  hd_vpos : vpos s = 0;
  hd_check : 0 <= check_type s <= XZ_CHECK_MAX;
  hd_base : l2_base (lzma2_ s)
}.

Lemma header_size_field_ok s present :
  hdr_ok s →
  ∃ ov s', header_size_field s present = Some (ov, s') ∧ sequence s' = sequence s ∧ in_start s' = in_start s ∧
    (is_Some ov → hdr_ok s').
Proof.
  intros [[T1 T2] S P V C B]. unfold header_size_field. destruct present; [|by eexists _, _].
  destruct (dec_vli_ok s (t_buf s) (t_pos s) (t_size s) 0) as (r & p' & v' & ip & -> & [X1 X2 X3 X4]);
    [lia|done|lia|lia|]. next.
  destruct (bool_decide _) eqn:E; [|eexists _, _; split; [done|]; split_and!; [done|done|by intros []]].
  apply bool_decide_eq_true in E. destruct (X3 E) as [-> ?]. eexists _, _. split; [done|].
  split_and!; try done. intros _. split; cbn; try done. lia.
Qed.

Lemma next_temp_ok s :
  hdr_ok s → t_pos s < t_size s →
  ∃ x s', next_temp s = Some (x, s') ∧ is_u8 x ∧ s' = upd_temp s (t_pos s + 1) (t_size s) (t_buf s) ∧ hdr_ok s'.
Proof.
  intros [[T1 T2] S P V C B] Hp. unfold next_temp.
  destruct (aget_u8 (t_buf s) (t_pos s)) as (x & -> & Hx); [done|lia|]. next.
  rewrite u64_id by (unfold is_u64; lia). eexists _, _. split_and!; try done. split; cbn; try done. lia.
Qed.

Lemma padding_loop_ok n s :
  hdr_ok s → t_size s - t_pos s < Z.of_nat n →
  ∃ ok s', padding_loop n s = Some (ok, s') ∧ hdr_ok s' ∧ (∃ p, s' = upd_temp s p (t_size s) (t_buf s)).
Proof.
  revert s. induction n as [|n IH]; intros s Hs Hn; [destruct Hs; lia|]. cbn [padding_loop].
  destruct (Z.ltb_spec (t_pos s) (t_size s)).
  - destruct (next_temp_ok s Hs) as (x & s' & -> & _ & -> & Hs'); [done|]. next.
    destruct (x =? 0); [|by eexists _, _; split_and!; [| |eexists]].
    destruct (IH _ Hs') as (ok & s1 & -> & H1 & p & ->); [cbn; lia|].
    eexists _, _. split_and!; [done|done|by exists p].
  - eexists _, _. split_and!; [done|done|]. exists (t_pos s). by destruct s.
Qed.

Section vmalloc.
Context (vmalloc : Z → option (list Z)) (Hv : vmalloc_ok vmalloc).
#[local] Set Default Proof Using "Type*".

Lemma dec_filter_flags_ok s :
  hdr_ok s →
  ∃ r s', dec_filter_flags vmalloc s = Some (r, s') ∧ sequence s' = sequence s ∧ in_start s' = in_start s ∧
    r ≠ XZ_UNSUPPORTED_CHECK ∧ (r = XZ_OK → hdr_ok s' ∧ t_pos s' = 0 ∧ l2_ok (lzma2_ s')).
Proof.
  intros Hs. unfold dec_filter_flags. pose proof Hs as [T Sz P V C B].
  rewrite (u64_id (t_size s - t_pos s)) by (unfold is_u64; lia).
  destruct (Z.ltb_spec (t_size s - t_pos s) 2); [by eexists _, _|].
  destruct (next_temp_ok s Hs) as (id & s1 & -> & _ & E1 & Hs1); [lia|]. next.
  destruct (id =? 0x21); [|by subst; eexists _, _].
  destruct (next_temp_ok s1 Hs1) as (n & s2 & -> & _ & E2 & Hs2); [subst; cbn; lia|]. next.
  destruct (n =? 1); [|by subst; eexists _, _].
  pose proof (hd_pos _ Hs2) as P2. pose proof (hd_size _ Hs2) as S2.
  rewrite (u64_id (t_size s2 - t_pos s2)) by (unfold is_u64; lia).
  destruct (Z.ltb_spec (t_size s2 - t_pos s2) 1); [by subst; eexists _, _|].
  destruct (next_temp_ok s2 Hs2) as (props & s3 & -> & Hprops & E3 & Hs3); [lia|]. next.
  destruct (xz_dec_lzma2_reset vmalloc (lzma2_ s3) props) as [r l] eqn:El.
  destruct (bool_decide (r = XZ_OK)) eqn:Er; cbn [negb].
  2: { apply bool_decide_eq_false in Er. eexists _, _. split; [done|]. split_and!; [by subst..| |done].
       intros ->. unfold xz_dec_lzma2_reset in El. repeat case_match; simplify_eq. }
  apply bool_decide_eq_true in Er. subst r. unfold is_u8 in Hprops.
  destruct (reset_ok vmalloc (lzma2_ s3) props l Hv) as (Hl & _); [apply Hs3|lia|done|].
  assert (hdr_ok (upd_lzma2 s3 l)) as Hs4
    by (destruct Hs3; split; cbn; try done; by apply l2_ok_base).
  destruct (padding_loop_ok (S (Z.to_nat (t_size (upd_lzma2 s3 l) - t_pos (upd_lzma2 s3 l)))) _ Hs4)
    as (ok & s5 & -> & Hs5 & p & E5); [destruct Hs4; lia|]. next.
  destruct ok; [|by subst; eexists _, _].
  eexists _, _. split; [done|]. split_and!; [by subst..|done|]. intros _. destruct Hs5 as [? ? ? ? ? ?].
  split_and!; [|done|by subst]. split; cbn; try done. lia.
Qed.

Lemma dec_block_header_ok s :
  st_inv s → sequence s = SEQ_BLOCK_HEADER → t_pos s = 0 →
  ∃ r s', dec_block_header vmalloc s = Some (r, s') ∧ in_start s' = in_start s ∧
    r ≠ XZ_UNSUPPORTED_CHECK ∧ (r = XZ_OK → st_inv (upd_seq s' SEQ_BLOCK_UNCOMPRESS)).
Proof.
  intros [[T1 T2] P V C B _] Es Ht. unfold temp_pos_ok, vpos_ok in *. rewrite Es in *. destruct P as [P _].
  specialize (C ltac:(done)). unfold dec_block_header.
  change (t_size (upd_temp s (t_pos s) (u64 (t_size s - 4)) (t_buf s))) with (u64 (t_size s - 4)).
  rewrite (u64_id (t_size s - 4)) by (unfold is_u64; lia).
  set (s1 := upd_temp s (t_pos s) (t_size s - 4) (t_buf s)).
  destruct (temp_crc_ok s1 0 (t_size s - 4)) as (crc & ->); [lia|lia|cbn; lia|]. cbn [mbind option_bind].
  destruct (get_le32_ok (t_buf s1) (t_size s - 4)) as (want & ->); [lia|cbn; lia|]. cbn [mbind option_bind].
  destruct (crc =? want); cbn [negb]; [|by eexists _, _].
  destruct (aget_u8 (t_buf s) 1) as (flags & E & _); [done|lia|]. cbn [t_buf upd_temp s1]. rewrite E. cbn [mbind option_bind].
  destruct (flags .& 0x3F =? 0); cbn [negb]; [|by eexists _, _].
  assert (hdr_ok (upd_temp s1 2 (t_size s - 4) (t_buf s))) as H1 by (split; cbn; done || lia).
  edestruct (header_size_field_ok _ (negb (flags .& 0x40 =? 0)) H1) as (oc & s2 & -> & Q2 & I2 & H2). cbn [mbind option_bind].
  destruct oc as [c|]; [|eexists _, _; split; [done|]; by rewrite I2].
  specialize (H2 ltac:(by eexists)).
  assert (∀ s h, hdr_ok s → hdr_ok (upd_hdr s h)) as Hh by (by intros ? ? []).
  destruct (header_size_field_ok _ (negb (flags .& 0x80 =? 0))
    (Hh _ (mk_block_header c (bh_uncompressed (hdr s2)) (bh_size (hdr s2))) H2)) as (ou & s3 & -> & Q3 & I3 & H3). cbn [mbind option_bind].
  destruct ou as [u|]; [|eexists _, _; split; [done|]; by rewrite I3].
  specialize (H3 ltac:(by eexists)).
  destruct (dec_filter_flags_ok _ (Hh _ (mk_block_header (bh_compressed (hdr s3)) u (bh_size (hdr s3))) H3))
    as (r & s4 & -> & Q4 & I4 & N4 & H4).
  eexists _, _. split; [done|]. split; [rewrite I4; cbn; rewrite I3; cbn; by rewrite I2|].
  split; [done|]. intros Hr. destruct (H4 Hr) as ([? ? ? ? ? ?] & ? & ?). by split.
Qed.

(** ** The steps, from the last to the first *)

Lemma dec_block_ok s b :
  st_inv s → sequence s = SEQ_BLOCK_UNCOMPRESS → buf_ok b →
  ∃ r s' b', dec_block s b = Some (r, s', b') ∧ buf_ok b' ∧ buf_le b b' ∧ r ≠ XZ_UNSUPPORTED_CHECK ∧
    (r = XZ_OK ∨ r = XZ_STREAM_END → st_inv s' ∧ sequence s' = SEQ_BLOCK_UNCOMPRESS ∧ 0 <= in_start s' <= in_pos b').
Proof.
  intros [T P V C B L] Es Hb. unfold dec_block. specialize (C ltac:(by rewrite Es)).
  destruct (xz_dec_lzma2_run_ok (lzma2_ (upd_start s (in_pos b) (out_pos b))) b)
    as (r & l & b' & -> & [R1 R2 R3 R4]); [by apply L|done|]. cbn [mbind option_bind].
  match goal with |- context [upd_block ?x ?y] => set (bl := y); set (s1 := upd_block x bl) end.
  assert (∀ c, r ≠ XZ_DATA_ERROR → st_inv (upd_crc s1 c) ∧ st_inv s1) as Hinv.
  { intros c Hr. destruct R3 as [|R3]; [done|].
    split; (split; try done; cbn; by apply l2_ok_base). }
  assert (0 <= in_start s1 <= in_pos b') as Hst by (cbn; destruct Hb, R2; lia).
  destruct (_ || _).
  { eexists _, _, _. split; [done|]. split_and!; try done. by intros [|]. }
  pose proof Hb as [I1 I2 O1 O2 I3]. pose proof R1 as [I1' I2' O1' O2' I3'].
  pose proof (l_out_pos _ _ R2) as Hop. pose proof (l_out_size _ _ R2) as Hos.
  change (out_start s1) with (out_pos b). rewrite (u64_id (out_pos b' - out_pos b)) by (unfold is_u64; lia).
  rewrite slice_Some by (unfold out_size in *; lia). cbn [mbind option_bind].
  set (s2 := if _ =? XZ_CHECK_CRC32 then _ else _).
  assert ((r ≠ XZ_DATA_ERROR → st_inv s2) ∧ sequence s2 = SEQ_BLOCK_UNCOMPRESS ∧ in_start s2 = in_pos b ∧
    check_type s2 = check_type s) as (Hs2 & E2 & E3 & E4).
  { subst s2. destruct (_ =? _); (split_and!; [intros Hr; first [by apply Hinv|by apply (Hinv 0)]|done..]). }
  clearbody s2. destruct (bool_decide (r = XZ_STREAM_END)) eqn:Er.
  - apply bool_decide_eq_true in Er. destruct (_ || _).
    { eexists _, _, _. split; [done|]. split_and!; try done. by intros [|]. }
    rewrite E4. destruct (check_size_ok _ C) as (cs & -> & _). cbn [mbind option_bind].
    eexists _, _, _. split; [done|]. split_and!; try done; [by subst|].
    intros _. split_and!; [apply st_inv_block, Hs2; by subst|done|cbn; rewrite E3..]; cbn in Hst; lia.
  - eexists _, _, _. split; [done|]. split_and!; try done.
    + intros ->. rewrite !elem_of_cons, elem_of_nil in R4. by destruct R4 as [|[|[|]]].
    + intros [->|H]; [|rewrite bool_decide_eq_false in Er; done].
      split_and!; [by apply Hs2|done|rewrite E3..]; cbn in Hst; lia.
Qed.

Lemma step_footer_ok s b :
  call_ok s b → sequence s = SEQ_STREAM_FOOTER →
  ∃ r s' b', step_footer s b = Some (Return r, s', b') ∧ spost b (Return r) s' b'.
Proof.
  intros [Hi Hb Hst] Es. unfold step_footer. pose proof Hi as [T P V C B L].
  unfold temp_pos_ok in P. rewrite Es in P. destruct P as [P1 P2]. unfold STREAM_HEADER_SIZE in P1.
  destruct (fill_temp_ok s b Hi Hb) as (ok & s' & b' & -> & B1 & B2 & bs & p & -> & F1 & F2 & F3 & F4 & F5);
    [done|lia|]. cbn [mbind option_bind]. destruct ok; cbn [negb].
  - destruct (dec_stream_footer_ok (upd_temp s p (t_size s) bs) F1) as (r & -> & N1 & N2).
    eexists _, _, _. split; [done|]. by apply spost_end.
  - eexists _, _, _. split; [done|]. apply spost_wait; try done.
    split; try done; unfold temp_pos_ok, vpos_ok in *; cbn; rewrite Es in *; done.
Qed.

Lemma step_index_crc32_ok s b :
  call_ok s b → sequence s = SEQ_INDEX_CRC32 →
  ∃ r s' b', step_index_crc32 s b = Some (Return r, s', b') ∧ spost b (Return r) s' b'.
Proof.
  intros [Hi Hb Hst] Es. unfold step_index_crc32, crc32_validate. pose proof Hi as [T P V C B L].
  unfold temp_pos_ok, vpos_ok in *. rewrite Es in *.
  destruct (validate_loop_ok 5 s b) as (r & p & c & s' & b' & -> & -> & B1 & B2 & Hr & Hp & Hend);
    [done|done|zmod_lia|lia|]. cbn [mbind option_bind].
  destruct (bool_decide (r = XZ_STREAM_END)) eqn:Er; cbn [negb].
  - apply bool_decide_eq_true in Er. destruct (Hend Er) as [-> Hlt].
    edestruct (step_footer_ok (upd_seq (upd_temp (upd_crc (upd_vli s 0 (vli s)) c) (t_pos s) STREAM_HEADER_SIZE (t_buf s))
      SEQ_STREAM_FOOTER) b') as (a & s'' & b'' & E & Hpost); [|done|].
    + split; [|done|cbn; destruct B2; lia]. split; try done; [unfold temp_pos_ok, STREAM_HEADER_SIZE; cbn; lia|].
      intros _. by apply C.
    + eexists _, _, _. split; [exact E|]. by eapply spost_after.
  - apply bool_decide_eq_false in Er. eexists _, _, _. split; [done|]. destruct Hr as [->|[->| ->]]; [|done|by apply spost_end].
    apply spost_wait; try done. split; try done; unfold temp_pos_ok, vpos_ok; cbn; rewrite ?Es; try done; by apply Hp.
Qed.

Lemma u64_land3 x : (u64 x .& 3 =? 0) = (x mod 4 =? 0).
Proof.
  change 3 with (2 ^ 2 - 1). rewrite land_ones_mod by lia. change (2 ^ 2) with 4.
  unfold u64. rewrite Z.mod_mod_divide; [done|]. exists (2 ^ 62). lia.
Qed.

Lemma index_padding_loop_ok n s b :
  call_ok s b → sequence s = SEQ_INDEX_PADDING → (0 < n)%nat →
  (let x := ix_size (index s) + (in_pos b - in_start s) in x mod 4 = 0 ∨ 5 - x mod 4 <= Z.of_nat n) →
  ∃ r s' b', index_padding_loop n s b = Some (r, s', b') ∧ buf_ok b' ∧ buf_le b b' ∧
    (r = None ∨ r = Some XZ_OK → call_ok s' b' ∧ sequence s' = SEQ_INDEX_PADDING) ∧
    r ≠ Some XZ_UNSUPPORTED_CHECK.
Proof.
  revert s b. induction n as [|n IH]; intros s b [Hi Hb Hst] Es Hpos Hn; [lia|]. cbn [index_padding_loop].
  rewrite u64_add_r, u64_land3. cbn zeta in Hn. set (x := ix_size _ + _) in *.
  destruct (Z.eqb_spec (x mod 4) 0) as [E0|E0].
  { eexists _, _, _. split; [done|]. by split_and!. }
  destruct (Z.eqb_spec (in_pos b) (in_size b)).
  { destruct (index_update_ok s b Hb Hst) as (ix & c & ->). cbn [mbind option_bind].
    eexists _, _, _. split; [done|]. split_and!; try done. intros _. split; [|done].
    split; [by apply st_inv_crc, st_inv_index|done|done]. }
  destruct (next_in_ok b) as (y & -> & _ & _ & B1 & B2); [done|destruct Hb; lia|]. cbn [mbind option_bind].
  destruct (y =? 0); cbn [negb].
  2: { eexists _, _, _. split; [done|]. split_and!; try done. by intros [|]. }
  destruct (IH s (set_in_pos b (in_pos b + 1))) as (r & s' & b' & -> & P1 & P2 & P3 & P4).
  - split; [done|done|cbn; lia].
  - done.
  - pose proof (Z.mod_pos_bound x 4 ltac:(lia)). lia.
  - cbn. replace (ix_size (index s) + (in_pos b + 1 - in_start s)) with (x + 1) by lia. clearbody x. zmod_lia.
  - eexists _, _, _. split; [done|]. split_and!; try done. by etrans.
Qed.

Lemma step_index_padding_ok s b :
  call_ok s b → sequence s = SEQ_INDEX_PADDING →
  ∃ r s' b', step_index_padding s b = Some (Return r, s', b') ∧ spost b (Return r) s' b'.
Proof.
  intros Hc Es. unfold step_index_padding.
  destruct (index_padding_loop_ok 4 s b Hc Es) as (r & s1 & b1 & -> & B1 & B2 & H1 & H2);
    [lia|cbn zeta; zmod_lia|]. cbn [mbind option_bind]. destruct r as [r|].
  - eexists _, _, _. split; [done|].
    destruct (decide (r = XZ_OK)) as [->|]; [|apply spost_end; congruence].
    apply spost_wait; try done. apply H1. by right.
  - destruct H1 as [[Hi Hb Hst] E1]; [by left|].
    destruct (index_update_ok s1 b1) as (ix & c & ->); [done|done|]. cbn [mbind option_bind].
    destruct (bool_decide _); cbn [negb]; [|eexists _, _, _; split; [done|]; by apply spost_end].
    pose proof (i_temp_pos _ Hi) as P. pose proof (i_vpos _ Hi) as V. unfold temp_pos_ok, vpos_ok in *. rewrite E1 in *.
    destruct (step_index_crc32_ok (upd_seq (upd_crc (upd_index s1 ix) c) SEQ_INDEX_CRC32) b1)
      as (a & s' & b' & E & Hpost); [|done|eexists _, _, _; split; [exact E|]; by eapply spost_after].
    split; [|done|done]. apply st_inv_seq; [by apply st_inv_crc, st_inv_index|done|done|cbn; by rewrite E1|].
    rewrite !elem_of_cons. tauto.
Qed.

Lemma step_index_ok s b :
  call_ok s b → sequence s = SEQ_INDEX →
  ∃ r s' b', step_index s b = Some (Return r, s', b') ∧ spost b (Return r) s' b'.
Proof.
  intros Hc Es. unfold step_index, dec_index. pose proof Hc as [Hi Hb Hst].
  destruct (index_loop_ok (S (Z.to_nat (in_size b - in_pos b))) s b Hc Es)
    as (r & s1 & b1 & -> & B1 & B2 & H1 & H2 & H3); [destruct Hb; lia|]. cbn [mbind option_bind].
  destruct (bool_decide (r = XZ_STREAM_END)) eqn:Er; cbn [negb].
  - apply bool_decide_eq_true in Er. destruct H1 as [[Hi1 Hb1 Hst1] E1]; [by right|].
    pose proof (i_temp_pos _ Hi1) as P. unfold temp_pos_ok in P. rewrite E1 in P.
    destruct (step_index_padding_ok (upd_seq s1 SEQ_INDEX_PADDING) b1)
      as (a & s' & b' & E & Hpost); [|done|eexists _, _, _; split; [exact E|]; by eapply spost_after].
    split; [|done|done]. apply st_inv_seq; [done|done|by apply H2|by rewrite E1|]. rewrite !elem_of_cons. tauto.
  - apply bool_decide_eq_false in Er. eexists _, _, _. split; [done|].
    destruct (decide (r = XZ_OK)) as [->|]; [|by apply spost_end].
    apply spost_wait; try done. apply H1. by left.
Qed.

Lemma step_block_check_ok s b :
  call_ok s b → sequence s = SEQ_BLOCK_CHECK →
  ∃ a s' b', step_block_check s b = Some (a, s', b') ∧ spost b a s' b'.
Proof.
  intros [Hi Hb Hst] Es. unfold step_block_check. pose proof Hi as [T P V C B L].
  unfold temp_pos_ok, vpos_ok in *. rewrite Es in *. specialize (C ltac:(done)).
  assert (∀ p v c, 0 <= p <= 64 → st_inv (upd_crc (upd_vli s p v) c)) as Hwait.
  { intros p v c Hp. split; try done; unfold temp_pos_ok, vpos_ok; cbn; by rewrite ?Es. }
  assert (∀ v c b', buf_ok b' → buf_le b b' → spost b Continue (upd_seq (upd_crc (upd_vli s 0 v) c) SEQ_BLOCK_START) b')
    as Hgo.
  { intros v c b' B1 B2. split; [done|done| |by intros [|]|done]. intros _. split; [|by left].
    split; [|done|cbn; destruct B2; lia].
    apply st_inv_seq; [apply Hwait; lia|done|done|cbn; by rewrite Es|]. rewrite !elem_of_cons. tauto. }
  destruct (_ =? _).
  - unfold crc32_validate.
    destruct (validate_loop_ok 5 s b) as (r & p & c & s' & b' & -> & -> & B1 & B2 & Hr & Hp & Hend);
      [done|done|zmod_lia|lia|]. cbn [mbind option_bind].
    destruct (bool_decide (r = XZ_STREAM_END)) eqn:Er; cbn [negb].
    + apply bool_decide_eq_true in Er. destruct (Hend Er) as [-> _]. eexists _, _, _. split; [done|]. by apply Hgo.
    + apply bool_decide_eq_false in Er. eexists _, _, _. split; [done|].
      destruct Hr as [->|[->| ->]]; [|done|by apply spost_end]. apply spost_wait; try done. auto.
  - unfold check_skip.
    destruct (skip_loop_ok 65 s b) as (ok & p & s' & b' & -> & -> & B1 & B2 & Hp & Hend); [done|done|done|lia|].
    cbn [mbind option_bind]. assert (∀ p, upd_vli s p (vli s) = upd_crc (upd_vli s p (vli s)) (crc32 s)) as E by done.
    rewrite E. destruct ok; cbn [negb]; (eexists _, _, _; split; [done|]).
    + rewrite (Hend eq_refl). by apply Hgo.
    + apply spost_wait; try done. by apply Hwait.
Qed.

Lemma block_padding_loop_ok n s b :
  st_inv s → sequence s = SEQ_BLOCK_PADDING → buf_ok b → (0 < n)%nat →
  (let x := bl_compressed (block s) in x mod 4 = 0 ∨ 5 - x mod 4 <= Z.of_nat n) →
  ∃ r bl b', block_padding_loop n s b = Some (r, upd_block s bl, b') ∧ buf_ok b' ∧ buf_le b b' ∧
    r ≠ Some XZ_UNSUPPORTED_CHECK.
Proof.
  revert s b. induction n as [|n IH]; intros s b Hi Es Hb Hpos Hn; [lia|]. cbn [block_padding_loop].
  assert ((bl_compressed (block s) .& 3 =? 0) = (bl_compressed (block s) mod 4 =? 0)) as ->
    by (change 3 with (2 ^ 2 - 1); by rewrite land_ones_mod by lia).
  cbn zeta in Hn. assert (s = upd_block s (block s)) as Eid by (by destruct s).
  destruct (Z.eqb_spec (bl_compressed (block s) mod 4) 0) as [E0|E0].
  { eexists _, (block s), _. rewrite <- Eid. split; [done|]. by split_and!. }
  destruct (Z.eqb_spec (in_pos b) (in_size b)).
  { eexists _, (block s), _. rewrite <- Eid. split; [done|]. by split_and!. }
  destruct (next_in_ok b) as (y & -> & _ & _ & B1 & B2); [done|destruct Hb; lia|]. cbn [mbind option_bind].
  destruct (y =? 0); cbn [negb].
  2: { eexists _, (block s), _. rewrite <- Eid. split; [done|]. by split_and!. }
  edestruct (IH (upd_block s (mk_block_info (u64 (bl_compressed (block s) + 1)) (bl_uncompressed (block s))
    (bl_count (block s)) (bl_hash (block s)))) (set_in_pos b (in_pos b + 1)))
    as (r & bl & b' & -> & P1 & P2 & P3); [by apply st_inv_block|done|done| | |].
  - pose proof (Z.mod_pos_bound (bl_compressed (block s)) 4 ltac:(lia)). lia.
  - cbn. set (x := bl_compressed (block s)) in *. unfold u64. rewrite Z.mod_mod_divide by (exists (2 ^ 62); lia).
    clearbody x. zmod_lia.
  - eexists _, bl, _. split; [done|]. split_and!; try done. by etrans.
Qed.

Lemma step_block_padding_ok s b :
  call_ok s b → sequence s = SEQ_BLOCK_PADDING →
  ∃ a s' b', step_block_padding s b = Some (a, s', b') ∧ spost b a s' b'.
Proof.
  intros [Hi Hb Hst] Es. unfold step_block_padding.
  destruct (block_padding_loop_ok 4 s b Hi Es Hb) as (r & bl & b1 & -> & B1 & B2 & H2);
    [lia|cbn zeta; zmod_lia|]. cbn [mbind option_bind].
  pose proof (st_inv_block s bl Hi) as Hi1. destruct r as [r|].
  - eexists _, _, _. split; [done|].
    destruct (decide (r = XZ_OK)) as [->|]; [by apply spost_wait|apply spost_end; congruence].
  - pose proof (i_temp_pos _ Hi1) as P. pose proof (i_vpos _ Hi1) as V.
    unfold temp_pos_ok, vpos_ok in *. cbn in P, V. rewrite Es in *.
    destruct (step_block_check_ok (upd_seq (upd_block s bl) SEQ_BLOCK_CHECK) b1)
      as (a & s' & b' & E & Hpost); [|done|eexists _, _, _; split; [exact E|]; by eapply spost_after].
    split; [|done|cbn; destruct B2; lia]. apply st_inv_seq; [done|done|done|cbn; by rewrite Es|].
    rewrite !elem_of_cons. tauto.
Qed.

Lemma step_block_uncompress_ok s b :
  call_ok s b → sequence s = SEQ_BLOCK_UNCOMPRESS →
  ∃ a s' b', step_block_uncompress s b = Some (a, s', b') ∧ spost b a s' b'.
Proof.
  intros [Hi Hb Hst] Es. unfold step_block_uncompress.
  destruct (dec_block_ok s b Hi Es Hb) as (r & s1 & b1 & -> & B1 & B2 & N & H1). cbn [mbind option_bind].
  destruct (bool_decide (r = XZ_STREAM_END)) eqn:Er; cbn [negb].
  - apply bool_decide_eq_true in Er. destruct (H1 (or_intror Er)) as (Hi1 & E1 & Hst1).
    pose proof (i_temp_pos _ Hi1) as P. pose proof (i_vpos _ Hi1) as V. unfold temp_pos_ok, vpos_ok in *. rewrite E1 in *.
    destruct (step_block_padding_ok (upd_seq s1 SEQ_BLOCK_PADDING) b1)
      as (a & s' & b' & E & Hpost); [|done|eexists _, _, _; split; [exact E|]; by eapply spost_after].
    split; [|done|done]. apply st_inv_seq; [done|done|done|by rewrite E1|]. rewrite !elem_of_cons. tauto.
  - apply bool_decide_eq_false in Er. eexists _, _, _. split; [done|].
    destruct (decide (r = XZ_OK)) as [->|]; [|by apply spost_end].
    apply spost_wait; try done. by apply H1; left.
Qed.

(** Waiting inside [fill_temp]. *)
Lemma fill_wait s p bs :
  st_inv s → sequence s = SEQ_STREAM_HEADER ∨ sequence s = SEQ_BLOCK_HEADER →
  zlen bs = 1024 → Forall is_u8 bs → 0 <= p < t_size s → st_inv (upd_temp s p (t_size s) bs).
Proof.
  intros [T P V C B L] Es H1 H2 H3.
  split; try done; unfold temp_pos_ok, vpos_ok in *; cbn; destruct Es as [Es|Es]; rewrite Es in *; try done; split; try done; apply P.
Qed.

Lemma step_block_header_ok s b :
  call_ok s b → sequence s = SEQ_BLOCK_HEADER →
  ∃ a s' b', step_block_header vmalloc s b = Some (a, s', b') ∧ spost b a s' b' ∧
    (a = Continue → in_pos b < in_pos b').
Proof.
  intros [Hi Hb Hst] Es. unfold step_block_header. pose proof (i_temp_pos _ Hi) as P.
  unfold temp_pos_ok in P. rewrite Es in P.
  destruct (fill_temp_ok s b Hi Hb) as (ok & s1 & b1 & -> & B1 & B2 & bs & p & -> & F1 & F2 & F3 & F4 & F5);
    [lia|lia|]. cbn [mbind option_bind].
  pose proof (fill_wait s p bs Hi (or_intror Es) F1 F2 F3) as Hi1.
  destruct ok; cbn [negb].
  2: { eexists _, _, _. split; [done|]. split; [by apply spost_wait|done]. }
  destruct (F4 eq_refl) as [-> Hlt].
  destruct (dec_block_header_ok _ Hi1) as (r & s2 & -> & I2 & N2 & H2); [done|done|]. cbn [mbind option_bind].
  destruct (bool_decide (r = XZ_OK)) eqn:Er; cbn [negb].
  2: { apply bool_decide_eq_false in Er. eexists _, _, _. split; [done|]. split; [by apply spost_end|done]. }
  apply bool_decide_eq_true in Er.
  destruct (step_block_uncompress_ok (upd_seq s2 SEQ_BLOCK_UNCOMPRESS) b1) as (a & s' & b' & E & Hpost).
  - split; [by apply H2|done|]. cbn. rewrite I2. cbn. lia.
  - done.
  - eexists _, _, _. split; [exact E|]. split; [by eapply spost_after|].
    intros _. destruct Hpost as [_ [] _ _ _]. lia.
Qed.

Lemma step_block_start_ok s b :
  call_ok s b → sequence s = SEQ_BLOCK_START →
  ∃ a s' b', step_block_start vmalloc s b = Some (a, s', b') ∧ spost b a s' b' ∧
    (a = Continue → in_pos b < in_pos b').
Proof.
  intros [Hi Hb Hst] Es. unfold step_block_start. pose proof Hi as [T P V C B L].
  unfold temp_pos_ok, vpos_ok in *. rewrite Es in *. specialize (C ltac:(done)).
  destruct (Z.eqb_spec (in_pos b) (in_size b)).
  { eexists _, _, _. split; [done|]. split; [by apply spost_wait|done]. }
  pose proof Hb as [I1 I2 O1 O2 I3].
  destruct (aget_u8 (in_ b) (in_pos b)) as (x & -> & Hx); [done|unfold in_size in *; lia|]. cbn [mbind option_bind].
  unfold is_u8 in Hx. destruct (Z.eqb_spec x 0).
  - rewrite u64_id by (unfold is_u64; lia). destruct (set_in_pos_ok b (in_pos b + 1) Hb) as [B1 B2]; [lia|].
    eexists _, _, _. split; [done|]. split; [|intros _; cbn; lia].
    split; [done|done| |by intros [|]|done]. intros _. split; [|by right].
    split; [|done|cbn; lia]. apply st_inv_seq; [by apply st_inv_start|done|done|cbn; by rewrite Es|].
    rewrite !elem_of_cons. tauto.
  - rewrite u32_id by (unfold is_u32; lia). apply step_block_header_ok; [|done].
    split; [|done|done]. split; try done. unfold temp_pos_ok. cbn. lia.
Qed.

Lemma step_stream_header_ok s b :
  call_ok s b → sequence s = SEQ_STREAM_HEADER →
  ∃ a s' b', step_stream_header vmalloc s b = Some (a, s', b') ∧ spost b a s' b'.
Proof.
  intros [Hi Hb Hst] Es. unfold step_stream_header. pose proof Hi as [T P V C B L].
  unfold temp_pos_ok, vpos_ok in *. rewrite Es in *. unfold STREAM_HEADER_SIZE in P.
  destruct (fill_temp_ok s b Hi Hb) as (ok & s1 & b1 & -> & B1 & B2 & bs & p & -> & F1 & F2 & F3 & F4 & F5);
    [lia|lia|]. cbn [mbind option_bind].
  pose proof (fill_wait s p bs Hi (or_introl Es) F1 F2 F3) as Hi1.
  destruct ok; cbn [negb].
  2: { eexists _, _, _. split; [done|]. by apply spost_wait. }
  destruct (F4 eq_refl) as [-> Hadv].
  destruct (dec_stream_header_ok (upd_seq (upd_temp s 0 (t_size s) bs) SEQ_BLOCK_START)) as (r & s2 & -> & H2);
    [done|done|]. cbn [mbind option_bind].
  assert (r = XZ_OK ∨ r = XZ_UNSUPPORTED_CHECK → st_inv s2 ∧ sequence s2 = SEQ_BLOCK_START ∧ in_start s2 = in_start s) as H3.
  { intros Hr. destruct (H2 Hr) as (c & -> & Hc). by split_and!. }
  destruct (bool_decide (r = XZ_OK)) eqn:Er; cbn [negb].
  - apply bool_decide_eq_true in Er. destruct (H3 (or_introl Er)) as (Hi2 & E2 & St2).
    destruct (step_block_start_ok s2 b1) as (a & s' & b' & E & Hpost & _); [|done|].
    + split; [done|done|]. rewrite St2. destruct B2. lia.
    + eexists _, _, _. split; [exact E|]. by eapply spost_after.
  - eexists _, _, _. split; [done|]. split; try done. intros [[= ->]|[= ->]]; apply H3; tauto.
Qed.

(** ** [dec_main] *)

Lemma main_step_ok s b :
  call_ok s b → ∃ a s' b', main_step vmalloc s b = Some (a, s', b') ∧ spost b a s' b'.
Proof.
  intros Hc. unfold main_step. destruct (sequence s) eqn:Es.
  - by apply step_stream_header_ok.
  - destruct (step_block_start_ok s b Hc Es) as (? & ? & ? & ? & ? & _). eauto.
  - destruct (step_block_header_ok s b Hc Es) as (? & ? & ? & ? & ? & _). eauto.
  - by apply step_block_uncompress_ok.
  - by apply step_block_padding_ok.
  - by apply step_block_check_ok.
  - destruct (step_index_ok s b Hc Es) as (r & ? & ? & ? & ?). eauto.
  - destruct (step_index_padding_ok s b Hc Es) as (r & ? & ? & ? & ?). eauto.
  - destruct (step_index_crc32_ok s b Hc Es) as (r & ? & ? & ? & ?). eauto.
  - destruct (step_footer_ok s b Hc Es) as (r & ? & ? & ? & ?). eauto.
Qed.

(** What a call of [dec_main] guarantees. *)
Record call_post (b : xz_buf) (r : xz_ret) (s' : xz_dec) (b' : xz_buf) : Prop := {
  cp_buf : buf_ok b';
  cp_le : buf_le b b';
  cp_inv : r = XZ_OK ∨ r = XZ_UNSUPPORTED_CHECK → st_inv s';
  cp_unsup : r = XZ_UNSUPPORTED_CHECK → in_pos b < in_pos b'
}.

Lemma spost_call b r s' b' : spost b (Return r) s' b' → call_post b r s' b'.
Proof.
  intros [H1 H2 _ H4 H5]. split; try done; [intros [->| ->]; apply H4; tauto|].
  intros ->. by apply H5.
Qed.

(** From the start of a block every round that continues takes input. *)
Lemma main_loop_start n s b :
  call_ok s b → sequence s = SEQ_BLOCK_START ∨ sequence s = SEQ_INDEX → in_size b - in_pos b < Z.of_nat n →
  ∃ r s' b', main_loop vmalloc n s b = Some (r, s', b') ∧ call_post b r s' b'.
Proof.
  revert s b. induction n as [|n IH]; intros s b Hc Es Hn; [destruct Hc as [_ [] _]; lia|]. cbn [main_loop].
  unfold main_step. destruct Es as [Es|Es]; rewrite Es.
  - destruct (step_block_start_ok s b Hc Es) as (a & s1 & b1 & -> & Hpost & Hadv). cbn [mbind option_bind].
    destruct a as [r|]; [eexists _, _, _; split; [done|]; by apply spost_call|].
    destruct (sp_cont _ _ _ _ Hpost eq_refl) as [Hc1 Es1]. pose proof (sp_le _ _ _ _ Hpost) as Hle.
    destruct (IH s1 b1 Hc1 Es1) as (r & s' & b' & -> & [P1 P2 P3 P4]).
    + rewrite (in_size_le _ _ Hle). specialize (Hadv eq_refl). lia.
    + eexists _, _, _. split; [done|]. split; try done; [by etrans|].
      intros E. specialize (P4 E). destruct Hle. lia.
  - destruct (step_index_ok s b Hc Es) as (r & s1 & b1 & -> & Hpost). cbn [mbind option_bind].
    eexists _, _, _. split; [done|]. by apply spost_call.
Qed.

Lemma dec_main_ok s b :
  st_inv s → buf_ok b → ∃ r s' b', dec_main vmalloc s b = Some (r, s', b') ∧ call_post b r s' b'.
Proof.
  intros Hi Hb. unfold dec_main. pose proof Hb as [I1 _ _ _ _].
  assert (call_ok (upd_start s (in_pos b) (out_start s)) b) as Hc
    by (split; [by apply st_inv_start|done|cbn; lia]).
  cbn [main_loop]. destruct (main_step_ok _ _ Hc) as (a & s1 & b1 & -> & Hpost). cbn [mbind option_bind].
  destruct a as [r|]; [eexists _, _, _; split; [done|]; by apply spost_call|].
  destruct (sp_cont _ _ _ _ Hpost eq_refl) as [Hc1 Es1]. pose proof (sp_le _ _ _ _ Hpost) as Hle.
  destruct (main_loop_start (S (Z.to_nat (in_size b - in_pos b))) s1 b1 Hc1 Es1) as (r & s' & b' & E & [P1 P2 P3 P4]).
  - rewrite (in_size_le _ _ Hle). destruct Hle. lia.
  - eexists _, _, _. split; [exact E|]. split; try done; [by etrans|].
    intros Er. specialize (P4 Er). destruct Hle. lia.
Qed.

(** ** The public interface *)

Lemma xz_dec_run_ok s b :
  st_inv s → buf_ok b →
  ∃ r s' b', xz_dec_run vmalloc s b = Some (r, s', b') ∧ buf_ok b' ∧ buf_le b b' ∧
    (r = XZ_OK ∨ r = XZ_UNSUPPORTED_CHECK → st_inv s') ∧
    (r = XZ_UNSUPPORTED_CHECK → in_pos b < in_pos b') ∧
    (r = XZ_OK → in_pos b' = in_pos b → out_pos b' = out_pos b → allow_buf_error s' = true).
Proof.
  intros Hi Hb. unfold xz_dec_run.
  destruct (dec_main_ok s b Hi Hb) as (r & s1 & b1 & -> & [P1 P2 P3 P4]). cbn [mbind option_bind].
  assert (∀ x, st_inv s1 → st_inv (upd_abe s1 x)) as Habe by (by intros x []).
  destruct (bool_decide (r = XZ_OK) && _ && _) eqn:Ep.
  - rewrite !andb_true_iff, bool_decide_eq_true, !Z.eqb_eq in Ep. destruct Ep as [[-> E1] E2].
    eexists _, _, _. split; [done|]. split_and!; try done; [intros _; apply Habe, P3; by left|].
    destruct (allow_buf_error s1); done.
  - eexists _, _, _. split; [done|]. split_and!; try done; [intros Hr; by apply Habe, P3|].
    intros -> E1 E2. rewrite bool_decide_true, E1, E2, !Z.eqb_refl in Ep by done. done.
Qed.

Lemma decompress_loop_ok fuel s b :
  st_inv s → buf_ok b → in_size b - in_pos b < Z.of_nat fuel →
  ∃ n o, decompress_loop vmalloc fuel false s b 0 = Some (n, o) ∧ length o = length (out b) ∧
    0 <= n <= out_size b.
Proof.
  revert s b. induction fuel as [|fuel IH]; intros s b Hi Hb Hf; [destruct Hb; lia|].
  cbn [decompress_loop].
  destruct (xz_dec_run_ok s b Hi Hb) as (r & s' & b' & -> & Hb' & Hle & Hinv & Hadv & _). cbn [mbind option_bind].
  pose proof (l_out_size _ _ Hle) as Ho. pose proof Hb' as [I1 I2 O1 O2 I3].
  assert (length (out b') = length (out b)) as El by (unfold out_size in Ho; lia).
  assert (u64 (0 + out_pos b') = out_pos b') as E0 by (rewrite Z.add_0_l; apply u64_id; unfold is_u64; lia).
  rewrite E0. destruct r; try (by eexists _, _; split_and!; [done|done|lia|lia]).
  destruct (IH s' b') as (n & o & -> & L & Hn).
  - apply Hinv. tauto.
  - done.
  - rewrite (in_size_le _ _ Hle). specialize (Hadv eq_refl). lia.
  - eexists _, _. split_and!; [done|congruence|lia|lia].
Qed.

End vmalloc.

(** ** Reachable decoders *)

Lemma st_inv_init kmalloc dict_max s : xz_dec_init kmalloc dict_max = Some s → st_inv s.
Proof.
  unfold xz_dec_init. destruct (kmalloc ObjDec), (kmalloc ObjLzma2); cbn [negb]; try done. intros [= <-].
  assert (l2_base (xz_dec_lzma2_create dict_max)) as Hbase by apply create_base.
  split; try done. cbn [new_dec xz_dec_reset t_buf]. rewrite length_replicate.
  split; [done|by apply Forall_replicate].
Qed.

Lemma st_inv_reset s : st_inv s → st_inv (xz_dec_reset s).
Proof. intros []. by split. Qed.

Inductive xz_reach (vmalloc : Z → option (list Z)) : xz_dec → Prop :=
| xz_reach_init kmalloc dict_max s : xz_dec_init kmalloc dict_max = Some s → xz_reach vmalloc s
| xz_reach_reset s : xz_reach vmalloc s → xz_reach vmalloc (xz_dec_reset s)
| xz_reach_run s b r s' b' :
    xz_reach vmalloc s → buf_ok b → xz_dec_run vmalloc s b = Some (r, s', b') →
    r = XZ_OK ∨ r = XZ_UNSUPPORTED_CHECK → xz_reach vmalloc s'.

Lemma xz_reach_inv vmalloc s : vmalloc_ok vmalloc → xz_reach vmalloc s → st_inv s.
Proof.
  intros Hv. induction 1 as [km dm s E|s _ IH|s b r s' b' _ IH Hb E Hr].
  - by eapply st_inv_init.
  - by apply st_inv_reset.
  - destruct (xz_dec_run_ok vmalloc Hv s b IH Hb) as (r1 & s1 & b1 & E1 & _ & _ & H & _).
    rewrite E in E1. simplify_eq. auto.
Qed.

(** C17: the .xz decoder is memory safe and terminates on every input. In
    every state reached from creation by resets and runs that returned [XZ_OK]
    or [XZ_UNSUPPORTED_CHECK], and for any buffers, [xz_dec_run] returns: no
    access is out of bounds and every loop ends, whatever the headers, sizes
    and compressed data say. Input is only read forward, output only appended,
    and a run that returns [XZ_OK] without progress arms the [XZ_BUF_ERROR] of
    the next one. *)
Theorem xz_dec_run_safe vmalloc s b :
  vmalloc_ok vmalloc → xz_reach vmalloc s → buf_ok b →
  ∃ r s' b', xz_dec_run vmalloc s b = Some (r, s', b') ∧ buf_ok b' ∧ buf_le b b' ∧
    (r = XZ_OK ∨ r = XZ_UNSUPPORTED_CHECK → xz_reach vmalloc s') ∧
    (r = XZ_OK → in_pos b' = in_pos b → out_pos b' = out_pos b → allow_buf_error s' = true).
Proof.
  intros Hv Hs Hb.
  destruct (xz_dec_run_ok vmalloc Hv s b (xz_reach_inv _ _ Hv Hs) Hb)
    as (r & s' & b' & E & B1 & B2 & H1 & _ & H3).
  exists r, s', b'. split_and!; try done. intros Hr. by apply (xz_reach_run vmalloc s b r s' b').
Qed.

Lemma xz_dec_run_safe_witness :
  ∃ r s' b', xz_dec_run demo_vmalloc (xz_dec_reset (new_dec (2 ^ 26))) (mk_xz_buf [0xFD; 0x37; 0x7A] 0 [0] 0)
               = Some (r, s', b') ∧ buf_ok b'.
Proof.
  destruct (xz_dec_run_safe demo_vmalloc (xz_dec_reset (new_dec (2 ^ 26))) (mk_xz_buf [0xFD; 0x37; 0x7A] 0 [0] 0))
    as (r & s' & b' & E & Hb & _).
  - exact demo_vmalloc_ok.
  - by apply (xz_reach_init _ (λ _, true) (2 ^ 26)).
  - split; try done. repeat (apply Forall_cons_2; [done|]). apply Forall_nil_2.
  - exists r, s', b'. split; [exact E|exact Hb].
Defined.

(** C18: [xz_decompress] into a caller's buffer is total. For every input and
    every output buffer, and whatever allocations are refused, it returns,
    after at most one run per input byte and one more; it never writes outside
    the buffer, and the size it reports fits the buffer. *)
Theorem xz_decompress_total vmalloc kmalloc input output :
  vmalloc_ok vmalloc → Forall is_u8 input → zlen input < 2 ^ 62 → zlen output < 2 ^ 62 →
  ∃ n o, xz_decompress vmalloc kmalloc (S (length input)) input (Some output) = Some (n, o) ∧
    length o = length output ∧ 0 <= n <= zlen output.
Proof.
  intros Hv Hin Hi Ho. unfold xz_decompress. destruct (xz_dec_init kmalloc (1 << 26)) as [s|] eqn:E.
  2: { exists 0, output. split; [done|]. split; [done|lia]. }
  apply (decompress_loop_ok vmalloc Hv _ s (mk_xz_buf input 0 output 0)).
  - by eapply st_inv_init.
  - split; cbn; unfold in_size, out_size; cbn; done || lia.
  - unfold in_size. cbn. lia.
Qed.

(** A stream made by [xz --check=crc32]: one block with a CRC32 check. *)
Definition demo_xz : list Z :=
  [253; 55; 122; 88; 90; 0; 0; 1; 105; 34; 222; 54; 2; 0; 33; 1; 0; 0; 0; 0; 55; 39; 151; 214;
     224; 0; 101; 0; 29; 93; 0; 52; 25; 73; 238; 141; 233; 80; 150; 8; 6; 246; 232; 144; 238; 98; 45;
     123; 70; 49; 217; 196; 238; 155; 63; 41; 112; 24; 206; 0; 0; 0; 0; 0; 4; 229; 255; 133; 0; 1;
     53; 102; 240; 179; 102; 38; 144; 66; 153; 13; 1; 0; 0; 0; 0; 1; 89; 90].

(** ["hello hello hello world, hello world! abcabcabcabc "] twice. *)
Definition demo_text : list Z :=
  [104; 101; 108; 108; 111; 32; 104; 101; 108; 108; 111; 32; 104; 101; 108; 108; 111; 32; 119;
     111; 114; 108; 100; 44; 32; 104; 101; 108; 108; 111; 32; 119; 111; 114; 108; 100; 33; 32; 97;
     98; 99; 97; 98; 99; 97; 98; 99; 97; 98; 99; 32; 104; 101; 108; 108; 111; 32; 104; 101; 108; 108;
     111; 32; 104; 101; 108; 108; 111; 32; 119; 111; 114; 108; 100; 44; 32; 104; 101; 108; 108; 111;
     32; 119; 111; 114; 108; 100; 33; 32; 97; 98; 99; 97; 98; 99; 97; 98; 99; 97; 98; 99; 32].

Lemma xz_decompress_total_witness :
  ∃ o, xz_decompress demo_vmalloc (λ _, true) (S (length demo_xz)) demo_xz (Some (replicate 110 0)) = Some (102, o) ∧
    o = demo_text ++ replicate 8 0 ∧ length o = 110%nat.
Proof.
  destruct (xz_decompress_total demo_vmalloc (λ _, true) demo_xz (replicate 110 0)) as (n & o & E & Hl & _).
  - exact demo_vmalloc_ok.
  - repeat (apply Forall_cons_2; [done|]). apply Forall_nil_2.
  - done.
  - done.
  - assert (xz_decompress demo_vmalloc (λ _, true) (S (length demo_xz)) demo_xz (Some (replicate 110 0))
            = Some (102, demo_text ++ replicate 8 0)) as E' by (vm_compute; reflexivity).
    rewrite E' in E. injection E as <- <-. eexists. split; [exact E'|]. split; [reflexivity|exact Hl].
Defined.

End XzStreamSafe.
