(* ===== verification/ElfResolver.v ===== *)
(** * Symbol resolver ([elf_symbol_resolver.cpp])

    Finds [libart.so], reads symbol tables out of its ELF file (or out of the
    xz-compressed mini-debuginfo inside of it) and resolves names against
    them. A file is the list of its bytes; pointers into it are offsets. [None]
    is undefined behaviour: an access outside the file, a division by zero or
    a signed overflow. Strings are byte lists without their terminator. *)

From Stdlib Require Import (notations) String.
From S2P Require Import Prelude Bytes MemoryAllocator XzStream.

Module ElfResolver.
Import MemoryAllocator.

(** ** ELF structures of [elf.h] (64 bit) *)

Definition rd (n : Z) (f : list Z) (off : Z) : option Z := b ← slice f off n; Some (le_val b).

Definition e_phoff (f : list Z) : option Z := rd 8 f 32.
Definition e_shoff (f : list Z) : option Z := rd 8 f 40.
Definition e_phentsize (f : list Z) : option Z := rd 2 f 54.
Definition e_phnum (f : list Z) : option Z := rd 2 f 56.
Definition e_shentsize (f : list Z) : option Z := rd 2 f 58.
Definition e_shnum (f : list Z) : option Z := rd 2 f 60.
Definition e_shstrndx (f : list Z) : option Z := rd 2 f 62.
Definition sizeof_Ehdr : Z := 64.

Definition p_type (f : list Z) (p : Z) : option Z := rd 4 f p.
Definition p_offset (f : list Z) (p : Z) : option Z := rd 8 f (p + 8).
Definition p_vaddr (f : list Z) (p : Z) : option Z := rd 8 f (p + 16).
Definition p_memsz (f : list Z) (p : Z) : option Z := rd 8 f (p + 40).

Definition sh_name (f : list Z) (p : Z) : option Z := rd 4 f p.
Definition sh_type (f : list Z) (p : Z) : option Z := rd 4 f (p + 4).
Definition sh_offset (f : list Z) (p : Z) : option Z := rd 8 f (p + 24).
Definition sh_size (f : list Z) (p : Z) : option Z := rd 8 f (p + 32).
Definition sh_link (f : list Z) (p : Z) : option Z := rd 4 f (p + 40).
Definition sh_entsize (f : list Z) (p : Z) : option Z := rd 8 f (p + 56).
Definition sizeof_Shdr : Z := 64.

Definition st_name (f : list Z) (p : Z) : option Z := rd 4 f p.
Definition st_info (f : list Z) (p : Z) : option Z := rd 1 f (p + 4).
Definition st_shndx (f : list Z) (p : Z) : option Z := rd 2 f (p + 6).
Definition st_value (f : list Z) (p : Z) : option Z := rd 8 f (p + 8).
Definition sizeof_Sym : Z := 24.

Definition PT_LOAD : Z := 1.
Definition PT_DYNAMIC : Z := 2.
Definition SHT_SYMTAB : Z := 2.
Definition SHT_DYNSYM : Z := 11.
Definition ELFMAG : list Z := [0x7f; 69; 76; 70].

(** A C string, read up to its terminator. *)
Fixpoint c_string (l : list Z) : option (list Z) :=
  match l with
  | [] => None
  | c :: l => if c =? 0 then Some [] else s ← c_string l; Some (c :: s)
  end.

Definition string_at (f : list Z) (off : Z) : option (list Z) :=
  if 0 <=? off then c_string (drop (Z.to_nat off) f) else None.

(** [strcmp(l, s) == 0] for a string literal [s]. *)
Fixpoint strcmp_eq (l s : list Z) : option bool :=
  match l, s with
  | [], _ => None
  | c :: _, [] => Some (c =? 0)
  | c :: l, d :: s => if c =? d then strcmp_eq l s else Some false
  end.

(** ** The symbol table *)

Record SymbolEntry : Set := mk_sym { name : list Z; addr : Z }.

(** One iteration of the loops over symbols: the entry pushed, if any. *)
Definition read_symbol (f : list Z) (strtab p load_bias : Z) : option (option SymbolEntry) :=
  v ← st_value f p;
  if v =? 0 then Some None
  else
    ndx ← st_shndx f p;
    if ndx =? 0 then Some None
    else
      info ← st_info f p;
      let type := info .& 0xf in
      if negb (type =? 2) && negb (type =? 1) && negb (type =? 0) then Some None
      else
        n ← st_name f p;
        c ← aget f (strtab + n);
        if c =? 0 then Some None
        else s ← string_at f (strtab + n); Some (Some (mk_sym s (u64 (load_bias + v)))).

(** [n] symbols from offset [p] on are appended to [g]. *)
Fixpoint collect (n : nat) (f : list Z) (strtab p load_bias : Z) (g : list SymbolEntry)
    : option (list SymbolEntry) :=
  match n with
  | O => Some g
  | S n =>
      e ← read_symbol f strtab p load_bias;
      collect n f strtab (p + sizeof_Sym) load_bias (g ++ match e with Some e => [e] | None => [] end)
  end.

Definition is_empty (g : list SymbolEntry) : bool := match g with [] => true | _ => false end.

(** Compute load_bias from PT_LOAD segments. *)
Fixpoint load_bias_loop (n : nat) (f : list Z) (p entsize base : Z) : option Z :=
  match n with
  | O => Some base
  | S n =>
      t ← p_type f p;
      if t =? PT_LOAD then v ← p_vaddr f p; Some (u64 (base - v))
      else load_bias_loop n f (p + entsize) entsize base
  end.

Definition ComputeLoadBias (f : list Z) (base : Z) : option Z :=
  n ← e_phnum f; off ← e_phoff f; sz ← e_phentsize f;
  load_bias_loop (Z.to_nat n) f off sz base.

(** The first section of type [ty] among [n] from offset [p] on. *)
Fixpoint find_section (n : nat) (f : list Z) (p ty : Z) : option (option Z) :=
  match n with
  | O => Some None
  | S n =>
      t ← sh_type f p;
      if t =? ty then Some (Some p) else find_section n f (p + sizeof_Shdr) ty
  end.

(** Results: the return value and [g_symbols]. *)
Definition parse_section (f : list Z) (sym_sh str_sh load_bias : Z) (g : list SymbolEntry)
    : option (bool * list SymbolEntry) :=
  strtab ← sh_offset f str_sh;
  syms ← sh_offset f sym_sh;
  sz ← sh_size f sym_sh;
  ent ← sh_entsize f sym_sh;
  if ent =? 0 then None
  else g ← collect (Z.to_nat (sz / ent)) f strtab syms load_bias g; Some (negb (is_empty g), g).

Fixpoint sections_loop (types : list Z) (f : list Z) (shoff shnum load_bias : Z)
    (require_symtab : bool) (g : list SymbolEntry) : option (bool * list SymbolEntry) :=
  match types with
  | [] => Some (false, g)
  | ty :: types =>
      if require_symtab && negb (ty =? SHT_SYMTAB)
      then sections_loop types f shoff shnum load_bias require_symtab g
      else
        s ← find_section (Z.to_nat shnum) f shoff ty;
        match s with
        | None => sections_loop types f shoff shnum load_bias require_symtab g
        | Some sym_sh =>
            link ← sh_link f sym_sh;
            parse_section f sym_sh (shoff + link * sizeof_Shdr) load_bias g
        end
  end.

Definition ParseSymtabFromSections (f : list Z) (load_bias : Z) (require_symtab : bool)
    (g : list SymbolEntry) : option (bool * list SymbolEntry) :=
  shoff ← e_shoff f;
  shnum ← e_shnum f;
  if (shoff =? 0) || (shnum =? 0) then Some (false, g)
  else sections_loop [SHT_SYMTAB; SHT_DYNSYM] f shoff shnum load_bias require_symtab g.

(** ** The dynamic segment *)

(** The first program header of type [ty]. *)
Fixpoint find_phdr (n : nat) (f : list Z) (p entsize ty : Z) : option (option Z) :=
  match n with
  | O => Some None
  | S n =>
      t ← p_type f p;
      if t =? ty then Some (Some p) else find_phdr n f (p + entsize) entsize ty
  end.

Fixpoint vaddr_to_foff (n : nat) (f : list Z) (p entsize vaddr : Z) : option Z :=
  match n with
  | O => Some (-1)
  | S n =>
      t ← p_type f p;
      hit ←
        (if t =? PT_LOAD then
           va ← p_vaddr f p;
           if va <=? vaddr then msz ← p_memsz f p; Some (vaddr <? u64 (va + msz)) else Some false
         else Some false);
      if (hit : bool) then
        off ← p_offset f p; va ← p_vaddr f p; Some (s64 (u64 (off + u64 (vaddr - va))))
      else vaddr_to_foff n f (p + entsize) entsize vaddr
  end.

Record dyn_info : Set := mk_dyn { dt_symtab : Z; dt_strtab : Z; dt_hash : Z; dt_gnu_hash : Z }.

Fixpoint dyn_loop (fuel : nat) (f : list Z) (p : Z) (d : dyn_info) : option dyn_info :=
  match fuel with
  | O => None
  | S fuel =>
      tag ← rd 8 f p;
      if tag =? 0 then Some d
      else
        v ← (if (tag =? 4) || (tag =? 5) || (tag =? 6) || (tag =? 0x6ffffef5)
             then rd 8 f (p + 8) else Some 0);
        let d :=
          if tag =? 6 then mk_dyn v (dt_strtab d) (dt_hash d) (dt_gnu_hash d)
          else if tag =? 5 then mk_dyn (dt_symtab d) v (dt_hash d) (dt_gnu_hash d)
          else if tag =? 4 then mk_dyn (dt_symtab d) (dt_strtab d) v (dt_gnu_hash d)
          else if tag =? 0x6ffffef5 then mk_dyn (dt_symtab d) (dt_strtab d) (dt_hash d) v
          else d in
        dyn_loop fuel f (p + 16) d
  end.

(** The largest entry of [n] buckets. *)
Fixpoint max_bucket (n : nat) (f : list Z) (p max_sym : Z) : option Z :=
  match n with
  | O => Some max_sym
  | S n =>
      b ← rd 4 f p;
      max_bucket n f (p + 4) (if max_sym <? b then b else max_sym)
  end.

(** Walk the chain from index [i] to its end marker. *)
Fixpoint chain_end (fuel : nat) (f : list Z) (chains i : Z) : option Z :=
  match fuel with
  | O => None
  | S fuel =>
      c ← rd 4 f (chains + 4 * i);
      if c .& 1 =? 0 then chain_end fuel f chains (u32 (i + 1)) else Some i
  end.

(** The number of symbols according to [DT_GNU_HASH] at [p]; [Some None] is
    the early [return false]. *)
Definition gnu_hash_count (f : list Z) (p : Z) : option (option Z) :=
  nbuckets ← rd 4 f p;
  sym_offset ← rd 4 f (p + 4);
  bloom_size ← rd 4 f (p + 8);
  let buckets := p + 4 * (4 + bloom_size) in
  let chains := buckets + 4 * nbuckets in
  max_sym ← max_bucket (Z.to_nat nbuckets) f buckets 0;
  if max_sym =? 0 then Some None
  else
    i ← chain_end (length f) f chains (u32 (max_sym - sym_offset));
    Some (Some (u32 (sym_offset + i + 1))).

Definition ParseDynsymFromDynamic (f : list Z) (load_bias : Z) (g : list SymbolEntry)
    : option (bool * list SymbolEntry) :=
  n ← e_phnum f; phoff ← e_phoff f; ent ← e_phentsize f;
  let to_foff := vaddr_to_foff (Z.to_nat n) f phoff ent in
  dyn ← find_phdr (Z.to_nat n) f phoff ent PT_DYNAMIC;
  match dyn with
  | None => Some (false, g)
  | Some dyn =>
      p ← p_offset f dyn;
      d ← dyn_loop (length f) f p (mk_dyn 0 0 0 0);
      if (dt_symtab d =? 0) || (dt_strtab d =? 0) then Some (false, g)
      else
        symtab ← to_foff (dt_symtab d);
        strtab ← to_foff (dt_strtab d);
        if (symtab <? 0) || (strtab <? 0) then Some (false, g)
        else
          count ←
            (if negb (dt_hash d =? 0) then
               h ← to_foff (dt_hash d);
               if 0 <=? h then c ← rd 4 f (h + 4); Some (Some c) else Some (Some 0)
             else if negb (dt_gnu_hash d =? 0) then
               h ← to_foff (dt_gnu_hash d);
               if 0 <=? h then gnu_hash_count f h else Some (Some 0)
             else Some (Some 0));
          match count with
          | None => Some (false, g)
          | Some count =>
              if count =? 0 then Some (false, g)
              else
                g ← collect (Z.to_nat count) f strtab symtab load_bias g;
                Some (negb (is_empty g), g)
          end
  end.

(** ** Mini-debuginfo *)

(** The loop over sections; [break] leads to the final [return false]. *)
Fixpoint memory_loop (n : nat) (f : list Z) (p shoff shnum elf_size load_bias : Z) (g : list SymbolEntry)
    : option (bool * list SymbolEntry) :=
  match n with
  | O => Some (false, g)
  | S n =>
      t ← sh_type f p;
      if negb (t =? SHT_SYMTAB)
      then memory_loop n f (p + sizeof_Shdr) shoff shnum elf_size load_bias g
      else
        link ← sh_link f p;
        if shnum <=? link then Some (false, g)
        else
          let str_sh := shoff + link * sizeof_Shdr in
          o ← sh_offset f p; z ← sh_size f p;
          if elf_size <? u64 (o + z) then Some (false, g)
          else
            o' ← sh_offset f str_sh; z' ← sh_size f str_sh;
            if elf_size <? u64 (o' + z') then Some (false, g)
            else parse_section f p str_sh load_bias g
  end.

Definition ParseSymtabFromMemory (f : list Z) (elf_size load_bias : Z) (g : list SymbolEntry)
    : option (bool * list SymbolEntry) :=
  shoff ← e_shoff f;
  shnum ← e_shnum f;
  if (shoff =? 0) || (shnum =? 0) then Some (false, g)
  else
    ent ← e_shentsize f;
    if elf_size <? u64 (shoff + shnum * ent) then Some (false, g)
    else memory_loop (Z.to_nat shnum) f shoff shoff shnum elf_size load_bias g.

Definition gnu_debugdata : list Z := lit ".gnu_debugdata".

Fixpoint find_named (n : nat) (f : list Z) (p shstrtab : Z) : option (option Z) :=
  match n with
  | O => Some None
  | S n =>
      nm ← sh_name f p;
      eq ← (if 0 <=? shstrtab + nm then strcmp_eq (drop (Z.to_nat (shstrtab + nm)) f) gnu_debugdata
            else None);
      if (eq : bool) then Some (Some p) else find_named n f (p + sizeof_Shdr) shstrtab
  end.

Section environment.
(** [kmalloc] of the decoder in the two calls of [xz_decompress], its [vmalloc],
    [malloc], the bound on decoder runs, and [dlsym]. *)
Context (kmalloc1 kmalloc2 : XzStream.kobj → bool).
Context (vmalloc : Z → option (list Z)) (malloc : Z → option (list Z)) (fuel : nat).
Context (dlsym : list Z → Z).

(** The part behind the search for the section. *)
Definition parse_debugdata (f : list Z) (off size load_bias : Z) (g : list SymbolEntry)
    : option (bool * list SymbolEntry) :=
  xz_data ← slice f off size;
  '(dec_size, _) ← XzStream.xz_decompress vmalloc kmalloc1 fuel xz_data None;
  if dec_size =? 0 then Some (false, g)
  else
    match malloc dec_size with
    | None => Some (false, g)
    | Some dec_buf =>
        '(actual, dec_buf) ← XzStream.xz_decompress vmalloc kmalloc2 fuel xz_data (Some dec_buf);
        if actual =? 0 then Some (false, g)
        else if (actual <? sizeof_Ehdr) then Some (false, g)
        else
          m ← slice dec_buf 0 4;
          if bool_decide (m = ELFMAG) then ParseSymtabFromMemory dec_buf actual load_bias g
          else Some (false, g)
    end.

Definition ParseGnuDebugdata (f : list Z) (load_bias : Z) (g : list SymbolEntry)
    : option (bool * list SymbolEntry) :=
  let file_size := zlen f in
  shoff ← e_shoff f;
  shnum ← e_shnum f;
  if (shoff =? 0) || (shnum =? 0) then Some (false, g)
  else
    ent ← e_shentsize f;
    if file_size <? u64 (shoff + shnum * ent) then Some (false, g)
    else
      strndx ← e_shstrndx f;
      if shnum <=? strndx then Some (false, g)
      else
        let strsh := shoff + strndx * sizeof_Shdr in
        o ← sh_offset f strsh; z ← sh_size f strsh;
        if file_size <? u64 (o + z) then Some (false, g)
        else
          d ← find_named (Z.to_nat shnum) f shoff o;
          match d with
          | None => Some (false, g)
          | Some d =>
              o ← sh_offset f d; z ← sh_size f d;
              if file_size <? u64 (o + z) then Some (false, g)
              else parse_debugdata f o z load_bias g
          end.

(** ** Loading *)

(** [open_map path] is the mapped file, if it can be opened and mapped. *)
Definition TryLoadFromFile (open_map : list Z → option (list Z)) (path : list Z) (load_bias : Z)
    (g : list SymbolEntry) : option (bool * list SymbolEntry) :=
  match open_map path with
  | None => Some (false, g)
  | Some f =>
      m ← slice f 0 4;
      if negb (bool_decide (m = ELFMAG)) then Some (false, g)
      else
        shoff ← e_shoff f; shnum ← e_shnum f;
        let sections := (0 <? shoff) && (0 <? shnum) in
        '(ok, g) ← (if sections then ParseSymtabFromSections f load_bias true g else Some (false, g));
        '(ok, g) ← (if negb ok then ParseGnuDebugdata f load_bias g else Some (ok, g));
        '(ok, g) ← (if negb ok && sections then ParseSymtabFromSections f load_bias false g else Some (ok, g));
        if negb ok then ParseDynsymFromDynamic f load_bias g else Some (ok, g)
  end.

(** ** Finding the library *)

Fixpoint is_prefix (p l : list Z) : bool :=
  match p, l with
  | [], _ => true
  | c :: p, d :: l => (c =? d) && is_prefix p l
  | _ :: _, [] => false
  end.

(** [strstr], [find]: does [p] occur in [l]? *)
Fixpoint contains (p l : list Z) : bool :=
  is_prefix p l || match l with [] => false | _ :: l => contains p l end.

(** [%*u] *)
Definition is_digit (c : Z) : bool := (48 <=? c) && (c <=? 57).
Fixpoint skip_digits (l : list Z) : list Z :=
  match l with
  | c :: l' => if is_digit c then skip_digits l' else l
  | [] => []
  end.
Definition scan_u (l : list Z) : option (list Z) :=
  let l := skip_ws l in
  let l := match l with 45 :: l' | 43 :: l' => l' | _ => l end in
  match l with
  | c :: _ => if is_digit c then Some (skip_digits l) else None
  | [] => None
  end.

(** [%255[^\n]] *)
Fixpoint scan_set (n : nat) (l : list Z) : list Z :=
  match n, l with
  | S n, c :: l => if c =? 10 then [] else c :: scan_set n l
  | _, _ => []
  end.

(** The conversions of the format string: start, offset and path name, or
    [None] when fewer than four are made. *)
Definition scan_maps_line (line : list Z) : option (Z * Z * list Z) :=
  '(s, l) ← scan_lx line;
  l ← match l with 45 :: l => Some l | _ => None end;
  '(e, l) ← scan_lx l;
  let l := skip_ws l in
  let perms := scan_word 4 l in
  if (length perms =? 0)%nat then None
  else
    '(off, l) ← scan_lx (drop (length perms) l);
    let path :=
      '(_, l) ← scan_lx l;
      l ← match l with 58 :: l => Some l | _ => None end;
      '(_, l) ← scan_lx l;
      l ← scan_u l;
      Some (scan_set 255 (skip_ws l)) in
    Some (s, off, default [] path).

Fixpoint trim (fuel : nat) (p : list Z) : list Z :=
  match fuel with
  | O => p
  | S fuel =>
      match last p with
      | Some c => if (c =? 10) || (c =? 13) || (c =? 32) then trim fuel (take (length p - 1) p) else p
      | None => p
      end
  end.

(** [lines] are what the calls of [fgets] return. *)
Fixpoint FindLibraryInfo (lib_name : list Z) (lines : list (list Z)) : option (Z * list Z) :=
  match lines with
  | [] => None
  | line :: lines =>
      if negb (contains lib_name line) then FindLibraryInfo lib_name lines
      else
        match scan_maps_line line with
        | Some (start, 0, path) => Some (start, trim (length path) path)
        | _ => FindLibraryInfo lib_name lines
        end
  end.

Fixpoint load_paths (open_map : list Z → option (list Z)) (primary : list Z) (paths : list (list Z))
    (load_bias : Z) (g : list SymbolEntry) : option (bool * list SymbolEntry) :=
  match paths with
  | [] => Some (true, g)
  | path :: paths =>
      if bool_decide (path = primary) || negb (bool_decide (path = [])) then
        '(ok, g) ← TryLoadFromFile open_map path load_bias g;
        if (ok : bool) then Some (true, g) else load_paths open_map primary paths load_bias g
      else load_paths open_map primary paths load_bias g
  end.

(** [lines] is [/proc/self/maps], [memory base] the process memory from [base]
    on. The result is the return value and [g_symbols]. *)
Definition InitElfSymbolResolver (lines : list (list Z)) (memory : Z → list Z)
    (open_map : list Z → option (list Z)) (g : list SymbolEntry) : option (bool * list SymbolEntry) :=
  match FindLibraryInfo (lit "libart.so") lines with
  | None => Some (false, g)
  | Some (base, primary_path) =>
      let m := memory base in
      n ← e_phnum m; off ← e_phoff m; sz ← e_phentsize m;
      load_bias ← load_bias_loop (Z.to_nat n) m off sz base;
      load_paths open_map primary_path
        [primary_path; lit "/apex/com.android.art/debug/lib64/libart.so";
         lit "/apex/com.android.art/lib64/libart.so"; lit "/system/lib64/libart.so"] load_bias g
  end.

(** ** Resolving *)

Fixpoint find_char (c : Z) (l : list Z) : option nat :=
  match l with
  | [] => None
  | d :: l => if d =? c then Some 0%nat else S <$> find_char c l
  end.

(** [len = len * 10 + digit] over the leading digits, as an [int]. *)
Fixpoint scan_int (l : list Z) (len : Z) : option Z :=
  match l with
  | c :: l =>
      if is_digit c then
        let len := len * 10 + (c - 48) in
        if len <? 2 ^ 31 then scan_int l len else None
      else Some len
  | [] => Some len
  end.

(** The loop over length-prefixed names; [q] is what is left from [pos]. *)
Fixpoint names_loop (fuel : nat) (q last_name : list Z) : option (list Z) :=
  match fuel with
  | O => None
  | S fuel =>
      match q with
      | [] => Some last_name
      | c :: _ =>
          if negb (is_digit c) then Some last_name
          else
            len ← scan_int q 0;
            let q := skip_digits q in
            if zlen q <? len then Some last_name
            else names_loop fuel (drop (Z.to_nat len) q) (take (Z.to_nat len) q)
      end
  end.

Definition ExtractMethodName (mangled : list Z) : option (list Z) :=
  if zlen mangled <? 4 then Some []
  else
    c0 ← aget mangled 0; c1 ← aget mangled 1;
    if negb (c0 =? 95) || negb (c1 =? 90) then Some []
    else
      match find_char 69 mangled with
      | None => Some []
      | Some e_pos =>
          let n := u64 (Z.of_nat e_pos - 3) in
          let q := take (Z.to_nat (Z.min n (zlen mangled - 3))) (drop 3 mangled) in
          names_loop (S (length q)) q []
      end.

(** The first symbol with a property. *)
Fixpoint find_sym (P : list Z → bool) (g : list SymbolEntry) : option SymbolEntry :=
  match g with
  | [] => None
  | s :: g => if P (name s) then Some s else find_sym P g
  end.

(** The loop of the fuzzy match. *)
Fixpoint fuzzy_loop (method : list Z) (g : list SymbolEntry) (best : Z) (best_name : list Z) : Z :=
  match g with
  | [] => best
  | s :: g =>
      if contains method (name s) && contains (lit "_ZN3art") (name s) &&
         ((best =? 0) || (zlen (name s) <? zlen best_name))
      then fuzzy_loop method g (addr s) (name s)
      else fuzzy_loop method g best best_name
  end.

(** [None] is undefined behaviour, [Some 0] the null pointer. *)
Definition ArtSymbolResolver (g : list SymbolEntry) (symbol_name : list Z) : option Z :=
  let a := dlsym symbol_name in
  if negb (a =? 0) then Some a
  else
    match find_sym (λ n, bool_decide (n = symbol_name)) g with
    | Some s => Some (addr s)
    | None =>
        match find_sym (is_prefix symbol_name) g with
        | Some s => Some (addr s)
        | None =>
            method ← ExtractMethodName symbol_name;
            match method with
            | [] => Some 0
            | _ => Some (fuzzy_loop method g 0 [])
            end
        end
    end.

Definition ArtSymbolPrefixResolver (g : list SymbolEntry) (symbol_prefix : list Z) : Z :=
  let a := dlsym symbol_prefix in
  if negb (a =? 0) then a
  else match find_sym (is_prefix symbol_prefix) g with Some s => addr s | None => 0 end.

End environment.

(** ** Resolution order *)

Lemma is_prefix_spec p l : is_prefix p l = true ↔ p `prefix_of` l.
Proof.
  revert l. induction p as [|c p IH]; intros l; cbn; [split; [intros; apply prefix_nil|done]|].
  destruct l as [|d l]; [split; [done|by intros H%prefix_nil_not]|].
  rewrite andb_true_iff, Z.eqb_eq, IH. split.
  - intros [-> H]. by apply prefix_cons.
  - intros H. split; [by apply prefix_cons_inv_1 in H|by apply prefix_cons_inv_2 in H].
Qed.

Lemma contains_spec p l : contains p l = true ↔ ∃ a b, l = a ++ p ++ b.
Proof.
  induction l as [|d l IH]; cbn [contains]; rewrite orb_true_iff, is_prefix_spec.
  - split; [intros [[k Hk]|]; [by exists [], k|done]|].
    intros (a & b & H). left. destruct a; [by exists b|done].
  - rewrite IH. split.
    + intros [[k Hk]|(a & b & ->)]; [by exists [], k|by exists (d :: a), b].
    + intros (a & b & H). destruct a as [|d' a]; [left; by exists b|].
      right. injection H as -> ->. by exists a, b.
Qed.

Lemma find_sym_first P g1 s g2 :
  P (name s) = true → Forall (λ t, P (name t) = false) g1 → find_sym P (g1 ++ s :: g2) = Some s.
Proof. intros Hs. induction 1 as [|t g1 Ht _ IH]; cbn; [by rewrite Hs|by rewrite Ht]. Qed.

Lemma find_sym_none P g : Forall (λ t, P (name t) = false) g → find_sym P g = None.
Proof. induction 1 as [|t g Ht _ IH]; cbn; [done|by rewrite Ht]. Qed.

(** What the fuzzy match accepts. *)
Definition candidate (method : list Z) (s : SymbolEntry) : bool :=
  contains method (name s) && contains (lit "_ZN3art") (name s).

Lemma fuzzy_loop_none m g b bn :
  Forall (λ s, candidate m s = true → b ≠ 0 ∧ zlen bn <= zlen (name s)) g → fuzzy_loop m g b bn = b.
Proof.
  induction 1 as [|s g Hs _ IH]; cbn [fuzzy_loop]; [done|]. fold (candidate m s).
  destruct (candidate m s); cbn [andb]; [|done]. destruct (Hs eq_refl) as [Hb Hl].
  rewrite (proj2 (Z.eqb_neq _ _)), (proj2 (Z.ltb_ge _ _)) by done. done.
Qed.

(** The first of the shortest candidates wins. *)
Lemma fuzzy_loop_best m g1 s g2 b bn :
  candidate m s = true → addr s ≠ 0 →
  Forall (λ t, candidate m t = true → zlen (name s) < zlen (name t)) g1 →
  Forall (λ t, candidate m t = true → zlen (name s) <= zlen (name t)) g2 →
  (b ≠ 0 → zlen (name s) < zlen bn) →
  fuzzy_loop m (g1 ++ s :: g2) b bn = addr s.
Proof.
  intros Hs Ha Hg1 Hg2. revert b bn. induction Hg1 as [|t g1 Ht _ IH]; intros b bn Hb; cbn [app fuzzy_loop].
  - fold (candidate m s). rewrite Hs. cbn [andb]. destruct (Z.eqb_spec b 0); cbn [orb].
    + apply fuzzy_loop_none. eapply Forall_impl; [exact Hg2|]. auto.
    + rewrite (proj2 (Z.ltb_lt _ _)) by auto. apply fuzzy_loop_none.
      eapply Forall_impl; [exact Hg2|]. auto.
  - fold (candidate m t). destruct (candidate m t && _) eqn:E; apply IH; [|done].
    intros _. apply Ht. by apply andb_true_iff in E as [? _].
Qed.

(** C27: the order in which names are resolved, for every symbol table, the
    empty one included. An address known to [dlsym] wins; else the first symbol
    of exactly that name; else the first whose name starts with it; else, when
    no symbol does, the fuzzy match: the first of the shortest names in the
    [art] namespace that contain the method name (if its address is not null),
    and null when there is none or no method name can be extracted. The one
    undefined case is a length in the mangled name that overflows an [int]. *)
Theorem ArtSymbolResolver_order dlsym g n :
  (dlsym n ≠ 0 → ArtSymbolResolver dlsym g n = Some (dlsym n)) ∧
  (dlsym n = 0 →
    (∀ g1 s g2, g = g1 ++ s :: g2 → name s = n → Forall (λ t, name t ≠ n) g1 →
      ArtSymbolResolver dlsym g n = Some (addr s)) ∧
    (∀ g1 s g2, g = g1 ++ s :: g2 → Forall (λ t, name t ≠ n) g → n `prefix_of` name s →
      Forall (λ t, ¬ n `prefix_of` name t) g1 → ArtSymbolResolver dlsym g n = Some (addr s)) ∧
    (Forall (λ t, ¬ n `prefix_of` name t) g →
      (ExtractMethodName n = None → ArtSymbolResolver dlsym g n = None) ∧
      (ExtractMethodName n = Some [] → ArtSymbolResolver dlsym g n = Some 0) ∧
      ∀ m, ExtractMethodName n = Some m → m ≠ [] →
        (Forall (λ t, candidate m t = false) g → ArtSymbolResolver dlsym g n = Some 0) ∧
        (∀ g1 s g2, g = g1 ++ s :: g2 → candidate m s = true → addr s ≠ 0 →
          Forall (λ t, candidate m t = true → zlen (name s) < zlen (name t)) g1 →
          Forall (λ t, candidate m t = true → zlen (name s) <= zlen (name t)) g2 →
          ArtSymbolResolver dlsym g n = Some (addr s)))).
Proof.
  unfold ArtSymbolResolver.
  assert (∀ l, Forall (λ t, ¬ n `prefix_of` name t) l → Forall (λ t, is_prefix n (name t) = false) l) as Hpre.
  { intros l Hl. eapply Forall_impl; [exact Hl|]. intros t Ht. apply not_true_is_false. by rewrite is_prefix_spec. }
  assert (∀ l, Forall (λ t, name t ≠ n) l → Forall (λ t, bool_decide (name t = n) = false) l) as Hex.
  { intros l Hl. eapply Forall_impl; [exact Hl|]. intros t Ht. by apply bool_decide_eq_false. }
  split; [intros Hd; by rewrite (proj2 (Z.eqb_neq _ _)) by done|].
  intros ->. cbn [Z.eqb negb]. split; [|split].
  - intros g1 s g2 -> Hs Hg1.
    rewrite (find_sym_first _ g1 s g2); [done|by apply bool_decide_eq_true|by apply Hex].
  - intros g1 s g2 -> Hg Hs Hg1. rewrite find_sym_none by (by apply Hex).
    rewrite (find_sym_first _ g1 s g2); [done|by apply is_prefix_spec|by apply Hpre].
  - intros Hg. assert (Forall (λ t, name t ≠ n) g) as Hg'.
    { eapply Forall_impl; [exact Hg|]. intros t Ht <-. by apply Ht. }
    rewrite !find_sym_none by (by apply Hex || by apply Hpre).
    split; [intros ->; done|]. split; [intros ->; done|].
    intros m -> Hne. cbn [mbind option_bind]. destruct m as [|c m]; [done|]. split.
    + intros Hc. rewrite fuzzy_loop_none; [done|]. eapply Forall_impl; [exact Hc|]. intros t ->. done.
    + intros g1 s g2 -> Hs Ha Hg1 Hg2. by rewrite (fuzzy_loop_best (c :: m) g1 s g2).
Qed.

Lemma ArtSymbolResolver_order_witness :
  ArtSymbolResolver (λ _, 0)
    [mk_sym (lit "_ZN3art5Other6MethodEii") 8; mk_sym (lit "_ZN3art5Klass6MethodEi") 16; mk_sym (lit "memcpy") 24]
    (lit "_ZN3art5Klass6MethodEv") = Some 16 ∧
  ArtSymbolResolver (λ _, 0) [mk_sym (lit "_ZN3art5Other6MethodEii") 8] (lit "open") = Some 0.
Proof.
  split.
  - destruct (ArtSymbolResolver_order (λ _, 0)
      [mk_sym (lit "_ZN3art5Other6MethodEii") 8; mk_sym (lit "_ZN3art5Klass6MethodEi") 16; mk_sym (lit "memcpy") 24]
      (lit "_ZN3art5Klass6MethodEv")) as [_ H].
    destruct H as (_ & _ & H); [reflexivity|]. destruct H as (_ & _ & H).
    { repeat constructor; intros H'%is_prefix_spec; discriminate H'. }
    destruct (H (lit "Method")) as [_ H']; [reflexivity|discriminate|].
    apply (H' [mk_sym (lit "_ZN3art5Other6MethodEii") 8] (mk_sym (lit "_ZN3art5Klass6MethodEi") 16) [mk_sym (lit "memcpy") 24]);
      [reflexivity|reflexivity|discriminate| |]; repeat constructor; vm_compute; congruence.
  - destruct (ArtSymbolResolver_order (λ _, 0) [mk_sym (lit "_ZN3art5Other6MethodEii") 8] (lit "open")) as [_ H].
    destruct H as (_ & _ & H); [reflexivity|]. destruct H as (_ & H & _); [|apply H; reflexivity].
    repeat constructor; intros H'%is_prefix_spec; discriminate H'.
Defined.

(** ** Method names *)

(** Length-prefixed names: digits and a name of that length. *)
Definition digits_val (ds : list Z) : Z := fold_left (λ n c, n * 10 + (c - 48)) ds 0.

Definition component_ok (c : list Z * list Z) : Prop :=
  c.1 ≠ [] ∧ Forall (λ d, is_digit d = true) c.1 ∧ digits_val c.1 = zlen c.2 ∧ zlen c.2 < 2 ^ 31 ∧
  ∃ d l, c.2 = d :: l ∧ is_digit d = false.

Definition encode (c : list Z * list Z) : list Z := c.1 ++ c.2.

Lemma digits_val_mono ds n : 0 <= n → Forall (λ d, is_digit d = true) ds →
  n <= fold_left (λ n c, n * 10 + (c - 48)) ds n.
Proof.
  intros Hn Hd. revert n Hn. induction Hd as [|d ds Hd _ IH]; intros n Hn; cbn; [done|].
  unfold is_digit in Hd. rewrite andb_true_iff, !Z.leb_le in Hd.
  specialize (IH (n * 10 + (d - 48)) ltac:(lia)). lia.
Qed.

Lemma scan_int_ok ds rest n : 0 <= n → Forall (λ d, is_digit d = true) ds →
  (∀ d, head rest = Some d → is_digit d = false) →
  fold_left (λ n c, n * 10 + (c - 48)) ds n < 2 ^ 31 →
  scan_int (ds ++ rest) n = Some (fold_left (λ n c, n * 10 + (c - 48)) ds n) ∧ skip_digits (ds ++ rest) = rest.
Proof.
  intros Hn Hd Hr. revert n Hn. induction Hd as [|d ds Hd Hds IH]; intros n Hn Hlt; cbn [app fold_left] in *.
  - destruct rest as [|c rest]; [done|]. cbn. by rewrite (Hr c eq_refl).
  - cbn [scan_int skip_digits]. rewrite Hd. unfold is_digit in Hd. rewrite andb_true_iff, !Z.leb_le in Hd.
    pose proof (digits_val_mono ds (n * 10 + (d - 48)) ltac:(lia) Hds).
    rewrite (proj2 (Z.ltb_lt _ _)) by lia. apply IH; lia.
Qed.

(** The loop stops at [q]. *)
Definition stops (q : list Z) : Prop :=
  ∀ fuel l, (length q < fuel)%nat → names_loop fuel q l = Some l.

Lemma names_loop_ok cs q fuel l : Forall component_ok cs → stops q →
  (length (concat (encode <$> cs) ++ q) < fuel)%nat →
  names_loop fuel (concat (encode <$> cs) ++ q) l = Some (fold_left (λ _ c, c.2) cs l).
Proof.
  intros Hcs Hq. revert fuel l. induction Hcs as [|[ds nm] cs Hc _ IH]; intros fuel l Hf; [by apply Hq|].
  cbn [fmap list_fmap concat] in *. destruct Hc as (Hne & Hd & Hv & Hlt & d & nm' & Hnm & Hnd). cbn [fst snd] in *.
  change (encode (ds, nm)) with (ds ++ nm) in *. rewrite <- !app_assoc in *.
  set (rest := concat (encode <$> cs) ++ q) in *.
  destruct (scan_int_ok ds (nm ++ rest) 0) as [Hs Hk]; [lia|done| |unfold digits_val in Hv; lia|].
  { intros e. rewrite Hnm. by intros [= <-]. }
  fold (digits_val ds) in Hs. rewrite Hv in Hs.
  destruct ds as [|c ds]; [done|]. apply Forall_cons in Hd as [Hc Hd].
  destruct fuel as [|fuel]; [lia|]. cbn [app names_loop fold_left snd]. rewrite Hc. cbn [negb].
  cbn [app] in Hs, Hk. rewrite Hs, Hk. cbn [mbind option_bind].
  rewrite (proj2 (Z.ltb_ge _ _)) by (rewrite length_app; lia).
  rewrite Nat2Z.id, drop_app_length, take_app_length. apply IH.
  cbn [app length] in Hf. rewrite !length_app in Hf. lia.
Qed.

Lemma find_char_app c a b : Forall (λ d, d ≠ c) a → find_char c (a ++ c :: b) = Some (length a).
Proof.
  induction 1 as [|d a Hd _ IH]; cbn; [by rewrite Z.eqb_refl|].
  rewrite (proj2 (Z.eqb_neq _ _)) by done. by rewrite IH.
Qed.

(** On [_ZN], names and the first [E]. *)
Lemma ExtractMethodName_eq x rest : Forall (λ d, d ≠ 69) x → zlen x < 2 ^ 62 →
  ExtractMethodName (lit "_ZN" ++ x ++ 69 :: rest) = names_loop (S (length x)) x [].
Proof.
  intros Hx Hl. unfold ExtractMethodName. change (lit "_ZN") with [95; 90; 78].
  rewrite (proj2 (Z.ltb_ge _ _)) by (rewrite !length_app; cbn [length]; lia).
  cbn [app]. change (aget (95 :: _) 0) with (Some 95). change (aget (95 :: _) 1) with (Some 90).
  cbn [mbind option_bind Z.eqb Pos.eqb negb orb]. change (95 :: 90 :: 78 :: x ++ 69 :: rest) with ([95; 90; 78] ++ x ++ 69 :: rest).
  rewrite app_assoc, find_char_app by (apply Forall_app; split; [by repeat constructor|done]).
  rewrite <- app_assoc. cbn [app drop]. rewrite drop_0.
  replace (Z.of_nat (length (95 :: 90 :: 78 :: x)) - 3) with (zlen x) by (cbn [length]; lia).
  rewrite u64_id by (unfold is_u64; lia). rewrite Z.min_l by (cbn [length]; rewrite length_app; cbn [length]; lia).
  by rewrite Nat2Z.id, take_app_length.
Qed.

Lemma stops_cut ds pre : ds ≠ [] → Forall (λ d, is_digit d = true) ds →
  (∀ d, head pre = Some d → is_digit d = false) → zlen pre < digits_val ds < 2 ^ 31 → stops (ds ++ pre).
Proof.
  intros Hne Hd Hp Hv fuel l Hf.
  destruct (scan_int_ok ds pre 0) as [Hs Hk]; [lia|done|done|unfold digits_val in Hv; lia|].
  fold (digits_val ds) in Hs. destruct ds as [|c ds]; [done|]. apply Forall_cons in Hd as [Hc Hd].
  destruct fuel as [|fuel]; [lia|]. cbn [app names_loop] in *. rewrite Hc, Hs, Hk. cbn [negb mbind option_bind].
  by rewrite (proj2 (Z.ltb_lt _ _)) by lia.
Qed.

Definition no_E (l : list Z) : Prop := Forall (λ d, d ≠ 69) l.

(** [ExtractMethodName] finds the method. On a mangled nested name,
    [_ZN], length-prefixed names and [E], none of them containing the letter
    [E], it returns the last name. *)
Theorem ExtractMethodName_last cs c rest :
  Forall component_ok (cs ++ [c]) → no_E (concat (encode <$> cs ++ [c])) →
  zlen (concat (encode <$> cs ++ [c])) < 2 ^ 62 →
  ExtractMethodName (lit "_ZN" ++ concat (encode <$> cs ++ [c]) ++ 69 :: rest) = Some c.2.
Proof.
  intros Hc He Hl. rewrite ExtractMethodName_eq by done.
  rewrite <- (app_nil_r (concat _)) at 2. rewrite names_loop_ok; [|done| |].
  - by rewrite fold_left_app.
  - intros [|fuel] l; cbn; [lia|done].
  - rewrite app_nil_r. lia.
Qed.

Lemma ExtractMethodName_last_witness :
  ExtractMethodName (lit "_ZN3art11ClassLinker14RegisterNativeEPv") = Some (lit "RegisterNative").
Proof.
  apply (ExtractMethodName_last [(lit "3", lit "art"); (lit "11", lit "ClassLinker")] (lit "14", lit "RegisterNative") (lit "Pv")).
  - repeat constructor; try discriminate; try reflexivity; by eexists _, _.
  - by repeat constructor.
  - vm_compute. reflexivity.
Defined.

(** A name containing the letter [E] is lost. The search for the end of
    the nested name stops at the first [E], also inside a name; that name does
    not fit what is left and the name before it is returned (or none). *)
Theorem ExtractMethodName_cut cs ds pre suf rest :
  Forall component_ok cs → component_ok (ds, pre ++ 69 :: suf) →
  no_E (concat (encode <$> cs)) → no_E ds → no_E pre → zlen (concat (encode <$> cs) ++ ds ++ pre) < 2 ^ 62 →
  ExtractMethodName (lit "_ZN" ++ concat (encode <$> cs ++ [(ds, pre ++ 69 :: suf)]) ++ 69 :: rest) =
    Some (fold_left (λ _ c, c.2) cs []).
Proof.
  intros Hcs (Hne & Hd & Hv & Hlt & d & l & Hh & Hnd) E1 E2 E3 Hl. cbn [fst snd] in *.
  rewrite fmap_app, concat_app. cbn [fmap list_fmap concat]. rewrite app_nil_r. unfold encode at 2. cbn [fst snd].
  replace ((concat (encode <$> cs) ++ ds ++ pre ++ 69 :: suf) ++ 69 :: rest)
    with ((concat (encode <$> cs) ++ ds ++ pre) ++ 69 :: suf ++ 69 :: rest) by (by rewrite <- !app_assoc).
  rewrite ExtractMethodName_eq; [|unfold no_E in *; by rewrite !Forall_app|done].
  apply names_loop_ok; [done| |lia]. apply stops_cut; [done|done| |].
  - intros e He. destruct pre as [|p pre]; [done|]. cbn in Hh, He. congruence.
  - rewrite Hv. split; [|done]. rewrite length_app. cbn [length]. lia.
Qed.

Lemma ExtractMethodName_cut_witness :
  ExtractMethodName (lit "_ZN3art11ClassLinker17EnsureInitializedEv") = Some (lit "ClassLinker").
Proof.
  apply (ExtractMethodName_cut [(lit "3", lit "art"); (lit "11", lit "ClassLinker")] (lit "17") [] (lit "nsureInitialized") (lit "v")).
  - repeat constructor; try discriminate; try reflexivity; by eexists _, _.
  - repeat constructor; try discriminate; try reflexivity; by eexists _, _.
  - by repeat constructor.
  - by repeat constructor.
  - by repeat constructor.
  - vm_compute. reflexivity.
Defined.

(** ** Symbol tables *)

Record Sym : Set := mk_Sym { s_name : Z; s_info : Z; s_shndx : Z; s_value : Z }.

(** The symbols stored at [p]. *)
Definition sym_table (f : list Z) (p : Z) (syms : list Sym) : Prop :=
  ∀ i s, syms !! i = Some s →
    st_name f (p + sizeof_Sym * Z.of_nat i) = Some (s_name s) ∧
    st_info f (p + sizeof_Sym * Z.of_nat i) = Some (s_info s) ∧
    st_shndx f (p + sizeof_Sym * Z.of_nat i) = Some (s_shndx s) ∧
    st_value f (p + sizeof_Sym * Z.of_nat i) = Some (s_value s).

(** Defined functions, objects and untyped symbols. *)
Definition included (s : Sym) : bool :=
  negb (s_value s =? 0) && negb (s_shndx s =? 0) && (s_info s .& 0xf <=? 2) && (0 <=? s_info s .& 0xf).

Definition strings_ok (f : list Z) (strtab : Z) (syms : list Sym) : Prop :=
  Forall (λ s, included s = true → is_Some (string_at f (strtab + s_name s))) syms.

(** The entry a symbol stands for: those without a name have none. *)
Definition symbol_of (f : list Z) (strtab load_bias : Z) (s : Sym) : option SymbolEntry :=
  if included s then
    match string_at f (strtab + s_name s) with
    | Some (c :: l) => Some (mk_sym (c :: l) (u64 (load_bias + s_value s)))
    | _ => None
    end
  else None.

Lemma string_at_first f off s : string_at f off = Some s →
  aget f off = Some (match s with [] => 0 | c :: _ => c end) ∧ Forall (λ c, c ≠ 0) s.
Proof.
  unfold string_at, aget. destruct (Z.leb_spec 0 off); [|done]. intros Hs.
  rewrite <- (Nat.add_0_r (Z.to_nat off)), <- lookup_drop. revert s Hs. set (l := drop _ f). clearbody l.
  induction l as [|c l IH]; intros s; cbn [c_string]; [done|].
  destruct (Z.eqb_spec c 0) as [->|Hc]; [by intros [= <-]|].
  destruct (c_string l) as [t|] eqn:E; [|done]. cbn [mbind option_bind]. intros [= <-].
  split; [done|]. constructor; [done|]. by apply (IH t).
Qed.

Lemma read_symbol_ok f strtab p lb i s syms : sym_table f p syms → syms !! i = Some s →
  (included s = true → is_Some (string_at f (strtab + s_name s))) →
  read_symbol f strtab (p + sizeof_Sym * Z.of_nat i) lb = Some (symbol_of f strtab lb s).
Proof.
  intros Ht Hi Hs. destruct (Ht i s Hi) as (Hn & Hf & Hx & Hv). unfold read_symbol, symbol_of.
  rewrite Hv. cbn [mbind option_bind]. unfold included in *.
  destruct (Z.eqb_spec (s_value s) 0); [done|]. rewrite Hx. cbn [mbind option_bind negb andb] in *.
  destruct (Z.eqb_spec (s_shndx s) 0); [done|]. rewrite Hf. cbn [mbind option_bind negb andb] in *.
  destruct ((s_info s .& 15 <=? 2) && (0 <=? s_info s .& 15)) eqn:E.
  - rewrite andb_true_iff, !Z.leb_le in E.
    replace (_ && _ && _) with false by (repeat case_match; try done; lia).
    rewrite Hn. cbn [mbind option_bind]. destruct (Hs eq_refl) as [t Hst]. rewrite Hst.
    destruct (string_at_first _ _ _ Hst) as [-> Hnz]. cbn [mbind option_bind].
    destruct t as [|c t]; [done|]. apply Forall_cons in Hnz as [Hc _].
    by rewrite (proj2 (Z.eqb_neq _ _)).
  - replace (_ && _ && _) with true; [done|]. symmetry. rewrite andb_false_iff, !Z.leb_gt in E.
    rewrite !andb_true_iff, !negb_true_iff, !Z.eqb_neq. lia.
Qed.

Lemma collect_ok f strtab p lb g syms : sym_table f p syms → strings_ok f strtab syms →
  collect (length syms) f strtab p lb g = Some (g ++ omap (symbol_of f strtab lb) syms).
Proof.
  intros Ht Hs. revert p g Ht. induction syms as [|s syms IH]; intros p g Ht; cbn [length collect omap list_omap].
  { by rewrite app_nil_r. }
  apply Forall_cons in Hs as [Hs1 Hs2].
  pose proof (read_symbol_ok f strtab p lb 0 s (s :: syms) Ht eq_refl Hs1) as Hr.
  replace (p + sizeof_Sym * Z.of_nat 0) with p in Hr by lia. rewrite Hr. cbn [mbind option_bind].
  rewrite (IH Hs2).
  - destruct (symbol_of f strtab lb s); [by rewrite <- app_assoc|by rewrite app_nil_r].
  - intros i t Hi. specialize (Ht (S i) t Hi).
    by replace (p + sizeof_Sym + sizeof_Sym * Z.of_nat i) with (p + sizeof_Sym * Z.of_nat (S i)) by lia.
Qed.

(** Where an image has its section headers and the first section of type
    [SHT_SYMTAB]: index, string section, contents. *)
Record layout : Set := mk_layout {
  shoff : Z; shnum : Z; sym_index : nat; link : Z;
  sym_off : Z; sym_size : Z; sym_ent : Z; str_off : Z; str_size : Z
}.

Record symtab_image (f : list Z) (elf_size : Z) (L : layout) : Prop := {
  im_table : 0 < shoff L ∧ 0 < shnum L ∧ shoff L + shnum L * 64 <= elf_size < 2 ^ 63;
  im_index : Z.of_nat (sym_index L) < shnum L ∧ 0 <= link L < shnum L;
  im_syms : 0 <= sym_off L ∧ 0 <= sym_size L ∧ sym_off L + sym_size L <= elf_size;
  im_strs : 0 <= str_off L ∧ 0 <= str_size L ∧ str_off L + str_size L <= elf_size;
  im_header : e_shoff f = Some (shoff L) ∧ e_shnum f = Some (shnum L) ∧ e_shentsize f = Some 64;
  im_first : ∀ i, (i < sym_index L)%nat →
    ∃ t, sh_type f (shoff L + sizeof_Shdr * Z.of_nat i) = Some t ∧ t ≠ SHT_SYMTAB;
  im_sym : let p := shoff L + sizeof_Shdr * Z.of_nat (sym_index L) in
    sh_type f p = Some SHT_SYMTAB ∧ sh_link f p = Some (link L) ∧ sh_offset f p = Some (sym_off L) ∧
    sh_size f p = Some (sym_size L) ∧ sh_entsize f p = Some (sym_ent L);
  im_str : let p := shoff L + link L * sizeof_Shdr in
    sh_offset f p = Some (str_off L) ∧ sh_size f p = Some (str_size L)
}.

(** Skipping sections of other types. *)
Lemma memory_loop_skip k n f p L elf_size lb g :
  (∀ i, (i < k)%nat → ∃ t, sh_type f (p + sizeof_Shdr * Z.of_nat i) = Some t ∧ t ≠ SHT_SYMTAB) →
  memory_loop (k + n) f p (shoff L) (shnum L) elf_size lb g =
    memory_loop n f (p + sizeof_Shdr * Z.of_nat k) (shoff L) (shnum L) elf_size lb g.
Proof.
  revert p. induction k as [|k IH]; intros p H.
  { by replace (p + sizeof_Shdr * Z.of_nat 0) with p by lia. }
  destruct (H 0%nat) as (t & Ht & Hne); [lia|]. replace (p + sizeof_Shdr * Z.of_nat 0) with p in Ht by lia.
  cbn [Nat.add memory_loop]. rewrite Ht. cbn [mbind option_bind].
  rewrite (proj2 (Z.eqb_neq _ _)) by done. cbn [negb]. rewrite IH.
  - f_equal. lia.
  - intros i Hi. destruct (H (S i)) as (t' & Ht' & Hne'); [lia|]. exists t'.
    by replace (p + sizeof_Shdr + sizeof_Shdr * Z.of_nat i) with (p + sizeof_Shdr * Z.of_nat (S i)) by lia.
Qed.

(** The checks of an image pass and lead to its symbol table. *)
Lemma ParseSymtabFromMemory_eq f elf_size L lb g : symtab_image f elf_size L →
  ParseSymtabFromMemory f elf_size lb g =
    parse_section f (shoff L + sizeof_Shdr * Z.of_nat (sym_index L)) (shoff L + link L * sizeof_Shdr) lb g.
Proof.
  intros [Htab Hidx Hsy Hst (H1 & H2 & H3) Hfirst (S1 & S2 & S3 & S4 & S5) (T1 & T2)].
  unfold ParseSymtabFromMemory. rewrite H1, H2, H3. cbn [mbind option_bind].
  rewrite !(proj2 (Z.eqb_neq _ _)) by lia. cbn [orb].
  rewrite u64_id by (unfold is_u64; lia). rewrite (proj2 (Z.ltb_ge _ _)) by lia.
  replace (Z.to_nat (shnum L)) with (sym_index L + S (Z.to_nat (shnum L) - sym_index L - 1))%nat by lia.
  rewrite memory_loop_skip by done. cbn [memory_loop].
  rewrite S1, S2, S3, S4. cbn [mbind option_bind]. rewrite Z.eqb_refl. cbn [negb].
  rewrite (proj2 (Z.leb_gt _ _)) by lia. rewrite u64_id by (unfold is_u64; lia).
  rewrite (proj2 (Z.ltb_ge _ _)) by lia. rewrite T1, T2. cbn [mbind option_bind].
  rewrite u64_id by (unfold is_u64; lia). by rewrite (proj2 (Z.ltb_ge _ _)) by lia.
Qed.

(** C30: the symbols of an image are loaded. On an image whose headers are
    within its size and whose symbol table and strings are intact,
    [ParseSymtabFromMemory] appends, in order, exactly the defined named
    symbols of the right types, moved by the load bias; the name of any of them
    is then resolved to the address of the first symbol that has it, unless
    [dlsym] knows the name, whose answer goes first. *)
Theorem ParseSymtabFromMemory_loads f elf_size L syms lb :
  symtab_image f elf_size L → sym_ent L = sizeof_Sym → sym_size L = sizeof_Sym * zlen syms →
  sym_table f (sym_off L) syms → strings_ok f (str_off L) syms →
  ∃ g, ParseSymtabFromMemory f elf_size lb [] = Some (negb (is_empty g), g) ∧
    g = omap (symbol_of f (str_off L) lb) syms ∧
    ∀ dlsym l1 s l2 e, syms = l1 ++ s :: l2 → symbol_of f (str_off L) lb s = Some e →
      Forall (λ t, ∀ d, symbol_of f (str_off L) lb t = Some d → name d ≠ name e) l1 →
      ArtSymbolResolver dlsym g (name e) = Some (if dlsym (name e) =? 0 then addr e else dlsym (name e)).
Proof.
  intros Him Hent Hsz Ht Hs. eexists. rewrite (ParseSymtabFromMemory_eq f elf_size L) by done.
  destruct Him as [_ _ _ _ _ _ (S1 & S2 & S3 & S4 & S5) (T1 & T2)].
  unfold parse_section. rewrite T1, S3, S4, S5. cbn [mbind option_bind]. rewrite Hent, Hsz.
  change (sizeof_Sym =? 0) with false. cbv iota. rewrite Z.mul_comm, Z.div_mul, Nat2Z.id by done.
  rewrite collect_ok by done. cbn [mbind option_bind app]. split_and!; [done|done|].
  intros dlsym l1 s l2 e -> He Hl1. unfold ArtSymbolResolver. destruct (dlsym (name e) =? 0); cbn [negb]; [|done].
  rewrite omap_app. cbn [omap list_omap]. rewrite He. rewrite find_sym_first; [done|by apply bool_decide_eq_true|].
  clear -Hl1. induction Hl1 as [|t l1 Ht _ IH]; cbn [omap list_omap]; [constructor|].
  destruct (symbol_of f (str_off L) lb t) as [d|]; [|done]. constructor; [|done].
  apply bool_decide_eq_false. by apply Ht.
Qed.

(** An entry size of zero is not checked. The image passes every test of
    [ParseSymtabFromMemory], which then divides by zero. *)
Theorem ParseSymtabFromMemory_entsize f elf_size L lb g :
  symtab_image f elf_size L → sym_ent L = 0 → ParseSymtabFromMemory f elf_size lb g = None.
Proof.
  intros Him Hent. rewrite (ParseSymtabFromMemory_eq f elf_size L) by done.
  destruct Him as [_ _ _ _ _ _ (S1 & S2 & S3 & S4 & S5) (T1 & T2)].
  unfold parse_section. rewrite T1, S3, S4, S5. cbn [mbind option_bind]. by rewrite Hent.
Qed.

(** A small image: a string section and three symbols, one of them defined. *)
Definition demo_ehdr : list Z :=
  ELFMAG ++ replicate 36 0 ++ le_bytes 8 152 ++ le_bytes 4 0 ++ le_bytes 2 64 ++ le_bytes 2 0 ++
  le_bytes 2 0 ++ le_bytes 2 64 ++ le_bytes 2 3 ++ le_bytes 2 1.
Definition demo_shdr (ty lnk off size ent : Z) : list Z :=
  le_bytes 4 0 ++ le_bytes 4 ty ++ le_bytes 8 0 ++ le_bytes 8 0 ++ le_bytes 8 off ++ le_bytes 8 size ++
  le_bytes 4 lnk ++ le_bytes 4 0 ++ le_bytes 8 0 ++ le_bytes 8 ent.
Definition demo_symbol (s : Sym) : list Z :=
  le_bytes 4 (s_name s) ++ [s_info s; 0] ++ le_bytes 2 (s_shndx s) ++ le_bytes 8 (s_value s) ++ le_bytes 8 0.
Definition demo_syms : list Sym := [mk_Sym 0 0 0 0; mk_Sym 1 0x12 7 0x1000; mk_Sym 5 0x10 0 5].
Definition demo_image (ent : Z) : list Z :=
  demo_ehdr ++ ([0] ++ lit "foo" ++ [0] ++ lit "ba" ++ replicate 9 0) ++ concat (demo_symbol <$> demo_syms) ++
  demo_shdr 0 0 0 0 0 ++ demo_shdr 3 0 64 16 0 ++ demo_shdr 2 1 80 72 ent.
Definition demo_layout (ent : Z) : layout := mk_layout 152 3 2 1 80 72 ent 64 16.

Lemma demo_symtab_image ent : ent ∈ [0; 24] → symtab_image (demo_image ent) 344 (demo_layout ent).
Proof.
  rewrite !elem_of_cons, elem_of_nil. intros H.
  assert (∀ i, (i < 2)%nat → i = 0%nat ∨ i = 1%nat) as Hi by lia.
  destruct H as [->|[->|[]]]; split; try (cbn; lia); try (by vm_compute); try (by repeat split; vm_compute).
  - intros i [->| ->]%Hi; eexists; (split; [by vm_compute|done]).
  - intros i [->| ->]%Hi; eexists; (split; [by vm_compute|done]).
Qed.

Lemma ParseSymtabFromMemory_loads_witness :
  ParseSymtabFromMemory (demo_image 24) 344 0x7000 [] = Some (true, [mk_sym (lit "foo") 0x8000]).
Proof.
  destruct (ParseSymtabFromMemory_loads (demo_image 24) 344 (demo_layout 24) demo_syms 0x7000) as (g & -> & -> & _).
  - apply demo_symtab_image. by repeat constructor.
  - reflexivity.
  - reflexivity.
  - intros [|[|[|i]]] s; try discriminate; intros [= <-]; vm_compute; repeat split.
  - repeat constructor; intros H; vm_compute in H; try discriminate; by eexists.
  - vm_compute. reflexivity.
Defined.

Lemma ParseSymtabFromMemory_entsize_witness : ParseSymtabFromMemory (demo_image 0) 344 0 [] = None.
Proof.
  apply (ParseSymtabFromMemory_entsize (demo_image 0) 344 (demo_layout 0)); [|reflexivity].
  apply demo_symtab_image. by repeat constructor.
Defined.

(** ** The GNU hash section *)

(** [DT_GNU_HASH] of a 64-bit file: header, bloom filter of 64-bit words,
    buckets and chains. *)
Definition gnu_hash_section (sym_offset shift2 : Z) (bloom buckets chains : list Z) : list Z :=
  le_bytes 4 (zlen buckets) ++ le_bytes 4 sym_offset ++ le_bytes 4 (zlen bloom) ++ le_bytes 4 shift2 ++
  concat (le_bytes 8 <$> bloom) ++ concat (le_bytes 4 <$> buckets) ++ concat (le_bytes 4 <$> chains).

Lemma rd4_at pre v post off : off = zlen pre → is_u32 v → rd 4 (pre ++ le_bytes 4 v ++ post) off = Some v.
Proof.
  intros -> Hv. unfold rd. rewrite (slice_mid pre (le_bytes 4 v) post) by (done || by rewrite le_bytes_length).
  cbn [mbind option_bind]. rewrite le_val_bytes. by rewrite Z.mod_small.
Qed.

Lemma rd4_head v post : is_u32 v → rd 4 (le_bytes 4 v ++ post) 0 = Some v.
Proof. apply (rd4_at [] v post 0 eq_refl). Qed.

Lemma le_bytes_8 w : le_bytes 8 w = le_bytes 4 w ++ le_bytes 4 (w / 2 ^ 32).
Proof.
  change (2 ^ 32) with (256 * 256 * 256 * 256). rewrite <- !Z.div_div by lia. reflexivity.
Qed.

(** The bloom filter is skipped in 32-bit words, so in a 64-bit file the
    buckets are read out of it. Whatever bucket and chains follow a filter of
    one word whose upper half is clear, the resolver takes the upper half for
    the bucket and finds no symbol; the symbols are counted right only without
    a filter, as in the last clause. *)
Theorem gnu_hash_bloom_width sym_offset shift2 w b chains post :
  is_u32 sym_offset → is_u32 shift2 → 0 <= w < 2 ^ 32 →
  gnu_hash_count (gnu_hash_section sym_offset shift2 [w] [b] chains ++ post) 0 = Some None ∧
  gnu_hash_count (gnu_hash_section 1 6 [] [1] [0x20; 0x31]) 0 = Some (Some 3).
Proof.
  intros Ho Hs Hw. split; [|by vm_compute]. unfold gnu_hash_section. cbn [fmap list_fmap concat length].
  rewrite le_bytes_8, Z.div_small, !app_nil_r, <- !app_assoc by lia.
  set (tail := le_bytes 4 b ++ _). unfold gnu_hash_count.
  change (Z.of_nat 1) with 1. rewrite (rd4_head 1) by (unfold is_u32; lia). cbn [mbind option_bind].
  rewrite (rd4_at (le_bytes 4 1) sym_offset _ (0 + 4) eq_refl Ho). cbn [mbind option_bind].
  rewrite app_assoc, (rd4_at (le_bytes 4 1 ++ le_bytes 4 sym_offset) 1 _ (0 + 8) eq_refl) by (unfold is_u32; lia).
  cbn [mbind option_bind].
  change (Z.to_nat 1) with 1%nat. cbn [max_bucket].
  rewrite !app_assoc. rewrite <- (app_assoc _ (le_bytes 4 0) tail).
  rewrite (rd4_at _ 0 tail); [done| |unfold is_u32; lia]. by rewrite !length_app, !le_bytes_length.
Qed.

Lemma gnu_hash_bloom_width_witness :
  gnu_hash_count (gnu_hash_section 1 6 [0x04000010] [1] [0x20; 0x31] ++ []) 0 = Some None.
Proof.
  apply (gnu_hash_bloom_width 1 6 0x04000010 1 [0x20; 0x31] []); [unfold is_u32; lia|unfold is_u32; lia|lia].
Defined.

(** ** Loading keeps tables apart *)

(** A parser started on an empty table reports success exactly when it leaves
    symbols. *)
Definition honest (r : option (bool * list SymbolEntry)) : Prop :=
  ∀ b g, r = Some (b, g) → b = negb (is_empty g).

Lemma honest_bind {B} (o : option B) k : (∀ x, honest (k x)) → honest (o ≫= k).
Proof. intros Hk. by destruct o as [x|]; [apply Hk|]. Qed.

Lemma honest_false : honest (Some (false, [])).
Proof. by intros b g [= <- <-]. Qed.

Lemma honest_full g : honest (Some (negb (is_empty g), g)).
Proof. by intros b g' [= <- <-]. Qed.

Create HintDb honest.
#[export] Hint Resolve honest_false honest_full : honest.

(** Every branch of a parser is one of these. *)
Ltac honest :=
  repeat first
    [ apply honest_bind; intros
    | match goal with
      | |- honest (if ?b then _ else _) => destruct b
      | |- honest (match ?o with Some _ => _ | None => _ end) => destruct o
      | |- honest (let '(_, _) := ?x in _) => destruct x
      | |- honest None => by intros ? ?
      end
    | solve [eauto with honest] ].

Lemma parse_section_honest f p q lb : honest (parse_section f p q lb []).
Proof. unfold parse_section. honest. Qed.

Lemma sections_loop_honest types f so sn lb r : honest (sections_loop types f so sn lb r []).
Proof.
  induction types as [|ty types IH]; cbn [sections_loop]; [apply honest_false|].
  destruct (_ && _); [done|]. apply honest_bind. intros [sh|]; [|done].
  apply honest_bind. intros. apply parse_section_honest.
Qed.

Lemma memory_loop_honest n f p so sn sz lb : honest (memory_loop n f p so sn sz lb []).
Proof.
  revert p. induction n as [|n IH]; intros p; cbn [memory_loop]; [apply honest_false|].
  apply honest_bind. intros t. destruct (negb _); [apply IH|]. honest; apply parse_section_honest.
Qed.
#[export] Hint Resolve parse_section_honest sections_loop_honest memory_loop_honest : honest.

Lemma ParseSymtabFromSections_honest f lb r : honest (ParseSymtabFromSections f lb r []).
Proof. unfold ParseSymtabFromSections. honest. Qed.

Lemma ParseSymtabFromMemory_honest f sz lb : honest (ParseSymtabFromMemory f sz lb []).
Proof. unfold ParseSymtabFromMemory. honest. Qed.

Lemma ParseDynsymFromDynamic_honest f lb : honest (ParseDynsymFromDynamic f lb []).
Proof. unfold ParseDynsymFromDynamic. honest. Qed.
#[export] Hint Resolve ParseSymtabFromSections_honest ParseSymtabFromMemory_honest
  ParseDynsymFromDynamic_honest : honest.

Lemma ParseGnuDebugdata_honest km1 km2 vm ma fuel f lb : honest (ParseGnuDebugdata km1 km2 vm ma fuel f lb []).
Proof. unfold ParseGnuDebugdata, parse_debugdata. honest. Qed.
#[export] Hint Resolve ParseGnuDebugdata_honest : honest.

(** Trying the next method on what a failed one left. *)
Lemma honest_next r k : honest r → honest (k false []) → (∀ g, honest (k true g) ∨ g = []) →
  honest ('(ok, g) ← r; k ok g).
Proof.
  intros Hr Hf Ht b g. destruct r as [[ok g1]|]; [|done]. specialize (Hr ok g1 eq_refl). cbn [mbind option_bind].
  destruct g1 as [|e g1]; cbn in Hr; subst ok; [apply Hf|]. destruct (Ht (e :: g1)) as [H|H]; [apply H|done].
Qed.

Lemma TryLoadFromFile_honest km1 km2 vm ma fuel om path lb : honest (TryLoadFromFile km1 km2 vm ma fuel om path lb []).
Proof.
  unfold TryLoadFromFile. destruct (om path) as [f|]; [|apply honest_false].
  apply honest_bind. intros m. destruct (negb _); [apply honest_false|].
  apply honest_bind. intros so. apply honest_bind. intros sn. set (sec := _ && _). clearbody sec.
  assert (∀ g, honest (Some (true, g)) ∨ g = []) as Htrue.
  { intros [|e g]; [by right|left]. by intros b g' [= <- <-]. }
  apply honest_next; [destruct sec; eauto with honest| |exact Htrue]. cbn [negb andb].
  apply honest_next; [eauto with honest| |exact Htrue]. cbn [negb andb].
  apply honest_next; [destruct sec; eauto with honest| |exact Htrue]. cbn [negb]. eauto with honest.
Qed.

(** The table a name is resolved against comes from one place. Started
    on an empty table, [InitElfSymbolResolver] fails exactly when [libart.so]
    is not mapped; otherwise it leaves either no symbols or exactly those that
    one parser read from one of the four files, never a mixture of several. *)
Theorem InitElfSymbolResolver_one_table km1 km2 vm ma fuel lines memory om b g :
  InitElfSymbolResolver km1 km2 vm ma fuel lines memory om [] = Some (b, g) →
  (b = false ↔ FindLibraryInfo (lit "libart.so") lines = None) ∧
  (g = [] ∨ ∃ path load_bias, TryLoadFromFile km1 km2 vm ma fuel om path load_bias [] = Some (true, g) ∧ g ≠ []).
Proof.
  unfold InitElfSymbolResolver. destruct (FindLibraryInfo (lit "libart.so") lines) as [[base primary]|].
  2: { intros [= <- <-]. split; [done|by left]. }
  set (m := memory base). destruct (e_phnum m) as [n|]; [|done]. destruct (e_phoff m) as [off|]; [|done].
  destruct (e_phentsize m) as [sz|]; [|done]. cbn [mbind option_bind].
  destruct (load_bias_loop (Z.to_nat n) m off sz base) as [lb|]; [|done]. cbn [mbind option_bind].
  generalize [primary; lit "/apex/com.android.art/debug/lib64/libart.so";
    lit "/apex/com.android.art/lib64/libart.so"; lit "/system/lib64/libart.so"]. intros paths.
  induction paths as [|path paths IH]; cbn [load_paths].
  { intros [= <- <-]. split; [done|by left]. }
  destruct (_ || _); [|apply IH].
  destruct (TryLoadFromFile km1 km2 vm ma fuel om path lb []) as [[ok g1]|] eqn:E; [|done]. cbn [mbind option_bind].
  pose proof (TryLoadFromFile_honest km1 km2 vm ma fuel om path lb ok g1 E) as Hok.
  destruct g1 as [|e g1]; cbn in Hok; subst ok; [apply IH|].
  intros [= <- <-]. split; [done|]. right. exists path, lb. done.
Qed.

(** [libart.so] mapped at 0x7000 with the small image as its file. *)
Definition demo_maps : list (list Z) :=
  [lit "7000-8000 r--p 00000000 fd:00 12  /system/lib64/libart.so" ++ [10]].

Lemma InitElfSymbolResolver_one_table_witness :
  let open_map p := if bool_decide (p = lit "/system/lib64/libart.so") then Some (demo_image 24) else None in
  let r := InitElfSymbolResolver (λ _, true) (λ _, true) (λ _, None) (λ _, None) 1 demo_maps (λ _, demo_image 24) open_map [] in
  r = Some (true, [mk_sym (lit "foo") 0x8000]) ∧
  (∃ path load_bias, TryLoadFromFile (λ _, true) (λ _, true) (λ _, None) (λ _, None) 1 open_map path load_bias [] =
     Some (true, [mk_sym (lit "foo") 0x8000])).
Proof.
  intros open_map r. assert (r = Some (true, [mk_sym (lit "foo") 0x8000])) as Hr by (vm_compute; reflexivity).
  split; [exact Hr|].
  destruct (InitElfSymbolResolver_one_table (λ _, true) (λ _, true) (λ _, None) (λ _, None) 1 demo_maps (λ _, demo_image 24) open_map
    true [mk_sym (lit "foo") 0x8000] Hr) as [_ [H|(path & lb & H & _)]]; [discriminate H|].
  exists path, lb. exact H.
Defined.

End ElfResolver.
