(* ===== verification/QjsList.v ===== *)
(** * Intrusive doubly linked lists ([quickjs/list.h])

    The circular lists that link the objects of the JS engine. Nodes live in a
    store of [struct list_head], a pointer is its address and 0 is [NULL]; the
    operations are the stores of the C code in their order, so that aliased
    arguments (an empty list, whose head is its own neighbour) are covered.
    An access to an address without a node is [None]. *)

From stdpp Require Import gmap.
From S2P Require Import Prelude.

#[local] Set Warnings "-clear-no-such-hyp".

Module QjsList.

Record list_head : Set := mk_list_head { prev : Z; next : Z }.

Abbreviation heap := (gmap Z list_head).

Definition set_prev (h : heap) (p v : Z) : option heap :=
  n ← h !! p; Some (<[p := mk_list_head v (next n)]> h).
Definition set_next (h : heap) (p v : Z) : option heap :=
  n ← h !! p; Some (<[p := mk_list_head (prev n) v]> h).

Definition init_list_head (h : heap) (head : Z) : option heap :=
  h ← set_prev h head head; set_next h head head.

Definition list_empty (h : heap) (el : Z) : option bool := n ← h !! el; Some (next n =? el).

Definition __list_add (h : heap) (el prv nxt : Z) : option heap :=
  h ← set_next h prv el;
  h ← set_prev h el prv;
  h ← set_next h el nxt;
  set_prev h nxt el.

Definition list_add (h : heap) (el head : Z) : option heap :=
  n ← h !! head; __list_add h el head (next n).

Definition list_add_tail (h : heap) (el head : Z) : option heap :=
  n ← h !! head; __list_add h el (prev n) head.

Definition list_splice (h : heap) (list head : Z) : option heap :=
  e ← list_empty h list;
  if (e : bool) then Some h
  else
    l ← h !! list;
    let a := next l in
    let b := prev l in
    hd ← h !! head;
    let c := next hd in
    h ← set_next h head a;
    h ← set_prev h a head;
    h ← set_next h b c;
    set_prev h c b.

Definition list_del (h : heap) (el : Z) : option heap :=
  n ← h !! el;
  let prv := prev n in
  let nxt := next n in
  h ← set_next h prv nxt;
  h ← set_prev h nxt prv;
  h ← set_prev h el 0;
  set_next h el 0.

(** [list_for_each] and [list_for_each_prev]: the elements visited; [n] is
    fuel. *)
Fixpoint each_loop (n : nat) (step : list_head → Z) (h : heap) (el head : Z) : option (list Z) :=
  match n with
  | O => None
  | S n =>
      if el =? head then Some []
      else nd ← h !! el; l ← each_loop n step h (step nd) head; Some (el :: l)
  end.

Definition list_for_each (fuel : nat) (h : heap) (head : Z) : option (list Z) :=
  n ← h !! head; each_loop fuel next h (next n) head.

Definition list_for_each_prev (fuel : nat) (h : heap) (head : Z) : option (list Z) :=
  n ← h !! head; each_loop fuel prev h (prev n) head.

(** ** Fields and stores *)

Definition nx (h : heap) (p : Z) : option Z := next <$> h !! p.
Definition pv (h : heap) (p : Z) : option Z := prev <$> h !! p.

Lemma nx_valid h p v : nx h p = Some v → ∃ n, h !! p = Some n ∧ next n = v.
Proof. unfold nx. destruct (h !! p) as [n|]; cbn; [intros [= <-]; eauto|done]. Qed.
Lemma pv_valid h p v : pv h p = Some v → ∃ n, h !! p = Some n ∧ prev n = v.
Proof. unfold pv. destruct (h !! p) as [n|]; cbn; [intros [= <-]; eauto|done]. Qed.

(** A node exists when one of its fields can be read. *)
Definition valid (h : heap) (p : Z) : Prop := is_Some (h !! p).
Lemma nx_is h p v : nx h p = Some v → valid h p.
Proof. intros H. destruct (nx_valid _ _ _ H) as (n & ? & _). by exists n. Qed.
Lemma pv_is h p v : pv h p = Some v → valid h p.
Proof. intros H. destruct (pv_valid _ _ _ H) as (n & ? & _). by exists n. Qed.
#[local] Hint Resolve nx_is pv_is : core.

Lemma set_next_ok h p v :
  valid h p →
  ∃ h', set_next h p v = Some h' ∧ (∀ x, nx h' x = if decide (x = p) then Some v else nx h x) ∧
    (∀ x, pv h' x = pv h x) ∧ (∀ x, valid h' x ↔ valid h x).
Proof.
  intros [n E]. unfold set_next, nx, pv, valid. rewrite E. cbn [mbind option_bind]. eexists. split; [done|].
  split_and!; intros x; (destruct (decide (x = p)) as [->|Hne];
    [rewrite lookup_insert_eq, ?E|rewrite lookup_insert_ne by done]); done.
Qed.

Lemma set_prev_ok h p v :
  valid h p →
  ∃ h', set_prev h p v = Some h' ∧ (∀ x, pv h' x = if decide (x = p) then Some v else pv h x) ∧
    (∀ x, nx h' x = nx h x) ∧ (∀ x, valid h' x ↔ valid h x).
Proof.
  intros [n E]. unfold set_prev, nx, pv, valid. rewrite E. cbn [mbind option_bind]. eexists. split; [done|].
  split_and!; intros x; (destruct (decide (x = p)) as [->|Hne];
    [rewrite lookup_insert_eq, ?E|rewrite lookup_insert_ne by done]); done.
Qed.

(** Stores do not create or remove nodes. *)
Ltac is_valid :=
  repeat match goal with H : ∀ x, valid ?h x ↔ _ |- valid ?h _ => apply H end; eauto.

(** Run the next store of the goal. *)
Ltac store :=
  match goal with
  | |- context [set_next ?h ?p ?v] =>
      let h' := fresh "h" in let N := fresh "N" in let P := fresh "P" in let V := fresh "V" in
      destruct (set_next_ok h p v) as (h' & -> & N & P & V);
      [is_valid|cbn [mbind option_bind]]
  | |- context [set_prev ?h ?p ?v] =>
      let h' := fresh "h" in let N := fresh "N" in let P := fresh "P" in let V := fresh "V" in
      destruct (set_prev_ok h p v) as (h' & -> & P & N & V);
      [is_valid|cbn [mbind option_bind]]
  end.

(** ** The represented sequence *)

(** [a] is followed by [els] and then [b], linked both ways. *)
Fixpoint lseg (h : heap) (a : Z) (els : list Z) (b : Z) : Prop :=
  match els with
  | [] => nx h a = Some b ∧ pv h b = Some a
  | x :: els => nx h a = Some x ∧ pv h x = Some a ∧ lseg h x els b
  end.

Record is_list (h : heap) (head : Z) (els : list Z) : Prop := {
  il_seg : lseg h head els head;
  il_nodup : NoDup (head :: els)
}.

Lemma lseg_app h a l1 x l2 b : lseg h a (l1 ++ x :: l2) b ↔ lseg h a l1 x ∧ lseg h x l2 b.
Proof.
  revert a. induction l1 as [|y l1 IH]; intros a; cbn; [tauto|]. rewrite IH. tauto.
Qed.

(** The fields a segment depends on: [next] of all but [b], [prev] of all but
    [a]. *)
Lemma lseg_frame h h' a els b :
  (∀ x, x ∈ a :: els → nx h' x = nx h x) → (∀ x, x ∈ els ++ [b] → pv h' x = pv h x) →
  lseg h a els b → lseg h' a els b.
Proof.
  revert a. induction els as [|y els IH]; intros a Hn Hp; cbn.
  - rewrite Hn, Hp by (cbn; apply elem_of_cons; by left). done.
  - intros (H1 & H2 & H3). rewrite Hn, Hp by (cbn; apply elem_of_cons; by left). split_and!; try done.
    apply IH; [| |done]; intros x Hx; [apply Hn|apply Hp]; cbn; apply elem_of_cons; by right.
Qed.

(** First and last links of a segment. *)
Lemma lseg_first h a els b : lseg h a els b → nx h a = Some (default b (head els)).
Proof. destruct els; cbn; tauto. Qed.
Lemma lseg_last h a els b : lseg h a els b → pv h b = Some (default a (last els)).
Proof.
  revert a. induction els as [|x els IH]; intros a; cbn; [tauto|]. intros (_ & _ & H).
  rewrite (IH _ H), last_cons. by destruct (last els).
Qed.
Lemma lseg_valid h a els b x : lseg h a els b → x ∈ a :: els → valid h x.
Proof.
  revert a. induction els as [|y els IH]; intros a; cbn.
  - intros [H _]. rewrite elem_of_cons, elem_of_nil. intros [->|[]]. eauto.
  - intros (H1 & _ & H3). rewrite elem_of_cons. intros [->|Hx]; eauto.
Qed.

(** ** Insertion *)

Lemma __list_add_ok h el p n :
  valid h el → valid h p → valid h n → el ≠ p → el ≠ n →
  ∃ h', __list_add h el p n = Some h' ∧
    (∀ x, nx h' x = if decide (x = el) then Some n else if decide (x = p) then Some el else nx h x) ∧
    (∀ x, pv h' x = if decide (x = n) then Some el else if decide (x = el) then Some p else pv h x) ∧
    (∀ x, valid h' x ↔ valid h x).
Proof.
  intros Hel Hp Hn Ep En. unfold __list_add. do 3 store. store.
  eexists. split; [done|]. split_and!; intros x.
  - rewrite N2, N1, N0, N. done.
  - rewrite P2, P1, P0, P. done.
  - by rewrite V2, V1, V0, V.
Qed.

(** Contradictions between memberships; everything else is cleared first. *)
Ltac distinct :=
  exfalso;
  repeat match goal with
  | H : lseg _ _ _ _ |- _ => clear H
  | H : ∀ _, _ = _ |- _ => clear H
  | H : _ = Some _ |- _ => clear H
  | H : valid _ _ |- _ => clear H
  | H : is_list _ _ _ |- _ => clear H
  end;
  rewrite ?NoDup_cons, ?NoDup_app, ?elem_of_cons, ?elem_of_app, ?elem_of_cons, ?elem_of_nil in *;
  set_solver.

(** A segment of nodes whose fields were not stored to. *)
Ltac frame_seg :=
  match goal with
  | H : lseg ?h ?a ?l ?b |- lseg _ ?a ?l ?b =>
      apply (lseg_frame h _ a l b); [..|exact H];
      let x := fresh "x" in let Hx := fresh "Hx" in intros x Hx;
      rewrite ?elem_of_cons, ?elem_of_app, ?elem_of_cons, ?elem_of_nil in Hx;
      repeat match goal with H : ∀ y, _ = _ |- _ => rewrite H end;
      repeat case_decide; subst; try done; distinct
  end.

(** Evaluate a field after stores; the addresses are told apart by [set_solver]. *)
Ltac field :=
  repeat match goal with H : ∀ y, _ = _ |- _ => rewrite H end;
  repeat case_decide; subst; try done; distinct.

Lemma node_ext h h' x : nx h' x = nx h x → pv h' x = pv h x → h' !! x = h !! x.
Proof.
  unfold nx, pv. destruct (h' !! x) as [[]|], (h !! x) as [[]|]; cbn; intros; simplify_eq; done.
Qed.

(** What an operation on [els] leaves alone. *)
Definition untouched (h h' : heap) (nodes : list Z) : Prop := ∀ x, x ∉ nodes → h' !! x = h !! x.

Lemma list_add_ok h el hd els :
  is_list h hd els → valid h el → el ∉ hd :: els →
  ∃ h', list_add h el hd = Some h' ∧ is_list h' hd (el :: els) ∧ untouched h h' (hd :: el :: els).
Proof.
  intros [Hs Hnd] Hel Hni. unfold list_add.
  destruct (nx_valid _ _ _ (lseg_first _ _ _ _ Hs)) as (n & -> & En). cbn [mbind option_bind].
  assert (next n ∈ hd :: els) as Hin by (rewrite En; destruct els; cbn; set_solver).
  destruct (__list_add_ok h el hd (next n)) as (h' & E & N & P & _);
    [done|by eapply lseg_valid; [done|set_solver]|by eapply lseg_valid|set_solver|set_solver|].
  exists h'. split; [exact E|]. rewrite NoDup_cons in Hnd. split.
  - split; [|rewrite !NoDup_cons; set_solver]. destruct els as [|y els]; cbn in *.
    + rewrite En in *. split_and!; field.
    + destruct Hs as (H1 & H2 & H3). rewrite NoDup_cons in Hnd. rewrite En in *.
      split_and!; [field..|]. frame_seg.
  - intros x Hx. apply node_ext; field.
Qed.

Lemma list_add_tail_ok h el hd els :
  is_list h hd els → valid h el → el ∉ hd :: els →
  ∃ h', list_add_tail h el hd = Some h' ∧ is_list h' hd (els ++ [el]) ∧ untouched h h' (hd :: el :: els).
Proof.
  intros [Hs Hnd] Hel Hni. unfold list_add_tail.
  destruct (pv_valid _ _ _ (lseg_last _ _ _ _ Hs)) as (n & -> & En). cbn [mbind option_bind].
  destruct els as [|y els _] using rev_ind.
  - cbn in *. destruct (__list_add_ok h el (prev n) hd) as (h' & E & N & P & _);
      [done|rewrite En; destruct Hs; eauto|destruct Hs; eauto|set_solver|set_solver|].
    exists h'. split; [exact E|]. rewrite En in *. split.
    + split; [cbn; split_and!; field|].
      cbn. rewrite !NoDup_cons. split_and!; [set_solver|set_solver|by apply NoDup_nil].
    + intros x Hx. apply node_ext; field.
  - rewrite last_snoc in En. cbn in En. apply lseg_app in Hs as [Hs1 [Hs2 Hs3]].
    rewrite NoDup_cons, NoDup_app, NoDup_cons in Hnd. rewrite En in *.
    destruct (__list_add_ok h el y hd) as (h' & E & N & P & _);
      [done|eauto|eauto|set_solver|set_solver|].
    exists h'. split; [exact E|]. split.
    + split.
      * rewrite <- app_assoc. cbn. rewrite lseg_app. cbn. split; [frame_seg|]. split_and!; field.
      * rewrite NoDup_cons, !NoDup_app, !NoDup_cons. split_and!; try apply Hnd; try apply NoDup_nil; set_solver.
    + intros x Hx. apply node_ext; field.
Qed.

(** ** Deletion *)

Lemma list_del_fields h el p n :
  nx h el = Some n → pv h el = Some p → valid h p → valid h n → el ≠ p → el ≠ n →
  ∃ h', list_del h el = Some h' ∧
    (∀ x, nx h' x = if decide (x = el) then Some 0 else if decide (x = p) then Some n else nx h x) ∧
    (∀ x, pv h' x = if decide (x = el) then Some 0 else if decide (x = n) then Some p else pv h x).
Proof.
  intros Hn Hp Vp Vn Ep En. unfold list_del.
  destruct (nx_valid _ _ _ Hn) as (nd & E & E1). destruct (pv_valid _ _ _ Hp) as (nd' & E' & E2).
  rewrite E in E'. simplify_eq. rewrite E. cbn [mbind option_bind].
  assert (valid h el) by eauto. store. store. store. store.
  eexists. split; [done|]. split; intros x.
  - by rewrite N2, N1, N0, N.
  - by rewrite P2, P1, P0, P.
Qed.

Lemma list_del_ok h hd l1 el l2 :
  is_list h hd (l1 ++ el :: l2) →
  ∃ h', list_del h el = Some h' ∧ is_list h' hd (l1 ++ l2) ∧ h' !! el = Some (mk_list_head 0 0) ∧
    untouched h h' (hd :: l1 ++ el :: l2).
Proof.
  intros [Hs Hnd]. pose proof Hs as Hs'. apply lseg_app in Hs' as [Hs1 Hs2].
  set (p := default hd (last l1)). set (n := default hd (head l2)).
  assert (p ∈ hd :: l1) as Hp by (subst p; destruct l1 using rev_ind; [|rewrite last_snoc]; set_solver).
  assert (n ∈ hd :: l2) as Hn by (subst n; destruct l2; cbn; set_solver).
  rewrite NoDup_cons, NoDup_app, NoDup_cons in Hnd.
  destruct (list_del_fields h el p n) as (h' & E & N & P).
  - by rewrite (lseg_first _ _ _ _ Hs2).
  - by rewrite (lseg_last _ _ _ _ Hs1).
  - eapply lseg_valid; [exact Hs|set_solver].
  - eapply lseg_valid; [exact Hs|set_solver].
  - set_solver.
  - set_solver.
  - exists h'. split; [done|]. split_and!.
    + split.
      2: { rewrite NoDup_cons, NoDup_app. set_solver. }
      destruct l1 as [|y l1 _] using rev_ind; destruct l2 as [|z l2]; subst p n; cbn in *.
      * split; field.
      * destruct Hs2 as (H1 & H2 & H3). split_and!; [field..|]. frame_seg.
      * rewrite app_nil_r. rewrite last_snoc in *. apply lseg_app in Hs1 as [Hs1 [H1 H2]]. cbn in *.
        rewrite lseg_app. cbn. split; [frame_seg|]. split; field.
      * rewrite last_snoc in *. apply lseg_app in Hs1 as [Hs1 [H1 H2]]. destruct Hs2 as (H3 & H4 & H5). cbn in *.
        rewrite <- app_assoc. cbn. rewrite lseg_app. cbn. split; [frame_seg|]. split_and!; [field..|]. frame_seg.
    + assert (nx h' el = Some 0) as H1 by field. assert (pv h' el = Some 0) as H2 by field.
      destruct (nx_valid _ _ _ H1) as ([] & E1 & E2). destruct (pv_valid _ _ _ H2) as ([] & E3 & E4).
      cbn in *. congruence.
    + intros x Hx. apply node_ext; field.
Qed.

(** ** Splicing *)

Lemma list_splice_fields h lst hd a b c :
  nx h lst = Some a → pv h lst = Some b → nx h hd = Some c → a ≠ lst →
  valid h a → valid h b → valid h c →
  ∃ h', list_splice h lst hd = Some h' ∧
    (∀ x, nx h' x = if decide (x = b) then Some c else if decide (x = hd) then Some a else nx h x) ∧
    (∀ x, pv h' x = if decide (x = c) then Some b else if decide (x = a) then Some hd else pv h x).
Proof.
  intros Ha Hb Hc Hne Va Vb Vc. unfold list_splice, list_empty.
  destruct (nx_valid _ _ _ Ha) as (n1 & E1 & E1'). destruct (pv_valid _ _ _ Hb) as (n1' & E2 & E2').
  destruct (nx_valid _ _ _ Hc) as (n2 & E3 & E3').
  assert (n1' = n1) as -> by congruence. rewrite E1. cbn [mbind option_bind].
  rewrite E1', (proj2 (Z.eqb_neq _ _)) by done. rewrite E3. cbn [mbind option_bind]. rewrite E2', E3'.
  assert (valid h hd) by eauto. store. store. store. store.
  eexists. split; [done|]. split; intros x.
  - by rewrite N2, N1, N0, N.
  - by rewrite P2, P1, P0, P.
Qed.

Lemma list_splice_ok h lst hd els1 els2 :
  is_list h lst els1 → is_list h hd els2 → NoDup (lst :: els1 ++ hd :: els2) →
  ∃ h', list_splice h lst hd = Some h' ∧ is_list h' hd (els1 ++ els2) ∧ untouched h h' (hd :: els1 ++ els2).
Proof.
  intros [Hs1 _] [Hs2 _] Hnd. destruct els1 as [|b m _] using rev_ind.
  { destruct Hs1 as [H1 _]. destruct (nx_valid _ _ _ H1) as (n & E & En).
    unfold list_splice, list_empty. rewrite E. cbn. rewrite En, Z.eqb_refl.
    exists h. split_and!; [done| |done]. split; [done|]. by apply NoDup_cons in Hnd as [_ ?]. }
  pose proof (lseg_first _ _ _ _ Hs1) as Ha. pose proof (lseg_first _ _ _ _ Hs2) as Hc.
  apply lseg_app in Hs1 as [Hs1 [Hb1 Hb2]].
  set (c := default hd (head els2)) in *.
  assert (c ∈ hd :: els2) as Hcin by (subst c; destruct els2; cbn; set_solver).
  assert (∃ a, head (m ++ [b]) = Some a ∧ a ∈ m ++ [b]) as (a & Ea & Hain)
    by (destruct m; cbn; eexists; (split; [done|]); set_solver).
  rewrite Ea in Ha. cbn in Ha.
  assert (∀ x, x ∈ m ++ [b] → valid h x) as Hv.
  { intros x Hx. apply elem_of_app in Hx as [Hx|Hx]; [eapply lseg_valid; [exact Hs1|set_solver]|].
    apply elem_of_cons in Hx as [->|Hx]; [eauto|by apply elem_of_nil in Hx]. }
  destruct (list_splice_fields h lst hd a b c) as (h' & E & N & P); try done.
  - rewrite NoDup_cons in Hnd. set_solver.
  - auto.
  - apply Hv. set_solver.
  - by eapply lseg_valid.
  - apply NoDup_cons in Hnd as [_ Hnd]. apply NoDup_app in Hnd as (Nd1 & Nd2 & Nd3).
    apply NoDup_cons in Nd3 as [Nd3 Nd4].
    assert (NoDup (hd :: (m ++ [b]) ++ els2)) as Hnew
      by (rewrite NoDup_cons, (NoDup_app (m ++ [b])); set_solver).
    assert ((b ∉ hd :: els2) ∧ (a ∉ hd :: els2)) as [Db Da] by (split; apply Nd2; set_solver).
    assert ((c ∉ m ++ [b]) ∧ (hd ∉ m ++ [b])) as [Dc Dh] by (split; intros Hin; apply (Nd2 _ Hin); set_solver).
    clear Hv Nd2. exists h'. split; [done|]. split; [split|].
    + rewrite <- app_assoc. cbn. rewrite lseg_app. clear Hnew. split.
      * destruct m as [|a' m]; cbn in Ea; injection Ea as ->; [cbn; split; field|].
        destruct Hs1 as (H1 & H2 & H3). cbn [app] in Nd1. apply NoDup_cons in Nd1 as [Fa Nd1].
        apply NoDup_app in Nd1 as (_ & Fb & _).
        assert (b ∉ a :: m) as Fb' by (intros [->|Hin]%elem_of_cons; [|apply (Fb b Hin)]; set_solver).
        clear - N P H3 Dh Dc Fa Fb' Db. cbn [lseg]. split_and!; [field|field|].
        apply (lseg_frame h _ a m b); [intros x Hx; rewrite N|intros x Hx; rewrite P|exact H3];
          rewrite !decide_False; [done|set_solver..].
      * destruct els2 as [|c' els2]; subst c; cbn in *; [split; field|].
        destruct Hs2 as (H1 & H2 & H3). apply NoDup_cons in Nd4 as [Nd4 _].
        clear - N P H3 Nd3 Nd4 Da Db Dc. split_and!; [field|field|].
        apply (lseg_frame h _ c' els2 hd); [intros x Hx; rewrite N|intros x Hx; rewrite P|exact H3];
          rewrite !decide_False; [done|set_solver..].
    + done.
    + intros x Hx. apply node_ext; field.
Qed.

(** ** Traversal *)

Lemma each_next h a els b n :
  lseg h a els b → b ∉ els → (length els < n)%nat →
  each_loop n next h (default b (head els)) b = Some els.
Proof.
  revert a n. induction els as [|x els IH]; intros a n Hs Hb Hn; (destruct n as [|n]; [cbn in Hn; lia|]); cbn.
  - by rewrite Z.eqb_refl.
  - destruct Hs as (_ & _ & Hs). rewrite (proj2 (Z.eqb_neq _ _)) by set_solver.
    destruct (nx_valid _ _ _ (lseg_first _ _ _ _ Hs)) as (nd & -> & E). cbn. rewrite E.
    rewrite (IH x) by (done || set_solver || cbn in Hn; lia). done.
Qed.

Lemma each_prev h a els b n :
  lseg h a els b → a ∉ els → (length els < n)%nat →
  each_loop n prev h (default a (last els)) a = Some (reverse els).
Proof.
  revert b n. induction els as [|x els IH] using rev_ind; intros b n Hs Ha Hn; (destruct n as [|n]; [cbn in Hn; lia|]).
  - cbn. by rewrite Z.eqb_refl.
  - rewrite last_snoc, reverse_snoc. rewrite length_app in Hn. cbn in *.
    apply lseg_app in Hs as [Hs _]. rewrite (proj2 (Z.eqb_neq _ _)) by set_solver.
    destruct (pv_valid _ _ _ (lseg_last _ _ _ _ Hs)) as (nd & -> & E). cbn. rewrite E.
    rewrite (IH x) by (done || set_solver || lia). done.
Qed.

(** ** The operations together *)

Lemma init_list_head_ok h hd : valid h hd →
  ∃ h', init_list_head h hd = Some h' ∧ is_list h' hd [] ∧ untouched h h' [hd].
Proof.
  intros Hv. unfold init_list_head. store. store. eexists. split; [done|]. split.
  - split; [cbn; split; field|]. apply NoDup_cons. split; [apply not_elem_of_nil|by apply NoDup_nil].
  - intros x Hx. apply node_ext; field.
Qed.

Lemma list_empty_ok h hd els : is_list h hd els → list_empty h hd = Some (bool_decide (els = [])).
Proof.
  intros [Hs Hnd]. destruct (nx_valid _ _ _ (lseg_first _ _ _ _ Hs)) as (nd & E & En).
  unfold list_empty. rewrite E. cbn. rewrite En. apply NoDup_cons in Hnd as [Hne _].
  destruct els as [|y els]; cbn; [by rewrite Z.eqb_refl|]. rewrite (proj2 (Z.eqb_neq _ _)); [done|]. set_solver.
Qed.

Lemma list_each_ok h hd els fuel : is_list h hd els → (length els < fuel)%nat →
  list_for_each fuel h hd = Some els ∧ list_for_each_prev fuel h hd = Some (reverse els).
Proof.
  intros [Hs Hnd] Hf. apply NoDup_cons in Hnd as [Hhd _]. unfold list_for_each, list_for_each_prev. split.
  - destruct (nx_valid _ _ _ (lseg_first _ _ _ _ Hs)) as (nd & E & En).
    rewrite E. cbn. rewrite En. by eapply each_next.
  - destruct (pv_valid _ _ _ (lseg_last _ _ _ _ Hs)) as (nd & E & En).
    rewrite E. cbn. rewrite En. by eapply each_prev.
Qed.

(** C19: the pointer operations of [list.h] refine operations on sequences,
    the empty one included (its head is then its own neighbour).
    [init_list_head] makes any node the head of an empty list; on every
    well-formed list with elements [els], [list_add] and [list_add_tail] put a
    node that is not in the list in front or behind, [list_del] removes
    exactly the given element and clears its links, [list_empty] tests for the
    empty sequence, forward and backward traversal visit the elements in order
    and in reverse and end, and [list_splice] puts the elements of another,
    disjoint list in front. All keep the list well-formed and change no node
    outside the lists they are given. *)
Theorem list_ops_refine h :
  (∀ hd, valid h hd → ∃ h', init_list_head h hd = Some h' ∧ is_list h' hd [] ∧ untouched h h' [hd]) ∧
  ∀ hd els, is_list h hd els →
  (∀ el, valid h el → el ∉ hd :: els →
    (∃ h', list_add h el hd = Some h' ∧ is_list h' hd (el :: els) ∧ untouched h h' (hd :: el :: els)) ∧
    (∃ h', list_add_tail h el hd = Some h' ∧ is_list h' hd (els ++ [el]) ∧ untouched h h' (hd :: el :: els))) ∧
  (∀ l1 x l2, els = l1 ++ x :: l2 →
    ∃ h', list_del h x = Some h' ∧ is_list h' hd (l1 ++ l2) ∧ h' !! x = Some (mk_list_head 0 0) ∧
      untouched h h' (hd :: els)) ∧
  (∀ lst els2, is_list h lst els2 → NoDup (lst :: els2 ++ hd :: els) →
    ∃ h', list_splice h lst hd = Some h' ∧ is_list h' hd (els2 ++ els) ∧ untouched h h' (hd :: els2 ++ els)) ∧
  list_empty h hd = Some (bool_decide (els = [])) ∧
  (∀ fuel, (length els < fuel)%nat →
    list_for_each fuel h hd = Some els ∧ list_for_each_prev fuel h hd = Some (reverse els)).
Proof.
  split; [intros hd; apply init_list_head_ok|]. intros hd els Hl. split; [|split; [|split; [|split]]].
  - intros el Hel Hni. split; [by apply list_add_ok|by apply list_add_tail_ok].
  - intros l1 x l2 ->. by apply list_del_ok.
  - intros lst els2 Hl2 Hnd. by apply list_splice_ok.
  - by apply list_empty_ok.
  - intros fuel Hf. by apply list_each_ok.
Qed.

(** Two lists with heads 1 and 10, an empty list with head 20 and a free
    node 7. *)
Definition demo_heap : heap :=
  list_to_map [(1, mk_list_head 3 2); (2, mk_list_head 1 3); (3, mk_list_head 2 1);
               (7, mk_list_head 0 0); (10, mk_list_head 11 11); (11, mk_list_head 10 10);
               (20, mk_list_head 20 20)].

Lemma list_ops_refine_witness :
  (∃ h', list_splice demo_heap 10 1 = Some h' ∧ is_list h' 1 [11; 2; 3]) ∧
  (∃ h', list_splice demo_heap 10 20 = Some h' ∧ is_list h' 20 [11]) ∧
  (∃ h', list_add_tail demo_heap 7 20 = Some h' ∧ is_list h' 20 [7]) ∧
  list_for_each 1 demo_heap 20 = Some [].
Proof.
  destruct (list_ops_refine demo_heap) as [_ H].
  assert (is_list demo_heap 10 [11]) as L10 by (split; [by vm_compute|]; apply (bool_decide_unpack _); by vm_compute).
  assert (is_list demo_heap 1 [2; 3]) as L1 by (split; [by vm_compute|]; apply (bool_decide_unpack _); by vm_compute).
  assert (is_list demo_heap 20 []) as L20 by (split; [by vm_compute|]; apply (bool_decide_unpack _); by vm_compute).
  destruct (H 1 [2; 3] L1) as (_ & _ & S1 & _). destruct (H 20 [] L20) as (A & _ & S2 & _ & E).
  split; [|split; [|split]].
  - destruct (S1 10 [11] L10) as (h' & E1 & E2 & _); [apply (bool_decide_unpack _); by vm_compute|].
    exists h'. split; [exact E1|exact E2].
  - destruct (S2 10 [11] L10) as (h' & E1 & E2 & _); [apply (bool_decide_unpack _); by vm_compute|].
    exists h'. split; [exact E1|exact E2].
  - destruct (A 7) as [_ (h' & E1 & E2 & _)]; [by eexists|apply (bool_decide_unpack _); by vm_compute|].
    exists h'. split; [exact E1|exact E2].
  - apply E. cbn. lia.
Defined.

End QjsList.
