(* ===== verification/Cutils.v ===== *)
(** * C utilities of the JS engine ([quickjs/cutils.c], [cutils.h])

    Bounded string copies, the dynamic buffer, UTF-8 and byte order. A C
    string is the list of its bytes from the pointer on, up to and beyond its
    terminator; an access outside an object is [None]. *)

From S2P Require Import Prelude.

Module Cutils.

(** ** Strings *)

(** [q] is the index of the write position, [last] that of the last byte. *)
Fixpoint pstrcpy_loop (str buf : list Z) (q last : Z) : option (list Z) :=
  match str with
  | [] => None
  | c :: str =>
      if (c =? 0) || (last <=? q) then aset buf q 0
      else buf ← aset buf q c; pstrcpy_loop str buf (q + 1) last
  end.

Definition pstrcpy (buf : list Z) (buf_size : Z) (str : list Z) : option (list Z) :=
  if buf_size <=? 0 then Some buf else pstrcpy_loop str buf 0 (buf_size - 1).

(** [strlen] of the C library. *)
Fixpoint strlen (str : list Z) : option Z :=
  match str with
  | [] => None
  | c :: str => if c =? 0 then Some 0 else n ← strlen str; Some (n + 1)
  end.

Definition pstrcat (buf : list Z) (buf_size : Z) (s : list Z) : option (list Z) :=
  n ← strlen buf;
  let len := s32 n in
  if len <? buf_size then
    tail ← pstrcpy (drop (Z.to_nat len) buf) (buf_size - len) s;
    Some (take (Z.to_nat len) buf ++ tail)
  else Some buf.

(** The result is the rest of [str] behind [val], which is stored in [*ptr]. *)
Fixpoint strstart (str val : list Z) {struct val} : option (option (list Z)) :=
  match val with
  | [] => None
  | q :: val' =>
      if q =? 0 then Some (Some str)
      else
        match str with
        | [] => None
        | p :: str' => if p =? q then strstart str' val' else Some None
        end
  end.

Definition has_suffix (str suffix : list Z) : option bool :=
  len ← strlen str;
  slen ← strlen suffix;
  if slen <=? len then
    a ← slice str (len - slen) slen;
    b ← slice suffix 0 slen;
    Some (bool_decide (a = b))
  else Some false.

(** ** Small inline functions of [cutils.h] *)

Definition max_int (a b : Z) : Z := if b <? a then a else b.
Definition min_int (a b : Z) : Z := if a <? b then a else b.
Definition max_uint32 (a b : Z) : Z := if b <? a then a else b.
Definition min_uint32 (a b : Z) : Z := if a <? b then a else b.
Definition max_int64 (a b : Z) : Z := if b <? a then a else b.
Definition min_int64 (a b : Z) : Z := if a <? b then a else b.

(** Unaligned little-endian loads and stores. *)
Definition get_u64 (tab : list Z) : option Z := b ← slice tab 0 8; Some (le_val b).
Definition get_i64 (tab : list Z) : option Z := v ← get_u64 tab; Some (s64 v).
Definition put_u64 (tab : list Z) (val : Z) : option (list Z) := splice tab 0 (le_bytes 8 val).
Definition get_u32 (tab : list Z) : option Z := b ← slice tab 0 4; Some (le_val b).
Definition get_i32 (tab : list Z) : option Z := v ← get_u32 tab; Some (s32 v).
Definition put_u32 (tab : list Z) (val : Z) : option (list Z) := splice tab 0 (le_bytes 4 val).
Definition get_u16 (tab : list Z) : option Z := b ← slice tab 0 2; Some (le_val b).
Definition get_i16 (tab : list Z) : option Z :=
  v ← get_u16 tab; Some (if v <? 2 ^ 15 then v else v - 2 ^ 16).
Definition put_u16 (tab : list Z) (val : Z) : option (list Z) := splice tab 0 (le_bytes 2 val).
Definition get_u8 (tab : list Z) : option Z := aget tab 0.
Definition get_i8 (tab : list Z) : option Z :=
  v ← get_u8 tab; Some (if v <? 2 ^ 7 then v else v - 2 ^ 8).
Definition put_u8 (tab : list Z) (val : Z) : option (list Z) := aset tab 0 (u8 val).

Definition bswap16 (x : Z) : Z := u16 ((x >> 8) .| (x << 8)).
Definition bswap32 (v : Z) : Z :=
  ((v .& 0xff000000) >> 24) .| ((v .& 0x00ff0000) >> 8) .|
  u32 ((v .& 0x0000ff00) << 8) .| u32 ((v .& 0x000000ff) << 24).
Definition bswap64 (v : Z) : Z :=
  ((v .& u64 (0xff << (7 * 8))) >> (7 * 8)) .|
  ((v .& u64 (0xff << (6 * 8))) >> (5 * 8)) .|
  ((v .& u64 (0xff << (5 * 8))) >> (3 * 8)) .|
  ((v .& u64 (0xff << (4 * 8))) >> (1 * 8)) .|
  u64 ((v .& u64 (0xff << (3 * 8))) << (1 * 8)) .|
  u64 ((v .& u64 (0xff << (2 * 8))) << (3 * 8)) .|
  u64 ((v .& u64 (0xff << (1 * 8))) << (5 * 8)) .|
  u64 ((v .& u64 (0xff << (0 * 8))) << (7 * 8)).

Definition from_hex (c : Z) : Z :=
  if (48 <=? c) && (c <=? 57) then c - 48
  else if (65 <=? c) && (c <=? 70) then c - 65 + 10
  else if (97 <=? c) && (c <=? 102) then c - 97 + 10
  else -1.

(** ** UTF-8 *)

(** A continuation byte with bits [k .. k+5] of [c]. *)
Definition cont (c k : Z) : Z := u8 (((c >> k) .& 0x3f) .| 0x80).

(** The bytes written; the empty list is the return value 0. *)
Definition unicode_to_utf8 (c : Z) : list Z :=
  if c <? 0x80 then [u8 c]
  else
    default []
      (p ←
         (if c <? 0x800 then Some [u8 ((c >> 6) .| 0xc0)]
          else
            p ←
              (if c <? 0x10000 then Some [u8 ((c >> 12) .| 0xe0)]
               else
                 p ←
                   (if c <? 0x00200000 then Some [u8 ((c >> 18) .| 0xf0)]
                    else
                      p ←
                        (if c <? 0x04000000 then Some [u8 ((c >> 24) .| 0xf8)]
                         else if c <? 0x80000000 then Some [u8 ((c >> 30) .| 0xfc); cont c 24]
                         else None);
                      Some (p ++ [cont c 18]));
                 Some (p ++ [cont c 12]));
            Some (p ++ [cont c 6]));
       Some (p ++ [cont c 0])).

Definition utf8_min_code : list Z := [0x80; 0x800; 0x10000; 0x00200000; 0x04000000].
Definition utf8_first_code_mask : list Z := [0x1f; 0xf; 0x7; 0x3; 0x1].

(** The [switch] on the first byte: the number of bytes that follow. *)
Definition utf8_len (c : Z) : option Z :=
  if (0xc0 <=? c) && (c <=? 0xdf) then Some 1
  else if (0xe0 <=? c) && (c <=? 0xef) then Some 2
  else if (0xf0 <=? c) && (c <=? 0xf7) then Some 3
  else if (0xf8 <=? c) && (c <=? 0xfb) then Some 4
  else if (0xfc <=? c) && (c <=? 0xfd) then Some 5
  else None.

(** The loop over the [l] continuation bytes; [Some None] is the return -1. *)
Fixpoint utf8_loop (l : nat) (p : list Z) (c : Z) : option (option Z) :=
  match l with
  | O => Some (Some c)
  | S l =>
      match p with
      | [] => None
      | b :: p =>
          if (b <? 0x80) || (0xc0 <=? b) then Some None
          else utf8_loop l p ((c << 6) .| (b .& 0x3f))
      end
  end.

(** Return value and the number of bytes [*pp] is advanced, 0 with -1. *)
Definition unicode_from_utf8 (p : list Z) (max_len : Z) : option (Z * Z) :=
  c ← aget p 0;
  if c <? 0x80 then Some (c, 1)
  else
    match utf8_len c with
    | None => Some (-1, 0)
    | Some l =>
        if max_len - 1 <? l then Some (-1, 0)
        else
          mask ← aget utf8_first_code_mask (l - 1);
          r ← utf8_loop (Z.to_nat l) (drop 1 p) (c .& mask);
          match r with
          | None => Some (-1, 0)
          | Some c =>
              lo ← aget utf8_min_code (l - 1);
              if c <? lo then Some (-1, 0) else Some (c, l + 1)
          end
    end.

(** ** Dynamic buffers *)

(** [buf] is the allocated block. *)
Record DynBuf : Set := mk_DynBuf {
  buf : list Z;
  size : Z;
  allocated_size : Z;
  error : bool
}.

Definition dbuf_init : DynBuf := mk_DynBuf [] 0 0 false.

Section realloc.
(** [realloc_func]: the block resized to [n] bytes, or [None]. *)
Variable realloc_func : list Z → Z → option (list Z).

(** Results are the return value, 0 or -1, and the buffer. *)
Definition dbuf_realloc (s : DynBuf) (new_size : Z) : Z * DynBuf :=
  if allocated_size s <? new_size then
    if error s then (-1, s)
    else
      let sz := u64 (allocated_size s * 3) / 2 in
      let new_size := if new_size <? sz then sz else new_size in
      match realloc_func (buf s) new_size with
      | None => (-1, mk_DynBuf (buf s) (size s) (allocated_size s) true)
      | Some nb => (0, mk_DynBuf nb (size s) new_size (error s))
      end
  else (0, s).

Definition dbuf_write (s : DynBuf) (offset : Z) (data : list Z) : option (Z * DynBuf) :=
  let end_ := u64 (offset + zlen data) in
  let '(r, s) := dbuf_realloc s end_ in
  if r =? 0 then
    nb ← splice (buf s) offset data;
    Some (0, mk_DynBuf nb (if size s <? end_ then end_ else size s) (allocated_size s) (error s))
  else Some (-1, s).

Definition dbuf_put (s : DynBuf) (data : list Z) : option (Z * DynBuf) :=
  let n := u64 (size s + zlen data) in
  let '(r, s) := if allocated_size s <? n then dbuf_realloc s n else (0, s) in
  if r =? 0 then
    nb ← splice (buf s) (size s) data;
    Some (0, mk_DynBuf nb (u64 (size s + zlen data)) (allocated_size s) (error s))
  else Some (-1, s).

(** [memcpy] between overlapping ranges is undefined. *)
Definition dbuf_put_self (s : DynBuf) (offset len : Z) : option (Z * DynBuf) :=
  let n := u64 (size s + len) in
  let '(r, s) := if allocated_size s <? n then dbuf_realloc s n else (0, s) in
  if r =? 0 then
    guard (¬ (offset < size s + len ∧ size s < offset + len));;
    data ← slice (buf s) offset len;
    nb ← splice (buf s) (size s) data;
    Some (0, mk_DynBuf nb (u64 (size s + len)) (allocated_size s) (error s))
  else Some (-1, s).

Definition dbuf_putc (s : DynBuf) (c : Z) : option (Z * DynBuf) := dbuf_put s [c].
Definition dbuf_putstr (s : DynBuf) (str : list Z) : option (Z * DynBuf) :=
  n ← strlen str; d ← slice str 0 n; dbuf_put s d.
(** [txt] is what [vsnprintf] makes of the format and its arguments, and [None]
    when it fails and returns -1; it writes at most [n - 1] bytes and a
    terminator into a buffer of [n]. *)
Definition vsnprintf (txt : option (list Z)) (b : list Z) (off n : Z) : option (list Z) :=
  match txt with
  | None => Some b
  | Some txt => if n <=? 0 then Some b else splice b off (take (Z.to_nat (n - 1)) txt ++ [0])
  end.

(** The [int] length is compared with [sizeof(buf)] as a [size_t], so that -1
    is not the fast case. *)
Definition dbuf_printf (s : DynBuf) (txt : option (list Z)) : option (Z * DynBuf) :=
  let len := match txt with Some txt => zlen txt | None => -1 end in
  if u64 len <? 128 then dbuf_put s (default [] txt)
  else
    let '(r, s) := dbuf_realloc s (u64 (size s + len + 1)) in
    if r =? 0 then
      nb ← vsnprintf txt (buf s) (size s) (u64 (allocated_size s - size s));
      Some (0, mk_DynBuf nb (u64 (size s + len)) (allocated_size s) (error s))
    else Some (-1, s).

Definition dbuf_put_u16 (s : DynBuf) (val : Z) : option (Z * DynBuf) := dbuf_put s (le_bytes 2 val).
Definition dbuf_put_u32 (s : DynBuf) (val : Z) : option (Z * DynBuf) := dbuf_put s (le_bytes 4 val).
Definition dbuf_put_u64 (s : DynBuf) (val : Z) : option (Z * DynBuf) := dbuf_put s (le_bytes 8 val).

End realloc.

Definition dbuf_free (s : DynBuf) : DynBuf := mk_DynBuf [] 0 0 false.
Definition dbuf_error (s : DynBuf) : bool := error s.
Definition dbuf_set_error (s : DynBuf) : DynBuf := mk_DynBuf (buf s) (size s) (allocated_size s) true.

Lemma zlen_cons {A} (x : A) l : zlen (x :: l) = zlen l + 1.
Proof. rewrite length_cons. lia. Qed.

(** ** UTF-8 is a bijection onto the shortest forms *)

(** The continuation bytes of a sequence with [l] of them. *)
Fixpoint conts (c : Z) (l : nat) : list Z :=
  match l with
  | O => []
  | S l => cont c (6 * Z.of_nat l) :: conts c l
  end.

Lemma conts_length c l : length (conts c l) = l.
Proof. induction l; cbn; congruence. Qed.

Lemma zlen_conts c l : zlen (conts c l) = Z.of_nat l.
Proof. by rewrite conts_length. Qed.

Lemma cont_eq c k : 0 <= k → cont c k = 128 + (c / 2 ^ k) mod 64.
Proof.
  intros Hk. unfold cont. rewrite Z.shiftr_div_pow2 by done. mask_mod. change (2 ^ 6) with 64.
  pose proof (Z.mod_pos_bound (c / 2 ^ k) 64 ltac:(lia)). set (m := (c / 2 ^ k) mod 64) in *.
  rewrite Z.lor_comm. change 0x80 with (1 * 2 ^ 7). rewrite lor_low_high by lia.
  rewrite u8_id by (unfold is_u8; lia). lia.
Qed.

Lemma cont_range c k : 0 <= k → 0x80 <= cont c k < 0xc0.
Proof. intros Hk. rewrite cont_eq by done. pose proof (Z.mod_pos_bound (c / 2 ^ k) 64 ltac:(lia)). lia. Qed.

(** One continuation byte shifts in six bits. *)
Lemma shift_in c b : 0 <= c → 0x80 <= b < 0xc0 → (c << 6) .| (b .& 0x3f) = c * 64 + (b - 128).
Proof.
  intros Hc Hb. mask_mod. rewrite Z.shiftl_mul_pow2 by lia.
  rewrite lor_low_high by (try apply Z.mod_pos_bound; lia). change (2 ^ 6) with 64. zmod_lia.
Qed.

(** Six-bit groups. *)
Definition top_bits (c : Z) (l : nat) : Z := c / 2 ^ (6 * Z.of_nat l).

Lemma top_bits_step c l : 0 <= c → top_bits c (S l) * 64 + (top_bits c l) mod 64 = top_bits c l.
Proof.
  intros Hc. unfold top_bits. replace (6 * Z.of_nat (S l)) with (6 * Z.of_nat l + 6) by lia.
  rewrite Z.pow_add_r by lia. rewrite <- Z.div_div by (try apply Z.pow_nonzero; lia).
  change (2 ^ 6) with 64.
  pose proof (Z.div_mod (c / 2 ^ (6 * Z.of_nat l)) 64 ltac:(lia)). lia.
Qed.

Lemma top_bits_nonneg c l : 0 <= c → 0 <= top_bits c l.
Proof. intros. apply Z.div_pos; [done|apply Z.pow_pos_nonneg; lia]. Qed.

Lemma utf8_loop_conts l c post : 0 <= c → utf8_loop l (conts c l ++ post) (top_bits c l) = Some (Some c).
Proof.
  intros Hc. induction l as [|l IH].
  - cbn. unfold top_bits. cbn. by rewrite Z.div_1_r.
  - cbn [conts utf8_loop app]. pose proof (cont_range c (6 * Z.of_nat l) ltac:(lia)) as Hr.
    rewrite (proj2 (Z.ltb_ge _ _)), (proj2 (Z.leb_gt _ _)) by lia. cbn [orb].
    rewrite shift_in by (done || by apply top_bits_nonneg).
    rewrite cont_eq by lia. replace (128 + _ - 128) with (top_bits c l mod 64) by (unfold top_bits; lia).
    by rewrite top_bits_step.
Qed.

(** What the loop accepts are the continuation bytes of its result. *)
Lemma utf8_loop_inv l p c0 c :
  Forall is_u8 p → 0 <= c0 → utf8_loop l p c0 = Some (Some c) →
  0 <= c ∧ top_bits c l = c0 ∧ take l p = conts c l ∧ (l <= length p)%nat.
Proof.
  intros Hp. revert p c0 Hp. induction l as [|l IH]; intros p c0 Hp Hc0; cbn.
  - intros [= ->]. unfold top_bits. cbn. rewrite Z.div_1_r, take_0. split_and!; try done. lia.
  - destruct p as [|b p]; [done|]. apply Forall_cons in Hp as [Hb Hp].
    destruct ((b <? 0x80) || (0xc0 <=? b)) eqn:E; [done|].
    rewrite orb_false_iff, Z.ltb_ge, Z.leb_gt in E. rewrite shift_in by lia.
    intros H. destruct (IH p (c0 * 64 + (b - 128)) Hp) as (Hc & Ht & Htk & Hl); [lia|done|].
    pose proof (top_bits_step c l Hc) as Hstep. rewrite Ht in Hstep.
    assert ((c0 * 64 + (b - 128)) mod 64 = b - 128) as Hm by zmod_lia.
    split_and!; [done|lia| |cbn; lia]. cbn. rewrite Htk. f_equal.
    rewrite cont_eq by lia. unfold top_bits in Ht. rewrite Ht, Hm. lia.
Qed.

(** The first byte of a sequence of [l] continuation bytes, as the encoder
    and the decoder's [switch] lay it out. *)
Definition lead (l : nat) : Z := nth l [0; 0xc0; 0xe0; 0xf0; 0xf8; 0xfc] 0.
Definition lead_top (l : nat) : Z := nth l [0x80; 0x20; 0x10; 0x8; 0x4; 0x2] 0.

Lemma lor_lead x l : (1 <= l <= 5)%nat → 0 <= x < lead_top l → u8 (x .| lead l) = lead l + x.
Proof.
  intros Hl Hx. rewrite Z.lor_comm.
  assert (∃ k m, lead l = m * 2 ^ k ∧ lead_top l <= 2 ^ k ∧ 0 <= k ∧ 0 <= lead l ∧ lead l + lead_top l <= 256)
    as (k & m & Hm & Ht & Hk & H0 & H1).
  { destruct l as [|[|[|[|[|[|l]]]]]]; [lia| | | | | |lia]; cbn.
    - by exists 5, 6. - by exists 4, 14. - by exists 3, 30. - by exists 2, 62. - by exists 1, 126. }
  rewrite Hm, lor_low_high, <- Hm by lia. apply u8_id. unfold is_u8. lia.
Qed.

Lemma unicode_to_utf8_long c l :
  (1 <= l <= 5)%nat → nth (l - 1) utf8_min_code 0 <= c < nth l (utf8_min_code ++ [2 ^ 31]) 0 →
  unicode_to_utf8 c = lead l + top_bits c l :: conts c l.
Proof.
  intros Hl Hc. pose proof (lor_lead (top_bits c l) l Hl) as Hlead. unfold top_bits in *.
  rewrite <- Z.shiftr_div_pow2 in * by lia. rewrite <- Hlead; clear Hlead.
  2: { rewrite Z.shiftr_div_pow2 by lia. revert Hc.
       destruct l as [|[|[|[|[|[|l]]]]]]; [lia| | | | | |lia]; cbn -[Z.pow Z.mul]; intros Hc; zmod_lia. }
  unfold unicode_to_utf8. revert Hc.
  destruct l as [|[|[|[|[|[|l]]]]]]; [lia| | | | | |lia]; cbn -[Z.pow Z.mul cont]; intros Hc;
    repeat (rewrite (proj2 (Z.ltb_ge c _)) by lia); rewrite (proj2 (Z.ltb_lt c _)) by lia; reflexivity.
Qed.

Lemma unicode_to_utf8_short c : 0 <= c < 0x80 → unicode_to_utf8 c = [c].
Proof.
  intros. unfold unicode_to_utf8. rewrite (proj2 (Z.ltb_lt c _)) by lia.
  rewrite u8_id; [done|unfold is_u8; lia].
Qed.

(** The decoder's view of a first byte. *)
Lemma utf8_len_spec b : is_u8 b → 0x80 <= b →
  match utf8_len b with
  | Some n => ∃ l, n = Z.of_nat l ∧ (1 <= l <= 5)%nat ∧ lead l <= b < lead l + lead_top l ∧
      aget utf8_first_code_mask (n - 1) = Some (lead_top l - 1) ∧
      aget utf8_min_code (n - 1) = Some (nth (l - 1) utf8_min_code 0) ∧ b .& (lead_top l - 1) = b - lead l
  | None => ∀ l, (1 <= l <= 5)%nat → ¬ (lead l <= b < lead l + lead_top l)
  end.
Proof.
  intros Hb H. unfold is_u8 in Hb. unfold utf8_len.
  assert (∀ l, (1 <= l <= 5)%nat → lead l <= b < lead l + lead_top l → b .& (lead_top l - 1) = b - lead l) as Hmask.
  { intros l Hl. destruct l as [|[|[|[|[|[|l]]]]]]; [lia| | | | | |lia]; cbn; intros; mask_mod; zmod_lia. }
  repeat case_match; simplify_eq;
    rewrite ?andb_true_iff, ?andb_false_iff, ?Z.leb_le, ?Z.leb_gt in *.
  - exists 1%nat. split_and!; try done; cbn; try lia. by apply (Hmask 1%nat); cbn; lia.
  - exists 2%nat. split_and!; try done; cbn; try lia. by apply (Hmask 2%nat); cbn; lia.
  - exists 3%nat. split_and!; try done; cbn; try lia. by apply (Hmask 3%nat); cbn; lia.
  - exists 4%nat. split_and!; try done; cbn; try lia. by apply (Hmask 4%nat); cbn; lia.
  - exists 5%nat. split_and!; try done; cbn; try lia. by apply (Hmask 5%nat); cbn; lia.
  - intros l Hl. destruct l as [|[|[|[|[|[|l]]]]]]; [lia| | | | | |lia]; cbn; lia.
Qed.

Lemma lead_top_limit l : (1 <= l <= 5)%nat →
  lead_top l * 2 ^ (6 * Z.of_nat l) = nth l (utf8_min_code ++ [2 ^ 31]) 0.
Proof. intros. by destruct l as [|[|[|[|[|[|l]]]]]]; try lia. Qed.

Lemma top_bits_bound c l : (1 <= l <= 5)%nat →
  top_bits c l < lead_top l ↔ c < nth l (utf8_min_code ++ [2 ^ 31]) 0.
Proof.
  intros Hl. rewrite <- lead_top_limit by done. unfold top_bits.
  pose proof (Z.pow_pos_nonneg 2 (6 * Z.of_nat l)). split; intros Hc.
  - destruct (Z.le_gt_cases (lead_top l * 2 ^ (6 * Z.of_nat l)) c) as [Hle|]; [|done].
    apply (Z.div_le_mono _ _ (2 ^ (6 * Z.of_nat l))) in Hle; [|lia].
    rewrite Z.div_mul in Hle by lia. lia.
  - apply Z.div_lt_upper_bound; lia.
Qed.

Lemma utf8_length_class c : 0x80 <= c < 2 ^ 31 → ∃ l, (1 <= l <= 5)%nat ∧
  nth (l - 1) utf8_min_code 0 <= c < nth l (utf8_min_code ++ [2 ^ 31]) 0.
Proof.
  intros Hc. destruct (Z.lt_ge_cases c 0x800); [by exists 1%nat; cbn; lia|].
  destruct (Z.lt_ge_cases c 0x10000); [by exists 2%nat; cbn; lia|].
  destruct (Z.lt_ge_cases c 0x200000); [by exists 3%nat; cbn; lia|].
  destruct (Z.lt_ge_cases c 0x4000000); [by exists 4%nat; cbn; lia|exists 5%nat; cbn; lia].
Qed.

Lemma lead_range l : (1 <= l <= 5)%nat → 0xc0 <= lead l ∧ lead l + lead_top l <= 0xfe ∧ 0 < lead_top l.
Proof. intros. destruct l as [|[|[|[|[|[|l]]]]]]; cbn; lia. Qed.

(** The ranges of first bytes are disjoint. *)
Lemma lead_inj l l' b : (1 <= l <= 5)%nat → (1 <= l' <= 5)%nat →
  lead l <= b < lead l + lead_top l → lead l' <= b < lead l' + lead_top l' → l = l'.
Proof.
  intros. destruct l as [|[|[|[|[|[|l]]]]]], l' as [|[|[|[|[|[|l']]]]]]; cbn in *; lia.
Qed.

Lemma from_utf8_encoded c rest max_len :
  0 <= c < 2 ^ 31 → zlen (unicode_to_utf8 c) <= max_len →
  unicode_from_utf8 (unicode_to_utf8 c ++ rest) max_len = Some (c, zlen (unicode_to_utf8 c)).
Proof.
  intros Hc Hm. destruct (Z.lt_ge_cases c 0x80) as [Hs|Hs].
  { rewrite unicode_to_utf8_short by lia. unfold unicode_from_utf8. cbn [app].
    change (aget (c :: rest) 0) with (Some c). cbn [mbind option_bind].
    by rewrite (proj2 (Z.ltb_lt _ _)). }
  destruct (utf8_length_class c) as (l & Hl & Hcl); [lia|].
  rewrite (unicode_to_utf8_long c l) in * by done.
  pose proof (proj2 (top_bits_bound c l Hl) (proj2 Hcl)) as Ht.
  pose proof (top_bits_nonneg c l) as Hn. pose proof (lead_range l Hl).
  set (b := lead l + top_bits c l) in *. unfold unicode_from_utf8. cbn [app aget].
  change (aget (b :: conts c l ++ rest) 0) with (Some b). cbn [mbind option_bind].
  rewrite (proj2 (Z.ltb_ge b _)) by lia.
  pose proof (utf8_len_spec b) as Hspec. destruct (utf8_len b) as [n|].
  2: { exfalso. apply (Hspec ltac:(unfold is_u8; lia) ltac:(lia) l); lia. }
  destruct Hspec as (l' & -> & Hl' & Hr & -> & -> & Hmask); [unfold is_u8; lia|lia|].
  assert (l' = l) as -> by (apply (lead_inj _ _ b); lia).
  assert (zlen (b :: conts c l) = Z.of_nat l + 1) as Hlen
    by (by rewrite zlen_cons, zlen_conts).
  rewrite Hlen in *. rewrite (proj2 (Z.ltb_ge (max_len - 1) _)) by lia.
  cbn [mbind option_bind]. rewrite Hmask. replace (b - lead l) with (top_bits c l) by lia.
  rewrite Nat2Z.id. cbn [drop]. rewrite drop_0, utf8_loop_conts by lia. cbn [mbind option_bind].
  by rewrite (proj2 (Z.ltb_ge c _)) by lia.
Qed.

(** What the decoder accepts is what the encoder writes. *)
Lemma from_utf8_canonical p max_len c n :
  Forall is_u8 p → unicode_from_utf8 p max_len = Some (c, n) → c ≠ -1 →
  0 <= c < 2 ^ 31 ∧ take (Z.to_nat n) p = unicode_to_utf8 c ∧ n = zlen (unicode_to_utf8 c) ∧
  (0x80 <= c → n <= max_len).
Proof.
  intros Hp. unfold unicode_from_utf8. destruct p as [|b p]; [done|].
  change (aget (b :: p) 0) with (Some b). cbn [mbind option_bind].
  apply Forall_cons in Hp as [Hb Hp]. unfold is_u8 in Hb.
  destruct (Z.ltb_spec b 0x80) as [|Hb'].
  { intros [= <- <-] _. rewrite unicode_to_utf8_short by lia. change (Z.to_nat 1) with 1%nat.
    rewrite firstn_cons, take_0. split_and!; try done; lia. }
  pose proof (utf8_len_spec b ltac:(unfold is_u8; lia) Hb') as Hspec.
  destruct (utf8_len b) as [k|]; [|by intros [= <- <-]].
  destruct Hspec as (l & -> & Hl & Hr & -> & -> & Hmask). cbn [mbind option_bind].
  rewrite Hmask, Nat2Z.id. cbn [drop]. rewrite drop_0.
  destruct (Z.ltb_spec (max_len - 1) (Z.of_nat l)); [by intros [= <- <-]|].
  destruct (utf8_loop l p (b - lead l)) as [[c'|]|] eqn:E; cbn [mbind option_bind]; [|by intros [= <- <-]|done].
  destruct (Z.ltb_spec c' (nth (l - 1) utf8_min_code 0)); intros [= <- <-] Hc; [done|].
  apply utf8_loop_inv in E as (Hc0 & Ht & Htk & Hlp); [|done|lia].
  assert (c' < nth l (utf8_min_code ++ [2 ^ 31]) 0) as Hlim by (apply top_bits_bound; lia).
  rewrite (unicode_to_utf8_long c' l) by lia.
  replace (Z.to_nat (Z.of_nat l + 1)) with (S l) by lia. cbn [take]. rewrite Htk, Ht.
  replace (lead l + (b - lead l)) with b by lia.
  split_and!; [lia| |done| |lia].
  - revert Hlim. clear -Hl. destruct l as [|[|[|[|[|[|l]]]]]]; cbn -[Z.pow]; lia.
  - by rewrite zlen_cons, zlen_conts.
Qed.

(** The decoder reads at most [max_len] bytes. *)
Lemma utf8_loop_total l p c : (l <= length p)%nat → utf8_loop l p c ≠ None.
Proof.
  revert p c. induction l as [|l IH]; intros p c Hl; [done|]. destruct p as [|b p]; cbn in *; [lia|].
  destruct (_ || _); [done|]. apply IH. lia.
Qed.

Lemma from_utf8_total p max_len :
  Forall is_u8 p → 1 <= max_len <= zlen p → unicode_from_utf8 p max_len ≠ None.
Proof.
  intros Hp Hm. destruct p as [|b p]; [cbn in Hm; lia|]. rewrite zlen_cons in Hm.
  apply Forall_cons in Hp as [Hb Hp]. unfold unicode_from_utf8.
  change (aget (b :: p) 0) with (Some b). cbn [mbind option_bind].
  destruct (Z.ltb_spec b 0x80) as [|Hb']; [done|].
  pose proof (utf8_len_spec b Hb Hb') as Hspec. destruct (utf8_len b) as [k|]; [|done].
  destruct Hspec as (l & -> & Hl & Hr & -> & -> & Hmask). cbn [mbind option_bind].
  destruct (Z.ltb_spec (max_len - 1) (Z.of_nat l)); [done|]. rewrite Nat2Z.id.
  cbn [drop]. rewrite drop_0. pose proof (utf8_loop_total l p (b .& (lead_top l - 1)) ltac:(lia)).
  destruct (utf8_loop l p _) as [[c'|]|]; cbn [mbind option_bind]; [by destruct (_ <? _)|done|done].
Qed.

(** UTF-8 round trips. Every value below [2^31] is decoded from its
    encoding, whatever follows it; conversely, what the decoder accepts is
    exactly the encoding of the value it returns, so overlong forms, stray
    continuation bytes and first bytes above 0xfd are refused; and it never
    reads beyond [max_len] bytes. *)
Lemma utf8_roundtrip c rest p max_len :
  0 <= c < 2 ^ 31 → zlen (unicode_to_utf8 c) <= max_len → Forall is_u8 p →
  unicode_from_utf8 (unicode_to_utf8 c ++ rest) max_len = Some (c, zlen (unicode_to_utf8 c)) ∧
  (∀ m c' n, unicode_from_utf8 p m = Some (c', n) → c' ≠ -1 →
     0 <= c' < 2 ^ 31 ∧ take (Z.to_nat n) p = unicode_to_utf8 c' ∧ n = zlen (unicode_to_utf8 c')) ∧
  (∀ m, 1 <= m <= zlen p → unicode_from_utf8 p m ≠ None).
Proof.
  intros Hc Hm Hp. split_and!.
  - by apply from_utf8_encoded.
  - intros m c' n H Hc'. destruct (from_utf8_canonical p m c' n) as (? & ? & ? & ?); auto.
  - intros m. by apply from_utf8_total.
Qed.

Lemma utf8_roundtrip_witness :
  unicode_from_utf8 [0xe2; 0x82; 0xac; 0x41] 3 = Some (0x20ac, 3) ∧
  unicode_from_utf8 [0xc1; 0x81] 2 = Some (-1, 0).
Proof.
  split; [|reflexivity].
  refine (proj1 (utf8_roundtrip 0x20ac [0x41] [] 3 _ _ _)); [lia|vm_compute; congruence|constructor].
Defined.

(** ** Dynamic buffers refine growing byte sequences *)

Record db_ok (s : DynBuf) : Prop := {
  db_block : zlen (buf s) = allocated_size s;
  db_size : 0 <= size s <= allocated_size s;
  db_bound : allocated_size s < 2 ^ 62
}.

Definition contents (s : DynBuf) : list Z := take (Z.to_nat (size s)) (buf s).

(** [realloc]: the new block has the size asked for and keeps what fits. *)
Definition realloc_ok (f : list Z → Z → option (list Z)) : Prop :=
  ∀ b n nb, 0 <= n → f b n = Some nb →
    zlen nb = n ∧ n < 2 ^ 62 ∧ ∀ k, (k <= length b)%nat → (k <= length nb)%nat → take k nb = take k b.

Lemma contents_length s : db_ok s → zlen (contents s) = size s.
Proof. intros []. unfold contents. rewrite length_take. lia. Qed.

Section dbuf.
Context (f : list Z → Z → option (list Z)) (Hf : realloc_ok f).

Lemma dbuf_realloc_ok s n : db_ok s → 0 <= n →
  ∃ r s', dbuf_realloc f s n = (r, s') ∧ db_ok s' ∧ contents s' = contents s ∧ size s' = size s ∧
    ((r = 0 ∧ n <= allocated_size s' ∧ error s' = error s) ∨ (r = -1 ∧ error s' = true)).
Proof using Hf.
  intros [Hb Hs Hlt] Hn. unfold dbuf_realloc.
  destruct (Z.ltb_spec (allocated_size s) n); [|by exists 0, s; split_and!; try done; left].
  destruct (error s) eqn:He; [by exists (-1), s; split_and!; try done; right|].
  rewrite (u64_id (allocated_size s * 3)) by (unfold is_u64; lia).
  set (n' := if n <? _ then _ else n).
  assert (n <= n') by (unfold n'; case_cmp; lia).
  destruct (f (buf s) n') as [nb|] eqn:E.
  - apply Hf in E as (Hnb & Hlt' & Hk); [|lia].
    eexists _, _. split; [done|]. unfold contents; cbn. rewrite Hk by lia.
    split_and!; try done; [split; cbn; lia|]. left. split_and!; [done|lia|done].
  - eexists _, _. split; [done|]. split_and!; try done. by right.
Qed.

(** Overwriting a sequence at [off], extending it where needed. *)
Definition overlay (c : list Z) (off : Z) (data : list Z) : list Z :=
  take (Z.to_nat off) c ++ data ++ drop (Z.to_nat (off + zlen data)) c.

Lemma overlay_end c data : overlay c (zlen c) data = c ++ data.
Proof. unfold overlay. rewrite take_ge, (drop_ge c), app_nil_r by lia. done. Qed.

Lemma store_ok s off data :
  db_ok s → 0 <= off <= size s → off + zlen data <= allocated_size s →
  ∃ nb, splice (buf s) off data = Some nb ∧ zlen nb = allocated_size s ∧
    take (Z.to_nat (Z.max (size s) (off + zlen data))) nb = overlay (contents s) off data.
Proof.
  intros [Hb Hs Hlt] Ho Hd. rewrite splice_Some by lia. eexists. split; [done|]. split.
  { rewrite !length_app, length_take, length_drop. lia. }
  unfold overlay, contents. rewrite !take_app, !take_take, !length_take, (take_ge data) by lia.
  f_equal; [f_equal; lia|]. f_equal.
  destruct (Z.le_gt_cases (off + zlen data) (size s)).
  - rewrite take_drop_commute. f_equal; [lia|]. f_equal. lia.
  - rewrite (drop_ge (take _ _)) by (rewrite length_take; lia).
    replace (_ - _ - _)%nat with 0%nat by lia. done.
Qed.

(** An operation either stores or reports the failure of [realloc_func]. *)
Definition stored_or_failed (s : DynBuf) (new : list Z) (res : option (Z * DynBuf)) : Prop :=
  ∃ r s', res = Some (r, s') ∧ db_ok s' ∧
    ((r = 0 ∧ contents s' = new ∧ error s' = error s) ∨
     (r = -1 ∧ contents s' = contents s ∧ error s' = true)).

Lemma dbuf_write_ok s off data :
  db_ok s → 0 <= off <= size s → zlen data < 2 ^ 62 →
  stored_or_failed s (overlay (contents s) off data) (dbuf_write f s off data).
Proof using Hf.
  intros Hs Ho Hd. pose proof Hs as [Hb Hsz Hlt]. unfold dbuf_write.
  rewrite u64_id by (unfold is_u64; lia).
  destruct (dbuf_realloc_ok s (off + zlen data) Hs ltac:(lia))
    as (r & s' & -> & Hs' & Hc & Hsize & [(-> & Hroom & He)|(-> & He)]).
  2: { eexists _, _. split; [done|]. split; [done|]. by right. }
  destruct (store_ok s' off data Hs' ltac:(lia) ltac:(lia)) as (nb & -> & Hnb & Hcon).
  cbn [Z.eqb mbind option_bind]. eexists _, _. split; [done|].
  destruct Hs' as [Hb' Hsz' Hlt'].
  assert ((if size s' <? off + zlen data then off + zlen data else size s') =
          Z.max (size s') (off + zlen data)) as -> by (case_cmp; lia).
  split; [split; cbn; lia|]. left. unfold contents at 1. cbn [buf size error].
  rewrite Hcon, Hc. done.
Qed.

(** The fast test in front of [dbuf_realloc]. *)
Lemma dbuf_room_ok s n : db_ok s → 0 <= n →
  ∃ r s', (if allocated_size s <? n then dbuf_realloc f s n else (0, s)) = (r, s') ∧ db_ok s' ∧
    contents s' = contents s ∧ size s' = size s ∧
    ((r = 0 ∧ n <= allocated_size s' ∧ error s' = error s) ∨ (r = -1 ∧ error s' = true)).
Proof using Hf.
  intros Hs Hn. destruct (Z.ltb_spec (allocated_size s) n); [by apply dbuf_realloc_ok|].
  exists 0, s. split_and!; try done. left. split_and!; [done|lia|done].
Qed.

(** Storing behind the contents. *)
Lemma append_ok s s' data : db_ok s → db_ok s' → contents s' = contents s → size s' = size s →
  error s' = error s → size s + zlen data <= allocated_size s' →
  stored_or_failed s (contents s ++ data)
    (nb ← splice (buf s') (size s') data;
     Some (0, mk_DynBuf nb (u64 (size s' + zlen data)) (allocated_size s') (error s'))).
Proof.
  intros Hs Hs' Hc Hsize He Hroom. pose proof Hs' as [Hb' Hsz' Hlt'].
  destruct (store_ok s' (size s') data Hs' ltac:(lia) ltac:(lia)) as (nb & -> & Hnb & Hcon).
  cbn [mbind option_bind]. eexists _, _. split; [done|].
  rewrite (u64_id (size s' + zlen data)) by (unfold is_u64; lia).
  split; [split; cbn; lia|]. left. unfold contents at 1. cbn [buf size error].
  replace (size s' + zlen data) with (Z.max (size s') (size s' + zlen data)) by lia.
  rewrite Hcon, Hc, Hsize, <- (contents_length s Hs), overlay_end. done.
Qed.

Lemma dbuf_put_ok s data : db_ok s → zlen data < 2 ^ 62 →
  stored_or_failed s (contents s ++ data) (dbuf_put f s data).
Proof using Hf.
  intros Hs Hd. pose proof Hs as [Hb Hsz Hlt]. unfold dbuf_put.
  rewrite !(u64_id (size s + zlen data)) by (unfold is_u64; lia).
  destruct (dbuf_room_ok s (size s + zlen data) Hs ltac:(lia))
    as (r & s' & -> & Hs' & Hc & Hsize & [(-> & Hroom & He)|(-> & He)]).
  2: { eexists _, _. split; [done|]. split; [done|]. by right. }
  by apply append_ok.
Qed.

Lemma dbuf_put_self_ok s off len : db_ok s → 0 <= off → 0 <= len → off + len <= size s →
  stored_or_failed s (contents s ++ take (Z.to_nat len) (drop (Z.to_nat off) (contents s)))
    (dbuf_put_self f s off len).
Proof using Hf.
  intros Hs Ho Hl Hol. pose proof Hs as [Hb Hsz Hlt]. unfold dbuf_put_self.
  rewrite !(u64_id (size s + len)) by (unfold is_u64; lia).
  destruct (dbuf_room_ok s (size s + len) Hs ltac:(lia))
    as (r & s' & -> & Hs' & Hc & Hsize & [(-> & Hroom & He)|(-> & He)]).
  2: { eexists _, _. split; [done|]. split; [done|]. by right. }
  pose proof Hs' as [Hb' Hsz' Hlt']. cbn [Z.eqb].
  rewrite option_guard_True by lia. rewrite slice_Some by lia. cbn [mbind option_bind].
  assert (take (Z.to_nat len) (drop (Z.to_nat off) (buf s')) =
          take (Z.to_nat len) (drop (Z.to_nat off) (contents s))) as ->.
  { rewrite <- Hc. unfold contents. rewrite !take_drop_commute, take_take. f_equal. f_equal. lia. }
  set (data := take _ _). assert (zlen data = len) as Hdata.
  { pose proof (contents_length s Hs). unfold data. rewrite length_take, length_drop. lia. }
  pose proof (append_ok s s' data Hs Hs' Hc Hsize He ltac:(lia)) as H. by rewrite Hdata in H.
Qed.

Lemma dbuf_printf_ok s txt : db_ok s → zlen txt < 2 ^ 31 →
  stored_or_failed s (contents s ++ txt) (dbuf_printf f s (Some txt)).
Proof using Hf.
  intros Hs Hd. pose proof Hs as [Hb Hsz Hlt]. unfold dbuf_printf. cbv zeta. cbv match.
  rewrite (u64_id (zlen txt)) by (unfold is_u64; lia). change (default [] (Some txt)) with txt.
  destruct (Z.ltb_spec (zlen txt) 128); [apply dbuf_put_ok; [done|lia]|].
  rewrite (u64_id (size s + zlen txt + 1)) by (unfold is_u64; lia).
  destruct (dbuf_realloc_ok s (size s + zlen txt + 1) Hs ltac:(lia))
    as (r & s' & -> & Hs' & Hc & Hsize & [(-> & Hroom & He)|(-> & He)]).
  2: { eexists _, _. split; [done|]. split; [done|]. by right. }
  cbn [Z.eqb]. pose proof Hs' as [Hb' Hsz' Hlt']. unfold vsnprintf.
  rewrite (u64_id (allocated_size s' - size s')) by (unfold is_u64; lia).
  rewrite (proj2 (Z.leb_gt _ _)), take_ge by lia.
  destruct (store_ok s' (size s') (txt ++ [0]) Hs' ltac:(lia)) as (nb & -> & Hnb & Hcon).
  { rewrite length_app. cbn. lia. }
  cbn [mbind option_bind]. rewrite (u64_id (size s' + zlen txt)) by (unfold is_u64; lia).
  eexists _, _. split; [done|]. split; [split; cbn; lia|]. left. cbn [error].
  split_and!; [done| |done]. unfold contents at 1. cbn [buf size].
  apply (f_equal (take (Z.to_nat (size s' + zlen txt)))) in Hcon.
  rewrite take_take in Hcon. replace (_ `min` _)%nat with (Z.to_nat (size s' + zlen txt)) in Hcon
    by (rewrite length_app; cbn; lia).
  rewrite Hcon, Hc, Hsize, <- (contents_length s Hs), overlay_end, app_assoc.
  apply take_app_length'. rewrite length_app. lia.
Qed.

(** When [vsnprintf] fails, [dbuf_printf] reports success and drops the last
    byte of the buffer; the size of an empty one becomes 2^64 - 1. *)
Lemma dbuf_printf_failed s : db_ok s →
  dbuf_printf f s None = Some (0, mk_DynBuf (buf s) (u64 (size s - 1)) (allocated_size s) (error s)).
Proof using.
  intros [Hb Hsz Hlt]. unfold dbuf_printf, dbuf_realloc. change (u64 (-1) <? 128) with false. cbv iota.
  replace (size s + -1 + 1) with (size s) by lia. rewrite u64_id by (unfold is_u64; lia).
  by rewrite (proj2 (Z.ltb_ge (allocated_size s) (size s))) by lia.
Qed.

End dbuf.

(** The appending operations, as a client strings them together without
    looking at their return values. *)
Inductive dop : Set :=
  | Putc (c : Z)
  | Put (data : list Z)
  | Putstr (str : list Z)
  | Put_u16 (v : Z)
  | Put_u32 (v : Z)
  | Put_u64 (v : Z)
  | Printf (txt : list Z).

Definition dop_run (f : list Z → Z → option (list Z)) (s : DynBuf) (o : dop) : option (Z * DynBuf) :=
  match o with
  | Putc c => dbuf_putc f s c
  | Put d => dbuf_put f s d
  | Putstr str => dbuf_putstr f s str
  | Put_u16 v => dbuf_put_u16 f s v
  | Put_u32 v => dbuf_put_u32 f s v
  | Put_u64 v => dbuf_put_u64 f s v
  | Printf txt => dbuf_printf f s (Some txt)
  end.

Fixpoint dops_run (f : list Z → Z → option (list Z)) (s : DynBuf) (os : list dop) : option DynBuf :=
  match os with
  | [] => Some s
  | o :: os => '(_, s) ← dop_run f s o; dops_run f s os
  end.

(** The bytes an operation is meant to append. *)
Definition dop_bytes (o : dop) : list Z :=
  match o with
  | Putc c => [c]
  | Put d | Printf d => d
  | Putstr str => match strlen str with Some n => take (Z.to_nat n) str | None => [] end
  | Put_u16 v => le_bytes 2 v
  | Put_u32 v => le_bytes 4 v
  | Put_u64 v => le_bytes 8 v
  end.

Definition dop_ok (o : dop) : Prop :=
  zlen (dop_bytes o) < 2 ^ 31 ∧ match o with Putstr str => 0 ∈ str | _ => True end.

Lemma strlen_spec str : 0 ∈ str →
  ∃ n, strlen str = Some n ∧ 0 <= n < zlen str ∧ str !! Z.to_nat n = Some 0 ∧
    Forall (λ c, c ≠ 0) (take (Z.to_nat n) str).
Proof.
  induction str as [|c str IH]; intros H; [by apply elem_of_nil in H|]. cbn [strlen].
  destruct (Z.eqb_spec c 0) as [->|Hc].
  { exists 0. rewrite zlen_cons. split_and!; [done|lia|lia|done|constructor]. }
  apply elem_of_cons in H as [<-|H]; [done|].
  destruct (IH H) as (n & -> & Hn & Hl & Hf). exists (n + 1). rewrite zlen_cons.
  replace (Z.to_nat (n + 1)) with (S (Z.to_nat n)) by lia. split_and!; [done|lia|lia|done|].
  rewrite firstn_cons. by constructor.
Qed.

Lemma dop_run_ok f s o : realloc_ok f → db_ok s → dop_ok o →
  stored_or_failed s (contents s ++ dop_bytes o) (dop_run f s o).
Proof.
  intros Hf Hs [Hlen Ho]. destruct o; cbn [dop_run dop_bytes] in *;
    try (apply dbuf_put_ok; [done|done|rewrite ?le_bytes_length in *; lia]).
  - unfold dbuf_putstr. destruct (strlen_spec str Ho) as (n & Hn & Hr & _ & _).
    rewrite Hn in *. cbn [mbind option_bind]. rewrite slice_Some by lia. cbn [mbind option_bind].
    rewrite drop_0. apply dbuf_put_ok; [done|done|lia].
  - apply dbuf_printf_ok; [done|done|lia].
Qed.

Lemma dops_run_ok f os s : realloc_ok f → Forall dop_ok os → db_ok s →
  ∃ s', dops_run f s os = Some s' ∧ db_ok s' ∧ (dbuf_error s = true → dbuf_error s' = true) ∧
    (dbuf_error s' = false → contents s' = contents s ++ concat (dop_bytes <$> os)).
Proof.
  intros Hf. revert s. induction os as [|o os IH]; intros s Ho Hs.
  { exists s. split_and!; try done. intros _. cbn. by rewrite app_nil_r. }
  apply Forall_cons in Ho as [Ho Hos].
  destruct (dop_run_ok f s o Hf Hs Ho) as (r & s1 & Hrun & Hs1 & Hcase).
  destruct (IH s1 Hos Hs1) as (s' & Hrun' & Hs' & Hsticky & Hc).
  exists s'. cbn [dops_run]. rewrite Hrun. cbn [mbind option_bind]. split_and!; [done|done| |].
  - destruct Hcase as [(_ & _ & He)|(_ & _ & He)]; intros He0; apply Hsticky; unfold dbuf_error in *; congruence.
  - intros He. rewrite Hc by done. cbn [fmap list_fmap concat].
    destruct Hcase as [(_ & -> & _)|(_ & _ & He1)]; [by rewrite app_assoc|].
    rewrite (Hsticky He1) in He. done.
Qed.


(** An allocator that grants blocks of up to 64 bytes. *)
Definition demo_realloc (b : list Z) (n : Z) : option (list Z) :=
  if n <=? 64 then Some (take (Z.to_nat n) b ++ replicate (Z.to_nat n - length b) 0) else None.

Lemma demo_realloc_ok : realloc_ok demo_realloc.
Proof.
  intros b n nb Hn. unfold demo_realloc. destruct (Z.leb_spec n 64); [|done]. intros [= <-].
  rewrite length_app, length_take, length_replicate. split_and!; [lia|lia|].
  intros k Hk Hk'. rewrite take_app_le by (rewrite length_take; lia). rewrite take_take. f_equal. lia.
Qed.


(** ** C strings *)

(** The characters of a C string. *)
Fixpoint cstr (p : list Z) : list Z :=
  match p with
  | [] => []
  | c :: p => if c =? 0 then [] else c :: cstr p
  end.

Lemma strlen_cstr p : 0 ∈ p →
  strlen p = Some (zlen (cstr p)) ∧ take (length (cstr p)) p = cstr p ∧ (length (cstr p) < length p)%nat.
Proof.
  induction p as [|c p IH]; intros H; [by apply elem_of_nil in H|]. cbn [strlen cstr].
  destruct (Z.eqb_spec c 0) as [->|Hc]; [cbn; split_and!; [done|done|lia]|].
  apply elem_of_cons in H as [<-|H]; [done|]. destruct (IH H) as (-> & Ht & Hl).
  cbn [mbind option_bind]. rewrite zlen_cons, !length_cons, firstn_cons, Ht. split_and!; [done|done|lia].
Qed.

Lemma cstr_nonzero p : Forall (λ c, c ≠ 0) (cstr p).
Proof. induction p as [|c p IH]; cbn; [done|]. destruct (Z.eqb_spec c 0); by constructor. Qed.

Lemma cstr_app s q : Forall (λ c, c ≠ 0) s → cstr (s ++ 0 :: q) = s.
Proof. induction 1 as [|c s Hc Hs IH]; cbn; [done|]. destruct (Z.eqb_spec c 0); congruence. Qed.

Lemma pstrcpy_loop_ok str buf q last : 0 ∈ str → 0 <= q <= last → last < zlen buf →
  pstrcpy_loop str buf q last =
    Some (take (Z.to_nat q) buf ++ take (Z.to_nat (last - q)) (cstr str) ++
          0 :: drop (S (Z.to_nat q + length (take (Z.to_nat (last - q)) (cstr str)))) buf).
Proof.
  revert buf q. induction str as [|c str IH]; intros buf q H Hq Hl; [by apply elem_of_nil in H|].
  assert (aset buf q 0 = Some (take (Z.to_nat q) buf ++ 0 :: drop (S (Z.to_nat q)) buf)) as Hset.
  { rewrite aset_Some by lia. by rewrite insert_take_drop by lia. }
  cbn [pstrcpy_loop cstr]. destruct (Z.eqb_spec c 0) as [->|Hc].
  { rewrite take_nil, app_nil_l, Nat.add_0_r. done. }
  destruct (Z.leb_spec last q); cbn [orb].
  { replace (Z.to_nat (last - q)) with 0%nat by lia. cbn [take app length]. by rewrite Nat.add_0_r. }
  apply elem_of_cons in H as [<-|H]; [done|]. rewrite aset_Some by lia. cbn [mbind option_bind].
  rewrite IH by (rewrite ?length_insert; (done || lia)).
  replace (Z.to_nat (last - q)) with (S (Z.to_nat (last - (q + 1)))) by lia.
  replace (Z.to_nat (q + 1)) with (S (Z.to_nat q)) by lia. rewrite firstn_cons, length_cons.
  set (t := take _ (cstr str)).
  rewrite (take_S_r _ _ c) by (apply list_lookup_insert_eq; lia).
  rewrite take_insert_ge, drop_insert_lt by lia. rewrite <- app_assoc. cbn [app].
  by replace (S (Z.to_nat q) + length t)%nat with (Z.to_nat q + S (length t))%nat by lia.
Qed.

Lemma take_nonzero n p : Forall (λ c, c ≠ 0) (take n (cstr p)).
Proof. apply Forall_take, cstr_nonzero. Qed.

Lemma pstrcpy_ok buf n str : 0 ∈ str → 0 < n <= zlen buf →
  ∃ buf', pstrcpy buf n str = Some buf' ∧ length buf' = length buf ∧ 0 ∈ buf' ∧
    cstr buf' = take (Z.to_nat (n - 1)) (cstr str) ∧ drop (Z.to_nat n) buf' = drop (Z.to_nat n) buf.
Proof.
  intros Hs Hn. unfold pstrcpy. rewrite (proj2 (Z.leb_gt _ _)) by lia.
  rewrite pstrcpy_loop_ok by (done || lia). rewrite Z.sub_0_r. change (Z.to_nat 0) with 0%nat.
  rewrite take_0, app_nil_l, Nat.add_0_l.
  set (t := take _ (cstr str)). assert (length t < Z.to_nat n)%nat
    by (unfold t; rewrite length_take; lia).
  eexists. split; [done|]. split_and!.
  - rewrite length_app. cbn [length]. rewrite length_drop. lia.
  - apply elem_of_app. right. apply elem_of_cons. by left.
  - apply cstr_app, take_nonzero.
  - rewrite drop_app_ge by lia. replace (Z.to_nat n - length t)%nat with (S (Z.to_nat n - S (length t))) by lia.
    cbn [drop]. rewrite drop_drop. f_equal. lia.
Qed.

Lemma cstr_split p : 0 ∈ p → ∃ q, p = cstr p ++ 0 :: q.
Proof.
  induction p as [|c p IH]; intros H; [by apply elem_of_nil in H|]. cbn [cstr].
  destruct (Z.eqb_spec c 0) as [->|Hc]; [by exists p|].
  apply elem_of_cons in H as [<-|H]; [done|]. destruct (IH H) as [q Hq]. exists q.
  cbn [app]. by f_equal.
Qed.

Lemma pstrcat_ok buf n str : 0 ∈ str → 0 < n <= zlen buf → n < 2 ^ 31 → 0 ∈ take (Z.to_nat n) buf →
  ∃ buf', pstrcat buf n str = Some buf' ∧ length buf' = length buf ∧
    cstr buf' = take (Z.to_nat (n - 1)) (cstr buf ++ cstr str) ∧
    drop (Z.to_nat n) buf' = drop (Z.to_nat n) buf.
Proof.
  intros Hs Hn Hlt Hb.
  assert (0 ∈ buf) as Hb' by (rewrite <- (take_drop (Z.to_nat n) buf); apply elem_of_app; by left).
  assert (length (cstr buf) < Z.to_nat n)%nat as Hlen.
  { destruct (cstr_split _ Hb) as [q Hq]. rewrite <- (take_drop (Z.to_nat n) buf), Hq, <- app_assoc.
    cbn [app]. rewrite cstr_app by apply cstr_nonzero.
    apply (f_equal length) in Hq. rewrite length_app, length_take, length_cons in Hq. lia. }
  destruct (strlen_cstr buf Hb') as (Hsl & Htk & Hl). unfold pstrcat. rewrite Hsl. cbn [mbind option_bind].
  assert (s32 (zlen (cstr buf)) = zlen (cstr buf)) as ->
    by (unfold s32, u32; rewrite Z.mod_small by lia; case_cmp; lia).
  rewrite (proj2 (Z.ltb_lt _ _)), Nat2Z.id, Htk by lia.
  destruct (pstrcpy_ok (drop (length (cstr buf)) buf) (n - zlen (cstr buf)) str Hs)
    as (b' & -> & Hlb & Hb0 & Hcb & Hdb); [rewrite length_drop; lia|]. cbn [mbind option_bind].
  eexists. split; [done|]. rewrite length_drop in Hlb. split_and!.
  - rewrite length_app. lia.
  - rewrite take_app, (take_ge (cstr buf)) by lia.
    destruct (cstr_split b' Hb0) as [q Hq]. rewrite Hq, app_assoc, cstr_app.
    + rewrite Hcb. f_equal. f_equal. lia.
    + apply Forall_app; split; apply cstr_nonzero.
  - rewrite drop_app_ge by lia. replace (Z.to_nat n - length (cstr buf))%nat with (Z.to_nat (n - zlen (cstr buf))) by lia.
    rewrite Hdb, drop_drop. f_equal. lia.
Qed.

Lemma strstart_ok str val : 0 ∈ str → 0 ∈ val →
  strstart str val =
    Some (if decide (cstr val `prefix_of` cstr str) then Some (drop (length (cstr val)) str) else None).
Proof.
  revert str. induction val as [|q val IH]; intros str Hs Hv; [by apply elem_of_nil in Hv|].
  cbn [strstart cstr]. destruct (Z.eqb_spec q 0) as [->|Hq].
  { rewrite decide_True by apply prefix_nil. cbn [length]. by rewrite drop_0. }
  apply elem_of_cons in Hv as [<-|Hv]; [done|].
  destruct str as [|p str]; [by apply elem_of_nil in Hs|]. cbn [cstr].
  destruct (Z.eqb_spec p 0) as [->|Hp].
  { rewrite (proj2 (Z.eqb_neq 0 q)) by done. rewrite decide_False; [done|]. by intros H%prefix_nil_not. }
  apply elem_of_cons in Hs as [<-|Hs]; [done|].
  destruct (Z.eqb_spec p q) as [->|Hpq].
  - rewrite IH by done. cbn [length drop]. f_equal.
    destruct (decide (cstr val `prefix_of` cstr str)) as [H|H].
    + rewrite decide_True; [done|by apply prefix_cons].
    + rewrite decide_False; [done|]. intros H'. by apply prefix_cons_inv_2 in H'.
  - rewrite decide_False; [done|]. intros H. apply prefix_cons_inv_1 in H. congruence.
Qed.

Lemma has_suffix_ok str suf : 0 ∈ str → 0 ∈ suf →
  has_suffix str suf = Some (bool_decide (cstr suf `suffix_of` cstr str)).
Proof.
  intros Hs Hf. destruct (strlen_cstr str Hs) as (Hl & Htk & Hlt).
  destruct (strlen_cstr suf Hf) as (Hl' & Htk' & Hlt').
  unfold has_suffix. rewrite Hl, Hl'. cbn [mbind option_bind].
  destruct (Z.leb_spec (zlen (cstr suf)) (zlen (cstr str))).
  - rewrite slice_Some, slice_Some by lia. cbn [mbind option_bind]. f_equal.
    rewrite drop_0, Nat2Z.id, Htk'. apply bool_decide_ext.
    assert (take (length (cstr suf)) (drop (Z.to_nat (zlen (cstr str) - zlen (cstr suf))) str) =
            drop (length (cstr str) - length (cstr suf)) (cstr str)) as ->.
    { rewrite take_drop_commute. replace (_ + _)%nat with (length (cstr str)) by lia.
      rewrite Htk. f_equal. lia. }
    split.
    + intros <-. exists (take (length (cstr str) - length (cstr suf)) (cstr str)). by rewrite take_drop.
    + intros [k Hk]. rewrite Hk. rewrite length_app.
      replace (length k + length (cstr suf) - length (cstr suf))%nat with (length k) by lia.
      apply drop_app_length.
  - f_equal. symmetry. apply bool_decide_eq_false. intros [k Hk].
    apply (f_equal length) in Hk. rewrite length_app in Hk. lia.
Qed.

(** The string helpers respect their buffers. [pstrcpy] writes the
    longest prefix of the source that fits and always a terminator, [pstrcat]
    does so behind the string already there, and neither writes at or beyond
    [buf_size]; [strstart] and [has_suffix] decide prefix and suffix, the first
    returning the rest. *)
Theorem cstring_ops buf n str other :
  0 ∈ str → 0 ∈ other → 0 < n <= zlen buf →
  (∃ buf', pstrcpy buf n str = Some buf' ∧ length buf' = length buf ∧
     cstr buf' = take (Z.to_nat (n - 1)) (cstr str) ∧ drop (Z.to_nat n) buf' = drop (Z.to_nat n) buf) ∧
  (n < 2 ^ 31 → 0 ∈ take (Z.to_nat n) buf →
   ∃ buf', pstrcat buf n str = Some buf' ∧ length buf' = length buf ∧
     cstr buf' = take (Z.to_nat (n - 1)) (cstr buf ++ cstr str) ∧
     drop (Z.to_nat n) buf' = drop (Z.to_nat n) buf) ∧
  strstart str other =
    Some (if decide (cstr other `prefix_of` cstr str) then Some (drop (length (cstr other)) str) else None) ∧
  has_suffix str other = Some (bool_decide (cstr other `suffix_of` cstr str)).
Proof.
  intros Hs Ho Hn. split_and!.
  - destruct (pstrcpy_ok buf n str Hs Hn) as (b' & ? & ? & _ & ? & ?). eauto.
  - intros. by apply pstrcat_ok.
  - by apply strstart_ok.
  - by apply has_suffix_ok.
Qed.

Lemma cstring_ops_witness :
  pstrcat [97; 98; 0; 9; 9] 4 [99; 100; 0] = Some [97; 98; 99; 0; 9] ∧
  has_suffix [97; 98; 99; 0] [98; 99; 0] = Some true.
Proof.
  destruct (cstring_ops [97; 98; 0; 9; 9] 4 [97; 98; 99; 0] [98; 99; 0]) as (_ & _ & _ & H).
  - by repeat constructor.
  - by repeat constructor.
  - cbn; lia.
  - split; [reflexivity|]. rewrite H. reflexivity.
Defined.

(** ** Byte order *)

(** Byte [k] of a word, masked out in place. *)
Lemma land_byte v k : 0 <= k → v .& (0xff << k) = ((v / 2 ^ k) mod 256) * 2 ^ k.
Proof.
  intros Hk. rewrite <- Z.shiftl_mul_pow2, <- Z.shiftr_div_pow2 by done.
  change 256 with (2 ^ 8). rewrite <- Z.land_ones by lia.
  apply Z.bits_inj'. intros n Hn. rewrite Z.land_spec, !Z.shiftl_spec by done.
  destruct (Z.lt_ge_cases n k).
  - rewrite !(Z.testbit_neg_r _ (n - k)) by lia. by rewrite andb_false_r.
  - rewrite Z.land_spec, Z.shiftr_spec by lia. do 2 f_equal. lia.
Qed.

Lemma lor_above x y k : 0 <= k → 0 <= x < 2 ^ k → x .| (y * 2 ^ k) = y * 2 ^ k + x.
Proof. intros. rewrite Z.lor_comm. by apply lor_low_high. Qed.

Lemma shiftr_byte b j k : 0 <= j <= k → (b * 2 ^ k) >> j = b * 2 ^ (k - j).
Proof.
  intros. rewrite Z.shiftr_div_pow2 by lia. replace (2 ^ k) with (2 ^ (k - j) * 2 ^ j)
    by (rewrite <- Z.pow_add_r by lia; f_equal; lia).
  rewrite Z.mul_assoc, Z.div_mul; [done|]. apply Z.pow_nonzero; lia.
Qed.

Lemma shiftl_byte b j k : 0 <= j → 0 <= k → (b * 2 ^ k) << j = b * 2 ^ (k + j).
Proof. intros. rewrite Z.shiftl_mul_pow2, Z.pow_add_r by lia. lia. Qed.

(** Byte [k] of a value. *)
Definition byte_of (v : Z) (k : Z) : Z := (v / 2 ^ (8 * k)) mod 256.

Lemma byte_range v k : 0 <= byte_of v k < 256.
Proof. apply Z.mod_pos_bound. lia. Qed.

Lemma le_bytes_byte n v : le_bytes n v = byte_of v ∘ Z.of_nat <$> seq 0 n.
Proof.
  revert v. induction n as [|n IH]; intros v; [done|].
  change (le_bytes (S n) v) with (v mod 256 :: le_bytes n (v / 256)). rewrite IH.
  cbn [seq]. rewrite fmap_cons, <- fmap_S_seq, <- list_fmap_compose. f_equal.
  { unfold compose, byte_of. cbn. by rewrite Z.div_1_r. }
  apply list_fmap_ext. intros i x _. unfold compose, byte_of. f_equal.
  rewrite Z.div_div by (try apply Z.pow_nonzero; lia). f_equal.
  replace (8 * Z.of_nat (S x)) with (8 + 8 * Z.of_nat x) by lia. rewrite Z.pow_add_r by lia. done.
Qed.

(** [lor] of bytes in ascending, disjoint positions. *)
Lemma lor_byte x v i k : 0 <= k → 0 <= x < 2 ^ k →
  x .| (byte_of v i * 2 ^ k) = x + byte_of v i * 2 ^ k ∧ 0 <= x + byte_of v i * 2 ^ k < 2 ^ (k + 8).
Proof.
  intros Hk Hx. pose proof (byte_range v i). rewrite lor_above by done.
  rewrite Z.pow_add_r by lia. nia.
Qed.

(** Turn the [lor] of the bytes of a word into their sum, innermost first. *)
Ltac lor_bytes :=
  repeat match goal with
  | |- context [?x .| (byte_of ?v ?i * 2 ^ ?k)] =>
      lazymatch x with context [Z.lor] => fail | _ => idtac end;
      let H := fresh in
      destruct (lor_byte x v i k) as [-> H]; [lia|first [lia|pose proof (byte_range v i); assumption]|]
  end.

Ltac mask_bytes v n :=
  lazymatch n with
  | O => idtac
  | S ?m =>
      let k := eval vm_compute in (Z.of_nat m) in
      rewrite ?(land_byte v (8 * k)) by lia; fold (byte_of v k); mask_bytes v m
  end.

Lemma u32_byte v i k : 0 <= k <= 24 → u32 (byte_of v i * 2 ^ k) = byte_of v i * 2 ^ k.
Proof.
  intros Hk. apply u32_id. unfold is_u32. pose proof (byte_range v i).
  pose proof (Z.pow_le_mono_r 2 k 24). pose proof (Z.pow_pos_nonneg 2 k). nia.
Qed.

Lemma u64_byte v i k : 0 <= k <= 56 → u64 (byte_of v i * 2 ^ k) = byte_of v i * 2 ^ k.
Proof.
  intros Hk. apply u64_id. unfold is_u64. pose proof (byte_range v i).
  pose proof (Z.pow_le_mono_r 2 k 56). pose proof (Z.pow_pos_nonneg 2 k). nia.
Qed.

Lemma bswap32_bytes v : bswap32 v = le_val (reverse (le_bytes 4 v)).
Proof.
  unfold bswap32. change 0xff000000 with (0xff << (8 * 3)). change 0xff0000 with (0xff << (8 * 2)).
  change 0xff00 with (0xff << (8 * 1)). change (v .& 0xff) with (v .& (0xff << (8 * 0))).
  mask_bytes v 4%nat. rewrite !shiftr_byte, !shiftl_byte, !u32_byte by lia.
  rewrite le_bytes_byte. change (le_val _) with
    (byte_of v 3 + 256 * (byte_of v 2 + 256 * (byte_of v 1 + 256 * (byte_of v 0 + 256 * 0)))).
  change (8 * 3 - 24) with 0. change (8 * 2 - 8) with 8. change (8 * 1 + 8) with 16. change (8 * 0 + 24) with 24.
  pose proof (byte_range v 3). lor_bytes. lia.
Qed.

Lemma bswap64_bytes v : bswap64 v = le_val (reverse (le_bytes 8 v)).
Proof.
  unfold bswap64.
  change (u64 (0xff << (7 * 8))) with (0xff << (8 * 7)). change (u64 (0xff << (6 * 8))) with (0xff << (8 * 6)).
  change (u64 (0xff << (5 * 8))) with (0xff << (8 * 5)). change (u64 (0xff << (4 * 8))) with (0xff << (8 * 4)).
  change (u64 (0xff << (3 * 8))) with (0xff << (8 * 3)). change (u64 (0xff << (2 * 8))) with (0xff << (8 * 2)).
  change (u64 (0xff << (1 * 8))) with (0xff << (8 * 1)). change (u64 (0xff << (0 * 8))) with (0xff << (8 * 0)).
  mask_bytes v 8%nat. rewrite !shiftr_byte, !shiftl_byte, !u64_byte by lia.
  rewrite le_bytes_byte. change (le_val _) with
    (byte_of v 7 + 256 * (byte_of v 6 + 256 * (byte_of v 5 + 256 * (byte_of v 4 + 256 *
    (byte_of v 3 + 256 * (byte_of v 2 + 256 * (byte_of v 1 + 256 * (byte_of v 0 + 256 * 0)))))))).
  cbn [Z.mul Z.sub Z.add Z.opp Z.pos_sub Pos.mul Pos.add].
  pose proof (byte_range v 7). lor_bytes. lia.
Qed.

Lemma bswap16_bytes v : is_u16 v → bswap16 v = le_val (reverse (le_bytes 2 v)).
Proof.
  intros Hv. unfold is_u16 in Hv. unfold bswap16. rewrite Z.shiftl_mul_pow2, Z.shiftr_div_pow2 by lia.
  rewrite lor_above by zmod_lia.
  change (le_val _) with ((v / 256) mod 256 + 256 * (v mod 256 + 256 * 0)). zmod_lia.
Qed.

(** Reversing the bytes twice. *)
Lemma swap_swap n v : 0 <= v < 256 ^ Z.of_nat n →
  le_val (reverse (le_bytes n (le_val (reverse (le_bytes n v))))) = v.
Proof.
  intros Hv. set (bs := reverse (le_bytes n v)).
  assert (Forall is_u8 bs) by apply Forall_reverse, le_bytes_bytes.
  assert (length bs = n) as Hl by (unfold bs; by rewrite length_reverse, le_bytes_length).
  rewrite <- Hl at 1. rewrite le_bytes_val by done. unfold bs. rewrite reverse_involutive, le_val_bytes.
  by apply Z.mod_small.
Qed.

Lemma put_get n tab v : 0 <= v < 256 ^ Z.of_nat n → (n <= length tab)%nat →
  ∃ tab', splice tab 0 (le_bytes n v) = Some tab' ∧
    (b ← slice tab' 0 (Z.of_nat n); Some (le_val b)) = Some v ∧ drop n tab' = drop n tab.
Proof.
  intros Hv Hl. rewrite splice_Some by (rewrite ?le_bytes_length; lia). change (Z.to_nat 0) with 0%nat.
  rewrite take_0, app_nil_l, le_bytes_length, Nat.add_0_l. eexists. split; [done|].
  rewrite slice_Some by (rewrite ?length_app, ?le_bytes_length; lia). change (Z.to_nat 0) with 0%nat.
  cbn [mbind option_bind]. rewrite drop_0, Nat2Z.id, take_app_length' by (by rewrite le_bytes_length).
  rewrite le_val_bytes, Z.mod_small by done. split; [done|]. apply drop_app_length'. by rewrite le_bytes_length.
Qed.

(** Byte order. [bswap16/32/64] reverse the bytes of a value, and
    reverse back; a value stored with [put_u16/32/64] at any address is what
    the matching [get] reads, as unsigned and as two's complement, and the
    bytes behind it are untouched. *)
Theorem byte_order tab v :
  (is_u16 v → bswap16 v = le_val (reverse (le_bytes 2 v)) ∧ bswap16 (bswap16 v) = v) ∧
  (is_u32 v → bswap32 v = le_val (reverse (le_bytes 4 v)) ∧ bswap32 (bswap32 v) = v) ∧
  (is_u64 v → bswap64 v = le_val (reverse (le_bytes 8 v)) ∧ bswap64 (bswap64 v) = v) ∧
  (is_u16 v → (2 <= length tab)%nat → ∃ tab', put_u16 tab v = Some tab' ∧ get_u16 tab' = Some v ∧
     get_i16 tab' = Some (if v <? 2 ^ 15 then v else v - 2 ^ 16) ∧ drop 2 tab' = drop 2 tab) ∧
  (is_u32 v → (4 <= length tab)%nat → ∃ tab', put_u32 tab v = Some tab' ∧ get_u32 tab' = Some v ∧
     get_i32 tab' = Some (s32 v) ∧ drop 4 tab' = drop 4 tab) ∧
  (is_u64 v → (8 <= length tab)%nat → ∃ tab', put_u64 tab v = Some tab' ∧ get_u64 tab' = Some v ∧
     get_i64 tab' = Some (s64 v) ∧ drop 8 tab' = drop 8 tab).
Proof.
  split_and!; intros Hv.
  - assert (is_u16 (bswap16 v)) by apply u16_range.
    rewrite (bswap16_bytes (bswap16 v)), (bswap16_bytes v) by done. split; [done|]. by apply (swap_swap 2).
  - rewrite !bswap32_bytes. split; [done|]. apply (swap_swap 4). done.
  - rewrite !bswap64_bytes. split; [done|]. apply (swap_swap 8). done.
  - intros Hl. destruct (put_get 2 tab v Hv Hl) as (tab' & Hp & Hg & Hd).
    exists tab'. split_and!; [done|done| |done]. unfold get_i16.
    change (get_u16 tab' = Some v) in Hg. by rewrite Hg.
  - intros Hl. destruct (put_get 4 tab v Hv Hl) as (tab' & Hp & Hg & Hd).
    exists tab'. split_and!; [done|done| |done]. unfold get_i32.
    change (get_u32 tab' = Some v) in Hg. by rewrite Hg.
  - intros Hl. destruct (put_get 8 tab v Hv Hl) as (tab' & Hp & Hg & Hd).
    exists tab'. split_and!; [done|done| |done]. unfold get_i64.
    change (get_u64 tab' = Some v) in Hg. by rewrite Hg.
Qed.

Lemma byte_order_witness :
  bswap32 (bswap32 0x12345678) = 0x12345678 ∧
  ∃ tab', put_u32 [0; 0; 0; 0; 9] 0xfffffffe = Some tab' ∧ get_i32 tab' = Some (-2).
Proof.
  destruct (byte_order [0; 0; 0; 0; 9] 0xfffffffe) as (_ & _ & _ & _ & H & _).
  destruct H as (tab' & Hp & _ & Hi & _); [unfold is_u32; lia|cbn; lia|].
  split; [|by exists tab'].
  destruct (byte_order [] 0x12345678) as (_ & H32 & _). apply H32. unfold is_u32. lia.
Defined.

End Cutils.
