(* ===== verification/Qsort.v ===== *)
(** * Sorting in the JS engine ([rqsort] of [quickjs/cutils.c])

    The sort behind [Array.prototype.sort]: quicksort with a three-way
    partition and an explicit stack of 50 entries, insertion sort for small
    segments and heap sort beyond depth 50. The comparison is any function, as
    a script may supply any; what it must satisfy for the result to be sorted
    is a hypothesis of the theorem about sortedness only.

    Pointers into the array are element indices: every pointer of the C code
    is the base plus a multiple of [size]. A routine that gets a pointer and a
    count gets the list of those elements, and an access outside of it is
    [None]. What the byte-wise exchange functions do to whole elements is
    the subject of [Exchange.v]. *)

From Stdlib Require Import Sorted.
From S2P Require Import Prelude.

Module Qsort.

Section sort.
Context {A : Type} (cmp : A → A → Z).

Definition swap (a : list A) (i j : nat) : option (list A) :=
  x ← a !! i; y ← a !! j; Some (<[i := y]> (<[j := x]> a)).

Definition cmp_at (a : list A) (i j : nat) : option Z :=
  x ← a !! i; y ← a !! j; Some (cmp x y).

(** ** Heap sort *)

(** The inner loop: element [r] sinks in the heap [a[0 .. n)]. *)
Fixpoint sift (fuel : nat) (a : list A) (r n : nat) : option (list A) :=
  match fuel with
  | O => None
  | S fuel =>
      let c := (r * 2 + 1)%nat in
      if (c <? n)%nat then
        c ← (if (c <? n - 1)%nat
             then d ← cmp_at a c (c + 1); Some (if d <=? 0 then (c + 1)%nat else c)
             else Some c);
        d ← cmp_at a r c;
        if 0 <? d then Some a
        else a ← swap a r c; sift fuel a c n
      else Some a
  end.

Fixpoint heap_build (i : nat) (a : list A) (n : nat) : option (list A) :=
  match i with
  | O => Some a
  | S i => a ← sift n a i n; heap_build i a n
  end.

Fixpoint heap_extract (i : nat) (a : list A) : option (list A) :=
  match i with
  | O => Some a
  | S i' => a ← swap a 0 i; a ← sift i a 0 i; heap_extract i' a
  end.

Definition heapsortx (a : list A) (nmemb : nat) : option (list A) :=
  if (1 <? nmemb)%nat then
    a ← heap_build (nmemb / 2) a nmemb;
    heap_extract (nmemb - 1) a
  else Some a.

(** ** Partitioning *)

Definition med3 (s : list A) (a b c : nat) : option nat :=
  ab ← cmp_at s a b;
  bc ← cmp_at s b c;
  if ab <? 0
  then if bc <? 0 then Some b else ac ← cmp_at s a c; Some (if ac <? 0 then c else a)
  else if 0 <? bc then Some b else ac ← cmp_at s a c; Some (if ac <? 0 then a else c).

(** The first inner loop, from [pi] up to [pj]; [lt] counts the elements
    equal to the pivot moved to the front. The result is the array, [pi] and
    [lt]. *)
Fixpoint scan_up (fuel : nat) (a : list A) (pi pj lt : nat) : option (list A * nat * nat) :=
  match fuel with
  | O => None
  | S fuel =>
      if (pi <? pj)%nat then
        c ← cmp_at a 0 pi;
        if 0 <=? c then
          if c =? 0 then a ← swap a lt pi; scan_up fuel a (pi + 1) pj (lt + 1)
          else scan_up fuel a (pi + 1) pj lt
        else Some (a, pi, lt)
      else Some (a, pi, lt)
  end.

(** The second inner loop; it decrements [pj] before each test. *)
Fixpoint scan_down (fuel : nat) (a : list A) (pi pj gt : nat) : option (list A * nat * nat) :=
  match fuel with
  | O => None
  | S fuel =>
      let pj := (pj - 1)%nat in
      if (pi <? pj)%nat then
        c ← cmp_at a 0 pj;
        if c <=? 0 then
          if c =? 0 then
            let gt := (gt - 1)%nat in
            a ← swap a gt pj; scan_down fuel a pi pj gt
          else scan_down fuel a pi pj gt
        else Some (a, pj, gt)
      else Some (a, pj, gt)
  end.

(** The [for (;;)] loop; the result is the array, [pi], [lt] and [gt]. *)
Fixpoint part_loop (fuel : nat) (a : list A) (pi pj lt gt : nat)
    : option (list A * nat * nat * nat) :=
  match fuel with
  | O => None
  | S fuel =>
      '(a, pi, lt) ← scan_up (S (length a)) a pi pj lt;
      '(a, pj, gt) ← scan_down (S (length a)) a pi pj gt;
      if (pj <=? pi)%nat then Some (a, pi, lt, gt)
      else a ← swap a pi pj; part_loop fuel a (pi + 1) pj lt gt
  end.

(** [swap_block] on [k] elements at [i] and [j]. *)
Fixpoint swap_block (k : nat) (a : list A) (i j : nat) : option (list A) :=
  match k with
  | O => Some a
  | S k => a ← swap a i j; swap_block k a (i + 1) (j + 1)
  end.

(** One round of the quicksort loop on a segment of [nmemb] elements: the
    segment rearranged, the end of the smaller elements and the start of the
    greater ones. *)
Definition partition_step (a : list A) (nmemb : nat) : option (list A * nat * nat) :=
  let m4 := (nmemb / 4)%nat in
  m ← med3 a m4 (2 * m4) (3 * m4);
  a ← swap a 0 m;
  '(a, pi, lt, gt) ← part_loop (S nmemb) a 1 nmemb 1 nmemb;
  let span := Nat.min lt (pi - lt) in
  a ← swap_block span a 0 (pi - span);
  let span := Nat.min (nmemb - gt) (gt - pi) in
  a ← swap_block span a pi (nmemb - span);
  Some (a, (pi - lt)%nat, (nmemb - (gt - pi))%nat).

(** ** Insertion sort *)

Fixpoint ins_inner (pj : nat) (a : list A) : option (list A) :=
  match pj with
  | O => Some a
  | S k =>
      c ← cmp_at a k pj;
      if 0 <? c then a ← swap a pj k; ins_inner k a else Some a
  end.

(** [k] elements from [pi] on are inserted. *)
Fixpoint ins_outer (k pi : nat) (a : list A) : option (list A) :=
  match k with
  | O => Some a
  | S k => a ← ins_inner pi a; ins_outer k (pi + 1) a
  end.

Definition insertion_sort (a : list A) (nmemb : nat) : option (list A) :=
  ins_outer (nmemb - 1) 1 a.

(** ** The quicksort driver *)

Record frame : Set := mk_frame { base : nat; count : nat; fdepth : nat }.

(** The local stack has 50 entries; a push beyond is out of bounds. *)
Definition push (f : frame) (stk : list frame) : option (list frame) :=
  if (length stk <? 50)%nat then Some (f :: stk) else None.

(** The elements from [ptr] on, [n] of them, and putting them back. *)
Definition seg (a : list A) (ptr n : nat) : option (list A) :=
  if (ptr + n <=? length a)%nat then Some (take n (drop ptr a)) else None.
Definition put (a : list A) (ptr : nat) (s : list A) : list A :=
  take ptr a ++ s ++ drop (ptr + length s) a.

(** The loop [while (nmemb > 6)]. *)
Fixpoint rq_inner (fuel : nat) (a : list A) (stk : list frame) (ptr nmemb depth : nat)
    : option (list A * list frame * nat * nat) :=
  match fuel with
  | O => None
  | S fuel =>
      if (6 <? nmemb)%nat then
        let depth := S depth in
        s ← seg a ptr nmemb;
        if (50 <? depth)%nat then
          s ← heapsortx s nmemb; Some (put a ptr s, stk, ptr, 0%nat)
        else
          '(s, lt, gt) ← partition_step s nmemb;
          let a := put a ptr s in
          if (nmemb - gt <? lt)%nat then
            stk ← push (mk_frame ptr lt depth) stk;
            rq_inner fuel a stk (ptr + gt) (nmemb - gt) depth
          else
            stk ← push (mk_frame (ptr + gt) (nmemb - gt) depth) stk;
            rq_inner fuel a stk ptr lt depth
      else Some (a, stk, ptr, nmemb)
  end.

(** The loop [while (sp > stack)]. *)
Fixpoint rq_outer (fuel : nat) (a : list A) (stk : list frame) : option (list A) :=
  match stk with
  | [] => Some a
  | f :: stk =>
      match fuel with
      | O => None
      | S fuel =>
          '(a, stk, ptr, nmemb) ← rq_inner (S (count f)) a stk (base f) (count f) (fdepth f);
          s ← seg a ptr nmemb;
          s ← insertion_sort s nmemb;
          rq_outer fuel (put a ptr s) stk
      end
  end.

Definition rqsort (a : list A) (nmemb : nat) : option (list A) :=
  if (nmemb <? 2)%nat then Some a
  else stk ← push (mk_frame 0 nmemb 0) []; rq_outer (S nmemb) a stk.

(** ** Exchanges permute *)

(** [a'] is [a] with positions [i] and [j] exchanged. *)
Definition swapped (a a' : list A) (i j : nat) : Prop :=
  ∀ k, a' !! k = if decide (k = i) then a !! j else if decide (k = j) then a !! i else a !! k.

Lemma swapped_perm a a' i j : length a' = length a → swapped a a' i j → a' ≡ₚ a.
Proof.
  intros Hl H. apply Permutation_inj. split; [done|].
  exists (λ k, if decide (k = i) then j else if decide (k = j) then i else k). split.
  - intros k1 k2. repeat case_decide; congruence.
  - intros k. rewrite H. by repeat case_decide.
Qed.

Lemma swap_ok a i j : (i < length a)%nat → (j < length a)%nat →
  ∃ a', swap a i j = Some a' ∧ a' ≡ₚ a ∧ length a' = length a ∧ swapped a a' i j.
Proof.
  intros Hi Hj. unfold swap.
  destruct (lookup_lt_is_Some_2 a i Hi) as [x Hx], (lookup_lt_is_Some_2 a j Hj) as [y Hy].
  rewrite Hx, Hy. cbn [mbind option_bind]. eexists. split; [done|].
  assert (swapped a (<[i:=y]> (<[j:=x]> a)) i j) as Hs.
  { intros k. repeat case_decide; subst.
    - rewrite list_lookup_insert_eq by (rewrite length_insert; lia). done.
    - rewrite list_lookup_insert_ne, list_lookup_insert_eq by lia. done.
    - by rewrite !list_lookup_insert_ne by lia. }
  split_and!; [|by rewrite !length_insert|done].
  eapply swapped_perm; [by rewrite !length_insert|done].
Qed.

Lemma cmp_at_ok a i j : (i < length a)%nat → (j < length a)%nat →
  ∃ x y, a !! i = Some x ∧ a !! j = Some y ∧ cmp_at a i j = Some (cmp x y).
Proof.
  intros Hi Hj. unfold cmp_at.
  destruct (lookup_lt_is_Some_2 a i Hi) as [x Hx], (lookup_lt_is_Some_2 a j Hj) as [y Hy].
  exists x, y. by rewrite Hx, Hy.
Qed.

(** Every element of [a[lo .. hi)] satisfies [P]. *)
Definition region (a : list A) (lo hi : nat) (P : A → Prop) : Prop :=
  ∀ k x, (lo <= k < hi)%nat → a !! k = Some x → P x.

Lemma region_same a a' lo hi P :
  region a lo hi P → (∀ k, (lo <= k < hi)%nat → a' !! k = a !! k) → region a' lo hi P.
Proof. intros H Heq k x Hk. rewrite Heq by done. by apply H. Qed.

Lemma region_snoc a lo hi P x :
  region a lo hi P → a !! hi = Some x → P x → region a lo (S hi) P.
Proof.
  intros H Hx HP k y Hk Hy. destruct (decide (k = hi)) as [->|]; [congruence|]. apply (H k); [lia|done].
Qed.

Lemma region_cons a lo hi P x :
  region a (S lo) hi P → a !! lo = Some x → P x → region a lo hi P.
Proof.
  intros H Hx HP k y Hk Hy. destruct (decide (k = lo)) as [->|]; [congruence|]. apply (H k); [lia|done].
Qed.

(** ** The partition *)

(** How an element compares to the pivot [p]. *)
Definition EQ (p x : A) : Prop := x = p ∨ cmp p x = 0.
Definition LT (p x : A) : Prop := 0 < cmp p x.
Definition GT (p x : A) : Prop := cmp p x < 0.

Lemma scan_up_ok p fuel a pi pj lt :
  (pj - pi < fuel)%nat → (1 <= lt <= pi)%nat → (pi <= pj <= length a)%nat → a !! 0%nat = Some p →
  region a 0 lt (EQ p) → region a lt pi (LT p) →
  ∃ a' pi' lt', scan_up fuel a pi pj lt = Some (a', pi', lt') ∧ a' ≡ₚ a ∧
    (1 <= lt' <= pi')%nat ∧ (pi <= pi' <= pj)%nat ∧ a' !! 0%nat = Some p ∧
    region a' 0 lt' (EQ p) ∧ region a' lt' pi' (LT p) ∧
    (∀ k, (pj <= k)%nat → a' !! k = a !! k) ∧
    (pi' = pj ∨ ∃ x, a' !! pi' = Some x ∧ GT p x).
Proof.
  revert a pi lt. induction fuel as [|fuel IH]; intros a pi lt Hf Hlt Hpi Hp He Hl; [lia|].
  cbn [scan_up]. destruct (Nat.ltb_spec pi pj).
  2: { exists a, pi, lt. split_and!; try done; try lia. }
  destruct (cmp_at_ok a 0 pi) as (p' & x & Hp' & Hx & ->); [lia|lia|].
  assert (p' = p) as -> by congruence. cbn [mbind option_bind].
  destruct (Z.leb_spec 0 (cmp p x)) as [Hc|Hc].
  2: { exists a, pi, lt. split_and!; try done; try lia. right. by exists x. }
  destruct (Z.eqb_spec (cmp p x) 0) as [Hz|Hz].
  - destruct (swap_ok a lt pi) as (a1 & -> & Hperm & Hlen & Hsw); [lia|lia|]. cbn [mbind option_bind].
    destruct (IH a1 (pi + 1)%nat (lt + 1)%nat) as (a' & pi' & lt' & Hr & Hperm' & H1 & H2 & H3 & H4 & H5 & H6 & H7);
      try lia.
    + rewrite Hsw. repeat case_decide; (done || lia).
    + rewrite Nat.add_1_r. apply (region_snoc _ _ _ _ x).
      * apply (region_same a); [done|]. intros k Hk. rewrite Hsw. repeat case_decide; (done || lia).
      * rewrite Hsw. by case_decide.
      * by right.
    + intros k y Hk. rewrite Hsw. repeat case_decide; subst; try lia.
      * intros Hy. apply (Hl lt); [lia|done].
      * apply Hl. lia.
    + exists a', pi', lt'. split_and!; try done; try lia.
      * by rewrite Hperm'.
      * intros k Hk. rewrite H6 by done. rewrite Hsw. repeat case_decide; (done || lia).
  - destruct (IH a (pi + 1)%nat lt) as (a' & pi' & lt' & Hr & Hperm' & H1 & H2 & H3 & H4 & H5 & H6 & H7); try done; try lia.
    + rewrite Nat.add_1_r. apply (region_snoc _ _ _ _ x); [done|done|unfold LT; lia].
    + exists a', pi', lt'. split_and!; try done; lia.
Qed.

Lemma scan_down_ok p fuel a pi pj gt :
  (pj - pi < fuel)%nat → (1 <= pi <= pj)%nat → (pj <= gt <= length a)%nat → a !! 0%nat = Some p →
  region a pj gt (GT p) → region a gt (length a) (EQ p) →
  (pi = pj ∨ ∃ x, a !! pi = Some x ∧ GT p x) →
  ∃ a' pj' gt', scan_down fuel a pi pj gt = Some (a', pj', gt') ∧ a' ≡ₚ a ∧
    (pj' < pj)%nat ∧ (pj' < gt')%nat ∧ (pi <= gt' <= gt)%nat ∧
    (∀ k, (k <= pi)%nat → a' !! k = a !! k) ∧ region a' gt' (length a) (EQ p) ∧
    (((pj' <= pi)%nat ∧ region a' pi gt' (GT p)) ∨
     ((pi < pj')%nat ∧ region a' (S pj') gt' (GT p) ∧ ∃ x, a' !! pj' = Some x ∧ LT p x)).
Proof.
  revert a pj gt. induction fuel as [|fuel IH]; intros a pj gt Hf Hpi Hgt Hp Hg He Hx0; [lia|].
  cbn [scan_down]. destruct (Nat.ltb_spec pi (pj - 1)) as [Hlt|Hge].
  2: { exists a, (pj - 1)%nat, gt. split_and!; try done; try lia. left. split; [lia|].
       destruct (decide (pi = pj)) as [->|]; [done|]. destruct Hx0 as [|(x & Hx & Hc)]; [done|].
       apply (region_cons _ _ _ _ x); [|done|done]. by replace (S pi) with pj by lia. }
  destruct (cmp_at_ok a 0 (pj - 1)) as (p' & x & Hp' & Hx & ->); [lia|lia|].
  assert (p' = p) as -> by congruence. cbn [mbind option_bind].
  destruct Hx0 as [->|(x0 & Hx0 & Hc0)]; [lia|].
  destruct (Z.leb_spec (cmp p x) 0) as [Hc|Hc].
  2: { exists a, (pj - 1)%nat, gt. split_and!; try done; try lia. right. split_and!; [done| |by exists x].
       by replace (S (pj - 1)) with pj by lia. }
  destruct (Z.eqb_spec (cmp p x) 0) as [Hz|Hz].
  - destruct (swap_ok a (gt - 1) (pj - 1)) as (a1 & -> & Hperm & Hlen & Hsw); [lia|lia|]. cbn [mbind option_bind].
    assert (∀ k, (k <= pi)%nat → a1 !! k = a !! k) as Hlow.
    { intros k Hk. rewrite Hsw. repeat case_decide; (done || lia). }
    destruct (IH a1 (pj - 1)%nat (gt - 1)%nat) as (a' & pj' & gt' & Hr & Hperm' & H1 & H2 & H3 & H4 & H5 & H6);
      try lia.
    + rewrite Hlow by lia. done.
    + intros k y Hk. rewrite Hsw. repeat case_decide; try lia.
      * apply Hg. lia.
      * apply Hg. lia.
    + rewrite Hlen. apply (region_cons _ _ _ _ x).
      * replace (S (gt - 1)) with gt by lia. apply (region_same a); [done|].
        intros k Hk. rewrite Hsw. repeat case_decide; (done || lia).
      * rewrite Hsw. by case_decide.
      * by right.
    + right. exists x0. by rewrite Hlow.
    + exists a', pj', gt'. rewrite Hlen in H5. split_and!; try done; try lia.
      * by rewrite Hperm'.
      * intros k Hk. rewrite H4 by done. by apply Hlow.
  - destruct (IH a (pj - 1)%nat gt) as (a' & pj' & gt' & Hr & Hperm' & H1 & H2 & H3 & H4 & H5 & H6); try done; try lia.
    + apply (region_cons _ _ _ _ x); [|done|unfold GT; lia]. by replace (S (pj - 1)) with pj by lia.
    + right. by exists x0.
    + exists a', pj', gt'. split_and!; try done; lia.
Qed.

Lemma perm_length (a a' : list A) : a' ≡ₚ a → length a' = length a.
Proof. by intros ->. Qed.

Lemma part_loop_ok p fuel a pi pj lt gt :
  (pj - pi < fuel)%nat → (1 <= lt <= pi)%nat → (pi <= pj <= gt)%nat → (gt <= length a)%nat → a !! 0%nat = Some p →
  region a 0 lt (EQ p) → region a lt pi (LT p) → region a pj gt (GT p) → region a gt (length a) (EQ p) →
  ∃ a' pi' lt' gt', part_loop fuel a pi pj lt gt = Some (a', pi', lt', gt') ∧ a' ≡ₚ a ∧
    (1 <= lt' <= pi')%nat ∧ (pi' <= gt' <= length a)%nat ∧
    region a' 0 lt' (EQ p) ∧ region a' lt' pi' (LT p) ∧
    region a' pi' gt' (GT p) ∧ region a' gt' (length a) (EQ p).
Proof.
  revert a pi pj lt gt. induction fuel as [|fuel IH]; intros a pi pj lt gt Hf Hlt Hpi Hgt Hp He Hl Hg He2; [lia|].
  cbn [part_loop].
  destruct (scan_up_ok p (S (length a)) a pi pj lt) as (a1 & pi1 & lt1 & -> & P1 & B1 & B2 & Hp1 & R1 & R2 & Hhi & Hend);
    try done; try lia.
  cbn [mbind option_bind]. pose proof (perm_length _ _ P1) as L1.
  destruct (scan_down_ok p (S (length a1)) a1 pi1 pj gt) as (a2 & pj2 & gt2 & -> & P2 & C1 & C2 & C3 & Hlow & R3 & Hcase);
    try done; try lia.
  { apply (region_same a); [done|]. intros. apply Hhi. lia. }
  { rewrite L1. apply (region_same a); [done|]. intros. apply Hhi. lia. }
  cbn [mbind option_bind]. rewrite L1 in *.
  assert (region a2 0 lt1 (EQ p)) as R1'. { apply (region_same a1); [done|]. intros. apply Hlow. lia. }
  assert (region a2 lt1 pi1 (LT p)) as R2'. { apply (region_same a1); [done|]. intros. apply Hlow. lia. }
  pose proof (perm_length _ _ P2) as L2.
  destruct (Nat.leb_spec pj2 pi1) as [Hle|Hgt'].
  - destruct Hcase as [[_ R4]|[? _]]; [|lia].
    exists a2, pi1, lt1, gt2. split_and!; try done; try lia. by rewrite P2.
  - destruct Hcase as [[? _]|(_ & R4 & x & Hx & Hc)]; [lia|].
    destruct Hend as [->|(y & Hy & Hcy)]; [lia|]. rewrite <- Hlow in Hy by lia.
    destruct (swap_ok a2 pi1 pj2) as (a3 & -> & P3 & L3 & Hsw); [lia|lia|]. cbn [mbind option_bind].
    assert (∀ k, k ≠ pi1 → k ≠ pj2 → a3 !! k = a2 !! k) as Hoth.
    { intros. rewrite Hsw. by repeat case_decide. }
    destruct (IH a3 (pi1 + 1)%nat pj2 lt1 gt2) as (a' & pi' & lt' & gt' & Hr & P4 & D1 & D2 & R5 & R6 & R7 & R8);
      try lia.
    + rewrite Hoth by lia. rewrite Hlow by lia. done.
    + apply (region_same a2); [done|]. intros. apply Hoth; lia.
    + rewrite Nat.add_1_r. apply (region_snoc _ _ _ _ x); [|by rewrite Hsw, decide_True|done].
      apply (region_same a2); [done|]. intros. apply Hoth; lia.
    + apply (region_cons _ _ _ _ y); [|by rewrite Hsw, decide_False, decide_True by lia|done].
      apply (region_same a2); [done|]. intros. apply Hoth; lia.
    + replace (length a3) with (length a) by lia. apply (region_same a2); [done|]. intros. apply Hoth; lia.
    + replace (length a3) with (length a) in * by lia.
      exists a', pi', lt', gt'. split_and!; try done; try lia. by rewrite P4, P3, P2.
Qed.

Lemma swap_block_ok k a i j : (i + k <= j)%nat → (j + k <= length a)%nat →
  ∃ a', swap_block k a i j = Some a' ∧ a' ≡ₚ a ∧
    ∀ m, a' !! m = if decide (i <= m < i + k)%nat then a !! (m - i + j)%nat
                   else if decide (j <= m < j + k)%nat then a !! (m - j + i)%nat else a !! m.
Proof.
  revert a i j. induction k as [|k IH]; intros a i j Hi Hj; cbn [swap_block].
  { exists a. split_and!; [done|done|]. intros m. by rewrite !decide_False by lia. }
  destruct (swap_ok a i j) as (a1 & -> & P1 & L1 & Hsw); [lia|lia|]. cbn [mbind option_bind].
  destruct (IH a1 (i + 1)%nat (j + 1)%nat) as (a' & Hr & P2 & H); [lia|lia|].
  exists a'. split_and!; [done|by rewrite P2|]. intros m. rewrite H.
  repeat case_decide; rewrite Hsw; repeat case_decide; try lia; f_equal; lia.
Qed.

(** Exchanging the smaller of two adjacent blocks with the far end of the
    other exchanges the blocks. *)
Lemma swap_block_rotate a o l m P Q : (l <= m)%nat → (o + m <= length a)%nat →
  region a o (o + l) P → region a (o + l) (o + m) Q →
  ∃ a', swap_block (Nat.min l (m - l)) a o (o + m - Nat.min l (m - l)) = Some a' ∧ a' ≡ₚ a ∧
    region a' o (o + (m - l)) Q ∧ region a' (o + (m - l)) (o + m) P ∧
    ∀ k, ¬ (o <= k < o + m)%nat → a' !! k = a !! k.
Proof.
  intros Hl Hm HP HQ. set (s := Nat.min l (m - l)). assert (s = l ∨ s = m - l)%nat as Hs by lia.
  assert (s <= l ∧ s <= m - l)%nat as [Hs1 Hs2] by lia. clearbody s.
  destruct (swap_block_ok s a o (o + m - s)) as (a' & Hr & P1 & H); [lia|lia|].
  exists a'. split_and!; [done|done| | |].
  - intros k x Hk. rewrite H. destruct (decide (o <= k < o + s)%nat); [|rewrite decide_False by lia]; apply HQ; lia.
  - intros k x Hk. rewrite H. destruct (decide (o <= k < o + s)%nat); [lia|].
    destruct (decide (o + m - s <= k < o + m - s + s)%nat); apply HP; lia.
  - intros k Hk. by rewrite H, !decide_False by lia.
Qed.

Lemma med3_ok s a b c : (a < length s)%nat → (b < length s)%nat → (c < length s)%nat →
  ∃ m, med3 s a b c = Some m ∧ m ∈ [a; b; c].
Proof.
  intros Ha Hb Hc. unfold med3.
  destruct (cmp_at_ok s a b Ha Hb) as (? & ? & _ & _ & ->), (cmp_at_ok s b c Hb Hc) as (? & ? & _ & _ & ->),
    (cmp_at_ok s a c Ha Hc) as (? & ? & _ & _ & ->). cbn [mbind option_bind].
  repeat case_match; eexists; (split; [done|]); rewrite !elem_of_cons; auto.
Qed.

(** What a round of quicksort establishes. *)
Lemma partition_step_ok a nmemb : length a = nmemb → (6 < nmemb)%nat →
  ∃ a' lt gt p, partition_step a nmemb = Some (a', lt, gt) ∧ a' ≡ₚ a ∧ (lt < gt <= nmemb)%nat ∧
    region a' 0 lt (LT p) ∧ region a' lt gt (EQ p) ∧ region a' gt nmemb (GT p).
Proof.
  intros Hl Hn. unfold partition_step.
  pose proof (Nat.Div0.mul_div_le nmemb 4).
  destruct (med3_ok a (nmemb / 4) (2 * (nmemb / 4)) (3 * (nmemb / 4))) as (m & -> & Hm); try lia.
  assert (m < length a)%nat by (rewrite !elem_of_cons, elem_of_nil in Hm; lia).
  cbn [mbind option_bind]. destruct (swap_ok a 0 m) as (a1 & -> & P1 & L1 & _); [lia|lia|].
  cbn [mbind option_bind]. destruct (lookup_lt_is_Some_2 a1 0) as [p Hp]; [lia|].
  destruct (part_loop_ok p (S nmemb) a1 1 nmemb 1 nmemb) as (a2 & pi & lt & gt & -> & P2 & B1 & B2 & R1 & R2 & R3 & R4);
    try done; try lia.
  { intros k x Hk Hx. replace k with 0%nat in * by lia. left. congruence. }
  { intros k x Hk. lia. }
  { intros k x Hk. lia. }
  { intros k x Hk. lia. }
  cbn [mbind option_bind]. rewrite L1, Hl in *. pose proof (perm_length _ _ P2) as L2.
  destruct (swap_block_rotate a2 0 lt pi (EQ p) (LT p)) as (a3 & Hr3 & P3 & R1' & R2' & H3); [lia|lia|exact R1|exact R2|].
  cbn [Nat.add] in Hr3, R1', R2'. rewrite Hr3. cbn [mbind option_bind]. pose proof (perm_length _ _ P3) as L3.
  destruct (swap_block_rotate a3 pi (gt - pi) (nmemb - pi) (GT p) (EQ p)) as (a4 & Hr4 & P4 & R3' & R4' & H4);
    [lia|lia| | |].
  { apply (region_same a2); [by replace (pi + (gt - pi))%nat with gt by lia|]. intros. apply H3. lia. }
  { replace (pi + (gt - pi))%nat with gt by lia. replace (pi + (nmemb - pi))%nat with nmemb by lia.
    apply (region_same a2); [done|]. intros. apply H3. lia. }
  replace (Nat.min (gt - pi) (nmemb - pi - (gt - pi))) with (Nat.min (nmemb - gt) (gt - pi)) in Hr4 by lia.
  replace (pi + (nmemb - pi))%nat with nmemb in * by lia. rewrite Hr4. cbn [mbind option_bind].
  replace (pi + (nmemb - pi - (gt - pi)))%nat with (nmemb - (gt - pi))%nat in * by lia.
  exists a4, (pi - lt)%nat, (nmemb - (gt - pi))%nat, p. split_and!; [done|by rewrite P4, P3, P2|lia|lia| | |done].
  - apply (region_same a3); [done|]. intros. apply H4. lia.
  - intros k x Hk Hx. destruct (Nat.lt_ge_cases k pi); [|apply (R3' k); [lia|done]].
    rewrite H4 in Hx by lia. apply (R2' k); [lia|done].
Qed.

(** ** Consistent comparisons *)

Record cmp_ok : Prop := {
  cmp_sym : ∀ x y, cmp x y < 0 ↔ 0 < cmp y x;
  cmp_trans : ∀ x y z, cmp x y <= 0 → cmp y z <= 0 → cmp x z <= 0
}.

Definition le (x y : A) : Prop := cmp x y <= 0.

Lemma le_of_gt x y : cmp_ok → 0 < cmp x y → le y x.
Proof. intros [Hs _] H. apply Hs in H. unfold le. lia. Qed.

Lemma le_of_eq x y : cmp_ok → cmp x y = 0 → le y x.
Proof. intros [Hs _] H. unfold le. pose proof (Hs x y). lia. Qed.

Lemma le_refl x : cmp_ok → le x x.
Proof. intros [Hs _]. unfold le. pose proof (Hs x x). lia. Qed.

(** [a[lo .. hi)] is sorted. *)
Definition ordered (a : list A) (lo hi : nat) : Prop :=
  ∀ i j x y, (lo <= i < j)%nat → (j < hi)%nat → a !! i = Some x → a !! j = Some y → le x y.

(** ** Insertion sort *)

(** [a[0 .. top]] is sorted but for the element on its way down at [pj]. *)
Definition inserting (a : list A) (pj top : nat) : Prop :=
  (∀ i j x y, (i < j <= top)%nat → i ≠ pj → j ≠ pj → a !! i = Some x → a !! j = Some y → le x y) ∧
  (∀ k x y, (pj < k <= top)%nat → a !! pj = Some x → a !! k = Some y → le x y).

Lemma ins_inner_ok pj a top : (pj <= top < length a)%nat → (cmp_ok → inserting a pj top) →
  ∃ a', ins_inner pj a = Some a' ∧ a' ≡ₚ a ∧ (cmp_ok → ordered a' 0 (S top)).
Proof.
  revert a. induction pj as [|pj IH]; intros a Ht Hi; cbn [ins_inner].
  { exists a. split_and!; [done|done|]. intros Hc i j x y Hij Hj Hx Hy. destruct (Hi Hc) as [H1 H2].
    destruct (decide (i = 0%nat)) as [->|]; [apply (H2 j); (done || lia)|apply (H1 i j); (done || lia)]. }
  destruct (cmp_at_ok a pj (S pj)) as (y & x & Hy & Hx & ->); [lia|lia|]. cbn [mbind option_bind].
  destruct (Z.ltb_spec 0 (cmp y x)) as [Hgt|Hle].
  - destruct (swap_ok a (S pj) pj) as (a1 & -> & P1 & L1 & Hsw); [lia|lia|]. cbn [mbind option_bind].
    destruct (IH a1) as (a' & Hr & P2 & Ho); [lia| |exists a'; split_and!; [done|by rewrite P2|done]].
    intros Hc. destruct (Hi Hc) as [H1 H2]. split.
    + intros i j u v Hij Hni Hnj. rewrite !Hsw. repeat case_decide; try lia; subst; intros Hu Hv.
      * apply (H1 pj j); (done || lia).
      * apply (H1 i pj); (done || lia).
      * apply (H1 i j); (done || lia).
    + intros k u v Hk. rewrite !Hsw. repeat case_decide; try lia; intros Hu Hv.
      * assert (u = x) as -> by congruence. assert (v = y) as -> by congruence. by apply le_of_gt.
      * apply (H2 k); (done || lia).
  - exists a. split_and!; [done|done|]. intros Hc i j u v Hij Hj Hu Hv. destruct (Hi Hc) as [H1 H2].
    destruct (decide (i = S pj)) as [->|]; [apply (H2 j); (done || lia)|].
    destruct (decide (j = S pj)) as [->|]; [|apply (H1 i j); (done || lia)].
    assert (v = x) as -> by congruence. destruct (decide (i = pj)) as [->|]; [unfold le; congruence|].
    apply (cmp_trans Hc u y x); [apply (H1 i pj); (done || lia)|done].
Qed.

Lemma ins_outer_ok k pi a : (1 <= pi)%nat → (pi + k <= length a)%nat → (cmp_ok → ordered a 0 pi) →
  ∃ a', ins_outer k pi a = Some a' ∧ a' ≡ₚ a ∧ (cmp_ok → ordered a' 0 (pi + k)).
Proof.
  revert pi a. induction k as [|k IH]; intros pi a Hpi Hk Ho; cbn [ins_outer].
  { exists a. rewrite Nat.add_0_r. done. }
  destruct (ins_inner_ok pi a pi) as (a1 & -> & P1 & Ho1); [lia| |].
  { intros Hc. split; [|intros; lia]. intros i j x y Hij Hi Hj. apply (Ho Hc); lia. }
  cbn [mbind option_bind]. pose proof (perm_length _ _ P1).
  destruct (IH (pi + 1)%nat a1) as (a' & Hr & P2 & Ho'); [lia|lia|by rewrite Nat.add_1_r|].
  exists a'. split_and!; [done|by rewrite P2|]. by replace (pi + S k)%nat with (pi + 1 + k)%nat by lia.
Qed.

Lemma insertion_sort_ok a nmemb : length a = nmemb →
  ∃ a', insertion_sort a nmemb = Some a' ∧ a' ≡ₚ a ∧ (cmp_ok → ordered a' 0 nmemb).
Proof.
  intros Hl. unfold insertion_sort. destruct nmemb as [|n].
  { exists a. split_and!; [done|done|]. intros _ i j x y Hij. lia. }
  replace (S n - 1)%nat with n by lia.
  destruct (ins_outer_ok n 1 a) as (a' & Hr & P & Ho); [lia|lia| |by exists a'].
  intros _ i j x y Hij. lia.
Qed.

(** ** Heap sort *)

Definition child (c r : nat) : Prop := (c = r * 2 + 1 ∨ c = r * 2 + 2)%nat.

(** Parents from [lo] on dominate their children in [a[0 .. n)]. *)
Definition heap_from (a : list A) (lo n : nat) : Prop :=
  ∀ q c x y, (lo <= q)%nat → child c q → (c < n)%nat → a !! q = Some x → a !! c = Some y → le y x.

(** The same but for the children of [r], which are below its parent. *)
Definition sifting (a : list A) (lo r n : nat) : Prop :=
  (∀ q c x y, (lo <= q)%nat → q ≠ r → child c q → (c < n)%nat → a !! q = Some x → a !! c = Some y → le y x) ∧
  (∀ q c x y, (lo <= q)%nat → child r q → child c r → (c < n)%nat → a !! q = Some x → a !! c = Some y → le y x).

(** The larger child, as the inner loop picks it. *)
Lemma pick_child_ok a r n : (r * 2 + 1 < n)%nat → (n <= length a)%nat →
  ∃ c y, (if (r * 2 + 1 <? n - 1)%nat
          then d ← cmp_at a (r * 2 + 1) (r * 2 + 1 + 1);
               Some (if d <=? 0 then (r * 2 + 1 + 1)%nat else (r * 2 + 1)%nat)
          else Some (r * 2 + 1)%nat) = Some c ∧ child c r ∧ (c < n)%nat ∧ a !! c = Some y ∧
    (cmp_ok → ∀ c' z, child c' r → (c' < n)%nat → a !! c' = Some z → le z y).
Proof.
  intros Hc Hn. unfold child. destruct (Nat.ltb_spec (r * 2 + 1) (n - 1)).
  - destruct (cmp_at_ok a (r * 2 + 1) (r * 2 + 1 + 1)) as (x & y & Hx & Hy & ->); [lia|lia|].
    cbn [mbind option_bind]. destruct (Z.leb_spec (cmp x y) 0).
    + eexists _, y. split_and!; [done|lia|lia|done|]. intros Hok c' z [->| ->] _ Hz; [by simplify_eq|].
      replace (r * 2 + 2)%nat with (r * 2 + 1 + 1)%nat in Hz by lia. simplify_eq. by apply le_refl.
    + eexists _, x. split_and!; [done|lia|lia|done|]. intros Hok c' z [->| ->] _ Hz; [simplify_eq; by apply le_refl|].
      replace (r * 2 + 2)%nat with (r * 2 + 1 + 1)%nat in Hz by lia. simplify_eq. by apply le_of_gt.
  - destruct (lookup_lt_is_Some_2 a (r * 2 + 1)) as [x Hx]; [lia|].
    eexists _, x. split_and!; [done|lia|lia|done|]. intros Hok c' z [->| ->] Hlt Hz; [|lia].
    simplify_eq. by apply le_refl.
Qed.

Lemma sift_ok fuel a lo r n : (n - r <= fuel)%nat → (r < n <= length a)%nat → (lo <= r)%nat →
  (cmp_ok → sifting a lo r n) →
  ∃ a', sift fuel a r n = Some a' ∧ a' ≡ₚ a ∧ (∀ k, (n <= k)%nat → a' !! k = a !! k) ∧
    (cmp_ok → heap_from a' lo n).
Proof.
  revert a r. induction fuel as [|fuel IH]; intros a r Hf Hr Hlo Hs; [lia|]. cbn [sift].
  destruct (Nat.ltb_spec (r * 2 + 1) n) as [Hc|Hc].
  2: { exists a. split_and!; try done. intros Hok q c x y Hq Hch Hcn.
       apply (proj1 (Hs Hok)); [done| |done|done]. intros ->. unfold child in Hch. lia. }
  destruct (pick_child_ok a r n Hc) as (c & y & -> & Hch & Hcn & Hy & Hmax); [lia|]. cbn [mbind option_bind].
  destruct (cmp_at_ok a r c) as (x & y' & Hx & Hy' & ->); [lia|lia|]. cbn [mbind option_bind].
  assert (y' = y) as -> by congruence. destruct (Z.ltb_spec 0 (cmp x y)) as [Hgt|Hle].
  - exists a. split_and!; try done. intros Hok q d u v Hq Hd Hdn Hu Hv.
    destruct (decide (q = r)) as [->|]; [|apply (proj1 (Hs Hok) q d); done].
    assert (u = x) as -> by congruence.
    apply (cmp_trans Hok v y x); [by apply (Hmax Hok d)|by apply le_of_gt].
  - destruct (swap_ok a r c) as (a1 & -> & P1 & L1 & Hsw); [lia|lia|]. cbn [mbind option_bind].
    assert (r < c)%nat by (unfold child in Hch; lia).
    destruct (IH a1 c) as (a' & Hr' & P2 & Hhi & Hh); try lia.
    + intros Hok. destruct (Hs Hok) as [H1 H2].
      assert (a1 !! r = Some y) as Hr1 by (by rewrite Hsw, decide_True).
      split; intros q d u v Hq.
      * intros Hqc Hd Hdn Hu Hv. destruct (decide (q = r)) as [->|Hqr].
        -- assert (u = y) as -> by congruence. rewrite Hsw in Hv. unfold child in *.
           repeat case_decide; try lia; [congruence|]. by apply (Hmax Hok d).
        -- rewrite Hsw in Hu. rewrite !decide_False in Hu by done. rewrite Hsw in Hv.
           unfold child in *. repeat case_decide; try lia; subst.
           ++ apply (H2 q c); (done || lia).
           ++ apply (H1 q d); (done || lia).
      * intros Hcq Hdc Hdn Hu Hv. assert (q = r) as -> by (unfold child in *; lia).
        assert (u = y) as -> by congruence. rewrite Hsw in Hv. unfold child in *.
        rewrite !decide_False in Hv by lia. apply (H1 c d); (done || lia).
    + exists a'. split_and!; try done; [by rewrite P2|]. intros k Hk. rewrite Hhi, Hsw by done.
      by rewrite !decide_False by lia.
Qed.

Lemma heap_build_ok i a n : (i * 2 <= n <= length a)%nat → (cmp_ok → heap_from a i n) →
  ∃ a', heap_build i a n = Some a' ∧ a' ≡ₚ a ∧ (cmp_ok → heap_from a' 0 n).
Proof.
  revert a. induction i as [|i IH]; intros a Hi Hh; cbn [heap_build]; [by exists a|].
  destruct (sift_ok n a i i n) as (a1 & -> & P1 & _ & Hh1); try lia.
  { intros Hok. split; intros q c x y Hq; unfold child; [|lia].
    intros Hne. apply (Hh Hok). lia. }
  cbn [mbind option_bind]. pose proof (perm_length _ _ P1).
  destruct (IH a1) as (a' & Hr & P2 & Hh'); [lia|done|]. exists a'. split_and!; [done|by rewrite P2|done].
Qed.

(** A permutation that leaves [a[n ..)] alone permutes [a[0 .. n)]. *)
Lemma region_perm a a' n P : a' ≡ₚ a → (∀ k, (n <= k)%nat → a' !! k = a !! k) →
  region a 0 n P → region a' 0 n P.
Proof.
  intros HP Hk Hr k x Hkn Hx.
  assert (drop n a' = drop n a) as Hd.
  { apply list_eq. intros i. rewrite !lookup_drop. apply Hk. lia. }
  assert (take n a' ≡ₚ take n a) as HP'.
  { rewrite <- (take_drop n a'), <- (take_drop n a), Hd in HP. by apply Permutation_app_inv_r in HP. }
  assert (x ∈ take n a') as Hin.
  { apply list_elem_of_lookup. exists k. rewrite lookup_take_lt by lia. done. }
  rewrite HP' in Hin. apply list_elem_of_lookup in Hin as [j Hj].
  apply lookup_take_Some in Hj as [Hj Hjn]. apply (Hr j); [lia|done].
Qed.

(** The root of a heap is its maximum. *)
Lemma heap_top a n : cmp_ok → heap_from a 0 n → (n <= length a)%nat →
  ∀ k x y, (k < n)%nat → a !! k = Some x → a !! 0%nat = Some y → le x y.
Proof.
  intros Hok Hh Hn k. induction (lt_wf k) as [k _ IH]. intros x y Hk Hx Hy.
  destruct (decide (k = 0%nat)) as [->|]; [simplify_eq; by apply le_refl|].
  assert (∃ q, child k q ∧ q < k)%nat as (q & Hc & Hq).
  { exists ((k - 1) / 2)%nat. unfold child. pose proof (Nat.div_mod (k - 1) 2 ltac:(lia)).
    pose proof (Nat.mod_upper_bound (k - 1) 2 ltac:(lia)). lia. }
  destruct (lookup_lt_is_Some_2 a q) as [z Hz]; [lia|].
  apply (cmp_trans Hok x z y); [apply (Hh q k); (done || lia)|apply (IH q); (done || lia)].
Qed.

(** [a[0 .. i]] is a heap below the sorted rest. *)
Definition extracting (a : list A) (i : nat) : Prop :=
  heap_from a 0 (S i) ∧ ordered a (S i) (length a) ∧
  (∀ m y, (i < m)%nat → a !! m = Some y → region a 0 (S i) (λ x, le x y)).

Lemma extract_round a a1 a2 i :
  cmp_ok → extracting a i → (0 < i < length a)%nat → swapped a a1 0 i → length a1 = length a →
  a2 ≡ₚ a1 → (∀ k, (i <= k)%nat → a2 !! k = a1 !! k) → heap_from a2 0 i → extracting a2 (i - 1).
Proof.
  intros Hok (Hh & Ho & Hb) Hi Hsw L1 P2 Hhi Hh2.
  destruct (lookup_lt_is_Some_2 a 0) as [t Ht]; [lia|].
  assert (a2 !! i = Some t) as Ht2 by (rewrite Hhi, Hsw by lia; repeat case_decide; (done || lia)).
  assert (∀ k, (i < k)%nat → a2 !! k = a !! k) as Hrest.
  { intros k Hk. rewrite Hhi, Hsw by lia. by rewrite !decide_False by lia. }
  pose proof (perm_length _ _ P2) as L2.
  assert (∀ m y, (i <= m)%nat → a2 !! m = Some y → region a1 0 i (λ x, le x y)) as Hlow.
  { intros m y Hm Hy k x Hk. rewrite Hsw. destruct (decide (m = i)) as [->|].
    - assert (y = t) as -> by congruence. repeat case_decide; try lia.
      + intros Hx. by apply (heap_top a (S i) Hok Hh ltac:(lia) i); [lia|..].
      + intros Hx. by apply (heap_top a (S i) Hok Hh ltac:(lia) k); [lia|..].
    - rewrite Hrest in Hy by lia. repeat case_decide; try lia; intros Hx.
      + apply (Hb m y ltac:(lia) Hy i); [lia|done].
      + apply (Hb m y ltac:(lia) Hy k); [lia|done]. }
  unfold extracting. replace (S (i - 1)) with i by lia. split_and!; [done| |].
  - rewrite L2, L1. intros j k x y Hjk Hk Hx Hy. rewrite Hrest in Hy by lia.
    destruct (decide (j = i)) as [->|].
    + assert (x = t) as -> by congruence. apply (Hb k y ltac:(lia) Hy 0%nat); [lia|done].
    + rewrite Hrest in Hx by lia. apply (Ho j k); (done || lia).
  - intros m y Hm Hy. apply (region_perm a1); [done|done|]. apply (Hlow m); [lia|done].
Qed.

Lemma heap_extract_ok i a : (i < length a)%nat → (cmp_ok → extracting a i) →
  ∃ a', heap_extract i a = Some a' ∧ a' ≡ₚ a ∧ (cmp_ok → ordered a' 0 (length a)).
Proof.
  revert a. induction i as [|i IH]; intros a Hi He; cbn [heap_extract].
  { exists a. split_and!; [done|done|]. intros Hok j k x y Hjk Hk Hx Hy. destruct (He Hok) as (_ & Ho & Hb).
    destruct (decide (j = 0%nat)) as [->|]; [apply (Hb k y ltac:(lia) Hy 0%nat); [lia|done]|].
    apply (Ho j k); (done || lia). }
  destruct (swap_ok a 0 (S i)) as (a1 & -> & P1 & L1 & Hsw); [lia|lia|]. cbn [mbind option_bind].
  destruct (sift_ok (S i) a1 0 0 (S i)) as (a2 & -> & P2 & Hhi & Hh); try lia.
  { intros Hok. destruct (He Hok) as (Hh & _). split; intros q c x y Hq; unfold child; [|lia].
    intros Hne Hc Hcn. rewrite !Hsw, !decide_False by lia. apply (Hh q c); [done|done|lia]. }
  cbn [mbind option_bind]. pose proof (perm_length _ _ P2).
  destruct (IH a2) as (a' & Hr & P3 & Ho); [lia| |].
  { intros Hok. replace i with (S i - 1)%nat by lia. apply (extract_round a a1); auto. lia. }
  exists a'. split_and!; [done|by rewrite P3, P2|]. by replace (length a) with (length a2) by lia.
Qed.

Lemma heapsortx_ok a nmemb : length a = nmemb →
  ∃ a', heapsortx a nmemb = Some a' ∧ a' ≡ₚ a ∧ (cmp_ok → ordered a' 0 nmemb).
Proof.
  intros Hl. unfold heapsortx. destruct (Nat.ltb_spec 1 nmemb).
  2: { exists a. split_and!; [done|done|]. intros _ i j x y. lia. }
  pose proof (Nat.Div0.mul_div_le nmemb 2). pose proof (Nat.mul_succ_div_gt nmemb 2).
  destruct (heap_build_ok (nmemb / 2) a nmemb) as (a1 & -> & P1 & Hh); [lia| |].
  { intros _ q c x y Hq Hc Hcn. unfold child in Hc. lia. }
  cbn [mbind option_bind]. pose proof (perm_length _ _ P1) as L1.
  destruct (heap_extract_ok (nmemb - 1) a1) as (a' & -> & P2 & Ho); [lia| |].
  { intros Hok. unfold extracting. replace (S (nmemb - 1)) with nmemb by lia.
    split_and!; [by apply Hh|intros i j x y; lia|]. intros m y Hm Hy.
    apply lookup_lt_Some in Hy. lia. }
  exists a'. split_and!; [done|by rewrite P2|]. by replace nmemb with (length a1) by lia.
Qed.

(** ** The driver *)

Lemma seg_Some a ptr n : (ptr + n <= length a)%nat → seg a ptr n = Some (take n (drop ptr a)).
Proof. intros H. unfold seg. by rewrite (proj2 (Nat.leb_le _ _)). Qed.

Lemma seg_inv a ptr n s : seg a ptr n = Some s →
  (ptr + n <= length a)%nat ∧ length s = n ∧ ∀ k, (k < n)%nat → s !! k = a !! (ptr + k)%nat.
Proof.
  unfold seg. destruct (Nat.leb_spec (ptr + n) (length a)); [|done]. intros [= <-].
  split_and!; [done|rewrite length_take, length_drop; lia|].
  intros k Hk. by rewrite lookup_take_lt, lookup_drop by lia.
Qed.

Lemma put_lookup a ptr s k : (ptr + length s <= length a)%nat →
  put a ptr s !! k =
    if decide (ptr <= k < ptr + length s)%nat then s !! (k - ptr)%nat else a !! k.
Proof.
  intros Hle. unfold put. destruct (Nat.lt_ge_cases k ptr).
  { rewrite decide_False by lia. rewrite lookup_app_l by (rewrite length_take; lia).
    by apply lookup_take_lt. }
  rewrite lookup_app_r by (rewrite length_take; lia). rewrite length_take, Nat.min_l by lia.
  destruct (decide (ptr <= k < ptr + length s)%nat); [by rewrite lookup_app_l by lia|].
  rewrite lookup_app_r, lookup_drop by lia. f_equal. lia.
Qed.

Lemma put_length a ptr s : (ptr + length s <= length a)%nat → length (put a ptr s) = length a.
Proof. intros. unfold put. rewrite !length_app, length_take, length_drop. lia. Qed.

(** Rearranging the elements of a segment. *)
Lemma put_ok a ptr n s s' : seg a ptr n = Some s → s' ≡ₚ s →
  put a ptr s' ≡ₚ a ∧
  ∀ k, put a ptr s' !! k = if decide (ptr <= k < ptr + n)%nat then s' !! (k - ptr)%nat else a !! k.
Proof.
  intros Hseg HP. destruct (seg_inv a ptr n s Hseg) as (Hle & Hl & _).
  rewrite <- (perm_length _ _ HP) in Hl. rewrite seg_Some in Hseg by done. injection Hseg as <-. split.
  - unfold put. rewrite Hl, HP, <- drop_drop, take_drop, take_drop. done.
  - intros k. rewrite put_lookup by lia. by rewrite Hl.
Qed.

(** Segments as start and length. *)
Definition inside (s : nat * nat) (k : nat) : Prop := (s.1 <= k < s.1 + s.2)%nat.
Definition apart (s t : nat * nat) : Prop := (s.1 + s.2 <= t.1 ∨ t.1 + t.2 <= s.1)%nat.

Fixpoint disjoint (segs : list (nat * nat)) : Prop :=
  match segs with
  | [] => True
  | s :: segs => Forall (apart s) segs ∧ disjoint segs
  end.

(** The array is sorted but for pairs of positions in a pending segment. *)
Definition pending (a : list A) (segs : list (nat * nat)) : Prop :=
  ∀ i j x y, (i < j)%nat → a !! i = Some x → a !! j = Some y →
    Forall (λ s, ¬ (inside s i ∧ inside s j)) segs → le x y.

(** Working on a segment: rearranged so that only pairs in [subs] are left
    open, it is replaced by [subs]. *)
Lemma pending_refine a ptr n s s' segs subs :
  pending a ((ptr, n) :: segs) → Forall (apart (ptr, n)) segs → seg a ptr n = Some s → s' ≡ₚ s →
  (∀ i j x y, (i < j)%nat → s' !! i = Some x → s' !! j = Some y →
     Forall (λ t, ¬ (inside t (ptr + i) ∧ inside t (ptr + j))) subs → le x y) →
  pending (put a ptr s') (subs ++ segs).
Proof.
  intros Hp Hap Hseg HP Hs i j x y Hij Hx Hy Hnot. apply Forall_app in Hnot as [Hsub Hnot].
  destruct (put_ok a ptr n s s' Hseg HP) as [_ Hlook].
  destruct (seg_inv a ptr n s Hseg) as (_ & Hl & Hu).
  (* an element of the new segment was in the old one *)
  assert (∀ k z, (ptr <= k < ptr + n)%nat → put a ptr s' !! k = Some z →
    ∃ m, (ptr <= m < ptr + n)%nat ∧ a !! m = Some z) as Hold.
  { intros k z Hk. rewrite Hlook, decide_True by done. intros Hz.
    apply list_elem_of_lookup_2 in Hz. rewrite HP in Hz. apply list_elem_of_lookup in Hz as [m Hm].
    pose proof (lookup_lt_Some _ _ _ Hm). rewrite Hu in Hm by lia. exists (ptr + m)%nat. split; [lia|done]. }
  assert (∀ k m, (ptr <= k < ptr + n)%nat → ¬ (ptr <= m < ptr + n)%nat →
    Forall (λ t, ¬ (inside t k ∧ inside t m)) ((ptr, n) :: segs)) as Hmix.
  { intros k m Hk Hm. constructor; [unfold inside; cbn; lia|].
    eapply Forall_impl; [exact Hap|]. intros t. unfold apart, inside. cbn. lia. }
  destruct (decide (ptr <= i < ptr + n)%nat) as [Hi|Hi], (decide (ptr <= j < ptr + n)%nat) as [Hj|Hj].
  - rewrite Hlook, decide_True in Hx by done. rewrite Hlook, decide_True in Hy by done.
    apply (Hs (i - ptr) (j - ptr))%nat; [lia|done|done|].
    by replace (ptr + (i - ptr))%nat with i by lia; replace (ptr + (j - ptr))%nat with j by lia.
  - destruct (Hold i x Hi Hx) as (m & Hm & Hmx). rewrite Hlook, decide_False in Hy by done.
    apply (Hp m j); [lia|done|done|by apply Hmix].
  - destruct (Hold j y Hj Hy) as (m & Hm & Hmy). rewrite Hlook, decide_False in Hx by done.
    apply (Hp i m); [lia|done|done|]. eapply Forall_impl; [by apply (Hmix m i)|]. tauto.
  - rewrite Hlook, decide_False in Hx by done. rewrite Hlook, decide_False in Hy by done.
    apply (Hp i j); [done|done|done|]. constructor; [unfold inside; cbn; lia|done].
Qed.

Definition segs (stk : list frame) : list (nat * nat) := (λ f, (base f, count f)) <$> stk.

(** Depths increase strictly towards the top of the stack, up to [d]. *)
Fixpoint depths_ok (d : nat) (stk : list frame) : Prop :=
  match stk with
  | [] => True
  | f :: stk => (1 <= fdepth f <= d)%nat ∧ depths_ok (fdepth f - 1) stk
  end.

Lemma depths_ok_length d stk : depths_ok d stk → (length stk <= d)%nat.
Proof.
  revert d. induction stk as [|f stk IH]; cbn; [lia|]. intros d [Hd Hs]. apply IH in Hs. lia.
Qed.

Lemma depths_ok_mono d d' stk : (d <= d')%nat → depths_ok d stk → depths_ok d' stk.
Proof. destruct stk; cbn; [done|]. intros ? [? ?]. split; [lia|done]. Qed.

(** Elements on the stack, and one for each frame. *)
Definition weight (stk : list frame) : nat := sum_list ((λ f, S (count f)) <$> stk).

Lemma weight_cons f stk : weight (f :: stk) = (S (count f) + weight stk)%nat.
Proof. done. Qed.

(** The state in front of the loop [while (nmemb > 6)]: [a0] is the input. *)
Record rq_inv (a0 a : list A) (stk : list frame) (ptr n d : nat) : Prop := {
  rq_perm : a ≡ₚ a0;
  rq_bounds : Forall (λ s, s.1 + s.2 <= length a0)%nat ((ptr, n) :: segs stk);
  rq_disj : disjoint ((ptr, n) :: segs stk);
  rq_depths : depths_ok d stk;
  rq_sorted : cmp_ok → pending a ((ptr, n) :: segs stk)
}.

(** The pieces of a partitioned segment. *)
Lemma partition_pieces a' lt gt n ptr p : cmp_ok → length a' = n →
  region a' 0 lt (LT p) → region a' lt gt (EQ p) → region a' gt n (GT p) → (lt < gt <= n)%nat →
  ∀ i j x y, (i < j)%nat → a' !! i = Some x → a' !! j = Some y →
    Forall (λ t, ¬ (inside t (ptr + i) ∧ inside t (ptr + j))) [(ptr, lt); ((ptr + gt)%nat, (n - gt)%nat)] →
    le x y.
Proof.
  intros Hok Hl R1 R2 R3 Hb i j x y Hij Hx Hy Hnot.
  pose proof (lookup_lt_Some _ _ _ Hy) as Hj.
  apply Forall_cons in Hnot as [N1 [N2 _]%Forall_cons]. unfold inside in N1, N2. cbn in N1, N2.
  assert (∀ z, EQ p z → le p z ∧ le z p) as Heq.
  { intros z [->|Hz]; [split; by apply le_refl|]. split; [unfold le; lia|by apply le_of_eq]. }
  assert (le x p) as Hxp.
  { destruct (Nat.lt_ge_cases i lt); [apply le_of_gt; [done|by apply (R1 i); [lia|]]|].
    apply Heq. apply (R2 i); [lia|done]. }
  assert (le p y) as Hpy.
  { destruct (Nat.lt_ge_cases j gt); [apply Heq, (R2 j); [lia|done]|].
    assert (GT p y) as Hg by (apply (R3 j); [lia|done]). unfold GT, le in *. lia. }
  by apply (cmp_trans Hok x p y).
Qed.

(** Splitting the current segment into the piece kept and the piece pushed. *)
Lemma rq_split a0 a stk ptr n d s s' lt gt : rq_inv a0 a stk ptr n d → seg a ptr n = Some s → s' ≡ₚ s →
  (lt < gt <= n)%nat →
  (cmp_ok → ∀ i j x y, (i < j)%nat → s' !! i = Some x → s' !! j = Some y →
    Forall (λ t, ¬ (inside t (ptr + i) ∧ inside t (ptr + j))) [(ptr, lt); ((ptr + gt)%nat, (n - gt)%nat)] →
    le x y) →
  rq_inv a0 (put a ptr s') (mk_frame ptr lt (S d) :: stk) (ptr + gt) (n - gt) (S d) ∧
  rq_inv a0 (put a ptr s') (mk_frame (ptr + gt) (n - gt) (S d) :: stk) ptr lt (S d).
Proof.
  intros [HP Hb [Hap Hdj] Hd Hs] Hseg HP' Hlt Hle.
  destruct (put_ok a ptr n s s' Hseg HP') as [HPa _]. apply Forall_cons in Hb as [Hb1 Hb2]. cbn in Hb1.
  assert (∀ b c, (ptr <= b)%nat → (b + c <= ptr + n)%nat → Forall (apart (b, c)) (segs stk)) as Hsub.
  { intros b c H1 H2. eapply Forall_impl; [exact Hap|]. intros t. unfold apart. cbn. lia. }
  assert (cmp_ok → pending (put a ptr s') ([(ptr, lt); ((ptr + gt)%nat, (n - gt)%nat)] ++ segs stk)) as Hpend.
  { intros Hok. eapply pending_refine; [by apply Hs|done|done|done|by apply Hle]. }
  split; split.
  - by rewrite HPa.
  - repeat constructor; cbn; [lia|lia|done].
  - cbn. split_and!; [constructor; [unfold apart; cbn; lia|apply Hsub; lia]|apply Hsub; lia|done].
  - cbn. split; [lia|]. by rewrite Nat.sub_0_r.
  - intros Hok i j x y Hij Hx Hy Hnot. apply (Hpend Hok i j); [done|done|done|].
    cbn in *. rewrite !Forall_cons in *. tauto.
  - by rewrite HPa.
  - repeat constructor; cbn; [lia|lia|done].
  - cbn. split_and!; [constructor; [unfold apart; cbn; lia|apply Hsub; lia]|apply Hsub; lia|done].
  - cbn. split; [lia|]. by rewrite Nat.sub_0_r.
  - intros Hok. by apply Hpend.
Qed.

Lemma rq_inner_ok fuel a0 a stk ptr n d : (n < fuel)%nat → rq_inv a0 a stk ptr n d →
  ∃ a' stk' ptr' n' d', rq_inner fuel a stk ptr n d = Some (a', stk', ptr', n') ∧
    rq_inv a0 a' stk' ptr' n' d' ∧ (weight stk' + n' <= weight stk + n)%nat.
Proof.
  revert a stk ptr n d. induction fuel as [|fuel IH]; intros a stk ptr n d Hf Hi; [lia|]. cbn [rq_inner].
  destruct (Nat.ltb_spec 6 n) as [Hn|Hn]; [|by exists a, stk, ptr, n, d].
  pose proof Hi as [HP Hb Hdj Hd Hs]. pose proof (perm_length _ _ HP) as HL.
  apply Forall_cons in Hb as [Hb1 Hb2]. cbn in Hb1.
  rewrite seg_Some by lia. set (s := take n (drop ptr a)).
  assert (seg a ptr n = Some s) as Hseg by (apply seg_Some; lia).
  destruct (seg_inv a ptr n s Hseg) as (_ & Hl & _). cbn [mbind option_bind].
  destruct (Nat.ltb_spec 50 (S d)) as [Hdeep|Hdeep].
  - destruct (heapsortx_ok s n Hl) as (s' & -> & Ps & Ho). cbn [mbind option_bind].
    destruct (put_ok a ptr n s s' Hseg Ps) as [HPa _]. pose proof (perm_length _ _ Ps) as Ls.
    exists (put a ptr s'), stk, ptr, 0%nat, d. split_and!; [done| |lia]. split; [by rewrite HPa| | |done|].
    + constructor; [cbn; lia|done].
    + destruct Hdj as [Hap Hdj]. split; [|done]. eapply Forall_impl; [exact Hap|]. intros t. unfold apart. cbn. lia.
    + intros Hok. destruct Hdj as [Hap _]. change (?x :: segs stk) with ([x] ++ segs stk).
      eapply (pending_refine a ptr n s s' _ [(ptr, 0%nat)]); [by apply Hs|done|done|done|].
      intros i j x y Hij Hx Hy _. pose proof (lookup_lt_Some _ _ _ Hy). apply (Ho Hok i j); (done || lia).
  - destruct (partition_step_ok s n Hl Hn) as (s' & lt & gt & p & -> & Ps & Hb & R1 & R2 & R3).
    cbn [mbind option_bind]. pose proof (perm_length _ _ Ps) as Ls.
    destruct (rq_split a0 a stk ptr n d s s' lt gt Hi Hseg Ps Hb) as [I1 I2].
    { intros Hok. apply (partition_pieces s' lt gt n ptr p); (done || lia). }
    apply depths_ok_length in Hd. unfold push. rewrite (proj2 (Nat.ltb_lt (length stk) 50)) by lia.
    destruct (Nat.ltb_spec (n - gt) lt); cbn [mbind option_bind].
    + edestruct IH as (a' & stk' & ptr' & n' & d' & Hr & I' & Hw); [|exact I1|]; [lia|].
      exists a', stk', ptr', n', d'. split_and!; [done|done|]. rewrite weight_cons in Hw. cbn [count] in Hw. lia.
    + edestruct IH as (a' & stk' & ptr' & n' & d' & Hr & I' & Hw); [|exact I2|]; [lia|].
      exists a', stk', ptr', n', d'. split_and!; [done|done|]. rewrite weight_cons in Hw. cbn [count] in Hw. lia.
Qed.

(** The state in front of the loop [while (sp > stack)]. *)
Record stk_inv (a0 a : list A) (stk : list frame) : Prop := {
  sk_perm : a ≡ₚ a0;
  sk_bounds : Forall (λ s, s.1 + s.2 <= length a0)%nat (segs stk);
  sk_disj : disjoint (segs stk);
  sk_depths : match stk with [] => True | f :: stk => depths_ok (fdepth f) stk end;
  sk_sorted : cmp_ok → pending a (segs stk)
}.

Lemma rq_outer_ok fuel a0 a stk : (weight stk <= fuel)%nat → stk_inv a0 a stk →
  ∃ a', rq_outer fuel a stk = Some a' ∧ a' ≡ₚ a0 ∧ (cmp_ok → ordered a' 0 (length a0)).
Proof.
  revert a stk. induction fuel as [|fuel IH]; intros a [|f stk] Hw [HP Hb Hdj Hd Hs]; cbn [rq_outer].
  1, 3: exists a; split_and!; [done|done|]; intros Hok i j x y Hij Hj Hx Hy; apply (Hs Hok i j); [lia|done|done|constructor].
  { rewrite weight_cons in Hw. lia. }
  rewrite weight_cons in Hw. destruct (rq_inner_ok (S (count f)) a0 a stk (base f) (count f) (fdepth f))
    as (a1 & stk1 & ptr & n & d & -> & [HP1 Hb1 [Hap1 Hdj1] Hd1 Hs1] & Hw1); [lia|by split|].
  cbn [mbind option_bind]. pose proof (perm_length _ _ HP1). apply Forall_cons in Hb1 as [Hb1 Hb2]. cbn in Hb1.
  assert (seg a1 ptr n = Some (take n (drop ptr a1))) as Hseg by (apply seg_Some; lia).
  rewrite Hseg. cbn [mbind option_bind]. destruct (seg_inv _ _ _ _ Hseg) as (_ & Hl & _).
  destruct (insertion_sort_ok _ n Hl) as (s' & -> & Ps & Ho). cbn [mbind option_bind].
  destruct (put_ok _ _ _ _ _ Hseg Ps) as [HPa _]. pose proof (perm_length _ _ Ps).
  apply IH; [lia|]. split; [by rewrite HPa|done|done| |].
  - destruct stk1 as [|g stk1]; [done|]. destruct Hd1 as [_ Hd1]. eapply depths_ok_mono; [|exact Hd1]. lia.
  - intros Hok. apply (pending_refine a1 ptr n _ s' (segs stk1) [] (Hs1 Hok) Hap1 Hseg Ps).
    intros i j x y Hij Hx Hy _. pose proof (lookup_lt_Some _ _ _ Hy). apply (Ho Hok i j); (done || lia).
Qed.

Lemma rqsort_ok a : ∃ a', rqsort a (length a) = Some a' ∧ a' ≡ₚ a ∧ (cmp_ok → ordered a' 0 (length a)).
Proof.
  unfold rqsort. destruct (Nat.ltb_spec (length a) 2).
  { exists a. split_and!; [done|done|]. intros _ i j x y. lia. }
  cbn [push length Nat.ltb Nat.leb mbind option_bind]. apply rq_outer_ok; [cbn; lia|]. split; [done| |done|done|].
  - repeat constructor.
  - intros _ i j x y Hij Hx Hy Hnot. apply lookup_lt_Some in Hx, Hy.
    apply Forall_cons in Hnot as [Hnot _]. unfold inside in Hnot. cbn in Hnot. lia.
Qed.

Lemma ordered_sorted a : ordered a 0 (length a) → StronglySorted le a.
Proof.
  induction a as [|x a IH]; intros Ho; constructor.
  - apply IH. intros i j u v Hij Hj Hu Hv. apply (Ho (S i) (S j)); cbn; (done || lia).
  - apply Forall_forall. intros y Hy. apply list_elem_of_lookup in Hy as [j Hj].
    pose proof (lookup_lt_Some _ _ _ Hj). apply (Ho 0 (S j))%nat; cbn; (done || lia).
Qed.

(** Sorting is safe for every comparison function, also one that
    contradicts itself. For every array [rqsort] ends: no loop runs forever,
    no element outside the segment at hand is touched, the stack of 50 entries
    never overflows, and the result is a permutation of the input. *)
Theorem rqsort_safe a : ∃ a', rqsort a (length a) = Some a' ∧ a' ≡ₚ a.
Proof. destruct (rqsort_ok a) as (a' & Hr & HP & _). by exists a'. Qed.

(** C25: with a consistent comparison [rqsort] and its fallback [heapsortx]
    sort: the result is in ascending order and has the same elements. *)
Theorem rqsort_sorts a : cmp_ok →
  (∃ a', rqsort a (length a) = Some a' ∧ a' ≡ₚ a ∧ StronglySorted le a') ∧
  (∃ a', heapsortx a (length a) = Some a' ∧ a' ≡ₚ a ∧ StronglySorted le a').
Proof.
  intros Hok. destruct (rqsort_ok a) as (a1 & Hr1 & HP1 & Ho1).
  destruct (heapsortx_ok a (length a) eq_refl) as (a2 & Hr2 & HP2 & Ho2).
  split; [exists a1|exists a2]; split_and!; try done; apply ordered_sorted.
  - rewrite (perm_length _ _ HP1). by apply Ho1.
  - rewrite (perm_length _ _ HP2). by apply Ho2.
Qed.

End sort.

Lemma rqsort_sorts_witness :
  cmp_ok Z.sub ∧ rqsort Z.sub [5; 3; 8; 1; 9; 2; 7; 7; 3] 9 = Some [1; 2; 3; 3; 5; 7; 7; 8; 9] ∧
  ∃ a', rqsort Z.sub [5; 3; 8; 1; 9; 2; 7; 7; 3] 9 = Some a' ∧ StronglySorted (le Z.sub) a'.
Proof.
  assert (cmp_ok Z.sub) as Hok by (split; lia).
  destruct (rqsort_sorts Z.sub [5; 3; 8; 1; 9; 2; 7; 7; 3] Hok) as [(a' & Hr & _ & Ho) _].
  split; [exact Hok|]. split; [reflexivity|]. exists a'. split; [exact Hr|exact Ho].
Defined.

End Qsort.
