(* ===== verification/Exchange.v ===== *)
(** * The exchange functions of [rqsort] ([quickjs/cutils.c])

    [rqsort] moves elements with one of ten functions, chosen by the size of
    an element and the alignment of the array. Memory is the list of the
    array's bytes, addresses are offsets into it. The functions are shown to
    be what [Qsort.v] takes them for: the exchange of whole elements. *)

From S2P Require Import Prelude Qsort.

Module Exchange.
Import Qsort.

(** [k] rounds of [t = *ap; *ap++ = *bp; *bp++ = t] on words of [w] bytes. *)
Fixpoint exchange_words (w k : nat) (mem : list Z) (a b : nat) : option (list Z) :=
  match k with
  | O => Some mem
  | S k =>
      t ← seg mem a w;
      u ← seg mem b w;
      let mem := put (put mem a u) b t in
      exchange_words w k mem (a + w) (b + w)
  end.

(** One round on two 64-bit words: both are saved, then [ap[0]], [ap[1]],
    [bp[0]] and [bp[1]] are written. *)
Definition exchange_pair (mem : list Z) (a b : nat) : option (list Z) :=
  t ← seg mem a 8;
  u ← seg mem (a + 8) 8;
  b0 ← seg mem b 8;
  let mem := put mem a b0 in
  b1 ← seg mem (b + 8) 8;
  let mem := put mem (a + 8) b1 in
  Some (put (put mem b t) (b + 8) u).

Fixpoint exchange_pairs (k : nat) (mem : list Z) (a b : nat) : option (list Z) :=
  match k with
  | O => Some mem
  | S k => mem ← exchange_pair mem a b; exchange_pairs k mem (a + 16) (b + 16)
  end.

Definition exchange_f : Type := list Z → nat → nat → nat → option (list Z).

Definition exchange_bytes : exchange_f := λ mem a b size, exchange_words 1 size mem a b.
Definition exchange_one_byte : exchange_f := λ mem a b size, exchange_words 1 1 mem a b.
Definition exchange_int16s : exchange_f := λ mem a b size, exchange_words 2 (size / 2) mem a b.
Definition exchange_one_int16 : exchange_f := λ mem a b size, exchange_words 2 1 mem a b.
Definition exchange_int32s : exchange_f := λ mem a b size, exchange_words 4 (size / 4) mem a b.
Definition exchange_one_int32 : exchange_f := λ mem a b size, exchange_words 4 1 mem a b.
Definition exchange_int64s : exchange_f := λ mem a b size, exchange_words 8 (size / 8) mem a b.
Definition exchange_one_int64 : exchange_f := λ mem a b size, exchange_words 8 1 mem a b.
Definition exchange_int128s : exchange_f := λ mem a b size, exchange_pairs (size / 16) mem a b.
Definition exchange_one_int128 : exchange_f := λ mem a b size, exchange_pairs 1 mem a b.

(** [base] is the address of the array. *)
Definition exchange_func (base size : Z) : exchange_f :=
  let m := (base .| size) .& 15 in
  if m =? 0 then if size =? 16 then exchange_one_int128 else exchange_int128s
  else if m =? 8 then if size =? 8 then exchange_one_int64 else exchange_int64s
  else if (m =? 4) || (m =? 12) then if size =? 4 then exchange_one_int32 else exchange_int32s
  else if (m =? 2) || (m =? 6) || (m =? 10) || (m =? 14)
       then if size =? 2 then exchange_one_int16 else exchange_int16s
  else if size =? 1 then exchange_one_byte else exchange_bytes.

(** ** What they do to bytes *)

(** The ranges of [n] bytes at [a] and [b] are equal or disjoint. *)
Definition separate (a b n : nat) : Prop := (a = b ∨ a + n <= b ∨ b + n <= a)%nat.

Definition ranges_swapped (mem mem' : list Z) (a b n : nat) : Prop :=
  length mem' = length mem ∧
  ∀ m, mem' !! m = if decide (a <= m < a + n)%nat then mem !! (m - a + b)%nat
                   else if decide (b <= m < b + n)%nat then mem !! (m - b + a)%nat else mem !! m.

Lemma put2_swapped mem a b w t u :
  seg mem a w = Some t → seg mem b w = Some u → separate a b w →
  ranges_swapped mem (put (put mem a u) b t) a b w.
Proof.
  intros Ht Hu Hs. destruct (seg_inv _ _ _ _ Ht) as (Ha & Lt & Lu1), (seg_inv _ _ _ _ Hu) as (Hb & Lu & Lu2).
  assert (length (put mem a u) = length mem) as L1 by (apply put_length; lia).
  split; [rewrite put_length; lia|]. intros m. rewrite put_lookup, put_lookup, Lt, Lu by lia.
  unfold separate in Hs.
  destruct (decide (b <= m < b + w)%nat); destruct (decide (a <= m < a + w)%nat); try done.
  - rewrite Lu1 by lia. f_equal. lia.
  - rewrite Lu1 by lia. f_equal. lia.
  - rewrite Lu2 by lia. f_equal. lia.
Qed.

Lemma ranges_swapped_app mem m1 m2 a b n k :
  ranges_swapped mem m1 a b n → ranges_swapped m1 m2 (a + n) (b + n) k → separate a b (n + k) →
  ranges_swapped mem m2 a b (n + k).
Proof.
  intros [L1 H1] [L2 H2] Hs. split; [lia|]. intros m. rewrite H2. unfold separate in Hs.
  destruct (decide (a <= m < a + (n + k))%nat).
  - destruct (decide (a + n <= m < a + n + k)%nat).
    + rewrite H1, !decide_False by lia. f_equal. lia.
    + destruct (decide (b + n <= m < b + n + k)%nat); [lia|]. rewrite H1, decide_True by lia. done.
  - rewrite decide_False by lia. destruct (decide (b <= m < b + (n + k))%nat).
    + destruct (decide (b + n <= m < b + n + k)%nat).
      * rewrite H1, !decide_False by lia. f_equal. lia.
      * rewrite H1, decide_False, decide_True by lia. done.
    + rewrite decide_False by lia. rewrite H1, !decide_False by lia. done.
Qed.

Lemma exchange_words_ok w k mem a b :
  (a + w * k <= length mem)%nat → (b + w * k <= length mem)%nat → separate a b (w * k) →
  ∃ mem', exchange_words w k mem a b = Some mem' ∧ ranges_swapped mem mem' a b (w * k).
Proof.
  revert mem a b. induction k as [|k IH]; intros mem a b Ha Hb Hs; cbn [exchange_words].
  { exists mem. split; [done|]. split; [done|]. intros m. by rewrite !decide_False by lia. }
  rewrite !seg_Some by lia. cbn [mbind option_bind].
  set (t := take w (drop a mem)). set (u := take w (drop b mem)).
  assert (ranges_swapped mem (put (put mem a u) b t) a b w) as [L1 H1].
  { apply put2_swapped; [apply seg_Some; lia|apply seg_Some; lia|unfold separate in *; lia]. }
  destruct (IH (put (put mem a u) b t) (a + w)%nat (b + w)%nat) as (mem' & Hr & H2);
    [lia|lia|unfold separate in *; lia|].
  exists mem'. split; [done|]. replace (w * S k)%nat with (w + w * k)%nat in * by lia.
  eapply ranges_swapped_app; [by split|done|done].
Qed.

Lemma exchange_pair_ok mem a b :
  (a + 16 <= length mem)%nat → (b + 16 <= length mem)%nat → separate a b 16 →
  ∃ mem', exchange_pair mem a b = Some mem' ∧ ranges_swapped mem mem' a b 16.
Proof.
  intros Ha Hb Hs. unfold exchange_pair, separate in *. rewrite !(seg_Some mem) by lia. cbn [mbind option_bind].
  assert (∀ x, (x + 8 <= length mem)%nat → seg mem x 8 = Some (take 8 (drop x mem))) as Hseg
    by (intros; by apply seg_Some).
  destruct (seg_inv _ _ _ _ (Hseg b ltac:(lia))) as (_ & Lb & Hb0).
  destruct (seg_inv _ _ _ _ (Hseg a ltac:(lia))) as (_ & La & Ha0).
  destruct (seg_inv _ _ _ _ (Hseg (a + 8)%nat ltac:(lia))) as (_ & La1 & Ha1).
  set (t := take 8 (drop a mem)) in *. set (u := take 8 (drop (a + 8) mem)) in *.
  set (b0 := take 8 (drop b mem)) in *.
  assert (length (put mem a b0) = length mem) as L1 by (apply put_length; lia).
  assert (seg (put mem a b0) (b + 8) 8 = Some (take 8 (drop (b + 8) (put mem a b0)))) as Hs1
    by (apply seg_Some; lia).
  rewrite Hs1. cbn [mbind option_bind]. destruct (seg_inv _ _ _ _ Hs1) as (_ & Lb1 & Hb1).
  set (b1 := take 8 (drop (b + 8) (put mem a b0))) in *.
  assert (length (put (put mem a b0) (a + 8) b1) = length mem) as L2 by (rewrite put_length; lia).
  assert (length (put (put (put mem a b0) (a + 8) b1) b t) = length mem) as L3 by (rewrite put_length; lia).
  eexists. split; [done|]. split; [rewrite put_length; lia|]. intros m.
  rewrite !put_lookup, Lb, La, La1, Lb1 by lia.
  destruct (decide (b + 8 <= m < b + 8 + 8)%nat).
  { rewrite Ha1 by lia. destruct (decide (a <= m < a + 16)%nat); [|rewrite decide_True by lia]; f_equal; lia. }
  destruct (decide (b <= m < b + 8)%nat).
  { rewrite Ha0 by lia. destruct (decide (a <= m < a + 16)%nat); [|rewrite decide_True by lia]; f_equal; lia. }
  destruct (decide (a + 8 <= m < a + 8 + 8)%nat).
  { rewrite decide_True by lia. rewrite Hb1, put_lookup, decide_False by lia. f_equal. lia. }
  destruct (decide (a <= m < a + 8)%nat).
  { rewrite decide_True by lia. rewrite Hb0 by lia. f_equal. lia. }
  by rewrite !decide_False by lia.
Qed.

Lemma exchange_pairs_ok k mem a b :
  (a + 16 * k <= length mem)%nat → (b + 16 * k <= length mem)%nat → separate a b (16 * k) →
  ∃ mem', exchange_pairs k mem a b = Some mem' ∧ ranges_swapped mem mem' a b (16 * k).
Proof.
  revert mem a b. induction k as [|k IH]; intros mem a b Ha Hb Hs; cbn [exchange_pairs].
  { exists mem. split; [done|]. split; [done|]. intros m. by rewrite !decide_False by lia. }
  destruct (exchange_pair_ok mem a b) as (m1 & -> & [L1 H1]); [lia|lia|unfold separate in *; lia|].
  cbn [mbind option_bind].
  destruct (IH m1 (a + 16)%nat (b + 16)%nat) as (mem' & Hr & H2); [lia|lia|unfold separate in *; lia|].
  exists mem'. split; [done|]. replace (16 * S k)%nat with (16 + 16 * k)%nat in * by lia.
  eapply ranges_swapped_app; [by split|done|done].
Qed.

(** Low bits of the alignment class. *)
Lemma low_bits x y r k : 0 <= k <= 4 → (x .| y) .& 15 = r → r mod 2 ^ k = 0 → y mod 2 ^ k = 0.
Proof.
  intros Hk Hr Hm. rewrite <- !Z.land_ones in * by lia. subst r. apply Z.bits_inj'. intros n Hn.
  apply (f_equal (λ z, Z.testbit z n)) in Hm. revert Hm.
  rewrite !Z.land_spec, Z.lor_spec, Z.bits_0. rewrite !Z.testbit_ones_nonneg by lia.
  change 15 with (Z.ones 4). rewrite Z.testbit_ones_nonneg by lia.
  destruct (Z.ltb_spec n k); [|by rewrite !andb_false_r].
  rewrite (proj2 (Z.ltb_lt n 4)) by lia. rewrite !andb_true_r. by destruct (Z.testbit x n), (Z.testbit y n).
Qed.

(** The function chosen for [size] exchanges [n] bytes, when [n] is [size]
    or a multiple of every power of two up to 16 that divides [size]. *)
Lemma exchange_func_ok base size n mem a b :
  (∀ k, 0 <= k <= 4 → size mod 2 ^ k = 0 → Z.of_nat n mod 2 ^ k = 0) →
  (size ∈ [1; 2; 4; 8; 16] → Z.of_nat n = size) →
  (a + n <= length mem)%nat → (b + n <= length mem)%nat → separate a b n →
  ∃ mem', exchange_func base size mem a b n = Some mem' ∧ ranges_swapped mem mem' a b n.
Proof.
  intros Hdiv Hone Ha Hb Hs.
  assert (∀ k, 0 <= k <= 4 → ((base .| size) .& 15) mod 2 ^ k = 0 →
    n = (Z.to_nat (2 ^ k) * (n / Z.to_nat (2 ^ k)))%nat) as Hn.
  { intros k Hk Hr. pose proof (Hdiv k Hk (low_bits base size _ k Hk eq_refl Hr)) as Hm.
    pose proof (Z.pow_pos_nonneg 2 k ltac:(lia) ltac:(lia)).
    apply Nat.Div0.div_exact. apply Nat2Z.inj. rewrite Nat2Z.inj_mod, Z2Nat.id by lia. done. }
  assert (∀ k w, 0 <= k <= 4 → w = Z.to_nat (2 ^ k) → ((base .| size) .& 15) mod 2 ^ k = 0 →
    ∃ mem', exchange_words w (n / w) mem a b = Some mem' ∧ ranges_swapped mem mem' a b n) as Hws.
  { intros k w Hk -> Hr. specialize (Hn k Hk Hr). rewrite Hn in Ha, Hb, Hs.
    destruct (exchange_words_ok _ _ mem a b Ha Hb Hs) as (m' & Hx & Hw). exists m'. by rewrite <- Hn in Hw. }
  assert (∀ w, Z.of_nat n = Z.of_nat w →
    ∃ mem', exchange_words w 1 mem a b = Some mem' ∧ ranges_swapped mem mem' a b n) as Hw1.
  { intros w Hw. replace n with (w * 1)%nat in * by lia. by apply exchange_words_ok. }
  unfold exchange_func. rewrite !elem_of_cons in Hone.
  destruct (Z.eqb_spec ((base .| size) .& 15) 0) as [E|_].
  { destruct (Z.eqb_spec size 16) as [->|]; unfold exchange_one_int128, exchange_int128s.
    - replace n with (16 * 1)%nat in * by lia. by apply exchange_pairs_ok.
    - specialize (Hn 4 ltac:(lia)). rewrite E in Hn. specialize (Hn eq_refl).
      change (Z.to_nat (2 ^ 4)) with 16%nat in Hn. rewrite Hn in Ha, Hb, Hs.
      destruct (exchange_pairs_ok (n / 16) mem a b Ha Hb Hs) as (m' & Hr & Hw).
      exists m'. by rewrite <- Hn in Hw. }
  destruct (Z.eqb_spec ((base .| size) .& 15) 8) as [E|_].
  { destruct (Z.eqb_spec size 8) as [->|]; [apply Hw1; lia|]. apply (Hws 3); [lia|done|by rewrite E]. }
  destruct (_ || _) eqn:E; [|clear E; destruct (_ || _) eqn:E].
  - destruct (Z.eqb_spec size 4) as [->|]; [apply Hw1; lia|]. apply (Hws 2); [lia|done|].
    rewrite orb_true_iff, !Z.eqb_eq in E. by destruct E as [-> | ->].
  - destruct (Z.eqb_spec size 2) as [->|]; [apply Hw1; lia|]. apply (Hws 1); [lia|done|].
    rewrite !orb_true_iff, !Z.eqb_eq in E. by destruct E as [[[-> | ->] | ->] | ->].
  - destruct (Z.eqb_spec size 1) as [->|]; [apply Hw1; lia|]. unfold exchange_bytes.
    replace (exchange_words 1 n mem a b) with (exchange_words 1 (n / 1) mem a b) by (by rewrite Nat.div_1_r).
    apply (Hws 0); [lia|done|apply Z.mod_1_r].
Qed.

(** ** What they do to elements *)

(** An array of elements of [sz] bytes. *)
Definition array_of (sz : nat) (els : list (list Z)) : Prop := Forall (λ e, length e = sz) els.

Lemma array_length sz els : array_of sz els → length (concat els) = (length els * sz)%nat.
Proof. induction 1 as [|e els He _ IH]; cbn; [done|]. rewrite length_app. lia. Qed.

Lemma array_lookup sz els i m : array_of sz els → (m < sz)%nat →
  concat els !! (i * sz + m)%nat = els !! i ≫= λ e, e !! m.
Proof.
  intros He Hm. revert i. induction He as [|e els Hl _ IH]; intros i; cbn [concat]; [done|].
  destruct i as [|i]; cbn [lookup list_lookup].
  - rewrite lookup_app_l by lia. done.
  - rewrite lookup_app_r by lia. rewrite Hl, <- IH. f_equal. lia.
Qed.

(** Arrays are equal when their bytes are. *)
Lemma array_ext sz mem els : (0 < sz)%nat → array_of sz els → length mem = (length els * sz)%nat →
  (∀ i m, (i < length els)%nat → (m < sz)%nat → mem !! (i * sz + m)%nat = els !! i ≫= λ e, e !! m) →
  mem = concat els.
Proof.
  intros Hsz He Hl H. apply list_eq_same_length with (length els * sz)%nat.
  - by apply array_length.
  - done.
  - intros k x y Hk Hx Hy. pose proof (Nat.div_mod k sz ltac:(lia)) as Hdm.
    pose proof (Nat.mod_upper_bound k sz ltac:(lia)). rewrite Nat.mul_comm in Hdm.
    rewrite Hdm in Hx, Hy. rewrite (array_lookup sz) in Hy by done.
    rewrite H in Hx by (try apply Nat.Div0.div_lt_upper_bound; lia). congruence.
Qed.

(** Exchanging the bytes of [k] elements exchanges the elements. *)
Lemma exchange_elements sz els els' mem' i j k :
  (0 < sz)%nat → array_of sz els → els' ≡ₚ els →
  (∀ m, els' !! m = if decide (i <= m < i + k)%nat then els !! (m - i + j)%nat
                    else if decide (j <= m < j + k)%nat then els !! (m - j + i)%nat else els !! m) →
  ranges_swapped (concat els) mem' (i * sz) (j * sz) (k * sz) → mem' = concat els'.
Proof.
  intros Hsz He HP Hels [Hl Hm].
  assert (array_of sz els') as He' by (unfold array_of; by rewrite HP).
  apply (array_ext sz); [done|done|by rewrite Hl, (array_length sz), (perm_length _ _ HP)|].
  intros p m Hp Hmz. rewrite Hm, Hels.
  destruct (decide (i <= p < i + k)%nat).
  { rewrite decide_True by nia. rewrite <- (array_lookup sz) by done. f_equal. nia. }
  rewrite decide_False by nia. destruct (decide (j <= p < j + k)%nat).
  { rewrite decide_True by nia. rewrite <- (array_lookup sz) by done. f_equal. nia. }
  rewrite decide_False by nia. by rewrite <- (array_lookup sz).
Qed.

Lemma separate_elements i j k sz : separate i j k → separate (i * sz) (j * sz) (k * sz).
Proof. unfold separate. intros [->|[H|H]]; [by left|right; left; nia|right; right; nia]. Qed.

Lemma exchange_one_ok base sz els i j :
  (0 < sz)%nat → array_of sz els → (i < length els)%nat → (j < length els)%nat →
  ∃ els', swap els i j = Some els' ∧
    exchange_func base (Z.of_nat sz) (concat els) (i * sz)%nat (j * sz)%nat sz = Some (concat els').
Proof.
  intros Hsz He Hi Hj. pose proof (array_length sz els He) as Hl.
  destruct (swap_ok els i j Hi Hj) as (els' & -> & HP & _ & Hsw). exists els'. split; [done|].
  destruct (exchange_func_ok base (Z.of_nat sz) sz (concat els) (i * sz)%nat (j * sz)%nat) as (mem' & -> & Hr);
    [done|done|nia|nia| |].
  { rewrite <- (Nat.mul_1_l sz) at 3. apply separate_elements. unfold separate. lia. }
  f_equal. apply (exchange_elements sz els els' mem' i j 1); [done|done|done| |by rewrite Nat.mul_1_l].
  intros m. rewrite Hsw. destruct (decide (m = i)) as [->|].
  { rewrite decide_True by lia. f_equal. lia. }
  destruct (decide (m = j)) as [->|]; [|by rewrite !decide_False by lia].
  rewrite decide_False, decide_True by lia. f_equal. lia.
Qed.

Lemma exchange_block_ok base sz els i j k :
  (0 < sz)%nat → array_of sz els → (i + k <= j)%nat → (j + k <= length els)%nat →
  ∃ els', swap_block k els i j = Some els' ∧
    exchange_func base (Z.of_nat sz .| 128) (concat els) (i * sz)%nat (j * sz)%nat (k * sz)%nat = Some (concat els').
Proof.
  intros Hsz He Hi Hj. pose proof (array_length sz els He) as Hl.
  destruct (swap_block_ok k els i j Hi Hj) as (els' & -> & HP & Hsw). exists els'. split; [done|].
  assert (128 <= Z.of_nat sz .| 128).
  { rewrite Z.lor_comm. pose proof (Z.lor_nonneg 128 (Z.of_nat sz)).
    assert (Z.testbit (128 .| Z.of_nat sz) 7 = true) as Hb by (by rewrite Z.lor_spec).
    destruct (Z.le_gt_cases 128 (128 .| Z.of_nat sz)) as [|Hlt]; [done|].
    rewrite (testbit_high _ 7) in Hb; [done|..]; change (2 ^ 7) with 128; lia. }
  destruct (exchange_func_ok base (Z.of_nat sz .| 128) (k * sz)%nat (concat els) (i * sz)%nat (j * sz)%nat) as (mem' & -> & Hr).
  - intros q Hq Hm. rewrite Nat2Z.inj_mul, Z.mul_mod by (apply Z.pow_nonzero; lia).
    rewrite (low_bits 128 (Z.of_nat sz) ((128 .| Z.of_nat sz) .& 15) q Hq eq_refl).
    + by rewrite Z.mul_0_r, Z.mod_0_l by (apply Z.pow_nonzero; lia).
    + mask_mod. rewrite Z.mod_mod_divide; [by rewrite Z.lor_comm|].
      exists (2 ^ (4 - q)). rewrite <- Z.pow_add_r by lia. f_equal. lia.
  - rewrite !elem_of_cons, elem_of_nil. lia.
  - nia.
  - nia.
  - apply separate_elements. unfold separate. lia.
  - f_equal. by apply (exchange_elements sz els els' mem' i j k).
Qed.

(** The exchange functions exchange elements. Whatever the alignment of
    the array and the size of its elements, the function [exchange_func]
    chooses for single elements exchanges elements [i] and [j] of the array
    (also when they are the same), and the one it chooses for blocks exchanges
    two disjoint blocks of [k] elements; both stay inside the array and change
    no other byte. *)
Theorem exchange_swaps base sz els i j k :
  (0 < sz)%nat → array_of sz els →
  ((i < length els)%nat → (j < length els)%nat →
   ∃ els', swap els i j = Some els' ∧
     exchange_func base (Z.of_nat sz) (concat els) (i * sz)%nat (j * sz)%nat sz = Some (concat els')) ∧
  ((i + k <= j)%nat → (j + k <= length els)%nat →
   ∃ els', swap_block k els i j = Some els' ∧
     exchange_func base (Z.of_nat sz .| 128) (concat els) (i * sz)%nat (j * sz)%nat (k * sz)%nat =
       Some (concat els')).
Proof. intros Hsz He. split; intros; [by apply exchange_one_ok|by apply exchange_block_ok]. Qed.

Lemma exchange_swaps_witness :
  exchange_func 0x1000 2 [1; 2; 3; 4; 5; 6] 0%nat 4%nat 2%nat = Some [5; 6; 3; 4; 1; 2] ∧
  exchange_func 0x1003 (2 .| 128) [1; 2; 3; 4; 5; 6; 7; 8] 0%nat 4%nat 4%nat = Some [5; 6; 7; 8; 1; 2; 3; 4].
Proof.
  destruct (exchange_swaps 0x1000 2 [[1; 2]; [3; 4]; [5; 6]] 0 2 1) as [H _]; [lia|by repeat constructor|].
  destruct (exchange_swaps 0x1003 2 [[1; 2]; [3; 4]; [5; 6]; [7; 8]] 0 2 2) as [_ H']; [lia|by repeat constructor|].
  destruct H as (e & He & H); [cbn; lia|cbn; lia|]. destruct H' as (e' & He' & H'); [cbn; lia|cbn; lia|].
  cbn in He, He'. injection He as <-. injection He' as <-. split; [exact H|exact H'].
Defined.

End Exchange.
