(* ===== verification/CharRange.v ===== *)
(** * Character ranges of the JS engine ([quickjs/libunicode.c])

    A set of code points is an array of points in ascending order: a code
    point is in the set when an odd number of points is not above it. The
    regular expression compiler and the property escapes build their sets with
    these operations. [points] is the allocated block, of which the first
    [len] elements are in use. [None] is an access outside the block, or the
    overflow of the [int] in which [cr_realloc] computes the new size. *)

From stdpp Require Import sorting.
From S2P Require Import Prelude Qsort.

#[local] Set Warnings "-clear-no-such-hyp".

Module CharRange.

Record CharRange : Set := mk_cr { len : nat; size : nat; points : list Z }.

Inductive CharRangeOpEnum : Set := CR_OP_UNION | CR_OP_INTER | CR_OP_XOR.

Definition set_at (l : list Z) (i : nat) (x : Z) : option (list Z) :=
  if (i <? length l)%nat then Some (<[i := x]> l) else None.

Definition cr_init : CharRange := mk_cr 0 0 [].

(** ** Compression in place *)

(** The inner loop: skip intervals that touch. *)
Fixpoint run_end (fuel : nat) (pt : list Z) (j n : nat) : option nat :=
  match fuel with
  | O => None
  | S fuel =>
      if (j + 3 <? n)%nat then
        a ← pt !! (j + 1)%nat;
        b ← pt !! (j + 2)%nat;
        if a =? b then run_end fuel pt (j + 2) n else Some j
      else Some j
  end.

Fixpoint compress_loop (fuel : nat) (pt : list Z) (i k n : nat) : option (list Z * nat) :=
  match fuel with
  | O => None
  | S fuel =>
      if (i + 1 <? n)%nat then
        a ← pt !! i;
        b ← pt !! (i + 1)%nat;
        if a =? b then compress_loop fuel pt (i + 2) k n
        else
          j ← run_end (S n) pt i n;
          x ← pt !! i; pt ← set_at pt k x;
          y ← pt !! (j + 1)%nat; pt ← set_at pt (k + 1) y;
          compress_loop fuel pt (j + 2) (k + 2) n
      else Some (pt, k)
  end.

Definition cr_compress (cr : CharRange) : option CharRange :=
  '(pt, k) ← compress_loop (S (len cr)) (points cr) 0 0 (len cr);
  Some (mk_cr k (size cr) pt).

Section realloc.
(** [realloc_func] on blocks of [n] points. *)
Variable realloc_func : list Z → nat → option (list Z).

(** Results are the return value, 0 or -1, and the range. *)
Definition cr_realloc (cr : CharRange) (n : nat) : option (Z * CharRange) :=
  if (size cr <? n)%nat then
    if 2 ^ 31 <=? Z.of_nat (size cr) * 3 then None (* signed overflow *)
    else
      let new_size := Nat.max n (size cr * 3 / 2) in
      Some (match realloc_func (points cr) new_size with
            | None => (-1, cr)
            | Some nb => (0, mk_cr (len cr) new_size nb)
            end)
  else Some (0, cr).

Definition cr_copy (cr cr1 : CharRange) : option (Z * CharRange) :=
  '(r, cr) ← cr_realloc cr (len cr1);
  if r =? 0 then
    if (len cr1 <=? length (points cr1))%nat && (len cr1 <=? length (points cr))%nat then
      Some (0, mk_cr (len cr1) (size cr) (take (len cr1) (points cr1) ++ drop (len cr1) (points cr)))
    else None
  else Some (-1, cr).

Definition cr_add_point (cr : CharRange) (v : Z) : option (Z * CharRange) :=
  '(r, cr) ← (if (size cr <=? len cr)%nat then cr_realloc cr (len cr + 1) else Some (0, cr));
  if r =? 0 then
    pt ← set_at (points cr) (len cr) v; Some (0, mk_cr (len cr + 1) (size cr) pt)
  else Some (-1, cr).

Definition cr_add_interval (cr : CharRange) (c1 c2 : Z) : option (Z * CharRange) :=
  '(r, cr) ← (if (size cr <? len cr + 2)%nat then cr_realloc cr (len cr + 2) else Some (0, cr));
  if r =? 0 then
    pt ← set_at (points cr) (len cr) c1;
    pt ← set_at pt (len cr + 1) c2;
    Some (0, mk_cr (len cr + 2) (size cr) pt)
  else Some (-1, cr).

(** The [switch] on the operation, on the parities of the indices. *)
Definition op_in (op : CharRangeOpEnum) (a b : bool) : bool :=
  match op with
  | CR_OP_UNION => a || b
  | CR_OP_INTER => a && b
  | CR_OP_XOR => xorb a b
  end.

(** One more point from [a] or [b] in increasing order: the point and the new
    indices; [Some None] is the end. *)
Definition next_point (a b : list Z) (a_idx b_idx : nat) : option (option (Z * nat * nat)) :=
  if (a_idx <? length a)%nat && (b_idx <? length b)%nat then
    x ← a !! a_idx; y ← b !! b_idx;
    Some (Some (if x <? y then (x, S a_idx, b_idx)
                else if x =? y then (x, S a_idx, S b_idx)
                else (y, a_idx, S b_idx)))
  else if (a_idx <? length a)%nat then x ← a !! a_idx; Some (Some (x, S a_idx, b_idx))
  else if (b_idx <? length b)%nat then y ← b !! b_idx; Some (Some (y, a_idx, S b_idx))
  else Some None.

Fixpoint cr_op_loop (fuel : nat) (cr : CharRange) (a b : list Z) (a_idx b_idx : nat)
    (op : CharRangeOpEnum) : option (Z * CharRange) :=
  match fuel with
  | O => None
  | S fuel =>
      p ← next_point a b a_idx b_idx;
      match p with
      | None => Some (0, cr)
      | Some (v, a_idx, b_idx) =>
          if eqb (op_in op (Nat.odd a_idx) (Nat.odd b_idx)) (Nat.odd (len cr))
          then cr_op_loop fuel cr a b a_idx b_idx op
          else
            '(r, cr) ← cr_add_point cr v;
            if r =? 0 then cr_op_loop fuel cr a b a_idx b_idx op else Some (-1, cr)
      end
  end.

Definition cr_op (cr : CharRange) (a b : list Z) (op : CharRangeOpEnum) : option (Z * CharRange) :=
  '(r, cr) ← cr_op_loop (S (length a + length b)) cr a b 0 0 op;
  if r =? 0 then cr ← cr_compress cr; Some (0, cr) else Some (-1, cr).

Definition cr_union1 (cr : CharRange) (b : list Z) : option (Z * CharRange) :=
  cr_op (mk_cr 0 0 []) (take (len cr) (points cr)) b CR_OP_UNION.

Definition cr_union_interval (cr : CharRange) (c1 c2 : Z) : option (Z * CharRange) :=
  cr_union1 cr [c1; u32 (c2 + 1)].

Definition cr_invert (cr : CharRange) : option (Z * CharRange) :=
  let n := len cr in
  '(r, cr) ← cr_realloc cr (n + 2);
  if r =? 0 then
    let pt := points cr in
    if (n + 1 <=? length pt)%nat then
      let pt := take 1 pt ++ take n pt ++ drop (n + 1) pt in
      pt ← set_at pt 0 0;
      pt ← set_at pt (n + 1) (2 ^ 32 - 1);
      cr ← cr_compress (mk_cr (n + 2) (size cr) pt);
      Some (0, cr)
    else None
  else Some (-1, cr).

End realloc.

(** ** Sorting overlapping ranges *)

Definition point_cmp (p1 p2 : Z * Z) : Z :=
  (if p2.1 <? p1.1 then 1 else 0) - (if p1.1 <? p2.1 then 1 else 0).

(** The elements [rqsort] is called on are pairs of points. *)
Fixpoint pairs (l : list Z) : list (Z * Z) :=
  match l with
  | x :: y :: l => (x, y) :: pairs l
  | _ => []
  end.
Definition flat (l : list (Z * Z)) : list Z := concat ((λ p, [p.1; p.2]) <$> l).

(** The inner loop: the end of the merged interval and the next index. *)
Fixpoint overlap_end (fuel : nat) (pt : list Z) (e : Z) (i n : nat) : option (Z * nat) :=
  match fuel with
  | O => None
  | S fuel =>
      if (i <? n)%nat then
        start1 ← pt !! i;
        end1 ← pt !! (i + 1)%nat;
        if e <? start1 then Some (e, i)
        else if end1 <=? e then overlap_end fuel pt e (i + 2) n
        else overlap_end fuel pt end1 (i + 2) n
      else Some (e, i)
  end.

Fixpoint overlap_loop (fuel : nat) (pt : list Z) (i j n : nat) : option (list Z * nat) :=
  match fuel with
  | O => None
  | S fuel =>
      if (i <? n)%nat then
        start ← pt !! i;
        e ← pt !! (i + 1)%nat;
        '(e, i) ← overlap_end (S n) pt e (i + 2) n;
        pt ← set_at pt j start;
        pt ← set_at pt (j + 1) e;
        overlap_loop fuel pt i (j + 2) n
      else Some (pt, j)
  end.

Definition cr_sort_and_remove_overlap (cr : CharRange) : option CharRange :=
  let n := (len cr / 2)%nat in
  s ← Qsort.rqsort point_cmp (pairs (take (n * 2) (points cr))) n;
  let pt := flat s ++ drop (n * 2) (points cr) in
  '(pt, j) ← overlap_loop (S (len cr)) pt 0 0 (len cr);
  Some (mk_cr j (size cr) pt).

(** ** Membership *)

(** An odd number of points is at most [x]. *)
Fixpoint mem (p : list Z) (x : Z) : bool :=
  match p with
  | [] => false
  | y :: p => xorb (y <=? x) (mem p x)
  end.

Lemma mem_app a b x : mem (a ++ b) x = xorb (mem a x) (mem b x).
Proof. induction a as [|y a IH]; cbn; [by destruct (mem b x)|]. by rewrite IH, xorb_assoc. Qed.

Lemma mem_all a x : Forall (λ y, y <= x) a → mem a x = Nat.odd (length a).
Proof.
  induction 1 as [|y a Hy _ IH]; [done|]. cbn [mem length]. rewrite IH, (proj2 (Z.leb_le _ _)) by done.
  rewrite Nat.odd_succ, <- Nat.negb_odd. by destruct (Nat.odd _).
Qed.

Lemma mem_twice y p x : mem (y :: y :: p) x = mem p x.
Proof. cbn. by destruct (y <=? x), (mem p x). Qed.

(** ** Windows of an array *)

Definition window (pt : list Z) (i n : nat) : list Z := take (n - i) (drop i pt).

Lemma window_cons pt i n x : pt !! i = Some x → (i < n)%nat → window pt i n = x :: window pt (S i) n.
Proof.
  intros Hx Hi. unfold window. rewrite (drop_S _ _ _ Hx).
  replace (n - i)%nat with (S (n - S i)) by lia. done.
Qed.

Lemma window_nil pt i n : (n <= i)%nat → window pt i n = [].
Proof. intros. unfold window. by replace (n - i)%nat with 0%nat by lia. Qed.

Lemma window_insert pt i n k x : (k < i)%nat → window (<[k := x]> pt) i n = window pt i n.
Proof. intros. unfold window. by rewrite drop_insert_lt. Qed.

Lemma window_length pt i n : (i <= n <= length pt)%nat → length (window pt i n) = (n - i)%nat.
Proof. intros. unfold window. rewrite length_take, length_drop. lia. Qed.

Lemma window_elem pt i n m x : pt !! m = Some x → (i <= m < n)%nat → x ∈ window pt i n.
Proof.
  intros Hx Hm. apply list_elem_of_lookup. exists (m - i)%nat. unfold window.
  rewrite lookup_take_lt by lia. rewrite lookup_drop. by replace (i + (m - i))%nat with m by lia.
Qed.

Lemma window_sub pt i j n x : (i <= j)%nat → x ∈ window pt j n → x ∈ window pt i n.
Proof.
  intros Hij [k Hk]%list_elem_of_lookup. unfold window in Hk.
  destruct (decide (k < n - j)%nat); [|rewrite lookup_take_ge in Hk by lia; done].
  rewrite lookup_take_lt, lookup_drop in Hk by lia. eapply window_elem; [exact Hk|lia].
Qed.

Lemma set_at_ok l i x : (i < length l)%nat → set_at l i x = Some (<[i := x]> l).
Proof. intros. unfold set_at. by rewrite (proj2 (Nat.ltb_lt _ _)). Qed.

Lemma take_set2 (pt : list Z) (k : nat) (x y : Z) : (k + 1 < length pt)%nat →
  take (k + 2) (<[(k + 1)%nat := y]> (<[k := x]> pt)) = take k pt ++ [x; y].
Proof.
  intros Hk. replace (k + 2)%nat with (S (S k)) by lia. replace (k + 1)%nat with (S k) by lia.
  rewrite (take_S_r _ _ y) by (apply list_lookup_insert_eq; rewrite length_insert; lia).
  rewrite take_insert_ge by lia. rewrite (take_S_r _ _ x) by (apply list_lookup_insert_eq; lia).
  rewrite take_insert_ge by lia. by rewrite <- app_assoc.
Qed.

(** ** Compression keeps the set and makes the points strictly ascending *)

Lemma run_end_ok fuel pt i j n x e :
  (n - j < fuel)%nat → (i <= j)%nat → (j + 1 < n <= length pt)%nat → Nat.even (n - j) = true →
  pt !! (j + 1)%nat = Some e → StronglySorted Z.le (e :: window pt (j + 2) n) →
  ∃ j' e', run_end fuel pt j n = Some j' ∧ (j <= j')%nat ∧ (j' + 1 < n)%nat ∧ Nat.even (n - j') = true ∧
    pt !! (j' + 1)%nat = Some e' ∧ e <= e' ∧
    (∀ z, mem (x :: e :: window pt (j + 2) n) z = mem (x :: e' :: window pt (j' + 2) n) z) ∧
    Forall (Z.lt e') (window pt (j' + 2) n) ∧ StronglySorted Z.le (window pt (j' + 2) n).
Proof.
  revert j e. induction fuel as [|fuel IH]; intros j e Hf Hij Hj Hev He Hs; [lia|]. cbn [run_end].
  apply StronglySorted_cons in Hs as [Hall Hs].
  destruct (Nat.ltb_spec (j + 3) n) as [Hlt|Hge].
  - rewrite He. destruct (lookup_lt_is_Some_2 pt (j + 2)) as [b Hb]; [lia|].
    destruct (lookup_lt_is_Some_2 pt (j + 3)) as [c Hc]; [lia|]. rewrite Hb. cbn [mbind option_bind].
    assert (window pt (j + 2) n = b :: c :: window pt (j + 4) n) as Hw.
    { rewrite (window_cons _ _ _ b) by (done || lia). f_equal.
      replace (S (j + 2)) with (j + 3)%nat by lia. rewrite (window_cons _ _ _ c) by (done || lia).
      f_equal. f_equal. lia. }
    rewrite Hw in *. apply StronglySorted_cons in Hs as [Hb2 Hs].
    apply Forall_cons in Hall as [Heb Hall]. destruct (Z.eqb_spec e b) as [->|Hne].
    + destruct (IH (j + 2)%nat c) as (j' & e' & Hr & H1 & H2 & H3 & H4 & H5 & H6 & H7 & H8); try lia.
      * rewrite <- Hev. replace (n - j)%nat with (S (S (n - (j + 2)))) by lia. by rewrite Nat.even_succ_succ.
      * by replace (j + 2 + 1)%nat with (j + 3)%nat by lia.
      * by replace (j + 2 + 2)%nat with (j + 4)%nat by lia.
      * apply Forall_cons in Hb2 as [Hbc _].
        exists j', e'. split_and!; try done; try lia. intros z. rewrite <- H6.
        replace (j + 2 + 2)%nat with (j + 4)%nat by lia. cbn. by destruct (x <=? z), (b <=? z), (c <=? z), (mem _ z).
    + exists j, e. rewrite Hw. split_and!; try done; try lia; [|by constructor].
      constructor; [lia|]. eapply Forall_impl; [exact Hb2|]. intros y Hy. lia.
  - assert (n - j = 2)%nat.
    { destruct (n - j)%nat as [|[|[|[|m]]]] eqn:E; cbn in Hev; (done || lia). }
    exists j, e. rewrite (window_nil pt (j + 2)) by lia. split_and!; try done; try lia; constructor.
Qed.

Lemma even_sub2 n i : (i + 2 <= n)%nat → Nat.even (n - (i + 2)) = Nat.even (n - i).
Proof. intros. replace (n - i)%nat with (S (S (n - (i + 2)))) by lia. by rewrite Nat.even_succ_succ. Qed.

Lemma compress_loop_ok fuel pt i k n :
  (n - i < fuel)%nat → (k <= i <= n)%nat → (n <= length pt)%nat → Nat.even (n - i) = true → Nat.even k = true →
  StronglySorted Z.le (window pt i n) → StronglySorted Z.lt (take k pt) →
  (∀ y z, y ∈ take k pt → z ∈ window pt i n → y < z) →
  ∃ pt' k', compress_loop fuel pt i k n = Some (pt', k') ∧ length pt' = length pt ∧ (k' <= n)%nat ∧
    Nat.even k' = true ∧ StronglySorted Z.lt (take k' pt') ∧
    (∀ z, mem (take k' pt') z = xorb (mem (take k pt) z) (mem (window pt i n) z)) ∧
    (∀ z, z ∈ take k' pt' → z ∈ take k pt ∨ z ∈ window pt i n).
Proof.
  revert pt i k. induction fuel as [|fuel IH]; intros pt i k Hf Hk Hn Hev Hevk Hs Ho Hlt; [lia|].
  cbn [compress_loop]. destruct (Nat.ltb_spec (i + 1) n) as [Hi|Hi].
  2: { assert (n - i = 0)%nat by (destruct (n - i)%nat as [|[|m]] eqn:E; cbn in Hev; (done || lia)).
       rewrite (window_nil pt i) by lia. exists pt, k. split_and!; try done; try lia; [|by left].
       intros z. by rewrite xorb_false_r. }
  destruct (lookup_lt_is_Some_2 pt i) as [a Ha]; [lia|].
  destruct (lookup_lt_is_Some_2 pt (i + 1)) as [b Hb]; [lia|].
  rewrite Ha, Hb. cbn [mbind option_bind].
  assert (window pt i n = a :: b :: window pt (i + 2) n) as Hw.
  { rewrite (window_cons _ _ _ a) by (done || lia). f_equal. replace (S i) with (i + 1)%nat by lia.
    rewrite (window_cons _ _ _ b) by (done || lia). do 2 f_equal. lia. }
  rewrite Hw in *. apply StronglySorted_cons in Hs as [Ha1 Hs].
  destruct (Z.eqb_spec a b) as [->|Hne].
  - apply StronglySorted_cons in Hs as [_ Hs].
    destruct (IH pt (i + 2)%nat k) as (pt' & k' & Hr & H1 & H2 & H3 & H4 & H5 & H6); try done; try lia.
    + by rewrite even_sub2 by lia.
    + intros y z Hy Hz. apply Hlt; [done|]. by do 2 (apply elem_of_cons; right).
    + exists pt', k'. split_and!; try done.
      * intros z. by rewrite H5, mem_twice.
      * intros z Hz. destruct (H6 z Hz) as [|]; [by left|right]. by do 2 (apply elem_of_cons; right).
  - destruct (run_end_ok (S n) pt i i n a b) as (j & e & Hr & J1 & J2 & J3 & J4 & J5 & J6 & J7 & J8); try done; try lia.
    rewrite Hr. cbn [mbind option_bind]. rewrite set_at_ok by lia. cbn [mbind option_bind].
    assert (a < b) by (apply Forall_cons in Ha1 as [? _]; lia).
    assert (e ∈ a :: b :: window pt (i + 2) n ∧ ∀ z, z ∈ window pt (j + 2) n → z ∈ a :: b :: window pt (i + 2) n)
      as [He Hsub].
    { rewrite <- Hw. split; [eapply window_elem; [exact J4|lia]|]. intros z. apply window_sub. lia. }
    rewrite list_lookup_insert_ne, J4 by lia. cbn [mbind option_bind].
    rewrite set_at_ok by (rewrite length_insert; lia). cbn [mbind option_bind].
    set (pt1 := <[(k + 1)%nat := e]> (<[k := a]> pt)).
    assert (take (k + 2) pt1 = take k pt ++ [a; e]) as Ht by (apply take_set2; lia).
    assert (window pt1 (j + 2) n = window pt (j + 2) n) as Hw1 by (unfold pt1; by rewrite !window_insert by lia).
    assert (length pt1 = length pt) as Hl1 by (unfold pt1; by rewrite !length_insert).
    assert (∀ y z, y ∈ take k pt ++ [a; e] → z ∈ window pt (j + 2) n → y < z) as Hlt1.
    { intros y z [Hy|Hy]%elem_of_app Hz; [by apply Hlt; [|apply Hsub]|].
      rewrite Forall_forall in J7. specialize (J7 z Hz). set_solver by lia. }
    destruct (IH pt1 (j + 2)%nat (k + 2)%nat) as (pt' & k' & Hr' & H1 & H2 & H3 & H4 & H5 & H6);
      rewrite ?Hw1, ?Ht, ?Hl1; try done; try lia.
    + by rewrite even_sub2 by lia.
    + by rewrite Nat.even_add, Hevk.
    + apply StronglySorted_app. split_and!; [|done|repeat constructor; lia].
      intros y z Hy Hz. assert (y < a) by (apply Hlt; [done|set_solver]). set_solver by lia.
    + rewrite Ht, Hw1 in *. exists pt', k'. split_and!; try done; [congruence| |].
      * intros z. rewrite H5, mem_app, xorb_assoc. f_equal. rewrite <- mem_app. symmetry. apply J6.
      * intros z Hz. destruct (H6 z Hz) as [[|]%elem_of_app|]; set_solver.
Qed.

(** ** Well-formed ranges *)

Definition cr_wf (cr : CharRange) : Prop := (len cr <= size cr)%nat ∧ length (points cr) = size cr.
Definition contents (cr : CharRange) : list Z := take (len cr) (points cr).
(** A canonical representation: an even number of points, strictly ascending. *)
Definition canonical (p : list Z) : Prop := Nat.even (length p) = true ∧ StronglySorted Z.lt p.
Definition ascending (p : list Z) : Prop := Nat.even (length p) = true ∧ StronglySorted Z.le p.

(** [realloc] returns a block of the requested size that starts with the old
    contents, or fails. *)
Definition realloc_ok (f : list Z → nat → option (list Z)) : Prop :=
  ∀ l n l', f l n = Some l' → length l' = n ∧ ((length l <= n)%nat → take (length l) l' = l).
(** A size up to which a range grows without the overflow in [cr_realloc]. *)
Definition int_fits (n : nat) : Prop := 3 * Z.of_nat n <= 2 ^ 31.
(** No allocation failed. *)
Definition never_fails (f : list Z → nat → option (list Z)) : Prop := ∀ l n, f l n ≠ None.

Lemma points_length cr : cr_wf cr → length (contents cr) = len cr.
Proof. intros [H1 H2]. unfold contents. rewrite length_take. lia. Qed.

Lemma strict_ascending p : canonical p → ascending p.
Proof.
  intros [He Hs]. split; [done|]. clear He. induction Hs as [|x p _ IH Hx]; constructor; [done|].
  eapply Forall_impl; [exact Hx|]. intros y. lia.
Qed.

(** A set has one canonical representation. *)
Lemma canonical_unique p q :
  StronglySorted Z.lt p → StronglySorted Z.lt q → (∀ x, mem p x = mem q x) → p = q.
Proof.
  assert (Hout : ∀ l x, Forall (Z.lt x) l → mem l x = false).
  { induction 1 as [|y l Hy _ IH]; [done|]. cbn. rewrite IH. by rewrite (proj2 (Z.leb_gt _ _)). }
  assert (Hhd : ∀ y l x, StronglySorted Z.lt (y :: l) → x < y → mem (y :: l) x = false).
  { intros y l x [Hall _]%StronglySorted_cons Hx. apply Hout. constructor; [done|].
    eapply Forall_impl; [exact Hall|]. intros z. lia. }
  assert (Hin : ∀ y l, StronglySorted Z.lt (y :: l) → mem (y :: l) y = true).
  { intros y l [Hall _]%StronglySorted_cons. cbn. by rewrite Z.leb_refl, Hout. }
  revert q. induction p as [|y p IH]; intros [|z q] Hp Hq Hm; [done| | |].
  - specialize (Hm z). by rewrite Hin in Hm.
  - specialize (Hm y). by rewrite Hin in Hm.
  - assert (y = z) as <-.
    { destruct (Z.lt_trichotomy y z) as [Hlt|[->|Hlt]]; [|done|].
      - specialize (Hm y). by rewrite Hin, Hhd in Hm.
      - specialize (Hm z). by rewrite Hin, (Hhd y) in Hm. }
    f_equal. apply StronglySorted_cons in Hp as [_ Hp], Hq as [_ Hq]. apply IH; try done.
    intros x. specialize (Hm x). cbn in Hm. by destruct (y <=? x), (mem p x), (mem q x).
Qed.

Lemma cr_compress_ok cr : cr_wf cr → ascending (contents cr) →
  ∃ cr', cr_compress cr = Some cr' ∧ cr_wf cr' ∧ canonical (contents cr') ∧ size cr' = size cr ∧
    (∀ x, mem (contents cr') x = mem (contents cr) x) ∧ (∀ z, z ∈ contents cr' → z ∈ contents cr).
Proof.
  intros Hwf [He Hs]. rewrite points_length in He by done. destruct Hwf as [H1 H2].
  assert (window (points cr) 0 (len cr) = contents cr) as Hw by (unfold window; by rewrite Nat.sub_0_r).
  unfold cr_compress.
  destruct (compress_loop_ok (S (len cr)) (points cr) 0 0 (len cr)) as (pt & k & -> & H3 & H4 & H5 & H6 & H7 & H8);
    rewrite ?Hw, ?Nat.sub_0_r; try done; try lia; [constructor|set_solver|].
  rewrite Hw in *. cbn [mbind option_bind]. eexists. split; [done|].
  unfold cr_wf, canonical, contents in *. cbn [len size points].
  split_and!; try done; try lia.
  - rewrite length_take. by replace (k `min` length pt)%nat with k by lia.
  - intros z Hz. destruct (H8 z Hz) as [?%elem_of_nil|]; done.
Qed.

(** ** Set operations *)

(** [l'] is [l] with or without [v] behind it. *)
Definition grown (l l' : list Z) (v : Z) : Prop := l' = l ∨ l' = l ++ [v].

Lemma grown_below l l' v x : grown l l' v → x < v → mem l' x = mem l x.
Proof.
  intros [->| ->] Hx; [done|]. rewrite mem_app. cbn. rewrite (proj2 (Z.leb_gt _ _)) by done.
  by rewrite !xorb_false_r.
Qed.

Lemma grown_elem l l' v y : grown l l' v → y ∈ l' → y ∈ l ∨ y = v.
Proof. intros [->| ->]; [by left|]. by intros [|Hy%list_elem_of_singleton]%elem_of_app; [left|right]. Qed.

Lemma grown_above l l' v x :
  grown l l' v → Forall (λ y, y <= v) l → v <= x → mem l' x = Nat.odd (length l').
Proof.
  intros Hg Hl Hx. apply mem_all.
  assert (Forall (λ y, y <= x) l) by (eapply Forall_impl; [exact Hl|]; intros y; cbn; lia).
  destruct Hg as [->| ->]; [done|]. apply Forall_app. split; [done|]. by constructor.
Qed.

(** Both arrays advanced by the point [v]: the output stays right when its
    parity does. *)
Lemma mem_step op A B O A' B' O' v :
  grown A A' v → grown B B' v → grown O O' v →
  Forall (λ y, y <= v) (A ++ B ++ O) →
  Nat.odd (length O') = op_in op (Nat.odd (length A')) (Nat.odd (length B')) →
  (∀ x, mem O x = op_in op (mem A x) (mem B x)) → ∀ x, mem O' x = op_in op (mem A' x) (mem B' x).
Proof.
  intros HA HB HO [H1 [H2 H3]%Forall_app]%Forall_app Hp Hm x. destruct (Z.lt_ge_cases x v) as [Hx|Hx].
  - by rewrite (grown_below A A' v), (grown_below B B' v), (grown_below O O' v).
  - by rewrite (grown_above A A' v), (grown_above B B' v), (grown_above O O' v).
Qed.

Lemma drop_head_le (a : list Z) i x : StronglySorted Z.le a → a !! i = Some x →
  (∀ z, z ∈ drop i a → x <= z) ∧ drop i a = x :: drop (S i) a.
Proof.
  intros Hs Hx. rewrite (drop_S _ _ _ Hx). split; [|done].
  rewrite <- (take_drop i a), (drop_S _ _ _ Hx) in Hs. apply StronglySorted_app in Hs as (_ & _ & Hs).
  apply StronglySorted_cons in Hs as [Hall _]. rewrite Forall_forall in Hall.
  intros z [->|Hz]%elem_of_cons; [lia|by apply Hall].
Qed.

(** [advanced a i i' v]: the index moved over [v], or did not move. *)
Definition advanced (a : list Z) (i i' : nat) (v : Z) : Prop :=
  (i' = i ∨ (i' = S i ∧ a !! i = Some v)) ∧ (∀ z, z ∈ drop i a → v <= z).

Lemma advanced_grown a i i' v : advanced a i i' v → grown (take i a) (take i' a) v.
Proof.
  intros [[->|[-> Hv]] _]; [by left|right]. by apply take_S_r.
Qed.

Lemma advanced_drop a i i' v z : advanced a i i' v → z ∈ drop i' a → z ∈ drop i a.
Proof.
  intros [[->|[-> Hv]] _] Hz; [done|]. rewrite (drop_S _ _ _ Hv). by apply elem_of_cons; right.
Qed.

Lemma next_point_ok a b i j :
  StronglySorted Z.le a → StronglySorted Z.le b → (i <= length a)%nat → (j <= length b)%nat →
  (next_point a b i j = Some None ∧ i = length a ∧ j = length b) ∨
  ∃ v i' j', next_point a b i j = Some (Some (v, i', j')) ∧ advanced a i i' v ∧ advanced b j j' v ∧
    (i' <= length a)%nat ∧ (j' <= length b)%nat ∧ (i + j < i' + j')%nat ∧ (v ∈ drop i a ∨ v ∈ drop j b).
Proof.
  intros Ha Hb Hi Hj. unfold next_point, advanced.
  destruct (Nat.ltb_spec i (length a)) as [Hia|Hia]; destruct (Nat.ltb_spec j (length b)) as [Hjb|Hjb]; cbn [andb].
  - destruct (lookup_lt_is_Some_2 a i Hia) as [x Hx], (lookup_lt_is_Some_2 b j Hjb) as [y Hy].
    rewrite Hx, Hy. cbn [mbind option_bind].
    destruct (drop_head_le a i x Ha Hx) as [Hx1 Hx2], (drop_head_le b j y Hb Hy) as [Hy1 Hy2].
    right. destruct (Z.ltb_spec x y); [|destruct (Z.eqb_spec x y) as [<-|]].
    + exists x, (S i), j. split_and!; try done; try lia; try (by right); [|left; rewrite Hx2; set_solver].
      intros z Hz. specialize (Hy1 z Hz). lia.
    + exists x, (S i), (S j). split_and!; try done; try lia; try (by right); left; rewrite Hx2; set_solver.
    + exists y, i, (S j). split_and!; try done; try lia; try (by right); [|right; rewrite Hy2; set_solver].
      intros z Hz. specialize (Hx1 z Hz). lia.
  - destruct (lookup_lt_is_Some_2 a i Hia) as [x Hx]. rewrite Hx. cbn [mbind option_bind].
    destruct (drop_head_le a i x Ha Hx) as [Hx1 Hx2]. rewrite (drop_ge b j) by lia.
    right. exists x, (S i), j. split_and!; try done; try lia; try (by right); [set_solver|left; rewrite Hx2; set_solver].
  - destruct (lookup_lt_is_Some_2 b j Hjb) as [y Hy]. rewrite Hy. cbn [mbind option_bind].
    destruct (drop_head_le b j y Hb Hy) as [Hy1 Hy2]. rewrite (drop_ge a i) by lia.
    right. exists y, i, (S j). split_and!; try done; try lia; try (by right); [set_solver|right; rewrite Hy2; set_solver].
  - left. split_and!; [done|lia|lia].
Qed.

(** ** Growth *)

Section growth.
Context (f : list Z → nat → option (list Z)) (Hf : realloc_ok f).

Lemma cr_realloc_ok cr n : cr_wf cr → int_fits n →
  (cr_realloc f cr n = Some (-1, cr) ∧ ~ never_fails f) ∨
  (∃ cr', cr_realloc f cr n = Some (0, cr') ∧ cr_wf cr' ∧ contents cr' = contents cr ∧
     len cr' = len cr ∧ (n <= size cr')%nat).
Proof using Hf.
  intros [H1 H2] Hn. unfold int_fits in Hn. unfold cr_realloc. destruct (Nat.ltb_spec (size cr) n) as [Hlt|Hge].
  2: { right. by exists cr. }
  rewrite (proj2 (Z.leb_gt _ _)) by lia.
  destruct (f (points cr) _) as [nb|] eqn:E.
  2: { left. split; [done|]. intros H. by eapply H. }
  apply Hf in E as [E1 E2]. right. eexists. split; [done|].
  unfold cr_wf, contents in *. cbn [len size points]. split_and!; try done; try lia.
  rewrite <- E2 by lia. rewrite take_take. f_equal. lia.
Qed.

(** Storing behind the contents appends. *)
Lemma store_end cr v : cr_wf cr → (len cr < size cr)%nat →
  ∃ pt, set_at (points cr) (len cr) v = Some pt ∧
    cr_wf (mk_cr (len cr + 1) (size cr) pt) ∧ contents (mk_cr (len cr + 1) (size cr) pt) = contents cr ++ [v].
Proof using.
  intros [H1 H2] Hlt. rewrite set_at_ok by lia. eexists. split; [done|].
  unfold cr_wf, contents. cbn [len size points]. rewrite length_insert. split_and!; try lia.
  rewrite Nat.add_1_r, (take_S_r _ _ v) by (apply list_lookup_insert_eq; lia).
  by rewrite take_insert_ge by lia.
Qed.

Lemma cr_add_point_ok cr v : cr_wf cr → int_fits (len cr + 1) →
  (cr_add_point f cr v = Some (-1, cr) ∧ ~ never_fails f) ∨
  (∃ cr', cr_add_point f cr v = Some (0, cr') ∧ cr_wf cr' ∧ contents cr' = contents cr ++ [v] ∧
     len cr' = S (len cr)).
Proof using Hf.
  intros Hwf Hfit. unfold cr_add_point.
  assert (Hput : ∀ cr', cr_wf cr' → contents cr' = contents cr → len cr' = len cr → (len cr' < size cr')%nat →
    ∃ cr'', (pt ← set_at (points cr') (len cr') v; Some (0, mk_cr (len cr' + 1) (size cr') pt)) = Some (0, cr'') ∧
      cr_wf cr'' ∧ contents cr'' = contents cr ++ [v] ∧ len cr'' = S (len cr)).
  { intros cr' Hwf' Hc Hl Hlt. destruct (store_end cr' v) as (pt & -> & H1 & H2); try done.
    eexists. split; [done|]. rewrite <- Hc. split_and!; try done. cbn. lia. }
  destruct (Nat.leb_spec (size cr) (len cr)) as [Hge|Hlt].
  - destruct (cr_realloc_ok cr (len cr + 1) Hwf Hfit) as [[-> Hn]|(cr' & -> & H1 & H2 & H3 & H4)]; [by left|].
    right. apply Hput; try done. lia.
  - right. by apply Hput.
Qed.

(** What a call that may fail for lack of memory leaves: -1 after a refused
    allocation, or 0 and a range with the property [P]. *)
Definition outcome (P : CharRange → Prop) (res : option (Z * CharRange)) : Prop :=
  ∃ r cr, res = Some (r, cr) ∧ cr_wf cr ∧ ((r = -1 ∧ ~ never_fails f) ∨ (r = 0 ∧ P cr)).

Lemma cr_op_loop_ok op a b fuel cr i j :
  StronglySorted Z.le a → StronglySorted Z.le b → Nat.even (length a) = true → Nat.even (length b) = true →
  int_fits (length a + length b) → (len cr <= i + j)%nat →
  (length a + length b < fuel + i + j)%nat → (i <= length a)%nat → (j <= length b)%nat → cr_wf cr →
  StronglySorted Z.le (contents cr) → Nat.odd (len cr) = op_in op (Nat.odd i) (Nat.odd j) →
  (∀ y z, y ∈ take i a ++ take j b ++ contents cr → z ∈ drop i a ++ drop j b → y <= z) →
  (∀ x, mem (contents cr) x = op_in op (mem (take i a) x) (mem (take j b) x)) →
  outcome (λ cr', ascending (contents cr') ∧ ∀ x, mem (contents cr') x = op_in op (mem a x) (mem b x))
    (cr_op_loop f fuel cr a b i j op).
Proof using Hf.
  intros Ha Hb Hea Heb Hfit. revert cr i j. induction fuel as [|fuel IH]; intros cr i j Hlen Hfu Hi Hj Hwf Hs Hp Hle Hm; [lia|].
  cbn [cr_op_loop].
  destruct (next_point_ok a b i j) as [(-> & -> & ->)|(v & i' & j' & -> & HA & HB & Hi' & Hj' & Hlt & Hv)]; try done.
  { cbn [mbind option_bind]. exists 0, cr. split_and!; try done. right. split; [done|].
    rewrite !firstn_all in Hm. split; [split; [|done]|done].
    rewrite points_length, <- Nat.negb_odd, Hp, <- !Nat.negb_even, Hea, Heb by done. by destruct op. }
  cbn [mbind option_bind].
  assert (Hall : Forall (λ y, y <= v) (take i a ++ take j b ++ contents cr)).
  { apply Forall_forall. intros y Hy. apply Hle; [done|]. apply elem_of_app. tauto. }
  assert (Hstep : ∀ cr', cr_wf cr' → (len cr' <= S (len cr))%nat → grown (contents cr) (contents cr') v →
    Nat.odd (len cr') = op_in op (Nat.odd i') (Nat.odd j') →
    outcome (λ cr', ascending (contents cr') ∧ ∀ x, mem (contents cr') x = op_in op (mem a x) (mem b x))
      (cr_op_loop f fuel cr' a b i' j' op)).
  { intros cr' Hwf' Hl' Hg Hp'. apply IH; try done; try lia.
    - destruct Hg as [->| ->]; [done|]. apply StronglySorted_app. split_and!; [|done|repeat constructor].
      intros y z Hy ->%list_elem_of_singleton. rewrite Forall_forall in Hall. apply Hall. set_solver.
    - intros y z Hy Hz.
      assert (v <= z ∧ z ∈ drop i a ++ drop j b) as [Hvz Hz'].
      { rewrite elem_of_app in Hz |- *. destruct Hz as [Hz|Hz].
        - apply (advanced_drop _ _ _ _ _ HA) in Hz. split; [by apply (proj2 HA)|by left].
        - apply (advanced_drop _ _ _ _ _ HB) in Hz. split; [by apply (proj2 HB)|by right]. }
      assert (y ∈ take i a ++ take j b ++ contents cr ∨ y = v) as [| ->]; [|by apply Hle|done].
      rewrite !elem_of_app in Hy |- *.
      destruct Hy as [Hy|[Hy|Hy]]; eapply grown_elem in Hy; eauto using advanced_grown; tauto.
    - eapply mem_step; eauto using advanced_grown.
      rewrite points_length by done. rewrite !length_take. rewrite Hp'. do 2 f_equal; lia. }
  destruct (eqb _ _) eqn:E.
  - apply eqb_prop in E. apply Hstep; [done|lia|by left|done].
  - apply eqb_false_iff in E.
    destruct (cr_add_point_ok cr v Hwf ltac:(unfold int_fits in *; lia)) as [[-> Hn]|(cr' & -> & H1 & H2 & H3)]; cbn.
    + exists (-1), cr. split_and!; try done. by left.
    + apply Hstep; [done|lia|by right|]. rewrite H3, Nat.odd_succ, <- Nat.negb_odd.
      revert E. generalize (op_in op (Nat.odd i') (Nat.odd j')) (Nat.odd (len cr)). by intros [] [].
Qed.

Lemma cr_op_ok cr a b op : cr_wf cr → len cr = 0%nat → ascending a → ascending b → int_fits (length a + length b) →
  outcome (λ cr', canonical (contents cr') ∧ ∀ x, mem (contents cr') x = op_in op (mem a x) (mem b x))
    (cr_op f cr a b op).
Proof using Hf.
  intros Hwf Hl [Hea Ha] [Heb Hb] Hfit. assert (contents cr = []) as Hc by (unfold contents; by rewrite Hl).
  unfold cr_op. destruct (cr_op_loop_ok op a b (S (length a + length b)) cr 0 0) as (r & cr1 & -> & Hwf1 & Hr);
    rewrite ?Hc, ?Hl; try done; try lia; [constructor|by destruct op|set_solver|by destruct op|].
  cbn [mbind option_bind]. destruct Hr as [[-> Hn]|(-> & Has & Hm)]; cbn [Z.eqb].
  - exists (-1), cr1. split_and!; try done. by left.
  - destruct (cr_compress_ok cr1 Hwf1 Has) as (cr2 & -> & H1 & H2 & _ & H3 & _).
    exists 0, cr2. split_and!; try done. right. split_and!; try done. intros x. by rewrite H3.
Qed.

Lemma cr_union1_ok cr b : cr_wf cr → ascending (contents cr) → ascending b → int_fits (len cr + length b) →
  outcome (λ cr', canonical (contents cr') ∧ ∀ x, mem (contents cr') x = mem (contents cr) x || mem b x)
    (cr_union1 f cr b).
Proof using Hf. intros. apply (cr_op_ok (mk_cr 0 0 []) (contents cr) b CR_OP_UNION); try done. by rewrite points_length. Qed.

Lemma cr_copy_ok cr cr1 : cr_wf cr → cr_wf cr1 → int_fits (len cr1) →
  outcome (λ cr', contents cr' = contents cr1) (cr_copy f cr cr1).
Proof using Hf.
  intros Hwf [H1 H2] Hfit. unfold cr_copy.
  destruct (cr_realloc_ok cr (len cr1) Hwf Hfit) as [[-> Hn]|(cr' & -> & [H3 H4] & _ & H5 & H6)]; cbn [mbind option_bind Z.eqb].
  { exists (-1), cr. split_and!; try done. by left. }
  rewrite !(proj2 (Nat.leb_le _ _)) by lia. cbn [andb]. eexists 0, _. split; [done|].
  unfold cr_wf, contents. cbn [len size points]. rewrite length_app, length_take, length_drop.
  split_and!; try lia. right. split; [done|]. apply take_app_length'. rewrite length_take. lia.
Qed.

Lemma cr_add_interval_ok cr c1 c2 : cr_wf cr → int_fits (len cr + 2) →
  outcome (λ cr', contents cr' = contents cr ++ [c1; c2]) (cr_add_interval f cr c1 c2).
Proof using Hf.
  intros Hwf Hfit. unfold cr_add_interval.
  assert (Hput : ∀ cr', cr_wf cr' → contents cr' = contents cr → (len cr' + 2 <= size cr')%nat →
    outcome (λ cr', contents cr' = contents cr ++ [c1; c2])
      (pt ← set_at (points cr') (len cr') c1; pt ← set_at pt (len cr' + 1) c2;
       Some (0, mk_cr (len cr' + 2) (size cr') pt))).
  { intros cr' Hwf' Hc Hl. destruct (store_end cr' c1) as (pt & -> & H1 & H2); [done|lia|].
    destruct (store_end _ c2 H1) as (pt2 & Hpt & H3 & H4); [cbn; lia|]. cbn [len size points] in *.
    cbn [mbind option_bind]. rewrite Hpt. cbn [mbind option_bind].
    replace (len cr' + 1 + 1)%nat with (len cr' + 2)%nat in H3, H4 by lia. exists 0, (mk_cr (len cr' + 2) (size cr') pt2). split_and!; try done.
    right. split; [done|]. by rewrite H4, H2, Hc, <- app_assoc. }
  destruct (Nat.ltb_spec (size cr) (len cr + 2)) as [Hlt|Hge].
  - destruct (cr_realloc_ok cr (len cr + 2) Hwf Hfit) as [[-> Hn]|(cr' & -> & H1 & H2 & H3 & H4)]; cbn [mbind option_bind Z.eqb].
    + exists (-1), cr. split_and!; try done. by left.
    + apply Hput; try done. lia.
  - by apply Hput.
Qed.

Lemma cr_union_interval_ok cr c1 c2 : cr_wf cr → ascending (contents cr) → 0 <= c1 <= c2 → c2 < 2 ^ 32 - 1 → int_fits (len cr + 2) →
  outcome (λ cr', canonical (contents cr') ∧
      ∀ x, mem (contents cr') x = mem (contents cr) x || ((c1 <=? x) && (x <=? c2)))
    (cr_union_interval f cr c1 c2).
Proof using Hf.
  intros Hwf Has H1 H2 Hfit. unfold cr_union_interval. rewrite u32_id by (unfold is_u32; lia).
  destruct (cr_union1_ok cr [c1; c2 + 1]) as (r & cr' & -> & Hwf' & Hr); try done.
  { split; [done|]. constructor; [by repeat constructor|]. constructor; [lia|done]. }
  exists r, cr'. split_and!; try done. destruct Hr as [|(-> & Hc & Hm)]; [by left|right].
  split_and!; try done. intros x. rewrite Hm. f_equal. cbn.
  destruct (Z.leb_spec c1 x), (Z.leb_spec (c2 + 1) x), (Z.leb_spec x c2); (done || lia).
Qed.

(** The points a [uint32_t] can hold. *)
Definition u32_points (p : list Z) : Prop := Forall (λ y, 0 <= y <= 2 ^ 32 - 1) p.

(** The array [cr_invert] builds before it compresses. *)
Lemma invert_shift (pt : list Z) n M : (n + 2 <= length pt)%nat →
  ∃ pt', (pt1 ← set_at (take 1 pt ++ take n pt ++ drop (n + 1) pt) 0 0; set_at pt1 (n + 1) M) = Some pt' ∧
    length pt' = length pt ∧ take (n + 2) pt' = 0 :: take n pt ++ [M].
Proof using.
  intros Hn. assert (length (take n pt) = n) as Hl by (rewrite length_take; lia).
  destruct (drop (n + 1) pt) as [|y rest] eqn:Er.
  { apply (f_equal length) in Er. rewrite length_drop in Er. cbn in Er. lia. }
  assert (length pt = n + 1 + S (length rest))%nat as Hlen.
  { apply (f_equal length) in Er. rewrite length_drop in Er. cbn in Er. lia. }
  destruct pt as [|p0 pt0] eqn:Ep; [cbn in Hn; lia|]. rewrite <- Ep in *. assert (take 1 pt = [p0]) as -> by by subst pt.
  rewrite set_at_ok by (cbn; lia). cbn [mbind option_bind]. cbn [app insert list_insert].
  rewrite set_at_ok by (cbn; rewrite length_app, Hl; cbn; lia). eexists. split; [done|].
  rewrite Nat.add_1_r.
  change (<[S n := M]> (0 :: take n pt ++ y :: rest)) with (0 :: <[n := M]> (take n pt ++ y :: rest)).
  rewrite insert_app_r_alt, Hl, Nat.sub_diag by lia. cbn [insert list_insert].
  split; [cbn; rewrite length_app, Hl; cbn; lia|].
  replace (n + 2)%nat with (S (n + 1)) by lia. cbn [take]. f_equal.
  rewrite take_app_ge by lia. rewrite Hl. replace (n + 1 - n)%nat with 1%nat by lia. done.
Qed.

Lemma cr_invert_ok cr : cr_wf cr → ascending (contents cr) → u32_points (contents cr) → int_fits (len cr + 2) →
  outcome (λ cr', canonical (contents cr') ∧ u32_points (contents cr') ∧
      ∀ x, mem (contents cr') x = xorb ((0 <=? x) && (x <? 2 ^ 32 - 1)) (mem (contents cr) x))
    (cr_invert f cr).
Proof using Hf.
  intros Hwf [He Hs] Hu Hfit. unfold u32_points in *. unfold cr_invert.
  destruct (cr_realloc_ok cr (len cr + 2) Hwf Hfit) as [[-> Hn]|(cr1 & -> & [H1 H2] & Hc & H3 & H4)]; cbn [mbind option_bind Z.eqb].
  { exists (-1), cr. split_and!; try done. by left. }
  rewrite (proj2 (Nat.leb_le _ _)) by lia.
  destruct (invert_shift (points cr1) (len cr) (2 ^ 32 - 1)) as (pt & Hpt & Hl & Ht); [lia|].
  replace (take (len cr) (points cr1)) with (contents cr) in * by (rewrite <- Hc; unfold contents; by rewrite H3).
  destruct (set_at _ 0 0) as [pt1|]; [|done]. cbn [mbind option_bind] in Hpt |- *. rewrite Hpt. cbn [mbind option_bind].
  set (cr2 := mk_cr (len cr + 2) (size cr1) pt).
  assert (contents cr2 = 0 :: contents cr ++ [2 ^ 32 - 1]) as Hc2 by done.
  destruct (cr_compress_ok cr2) as (cr3 & -> & H5 & H6 & _ & H7 & H8).
  { split; cbn; lia. }
  { rewrite Hc2. split.
    - cbn [length]. rewrite length_app, Nat.add_comm. cbn [length Nat.add]. by rewrite Nat.even_succ_succ.
    - constructor.
      + apply StronglySorted_app. split_and!; [|done|repeat constructor].
        intros y z Hy ->%list_elem_of_singleton. rewrite Forall_forall in Hu. by apply Hu.
      + apply Forall_app. split; [|by repeat constructor]. eapply Forall_impl; [exact Hu|]. intros y [? ?]. done. }
  rewrite Hc2 in H7, H8. exists 0, cr3. split_and!; try done. right. split_and!; try done.
  - apply Forall_forall. intros z Hz%H8. rewrite Forall_forall in Hu.
    apply elem_of_cons in Hz as [->|[Hz| ->%list_elem_of_singleton]%elem_of_app]; [lia|by apply Hu|lia].
  - intros x. rewrite H7. cbn [mem]. rewrite mem_app. cbn [mem].
    destruct (Z.leb_spec 0 x), (Z.ltb_spec x (2 ^ 32 - 1)), (Z.leb_spec (2 ^ 32 - 1) x);
      (lia || by destruct (mem _ x)).
Qed.

End growth.

(** ** Sorting and merging overlapping intervals *)

(** [x] is in one of the half-open intervals. *)
Definition covers (ps : list (Z * Z)) (x : Z) : bool := existsb (λ p, (p.1 <=? x) && (x <? p.2)) ps.
(** Ascending intervals that neither overlap nor touch. *)
Definition separated (ps : list (Z * Z)) : Prop :=
  StronglySorted (λ p q, p.2 < q.1) ps ∧ Forall (λ p, p.1 <= p.2) ps.

Lemma covers_app ps qs x : covers (ps ++ qs) x = covers ps x || covers qs x.
Proof. apply existsb_app. Qed.

Lemma covers_perm ps qs x : ps ≡ₚ qs → covers ps x = covers qs x.
Proof.
  unfold covers. induction 1 as [|p ps qs _ IH|p q ps|ps qs rs _ IH1 _ IH2]; cbn; [done|by rewrite IH| |by rewrite IH1].
  by rewrite !orb_assoc, (orb_comm (_ && _)).
Qed.

Lemma flat_app ps qs : flat (ps ++ qs) = flat ps ++ flat qs.
Proof. unfold flat. by rewrite fmap_app, concat_app. Qed.

Lemma flat_length ps : length (flat ps) = (2 * length ps)%nat.
Proof. induction ps as [|p ps IH]; [done|]. change (flat (p :: ps)) with (p.1 :: p.2 :: flat ps). cbn. lia. Qed.

Lemma flat_pairs l : Nat.even (length l) = true → flat (pairs l) = l.
Proof.
  remember (length l) as n eqn:Hn. revert l Hn.
  induction n as [n IH] using lt_wf_ind. intros [|x [|y l]] -> He; [done|done|].
  cbn [pairs]. change (flat ((x, y) :: pairs l)) with (x :: y :: flat (pairs l)).
  do 2 f_equal. eapply IH; [|done|by cbn in He]. cbn. lia.
Qed.

Lemma mem_covers ps x : separated ps → mem (flat ps) x = covers ps x.
Proof.
  intros [Hs Hw]. induction Hs as [|p ps _ IH Hp]; [done|]. apply Forall_cons in Hw as [Hw1 Hw].
  change (flat (p :: ps)) with (p.1 :: p.2 :: flat ps). cbn [mem covers existsb]. fold (covers ps x).
  rewrite IH by done. destruct (covers ps x) eqn:E.
  - apply existsb_exists in E as (q & Hq & [H1 H2]%andb_true_iff). apply list_elem_of_In in Hq.
    rewrite Forall_forall in Hp. specialize (Hp q Hq). cbn in Hp. apply Z.leb_le in H1.
    by rewrite !(proj2 (Z.leb_le _ _)), (proj2 (Z.ltb_ge _ _)) by lia.
  - rewrite orb_false_r, xorb_false_r.
    destruct (Z.leb_spec p.1 x), (Z.leb_spec p.2 x), (Z.ltb_spec x p.2); (done || lia).
Qed.

(** The intervals an array holds from [i] to [n]. *)
Lemma window_pair pt i n p ps : window pt i n = flat (p :: ps) → (n <= length pt)%nat →
  (i + 2 <= n)%nat ∧ pt !! i = Some p.1 ∧ pt !! (i + 1)%nat = Some p.2 ∧ window pt (i + 2) n = flat ps.
Proof.
  intros Hw Hn. change (flat (p :: ps)) with (p.1 :: p.2 :: flat ps) in Hw.
  assert (i + 2 <= n)%nat.
  { apply (f_equal length) in Hw. unfold window in Hw. rewrite length_take in Hw. cbn in Hw. lia. }
  destruct (lookup_lt_is_Some_2 pt i) as [a Ha]; [lia|].
  destruct (lookup_lt_is_Some_2 pt (S i)) as [b Hb]; [lia|].
  rewrite (window_cons _ _ _ a), (window_cons _ _ _ b) in Hw by (done || lia). injection Hw as -> -> Hw.
  replace (i + 1)%nat with (S i) by lia. replace (i + 2)%nat with (S (S i)) by lia. split_and!; (done || lia).
Qed.

Lemma overlap_end_ok fuel pt ps s e i n :
  (n - i < fuel)%nat → (i <= n <= length pt)%nat → window pt i n = flat ps → s <= e →
  Forall (λ p, p.1 <= p.2) ps → StronglySorted (λ p q, p.1 <= q.1) ps → Forall (λ p, s <= p.1) ps →
  ∃ e' i' ps' qs, overlap_end fuel pt e i n = Some (e', i') ∧ (i <= i' <= n)%nat ∧ window pt i' n = flat ps' ∧
    ps = qs ++ ps' ∧ e <= e' ∧ Forall (λ p, e' < p.1) ps' ∧
    ∀ x, covers ((s, e) :: ps) x = covers ((s, e') :: ps') x.
Proof.
  revert e i ps. induction fuel as [|fuel IH]; intros e i ps Hf Hi Hw Hse Hwf Hs Hall; [lia|].
  cbn [overlap_end]. destruct ps as [|p ps].
  { apply (f_equal length) in Hw as Hl. rewrite window_length in Hl by lia. cbn in Hl.
    rewrite (proj2 (Nat.ltb_ge _ _)) by lia. exists e, i, [], []. split_and!; (done || lia). }
  destruct (window_pair pt i n p ps Hw) as (Hlt & Hp1 & Hp2 & Hw2); [lia|].
  rewrite (proj2 (Nat.ltb_lt _ _)), Hp1, Hp2 by lia. cbn [mbind option_bind].
  apply Forall_cons in Hwf as [Hwp Hwf], Hall as [Hsp Hall]. apply StronglySorted_cons in Hs as [Hps Hs].
  destruct (Z.ltb_spec e p.1) as [He|He].
  { exists e, i, (p :: ps), []. split_and!; try done; try lia. constructor; [done|].
    eapply Forall_impl; [exact Hps|]. intros q Hq. cbn in *. lia. }
  assert (Hnext : ∀ e1, e1 = e `max` p.2 →
    ∃ e' i' ps' qs, overlap_end fuel pt e1 (i + 2) n = Some (e', i') ∧ (i <= i' <= n)%nat ∧
      window pt i' n = flat ps' ∧ p :: ps = qs ++ ps' ∧ e <= e' ∧ Forall (λ p, e' < p.1) ps' ∧
      ∀ x, covers ((s, e) :: p :: ps) x = covers ((s, e') :: ps') x).
  { intros e1 He1. destruct (IH e1 (i + 2)%nat ps) as (e' & i' & ps' & qs & H1 & H2 & H3 & H4 & H5 & H6 & H7);
      try done; try lia.
    exists e', i', ps', (p :: qs). split_and!; try done; try lia; [by rewrite H4|].
    intros x. rewrite <- H7. cbn. rewrite orb_assoc. f_equal.
    destruct (Z.leb_spec s x), (Z.ltb_spec x e), (Z.leb_spec p.1 x), (Z.ltb_spec x p.2), (Z.ltb_spec x e1); (done || lia). }
  destruct (Z.leb_spec p.2 e); apply Hnext; lia.
Qed.

Lemma overlap_loop_ok fuel pt ps qs i j n :
  (n - i < fuel)%nat → (j <= i)%nat → (i <= n <= length pt)%nat → window pt i n = flat ps →
  Forall (λ p, p.1 <= p.2) ps → StronglySorted (λ p q, p.1 <= q.1) ps →
  take j pt = flat qs → separated qs → (∀ q p, q ∈ qs → p ∈ ps → q.2 < p.1) →
  ∃ pt' j' qs', overlap_loop fuel pt i j n = Some (pt', j') ∧ length pt' = length pt ∧ (j' <= n)%nat ∧
    take j' pt' = flat qs' ∧ separated qs' ∧ ∀ x, covers qs' x = covers (qs ++ ps) x.
Proof.
  revert pt ps qs i j. induction fuel as [|fuel IH]; intros pt ps qs i j Hf Hj Hi Hw Hwf Hs Ht [Hq1 Hq2] Hqp; [lia|].
  cbn [overlap_loop]. destruct ps as [|p ps].
  { apply (f_equal length) in Hw as Hl. rewrite window_length in Hl by lia. cbn in Hl.
    rewrite (proj2 (Nat.ltb_ge _ _)) by lia. exists pt, j, qs. rewrite app_nil_r. split_and!; (done || lia). }
  destruct (window_pair pt i n p ps Hw) as (Hlt & Hp1 & Hp2 & Hw2); [lia|].
  rewrite (proj2 (Nat.ltb_lt _ _)), Hp1, Hp2 by lia. cbn [mbind option_bind].
  apply Forall_cons in Hwf as [Hwp Hwf]. apply StronglySorted_cons in Hs as [Hps Hs].
  destruct (overlap_end_ok (S n) pt ps p.1 p.2 (i + 2) n) as (e & i' & ps' & rs & -> & H2 & H3 & H4 & H5 & H6 & H7);
    try done; try lia.
  cbn [mbind option_bind]. rewrite set_at_ok by lia. cbn [mbind option_bind].
  rewrite set_at_ok by (rewrite length_insert; lia). cbn [mbind option_bind].
  set (pt1 := <[(j + 1)%nat := e]> (<[j := p.1]> pt)).
  assert (take (j + 2) pt1 = flat (qs ++ [(p.1, e)])) as Ht1.
  { rewrite flat_app, <- Ht. apply take_set2. lia. }
  destruct (IH pt1 ps' (qs ++ [(p.1, e)]) i' (j + 2)%nat) as (pt' & j' & qs' & Hr & K1 & K2 & K3 & K4 & K5);
    unfold pt1 in *; rewrite ?length_insert, ?window_insert in * by lia; try done; try lia.
  - subst ps. by apply Forall_app in Hwf as [_ ?].
  - subst ps. by apply StronglySorted_app in Hs as (_ & _ & ?).
  - split.
    + apply StronglySorted_app. split_and!; [|done|repeat constructor].
      intros q z Hq ->%list_elem_of_singleton. apply (Hqp q p); [done|by left].
    + apply Forall_app. split; [done|]. constructor; [cbn; lia|done].
  - intros q z Hq Hz. apply elem_of_app in Hq as [Hq| ->%list_elem_of_singleton].
    + apply Hqp; [done|]. subst ps. apply elem_of_cons. right. apply elem_of_app. by right.
    + rewrite Forall_forall in H6. by apply H6.
  - exists pt', j', qs'. split_and!; try done. intros x. rewrite K5, <- app_assoc, !(covers_app qs). f_equal.
    symmetry. destruct p. apply H7.
Qed.

Lemma point_cmp_ok : Qsort.cmp_ok point_cmp.
Proof.
  split; unfold point_cmp.
  - intros [x ?] [y ?]. cbn. destruct (Z.ltb_spec y x), (Z.ltb_spec x y); lia.
  - intros [x x2] [y y2] [z z2]. cbn.
    destruct (Z.ltb_spec y x), (Z.ltb_spec x y), (Z.ltb_spec z y), (Z.ltb_spec y z), (Z.ltb_spec z x), (Z.ltb_spec x z); lia.
Qed.

Lemma cr_sort_and_remove_overlap_ok cr : cr_wf cr → Nat.even (len cr) = true →
  Forall (λ p, p.1 <= p.2) (pairs (contents cr)) →
  ∃ cr' qs, cr_sort_and_remove_overlap cr = Some cr' ∧ cr_wf cr' ∧ contents cr' = flat qs ∧ separated qs ∧
    ∀ x, covers qs x = covers (pairs (contents cr)) x.
Proof.
  intros [H1 H2] He Hp. unfold cr_sort_and_remove_overlap.
  assert (len cr / 2 * 2 = len cr)%nat as Hn.
  { apply Nat.even_spec in He as [m ->]. by rewrite (Nat.mul_comm 2), Nat.div_mul. }
  rewrite Hn. fold (contents cr) in *.
  assert (length (contents cr) = len cr) as Hlc by (by apply points_length).
  assert (flat (pairs (contents cr)) = contents cr) as Hfp by (apply flat_pairs; by rewrite Hlc).
  assert (length (pairs (contents cr)) = (len cr / 2)%nat) as Hlp.
  { apply (f_equal length) in Hfp. rewrite flat_length, Hlc in Hfp. lia. }
  destruct (Qsort.rqsort_ok point_cmp (pairs (contents cr))) as (a & Hr & HP & Ho).
  rewrite Hlp in Hr. rewrite Hr. cbn [mbind option_bind].
  assert (length (flat a) = len cr) as Hla by (rewrite flat_length, (Permutation_length HP); lia).
  assert (StronglySorted (λ p q, p.1 <= q.1) a) as Hs.
  { assert (StronglySorted (Qsort.le point_cmp) a) as Hle.
    { apply Qsort.ordered_sorted. rewrite (Permutation_length HP). apply Ho, point_cmp_ok. }
    clear -Hle. induction Hle as [|p a _ IH Hx]; constructor; [done|].
    eapply Forall_impl; [exact Hx|]. intros q. unfold Qsort.le, point_cmp.
    destruct (Z.ltb_spec q.1 p.1), (Z.ltb_spec p.1 q.1); lia. }
  destruct (overlap_loop_ok (S (len cr)) (flat a ++ drop (len cr) (points cr)) a [] 0 0 (len cr))
    as (pt & j & qs & -> & K1 & K2 & K3 & K4 & K5); try done; try lia.
  { rewrite length_app, length_drop. lia. }
  { unfold window. rewrite Nat.sub_0_r. cbn [drop]. by apply take_app_length'. }
  { by rewrite HP. }
  { split; constructor. }
  { set_solver. }
  rewrite length_app, length_drop in K1. cbn [mbind option_bind].
  exists (mk_cr j (size cr) pt), qs. split_and!; try done.
  - split; cbn; lia.
  - intros x. rewrite K5. by apply covers_perm.
Qed.

(** C34: [cr_op] on two ascending arrays with an even number of points, of
    together at most 2^31 / 3 points, into an empty range, never leaves its
    arrays and does not overflow an [int]; unless an allocation is refused
    (-1), it returns 0 and the range holds the canonical representation, the
    only strictly ascending one, of the union, intersection or symmetric
    difference of the two sets. (A range that has grown past 2^31 / 3 points
    and has to grow again overflows: [cr_realloc_overflows].) *)
Theorem cr_op_set f cr a b op : realloc_ok f → cr_wf cr → len cr = 0%nat → ascending a → ascending b →
  3 * (zlen a + zlen b) <= 2 ^ 31 →
  outcome f (λ cr', canonical (contents cr') ∧
      (∀ x, mem (contents cr') x = op_in op (mem a x) (mem b x)) ∧
      (∀ p, StronglySorted Z.lt p → (∀ x, mem p x = op_in op (mem a x) (mem b x)) → p = contents cr'))
    (cr_op f cr a b op).
Proof.
  intros Hf Hwf Hl Ha Hb Hn. assert (int_fits (length a + length b)) as Hfit by (unfold int_fits; lia).
  destruct (cr_op_ok f Hf cr a b op Hwf Hl Ha Hb Hfit) as (r & cr' & -> & Hwf' & Hr).
  exists r, cr'. split_and!; try done. destruct Hr as [|(-> & Hc & Hm)]; [by left|right].
  split_and!; try done. intros p Hp Hpm. apply canonical_unique; [done|apply Hc|].
  intros x. by rewrite Hpm, Hm.
Qed.

Lemma cr_realloc_overflows f cr n : 2 ^ 31 <= 3 * Z.of_nat (size cr) → (size cr < n)%nat → cr_realloc f cr n = None.
Proof.
  intros H1 H2. unfold cr_realloc. by rewrite (proj2 (Nat.ltb_lt _ _)), (proj2 (Z.leb_le _ _)) by lia.
Qed.

(** [cr_invert] complements a set of code points in [0, 2^32 - 1), and
    inverting twice restores the points themselves. *)
Theorem cr_invert_complement f cr : realloc_ok f → cr_wf cr → canonical (contents cr) → u32_points (contents cr) →
  int_fits (len cr + 2) →
  outcome f (λ cr', canonical (contents cr') ∧ u32_points (contents cr') ∧
      (∀ x, 0 <= x < 2 ^ 32 - 1 → mem (contents cr') x = negb (mem (contents cr) x)) ∧
      (int_fits (len cr' + 2) → outcome f (λ cr'', contents cr'' = contents cr) (cr_invert f cr')))
    (cr_invert f cr).
Proof.
  intros Hf Hwf Hc Hu Hfit.
  destruct (cr_invert_ok f Hf cr) as (r & cr' & -> & Hwf' & Hr); try done; [by apply strict_ascending|].
  exists r, cr'. split_and!; try done. destruct Hr as [|(-> & Hc' & Hu' & Hm)]; [by left|right]. split_and!; try done.
  { intros x Hx. rewrite Hm, (proj2 (Z.leb_le _ _)), (proj2 (Z.ltb_lt _ _)) by lia. by destruct (mem _ x). }
  intros Hfit'.
  destruct (cr_invert_ok f Hf cr') as (r2 & cr2 & -> & Hwf2 & Hr2); try done; [by apply strict_ascending|].
  exists r2, cr2. split_and!; try done. destruct Hr2 as [|(-> & Hc2 & _ & Hm2)]; [by left|right]. split; [done|].
  apply canonical_unique; [apply Hc2|apply Hc|]. intros x. rewrite Hm2, Hm. by destruct (_ && _), (mem _ x).
Qed.

(** Building a range: [cr_copy] copies the points, [cr_add_interval]
    appends two of them, and [cr_union_interval] adds the code points from
    [c1] to [c2], both included, to the set; each keeps every access inside
    the block and fails only with the allocator. *)
Theorem cr_build_ops f cr cr1 c1 c2 :
  realloc_ok f → cr_wf cr → cr_wf cr1 → ascending (contents cr) → 0 <= c1 <= c2 → c2 < 2 ^ 32 - 1 →
  int_fits (len cr1) → int_fits (len cr + 2) →
  outcome f (λ cr', contents cr' = contents cr1) (cr_copy f cr cr1) ∧
  outcome f (λ cr', contents cr' = contents cr ++ [c1; c2]) (cr_add_interval f cr c1 c2) ∧
  outcome f (λ cr', canonical (contents cr') ∧
      ∀ x, mem (contents cr') x = mem (contents cr) x || ((c1 <=? x) && (x <=? c2)))
    (cr_union_interval f cr c1 c2).
Proof.
  intros Hf Hwf Hwf1 Ha H1 H2 F1 F2.
  split_and!; [by apply cr_copy_ok|by apply cr_add_interval_ok|by apply cr_union_interval_ok].
Qed.

(** From intervals in any order, overlapping or not,
    [cr_sort_and_remove_overlap] makes ascending intervals that neither overlap
    nor touch and cover the same code points, so that the array is again a
    point representation of the set; every access is in bounds. *)
Theorem overlap_removed cr : cr_wf cr → Nat.even (len cr) = true →
  Forall (λ p, p.1 <= p.2) (pairs (contents cr)) →
  ∃ cr' qs, cr_sort_and_remove_overlap cr = Some cr' ∧ cr_wf cr' ∧ contents cr' = flat qs ∧ separated qs ∧
    ∀ x, mem (contents cr') x = covers (pairs (contents cr)) x.
Proof.
  intros Hwf He Hp. destruct (cr_sort_and_remove_overlap_ok cr Hwf He Hp) as (cr' & qs & Hr & Hwf' & Hc & Hs & Hm).
  exists cr', qs. split_and!; try done. intros x. by rewrite Hc, mem_covers, Hm.
Qed.

(** ** Witnesses *)

(** An allocator that always succeeds. *)
Definition demo_points (l : list Z) (n : nat) : option (list Z) := Some (take n (l ++ replicate n 0)).

Lemma demo_points_ok : realloc_ok demo_points.
Proof.
  intros l n l'. unfold demo_points. injection 1 as <-. split.
  - rewrite length_take, length_app, length_replicate. lia.
  - intros Hl. rewrite take_take, Nat.min_l by lia. by apply take_app_length'.
Qed.

Definition demo_cr : CharRange := mk_cr 4 6 [65; 91; 97; 123; 0; 0].

Lemma cr_op_set_witness :
  outcome demo_points (λ cr', canonical (contents cr') ∧
      (∀ x, mem (contents cr') x = op_in CR_OP_INTER (mem [48; 58; 65; 71] x) (mem [50; 70] x)) ∧
      (∀ p, StronglySorted Z.lt p →
         (∀ x, mem p x = op_in CR_OP_INTER (mem [48; 58; 65; 71] x) (mem [50; 70] x)) → p = contents cr'))
    (cr_op demo_points cr_init [48; 58; 65; 71] [50; 70] CR_OP_INTER).
Proof.
  apply (cr_op_set demo_points cr_init [48; 58; 65; 71] [50; 70] CR_OP_INTER demo_points_ok);
    [done|done|split; [done|]; repeat (constructor; try lia)..|cbn; lia].
Defined.

Lemma cr_invert_complement_witness :
  outcome demo_points (λ cr', canonical (contents cr') ∧ u32_points (contents cr') ∧
      (∀ x, 0 <= x < 2 ^ 32 - 1 → mem (contents cr') x = negb (mem (contents demo_cr) x)) ∧
      (int_fits (len cr' + 2) → outcome demo_points (λ cr'', contents cr'' = contents demo_cr) (cr_invert demo_points cr')))
    (cr_invert demo_points demo_cr).
Proof.
  apply (cr_invert_complement demo_points demo_cr demo_points_ok);
    [split; cbn; lia|split; [done|]; cbn; repeat (constructor; try lia)|cbn; repeat (constructor; try lia)|unfold int_fits; cbn; lia].
Defined.

Lemma cr_build_ops_witness :
  outcome demo_points (λ cr', contents cr' = contents demo_cr) (cr_copy demo_points demo_cr demo_cr) ∧
  outcome demo_points (λ cr', contents cr' = contents demo_cr ++ [48; 57]) (cr_add_interval demo_points demo_cr 48 57) ∧
  outcome demo_points (λ cr', canonical (contents cr') ∧
      ∀ x, mem (contents cr') x = mem (contents demo_cr) x || ((48 <=? x) && (x <=? 57)))
    (cr_union_interval demo_points demo_cr 48 57).
Proof.
  apply (cr_build_ops demo_points demo_cr demo_cr 48 57 demo_points_ok);
    [split; cbn; lia|split; cbn; lia|split; [done|]; cbn; repeat (constructor; try lia)|lia|lia|unfold int_fits; cbn; lia|unfold int_fits; cbn; lia].
Defined.

Lemma overlap_removed_witness :
  ∃ cr' qs, cr_sort_and_remove_overlap (mk_cr 6 6 [97; 123; 65; 91; 88; 97]) = Some cr' ∧ cr_wf cr' ∧
    contents cr' = flat qs ∧ separated qs ∧
    ∀ x, mem (contents cr') x = covers (pairs [97; 123; 65; 91; 88; 97]) x.
Proof.
  apply (overlap_removed (mk_cr 6 6 [97; 123; 65; 91; 88; 97]));
    [split; cbn; lia|done|cbn; repeat (constructor; cbn; try lia)].
Defined.

End CharRange.
