(* ===== verification/UnicodeCC.v ===== *)
(** * Combining classes ([quickjs/libunicode.c], [libunicode-table.h])

    The compressed table of canonical combining classes and its index. Code
    points are [uint32_t] values; a read outside a table is [None], and so is a
    loop that runs out of fuel. *)

From S2P Require Import Prelude UnicodeTables.

Module UnicodeCC.
Import UnicodeTables.

(** ** Index tables *)

Definition get_le24 (t : list Z) (p : Z) : option Z :=
  b0 ← aget t p; b1 ← aget t (p + 1); b2 ← aget t (p + 2);
  Some (b0 .| (b1 << 8) .| (b2 << 16)).

Definition UNICODE_INDEX_BLOCK_LEN : Z := 32.

(** The binary search; the result is [idx_min]. *)
Fixpoint index_search (fuel : nat) (t : list Z) (c idx_min idx_max : Z) : option Z :=
  match fuel with
  | O => None
  | S fuel =>
      if 1 <? idx_max - idx_min then
        let idx := (idx_max + idx_min) / 2 in
        v ← get_le24 t (idx * 3);
        if c <? v .& (2 ^ 21 - 1) then index_search fuel t c idx_min idx
        else index_search fuel t c idx idx_max
      else Some idx_min
  end.

(** [*pcode] and the offset, or -1 as the inner [None]. *)
Definition get_index_pos (c : Z) (t : list Z) (n : Z) : option (option (Z * Z)) :=
  v ← get_le24 t 0;
  if c <? v .& (2 ^ 21 - 1) then Some (Some (0, 0))
  else
    code ← get_le24 t ((n - 1) * 3);
    if code <=? c then Some None
    else
      idx ← index_search (Z.to_nat n) t c 0 (n - 1);
      v ← get_le24 t (idx * 3);
      Some (Some (v .& (2 ^ 21 - 1), (idx + 1) * UNICODE_INDEX_BLOCK_LEN + (v >> 21))).

(** ** Combining classes *)

(** One entry of the table at [p]: its type, its length less one, its value
    [p[-1]] and the position behind it. *)
Definition cc_entry (p : Z) : option (Z * Z * Z * Z) :=
  b ← aget unicode_cc_table p;
  let type := b >> 6 in
  let n := b .& 0x3f in
  '(n, p) ←
    (if n <? 48 then Some (n, p + 1)
     else if n <? 56 then
       b1 ← aget unicode_cc_table (p + 1);
       Some ((((n - 48) << 8) .| b1) + 48, p + 2)
     else
       b1 ← aget unicode_cc_table (p + 1);
       b2 ← aget unicode_cc_table (p + 2);
       Some ((((n - 56) << 8) .| (b1 << 8) .| b2) + (48 + 2 ^ 11), p + 3));
  let p := if type <=? 1 then p + 1 else p in
  v ← aget unicode_cc_table (p - 1);
  Some (type, n, v, p).

Definition cc_value (type v c code : Z) : Z :=
  if type =? 0 then v else if type =? 1 then u32 (v + c - code) else if type =? 2 then 0 else 230.

Fixpoint cc_loop (fuel : nat) (c code p : Z) : option Z :=
  match fuel with
  | O => None
  | S fuel =>
      '(type, n, v, p) ← cc_entry p;
      let c1 := u32 (code + n + 1) in
      if c <? c1 then Some (cc_value type v c code) else cc_loop fuel c c1 p
  end.

Definition unicode_get_cc (c : Z) : option Z :=
  r ← get_index_pos c unicode_cc_index (zlen unicode_cc_index / 3);
  match r with
  | None => Some 0
  | Some (code, pos) => cc_loop (length unicode_cc_table) c code pos
  end.

(** ** Every code point has a combining class *)

Definition index_code (v : Z) : Z := v .& (2 ^ 21 - 1).

(** The search ends between two neighbours that enclose [c]. *)
Lemma index_search_ok fuel t c lo hi :
  (∀ i, lo <= i <= hi → get_le24 t (i * 3) ≠ None) → lo < hi → hi - lo <= Z.of_nat fuel →
  (∀ v, get_le24 t (lo * 3) = Some v → index_code v <= c) →
  (∀ v, get_le24 t (hi * 3) = Some v → c < index_code v) →
  ∃ i v w, index_search fuel t c lo hi = Some i ∧ lo <= i < hi ∧
    get_le24 t (i * 3) = Some v ∧ get_le24 t ((i + 1) * 3) = Some w ∧ index_code v <= c < index_code w.
Proof.
  revert lo hi. induction fuel as [|fuel IH]; intros lo hi Hin Hlt Hf Hlo Hhi; [lia|].
  cbn [index_search]. destruct (Z.ltb_spec 1 (hi - lo)) as [Hgap|Hgap].
  - assert (lo < (hi + lo) / 2 < hi) as Hmid.
    { pose proof (Z.div_mod (hi + lo) 2). pose proof (Z.mod_pos_bound (hi + lo) 2). lia. }
    set (m := (hi + lo) / 2) in *. clearbody m.
    destruct (get_le24 t (m * 3)) as [v|] eqn:Ev; [|by destruct (Hin m); [lia|]]. cbn [mbind option_bind].
    fold (index_code v). destruct (Z.ltb_spec c (index_code v)).
    + destruct (IH lo m) as (i & v1 & w1 & ? & ? & ? & ? & ?); try done; try lia; [| |by exists i, v1, w1; split_and!; (done || lia)].
      * intros i Hi. apply Hin. lia.
      * intros v' Hv'. by rewrite Ev in Hv'; injection Hv' as <-.
    + destruct (IH m hi) as (i & v1 & w1 & ? & ? & ? & ? & ?); try done; try lia; [| |by exists i, v1, w1; split_and!; (done || lia)].
      * intros i Hi. apply Hin. lia.
      * intros v' Hv'. by rewrite Ev in Hv'; injection Hv' as <-.
  - assert (hi = lo + 1) as -> by lia.
    destruct (get_le24 t (lo * 3)) as [v|] eqn:Ev; [|by destruct (Hin lo); [lia|]].
    destruct (get_le24 t ((lo + 1) * 3)) as [w|] eqn:Ew; [|by destruct (Hin (lo + 1)); [lia|]].
    exists lo, v, w. split_and!; try done; try lia; [by apply Hlo|by apply Hhi].
Qed.

(** The walk over the entries from [p], which describes [code], to the one
    that describes [limit]; classes are at most 255 on the way. *)
Fixpoint cc_walk (fuel : nat) (code p limit : Z) : option (Z * Z) :=
  if limit <=? code then Some (code, p)
  else
    match fuel with
    | O => None
    | S fuel =>
        '(type, n, v, p) ← cc_entry p;
        if (0 <=? n) && (code + n + 1 <? 2 ^ 32) && (0 <=? v) && (v + (if type =? 1 then n else 0) <=? 255)
        then cc_walk fuel (code + n + 1) p limit else None
    end.

Lemma cc_walk_ok fuel c code p limit e : cc_walk fuel code p limit = Some e → 0 <= code <= c → c < limit →
  ∃ cc, cc_loop fuel c code p = Some cc ∧ 0 <= cc <= 255.
Proof.
  revert code p. induction fuel as [|fuel IH]; intros code p Hc Hlo Hhi;
    cbn [cc_walk] in Hc; rewrite (proj2 (Z.leb_gt _ _)) in Hc by lia; [done|].
  cbn [cc_loop]. destruct (cc_entry p) as [[[[type n] v] p']|]; [|done]. cbn [mbind option_bind] in *.
  destruct (_ && _) eqn:Hb; [|done].
  rewrite !andb_true_iff, !Z.leb_le, Z.ltb_lt in Hb. destruct Hb as [[[H1 H2] H3] H4].
  rewrite u32_id by (unfold is_u32; lia). destruct (Z.ltb_spec c (code + n + 1)).
  - eexists. split; [done|]. unfold cc_value. destruct (Z.eqb_spec type 0), (Z.eqb_spec type 1); try lia.
    + rewrite u32_id by (unfold is_u32; lia). lia.
    + case_match; lia.
  - apply IH; (done || lia).
Qed.

Lemma cc_walk_mono fuel code p limit code' p' : cc_walk fuel code p limit = Some (code', p') → code <= code'.
Proof.
  revert code p. induction fuel as [|fuel IH]; intros code p; cbn [cc_walk];
    (destruct (limit <=? code); [by intros [= -> ->]|]); [done|].
  destruct (cc_entry p) as [[[[? n] ?] ?]|]; [|done]. cbn [mbind option_bind]. destruct (_ && _) eqn:Hb; [|done].
  rewrite !andb_true_iff, !Z.leb_le in Hb. intros H%IH. lia.
Qed.

(** A scan that starts before a walked stretch passes over it. *)
Lemma cc_walk_skip fuel g c code p limit code' p' :
  cc_walk fuel code p limit = Some (code', p') → code' <= c → 0 <= code →
  ∃ f, cc_loop f c code p = cc_loop g c code' p'.
Proof.
  revert code p. induction fuel as [|fuel IH]; intros code p Hw Hc Hcode; cbn [cc_walk] in Hw;
    (destruct (limit <=? code); [injection Hw as -> ->; by exists g|]); [done|].
  destruct (cc_entry p) as [[[[type n] v] p1]|] eqn:Ee; [|done]. cbn [mbind option_bind] in Hw.
  destruct (_ && _) eqn:Hb; [|done].
  rewrite !andb_true_iff, !Z.leb_le, Z.ltb_lt in Hb. destruct Hb as [[[H1 H2] _] _].
  pose proof (cc_walk_mono _ _ _ _ _ _ Hw). destruct (IH _ _ Hw Hc) as [f Hf]; [lia|].
  exists (S f). cbn [cc_loop]. rewrite Ee. cbn [mbind option_bind]. rewrite u32_id by (unfold is_u32; lia).
  by rewrite (proj2 (Z.ltb_ge _ _)) by lia.
Qed.

Definition cc_count : Z := zlen unicode_cc_index / 3.
(** The position in the table an index entry stands for. *)
Definition index_pos (i v : Z) : Z := (i + 1) * UNICODE_INDEX_BLOCK_LEN + (v >> 21).

(** Each block of the table ends where the next index entry points, the last
    one at the end of the table. *)
Definition cc_block_ok (i : Z) : bool :=
  match get_le24 unicode_cc_index (i * 3), get_le24 unicode_cc_index ((i + 1) * 3) with
  | Some v, Some w =>
      (0 <=? index_code v) &&
      bool_decide (cc_walk (length unicode_cc_table) (index_code v) (index_pos i v) (index_code w) =
                   Some (index_code w, if i + 2 =? cc_count then zlen unicode_cc_table else index_pos (i + 1) w))
  | _, _ => false
  end.

Definition cc_tables_ok : bool :=
  forallb cc_block_ok (seqZ 0 (cc_count - 1)) &&
  match get_le24 unicode_cc_index 0, get_le24 unicode_cc_index ((cc_count - 1) * 3) with
  | Some v, Some w =>
      bool_decide (cc_walk (length unicode_cc_table) 0 0 (index_code v) = Some (index_code v, index_pos 0 v)) &&
      (index_code w =? w)
  | _, _ => false
  end.

Lemma cc_tables : cc_tables_ok = true.
Proof. vm_compute. reflexivity. Qed.

Lemma cc_count_eq : cc_count = 29.
Proof. vm_compute. reflexivity. Qed.

Lemma cc_block i : 0 <= i < cc_count - 1 → ∃ v w p,
  get_le24 unicode_cc_index (i * 3) = Some v ∧ get_le24 unicode_cc_index ((i + 1) * 3) = Some w ∧ 0 <= index_code v ∧
  cc_walk (length unicode_cc_table) (index_code v) (index_pos i v) (index_code w) = Some (index_code w, p) ∧
  (i + 2 < cc_count → p = index_pos (i + 1) w).
Proof.
  intros Hi. pose proof cc_tables as Ht. unfold cc_tables_ok in Ht. apply andb_true_iff in Ht as [Ht _].
  rewrite forallb_forall in Ht. specialize (Ht i). unfold cc_block_ok in Ht.
  destruct (get_le24 _ (i * 3)) as [v|], (get_le24 _ ((i + 1) * 3)) as [w|];
    try (by discriminate Ht; apply list_elem_of_In, elem_of_seqZ; lia).
  apply andb_true_iff in Ht as [H1 H2]; [|apply list_elem_of_In, elem_of_seqZ; lia].
  apply Z.leb_le in H1. apply bool_decide_eq_true in H2. exists v, w, (if i + 2 =? cc_count then zlen unicode_cc_table else index_pos (i + 1) w).
  split_and!; try done. intros Hlt. by rewrite (proj2 (Z.eqb_neq _ _)) by lia.
Qed.

(** Scanning from an index entry is scanning from the start. *)
Lemma cc_scan_index i v c : 0 <= i < cc_count - 1 → get_le24 unicode_cc_index (i * 3) = Some v → index_code v <= c →
  ∀ g, ∃ f, cc_loop f c 0 0 = cc_loop g c (index_code v) (index_pos i v).
Proof.
  intros Hi. destruct (Z_of_nat_complete i) as [n ->]; [lia|]. revert v.
  induction n as [|n IH]; intros v Hv Hc g.
  - pose proof cc_tables as Ht. unfold cc_tables_ok in Ht. apply andb_true_iff in Ht as [_ Ht].
    change (Z.of_nat 0 * 3) with 0 in Hv. rewrite Hv in Ht. destruct (get_le24 _ _) as [w|]; [|done].
    apply andb_true_iff in Ht as [Ht _]. apply bool_decide_eq_true in Ht.
    by eapply cc_walk_skip; [exact Ht| |].
  - destruct (cc_block (Z.of_nat n)) as (v0 & w & p & H1 & H2 & H3 & H4 & H5); [lia|].
    replace (Z.of_nat n + 1) with (Z.of_nat (S n)) in * by lia. rewrite Hv in H2. injection H2 as <-.
    rewrite <- H5 by lia.
    destruct (cc_walk_skip _ g c _ _ _ _ _ H4 Hc H3) as [f1 Hf1].
    assert (index_code v0 <= c) as Hc0 by (apply cc_walk_mono in H4; lia).
    destruct (IH ltac:(lia) v0 H1 Hc0 f1) as [f2 Hf2]. exists f2. by rewrite Hf2.
Qed.

Lemma cc_loop_det f f' c code p r r' : cc_loop f c code p = Some r → cc_loop f' c code p = Some r' → r = r'.
Proof.
  revert f' code p. induction f as [|f IH]; intros [|f'] code p; cbn [cc_loop]; try done.
  destruct (cc_entry p) as [[[[type n] v] p1]|]; [|done]. cbn [mbind option_bind].
  destruct (c <? _); [congruence|]. apply IH.
Qed.

(** The first code point behind the table. *)
Definition cc_end : Z := default 0 (get_le24 unicode_cc_index ((cc_count - 1) * 3)).

Lemma unicode_get_cc_ok c : 0 <= c →
  ∃ cc, unicode_get_cc c = Some cc ∧ 0 <= cc <= 255 ∧
    (if c <? cc_end then ∃ fuel, cc_loop fuel c 0 0 = Some cc else cc = 0).
Proof.
  intros Hc. unfold unicode_get_cc, get_index_pos. fold cc_count.
  pose proof cc_tables as Ht. unfold cc_tables_ok in Ht. apply andb_true_iff in Ht as [_ Ht].
  destruct (get_le24 _ 0) as [v0|] eqn:E0; [|done].
  destruct (get_le24 _ ((cc_count - 1) * 3)) as [w|] eqn:E1; [|done].
  apply andb_true_iff in Ht as [H1 H2]. apply bool_decide_eq_true in H1. apply Z.eqb_eq in H2.
  assert (cc_end = w) as -> by (unfold cc_end; by rewrite E1). cbn [mbind option_bind]. fold (index_code v0). pose proof cc_count_eq as Hn.
  assert (Hmono : index_code v0 <= w).
  { clear -E0 E1. vm_compute in E0, E1. injection E0 as <-. injection E1 as <-. by vm_compute. }
  destruct (Z.ltb_spec c (index_code v0)) as [Hlt|Hge].
  { cbn [mbind option_bind]. destruct (cc_walk_ok _ c 0 0 _ _ H1) as (cc & Hcc & Hr); [lia|lia|].
    exists cc. rewrite (proj2 (Z.ltb_lt c w)) by lia. split_and!; try done; [lia..|by eexists]. }
  destruct (Z.leb_spec w c) as [Hw|Hw].
  { cbn [mbind option_bind]. exists 0. rewrite (proj2 (Z.ltb_ge c w)) by lia. done. }
  destruct (index_search_ok (Z.to_nat cc_count) unicode_cc_index c 0 (cc_count - 1))
    as (i & v & w' & -> & Hi & Hv & Hw' & Hcv); try lia.
  { intros i Hi. destruct (decide (i = cc_count - 1)) as [->|]; [by rewrite E1|].
    destruct (cc_block i) as (? & _ & _ & -> & _); [lia|done]. }
  { intros v. change (0 * 3) with 0. rewrite E0. by intros [= <-]. }
  { intros v. rewrite E1. intros [= <-]. lia. }
  cbn [mbind option_bind]. rewrite Hv. cbn [mbind option_bind]. fold (index_code v) (index_pos i v).
  destruct (cc_block i) as (v1 & w1 & p & K1 & K2 & K3 & K4 & _); [lia|].
  rewrite Hv in K1. injection K1 as <-. rewrite Hw' in K2. injection K2 as <-.
  destruct (cc_walk_ok _ c _ _ _ _ K4) as (cc & Hcc & Hr); [lia|lia|].
  exists cc. rewrite (proj2 (Z.ltb_lt c w)) by lia. split_and!; try done; [lia..|].
  destruct (cc_scan_index i v c) with (g := length unicode_cc_table) as [f Hf]; try done; try lia.
  exists f. by rewrite Hf.
Qed.

(** The entry a walk from the start of the table reaches gives the class. *)
Lemma cc_of_entry fuel limit code p type n v p' c :
  cc_walk fuel 0 0 limit = Some (code, p) → cc_entry p = Some (type, n, v, p') →
  0 <= code <= c → c < code + n + 1 < 2 ^ 32 → c < cc_end → unicode_get_cc c = Some (cc_value type v c code).
Proof.
  intros Hw He Hc Hn Hend. destruct (unicode_get_cc_ok c) as (k & -> & _ & Hk); [lia|].
  rewrite (proj2 (Z.ltb_lt _ _)) in Hk by done. destruct Hk as [f Hf].
  destruct (cc_walk_skip fuel 1 c 0 0 limit code p Hw) as [f' Hf']; [lia|lia|].
  cbn [cc_loop] in Hf'. rewrite He in Hf'. cbn [mbind option_bind] in Hf'.
  rewrite u32_id, (proj2 (Z.ltb_lt _ _)) in Hf' by (unfold is_u32; lia).
  f_equal. by eapply cc_loop_det.
Qed.

Definition cc (c : Z) : Z := default 0 (unicode_get_cc c).

Lemma get_cc_eq c : 0 <= c → unicode_get_cc c = Some (cc c) ∧ 0 <= cc c.
Proof. intros Hc. destruct (unicode_get_cc_ok c Hc) as (k & Hk & Hr & _). unfold cc. rewrite Hk. split; [done|]. change (0 <= k). lia. Qed.

(** The index only speeds up the search. For every code point
    [unicode_get_cc] ends with all reads inside the tables and a class of at
    most 255, which is the one a scan of the whole table from its start finds;
    behind the last entry it is 0. *)
Theorem unicode_get_cc_scan c : is_u32 c →
  ∃ k, unicode_get_cc c = Some k ∧ 0 <= k <= 255 ∧
    (if c <? cc_end then ∃ fuel, cc_loop fuel c 0 0 = Some k else k = 0).
Proof. intros [Hc _]. by apply unicode_get_cc_ok. Qed.

Lemma unicode_get_cc_scan_witness :
  ∃ k, unicode_get_cc 0x301 = Some k ∧ 0 <= k <= 255 ∧
    (if 0x301 <? cc_end then ∃ fuel, cc_loop fuel 0x301 0 0 = Some k else k = 0).
Proof. apply unicode_get_cc_scan. unfold is_u32. lia. Defined.

End UnicodeCC.
