(* ===== verification/UnicodeCase.v ===== *)
(** * Case conversion and properties ([quickjs/libunicode.c])

    Upper case, lower case and case folding of a code point, the
    canonicalization of regular expressions, and the properties that are looked
    up in compressed tables. Code points are [uint32_t] values; a read outside a
    table is [None]. *)
From stdpp Require Import list sorting pmap fin_maps.
From S2P Require Import Prelude UnicodeCaseTables UnicodeCC.

Module UnicodeCase.
Import UnicodeCaseTables UnicodeCC.
Local Open Scope cint_scope.

Definition RUN_TYPE_U : Z := 0.
Definition RUN_TYPE_L : Z := 1.
Definition RUN_TYPE_UF : Z := 2.
Definition RUN_TYPE_LF : Z := 3.
Definition RUN_TYPE_UL : Z := 4.
Definition RUN_TYPE_LSU : Z := 5.
Definition RUN_TYPE_U2L_399_EXT2 : Z := 6.
Definition RUN_TYPE_UF_D20 : Z := 7.
Definition RUN_TYPE_UF_D1_EXT : Z := 8.
Definition RUN_TYPE_U_EXT : Z := 9.
Definition RUN_TYPE_LF_EXT : Z := 10.
Definition RUN_TYPE_UF_EXT2 : Z := 11.
Definition RUN_TYPE_LF_EXT2 : Z := 12.
Definition RUN_TYPE_UF_EXT3 : Z := 13.

(** ** Case conversion *)

Definition case_code (v : Z) : Z := v >> (32 - 17).
Definition case_len (v : Z) : Z := (v >> (32 - 17 - 7)) .& 0x7f.

(** [lower] is [lre_case_conv1] to lower case. *)
Definition lre_case_conv_entry (lower : Z → option Z) (c conv_type idx v : Z) : option (list Z) :=
  let is_lower := Z.b2z (negb (conv_type =? 0)) in
  let type := (v >> (32 - 17 - 7 - 4)) .& 0xf in
  t2 ← aget case_conv_table2 idx;
  let data := ((v .& 0xf) << 8) .| t2 in
  let code := case_code v in
  if type <=? RUN_TYPE_LF then
    if (conv_type =? (type .& 1)) || ((RUN_TYPE_UF <=? type) && (conv_type =? 2)) then
      w ← aget case_conv_table1 data;
      Some [u32 (c - code + case_code w)]
    else Some [c]
  else if type =? RUN_TYPE_UL then
    let a := u32 (c - code) in
    if negb ((a .& 1) =? 1 - is_lower) then Some [c] else Some [u32 ((a .^ 1) + code)]
  else if type =? RUN_TYPE_LSU then
    let a := u32 (c - code) in
    if a =? 1 then Some [u32 (c + (2 * is_lower - 1))]
    else if a =? (1 - is_lower) * 2 then Some [u32 (c + (2 * is_lower - 1) * 2)]
    else Some [c]
  else if type =? RUN_TYPE_U2L_399_EXT2 then
    if is_lower =? 0 then
      x ← aget case_conv_ext (data >> 6);
      Some [u32 (c - code + x); 0x399]
    else
      x ← aget case_conv_ext (data .& 0x3f);
      Some [u32 (c - code + x)]
  else if type =? RUN_TYPE_UF_D20 then
    if conv_type =? 1 then Some [c] else Some [data + Z.b2z (conv_type =? 2) * 0x20]
  else if type =? RUN_TYPE_UF_D1_EXT then
    if conv_type =? 1 then Some [c]
    else x ← aget case_conv_ext data; Some [x + Z.b2z (conv_type =? 2)]
  else if (type =? RUN_TYPE_U_EXT) || (type =? RUN_TYPE_LF_EXT) then
    if negb (is_lower =? type - RUN_TYPE_U_EXT) then Some [c]
    else x ← aget case_conv_ext data; Some [x]
  else if type =? RUN_TYPE_LF_EXT2 then
    if is_lower =? 0 then Some [c]
    else
      x ← aget case_conv_ext (data >> 6);
      y ← aget case_conv_ext (data .& 0x3f);
      Some [u32 (c - code + x); y]
  else if type =? RUN_TYPE_UF_EXT2 then
    if conv_type =? 1 then Some [c]
    else
      x ← aget case_conv_ext (data >> 6);
      y ← aget case_conv_ext (data .& 0x3f);
      let x := u32 (c - code + x) in
      if conv_type =? 2 then x ← lower x; y ← lower y; Some [x; y] else Some [x; y]
  else
    if conv_type =? 1 then Some [c]
    else
      x ← aget case_conv_ext (data >> 8);
      y ← aget case_conv_ext ((data >> 4) .& 0xf);
      z ← aget case_conv_ext (data .& 0xf);
      if conv_type =? 2 then x ← lower x; y ← lower y; z ← lower z; Some [x; y; z] else Some [x; y; z].

(** The binary search: the entry of [c] and its index, or the inner [None]. *)
Fixpoint case_search (fuel : nat) (c idx_min idx_max : Z) : option (option (Z * Z)) :=
  match fuel with
  | O => None
  | S fuel =>
      if idx_min <=? idx_max then
        let idx := (idx_max + idx_min) / 2 in
        v ← aget case_conv_table1 idx;
        if c <? case_code v then case_search fuel c idx_min (idx - 1)
        else if case_code v + case_len v <=? c then case_search fuel c (idx + 1) idx_max
        else Some (Some (idx, v))
      else Some None
  end.

Definition case_find (c : Z) : option (option (Z * Z)) :=
  case_search (S (length case_conv_table1)) c 0 (zlen case_conv_table1 - 1).

Definition ascii_conv (lower : bool) (c : Z) : Z :=
  if lower then if (0x41 <=? c) && (c <=? 0x5a) then c - 0x41 + 0x61 else c
  else if (0x61 <=? c) && (c <=? 0x7a) then c - 0x61 + 0x41 else c.

Definition case_conv (lower : Z → option Z) (c conv_type : Z) : option (list Z) :=
  if c <? 128 then Some [ascii_conv (negb (conv_type =? 0)) c]
  else
    e ← case_find c;
    match e with
    | None => Some [c]
    | Some (idx, v) => lre_case_conv_entry lower c conv_type idx v
    end.

(** Conversion to lower case does not call itself. *)
Definition lre_case_conv1_lower (c : Z) : option Z :=
  res ← case_conv (λ _, None) c 1;
  head res.

Definition lre_case_conv (c conv_type : Z) : option (list Z) := case_conv lre_case_conv1_lower c conv_type.

Definition lre_case_folding_entry (c idx v : Z) (is_unicode : bool) : option Z :=
  if is_unicode then
    res ← lre_case_conv_entry lre_case_conv1_lower c 2 idx v;
    match res with
    | [x] => Some x
    | _ => Some (if c =? 0xfb06 then 0xfb05 else if c =? 0x1fd3 then 0x390 else if c =? 0x1fe3 then 0x3b0 else c)
    end
  else if c <? 128 then Some (ascii_conv false c)
  else
    res ← lre_case_conv_entry lre_case_conv1_lower c 0 idx v;
    match res with
    | [x] => Some (if 128 <=? x then x else c)
    | _ => Some c
    end.

Definition lre_canonicalize (c : Z) (is_unicode : bool) : option Z :=
  if c <? 128 then Some (ascii_conv is_unicode c)
  else
    e ← case_find c;
    match e with
    | None => Some c
    | Some (idx, v) => lre_case_folding_entry c idx v is_unicode
    end.

(** ** Properties *)

(** One byte sequence of a table: the lengths of its intervals and the
    position behind it. *)
Definition prop_entry (table : list Z) (p : Z) : option (option Z * Z * Z) :=
  b ← aget table p;
  if b <? 64 then Some (Some ((b >> 3) + 1), (b .& 7) + 1, p + 1)
  else if 0x80 <=? b then Some (None, b - 0x80 + 1, p + 1)
  else if b <? 0x60 then
    b1 ← aget table (p + 1);
    Some (None, (((b - 0x40) << 8) .| b1) + 1, p + 2)
  else
    b1 ← aget table (p + 1); b2 ← aget table (p + 2);
    Some (None, (((b - 0x60) << 16) .| (b1 << 8) .| b2) + 1, p + 3).

Fixpoint prop_loop (fuel : nat) (table : list Z) (c code p : Z) (bit : bool) : option bool :=
  match fuel with
  | O => None
  | S fuel =>
      '(first, n, p) ← prop_entry table p;
      let second code bit :=
        let code := u32 (code + n) in
        if c <? code then Some bit else prop_loop fuel table c code p (negb bit) in
      match first with
      | None => second code bit
      | Some m =>
          let code := u32 (code + m) in
          if c <? code then Some bit else second code (negb bit)
      end
  end.

Definition lre_is_in_table (c : Z) (table index_table : list Z) : option bool :=
  r ← get_index_pos c index_table (zlen index_table / 3);
  match r with
  | None => Some false
  | Some (code, pos) => prop_loop (length table) table c code pos false
  end.

Definition lre_is_cased (c : Z) : option bool :=
  e ← case_find c;
  match e with
  | Some _ => Some true
  | None => lre_is_in_table c unicode_prop_Cased1_table unicode_prop_Cased1_index
  end.

Definition lre_is_case_ignorable (c : Z) : option bool :=
  lre_is_in_table c unicode_prop_Case_Ignorable_table unicode_prop_Case_Ignorable_index.

Definition lre_is_id_start (c : Z) : option bool :=
  lre_is_in_table c unicode_prop_ID_Start_table unicode_prop_ID_Start_index.

Definition lre_is_id_continue (c : Z) : option bool :=
  b ← lre_is_id_start c;
  if b : bool then Some true
  else lre_is_in_table c unicode_prop_ID_Continue1_table unicode_prop_ID_Continue1_index.

(** ** The search finds the entry of a code point *)

(** [v] ends before [w] begins. *)
Definition entry_before (v w : Z) : Prop := case_code v + case_len v <= case_code w.

Lemma case_len_nonneg v : 0 <= case_len v.
Proof. unfold case_len. apply Z.land_nonneg. right. lia. Qed.

#[local] Instance entry_before_trans : Transitive entry_before.
Proof. intros u v w. unfold entry_before. pose proof (case_len_nonneg v). lia. Qed.

#[local] Instance entry_before_dec v w : Decision (entry_before v w) := decide_rel (≤) _ _.

Lemma case_table_sorted : StronglySorted entry_before case_conv_table1.
Proof.
  apply Sorted_StronglySorted; [apply _|]. apply (bool_decide_eq_true_1 (Sorted entry_before case_conv_table1)).
  by vm_compute.
Qed.

Lemma sorted_lookup (l : list Z) i j v w : StronglySorted entry_before l → (i < j)%nat →
  l !! i = Some v → l !! j = Some w → entry_before v w.
Proof.
  intros Hs. revert i j. induction Hs as [|x l Hs IH Hx]; intros i j Hij Hi Hj; [done|].
  destruct j as [|j]; [lia|]. destruct i as [|i]; cbn in Hi, Hj.
  - injection Hi as <-. rewrite Forall_forall in Hx. apply Hx. by eapply list_elem_of_lookup_2.
  - apply (IH i j); [lia|done|done].
Qed.

Definition has_entry (c v : Z) : Prop := case_code v <= c < case_code v + case_len v.

Lemma case_before i j v w : i < j → aget case_conv_table1 i = Some v → aget case_conv_table1 j = Some w → entry_before v w.
Proof.
  unfold aget. intros Hij. destruct (Z.leb_spec 0 i), (Z.leb_spec 0 j); try done.
  apply (sorted_lookup _ _ _ _ _ case_table_sorted). lia.
Qed.

Lemma case_search_ok fuel c lo hi : 0 <= lo → hi < zlen case_conv_table1 → hi - lo + 2 <= Z.of_nat fuel → 1 <= Z.of_nat fuel →
  (∀ i v, aget case_conv_table1 i = Some v → i < lo → case_code v + case_len v <= c) →
  (∀ i v, aget case_conv_table1 i = Some v → hi < i → c < case_code v) →
  ∃ r, case_search fuel c lo hi = Some r ∧
    match r with
    | Some (idx, v) => aget case_conv_table1 idx = Some v ∧ has_entry c v
    | None => ∀ i v, aget case_conv_table1 i = Some v → ¬ has_entry c v
    end.
Proof.
  revert lo hi. induction fuel as [|fuel IH]; intros lo hi Hlo Hhi Hf Hf1 Hbelow Habove; [lia|]. cbn [case_search].
  destruct (Z.leb_spec lo hi) as [Hle|Hgt].
  - pose proof (Z.div_mod (hi + lo) 2 ltac:(lia)). pose proof (Z.mod_pos_bound (hi + lo) 2 ltac:(lia)).
    set (m := (hi + lo) / 2) in *. assert (lo <= m <= hi) as Hm by lia. clearbody m.
    destruct (aget_Some case_conv_table1 m) as (v & Ev & _); [lia|]. rewrite Ev. cbn [mbind option_bind].
    destruct (Z.ltb_spec c (case_code v)); [|destruct (Z.leb_spec (case_code v + case_len v) c)].
    + apply IH; [lia|lia|lia|lia|done|]. intros i w Hw Hi. destruct (Z.eq_dec i m) as [->|]; [rewrite Ev in Hw; by injection Hw as <-|].
      pose proof (case_before m i v w ltac:(lia) Ev Hw) as Hb. unfold entry_before in Hb. pose proof (case_len_nonneg v). lia.
    + apply IH; [lia|lia|lia|lia| |done]. intros i w Hw Hi. destruct (Z.eq_dec i m) as [->|]; [rewrite Ev in Hw; by injection Hw as <-|].
      pose proof (case_before i m w v ltac:(lia) Hw Ev) as Hb. unfold entry_before in Hb. pose proof (case_len_nonneg v). lia.
    + eexists. split; [reflexivity|]. split; [done|]. unfold has_entry. lia.
  - exists None. split; [done|]. intros i v Hv. unfold has_entry. destruct (Z.lt_ge_cases i lo) as [Hi|Hi].
    + specialize (Hbelow i v Hv Hi). lia.
    + specialize (Habove i v Hv ltac:(lia)). lia.
Qed.

(** The table as a map from code points. *)
Definition case_chars : list (positive * (Z * Z)) :=
  concat (imap (λ i v, (λ c, (Z.to_pos c, (Z.of_nat i, v))) <$> seqZ (case_code v) (case_len v)) case_conv_table1).

Definition case_map : Pmap (Z * Z) := list_to_map case_chars.

Definition case_map_complete : bool := forallb (λ '(p, e), bool_decide (case_map !! p = Some e)) case_chars.

Lemma case_map_complete_ok : case_map_complete = true.
Proof. by vm_compute. Qed.

Lemma case_map_elem p e : case_map !! p = Some e → (p, e) ∈ case_chars.
Proof. apply elem_of_list_to_map_2. Qed.

#[local] Opaque case_map case_chars.

Lemma case_chars_elem c idx v : 0 < c → (Z.to_pos c, (idx, v)) ∈ case_chars ↔ aget case_conv_table1 idx = Some v ∧ has_entry c v.
Proof.
  intros Hc. with_strategy transparent [case_chars] unfold case_chars. rewrite list_elem_of_In, in_concat. split.
  - intros (l & Hl & Hin). apply list_elem_of_In, elem_of_lookup_imap in Hl as (i & w & -> & Hw).
    apply list_elem_of_In, list_elem_of_fmap in Hin as (c' & Heq & Hc'). apply elem_of_seqZ in Hc'.
    injection Heq as Hp -> ->. assert (0 <= case_code w) as Hpos.
    { assert (Forall (λ v, 0 <= v) case_conv_table1) as Hn by (apply (bool_decide_eq_true_1 _); by vm_compute).
      rewrite Forall_lookup in Hn. unfold case_code. apply Z.shiftr_nonneg. by eapply Hn. }
    split; [unfold aget; rewrite (proj2 (Z.leb_le _ _)) by lia; by rewrite Nat2Z.id|]. unfold has_entry.
    destruct (Z.eq_dec c' 0) as [->|]; [|apply Z2Pos.inj in Hp; lia]. exfalso.
    assert (Forall (λ v, 0 < case_code v) case_conv_table1) as Hn by (apply (bool_decide_eq_true_1 _); by vm_compute).
    rewrite Forall_lookup in Hn. specialize (Hn i w Hw). cbn in Hn. lia.
  - intros [Hv He]. unfold aget in Hv. destruct (Z.leb_spec 0 idx); [|done]. eexists. split.
    + apply list_elem_of_In, elem_of_lookup_imap. exists (Z.to_nat idx), v. split; [reflexivity|done].
    + apply list_elem_of_In, list_elem_of_fmap. exists c. split; [by rewrite Z2Nat.id by lia|].
      apply elem_of_seqZ. unfold has_entry in He. lia.
Qed.

(** The binary search is the lookup in the map. *)
Lemma case_find_map c : 0 < c → case_find c = Some (case_map !! Z.to_pos c).
Proof.
  intros Hc. unfold case_find. destruct (case_search_ok (S (length case_conv_table1)) c 0 (zlen case_conv_table1 - 1)) as (r & -> & Hr);
    [lia|lia|lia|lia| | |].
  - intros i v Hv Hi. unfold aget in Hv. by rewrite (proj2 (Z.leb_gt _ _)) in Hv by lia.
  - intros i v Hv Hi. unfold aget in Hv. destruct (0 <=? i); [|done]. apply lookup_lt_Some in Hv. lia.
  - apply f_equal. symmetry. destruct r as [[idx v]|].
    + apply case_chars_elem in Hr; [|done]. pose proof case_map_complete_ok as Hm. unfold case_map_complete in Hm.
      rewrite forallb_forall in Hm. apply list_elem_of_In in Hr. specialize (Hm _ Hr). by apply bool_decide_eq_true in Hm.
    + destruct (case_map !! Z.to_pos c) as [[idx v]|] eqn:E; [|done]. apply case_map_elem, case_chars_elem in E as [E1 E2]; [|done].
      by destruct (Hr idx v).
Qed.

(** The conversions by lookup in the map. *)
Definition conv_map (lower : Z → option Z) (c conv_type : Z) : option (list Z) :=
  if c <? 128 then Some [ascii_conv (negb (conv_type =? 0)) c]
  else
    match case_map !! Z.to_pos c with
    | None => Some [c]
    | Some (idx, v) => lre_case_conv_entry lower c conv_type idx v
    end.

Definition lower_map (c : Z) : option Z := res ← conv_map (λ _, None) c 1; head res.

Definition canonicalize_map (c : Z) (is_unicode : bool) : option Z :=
  if c <? 128 then Some (ascii_conv is_unicode c)
  else
    match case_map !! Z.to_pos c with
    | None => Some c
    | Some (idx, v) =>
        if is_unicode then
          res ← lre_case_conv_entry lower_map c 2 idx v;
          match res with
          | [x] => Some x
          | _ => Some (if c =? 0xfb06 then 0xfb05 else if c =? 0x1fd3 then 0x390 else if c =? 0x1fe3 then 0x3b0 else c)
          end
        else
          res ← lre_case_conv_entry lower_map c 0 idx v;
          match res with
          | [x] => Some (if 128 <=? x then x else c)
          | _ => Some c
          end
    end.

Lemma case_conv_map lower c conv_type : case_conv lower c conv_type = conv_map lower c conv_type.
Proof. unfold case_conv, conv_map. destruct (Z.ltb_spec c 128); [done|]. by rewrite case_find_map by lia. Qed.

Lemma lower_map_eq c : lre_case_conv1_lower c = lower_map c.
Proof. unfold lre_case_conv1_lower, lower_map. by rewrite case_conv_map. Qed.

Lemma entry_ext l1 l2 c conv_type idx v : (∀ c, l1 c = l2 c) →
  lre_case_conv_entry l1 c conv_type idx v = lre_case_conv_entry l2 c conv_type idx v.
Proof.
  intros Hl. unfold lre_case_conv_entry. destruct (aget case_conv_table2 idx) as [t2|]; [|reflexivity]. cbn [mbind option_bind].
  destruct (conv_type =? 2); [|reflexivity].
  do 8 (match goal with |- (if ?b then _ else _) = _ => destruct b; [reflexivity|] end).
  destruct (_ =? RUN_TYPE_UF_EXT2); (destruct (conv_type =? 1); [reflexivity|]);
    repeat (apply option_bind_ext_fun; intros ?); by rewrite !Hl.
Qed.

Lemma lre_case_conv_map c conv_type : lre_case_conv c conv_type = conv_map lower_map c conv_type.
Proof.
  unfold lre_case_conv. rewrite case_conv_map. unfold conv_map. destruct (c <? 128); [reflexivity|].
  destruct (case_map !! Z.to_pos c) as [[idx v]|]; [|reflexivity]. apply (entry_ext _ _ c conv_type idx v lower_map_eq).
Qed.

Lemma lre_canonicalize_map c is_unicode : lre_canonicalize c is_unicode = canonicalize_map c is_unicode.
Proof.
  unfold lre_canonicalize, canonicalize_map. destruct (Z.ltb_spec c 128); [done|]. rewrite case_find_map by lia.
  cbn [mbind option_bind]. destruct (case_map !! Z.to_pos c) as [[idx v]|]; [|done]. unfold lre_case_folding_entry.
  rewrite (proj2 (Z.ltb_ge c 128)) by lia.
  rewrite (entry_ext _ _ c 2 idx v lower_map_eq), (entry_ext _ _ c 0 idx v lower_map_eq). reflexivity.
Qed.

(** ** Conversions are total and stable *)

(** What is checked of the conversion of a code point. *)
Definition conv_ok (c conv_type : Z) : bool :=
  match conv_map lower_map c conv_type with
  | None => false
  | Some r =>
      (1 <=? zlen r) && (zlen r <=? 3) &&
      forallb (λ x, (0 <=? x) && (x <=? 0x10ffff) &&
                    ((conv_type =? 2) || bool_decide (conv_map lower_map x conv_type = Some [x]))) r
  end.

Definition canonicalize_ok (c : Z) (is_unicode : bool) : bool :=
  match canonicalize_map c is_unicode with
  | None => false
  | Some x => (0 <=? x) && (x <=? 0x10ffff) && bool_decide (canonicalize_map x is_unicode = Some x)
  end.

(** The code points below 128 and those of the table. *)
Definition cased_points : list Z := seqZ 0 128 ++ ((λ e, Z.pos (fst e)) <$> case_chars).

Lemma conversions_ok : forallb (λ c, conv_ok c 0 && conv_ok c 1 && conv_ok c 2) cased_points = true.
Proof. by vm_compute. Qed.

Lemma canonicalizations_ok : forallb (λ c, canonicalize_ok c true && canonicalize_ok c false) cased_points = true.
Proof. by vm_compute. Qed.

(** Other code points are not changed. *)
Lemma uncased c : 0 <= c → c ∈ cased_points ∨ 128 <= c ∧ case_map !! Z.to_pos c = None.
Proof.
  intros Hc. destruct (Z.lt_ge_cases c 128) as [Hl|Hl]; [left; apply elem_of_app; left; apply elem_of_seqZ; lia|].
  destruct (case_map !! Z.to_pos c) as [e|] eqn:E; [left|right; split; [exact Hl|reflexivity]]. apply case_map_elem in E.
  apply elem_of_app. right. apply list_elem_of_fmap. exists (Z.to_pos c, e). cbn [fst]. split; [lia|done].
Qed.

(** Every code point converts without a read outside the tables, to one to
    three code points, and what is in upper case or in lower case stays as it
    is. *)
Lemma lre_case_conv_stable c conv_type : 0 <= c → conv_type = 0 ∨ conv_type = 1 ∨ conv_type = 2 →
  ∃ r, lre_case_conv c conv_type = Some r ∧ 1 <= zlen r <= 3 ∧
    (c <= 0x10ffff → Forall (λ x, 0 <= x <= 0x10ffff) r) ∧
    (conv_type ≠ 2 → Forall (λ x, lre_case_conv x conv_type = Some [x]) r).
Proof.
  intros Hc Ht. rewrite lre_case_conv_map. destruct (uncased c Hc) as [Hin|[Hge Hnone]].
  - assert (conv_ok c conv_type = true) as Hok.
    { pose proof conversions_ok as H. rewrite forallb_forall in H. apply list_elem_of_In in Hin. specialize (H _ Hin).
      rewrite !andb_true_iff in H. destruct H as [[K0 K1] K2]. destruct Ht as [->|[->| ->]]; [exact K0|exact K1|exact K2]. }
    unfold conv_ok in Hok. destruct (conv_map lower_map c conv_type) as [r|] eqn:E; [|done]. exists r. split; [reflexivity|].
    rewrite !andb_true_iff, !Z.leb_le, forallb_forall in Hok. destruct Hok as [[H1 H3] Hall]. split; [lia|].
    split; [intros _|intros Hn2]; apply Forall_forall; intros x Hx%list_elem_of_In; specialize (Hall x Hx);
      rewrite !andb_true_iff, !Z.leb_le in Hall; destruct Hall as [Hr Hst]; [exact Hr|].
    rewrite (proj2 (Z.eqb_neq conv_type 2) Hn2) in Hst. apply bool_decide_eq_true in Hst. by rewrite lre_case_conv_map.
  - assert (conv_map lower_map c conv_type = Some [c]) as E.
    { unfold conv_map. rewrite (proj2 (Z.ltb_ge c 128)), Hnone by lia. reflexivity. }
    exists [c]. split; [done|]. split; [cbn; lia|]. split; [intros ?; by repeat constructor; lia|].
    intros _. constructor; [|constructor]. by rewrite lre_case_conv_map.
Qed.

(** The canonical form of a character, by which regular expressions compare
    regardless of case, is its own canonical form. *)
Lemma lre_canonicalize_idempotent c is_unicode : 0 <= c →
  ∃ x, lre_canonicalize c is_unicode = Some x ∧ lre_canonicalize x is_unicode = Some x ∧ (c <= 0x10ffff → 0 <= x <= 0x10ffff).
Proof.
  intros Hc. rewrite lre_canonicalize_map. destruct (uncased c Hc) as [Hin|[Hge Hnone]].
  - assert (canonicalize_ok c is_unicode = true) as Hok.
    { pose proof canonicalizations_ok as H. rewrite forallb_forall in H. apply list_elem_of_In in Hin. specialize (H _ Hin).
      rewrite andb_true_iff in H. destruct H as [K1 K2]. destruct is_unicode; [exact K1|exact K2]. }
    unfold canonicalize_ok in Hok. destruct (canonicalize_map c is_unicode) as [x|] eqn:E; [|done]. exists x. split; [reflexivity|].
    rewrite !andb_true_iff, !Z.leb_le in Hok. destruct Hok as [Hr Hst]. apply bool_decide_eq_true in Hst.
    rewrite lre_canonicalize_map. split; [exact Hst|]. intros _. exact Hr.
  - assert (canonicalize_map c is_unicode = Some c) as E.
    { unfold canonicalize_map. rewrite (proj2 (Z.ltb_ge c 128)), Hnone by lia. reflexivity. }
    exists c. rewrite lre_canonicalize_map. split; [done|]. split; [done|lia].
Qed.

(** Case folding is not stable: a capital sharp s folds to a small one, and
    that to two letters. *)
Lemma folding_not_stable : lre_case_conv 0x1e9e 2 = Some [0xdf] ∧ lre_case_conv 0xdf 2 = Some [0x73; 0x73].
Proof. by vm_compute. Qed.

(** ** The index is an optimisation *)

(** The boundaries of the intervals from [code], at [p], to [limit]. *)
Fixpoint table_walk (fuel : nat) (table : list Z) (code p limit : Z) : option (list Z * Z) :=
  if code =? limit then Some ([], p)
  else
    match fuel with
    | O => None
    | S fuel =>
        '(first, n, p) ← prop_entry table p;
        let m := default 0 first in
        if (0 <=? m) && (0 <? n) && (code + m + n <=? limit) then
          '(bs, p) ← table_walk fuel table (code + m + n) p limit;
          Some (match first with Some _ => [code + m] | None => [] end ++ (code + m + n) :: bs, p)
        else None
    end.

(** The number of boundaries up to [c]; [c] is a member if it is odd. *)
Definition passed (c : Z) (bs : list Z) : nat := length (filter (λ b, b <= c) bs).

Definition member (bs : list Z) (c : Z) : bool := Nat.odd (passed c bs).

Lemma passed_app c bs bs' : passed c (bs ++ bs') = (passed c bs + passed c bs')%nat.
Proof. unfold passed. by rewrite filter_app, length_app. Qed.

Lemma passed_all c bs : Forall (λ b, b <= c) bs → passed c bs = length bs.
Proof. unfold passed. induction 1 as [|b bs Hb Hbs IH]; [done|]. rewrite filter_cons_True by done. cbn. lia. Qed.

Lemma passed_none c bs : Forall (λ b, c < b) bs → passed c bs = O.
Proof. unfold passed. induction 1 as [|b bs Hb Hbs IH]; [done|]. rewrite filter_cons_False by lia. done. Qed.

Lemma odd_step c b bs bit : b <= c → xorb bit (Nat.odd (passed c (b :: bs))) = xorb (negb bit) (Nat.odd (passed c bs)).
Proof.
  intros Hb. unfold passed. rewrite filter_cons_True by done. cbn [length]. rewrite Nat.odd_succ, <- Nat.negb_odd.
  by destruct bit, (Nat.odd _).
Qed.

Lemma walk_bounds fuel table code p limit bs p' : table_walk fuel table code p limit = Some (bs, p') →
  code <= limit ∧ Forall (λ b, code <= b <= limit) bs.
Proof.
  revert code p bs. induction fuel as [|fuel IH]; intros code p bs; cbn [table_walk];
    (destruct (Z.eqb_spec code limit) as [->|Hne]; [intros [= <- <-]; split; [lia|constructor]|]); [done|].
  destruct (prop_entry table p) as [[[first n] q]|]; [|done]. cbn [mbind option_bind]. destruct (_ && _) eqn:Hb; [|done].
  rewrite !andb_true_iff, !Z.leb_le, Z.ltb_lt in Hb. destruct (table_walk _ _ _ _ _) as [[bs1 q1]|] eqn:E; [|done].
  intros [= <- ->]. apply IH in E as [_ E]. split; [lia|]. apply Forall_app. split.
  - destruct first; cbn [from_option id] in *; repeat constructor; lia.
  - constructor; [lia|]. eapply Forall_impl; [exact E|]. cbn. lia.
Qed.

(** The loop decides membership. *)
Lemma prop_loop_ok fuel table c code p limit bs p' bit : table_walk fuel table code p limit = Some (bs, p') →
  0 <= code <= c → c < limit → limit < 2 ^ 32 →
  prop_loop fuel table c code p bit = Some (xorb bit (member bs c)).
Proof.
  unfold member. revert code p bs bit. induction fuel as [|fuel IH]; intros code p bs bit Hw Hc Hl H32; cbn [table_walk] in Hw;
    rewrite (proj2 (Z.eqb_neq code limit)) in Hw by lia; [done|]. cbn [prop_loop].
  destruct (prop_entry table p) as [[[first n] q]|]; [|done]. cbn [mbind option_bind] in *. destruct (_ && _) eqn:Hb; [|done].
  rewrite !andb_true_iff, !Z.leb_le, Z.ltb_lt in Hb. destruct (table_walk _ _ _ _ _) as [[bs1 q1]|] eqn:E; [|done].
  injection Hw as <- <-. pose proof (walk_bounds _ _ _ _ _ _ _ E) as [_ Hbs].
  set (e := code + default 0 first + n) in *.
  assert (∀ bit, (if c <? e then Some bit else prop_loop fuel table c e q (negb bit)) = Some (xorb bit (Nat.odd (passed c (e :: bs1))))) as Hsecond.
  { intros bit'. destruct (Z.ltb_spec c e) as [Hlt|Hge].
    - rewrite passed_none; [by rewrite xorb_false_r|]. constructor; [lia|]. eapply Forall_impl; [exact Hbs|]. cbn. lia.
    - rewrite odd_step by lia. apply (IH e q bs1); [exact E|lia|lia|lia]. }
  destruct first as [m|]; cbn [from_option id app] in *.
  - rewrite (u32_id (code + m)) by (unfold is_u32; lia). destruct (Z.ltb_spec c (code + m)).
    + rewrite passed_none; [by rewrite xorb_false_r|]. constructor; [lia|]. constructor; [unfold e; cbn; lia|].
      eapply Forall_impl; [exact Hbs|]. unfold e. cbn. lia.
    + rewrite odd_step by lia. replace (u32 (code + m + n)) with e by (rewrite u32_id; [done|unfold is_u32; lia]). apply Hsecond.
  - replace (u32 (code + n)) with e by (rewrite u32_id; [lia|unfold is_u32; lia]). apply Hsecond.
Qed.

(** Blocks: the first code point and its position, and the one behind. *)
Definition block_start (index : list Z) (j : Z) : option (Z * Z) :=
  if j =? 0 then Some (0, 0)
  else v ← get_le24 index ((j - 1) * 3); Some (index_code v, index_pos (j - 1) v).

Definition block (table index : list Z) (j : Z) : option (list Z * Z) :=
  '(code, p) ← block_start index j;
  v ← get_le24 index (j * 3);
  '(bs, _) ← table_walk (length table) table code p (index_code v);
  Some (bs, index_code v).

Definition table_blocks (table index : list Z) : option (list (list Z * Z)) :=
  mapM (block table index) (seqZ 0 (zlen index / 3)).

Definition table_bounds (table index : list Z) : list Z := concat (default [] (table_blocks table index)).*1.

(** Blocks begin outside the set and follow each other. *)
Fixpoint chain (code : Z) (bl : list (list Z * Z)) : bool :=
  match bl with
  | [] => true
  | (bs, limit) :: bl => forallb (λ b, (code <=? b) && (b <=? limit)) bs && Nat.even (length bs) && (code <=? limit) && chain limit bl
  end.

Definition table_end (index : list Z) : Z := default 0 (get_le24 index ((zlen index / 3 - 1) * 3)).

Definition table_ok (table index : list Z) : bool :=
  match table_blocks table index with
  | None => false
  | Some bl =>
      chain 0 bl && (2 <=? zlen index / 3) && (index_code (table_end index) =? table_end index) && (table_end index <? 2 ^ 32) &&
      bool_decide (table_walk (length table) table 0 0 (table_end index) = Some (table_bounds table index, zlen table))
  end.

Lemma chain_mono code bl j bs limit : chain code bl = true → bl !! j = Some (bs, limit) → code <= limit ∧ Forall (λ b, code <= b <= limit) bs.
Proof.
  revert code j. induction bl as [|[bs0 l0] bl IH]; intros code j; [done|]. cbn [chain].
  rewrite !andb_true_iff, Z.leb_le, forallb_forall. intros [[[Hb _] Hl] Hc] Hj. destruct j as [|j]; cbn in Hj.
  - injection Hj as <- <-. split; [done|]. apply Forall_forall. intros x Hx%list_elem_of_In. specialize (Hb x Hx).
    rewrite andb_true_iff, !Z.leb_le in Hb. exact Hb.
  - destruct (IH l0 j Hc Hj) as [H1 H2]. split; [lia|]. eapply Forall_impl; [exact H2|]. cbn. lia.
Qed.

(** The boundaries of other blocks do not matter. *)
Lemma chain_member code bl j bs limit c : chain code bl = true → bl !! j = Some (bs, limit) →
  (∀ i bs' l', (i < j)%nat → bl !! i = Some (bs', l') → l' <= c) → c < limit →
  member (concat bl.*1) c = member bs c.
Proof.
  unfold member. revert code j. induction bl as [|[bs0 l0] bl IH]; intros code j Hch Hj Hbelow Hc; [done|].
  pose proof (chain_mono code ((bs0, l0) :: bl) 0 bs0 l0 Hch eq_refl) as [_ Hb0].
  cbn [chain] in Hch. rewrite !andb_true_iff in Hch. destruct Hch as [[[_ He] _] Hch].
  rewrite fmap_cons. cbn [concat fst]. rewrite passed_app. destruct j as [|j]; cbn in Hj.
  - injection Hj as -> ->. rewrite (passed_none c (concat bl.*1)); [by rewrite Nat.add_0_r|].
    apply Forall_concat, Forall_fmap, Forall_forall. intros [bs' l'] Hin. apply list_elem_of_lookup in Hin as [i Hi].
    destruct (chain_mono _ _ _ _ _ Hch Hi) as [_ H']. eapply Forall_impl; [exact H'|]. cbn. lia.
  - rewrite passed_all.
    + rewrite Nat.odd_add, <- Nat.negb_even, He. cbn [negb xorb]. apply (IH l0 j); [done|done| |done].
      intros i bs' l' Hi Hl. apply (Hbelow (S i) bs' l'); [lia|done].
    + specialize (Hbelow 0%nat bs0 l0 ltac:(lia) eq_refl). eapply Forall_impl; [exact Hb0|]. cbn. lia.
Qed.

Lemma chain_even code bl c : chain code bl = true → (∀ i bs l, bl !! i = Some (bs, l) → l <= c) → member (concat bl.*1) c = false.
Proof.
  unfold member. revert code. induction bl as [|[bs0 l0] bl IH]; intros code Hch Hall; [done|].
  pose proof (chain_mono code ((bs0, l0) :: bl) 0 bs0 l0 Hch eq_refl) as [_ Hb0].
  cbn [chain] in Hch. rewrite !andb_true_iff in Hch. destruct Hch as [[[_ He] _] Hch].
  rewrite fmap_cons. cbn [concat fst]. rewrite passed_app, passed_all.
  - rewrite Nat.odd_add, <- Nat.negb_even, He. cbn [negb xorb]. apply (IH l0); [done|]. intros i bs l Hi. by apply (Hall (S i) bs l).
  - specialize (Hall 0%nat bs0 l0 eq_refl). eapply Forall_impl; [exact Hb0|]. cbn. lia.
Qed.

Section Table.
Context (table index : list Z) (Hok : table_ok table index = true).

Lemma table_ok_blocks : ∃ bl, table_blocks table index = Some bl ∧ chain 0 bl = true ∧ table_bounds table index = concat bl.*1 ∧
  length bl = Z.to_nat (zlen index / 3) ∧ 2 <= zlen index / 3 ∧
  (∀ j, 0 <= j < zlen index / 3 → ∃ bs limit, block table index j = Some (bs, limit) ∧ bl !! Z.to_nat j = Some (bs, limit)) ∧
  index_code (table_end index) = table_end index ∧ table_end index < 2 ^ 32.
Proof using Hok.
  pose proof Hok as H. unfold table_ok in H. destruct (table_blocks table index) as [bl|] eqn:E; [|done].
  rewrite !andb_true_iff, Z.leb_le, Z.eqb_eq, Z.ltb_lt in H. destruct H as [[[[H1 H2] H3] H4] _].
  exists bl. split; [done|]. split; [done|]. split; [unfold table_bounds; by rewrite E|].
  unfold table_blocks in E. apply mapM_Some_1 in E. pose proof (Forall2_length _ _ _ E) as El. rewrite length_seqZ in El.
  split; [done|]. split; [done|]. split; [|done]. intros j Hj.
  destruct (lookup_lt_is_Some_2 bl (Z.to_nat j)) as [[bs limit] Hb]; [lia|]. exists bs, limit. split; [|done].
  destruct (Forall2_lookup_r _ _ _ _ _ E Hb) as (k & Hk & Hblk). apply lookup_seqZ in Hk as [-> _].
  by rewrite Z2Nat.id, Z.add_0_l in Hblk by lia.
Qed.

(** What a block is. *)
Lemma block_inv j bs limit : block table index j = Some (bs, limit) → ∃ code p v p',
  block_start index j = Some (code, p) ∧ get_le24 index (j * 3) = Some v ∧ limit = index_code v ∧
  table_walk (length table) table code p limit = Some (bs, p').
Proof.
  unfold block. destruct (block_start index j) as [[code p]|]; [|done]. cbn [mbind option_bind].
  destruct (get_le24 index (j * 3)) as [v|]; [|done]. cbn [mbind option_bind].
  destruct (table_walk _ _ _ _ _) as [[bs' p']|] eqn:E; [|done]. intros [= -> <-]. by exists code, p, v, p'.
Qed.

Lemma limits_mono bl i j bs bs' l l' : chain 0 bl = true → (i <= j)%nat → bl !! i = Some (bs, l) → bl !! j = Some (bs', l') → l <= l'.
Proof.
  generalize 0. intros code. revert code i j. induction bl as [|[bs0 l0] bl IH]; intros code i j Hch Hij Hi Hj; [done|].
  cbn [chain] in Hch. rewrite !andb_true_iff in Hch. destruct Hch as [_ Hch]. destruct i as [|i], j as [|j]; try lia; cbn in Hi, Hj.
  - simplify_eq. lia.
  - injection Hi as <- <-. by apply (chain_mono _ _ _ _ _ Hch Hj).
  - apply (IH l0 i j); [done|lia|done|done].
Qed.

(** In block [j] the loop decides membership in the whole table. *)
Lemma block_member j code p v c : 0 <= j < zlen index / 3 → block_start index j = Some (code, p) → get_le24 index (j * 3) = Some v →
  0 <= c → code <= c < index_code v → prop_loop (length table) table c code p false = Some (member (table_bounds table index) c).
Proof using Hok.
  intros Hj Hs Hv Hc0 Hc. destruct table_ok_blocks as (bl & _ & Hch & Hb & Hlen & H2 & Hbl & Hend & H32).
  destruct (Hbl j Hj) as (bs & limit & Ebl & Hlook). destruct (block_inv _ _ _ Ebl) as (code' & p0 & v' & p' & Es & Ev & -> & Ew).
  rewrite Hs in Es. injection Es as <- <-. rewrite Hv in Ev. injection Ev as <-.
  destruct (Hbl (zlen index / 3 - 1) ltac:(lia)) as (bse & le & Ee & Hle).
  destruct (block_inv _ _ _ Ee) as (_ & _ & ve & _ & _ & Eve & -> & _).
  assert (index_code v <= table_end index) as Hle32.
  { unfold table_end in *. rewrite Eve in *. cbn [from_option id] in *. rewrite <- Hend.
    apply (limits_mono bl (Z.to_nat j) (Z.to_nat (zlen index / 3 - 1)) bs bse); [done|lia|done|done]. }
  assert (0 <= code) as Hcode.
  { unfold block_start in Hs. destruct (Z.eqb_spec j 0); [injection Hs as <- <-; lia|].
    destruct (get_le24 _ _) as [w|]; [|done]. injection Hs as <- <-. unfold index_code. apply Z.land_nonneg. right. lia. }
  rewrite (prop_loop_ok _ _ c code p (index_code v) bs p' false Ew) by lia. rewrite Hb. f_equal.
  rewrite xorb_false_l. symmetry. apply (chain_member 0 bl (Z.to_nat j) bs (index_code v)); [done|done| |lia].
  intros i bs' l' Hi Hl. destruct (Z.eqb_spec j 0) as [->|Hj0]; [lia|].
  destruct (Hbl (j - 1) ltac:(lia)) as (bsp & lp & Ep & Hlp). destruct (block_inv _ _ _ Ep) as (_ & _ & vp & _ & _ & Evp & -> & _).
  pose proof (limits_mono bl i (Z.to_nat (j - 1)) bs' bsp l' (index_code vp) Hch ltac:(lia) Hl Hlp).
  unfold block_start in Hs. rewrite (proj2 (Z.eqb_neq j 0)), Evp in Hs by done. injection Hs as <- _. lia.
Qed.

(** Looking up through the index is membership in the set that the table from
    its start to its end describes. *)
Lemma lre_is_in_table_ok c : 0 <= c → lre_is_in_table c table index = Some (member (table_bounds table index) c).
Proof using Hok.
  intros Hc. destruct table_ok_blocks as (bl & _ & Hch & Hb & Hlen & H2 & Hbl & Hend & H32). set (n := zlen index / 3) in *.
  assert (∀ i, 0 <= i < n → ∃ v, get_le24 index (i * 3) = Some v) as Hg.
  { intros i Hi. destruct (Hbl i Hi) as (bs & l & E & _). destruct (block_inv _ _ _ E) as (_ & _ & v & _ & _ & Ev & _). by exists v. }
  unfold lre_is_in_table, get_index_pos. fold n. destruct (Hg 0 ltac:(lia)) as [v0 E0]. change (0 * 3) with 0 in E0. rewrite E0.
  cbn [mbind option_bind]. fold (index_code v0). destruct (Z.ltb_spec c (index_code v0)) as [Hlow|Hlow].
  { cbn [mbind option_bind]. apply (block_member 0 0 0 v0); [lia|done|exact E0|done|lia]. }
  destruct (Hg (n - 1) ltac:(lia)) as [ve Ee]. rewrite Ee. cbn [mbind option_bind].
  assert (table_end index = ve) as Hve by (unfold table_end; fold n; by rewrite Ee).
  destruct (Z.leb_spec ve c) as [Hhigh|Hhigh].
  { cbn [mbind option_bind]. f_equal. symmetry. rewrite Hb. apply (chain_even 0); [done|]. intros i bs l Hi.
    destruct (Hbl (n - 1) ltac:(lia)) as (bse & le & Ele & Hle). destruct (block_inv _ _ _ Ele) as (_ & _ & v & _ & _ & Ev & -> & _).
    rewrite Ee in Ev. injection Ev as <-. pose proof (lookup_lt_Some _ _ _ Hi).
    pose proof (limits_mono bl i (Z.to_nat (n - 1)) bs bse l (index_code ve) Hch ltac:(lia) Hi Hle). rewrite <- Hve in *. lia. }
  destruct (index_search_ok (Z.to_nat n) index c 0 (n - 1)) as (i & v & w & -> & Hi & Ev & Ew & Hvw); [|lia|lia| | |].
  - intros i Hi. destruct (Hg i ltac:(lia)) as [v ->]. done.
  - intros v Hv. change (0 * 3) with 0 in Hv. rewrite E0 in Hv. by injection Hv as <-.
  - intros v Hv. rewrite Ee in Hv. injection Hv as <-. by rewrite <- Hve, Hend, Hve.
  - cbn [mbind option_bind]. rewrite Ev. cbn [mbind option_bind]. fold (index_code v) (index_pos i v).
    apply (block_member (i + 1) (index_code v) (index_pos i v) w); [lia| |done|done|done].
    unfold block_start. rewrite (proj2 (Z.eqb_neq (i + 1) 0)) by lia. replace (i + 1 - 1) with i by lia. by rewrite Ev.
Qed.

(** The set is what a scan of the whole table gives. *)
Lemma table_bounds_scan : table_walk (length table) table 0 0 (table_end index) = Some (table_bounds table index, zlen table).
Proof using Hok.
  pose proof Hok as H. unfold table_ok in H. destruct (table_blocks table index) as [bl|]; [|done].
  rewrite !andb_true_iff in H. destruct H as [_ H]. by apply bool_decide_eq_true in H.
Qed.

End Table.

Definition Cased1 : list Z := table_bounds unicode_prop_Cased1_table unicode_prop_Cased1_index.
Definition Case_Ignorable : list Z := table_bounds unicode_prop_Case_Ignorable_table unicode_prop_Case_Ignorable_index.
Definition ID_Start : list Z := table_bounds unicode_prop_ID_Start_table unicode_prop_ID_Start_index.
Definition ID_Continue1 : list Z := table_bounds unicode_prop_ID_Continue1_table unicode_prop_ID_Continue1_index.

(** The properties of a code point are membership in the sets of the tables,
    for every value, without a read outside a table. *)
Lemma properties_decided c : 0 < c →
  lre_is_cased c = Some (bool_decide (is_Some (case_map !! Z.to_pos c)) || member Cased1 c) ∧
  lre_is_case_ignorable c = Some (member Case_Ignorable c) ∧
  lre_is_id_start c = Some (member ID_Start c) ∧
  lre_is_id_continue c = Some (member ID_Start c || member ID_Continue1 c).
Proof.
  intros Hc. assert (lre_is_id_start c = Some (member ID_Start c)) as Hst by (apply lre_is_in_table_ok; [by vm_compute|lia]).
  split; [|split; [|split; [exact Hst|]]].
  - unfold lre_is_cased. rewrite case_find_map by done. cbn [mbind option_bind]. destruct (case_map !! Z.to_pos c) as [e|].
    + rewrite bool_decide_eq_true_2 by (by eexists). reflexivity.
    + rewrite bool_decide_eq_false_2 by (intros [? ?]; discriminate). cbn [orb]. apply lre_is_in_table_ok; [by vm_compute|lia].
  - apply lre_is_in_table_ok; [by vm_compute|lia].
  - unfold lre_is_id_continue. rewrite Hst. cbn [mbind option_bind]. destruct (member ID_Start c); [reflexivity|]. cbn [orb].
    apply lre_is_in_table_ok; [by vm_compute|lia].
Qed.

(** Identifiers: letters, digits after the first character, no operators. *)
Example id_chars :
  (lre_is_id_start <$> [0x61; 0x4e2d; 0x30; 0x2b]) = [Some true; Some true; Some false; Some false] ∧
  (lre_is_id_continue <$> [0x61; 0x30; 0x2b]) = [Some true; Some true; Some false].
Proof. by vm_compute. Qed.

End UnicodeCase.
