(* ===== verification/Unicode.v ===== *)
(** * Unicode normalization ([quickjs/libunicode.c])

    Canonical ordering, decomposition and composition behind
    [String.prototype.normalize], over the tables of [UnicodeTables.v] and the
    dynamic buffer of [Cutils.v]. Code points are [uint32_t] values; a read
    outside a table or a buffer is [None], and so is a loop that runs out of
    fuel. *)

From stdpp Require Import relations.
From S2P Require Import Prelude Cutils UnicodeTables UnicodeCC.

Module Unicode.
Import UnicodeTables UnicodeCC.

(** ** Canonical ordering *)

(** The innermost loop and the store behind it: [q] is [k + 1]. *)
Fixpoint shift_down (q : nat) (buf : list Z) (start : nat) (cc1 ch1 : Z) : option (list Z) :=
  match q with
  | O => Some (<[q := ch1]> buf)
  | S k =>
      if (start <? q)%nat then
        x ← buf !! k;
        cc ← unicode_get_cc x;
        if cc <=? cc1 then Some (<[q := ch1]> buf)
        else shift_down k (<[q := x]> buf) start cc1 ch1
      else Some (<[q := ch1]> buf)
  end.

(** The loop over [j]; [n] is the number of elements left. *)
Fixpoint sort_run (n : nat) (buf : list Z) (start j : nat) : option (list Z * nat) :=
  match n with
  | O => Some (buf, j)
  | S n =>
      ch1 ← buf !! j;
      cc1 ← unicode_get_cc ch1;
      if cc1 =? 0 then Some (buf, j)
      else buf ← shift_down j buf start cc1 ch1; sort_run n buf start (j + 1)
  end.

Fixpoint sort_loop (fuel : nat) (buf : list Z) (i : nat) : option (list Z) :=
  match fuel with
  | O => None
  | S fuel =>
      if (i <? length buf)%nat then
        ch ← buf !! i;
        cc ← unicode_get_cc ch;
        if negb (cc =? 0) then
          '(buf, j) ← sort_run (length buf - (i + 1)) buf i (i + 1);
          sort_loop fuel buf (j + 1)
        else sort_loop fuel buf (i + 1)
      else Some buf
  end.

Definition sort_cc (buf : list Z) : option (list Z) := sort_loop (S (length buf)) buf 0.

(** ** Decomposition *)

(** [unicode_short_table]. *)
Definition unicode_short_table : list Z := [0x2044; 0x2215].

Definition unicode_get_short_code (c : Z) : option Z :=
  if c <? 0x80 then Some c
  else if c <? 0x80 + 0x50 then Some (c - 0x80 + 0x300)
  else aget unicode_short_table (c - 0x80 - 0x50).

Definition unicode_get_lower_simple (c : Z) : Z :=
  if (c <? 0x100) || ((0x410 <=? c) && (c <=? 0x42f)) then c + 0x20 else c + 1.

(** Bytes of [unicode_decomp_data] at an offset. *)
Definition data8 (p : Z) : option Z := aget unicode_decomp_data p.
Definition unicode_get16 (p : Z) : option Z := b0 ← data8 p; b1 ← data8 (p + 1); Some (b0 .| (b1 << 8)).

(** [DecompTypeEnum]: the first value of each family. *)
Definition DECOMP_TYPE_C1 : Z := 0.
Definition DECOMP_TYPE_L1 : Z := 1.
Definition DECOMP_TYPE_LL1 : Z := 8.
Definition DECOMP_TYPE_S1 : Z := 10.
Definition DECOMP_TYPE_I1 : Z := 15.
Definition DECOMP_TYPE_I2_0 : Z := 16.
Definition DECOMP_TYPE_B1 : Z := 22.
Definition DECOMP_TYPE_B18 : Z := 30.
Definition DECOMP_TYPE_LS2 : Z := 31.
Definition DECOMP_TYPE_PAT3 : Z := 32.
Definition DECOMP_TYPE_S2_UL : Z := 33.
Definition DECOMP_TYPE_LS2_UL : Z := 34.

(** When a loop that fills [res] tests for a zero element. *)
Inductive zero_test : Set := no_test | before_store | after_store.

(** [n] more elements from index [i] on; the result is the return value and
    what was stored. *)
Fixpoint fill (t : zero_test) (n : nat) (i : Z) (f : Z → option Z) (res : list Z) : option (Z * list Z) :=
  match n with
  | O => Some (i, res)
  | S n =>
      x ← f i;
      if x =? 0 then
        match t with
        | no_test => fill t n (i + 1) f (res ++ [x])
        | before_store => Some (0, res)
        | after_store => Some (0, res ++ [x])
        end
      else fill t n (i + 1) f (res ++ [x])
  end.

Definition in_types (type lo hi : Z) : bool := (lo <=? type) && (type <=? hi).

Definition unicode_decomp_entry (c idx code len type : Z) : option (Z * list Z) :=
  t2 ← aget unicode_decomp_table2 idx;
  if type =? DECOMP_TYPE_C1 then Some (1, [t2])
  else
    let d := t2 in
    let off := u32 (c - code) in
    if in_types type DECOMP_TYPE_L1 7 then
      let l := type - DECOMP_TYPE_L1 + 1 in
      let d := d + off * l * 2 in
      fill after_store (Z.to_nat l) 0 (λ i, unicode_get16 (d + 2 * i)) []
    else if in_types type DECOMP_TYPE_LL1 9 then
      let l := type - DECOMP_TYPE_LL1 + 1 in
      let p := len * l * 2 in
      fill before_store (Z.to_nat l) 0 (λ i,
        let k := off * l + i in
        x ← unicode_get16 (d + 2 * k);
        y ← data8 (d + (p + k / 4));
        Some (x .| (((y >> (k mod 4 * 2)) .& 3) << 16))) []
    else if in_types type DECOMP_TYPE_S1 14 then
      let l := type - DECOMP_TYPE_S1 + 1 in
      let d := d + off * l in
      fill after_store (Z.to_nat l) 0 (λ i, x ← data8 (d + i); unicode_get_short_code x) []
    else if in_types type DECOMP_TYPE_I1 21 then
      let '(l, p) :=
        if type =? DECOMP_TYPE_I1 then (1, 0)
        else
          let l := 2 + ((type - DECOMP_TYPE_I2_0) >> 1) in
          (l, ((type - DECOMP_TYPE_I2_0) .& 1) + (if 2 <? l then 1 else 0)) in
      fill no_test (Z.to_nat l) 0 (λ i,
        c1 ← unicode_get16 (d + 2 * i);
        Some (if i =? p then u32 (c1 + off) else c1)) []
    else if in_types type DECOMP_TYPE_B1 DECOMP_TYPE_B18 then
      let l := if type =? DECOMP_TYPE_B18 then 18 else type - DECOMP_TYPE_B1 + 1 in
      c_min ← unicode_get16 d;
      let d := d + (2 + off * l) in
      fill no_test (Z.to_nat l) 0 (λ i,
        c1 ← data8 (d + i);
        Some (if c1 =? 0xff then 0x20 else u32 (c1 + c_min))) []
    else if type =? DECOMP_TYPE_LS2 then
      let d := d + off * 3 in
      x ← unicode_get16 d;
      if x =? 0 then Some (0, [x])
      else b ← data8 (d + 2); y ← unicode_get_short_code b; Some (2, [x; y])
    else if type =? DECOMP_TYPE_PAT3 then
      x ← unicode_get16 d;
      z ← unicode_get16 (d + 2);
      y ← unicode_get16 (d + (4 + off * 2));
      Some (3, [x; y; z])
    else if in_types type DECOMP_TYPE_S2_UL DECOMP_TYPE_LS2_UL then
      '(x, d) ←
        (if type =? DECOMP_TYPE_S2_UL then
           let d := d + (off .& not32 1) in
           b ← data8 d; x ← unicode_get_short_code b; Some (x, d + 1)
         else
           let d := d + (off >> 1) * 3 in
           x ← unicode_get16 d; Some (x, d + 2));
      let x := if off .& 1 =? 0 then x else unicode_get_lower_simple x in
      b ← data8 d; y ← unicode_get_short_code b; Some (2, [x; y])
    else Some (0, []).

(** Fields of an entry of [unicode_decomp_table1]. *)
Definition entry_code (v : Z) : Z := v >> 14.
Definition entry_len (v : Z) : Z := (v >> 7) .& 0x7f.
Definition entry_type (v : Z) : Z := (v >> 1) .& 0x3f.

(** The return value and the stored elements; the search returns 0 when it
    ends without an entry. *)
Fixpoint decomp_search (fuel : nat) (c : Z) (is_compat1 : bool) (idx_min idx_max : Z) : option (Z * list Z) :=
  match fuel with
  | O => None
  | S fuel =>
      if idx_min <=? idx_max then
        let idx := (idx_max + idx_min) / 2 in
        v ← aget unicode_decomp_table1 idx;
        let code := entry_code v in
        let len := entry_len v in
        if c <? code then decomp_search fuel c is_compat1 idx_min (idx - 1)
        else if u32 (code + len) <=? c then decomp_search fuel c is_compat1 (idx + 1) idx_max
        else if negb is_compat1 && (v .& 1 =? 1) then Some (0, [])
        else unicode_decomp_entry c idx code len (entry_type v)
      else Some (0, [])
  end.

Definition unicode_decomp_char (c : Z) (is_compat1 : bool) : option (Z * list Z) :=
  let n := zlen unicode_decomp_table1 in decomp_search (S (Z.to_nat n)) c is_compat1 0 (n - 1).

(** ** Composition *)

Fixpoint comp_search (fuel : nat) (c0 c1 idx_min idx_max : Z) : option Z :=
  match fuel with
  | O => None
  | S fuel =>
      if idx_min <=? idx_max then
        let idx := (idx_max + idx_min) / 2 in
        idx1 ← aget unicode_comp_table idx;
        let d_idx := idx1 >> 6 in
        let d_offset := idx1 .& 0x3f in
        v ← aget unicode_decomp_table1 d_idx;
        let code := entry_code v in
        let ch := code + d_offset in
        '(_, pr) ← unicode_decomp_entry ch d_idx code (entry_len v) (entry_type v);
        p0 ← pr !! 0%nat;
        d ← (if s32 (c0 - p0) =? 0 then p1 ← pr !! 1%nat; Some (s32 (c1 - p1)) else Some (s32 (c0 - p0)));
        if d <? 0 then comp_search fuel c0 c1 idx_min (idx - 1)
        else if 0 <? d then comp_search fuel c0 c1 (idx + 1) idx_max
        else Some ch
      else Some 0
  end.

Definition unicode_compose_pair (c0 c1 : Z) : option Z :=
  let n := zlen unicode_comp_table in comp_search (S (Z.to_nat n)) c0 c1 0 (n - 1).

Definition compose_pair (c0 c1 : Z) : option Z :=
  if (0x1100 <=? c0) && (c0 <? 0x1100 + 19) && (0x1161 <=? c1) && (c1 <? 0x1161 + 21) then
    Some (0xac00 + (c0 - 0x1100) * 588 + (c1 - 0x1161) * 28)
  else if (0xac00 <=? c0) && (c0 <? 0xac00 + 11172) && ((c0 - 0xac00) mod 28 =? 0) &&
          (0x11a7 <=? c1) && (c1 <? 0x11a7 + 28) then
    Some (c0 + c1 - 0x11a7)
  else unicode_compose_pair c0 c1.

(** ** Normalization *)

Inductive UnicodeNormalizationEnum : Set := UNICODE_NFC | UNICODE_NFD | UNICODE_NFKC | UNICODE_NFKD.

(** [n_type >> 1] and [n_type & 1]. *)
Definition nf_compat (t : UnicodeNormalizationEnum) : bool :=
  match t with UNICODE_NFKC | UNICODE_NFKD => true | _ => false end.
Definition nf_decomposed (t : UnicodeNormalizationEnum) : bool :=
  match t with UNICODE_NFD | UNICODE_NFKD => true | _ => false end.

Section realloc.
(** The [realloc_func] of the dynamic buffer. *)
Variable realloc_func : list Z → Z → option (list Z).

Definition nfd_put (dbuf : Cutils.DynBuf) (v : Z) : option Cutils.DynBuf :=
  '(_, dbuf) ← Cutils.dbuf_put_u32 realloc_func dbuf v; Some dbuf.

(** The loop over the characters, which calls back for a decomposition. *)
Fixpoint nfd_chars (rec : Cutils.DynBuf → list Z → option Cutils.DynBuf) (dbuf : Cutils.DynBuf) (src : list Z)
    (is_compat : bool) : option Cutils.DynBuf :=
  match src with
  | [] => Some dbuf
  | c :: src =>
      dbuf ← (if (0xac00 <=? c) && (c <? 0xd7a4) then
                let c := c - 0xac00 in
                dbuf ← nfd_put dbuf (0x1100 + c / 588);
                dbuf ← nfd_put dbuf (0x1161 + c mod 588 / 28);
                let v := c mod 28 in
                if negb (v =? 0) then nfd_put dbuf (0x11a7 + v) else Some dbuf
              else
                '(l, res) ← unicode_decomp_char c is_compat;
                if negb (l =? 0) then rec dbuf (take (Z.to_nat l) res) else nfd_put dbuf c);
      nfd_chars rec dbuf src is_compat
  end.

(** [depth] bounds the recursion, whose depth the tables determine. *)
Fixpoint to_nfd_rec (depth : nat) (dbuf : Cutils.DynBuf) (src : list Z) (is_compat : bool) : option Cutils.DynBuf :=
  match depth with
  | O => None
  | S depth => nfd_chars (λ dbuf src, to_nfd_rec depth dbuf src is_compat) dbuf src is_compat
  end.

(** The search for the starter before [pos]; [None] inside is a blocked
    character or no starter at all. *)
Fixpoint find_starter (pos : nat) (buf : list Z) (last_cc : Z) : option (option nat) :=
  match pos with
  | O => Some None
  | S k =>
      ch ← buf !! k;
      cc ← unicode_get_cc ch;
      if cc =? 0 then Some (Some k)
      else if last_cc <=? cc then Some None
      else find_starter k buf 256
  end.

(** [n] characters from [i] on are left; the result is the buffer and
    [out_len]. *)
Fixpoint compose_loop (n : nat) (buf : list Z) (i out_len : nat) : option (list Z * nat) :=
  match n with
  | O => Some (buf, out_len)
  | S n =>
      ch ← buf !! i;
      last_cc ← unicode_get_cc ch;
      starter ← find_starter out_len buf last_cc;
      p ← match starter with
          | None => Some 0
          | Some k => s ← buf !! k; compose_pair s ch
          end;
      match starter with
      | Some k =>
          if negb (p =? 0) then compose_loop n (<[k := p]> buf) (i + 1) out_len
          else compose_loop n (<[out_len := ch]> buf) (i + 1) (out_len + 1)
      | None => compose_loop n (<[out_len := ch]> buf) (i + 1) (out_len + 1)
      end
  end.

(** The characters of [*pdst], or [None] for the return value -1. *)
Definition unicode_normalize (depth : nat) (src : list Z) (n_type : UnicodeNormalizationEnum) :
  option (option (list Z)) :=
  let is_compat := nf_compat n_type in
  let '(r, dbuf) := Cutils.dbuf_realloc realloc_func Cutils.dbuf_init (4 * zlen src) in
  if negb (r =? 0) then Some None
  else
    let latin1 := match n_type with UNICODE_NFC => forallb (λ c, c <? 0x100) src | _ => false end in
    if latin1 then
      nb ← splice (Cutils.buf dbuf) 0 (words_bytes src);
      Some (Some (take (length src) (words_of nb)))
    else
      dbuf ← to_nfd_rec depth dbuf src is_compat;
      if Cutils.dbuf_error dbuf then Some None
      else
        let buf_len := Cutils.size dbuf / 4 in
        let buf := take (Z.to_nat buf_len) (words_of (Cutils.buf dbuf)) in
        buf ← sort_cc buf;
        if (buf_len <=? 1) || nf_decomposed n_type then Some (Some buf)
        else
          '(buf, out_len) ← compose_loop (length buf - 1) buf 1 1;
          Some (Some (take out_len buf)).

End realloc.

(** ** The canonical ordering algorithm *)

#[local] Opaque unicode_get_cc cc.

(** Unicode's definition: two adjacent characters are reorderable when the
    class of the first is greater than that of the second, and the second is
    not a starter; the order is reached by exchanging such pairs until there
    are none. *)
Definition reorderable (a b : Z) : Prop := 0 < cc b < cc a.

Inductive exchange : list Z → list Z → Prop :=
| exchange_pair l1 a b l2 : reorderable a b → exchange (l1 ++ a :: b :: l2) (l1 ++ b :: a :: l2).

Definition canonical_order (l : list Z) : Prop :=
  ∀ m a b, l !! m = Some a → l !! S m = Some b → ¬ reorderable a b.

Lemma exchange_lookup l k a b : l !! k = Some a → l !! S k = Some b → reorderable a b →
  exchange l (<[k := b]> (<[S k := a]> l)).
Proof.
  intros Ha Hb Hr. rewrite <- (take_drop_middle l k a) at 1 by done.
  assert (drop (S k) l = b :: drop (S (S k)) l) as Hd by (by apply drop_S). rewrite Hd.
  assert (<[k := b]> (<[S k := a]> l) = take k l ++ b :: a :: drop (S (S k)) l) as ->; [|by constructor].
  pose proof (lookup_lt_Some _ _ _ Hb). rewrite insert_take_drop by (rewrite length_insert; lia).
  rewrite take_insert_ge by lia. f_equal. f_equal.
  rewrite (drop_S _ a) by (apply list_lookup_insert_eq; lia). by rewrite drop_insert_lt by lia.
Qed.

Lemma exchange_perm l l' : rtc exchange l l' → l' ≡ₚ l.
Proof.
  induction 1 as [l|l l1 l' Hx _ IH]; [done|]. rewrite IH. destruct Hx. apply Permutation_app_head. constructor.
Qed.

(** [l[lo .. hi]] has ascending classes, the element at [q] apart. *)
Definition ascending_but (l : list Z) (lo hi q : nat) : Prop :=
  ∀ i i' x y, (lo <= i < i')%nat → (i' <= hi)%nat → i ≠ q → i' ≠ q → l !! i = Some x → l !! i' = Some y → cc x <= cc y.
Definition nonstarters (l : list Z) (lo hi : nat) : Prop :=
  ∀ i x, (lo <= i <= hi)%nat → l !! i = Some x → 0 < cc x.

(** The loop stops at [q]: at the start of the run or behind a character of
    no greater class. *)
Lemma shift_stop q buf start hi ch1 :
  (start <= q <= hi)%nat → (hi < length buf)%nat →
  nonstarters (<[q := ch1]> buf) start hi → ascending_but (<[q := ch1]> buf) start hi q →
  (∀ i x, (q < i <= hi)%nat → <[q := ch1]> buf !! i = Some x → cc ch1 < cc x) →
  start = q ∨ (∃ k x, q = S k ∧ buf !! k = Some x ∧ cc x <= cc ch1) →
  ∃ buf', Some (<[q := ch1]> buf) = Some buf' ∧ rtc exchange (<[q := ch1]> buf) buf' ∧ nonstarters buf' start hi ∧
    ascending_but buf' start hi (S hi) ∧ (∀ i, (i < start ∨ hi < i)%nat → buf' !! i = buf !! i).
Proof.
  intros Hq Hhi Hns Hasc Hgt Hs. set (v := <[q := ch1]> buf) in *.
  exists v. split_and!; try done; [|intros i Hi; apply list_lookup_insert_ne; lia].
  intros i i' x y Hi Hi' _ _ Hx Hy. destruct (decide (i = q)) as [->|Hne].
  - subst v. rewrite list_lookup_insert_eq in Hx by lia. injection Hx as <-. specialize (Hgt i' y ltac:(lia) Hy). lia.
  - destruct (decide (i' = q)) as [->|Hne']; [|by apply (Hasc i i' x y); (done || lia)].
    destruct Hs as [->|(k & z & -> & Hz & Hcz)]; [lia|].
    assert (v !! k = Some z) as Hz' by (subst v; by rewrite list_lookup_insert_ne by lia).
    subst v. rewrite list_lookup_insert_eq in Hy by lia. injection Hy as <-.
    destruct (decide (i = k)) as [->|]; [rewrite Hz' in Hx; injection Hx as ->; lia|].
    enough (cc x <= cc z) by lia. apply (Hasc i k x z); (done || lia).
Qed.

Lemma shift_down_ok q buf start hi ch1 :
  (start <= q <= hi)%nat → (hi < length buf)%nat → Forall (Z.le 0) buf →
  nonstarters (<[q := ch1]> buf) start hi → ascending_but (<[q := ch1]> buf) start hi q →
  (∀ i x, (q < i <= hi)%nat → <[q := ch1]> buf !! i = Some x → cc ch1 < cc x) → 
  ∃ buf', shift_down q buf start (cc ch1) ch1 = Some buf' ∧ rtc exchange (<[q := ch1]> buf) buf' ∧
    nonstarters buf' start hi ∧ ascending_but buf' start hi (S hi) ∧
    (∀ i, (i < start ∨ hi < i)%nat → buf' !! i = buf !! i).
Proof.
  revert buf. induction q as [|k IH]; intros buf Hq Hhi Hpos Hns Hasc Hgt.
  - cbn [shift_down]. apply shift_stop; try done. left. lia.
  - cbn [shift_down]. set (v := <[S k := ch1]> buf) in *.
    destruct (Nat.ltb_spec start (S k)) as [Hlt|Hge]; [|by apply shift_stop; [..|left; lia]].
    destruct (lookup_lt_is_Some_2 buf k) as [x Hx]; [lia|]. rewrite Hx. cbn [mbind option_bind].
    assert (0 <= x) as Hx0 by (by eapply (proj1 (Forall_lookup _ _) Hpos)).
    destruct (get_cc_eq x Hx0) as [-> Hccx]. cbn [mbind option_bind].
    destruct (Z.leb_spec (cc x) (cc ch1)) as [Hle|Hgt1]; [by apply shift_stop; [..|right; exists k, x]|].
    set (v1 := <[k := ch1]> (<[S k := x]> buf)).
    assert (v !! k = Some x) as Hvk by (subst v; by rewrite list_lookup_insert_ne by lia).
    assert (v1 !! k = Some ch1) as H1k by (apply list_lookup_insert_eq; rewrite length_insert; lia).
    assert (v1 !! S k = Some x) as H1q.
    { subst v1. rewrite list_lookup_insert_ne by lia. apply list_lookup_insert_eq. lia. }
    assert (∀ i, i ≠ k → i ≠ S k → v1 !! i = v !! i) as Hsame.
    { intros i H1 H2. subst v v1. by rewrite !list_lookup_insert_ne by lia. }
    assert (v !! S k = Some ch1) as Hvq by (apply list_lookup_insert_eq; lia).
    assert (exchange v v1) as Hex.
    { subst v1. replace (<[S k := x]> buf) with (<[S k := x]> v) by (subst v; apply list_insert_insert_eq).
      apply exchange_lookup; [done|done|]. split; [|lia]. by apply (Hns (S k)); [lia|]. }
    destruct (IH (<[S k := x]> buf)) as (buf' & Hr & Hrtc & K1 & K2 & K3); rewrite ?length_insert; try lia.
    + by apply Forall_insert.
    + intros i y Hi Hy. fold v1 in Hy. destruct (decide (i = k)) as [->|]; [|destruct (decide (i = S k)) as [->|]].
      * rewrite H1k in Hy. injection Hy as <-. by apply (Hns (S k)); [lia|].
      * rewrite H1q in Hy. injection Hy as <-. by apply (Hns k); [lia|].
      * rewrite Hsame in Hy by done. by apply (Hns i).
    + intros i i' y z Hi Hi' Hn Hn' Hy Hz. fold v1 in Hy, Hz.
      destruct (decide (i = S k)) as [->|]; [|destruct (decide (i' = S k)) as [->|]].
      * rewrite H1q in Hy. injection Hy as <-. rewrite Hsame in Hz by lia. apply (Hasc k i' x z); (done || lia).
      * rewrite H1q in Hz. injection Hz as <-. rewrite Hsame in Hy by lia. apply (Hasc i k y x); (done || lia).
      * rewrite Hsame in Hy, Hz by lia. apply (Hasc i i' y z); (done || lia).
    + intros i y Hi Hy. fold v1 in Hy. destruct (decide (i = S k)) as [->|].
      * rewrite H1q in Hy. injection Hy as <-. lia.
      * rewrite Hsame in Hy by lia. apply (Hgt i); (done || lia).
    + exists buf'. split_and!; try done; [by eapply rtc_l|].
      intros i Hi. rewrite K3 by done. apply list_lookup_insert_ne. lia.
Qed.

Lemma exchange_nonneg l l' : rtc exchange l l' → Forall (Z.le 0) l → Forall (Z.le 0) l'.
Proof. intros Hx%exchange_perm. by rewrite Hx. Qed.

(** The run of non-starters from [start] on is sorted. *)
Lemma sort_run_ok n buf start j :
  (start < j)%nat → (j + n = length buf)%nat → Forall (Z.le 0) buf →
  nonstarters buf start (j - 1) → ascending_but buf start (j - 1) j →
  ∃ buf' j', sort_run n buf start j = Some (buf', j') ∧ rtc exchange buf buf' ∧ (j <= j' <= length buf)%nat ∧
    nonstarters buf' start (j' - 1) ∧ ascending_but buf' start (j' - 1) j' ∧
    (∀ i, (i < start)%nat → buf' !! i = buf !! i) ∧ (∀ x, buf' !! j' = Some x → cc x = 0).
Proof.
  revert buf j. induction n as [|n IH]; intros buf j Hj Hl Hpos Hns Hasc; cbn [sort_run].
  { exists buf, j. split_and!; try done; try lia. intros x Hx%lookup_lt_Some. lia. }
  destruct (lookup_lt_is_Some_2 buf j) as [ch1 Hch]; [lia|]. rewrite Hch. cbn [mbind option_bind].
  assert (0 <= ch1) as Hc0 by (by eapply (proj1 (Forall_lookup _ _) Hpos)).
  destruct (get_cc_eq ch1 Hc0) as [-> Hcc]. cbn [mbind option_bind]. destruct (Z.eqb_spec (cc ch1) 0) as [E|E].
  { exists buf, j. split_and!; try done; try lia. intros x. rewrite Hch. by intros [= <-]. }
  assert (<[j := ch1]> buf = buf) as Hid by (by apply list_insert_id).
  destruct (shift_down_ok j buf start j ch1) as (buf1 & -> & Hx & H1 & H2 & H3); rewrite ?Hid; try done; try lia.
  - intros i x Hi Hx. destruct (decide (i = j)) as [->|]; [rewrite Hch in Hx; injection Hx as <-; lia|].
    apply (Hns i); (done || lia).
  - intros i i' x y Hi Hi' Hn Hn' Hx Hy. apply (Hasc i i' x y); (done || lia).
  - rewrite Hid in Hx. cbn [mbind option_bind]. pose proof (Permutation_length (exchange_perm _ _ Hx)) as Hlen.
    destruct (IH buf1 (j + 1)%nat) as (buf2 & j' & Hr & Hx2 & Hj' & K1 & K2 & K3 & K4); try lia.
    + by eapply exchange_nonneg.
    + by replace (j + 1 - 1)%nat with j by lia.
    + replace (j + 1 - 1)%nat with j by lia. by rewrite Nat.add_1_r.
    + exists buf2, j'. split_and!; try done; try lia; [by etrans|].
      intros i Hi. rewrite K3 by done. apply H3. by left.
Qed.

Lemma sort_loop_ok fuel buf i :
  (length buf - i < fuel)%nat → Forall (Z.le 0) buf →
  (∀ m a b, (S m < i)%nat → buf !! m = Some a → buf !! S m = Some b → ¬ reorderable a b) →
  (∀ m a, S m = i → buf !! m = Some a → cc a = 0) →
  ∃ buf', sort_loop fuel buf i = Some buf' ∧ rtc exchange buf buf' ∧ canonical_order buf'.
Proof.
  revert buf i. induction fuel as [|fuel IH]; intros buf i Hf Hpos Hdone Hst; [lia|].
  cbn [sort_loop]. destruct (Nat.ltb_spec i (length buf)) as [Hi|Hi].
  2: { exists buf. split_and!; try done. intros m a b Ha Hb. pose proof (lookup_lt_Some _ _ _ Hb).
       apply (Hdone m a b); (done || lia). }
  destruct (lookup_lt_is_Some_2 buf i Hi) as [ch Hch]. rewrite Hch. cbn [mbind option_bind].
  assert (0 <= ch) as Hc0 by (by eapply (proj1 (Forall_lookup _ _) Hpos)).
  destruct (get_cc_eq ch Hc0) as [-> Hcc]. cbn [mbind option_bind]. destruct (Z.eqb_spec (cc ch) 0) as [E|E]; cbn [negb].
  - apply IH; [lia|done| |].
    + intros m a b Hm Ha Hb. destruct (decide (S m = i)) as [Hmi|]; [|apply (Hdone m a b); (done || lia)].
      unfold reorderable. rewrite (Hst m a Hmi Ha). lia.
    + intros m a Hm Ha. assert (m = i) as -> by lia. rewrite Hch in Ha. by injection Ha as <-.
  - destruct (sort_run_ok (length buf - (i + 1)) buf i (i + 1)) as (buf1 & j & -> & Hx & Hj & H1 & H2 & H3 & H4); try done; try lia.
    { intros k x Hk Hx. assert (k = i) as -> by lia. rewrite Hch in Hx. injection Hx as <-. lia. }
    { intros k k' x y Hk Hk'. lia. }
    cbn [mbind option_bind]. pose proof (Permutation_length (exchange_perm _ _ Hx)) as Hlen.
    destruct (IH buf1 (j + 1)%nat) as (buf2 & Hr & Hx2 & Hc); [lia|by eapply exchange_nonneg| | |].
    + intros m a b Hm Ha Hb. destruct (decide (S m = j)) as [Hmj|].
      { rewrite Hmj in Hb. unfold reorderable. rewrite (H4 b Hb). lia. }
      destruct (decide (i <= m)%nat) as [Him|Him].
      { unfold reorderable. pose proof (H2 m (S m) a b ltac:(lia) ltac:(lia) ltac:(lia) ltac:(lia) Ha Hb). lia. }
      rewrite H3 in Ha by lia. destruct (decide (S m = i)) as [Hmi|].
      { unfold reorderable. rewrite (Hst m a Hmi Ha). lia. }
      rewrite H3 in Hb by lia. apply (Hdone m a b); (done || lia).
    + intros m a Hm Ha. assert (m = j) as -> by lia. by apply H4.
    + exists buf2. split_and!; try done. by etrans.
Qed.

Lemma sort_cc_ok buf : Forall (Z.le 0) buf →
  ∃ buf', sort_cc buf = Some buf' ∧ rtc exchange buf buf' ∧ canonical_order buf'.
Proof. intros Hb. apply sort_loop_ok; try done; try lia. Qed.

(** C39: [sort_cc] is Unicode's canonical ordering algorithm. For every text it
    ends, without an access outside the buffer, in an order reached by
    exchanging adjacent reorderable characters and in which no adjacent pair is
    reorderable any more; in particular starters stay where they are and
    characters of equal class keep their order. *)
Theorem sort_cc_canonical buf : Forall is_u32 buf →
  ∃ buf', sort_cc buf = Some buf' ∧ rtc exchange buf buf' ∧ canonical_order buf' ∧ buf' ≡ₚ buf.
Proof.
  intros Hb. destruct (sort_cc_ok buf) as (buf' & Hr & Hx & Hc).
  { eapply Forall_impl; [exact Hb|]. by intros x [? _]. }
  exists buf'. split_and!; try done. by apply exchange_perm.
Qed.

Lemma sort_cc_canonical_witness :
  ∃ buf', sort_cc [0x41; 0x301; 0x323; 0x42] = Some buf' ∧ rtc exchange [0x41; 0x301; 0x323; 0x42] buf' ∧
    canonical_order buf' ∧ buf' ≡ₚ [0x41; 0x301; 0x323; 0x42].
Proof. apply sort_cc_canonical. repeat (constructor; [unfold is_u32; lia|]). constructor. Defined.

(** ** Composition inverts decomposition *)

(** What the search reads for an entry of [unicode_comp_table]: the composite
    and its pair. *)
Definition comp_entry (idx1 : Z) : option (Z * (Z * Z)) :=
  let d_idx := idx1 >> 6 in
  v ← aget unicode_decomp_table1 d_idx;
  let ch := entry_code v + (idx1 .& 0x3f) in
  r ← unicode_decomp_entry ch d_idx (entry_code v) (entry_len v) (entry_type v);
  match r with
  | (2, [p0; p1]) => Some (ch, (p0, p1))
  | _ => None
  end.

Definition pair_lt (p q : Z * Z) : bool := (p.1 <? q.1) || ((p.1 =? q.1) && (p.2 <? q.2)).

Definition composite_ok (e : Z * (Z * Z)) : bool :=
  let '(ch, (p0, p1)) := e in
  (0 <? ch) && (0 <=? p0) && (p0 <? 2 ^ 31) && (0 <=? p1) && (p1 <? 2 ^ 31) &&
  ((p0 <? 0xac00) || (0xd7a4 <=? p0)) &&
  bool_decide (unicode_decomp_char ch false = Some (2, [p0; p1])).

Fixpoint pairs_sorted (es : list (Z * (Z * Z))) : bool :=
  match es with
  | e :: (e' :: _) as es' => pair_lt e.2 e'.2 && pairs_sorted es'
  | _ => true
  end.

Definition comp_table_ok : bool :=
  match mapM comp_entry unicode_comp_table with
  | Some es => pairs_sorted es && forallb composite_ok es
  | None => false
  end.

Lemma comp_table_true : comp_table_ok = true.
Proof. vm_compute. reflexivity. Qed.

#[local] Opaque unicode_comp_table unicode_decomp_table1 unicode_decomp_entry unicode_decomp_char.

Lemma pair_lt_trans p q r : pair_lt p q = true → pair_lt q r = true → pair_lt p r = true.
Proof. destruct p, q, r. unfold pair_lt. cbn [fst snd]. rewrite !orb_true_iff, !andb_true_iff, !Z.ltb_lt, !Z.eqb_eq. lia. Qed.

Lemma pairs_sorted_lookup es i j e e' : pairs_sorted es = true → (i < j)%nat →
  es !! i = Some e → es !! j = Some e' → pair_lt e.2 e'.2 = true.
Proof.
  revert i j e. induction es as [|a es IH]; intros i j e Hs Hij Hi Hj; [done|].
  destruct es as [|b es]; [apply lookup_lt_Some in Hj; cbn in Hj; lia|].
  cbn [pairs_sorted] in Hs. apply andb_true_iff in Hs as [Hab Hs].
  destruct j as [|j]; [lia|]. cbn [lookup list_lookup] in Hj. destruct i as [|i].
  - injection Hi as <-. destruct j as [|j]; [by injection Hj as <-|].
    eapply pair_lt_trans; [exact Hab|]. by apply (IH 0%nat (S j) b); [|lia|..].
  - apply (IH i j e); (done || lia).
Qed.

Lemma s32_diff a b : 0 <= a < 2 ^ 31 → 0 <= b < 2 ^ 31 → s32 (a - b) = a - b.
Proof.
  intros Ha Hb. unfold s32, u32. destruct (Z.le_gt_cases b a).
  - rewrite Z.mod_small by lia. by rewrite (proj2 (Z.ltb_lt _ _)) by lia.
  - replace ((a - b) mod 2 ^ 32) with (a - b + 2 ^ 32) by (apply (Z.mod_unique_pos _ _ (-1)); lia).
    rewrite (proj2 (Z.ltb_ge _ _)) by lia. lia.
Qed.

Lemma pair_lt_spec p q : pair_lt p q = true ↔ p.1 < q.1 ∨ (p.1 = q.1 ∧ p.2 < q.2).
Proof. unfold pair_lt. by rewrite orb_true_iff, andb_true_iff, !Z.ltb_lt, Z.eqb_eq. Qed.

Section search.
Context (es : list (Z * (Z * Z))) (Hes : Forall2 (λ x e, comp_entry x = Some e) unicode_comp_table es).
Context (Hsorted : pairs_sorted es = true) (Hok : Forall (λ e, composite_ok e = true) es).

Lemma composite_range ch p0 p1 : (ch, (p0, p1)) ∈ es → 0 < ch ∧ 0 <= p0 < 2 ^ 31 ∧ 0 <= p1 < 2 ^ 31 ∧
  ¬ (0xac00 <= p0 < 0xd7a4) ∧ unicode_decomp_char ch false = Some (2, [p0; p1]).
Proof using Hok.
  intros He. rewrite Forall_forall in Hok. specialize (Hok _ He). unfold composite_ok in Hok.
  rewrite !andb_true_iff, orb_true_iff, bool_decide_eq_true, !Z.ltb_lt, !Z.leb_le in Hok. destruct_and!. split_and!; (done || lia).
Qed.

(** The search finds the pair exactly when the table has it. *)
Lemma comp_search_ok fuel c0 c1 lo hi :
  0 <= c0 < 2 ^ 31 → 0 <= c1 < 2 ^ 31 → 0 <= lo <= hi + 1 → hi < zlen es → hi - lo + 1 < Z.of_nat fuel →
  (∀ i e, es !! i = Some e → Z.of_nat i < lo → pair_lt e.2 (c0, c1) = true) →
  (∀ i e, es !! i = Some e → hi < Z.of_nat i → pair_lt (c0, c1) e.2 = true) →
  ∃ ch, comp_search fuel c0 c1 lo hi = Some ch ∧ (ch ≠ 0 → (ch, (c0, c1)) ∈ es) ∧
    (ch = 0 → ∀ ch', (ch', (c0, c1)) ∉ es).
Proof using Hes Hok Hsorted.
  intros Hc0 Hc1. revert lo hi. induction fuel as [|fuel IH]; intros lo hi Hlo Hhi Hf Hbelow Habove; [lia|].
  cbn [comp_search]. destruct (Z.leb_spec lo hi) as [Hle|Hgt].
  2: { exists 0. split; [reflexivity|]. split; [by intros []|]. intros _ ch' [i Hi]%list_elem_of_lookup.
       assert (pair_lt (c0, c1) (c0, c1) = true) as Hx.
       { destruct (Z.lt_ge_cases (Z.of_nat i) lo); [by apply (Hbelow i _ Hi)|apply (Habove i _ Hi); lia]. }
       unfold pair_lt in Hx. cbn in Hx. rewrite !Z.ltb_irrefl, andb_false_r in Hx. done. }
  set (m := (hi + lo) / 2). assert (lo <= m <= hi) as Hm.
  { unfold m. pose proof (Z.div_mod (hi + lo) 2). pose proof (Z.mod_pos_bound (hi + lo) 2). lia. }
  clearbody m. destruct (lookup_lt_is_Some_2 es (Z.to_nat m)) as [[ch [p0 p1]] He]; [lia|].
  destruct (Forall2_lookup_r _ _ _ _ _ Hes He) as (idx1 & Hidx & Hent).
  assert (aget unicode_comp_table m = Some idx1) as ->.
  { unfold aget. by rewrite (proj2 (Z.leb_le _ _)) by lia. }
  cbn [mbind option_bind]. unfold comp_entry in Hent.
  destruct (aget unicode_decomp_table1 (idx1 >> 6)) as [v|]; [|done]. cbn [mbind option_bind] in *.
  destruct (unicode_decomp_entry _ _ _ _ _) as [[l pr]|]; [|done]. cbn [mbind option_bind] in *.
  assert (pr = [p0; p1] ∧ ch = entry_code v + (idx1 .& 0x3f)) as [-> ->].
  { assert (l = 2 ∧ pr = [p0; p1] ∧ entry_code v + (idx1 .& 0x3f) = ch) as (_ & ? & ?); [|done].
    repeat case_match; simplify_eq; done. }
  cbn [lookup list_lookup mbind option_bind].
  destruct (composite_range _ _ _ (list_elem_of_lookup_2 _ _ _ He)) as (Hch & Hp0 & Hp1 & _ & _).
  rewrite s32_diff by done.
  assert (Hdown : pair_lt (c0, c1) (p0, p1) = true → ∃ ch, comp_search fuel c0 c1 lo (m - 1) = Some ch ∧
    (ch ≠ 0 → (ch, (c0, c1)) ∈ es) ∧ (ch = 0 → ∀ ch', (ch', (c0, c1)) ∉ es)).
  { intros Hlt. apply IH; try done; try lia. intros i e Hi Hmi.
    destruct (decide (Z.of_nat i = m)) as [Heq|]; [replace i with (Z.to_nat m) in Hi by lia; rewrite He in Hi; by injection Hi as <-|].
    eapply pair_lt_trans; [exact Hlt|]. apply (pairs_sorted_lookup es (Z.to_nat m) i _ _ Hsorted ltac:(lia) He Hi). }
  assert (Hup : pair_lt (p0, p1) (c0, c1) = true → ∃ ch, comp_search fuel c0 c1 (m + 1) hi = Some ch ∧
    (ch ≠ 0 → (ch, (c0, c1)) ∈ es) ∧ (ch = 0 → ∀ ch', (ch', (c0, c1)) ∉ es)).
  { intros Hlt. apply IH; try done; try lia. intros i e Hi Hmi.
    destruct (decide (Z.of_nat i = m)) as [Heq|]; [replace i with (Z.to_nat m) in Hi by lia; rewrite He in Hi; by injection Hi as <-|].
    eapply pair_lt_trans; [|exact Hlt]. apply (pairs_sorted_lookup es i (Z.to_nat m) _ _ Hsorted ltac:(lia) Hi He). }
  rewrite !pair_lt_spec in Hdown, Hup. cbn [fst snd] in Hdown, Hup.
  destruct (Z.eqb_spec (c0 - p0) 0) as [E|E]; cbn [mbind option_bind]; rewrite ?s32_diff by done.
  - destruct (Z.ltb_spec (c1 - p1) 0); [apply Hdown; lia|]. destruct (Z.ltb_spec 0 (c1 - p1)); [apply Hup; lia|].
    eexists. split; [done|]. split; [|lia]. intros _. apply list_elem_of_lookup. exists (Z.to_nat m).
    by replace c0 with p0 by lia; replace c1 with p1 by lia.
  - destruct (Z.ltb_spec (c0 - p0) 0); [apply Hdown; lia|]. rewrite (proj2 (Z.ltb_lt _ _)) by lia. apply Hup. lia.
Qed.

End search.

(** The composites of the table with their pairs. *)
Definition composites : list (Z * (Z * Z)) := default [] (mapM comp_entry unicode_comp_table).

Lemma composites_ok : Forall2 (λ x e, comp_entry x = Some e) unicode_comp_table composites ∧ pairs_sorted composites = true ∧
  Forall (λ e, composite_ok e = true) composites.
Proof.
  pose proof comp_table_true as Ht. unfold comp_table_ok in Ht. unfold composites.
  destruct (mapM comp_entry unicode_comp_table) as [es|] eqn:E; [|done]. apply andb_true_iff in Ht as [H1 H2].
  split_and!; [by apply mapM_Some_1|done|]. apply Forall_forall. intros e He. rewrite forallb_forall in H2. by apply H2, list_elem_of_In.
Qed.

Lemma compose_pair_ok c0 c1 : 0 <= c0 < 2 ^ 31 → 0 <= c1 < 2 ^ 31 →
  ∃ ch, unicode_compose_pair c0 c1 = Some ch ∧ (ch = 0 → ∀ ch', (ch', (c0, c1)) ∉ composites) ∧
    (ch ≠ 0 → (ch, (c0, c1)) ∈ composites).
Proof.
  intros H0 H1. destruct composites_ok as (Hes & Hs & Hok). unfold unicode_compose_pair.
  pose proof (Forall2_length _ _ _ Hes) as Hlen. rewrite Hlen. clear Hlen.
  generalize dependent composites. intros es Hes Hs Hok.
  destruct (comp_search_ok es Hes Hs Hok (S (Z.to_nat (zlen es))) c0 c1 0 (zlen es - 1))
    as (ch & Hr & Hin & Hout); [lia..| | |].
  { intros i e Hi. lia. }
  { intros i e Hi. apply lookup_lt_Some in Hi. lia. }
  by exists ch.
Qed.

(** Composing and decomposing pairs. For any two code points
    [unicode_compose_pair] ends, reads inside its tables, and returns a
    composite exactly when the table lists one with this pair, 0 otherwise;
    and every composite it can return decomposes canonically into its pair. *)
Theorem compose_inverts_decompose c0 c1 : 0 <= c0 < 2 ^ 31 → 0 <= c1 < 2 ^ 31 →
  ∃ ch, unicode_compose_pair c0 c1 = Some ch ∧
    (ch = 0 → ∀ ch', (ch', (c0, c1)) ∉ composites) ∧
    (ch ≠ 0 → (ch, (c0, c1)) ∈ composites ∧ unicode_decomp_char ch false = Some (2, [c0; c1])) ∧
    ∀ ch' , (ch', (c0, c1)) ∈ composites → ch' = ch.
Proof.
  intros H0 H1. destruct composites_ok as (_ & Hs & Hok).
  destruct (compose_pair_ok c0 c1 H0 H1) as (ch & Hr & Hout & Hin).
  generalize dependent composites. intros es Hs Hok Hout Hin. exists ch. split_and!; [done|done| |].
  - intros Hne. split; [by apply Hin|]. by apply (composite_range es Hok), Hin.
  - intros ch' Hc. destruct (decide (ch = 0)) as [->|Hne]; [by destruct (Hout eq_refl ch')|].
    specialize (Hin Hne). apply list_elem_of_lookup in Hc as [i Hi], Hin as [j Hj].
    destruct (decide (i = j)) as [->|]; [rewrite Hi in Hj; by injection Hj as ->|].
    assert (pair_lt (c0, c1) (c0, c1) = true) as Hx.
    { destruct (decide (i < j)%nat); [apply (pairs_sorted_lookup es i j _ _ Hs ltac:(lia) Hi Hj)|].
      apply (pairs_sorted_lookup es j i _ _ Hs ltac:(lia) Hj Hi). }
    apply pair_lt_spec in Hx. cbn [fst snd] in Hx. lia.
Qed.

Lemma compose_inverts_decompose_witness :
  ∃ ch, unicode_compose_pair 0x45 0x301 = Some ch ∧
    (ch = 0 → ∀ ch', (ch', (0x45, 0x301)) ∉ composites) ∧
    (ch ≠ 0 → (ch, (0x45, 0x301)) ∈ composites ∧ unicode_decomp_char ch false = Some (2, [0x45; 0x301])) ∧
    ∀ ch', (ch', (0x45, 0x301)) ∈ composites → ch' = ch.
Proof. apply compose_inverts_decompose; lia. Defined.

End Unicode.
