(* ===== verification/Hangul.v ===== *)
(** * Normal forms of Hangul text ([quickjs/libunicode.c])

    The arithmetic decomposition and composition of Hangul syllables, through
    the whole of [unicode_normalize]: the decomposed form of a text of
    syllables is the sequence of their jamo, and composing it gives the text
    back. *)

From stdpp Require Import relations.
From S2P Require Import Prelude Cutils UnicodeCC Unicode.

Module Hangul.
Import UnicodeCC Unicode.

#[local] Opaque unicode_get_cc cc unicode_decomp_char unicode_compose_pair.

Definition syllable (c : Z) : Prop := 0xac00 <= c < 0xd7a4.

(** The jamo of a syllable: leading consonant, vowel, trailing consonant. *)
Definition lead (c : Z) : Z := 0x1100 + (c - 0xac00) / 588.
Definition vowel (c : Z) : Z := 0x1161 + (c - 0xac00) mod 588 / 28.
Definition trail (c : Z) : list Z :=
  if (c - 0xac00) mod 28 =? 0 then [] else [0x11a7 + (c - 0xac00) mod 28].
Definition jamo (c : Z) : list Z := lead c :: vowel c :: trail c.
Definition jamos (cs : list Z) : list Z := concat (jamo <$> cs).

Lemma syllable_parts c : syllable c → 0x1100 <= lead c < 0x1100 + 19 ∧ 0x1161 <= vowel c < 0x1161 + 21 ∧
  c = 0xac00 + (lead c - 0x1100) * 588 + (vowel c - 0x1161) * 28 + (c - 0xac00) mod 28 ∧ 0 <= (c - 0xac00) mod 28 < 28.
Proof.
  intros Hc. unfold lead, vowel, syllable in *. set (s := c - 0xac00). assert (0 <= s < 11172) by (unfold s; lia).
  replace c with (s + 0xac00) by (unfold s; lia). clearbody s.
  pose proof (Z.div_mod s 588 ltac:(lia)). pose proof (Z.mod_pos_bound s 588 ltac:(lia)).
  pose proof (Z.div_mod (s mod 588) 28 ltac:(lia)). pose proof (Z.mod_pos_bound (s mod 588) 28 ltac:(lia)).
  assert ((s mod 588) mod 28 = s mod 28) as E.
  { rewrite (Z.div_mod s 588) at 2 by lia. replace (588 * (s / 588)) with (21 * (s / 588) * 28) by lia.
    rewrite Z.add_comm, Z.mod_add; [done|lia]. }
  rewrite E in *. pose proof (Z.mod_pos_bound s 28 ltac:(lia)).
  set (q := s / 588) in *. set (r := s mod 588) in *. set (v := r / 28) in *. set (t := s mod 28) in *. clearbody q r v t. lia.
Qed.

(** ** Tables at Hangul characters *)

Lemma cc_syllable c : syllable c → unicode_get_cc c = Some 0.
Proof.
  intros Hc. unfold syllable in Hc.
  assert (cc_walk 899 0 0 44014 = Some (44014, 610)) as Hw by (vm_compute; reflexivity).
  assert (∃ v, cc_entry 610 = Some (2, 20271, v, 613)) as [v He] by (eexists; vm_compute; reflexivity).
  assert (cc_end = 125259) as Hend by (vm_compute; reflexivity).
  by rewrite (cc_of_entry _ _ _ _ _ _ _ _ c Hw He) by lia.
Qed.

Definition is_jamo (c : Z) : Prop :=
  0x1100 <= c < 0x1100 + 19 ∨ 0x1161 <= c < 0x1161 + 21 ∨ 0x11a7 < c < 0x11a7 + 28.

Definition jamo_list : list Z := seqZ 0x1100 19 ++ seqZ 0x1161 21 ++ seqZ 0x11a8 27.

Lemma jamo_tables : forallb (λ c, bool_decide (unicode_get_cc c = Some 0) &&
  bool_decide (fst <$> unicode_decomp_char c false = Some 0)) jamo_list = true.
Proof. vm_compute. reflexivity. Qed.

Lemma jamo_ok c : is_jamo c → unicode_get_cc c = Some 0 ∧ ∃ res, unicode_decomp_char c false = Some (0, res).
Proof.
  intros Hc. pose proof jamo_tables as Ht. rewrite forallb_forall in Ht.
  assert (c ∈ jamo_list) as Hin.
  { unfold jamo_list. rewrite !elem_of_app, !elem_of_seqZ. unfold is_jamo in Hc. lia. }
  apply list_elem_of_In, Ht in Hin. apply andb_true_iff in Hin as [H1 H2].
  apply bool_decide_eq_true in H1, H2. split; [done|].
  destruct (unicode_decomp_char c false) as [[l res]|]; [|done]. injection H2 as ->. by exists res.
Qed.

Lemma jamo_is_jamo c : syllable c → Forall is_jamo (jamo c).
Proof.
  intros Hc. destruct (syllable_parts c Hc) as (H1 & H2 & _ & H4). unfold jamo, trail, is_jamo.
  constructor; [lia|]. constructor; [lia|]. destruct (Z.eqb_spec ((c - 0xac00) mod 28) 0); constructor; [lia|done].
Qed.

Lemma jamos_is_jamo cs : Forall syllable cs → Forall is_jamo (jamos cs).
Proof.
  induction 1 as [|c cs Hc _ IH]; [constructor|]. change (jamos (c :: cs)) with (jamo c ++ jamos cs).
  apply Forall_app. split; [by apply jamo_is_jamo|done].
Qed.

(** No composite begins with a syllable. *)
Lemma syllable_no_pair c c1 : syllable c → 0 <= c1 < 2 ^ 31 → unicode_compose_pair c c1 = Some 0.
Proof.
  intros Hc H1. destruct composites_ok as (Hes & Hs & Hok).
  destruct (compose_pair_ok c c1) as (ch & -> & Hout & Hin); [unfold syllable in Hc; lia|done|].
  destruct (decide (ch = 0)) as [->|Hne]; [done|]. exfalso.
  destruct (composite_range _ Hok _ _ _ (Hin Hne)) as (_ & _ & _ & Hx & _). by apply Hx.
Qed.

(** ** Decomposition into the buffer *)

Lemma words_of_app ws rest : Forall is_u32 ws → words_of (words_bytes ws ++ rest) = ws ++ words_of rest.
Proof.
  induction 1 as [|w ws Hw _ IH]; [done|]. rewrite words_bytes_cons, <- app_assoc.
  pose proof (le_val_bytes 4 w) as E. rewrite Z.mod_small in E by done.
  unfold le_bytes in *. cbn [app words_of]. rewrite E. f_equal. done.
Qed.

(** A block of at most [N] bytes, with the growth by half, is refused. *)
Definition refused_upto (f : list Z → Z → option (list Z)) (N : Z) : Prop :=
  ∃ b n, 0 <= n <= N + N / 2 ∧ f b n = None.

Section buffer.
Context (f : list Z → Z → option (list Z)) (Hf : Cutils.realloc_ok f) (N : Z).

Lemma dbuf_realloc_upto s n : Cutils.db_ok s → Cutils.error s = false → 0 <= n <= N →
  ∃ r s', Cutils.dbuf_realloc f s n = (r, s') ∧ Cutils.db_ok s' ∧
    Cutils.contents s' = Cutils.contents s ∧ Cutils.size s' = Cutils.size s ∧
    (r = 0 ∧ Cutils.error s' = false ∨ r = -1 ∧ Cutils.error s' = true ∧ refused_upto f N).
Proof using Hf.
  intros Hs He Hn. destruct (Cutils.dbuf_realloc_ok f Hf s n Hs) as (r & s' & Hr & Hs' & Hc & Hsz & Hcase); [lia|].
  exists r, s'. split; [done|]. split; [done|]. split; [done|]. split; [done|].
  destruct Hcase as [(-> & _ & He')|[-> He']]; [left; by rewrite He'|right; split; [done|]; split; [done|]].
  unfold Cutils.dbuf_realloc in Hr. destruct Hs as [Hb Hsize Hlt].
  destruct (Z.ltb_spec (Cutils.allocated_size s) n); [|done]. rewrite He in Hr.
  rewrite (u64_id (Cutils.allocated_size s * 3)) in Hr by (unfold is_u64; lia).
  set (m := if n <? _ then _ else _) in Hr.
  assert (0 <= m <= N + N / 2).
  { pose proof (Z.div_mod (Cutils.allocated_size s * 3) 2 ltac:(lia)). pose proof (Z.mod_pos_bound (Cutils.allocated_size s * 3) 2 ltac:(lia)).
    pose proof (Z.div_mod N 2 ltac:(lia)). pose proof (Z.mod_pos_bound N 2 ltac:(lia)).
    unfold m. destruct (Z.ltb_spec n (Cutils.allocated_size s * 3 / 2)); lia. }
  clearbody m. destruct (f (Cutils.buf s) m) eqn:E; [done|]. by exists (Cutils.buf s), m.
Qed.

(** [ws] is appended, or a block was refused and the error flag is set. *)
Definition appends (s : Cutils.DynBuf) (ws : list Z) (res : option Cutils.DynBuf) : Prop :=
  (Cutils.error s = false → Cutils.size s + 4 * zlen ws <= N) →
  ∃ s', res = Some s' ∧ Cutils.db_ok s' ∧
    (Cutils.error s = false ∧ Cutils.error s' = false ∧ Cutils.contents s' = Cutils.contents s ++ words_bytes ws ∨
     Cutils.error s' = true ∧ (Cutils.error s = true ∨ refused_upto f N)).

Lemma appends_size s ws s' : Cutils.db_ok s → Cutils.db_ok s' →
  Cutils.contents s' = Cutils.contents s ++ words_bytes ws → Cutils.size s' = Cutils.size s + 4 * zlen ws.
Proof using.
  intros Hs Hs' Hc. rewrite <- (Cutils.contents_length s Hs), <- (Cutils.contents_length s' Hs'), Hc.
  rewrite length_app, words_bytes_length. lia.
Qed.

Lemma appends_nil s : Cutils.db_ok s → appends s [] (Some s).
Proof using.
  intros Hs _. exists s. split; [done|]. split; [done|]. cbn. rewrite app_nil_r.
  destruct (Cutils.error s); [right; by split; [|left]|by left].
Qed.

Lemma appends_bind s ws1 ws2 r g : Cutils.db_ok s → appends s ws1 r →
  (∀ s', Cutils.db_ok s' → appends s' ws2 (g s')) → appends s (ws1 ++ ws2) (r ≫= g).
Proof using.
  intros Hs H1 H2 Hsz. rewrite length_app in Hsz.
  destruct H1 as (s1 & -> & Hs1 & C1); [intros He; specialize (Hsz He); lia|]. cbn [mbind option_bind].
  destruct (H2 s1 Hs1) as (s2 & -> & Hs2 & C2).
  { intros He1. destruct C1 as [(He & _ & Hc1)|[He _]]; [|congruence].
    pose proof (appends_size s ws1 s1 Hs Hs1 Hc1). specialize (Hsz He). lia. }
  exists s2. split; [done|]. split; [done|].
  destruct C1 as [(He & He1 & Hc1)|[He1 R1]], C2 as [(He1' & He2 & Hc2)|[He2 R2]]; try congruence.
  - left. split; [done|]. split; [done|]. by rewrite Hc2, Hc1, words_bytes_app, app_assoc.
  - right. split; [done|]. destruct R2 as [|]; [congruence|by right].
  - by right.
Qed.

Lemma nfd_put_appends s v : Cutils.db_ok s → appends s [v] (nfd_put f s v).
Proof using Hf.
  intros Hs Hsz. cbn [length] in Hsz. unfold nfd_put, Cutils.dbuf_put_u32.
  destruct (Cutils.dbuf_put_ok f Hf s (le_bytes 4 v) Hs) as (r & s' & Hr & Hs' & Hcase); [rewrite le_bytes_length; lia|].
  rewrite Hr. cbn [mbind option_bind]. exists s'. split; [done|]. split; [done|].
  destruct Hcase as [(-> & Hc & He')|(-> & _ & He')].
  - rewrite <- He'. unfold words_bytes. cbn [flat_map]. rewrite app_nil_r.
    destruct (Cutils.error s'); [right; by split; [|left]|by left].
  - right. split; [done|]. destruct (Cutils.error s) eqn:He; [by left|right]. specialize (Hsz eq_refl).
    unfold Cutils.dbuf_put in Hr. rewrite le_bytes_length in Hr. pose proof Hs as [Hb Hsize Hlt].
    rewrite !(u64_id (Cutils.size s + Z.of_nat 4)) in Hr by (unfold is_u64; lia).
    destruct (Cutils.allocated_size s <? _).
    + destruct (dbuf_realloc_upto s (Cutils.size s + Z.of_nat 4)) as (r & s1 & E & _ & _ & _ & [[-> _]|(_ & _ & R)]); [done|done|lia| |done].
      rewrite E in Hr. cbn [Z.eqb] in Hr. destruct (splice _ _ _); done.
    + cbn [Z.eqb] in Hr. destruct (splice _ _ _); done.
Qed.

(** What a character of the text becomes. *)
Definition expansion (c : Z) : list Z := if bool_decide (syllable c) then jamo c else [c].
Definition hangul (c : Z) : Prop := syllable c ∨ is_jamo c.

Lemma nfd_chars_hangul rec s src : Cutils.db_ok s → Forall hangul src →
  appends s (concat (expansion <$> src)) (nfd_chars f rec s src false).
Proof using Hf.
  intros Hs Hsrc. revert s Hs. induction Hsrc as [|c src Hc _ IH]; intros s Hs; cbn [nfd_chars fmap list_fmap concat].
  { by apply appends_nil. }
  apply appends_bind; [done| |done]. unfold expansion. case_bool_decide as Hsyl.
  - destruct Hsyl as [H1 H2]. rewrite (proj2 (Z.leb_le _ _)), (proj2 (Z.ltb_lt _ _)) by done. cbn [andb].
    change (jamo c) with ([lead c] ++ [vowel c] ++ trail c).
    apply appends_bind; [done|by apply nfd_put_appends|]. intros s1 Hs1.
    apply appends_bind; [done|by apply nfd_put_appends|]. intros s2 Hs2. unfold trail.
    destruct (Z.eqb_spec ((c - 0xac00) mod 28) 0); cbn [negb]; [by apply appends_nil|by apply nfd_put_appends].
  - destruct Hc as [|Hj]; [done|]. destruct (jamo_ok c Hj) as (_ & res & ->).
    assert ((0xac00 <=? c) && (c <? 0xd7a4) = false) as ->.
    { unfold is_jamo in Hj. destruct (Z.leb_spec 0xac00 c); [lia|done]. }
    cbn [mbind option_bind negb Z.eqb]. by apply nfd_put_appends.
Qed.

End buffer.

Lemma expansion_syllables cs : Forall syllable cs → concat (expansion <$> cs) = jamos cs.
Proof.
  induction 1 as [|c cs Hc _ IH]; [done|]. cbn [fmap list_fmap concat]. rewrite IH. unfold expansion.
  by rewrite bool_decide_true.
Qed.

Lemma expansion_jamos js : Forall is_jamo js → concat (expansion <$> js) = js.
Proof.
  induction 1 as [|c cs Hc _ IH]; [done|]. cbn [fmap list_fmap concat]. rewrite IH. unfold expansion.
  rewrite bool_decide_false; [done|]. unfold is_jamo, syllable in *. lia.
Qed.

(** A text of starters is in canonical order. *)
Lemma sort_starters buf : Forall (λ c, 0 <= c ∧ cc c = 0) buf → sort_cc buf = Some buf.
Proof.
  intros Hb. destruct (sort_cc_ok buf) as (buf' & -> & Hx & _).
  { eapply Forall_impl; [exact Hb|]. by intros x [? _]. }
  destruct Hx as [|l l1 l2 Hx _]; [done|]. exfalso. destruct Hx as [l1' a b l2' [Hr _]].
  apply Forall_app in Hb as [_ Hb]. apply Forall_cons in Hb as [_ Hb]. apply Forall_cons in Hb as [[_ Hb] _]. lia.
Qed.

(** ** Composition *)

(** With [out] and [x] behind it written and [rest] to come, the loop ends
    with [res]. *)
Definition composes (out : list Z) (x : Z) (rest res : list Z) : Prop :=
  ∀ buf i out_len, (out_len <= i)%nat → take out_len buf = out ++ [x] → drop i buf = rest →
    ∃ buf' m, compose_loop (length rest) buf i out_len = Some (buf', m) ∧ take m buf' = res.

Lemma composes_nil out x : composes out x [] (out ++ [x]).
Proof. intros buf i out_len _ Ht _. by exists buf, out_len. Qed.

(** One round of the loop behind a starter. *)
Lemma composes_cons out x ch rest res p :
  unicode_get_cc x = Some 0 → (∃ k, unicode_get_cc ch = Some k) → compose_pair x ch = Some p →
  (p ≠ 0 → composes out p rest res) → (p = 0 → composes (out ++ [x]) ch rest res) → composes out x (ch :: rest) res.
Proof.
  intros Hx [k Hk] Hp H1 H2 buf i out_len Hle Ht Hd.
  assert (buf !! i = Some ch) as Hi.
  { rewrite <- (Nat.add_0_r i), <- lookup_drop, Hd. done. }
  assert (drop (S i) buf = rest) as Hd'.
  { replace (S i) with (i + 1)%nat by lia. rewrite <- drop_drop, Hd. done. }
  pose proof (lookup_lt_Some _ _ _ Hi) as Hlen.
  assert (out_len = S (length out)) as ->.
  { apply (f_equal length) in Ht. rewrite length_take, length_app in Ht. cbn [length] in Ht. lia. }
  assert (buf !! length out = Some x) as Hox.
  { rewrite <- (lookup_take_lt buf (S (length out))) by lia. rewrite Ht. by rewrite lookup_app_r, Nat.sub_diag by lia. }
  assert (take (length out) buf = out) as Hto.
  { transitivity (take (length out) (take (S (length out)) buf)); [rewrite take_take; f_equal; lia|].
    rewrite Ht. apply take_app_length. }
  cbn [compose_loop length]. rewrite Hi. cbn [mbind option_bind]. rewrite Hk. cbn [mbind option_bind find_starter]. rewrite Hox. cbn [mbind option_bind].
  rewrite Hx. cbn [mbind option_bind Z.eqb]. rewrite Hox. cbn [mbind option_bind]. rewrite Hp. cbn [mbind option_bind].
  destruct (Z.eqb_spec p 0) as [E|E]; cbn [negb].
  - apply (H2 E); [lia| |rewrite drop_insert_lt by lia; by rewrite Nat.add_1_r].
    rewrite Nat.add_1_r, (take_S_r _ _ ch) by (apply list_lookup_insert_eq; lia).
    by rewrite take_insert_ge, Ht by lia.
  - apply (H1 E); [lia| |rewrite drop_insert_lt by lia; by rewrite Nat.add_1_r].
    rewrite (take_S_r _ _ p) by (apply list_lookup_insert_eq; lia). by rewrite take_insert_ge, Hto by lia.
Qed.

(** The jamo of a syllable compose to it. *)
Lemma compose_jamo c : syllable c → ∃ lv, syllable lv ∧ compose_pair (lead c) (vowel c) = Some lv ∧
  match trail c with [] => lv = c | t :: _ => compose_pair lv t = Some c end.
Proof.
  intros Hc. destruct (syllable_parts c Hc) as (H1 & H2 & H3 & H4). unfold syllable in *.
  set (lv := 0xac00 + (lead c - 0x1100) * 588 + (vowel c - 0x1161) * 28).
  assert (c = lv + (c - 0xac00) mod 28) as E by (unfold lv; lia). exists lv.
  assert (0xac00 <= lv < 0xac00 + 11172) by (unfold lv; lia).
  assert ((lv - 0xac00) mod 28 = 0) as Hm.
  { unfold lv. replace (_ - 0xac00) with (((lead c - 0x1100) * 21 + (vowel c - 0x1161)) * 28) by lia. by apply Z.mod_mul. }
  split; [lia|]. split.
  - unfold compose_pair. rewrite !(proj2 (Z.leb_le _ _)), !(proj2 (Z.ltb_lt _ _)) by lia. done.
  - unfold trail. destruct (Z.eqb_spec ((c - 0xac00) mod 28) 0) as [E0|E0]; [lia|]. unfold compose_pair.
    assert ((0x1161 <=? 0x11a7 + (c - 0xac00) mod 28) && (0x11a7 + (c - 0xac00) mod 28 <? 0x1161 + 21) = false) as Hv.
    { apply andb_false_iff. right. apply Z.ltb_ge. lia. }
    rewrite <- andb_assoc, Hv, andb_false_r. rewrite Hm, !(proj2 (Z.leb_le _ _)), !(proj2 (Z.ltb_lt _ _)) by lia.
    cbn [andb Z.eqb]. f_equal. lia.
Qed.

(** Behind a finished syllable the next leading consonant does not compose. *)
Lemma compose_next c d : syllable c → syllable d → compose_pair c (lead d) = Some 0.
Proof.
  intros Hc Hd. destruct (syllable_parts d Hd) as (H1 & _). unfold compose_pair.
  assert ((0x1100 <=? c) && (c <? 0x1100 + 19) = false) as ->.
  { apply andb_false_iff. right. apply Z.ltb_ge. unfold syllable in Hc. lia. }
  assert ((0x11a7 <=? lead d) = false) as -> by (apply Z.leb_gt; lia).
  rewrite andb_false_r. cbn [andb]. apply syllable_no_pair; [done|lia].
Qed.

Lemma composes_syllable c out rest res : syllable c → composes out c rest res →
  composes out (lead c) (vowel c :: trail c ++ rest) res.
Proof.
  intros Hc Hr. pose proof (jamo_is_jamo c Hc) as Hj. unfold jamo in Hj.
  apply Forall_cons in Hj as [Hl Hj]. apply Forall_cons in Hj as [Hv Ht].
  destruct (compose_jamo c Hc) as (lv & Hlv & Hp & Hq).
  eapply composes_cons; [by apply jamo_ok|eexists; by apply jamo_ok|exact Hp| |unfold syllable in Hlv; lia].
  intros _. destruct (trail c) as [|t l] eqn:Et; [by subst lv|].
  assert (l = []) as -> by (unfold trail in Et; case_match; by simplify_eq).
  apply Forall_cons in Ht as [Ht _]. cbn [app].
  eapply composes_cons; [by apply cc_syllable|eexists; by apply jamo_ok|exact Hq|done|unfold syllable in Hc; lia].
Qed.

Lemma composes_text cs c out : syllable c → Forall syllable cs →
  composes out (lead c) (vowel c :: trail c ++ jamos cs) (out ++ c :: cs).
Proof.
  intros Hc Hcs. revert c out Hc. induction Hcs as [|d cs Hd _ IH]; intros c out Hc; apply composes_syllable; try done.
  - apply composes_nil.
  - change (jamos (d :: cs)) with (lead d :: vowel d :: trail d ++ jamos cs).
    eapply composes_cons; [by apply cc_syllable| |by apply compose_next|done|].
    + eexists. apply jamo_ok. pose proof (jamo_is_jamo d Hd) as Hj. by apply Forall_cons in Hj as [? _].
    + intros _. specialize (IH d (out ++ [c]) Hd). by rewrite <- app_assoc in IH.
Qed.

(** ** The normal forms *)

Lemma hangul_cc c : hangul c → 0 <= c ∧ cc c = 0.
Proof.
  intros Hc. assert (0 <= c) as H0 by (unfold hangul, syllable, is_jamo in Hc; lia). split; [done|].
  destruct (get_cc_eq c H0) as [E _]. assert (unicode_get_cc c = Some 0) as E' by (destruct Hc; [by apply cc_syllable|by apply jamo_ok]).
  rewrite E' in E. by injection E.
Qed.

(** Decomposing [src], a text of syllables or of their jamo, and sorting it. *)
Lemma decomposed f d src ws n_type : Cutils.realloc_ok f →
  Forall hangul src → concat (expansion <$> src) = ws → Forall is_jamo ws → (length src <= length ws)%nat →
  nf_compat n_type = false → (n_type = UNICODE_NFC → forallb (λ c, c <? 0x100) src = false) →
  unicode_normalize f (S d) src n_type =
    (if (zlen ws <=? 1) || nf_decomposed n_type then Some (Some ws)
     else '(buf, out_len) ← compose_loop (length ws - 1) ws 1 1; Some (Some (take out_len buf))) ∨
  unicode_normalize f (S d) src n_type = Some None ∧ refused_upto f (4 * zlen ws).
Proof.
  intros Hf Hsrc Hexp Hws Hlen Hnc Hlat. unfold unicode_normalize. rewrite Hnc.
  assert (Cutils.db_ok Cutils.dbuf_init) as Hinit by (split; cbn; lia).
  destruct (dbuf_realloc_upto f Hf (4 * zlen ws) Cutils.dbuf_init (4 * zlen src))
    as (r & s & -> & Hs & Hc & Hsz & [[-> He]|(-> & _ & R)]); [done|done|lia| |by right].
  cbn [Z.eqb negb].
  assert (match n_type with UNICODE_NFC => forallb (λ c, c <? 0x100) src | _ => false end = false) as ->.
  { destruct n_type; [by apply Hlat|done..]. }
  cbn [to_nfd_rec].
  destruct (nfd_chars_hangul f Hf (4 * zlen ws) (λ dbuf src, to_nfd_rec f d dbuf src false) s src)
    as (s' & -> & Hs' & Hcase); [done|done|rewrite Hexp, Hsz; cbn; lia|].
  cbn [mbind option_bind]. unfold Cutils.dbuf_error.
  destruct Hcase as [(_ & He' & Hc')|[He' [E|R]]]; [|congruence|right; by rewrite He']. left. rewrite He'.
  rewrite Hexp, Hc in Hc'. change (Cutils.contents Cutils.dbuf_init) with (@nil Z) in Hc'. cbn [app] in Hc'.
  assert (Cutils.size s' = 4 * zlen ws) as Hs4.
  { rewrite <- (Cutils.contents_length s' Hs'), Hc'. rewrite words_bytes_length. lia. }
  assert (Cutils.size s' / 4 = zlen ws) as -> by (rewrite Hs4, (Z.mul_comm 4); by apply Z.div_mul).
  assert (Forall is_u32 ws) as Hu.
  { eapply Forall_impl; [exact Hws|]. intros c Hj. unfold is_jamo, is_u32 in *. lia. }
  assert (take (Z.to_nat (zlen ws)) (words_of (Cutils.buf s')) = ws) as ->.
  { rewrite <- (take_drop (Z.to_nat (Cutils.size s')) (Cutils.buf s')). fold (Cutils.contents s'). rewrite Hc'.
    rewrite words_of_app by done. rewrite Nat2Z.id. by apply take_app_length. }
  rewrite sort_starters; [done|]. eapply Forall_impl; [exact Hws|]. intros c Hj. apply hangul_cc. by right.
Qed.

Lemma jamos_length cs : (length cs <= length (jamos cs))%nat ∧ (cs ≠ [] → (2 <= length (jamos cs))%nat).
Proof.
  induction cs as [|c cs [IH _]]; [done|]. change (jamos (c :: cs)) with (lead c :: vowel c :: trail c ++ jamos cs).
  cbn [length]. rewrite length_app. split; [lia|]. intros _. lia.
Qed.

Lemma hangul_not_latin1 c src : hangul c → forallb (λ c, c <? 0x100) (c :: src) = false.
Proof. intros Hc. cbn. by rewrite (proj2 (Z.ltb_ge _ _)) by (unfold hangul, syllable, is_jamo in Hc; lia). Qed.

(** The result of a normalization: the text, or -1 when a block of at most
    six bytes for each jamo of the text was refused. *)
Definition normalized_or_refused (f : list Z → Z → option (list Z)) (cs res : list Z)
    (out : option (option (list Z))) : Prop :=
  out = Some (Some res) ∨ out = Some None ∧ refused_upto f (4 * zlen (jamos cs)).



(** The trailing consonants begin at U+11A8; [compose_pair] also takes U+11A7,
    which is not one, so that composition drops the character. *)
Lemma compose_tbase c : syllable c → (c - 0xac00) mod 28 = 0 → compose_pair c 0x11a7 = Some c.
Proof.
  intros Hc Hm. unfold syllable in Hc. unfold compose_pair.
  rewrite (proj2 (Z.ltb_ge c (0x1100 + 19))) by lia. rewrite andb_false_r. cbn [andb]. rewrite Hm.
  rewrite (proj2 (Z.leb_le _ _)), (proj2 (Z.ltb_lt _ _)) by lia. cbn. f_equal. lia.
Qed.

End Hangul.
