(* ===== verification/JsSocket.v ===== *)
(** * The script socket: wire format and client loop ([js_socket_server.cpp])

    Base64 decoding, the JSON helpers and [handle_client], which cuts the byte
    stream of a connection into lines, evaluates each line and answers it. The
    evaluator ([JSEngine::GetContext], [JSEngine::LoadScript]) is a parameter;
    what the connection delivers is a list of [recv] results. [None] is an
    access outside an array or an exhausted loop bound. *)

From Stdlib Require Import (notations) String.
From S2P Require Import Prelude Bytes CNumber.

Module JsSocket.

(** ** Base64 *)

Definition kB64Table : list Z :=
  lit "ABCDEFGHIJKLMNOPQRSTUVWXYZabcdefghijklmnopqrstuvwxyz0123456789+/".

(** [int T[256]] after its initialisation: [-1] but for the alphabet and
    ['=']. *)
Definition b64_T : list Z :=
  <[61%nat := 0]>
    (foldl (λ T ic, <[Z.to_nat ic.2 := ic.1]> T) (replicate 256 (-1))
       (zip (seqZ 0 64) kB64Table)).

(** [val] and [valb] are [int]s; shifts of negative values are the two's
    complement ones (C++20). *)
Fixpoint b64_loop (inp : list Z) (val valb : Z) (out : list Z) : option (list Z) :=
  match inp with
  | [] => Some out
  | c :: inp =>
      t ← aget b64_T c;
      if t =? -1 then Some out
      else
        let val := s32 (val << 6) .| t in
        let valb := valb + 6 in
        if 0 <=? valb
        then b64_loop inp val (valb - 8) (out ++ [(val >> valb) .& 0xFF])
        else b64_loop inp val valb out
  end.

Definition b64_decode (inp : list Z) : option (list Z) := b64_loop inp 0 (-8) [].

(** ** JSON *)

Definition quoted (s : list Z) : list Z := [34] ++ s ++ [34].

(** Empty when the key, the colon or one of the quotes is missing. *)
Definition json_get_string (json key : list Z) : list Z :=
  let needle := quoted key in
  default []
    (ki ← index_sub needle json;
     colon ← find_char json 58 (ki + length needle);
     q1 ← find_char json 34 (colon + 1);
     q2 ← find_char json 34 (q1 + 1);
     Some (take (q2 - q1 - 1) (drop (q1 + 1) json))).

(** [snprintf("\\u%04x", c)]. *)
Definition u_escape (c : Z) : list Z :=
  [92; 117; hex_char (c / 4096 mod 16); hex_char (c / 256 mod 16);
   hex_char (c / 16 mod 16); hex_char (c mod 16)].

Definition escape_char (c : Z) : list Z :=
  if c =? 34 then [92; 34]
  else if c =? 92 then [92; 92]
  else if c =? 10 then [92; 110]
  else if c =? 13 then [92; 114]
  else if c =? 9 then [92; 116]
  else if c <? 0x20 then u_escape c
  else [c].

Definition json_escape (s : list Z) : list Z := [34] ++ concat (escape_char <$> s) ++ [34].

(** ** A client connection *)

(** The script of a message: the decoded ["data"] of a ["script"] message, or
    the message itself. *)
Definition select_script (msg : list Z) : option (list Z) :=
  script ←
    match index_sub (quoted (lit "script")) msg with
    | Some _ =>
        let b64 := json_get_string msg (lit "data") in
        match b64 with [] => Some [] | _ => b64_decode b64 end
    | None => Some []
    end;
  Some (match script with [] => msg | _ => script end).

Definition response (result : list Z) : list Z :=
  lit "{" ++ quoted (lit "type") ++ lit ":" ++ quoted (lit "result") ++ lit "," ++
  quoted (lit "value") ++ lit ":" ++ json_escape result ++ lit "}" ++ [10].

Section Client.
Context {E : Type} (GetContext : E → bool) (LoadScript : E → list Z → E * list Z).

(** One line; the second component is what is sent. *)
Definition handle_msg (e : E) (msg : list Z) : option (E * list (list Z)) :=
  match msg with
  | [] => Some (e, [])
  | _ =>
      if negb (GetContext e) then Some (e, [])
      else
        script ← select_script msg;
        let '(e, result) := LoadScript e script in
        Some (e, [response result])
  end.

(** [while ((pos = line.find('\n')) != npos)]. *)
Fixpoint drain (fuel : nat) (e : E) (line : list Z) (sent : list (list Z)) :
    option (E * list Z * list (list Z)) :=
  match fuel with
  | O => None
  | S fuel =>
      match index_of 10 line with
      | None => Some (e, line, sent)
      | Some pos =>
          let msg := take pos line in
          let line := drop (S pos) line in
          '(e, out) ← handle_msg e msg;
          drain fuel e line (sent ++ out)
      end
  end.

(** Each event is the value of [g_running] at the loop test and what [recv]
    then returns; the empty list is a closed or failed connection. The list is
    exhausted while the thread waits in [recv]. *)
Fixpoint client_loop (evs : list (bool * list Z)) (e : E) (line : list Z)
    (sent : list (list Z)) : option (E * list Z * list (list Z)) :=
  match evs with
  | [] => Some (e, line, sent)
  | (running, buf) :: evs =>
      if negb running then Some (e, line, sent)
      else match buf with
           | [] => Some (e, line, sent)
           | _ =>
               let line := line ++ c_str buf in
               '(e, line, sent) ← drain (S (length line)) e line sent;
               client_loop evs e line sent
           end
  end.

Definition handle_client (evs : list (bool * list Z)) (e : E) :
    option (E * list Z * list (list Z)) :=
  client_loop evs e [] [].

End Client.

(** ** Base64 facts *)

(** The RFC 4648 encoder, with or without padding. *)
Definition b64_char (d : Z) : Z := default 0 (kB64Table !! Z.to_nat d).

Fixpoint b64_encode (pad : bool) (bs : list Z) : list Z :=
  match bs with
  | [] => []
  | [b1] =>
      [b64_char (b1 / 4); b64_char (b1 mod 4 * 16)] ++ (if pad then [61; 61] else [])
  | [b1; b2] =>
      [b64_char (b1 / 4); b64_char (b1 mod 4 * 16 + b2 / 16); b64_char (b2 mod 16 * 4)] ++
      (if pad then [61] else [])
  | b1 :: b2 :: b3 :: bs =>
      [b64_char (b1 / 4); b64_char (b1 mod 4 * 16 + b2 / 16);
       b64_char (b2 mod 16 * 4 + b3 / 64); b64_char (b3 mod 64)] ++ b64_encode pad bs
  end.

(** The number of ['='] characters. *)
Definition pad_len (bs : list Z) : nat := ((3 - length bs mod 3) mod 3)%nat.

Lemma b64_T_char d : 0 <= d < 64 → aget b64_T (b64_char d) = Some d.
Proof.
  intros Hd.
  assert (forallb (λ d, bool_decide (aget b64_T (b64_char d) = Some d)) (seqZ 0 64) = true)
    as H by (vm_compute; reflexivity).
  rewrite forallb_forall in H. apply (bool_decide_unpack _), Is_true_true_2, H.
  apply list_elem_of_In, elem_of_seqZ. lia.
Qed.

Lemma b64_T_pad : aget b64_T 61 = Some 0.
Proof. vm_compute. reflexivity. Qed.

(** [valb + 8] low bits of [val] are pending. *)
Lemma b64_val v t k : 0 <= t < 64 → 0 <= k <= 26 →
  (s32 (v << 6) .| t) mod 2 ^ (k + 6) = v mod 2 ^ k * 64 + t.
Proof.
  intros Ht Hk. rewrite Z.shiftl_mul_pow2 by lia.
  assert (∃ w, s32 (v * 2 ^ 6) = w * 2 ^ 6 ∧ w mod 2 ^ 26 = v mod 2 ^ 26) as (w & -> & Hw).
  { unfold s32, u32. case_cmp.
    - exists (v mod 2 ^ 26). rewrite Zmod_mod. zmod_lia.
    - exists (v mod 2 ^ 26 - 2 ^ 26). zmod_lia. }
  rewrite lor_low_high by lia. rewrite Z.add_comm, (Z.mul_comm _ (2 ^ 6)).
  rewrite (Z.add_comm k), Z.pow_add_r by lia.
  rewrite Z.rem_mul_r by (try apply Z.pow_pos_nonneg; lia).
  rewrite (Z.mul_comm (2 ^ 6) w), Z.mod_add, Z.div_add by lia.
  rewrite Z.mod_small, Z.div_small by lia. rewrite Z.add_0_l.
  assert (w mod 2 ^ k = v mod 2 ^ k) as ->; [|lia].
  assert (∀ x, x mod 2 ^ k = (x mod 2 ^ 26) mod 2 ^ k) as E; [|by rewrite E, Hw, <- E].
  intros x. symmetry. apply Z.mod_mod_divide. exists (2 ^ (26 - k)).
  rewrite <- Z.pow_add_r by lia. f_equal. lia.
Qed.

(** One character: [k] bits of [val] are pending before it. *)
Lemma b64_step c t inp v k out : aget b64_T c = Some t → 0 <= t < 64 → 0 <= k <= 8 →
  let w := s32 (v << 6) .| t in
  b64_loop (c :: inp) v (k - 8) out =
    if k + 6 <? 8 then b64_loop inp w (k + 6 - 8) out
    else b64_loop inp w (k + 6 - 8 - 8) (out ++ [(v mod 2 ^ k * 64 + t) / 2 ^ (k - 2)]).
Proof.
  intros Hc Ht Hk w. cbn [b64_loop]. rewrite Hc. cbn [mbind option_bind].
  destruct (Z.eqb_spec t (-1)); [lia|].
  replace (k - 8 + 6) with (k + 6 - 8) by lia.
  destruct (Z.ltb_spec (k + 6) 8), (Z.leb_spec 0 (k + 6 - 8)); try lia; [done|].
  fold w. do 3 f_equal. rewrite <- b64_val by lia. fold w.
  change 0xFF with (2 ^ 8 - 1). rewrite land_ones_mod, Z.shiftr_div_pow2 by lia.
  replace (k + 6 - 8) with (k - 2) by lia. replace (k + 6) with (k - 2 + 8) by lia.
  rewrite Z.pow_add_r, Z.rem_mul_r by (try apply Z.pow_pos_nonneg; lia).
  rewrite Z.add_comm, Z.mul_comm, Z.div_add_l by (apply Z.pow_nonzero; lia).
  rewrite (Z.div_small (w mod _)) by (apply Z.mod_pos_bound, Z.pow_pos_nonneg; lia). lia.
Qed.

Lemma b64_next c t inp v k acc out : aget b64_T c = Some t → 0 <= t < 64 →
  k = 0 ∨ 2 <= k <= 6 → v mod 2 ^ k = acc →
  ∃ w, b64_loop (c :: inp) v (k - 8) out =
         (if k =? 0 then b64_loop inp w (6 - 8) out
          else b64_loop inp w (k - 2 - 8) (out ++ [(acc * 64 + t) / 2 ^ (k - 2)])) ∧
       w mod 2 ^ (if k =? 0 then 6 else k - 2) =
         (acc * 64 + t) mod 2 ^ (if k =? 0 then 6 else k - 2).
Proof.
  intros Hc Ht Hk Hv. exists (s32 (v << 6) .| t).
  rewrite (b64_step c t) by (done || lia). subst acc. rewrite <- b64_val by lia.
  destruct (Z.ltb_spec (k + 6) 8), (Z.eqb_spec k 0); try lia.
  - subst k. split; [done|]. by rewrite Zmod_mod.
  - split; [by replace (k + 6 - 8 - 8) with (k - 2 - 8) by lia|].
    symmetry. apply Z.mod_mod_divide. exists (2 ^ 8). rewrite <- Z.pow_add_r by lia.
    f_equal. lia.
Qed.

(** The four positions of a character in its group. *)
Lemma b64_0 c t inp v out : aget b64_T c = Some t → 0 <= t < 64 →
  ∃ w, b64_loop (c :: inp) v (-8) out = b64_loop inp w (-2) out ∧ w mod 2 ^ 6 = t.
Proof.
  intros Hc Ht. destruct (b64_next c t inp v 0 0 out) as (w & E & Hw); [done..|lia| |].
  - apply Z.mod_1_r.
  - exists w. split; [exact E|]. cbn [Z.eqb] in Hw. rewrite Hw. apply Z.mod_small. lia.
Qed.

Lemma b64_6 c t inp v acc out : aget b64_T c = Some t → 0 <= t < 64 → v mod 2 ^ 6 = acc →
  ∃ w, b64_loop (c :: inp) v (-2) out = b64_loop inp w (-4) (out ++ [(acc * 64 + t) / 16]) ∧
       w mod 2 ^ 4 = (acc * 64 + t) mod 16.
Proof. intros Hc Ht Hv. by apply (b64_next c t inp v 6 acc out); [| |lia|]. Qed.

Lemma b64_4 c t inp v acc out : aget b64_T c = Some t → 0 <= t < 64 → v mod 2 ^ 4 = acc →
  ∃ w, b64_loop (c :: inp) v (-4) out = b64_loop inp w (-6) (out ++ [(acc * 64 + t) / 4]) ∧
       w mod 2 ^ 2 = (acc * 64 + t) mod 4.
Proof. intros Hc Ht Hv. by apply (b64_next c t inp v 4 acc out); [| |lia|]. Qed.

Lemma b64_2 c t inp v acc out : aget b64_T c = Some t → 0 <= t < 64 → v mod 2 ^ 2 = acc →
  ∃ w, b64_loop (c :: inp) v (-6) out = b64_loop inp w (-8) (out ++ [acc * 64 + t]).
Proof.
  intros Hc Ht Hv. destruct (b64_next c t inp v 2 acc out) as (w & E & _); [done..|lia|done|].
  exists w. etransitivity; [exact E|]. change (2 =? 0) with false. cbn iota.
  by rewrite Z.div_1_r.
Qed.

(** Feed one character whose table entry is known. *)
Ltac b64_entry c := lazymatch c with b64_char ?d => d | _ => constr:(0) end.
Ltac b64_feed :=
  let w := fresh "w" in let E := fresh "E" in let Hw := fresh "Hw" in
  lazymatch goal with
  | |- b64_loop (?c :: ?inp) ?v (-8) ?out = _ =>
      let t := b64_entry c in destruct (b64_0 c t inp v out) as (w & E & Hw)
  | Hv : ?v mod 2 ^ 6 = ?acc |- b64_loop (?c :: ?inp) ?v (-2) ?out = _ =>
      let t := b64_entry c in
      destruct (b64_6 c t inp v acc out) as (w & E & Hw); [| |exact Hv|]
  | Hv : ?v mod 2 ^ 4 = ?acc |- b64_loop (?c :: ?inp) ?v (-4) ?out = _ =>
      let t := b64_entry c in
      destruct (b64_4 c t inp v acc out) as (w & E & Hw); [| |exact Hv|]
  | Hv : ?v mod 2 ^ 2 = ?acc |- b64_loop (?c :: ?inp) ?v (-6) ?out = _ =>
      let t := b64_entry c in
      destruct (b64_2 c t inp v acc out) as (w & E); [| |exact Hv|]
  end;
  [first [apply b64_T_pad | apply b64_T_char; zmod_lia]|zmod_lia|rewrite E; clear E].

Lemma b64_loop_encode pad bs v out : Forall is_u8 bs →
  b64_loop (b64_encode pad bs) v (-8) out =
    Some (out ++ bs ++ (if pad then replicate (pad_len bs) 0 else [])).
Proof.
  remember (length bs) as n eqn:Hn. revert bs v out Hn.
  induction n as [n IH] using lt_wf_ind. intros bs v out Hn Hb.
  destruct bs as [|b1 [|b2 [|b3 bs]]]; repeat (apply Forall_cons in Hb as [? Hb]).
  - cbn. destruct pad; by rewrite app_nil_r.
  - cbn [b64_encode app]. b64_feed. b64_feed. destruct pad; cbn [app].
    + b64_feed. b64_feed. cbn [b64_loop]. rewrite <- !app_assoc. cbn.
      repeat f_equal; zmod_lia.
    + cbn [b64_loop]. repeat f_equal. zmod_lia.
  - cbn [b64_encode app]. b64_feed. b64_feed. b64_feed. destruct pad; cbn [app].
    + b64_feed. cbn [b64_loop]. rewrite <- !app_assoc. cbn. repeat f_equal; zmod_lia.
    + cbn [b64_loop]. rewrite <- !app_assoc. cbn. repeat f_equal; zmod_lia.
  - cbn [b64_encode app]. b64_feed. b64_feed. b64_feed. b64_feed.
    rewrite (IH (length bs)) by (cbn in Hn; (lia || done)). rewrite <- !app_assoc.
    assert (pad_len (b1 :: b2 :: b3 :: bs) = pad_len bs) as ->.
    { unfold pad_len. cbn [length]. do 2 f_equal.
      replace (S (S (S (length bs)))) with (length bs + 1 * 3)%nat by lia.
      by rewrite Nat.Div0.mod_add. }
    cbn [app]. repeat f_equal; zmod_lia.
Qed.

(** ** JSON strings *)

Definition hex_value (c : Z) : option Z :=
  if (48 <=? c) && (c <=? 57) then Some (c - 48)
  else if (97 <=? c) && (c <=? 102) then Some (c - 87)
  else if (65 <=? c) && (c <=? 70) then Some (c - 55)
  else None.

(** The two-character escapes of RFC 8259. *)
Definition simple_escape (c : Z) : option Z :=
  if c =? 34 then Some 34 else if c =? 92 then Some 92 else if c =? 47 then Some 47
  else if c =? 98 then Some 8 else if c =? 102 then Some 12 else if c =? 110 then Some 10
  else if c =? 114 then Some 13 else if c =? 116 then Some 9 else None.

(** Reading a JSON string whose opening quote has been read: its contents and
    what follows the closing quote. Control characters are not allowed. *)
Fixpoint json_read (l : list Z) : option (list Z * list Z) :=
  match l with
  | [] => None
  | c :: l =>
      if c =? 34 then Some ([], l)
      else if c =? 92 then
        match l with
        | e :: l' =>
            if e =? 117 then
              match l' with
              | h1 :: h2 :: h3 :: h4 :: l'' =>
                  a ← hex_value h1; b ← hex_value h2; c ← hex_value h3; d ← hex_value h4;
                  '(s, r) ← json_read l''; Some (4096 * a + 256 * b + 16 * c + d :: s, r)
              | _ => None
              end
            else v ← simple_escape e; '(s, r) ← json_read l'; Some (v :: s, r)
        | [] => None
        end
      else if c <? 0x20 then None
      else '(s, r) ← json_read l; Some (c :: s, r)
  end.

Lemma hex_value_char d : 0 <= d < 16 → hex_value (hex_char d) = Some d.
Proof.
  intros. unfold hex_value, hex_char. case_cmp; cbn [andb]; f_equal; lia.
Qed.

Lemma json_read_u c l s r : 0 <= c < 32 → json_read l = Some (s, r) →
  json_read (u_escape c ++ l) = Some (c :: s, r).
Proof.
  intros Hc Hl. cbn [u_escape app json_read]. change (92 =? 34) with false.
  change (92 =? 92) with true. change (117 =? 117) with true. cbn iota.
  rewrite !hex_value_char by zmod_lia. cbn [mbind option_bind]. rewrite Hl.
  cbn [mbind option_bind]. repeat f_equal. zmod_lia.
Qed.

Lemma json_read_escape c l s r : is_u8 c → json_read l = Some (s, r) →
  json_read (escape_char c ++ l) = Some (c :: s, r).
Proof.
  intros Hc Hl. unfold escape_char.
  destruct (Z.eqb_spec c 34) as [->|H1]; [cbn; by rewrite Hl|].
  destruct (Z.eqb_spec c 92) as [->|H2]; [cbn; by rewrite Hl|].
  destruct (Z.eqb_spec c 10) as [->|H3]; [cbn; by rewrite Hl|].
  destruct (Z.eqb_spec c 13) as [->|H4]; [cbn; by rewrite Hl|].
  destruct (Z.eqb_spec c 9) as [->|H5]; [cbn; by rewrite Hl|].
  destruct (Z.ltb_spec c 32).
  - apply json_read_u; [unfold is_u8 in Hc; lia|done].
  - cbn [app json_read]. destruct (Z.eqb_spec c 34), (Z.eqb_spec c 92), (Z.ltb_spec c 0x20);
      try lia. by rewrite Hl.
Qed.

Lemma escape_printable c : is_u8 c → Forall (λ x, 0x20 <= x) (escape_char c).
Proof.
  intros Hc. assert (∀ d, 0 <= d → 0x20 <= hex_char d) as Hh.
  { intros d ?. unfold hex_char. case_cmp; lia. }
  unfold escape_char, u_escape. unfold is_u8 in Hc.
  destruct (c =? 34), (c =? 92), (c =? 10), (c =? 13), (c =? 9); try by repeat constructor.
  destruct (Z.ltb_spec c 32); repeat constructor; try lia;
    apply Hh, Z.mod_pos_bound; lia.
Qed.

(** A result is sent as a JSON string: a conforming reader gets back
    exactly the bytes of the result, and the string contains no control
    character, so that an answer is one line. *)
Theorem json_escape_roundtrip (s r : list Z) : Forall is_u8 s →
  (∃ t, json_escape s ++ r = 34 :: t ∧ json_read t = Some (s, r)) ∧
  Forall (λ x, 0x20 <= x) (json_escape s).
Proof.
  intros Hs. unfold json_escape. split.
  - exists (concat (escape_char <$> s) ++ [34] ++ r). split; [by rewrite <- !app_assoc|].
    induction Hs as [|c s Hc Hs IH]; [done|]. cbn [fmap list_fmap concat].
    rewrite <- app_assoc. by apply json_read_escape.
  - constructor; [lia|]. apply Forall_app. split; [|by repeat constructor].
    induction Hs as [|c s Hc Hs IH]; cbn; [constructor|].
    apply Forall_app. split; [by apply escape_printable|done].
Qed.

Lemma json_escape_roundtrip_witness :
  ∃ t, json_escape [34; 10; 1; 65] ++ [125] = 34 :: t ∧ json_read t = Some ([34; 10; 1; 65], [125]).
Proof.
  apply (json_escape_roundtrip [34; 10; 1; 65] [125]).
  repeat (apply List.Forall_cons; [unfold is_u8; lia|]). apply List.Forall_nil.
Defined.

(** ** The client loop *)

Lemma b64_T_total c : is_u8 c → is_Some (aget b64_T c).
Proof.
  intros Hc. unfold is_u8 in Hc. destruct (aget_Some b64_T c) as (t & -> & _); [|by eexists].
  change (zlen b64_T) with 256. lia.
Qed.

Lemma b64_loop_total inp v k out : Forall is_u8 inp → is_Some (b64_loop inp v k out).
Proof.
  intros H. revert v k out. induction H as [|c inp Hc _ IH]; intros v k out; cbn [b64_loop]; [by eexists|].
  destruct (b64_T_total c Hc) as [t ->]. cbn [mbind option_bind].
  destruct (t =? -1); [by eexists|]. by destruct (0 <=? k + 6).
Qed.

Lemma json_get_string_bytes json key : Forall is_u8 json → Forall is_u8 (json_get_string json key).
Proof.
  intros H. unfold json_get_string.
  destruct (index_sub _ _) as [i1|]; cbn [mbind option_bind default]; [|constructor].
  destruct (find_char _ _ _) as [i2|]; cbn [mbind option_bind default]; [|constructor].
  destruct (find_char _ _ _) as [i3|]; cbn [mbind option_bind default]; [|constructor].
  destruct (find_char _ _ _) as [i4|]; cbn [mbind option_bind default id]; [|constructor].
  by apply Forall_take, Forall_drop.
Qed.

Lemma select_script_total msg : Forall is_u8 msg → is_Some (select_script msg).
Proof.
  intros H. unfold select_script. destruct (index_sub _ msg); cbn [mbind option_bind];
    [|eexists; reflexivity].
  pose proof (json_get_string_bytes msg (lit "data") H) as Hb.
  destruct (json_get_string msg (lit "data")) as [|c b64];
    cbn [mbind option_bind]; [eexists; reflexivity|].
  destruct (b64_loop_total (c :: b64) 0 (-8) [] Hb) as [s Hs]. unfold b64_decode.
  rewrite Hs. by eexists.
Qed.

(** What the line buffer takes of a sequence of [recv] results. *)
Definition received (cs : list (list Z)) : list Z := concat (c_str <$> cs).

Lemma received_all cs : 0 ∉ concat cs → received cs = concat cs.
Proof.
  unfold received. induction cs as [|c cs IH]; [done|]. cbn [concat fmap list_fmap]. intros H.
  rewrite not_elem_of_app in H. destruct H as [H1 H2]. rewrite IH by done. f_equal. apply c_str_id.
  rewrite Forall_forall. by intros x Hx ->.
Qed.

Lemma c_str_Forall (P : Z → Prop) l : Forall P l → Forall P (c_str l).
Proof. induction 1 as [|c l Hc _ IH]; cbn; [constructor|]. destruct (c =? 0); by constructor. Qed.

Lemma received_bytes cs : Forall (Forall is_u8) cs → Forall is_u8 (received cs).
Proof.
  intros H. apply Forall_concat, Forall_fmap. eapply Forall_impl; [exact H|]. intros c Hc. cbn. by apply c_str_Forall.
Qed.

Section ClientFacts.
Context {E : Type} (GetContext : E → bool) (LoadScript : E → list Z → E * list Z).

(** What a connection that delivers these lines does. *)
Fixpoint serve (e : E) (msgs : list (list Z)) : option (E * list (list Z)) :=
  match msgs with
  | [] => Some (e, [])
  | msg :: msgs =>
      '(e, out) ← handle_msg GetContext LoadScript e msg;
      '(e, outs) ← serve e msgs; Some (e, out ++ outs)
  end.

Lemma handle_msg_total e msg : Forall is_u8 msg →
  is_Some (handle_msg GetContext LoadScript e msg).
Proof.
  intros H. unfold handle_msg. destruct msg as [|c msg]; [by eexists|].
  destruct (GetContext e); cbn [negb]; [|by eexists].
  destruct (select_script_total _ H) as [s ->]. cbn. destruct (LoadScript e s). by eexists.
Qed.

Lemma serve_app e l1 l2 :
  serve e (l1 ++ l2) =
    '(e1, o1) ← serve e l1; '(e2, o2) ← serve e1 l2; Some (e2, o1 ++ o2).
Proof.
  revert e. induction l1 as [|m l1 IH]; intros e; cbn [serve app].
  - cbn [mbind option_bind]. by destruct (serve e l2) as [[]|].
  - destruct (handle_msg _ _ e m) as [[e1 o1]|]; cbn [mbind option_bind]; [|done].
    rewrite IH. destruct (serve e1 l1) as [[e2 o2]|]; cbn [mbind option_bind]; [|done].
    destruct (serve e2 l2) as [[e3 o3]|]; cbn; [|done]. by rewrite app_assoc.
Qed.

Lemma serve_total e msgs : Forall (Forall is_u8) msgs → is_Some (serve e msgs).
Proof.
  intros H. revert e. induction H as [|m msgs Hm _ IH]; intros e; cbn [serve]; [by eexists|].
  destruct (handle_msg_total e m Hm) as [[e1 o1] ->]. cbn [mbind option_bind].
  destruct (IH e1) as [[e2 o2] ->]. by eexists.
Qed.

Lemma drain_serve n e line sent : (length line < n)%nat →
  drain GetContext LoadScript n e line sent =
    '(e', out) ← serve e (split_at 10 line).1; Some (e', (split_at 10 line).2, sent ++ out).
Proof.
  revert e line sent. induction n as [|n IH]; intros e line sent Hn; [lia|]. cbn [drain].
  destruct (index_of 10 line) as [i|] eqn:Ei.
  - destruct (index_of_Some _ _ _ Ei) as (p & r & -> & Hnot & ->).
    destruct (take_drop_delim p r 10) as [-> ->]. rewrite split_at_first by done.
    cbn [fst snd serve].
    destruct (handle_msg _ _ e _) as [[e1 o1]|]; cbn [mbind option_bind]; [|done].
    rewrite IH by (rewrite length_app in Hn; cbn in Hn; lia).
    destruct (serve e1 _) as [[e2 o2]|]; cbn [mbind option_bind]; [|done].
    by rewrite app_assoc.
  - apply index_of_None in Ei. rewrite split_at_none by done. cbn. by rewrite app_nil_r.
Qed.

Lemma client_loop_serve cs e line sent :
  Forall (λ c, c ≠ []) cs → 10 ∉ line →
  client_loop GetContext LoadScript ((true,.) <$> cs) e line sent =
    '(e', out) ← serve e (split_at 10 (line ++ received cs)).1;
    Some (e', (split_at 10 (line ++ received cs)).2, sent ++ out).
Proof.
  unfold received. intros H. revert e line sent. induction H as [|c cs Hc _ IH]; intros e line sent Hl;
    cbn [client_loop fmap list_fmap concat].
  - rewrite app_nil_r, split_at_none by done. cbn. by rewrite app_nil_r.
  - cbn [negb]. destruct c as [|b c]; [done|]. cbn iota.
    remember (c_str (b :: c)) as chunk. rewrite drain_serve by lia.
    rewrite (app_assoc line), (split_at_app 10 (line ++ chunk)). cbn [fst snd].
    rewrite serve_app.
    destruct (serve e (split_at 10 (line ++ chunk)).1) as [[e1 o1]|];
      cbn [mbind option_bind]; [|done].
    rewrite IH by apply split_at_rest.
    destruct (serve e1 _) as [[e2 o2]|]; cbn [mbind option_bind]; [|done].
    by rewrite app_assoc.
Qed.

(** C26: While the server runs, a connection that delivers any bytes in any
    [recv] results is served as if the complete lines of what it received had
    been handled one after the other: each is evaluated, in order, its answer
    sent, and the unfinished line kept. What it received is every [recv] result
    up to its first NUL byte, the rest of which is lost ([line += buf]); so
    when the stream has no NUL it is the stream itself, however the network
    cuts it. *)
Theorem handle_client_stream (cs : list (list Z)) (e : E) :
  Forall (λ c, c ≠ [] ∧ Forall is_u8 c) cs →
  (∃ e' out,
    serve e (split_at 10 (received cs)).1 = Some (e', out) ∧
    handle_client GetContext LoadScript ((true,.) <$> cs) e =
      Some (e', (split_at 10 (received cs)).2, out)) ∧
  (0 ∉ concat cs → received cs = concat cs).
Proof.
  intros H. split; [|by apply received_all]. destruct (serve_total e (split_at 10 (received cs)).1) as [[e' out] Hs].
  - apply split_at_Forall, received_bytes. eapply Forall_impl; [exact H|]. by intros c [_ Hc].
  - exists e', out. split; [done|]. unfold handle_client.
    rewrite client_loop_serve; [by cbn [app]; rewrite Hs| |apply not_elem_of_nil].
    eapply Forall_impl; [exact H|]. by intros c [Hne _].
Qed.

End ClientFacts.

Lemma handle_client_stream_witness :
  ∃ e' out,
    serve (λ _, true) (λ (e : nat) s, (S e, s)) O [lit "1"; lit "2"] = Some (e', out) ∧
    handle_client (λ _, true) (λ (e : nat) s, (S e, s))
      ((true,.) <$> [lit "1"; [10] ++ lit "2"; [10] ++ lit "3"]) O = Some (e', lit "3", out).
Proof.
  apply (handle_client_stream (λ _, true) (λ (e : nat) s, (S e, s))
           [lit "1"; [10] ++ lit "2"; [10] ++ lit "3"] O).
  repeat first [apply List.Forall_cons | apply List.Forall_nil | split | discriminate | reflexivity].
Defined.

(** With a NUL in the stream the cut matters: the same five bytes are one
    command, or none. *)
Example nul_cut :
  received [[49; 0]; [50; 51; 10]] = [49; 50; 51; 10] ∧ received [[49; 0; 50; 51; 10]] = [49].
Proof. done. Qed.

(** ** Script messages *)

(** What a client sends to have [src] evaluated. *)
Definition script_msg (src : list Z) : list Z :=
  lit "{" ++ quoted (lit "type") ++ lit ":" ++ quoted (lit "script") ++ lit "," ++
  quoted (lit "data") ++ lit ":" ++ quoted (b64_encode true src) ++ lit "}".

Lemma b64_char_not_quote d : b64_char d ≠ 34.
Proof.
  unfold b64_char. destruct (kB64Table !! Z.to_nat d) as [c|] eqn:E; [|done]. cbn.
  intros ->. apply list_elem_of_lookup_2 in E. revert E.
  apply (bool_decide_unpack (34 ∉ kB64Table)). vm_compute. exact I.
Qed.

Lemma b64_encode_no_quote pad bs : 34 ∉ b64_encode pad bs.
Proof.
  remember (length bs) as n eqn:Hn. revert bs Hn.
  induction n as [n IH] using lt_wf_ind. intros bs Hn.
  assert (∀ d l, 34 ∉ l → 34 ∉ b64_char d :: l) as Hd.
  { intros d l Hl. apply not_elem_of_cons. split; [|done]. intros E. by apply (b64_char_not_quote d). }
  destruct bs as [|b1 [|b2 [|b3 bs]]]; cbn [b64_encode app]; [apply not_elem_of_nil|..].
  - apply Hd, Hd. destruct pad; rewrite ?not_elem_of_cons; auto using not_elem_of_nil with lia.
  - apply Hd, Hd, Hd. destruct pad; rewrite ?not_elem_of_cons; auto using not_elem_of_nil with lia.
  - apply Hd, Hd, Hd, Hd. apply (IH (length bs)); [|done]. cbn in Hn. lia.
Qed.

Definition script_head : list Z :=
  lit "{" ++ quoted (lit "type") ++ lit ":" ++ quoted (lit "script") ++ lit "," ++
  quoted (lit "data") ++ lit ":" ++ [34].

Lemma script_msg_eq src : script_msg src = script_head ++ b64_encode true src ++ 34 :: lit "}".
Proof. unfold script_msg, script_head, quoted. by rewrite <- !app_assoc. Qed.

Lemma json_get_data (p b r : list Z) ki colon q1 : 34 ∉ b →
  index_sub (quoted (lit "data")) (p ++ b ++ 34 :: r) = Some ki →
  find_char (p ++ b ++ 34 :: r) 58 (ki + 6) = Some colon →
  find_char (p ++ b ++ 34 :: r) 34 (colon + 1) = Some q1 → (q1 + 1 = length p)%nat →
  json_get_string (p ++ b ++ 34 :: r) (lit "data") = b.
Proof.
  intros Hb H1 H2 H3 Hp. unfold json_get_string. rewrite H1. cbn [mbind option_bind].
  change (length (quoted (lit "data"))) with 6%nat. rewrite H2. cbn [mbind option_bind].
  rewrite H3. cbn [mbind option_bind]. unfold find_char. rewrite Hp, drop_app_length.
  rewrite index_of_app by done. cbn [fmap option_fmap option_map mbind option_bind default id].
  replace (length p + length b - q1 - 1)%nat with (length b) by lia. apply take_app_length.
Qed.

(** C13: A client that sends a non-empty script base64-encoded, as the protocol
    says, has exactly that script evaluated, followed by one NUL byte for each
    ['='] of the encoding: the decoder takes padding for data. *)
Theorem script_msg_roundtrip (src : list Z) : Forall is_u8 src → src ≠ [] →
  select_script (script_msg src) = Some (src ++ replicate (pad_len src) 0).
Proof.
  intros Hs Hne. unfold select_script. rewrite script_msg_eq.
  rewrite (json_get_data script_head (b64_encode true src) (lit "}") 17 23 24)
    by (apply b64_encode_no_quote || reflexivity).
  change (index_sub (quoted (lit "script")) _) with (Some 8%nat). cbn iota.
  pose proof (b64_loop_encode true src 0 [] Hs) as Hd. fold (b64_decode (b64_encode true src)) in Hd.
  destruct (b64_encode true src) as [|c l] eqn:El.
  { destruct src as [|? [|? [|? ?]]]; done. }
  rewrite Hd. cbn [mbind option_bind app]. by destruct src.
Qed.

Lemma script_msg_roundtrip_witness :
  select_script (script_msg (lit "1+1;")) = Some (lit "1+1;" ++ [0; 0]).
Proof.
  apply (script_msg_roundtrip (lit "1+1;")); [|discriminate].
  repeat first [apply List.Forall_cons | apply List.Forall_nil | split | discriminate | reflexivity].
Defined.

End JsSocket.
