(* ===== verification/JsServer.v ===== *)
(** * The script socket: server thread and client table ([js_socket_server.cpp])

    The globals of the server, the calls that change them ([js_socket_start],
    [js_socket_server_start], [js_socket_stop], [js_socket_server_stop],
    [js_socket_send]) and the accept loop of the server thread, interleaved
    access by access: any number of calls may be in progress, each at a point
    of its body. The engine's lock serialises the calls of scripts, but not
    [js_socket_server_start] of [JNI_OnLoad] and [js_socket_server_stop] of
    [JSEngine::Shutdown], which are made without it; runs in which no two calls
    overlap are the relation [serial_step]. File descriptors are integers and
    [open_fds] is the set of those the process has open, so that closing one
    twice is an outcome of its own, like assigning to a joinable [std::thread]
    or joining one that is not. What the kernel answers ([socket], [bind],
    [listen], [accept], [send]) is an argument of the operation. *)

From stdpp Require Import gmap.
From S2P Require Import Prelude.

#[local] Set Warnings "-clear-no-such-hyp".

Module JsServer.

(** Where the thread [server_loop] is; [NotJoinable] when [g_server_thread]
    has no thread, [Ended] when it has run to its end and waits to be joined. *)
Inductive sthread : Set :=
| NotJoinable
| LoopTest (server_fd : Z)
| InAccept (server_fd : Z)
| Accepted (server_fd client_fd : Z)
| LeftLoop (server_fd : Z)
| Ended.

Record Server : Type := mkServer {
  g_running : bool;
  g_listen_port : Z;
  g_server_thread : sthread;
  g_clients : list Z;
  open_fds : gset Z
}.

Definition server_init : Server := mkServer false 0 NotJoinable [] ∅.

Definition set_running (s : Server) (b : bool) : Server :=
  mkServer b (g_listen_port s) (g_server_thread s) (g_clients s) (open_fds s).
Definition set_port (s : Server) (p : Z) : Server :=
  mkServer (g_running s) p (g_server_thread s) (g_clients s) (open_fds s).
Definition set_thread (s : Server) (t : sthread) : Server :=
  mkServer (g_running s) (g_listen_port s) t (g_clients s) (open_fds s).
Definition set_clients (s : Server) (cs : list Z) : Server :=
  mkServer (g_running s) (g_listen_port s) (g_server_thread s) cs (open_fds s).
Definition set_open (s : Server) (o : gset Z) : Server :=
  mkServer (g_running s) (g_listen_port s) (g_server_thread s) (g_clients s) o.

(** [close]: an error when the descriptor is not open. *)
Definition close (o : gset Z) (fd : Z) : option (gset Z) :=
  if decide (fd ∈ o) then Some (o ∖ {[fd]}) else None.

Fixpoint close_all (o : gset Z) (fds : list Z) : option (gset Z) :=
  match fds with
  | [] => Some o
  | fd :: fds => o ← close o fd; close_all o fds
  end.

(** What the kernel answers to [socket], [bind], [listen] and [getsockname]. *)
Record start_env : Set := mkStartEnv {
  se_fd : option Z;
  se_bind : bool;
  se_listen : bool;
  se_port : Z
}.

Inductive result : Set :=
| Started (port : Z)
| AlreadyRunning (port : Z)
| SocketFailed
| BindFailed
| ListenFailed
| Undefined.

(** [broadcast_to_clients], which holds [g_clients_mutex]; [sent fd] is whether
    [send] to [fd] succeeds. *)
Fixpoint broadcast_loop (o : gset Z) (cs : list Z) (sent : Z → bool) :
    option (gset Z * list Z) :=
  match cs with
  | [] => Some (o, [])
  | fd :: cs =>
      if sent fd then '(o, cs) ← broadcast_loop o cs sent; Some (o, fd :: cs)
      else o ← close o fd; broadcast_loop o cs sent
  end.

Definition broadcast_to_clients (s : Server) (sent : Z → bool) : option Server :=
  '(o, cs) ← broadcast_loop (open_fds s) (g_clients s) sent;
  Some (set_clients (set_open s o) cs).

(** [for (int fd : g_clients) close(fd); g_clients.clear();] under
    [g_clients_mutex]. *)
Definition close_clients (s : Server) : option Server :=
  o ← close_all (open_fds s) (g_clients s); Some (set_clients (set_open s o) []).

(** ** Calls in progress

    The points of the two functions that start the server (the same statements
    but for the port and the result), of the two that stop it ([reset] is
    whether the port is stored behind the [join]) and of [send]. *)
Inductive point : Type :=
| StartTest (env : start_env)
| StartBusy
| StartSocket (env : start_env)
| StartPort (fd port : Z)
| StartRunning (fd : Z)
| StartThread (fd : Z)
| StartResult
| StopRunning (reset : bool)
| StopClients (reset : bool)
| StopJoinable (reset : bool)
| StopJoin (reset : bool)
| StopPort
| SendAll (sent : Z → bool).

Definition js_socket_start (env : start_env) : point := StartTest env.
Definition js_socket_server_start (env : start_env) : point := StartTest env.
Definition js_socket_stop : point := StopRunning true.
Definition js_socket_server_stop : point := StopRunning false.
Definition js_socket_send (sent : Z → bool) : point := SendAll sent.

(** What the next access of a call does: the call goes on, returns, waits, or
    the process closes a descriptor that is not open, or is ended by
    [std::terminate]. *)
Inductive outcome : Type :=
| Goes (s : Server) (p : point)
| Returns (s : Server) (r : result)
| Waits
| BadClose
| Terminates.

Definition or_bad (o : option Server) (k : Server → outcome) : outcome :=
  match o with Some s => k s | None => BadClose end.

Definition joinable (t : sthread) : bool :=
  match t with NotJoinable => false | _ => true end.

Definition behind_join (reset : bool) (s : Server) : outcome :=
  if reset then Goes s StopPort else Returns s Undefined.

(** [socket], [bind], [listen] and [getsockname]: a new descriptor that only
    this call knows. *)
Definition open_socket (s : Server) (env : start_env) : outcome :=
  match se_fd env with
  | None => Returns s SocketFailed
  | Some fd =>
      let s := set_open s ({[fd]} ∪ open_fds s) in
      if negb (se_bind env) then or_bad (set_open s <$> close (open_fds s) fd) (λ s, Returns s BindFailed)
      else if negb (se_listen env) then or_bad (set_open s <$> close (open_fds s) fd) (λ s, Returns s ListenFailed)
      else Goes s (StartPort fd (se_port env))
  end.

Definition call_step (s : Server) (p : point) : outcome :=
  match p with
  | StartTest env => if g_running s then Goes s StartBusy else Goes s (StartSocket env)
  | StartBusy => Returns s (AlreadyRunning (g_listen_port s))
  | StartSocket env => open_socket s env
  | StartPort fd port => Goes (set_port s port) (StartRunning fd)
  | StartRunning fd => Goes (set_running s true) (StartThread fd)
  | StartThread fd =>
      (* [std::thread::operator=] terminates when the thread is joinable *)
      if joinable (g_server_thread s) then Terminates else Goes (set_thread s (LoopTest fd)) StartResult
  | StartResult => Returns s (Started (g_listen_port s))
  | StopRunning reset => Goes (set_running s false) (StopClients reset)
  | StopClients reset => or_bad (close_clients s) (λ s, Goes s (StopJoinable reset))
  | StopJoinable reset =>
      if joinable (g_server_thread s) then Goes s (StopJoin reset) else behind_join reset s
  | StopJoin reset =>
      match g_server_thread s with
      | Ended => behind_join reset (set_thread s NotJoinable)
      | NotJoinable => Terminates
      | _ => Waits
      end
  | StopPort => Returns (set_port s 0) Undefined
  | SendAll sent => or_bad (broadcast_to_clients s sent) (λ s, Returns s Undefined)
  end.

(** ** The server thread *)

(** The steps of [server_loop] that do not wait. *)
Definition server_loop_step (s : Server) : option Server :=
  match g_server_thread s with
  | LoopTest fd => Some (set_thread s (if g_running s then InAccept fd else LeftLoop fd))
  | Accepted fd cfd => Some (set_thread (set_clients s (g_clients s ++ [cfd])) (LoopTest fd))
  | LeftLoop fd => o ← close (open_fds s) fd; Some (set_thread (set_open s o) Ended)
  | _ => None
  end.

(** [accept] returns a new descriptor, or fails. *)
Definition accept_returns (s : Server) (res : option Z) : option Server :=
  match g_server_thread s with
  | InAccept fd =>
      Some (match res with
            | Some cfd => set_thread (set_open s ({[cfd]} ∪ open_fds s)) (Accepted fd cfd)
            | None => set_thread s (LeftLoop fd)
            end)
  | _ => None
  end.

(** ** Interleavings *)

Record State : Type := mkState { srv : Server; calls : list point }.

Definition state_init : State := mkState server_init [].

(** New descriptors are not open already. *)
Definition fresh_fd (s : Server) (r : option Z) : Prop :=
  match r with Some fd => fd ∉ open_fds s | None => True end.
Definition fresh_at (s : Server) (p : point) : Prop :=
  match p with StartSocket env => fresh_fd s (se_fd env) | _ => True end.

Inductive entry : point → Prop :=
| entry_start env : entry (js_socket_start env)
| entry_server_start env : entry (js_socket_server_start env)
| entry_stop : entry js_socket_stop
| entry_server_stop : entry js_socket_server_stop
| entry_send sent : entry (js_socket_send sent).

(** A call begins, a call in progress makes its next access or returns, the
    server thread makes a step, or [accept] returns. *)
Inductive step : State → State → Prop :=
| step_enter s ps p : entry p → step (mkState s ps) (mkState s (ps ++ [p]))
| step_goes s l1 p l2 s' p' : fresh_at s p → call_step s p = Goes s' p' →
    step (mkState s (l1 ++ p :: l2)) (mkState s' (l1 ++ p' :: l2))
| step_returns s l1 p l2 s' r : fresh_at s p → call_step s p = Returns s' r →
    step (mkState s (l1 ++ p :: l2)) (mkState s' (l1 ++ l2))
| step_loop s ps s' : server_loop_step s = Some s' → step (mkState s ps) (mkState s' ps)
| step_accept s ps r s' : fresh_fd s r → accept_returns s r = Some s' → step (mkState s ps) (mkState s' ps).

Definition reachable : State → Prop := rtc step state_init.

(** No two calls overlap. *)
Definition serial_step (x y : State) : Prop := step x y ∧ (length (calls y) <= 1)%nat.
Definition serially_reachable : State → Prop := rtc serial_step state_init.

(** The descriptors the server thread and a call hold. *)
Definition thread_fds (t : sthread) : list Z :=
  match t with
  | NotJoinable | Ended => []
  | LoopTest fd | InAccept fd | LeftLoop fd => [fd]
  | Accepted fd cfd => [fd; cfd]
  end.
Definition point_fds (p : point) : list Z :=
  match p with StartPort fd _ | StartRunning fd | StartThread fd => [fd] | _ => [] end.

Lemma close_ok o fd : fd ∈ o → close o fd = Some (o ∖ {[fd]}).
Proof. intros. unfold close. by destruct (decide (fd ∈ o)). Qed.

Lemma close_all_ok o fds : NoDup fds → (∀ fd, fd ∈ fds → fd ∈ o) →
  close_all o fds = Some (o ∖ list_to_set fds).
Proof.
  intros H. revert o. induction H as [|fd fds Hn _ IH]; intros o Ho; cbn [close_all].
  - f_equal. set_solver.
  - rewrite close_ok by set_solver. cbn [mbind option_bind]. rewrite IH by set_solver.
    f_equal. set_solver.
Qed.

Lemma broadcast_loop_ok o cs sent : NoDup cs → (∀ fd, fd ∈ cs → fd ∈ o) →
  broadcast_loop o cs sent =
    Some (o ∖ list_to_set (filter (λ fd, sent fd = false) cs), filter (λ fd, sent fd = true) cs).
Proof.
  intros H. revert o. induction H as [|fd cs Hn _ IH]; intros o Ho; cbn [broadcast_loop].
  - do 2 f_equal. set_solver.
  - rewrite !filter_cons. destruct (sent fd) eqn:E; cbn [decide].
    + rewrite IH by set_solver. cbn [mbind option_bind].
      destruct (decide (true = true)); [|done]. by destruct (decide (true = false)).
    + rewrite close_ok by set_solver. cbn [mbind option_bind]. rewrite IH.
      * destruct (decide (false = true)); [done|]. destruct (decide (false = false)); [|done].
        do 2 f_equal. set_solver.
      * intros x Hx. assert (x ≠ fd) by (intros ->; done). set_solver.
Qed.

(** ** Descriptors *)

(** The clients, the server thread and [fds] are different open descriptors. *)
Record holds (s : Server) (fds : list Z) : Prop := {
  h_nodup : NoDup (g_clients s ++ thread_fds (g_server_thread s) ++ fds);
  h_open : ∀ fd, fd ∈ g_clients s ++ thread_fds (g_server_thread s) ++ fds → fd ∈ open_fds s
}.

Ltac server_simpl := cbn [set_running set_port set_thread set_clients set_open g_running g_listen_port
  g_server_thread g_clients open_fds thread_fds point_fds fresh_fd fresh_at se_fd app] in *.

Lemma holds_perm s l l' : Permutation l l' → holds s l → holds s l'.
Proof. intros HP [H1 H2]. split; [by rewrite <- HP|]. intros fd. rewrite <- HP. apply H2. Qed.

Lemma socket_holds s env fds : holds s fds → fresh_fd s (se_fd env) →
  match open_socket s env with
  | Goes s' p => holds s' (point_fds p ++ fds) | Returns s' _ => holds s' fds | _ => False
  end.
Proof.
  intros [Hn Ho] Hf. unfold open_socket. destruct (se_fd env) as [fd|]; [|done]. server_simpl.
  assert (∀ x, x ∈ g_clients s ++ thread_fds (g_server_thread s) ++ fds → x ≠ fd) as Hne by (intros x Hx ->; auto).
  assert (holds (set_open s (({[fd]} ∪ open_fds s) ∖ {[fd]})) fds) as Hc.
  { split; server_simpl; [done|]. intros x Hx. specialize (Hne x Hx). specialize (Ho x Hx). set_solver. }
  rewrite close_ok by set_solver. destruct (se_bind env); cbn [negb]; [|exact Hc].
  destruct (se_listen env); cbn [negb]; [|exact Hc]. server_simpl. split; server_simpl.
  - rewrite app_assoc. apply NoDup_app. rewrite app_assoc, NoDup_app in Hn. destruct Hn as (H1 & H2 & H3).
    split; [done|]. split; [|apply NoDup_cons; split; [|done]].
    + intros x Hx. apply not_elem_of_cons. split; [|by apply H2]. apply Hne. rewrite app_assoc. set_solver.
    + intros Hx. by apply (Hne fd); [rewrite app_assoc; set_solver|].
  - intros x Hx. rewrite !elem_of_app, elem_of_cons in Hx.
    assert (x = fd ∨ x ∈ g_clients s ++ thread_fds (g_server_thread s) ++ fds) as [->|H'] by (rewrite !elem_of_app; tauto);
      [set_solver|specialize (Ho x H'); set_solver].
Qed.

Lemma clients_holds s fds : holds s fds → ∃ s', close_clients s = Some s' ∧ holds s' fds.
Proof.
  intros [Hn Ho]. apply NoDup_app in Hn as (Hn1 & Hd & Hn2). unfold close_clients.
  rewrite close_all_ok by set_solver. eexists. split; [done|]. split; server_simpl; [done|].
  intros fd Hfd. apply elem_of_difference. split; [apply Ho; rewrite elem_of_app; by right|].
  rewrite elem_of_list_to_set. intros Hc. by apply (Hd fd).
Qed.

Lemma send_holds s sent fds : holds s fds → ∃ s', broadcast_to_clients s sent = Some s' ∧ holds s' fds.
Proof.
  intros [Hn Ho]. apply NoDup_app in Hn as (Hn1 & Hd & Hn2).
  unfold broadcast_to_clients. rewrite broadcast_loop_ok by set_solver.
  eexists. split; [done|]. split; server_simpl.
  - apply NoDup_app. split; [by apply NoDup_filter|]. split; [|done].
    intros fd [_ Hfd]%list_elem_of_filter. by apply Hd.
  - intros fd Hfd. apply elem_of_difference. rewrite elem_of_list_to_set, list_elem_of_filter.
    apply elem_of_app in Hfd as [[Hfd Hc]%list_elem_of_filter|Hfd].
    + split; [apply Ho, elem_of_app; by left|]. intros [??]. congruence.
    + split; [apply Ho, elem_of_app; by right|]. intros [_ Hc]. by apply (Hd fd).
Qed.

(** An access of a call never closes a descriptor that is not open. *)
Lemma call_holds s p fds : holds s (point_fds p ++ fds) → fresh_at s p →
  match call_step s p with
  | Goes s' p' => holds s' (point_fds p' ++ fds)
  | Returns s' _ => holds s' fds
  | Waits | Terminates => True
  | BadClose => False
  end.
Proof.
  intros H Hf. destruct p as [env| |env|fd port|fd|fd| |reset|reset|reset|reset| |sent]; cbn [call_step]; server_simpl.
  - by destruct (g_running s).
  - done.
  - pose proof (socket_holds s env fds H Hf) as Hs. by destruct (open_socket s env).
  - destruct H. by split.
  - destruct H. by split.
  - destruct (g_server_thread s) eqn:E; cbn [joinable]; try done. destruct H as [H1 H2]. rewrite E in *. by split.
  - done.
  - destruct H. by split.
  - by destruct (clients_holds s fds H) as (s' & -> & ?).
  - destruct (joinable _); [done|]. by destruct reset.
  - destruct (g_server_thread s) eqn:E; try done. destruct H as [H1 H2]. rewrite E in *. by destruct reset; split.
  - destruct H. by split.
  - by destruct (send_holds s sent fds H) as (s' & -> & ?).
Qed.

Lemma loop_holds s fds : holds s fds →
  match g_server_thread s with
  | LoopTest _ | Accepted _ _ | LeftLoop _ => ∃ s', server_loop_step s = Some s' ∧ holds s' fds
  | _ => server_loop_step s = None
  end.
Proof.
  intros [Hn Ho]. unfold server_loop_step.
  destruct (g_server_thread s) as [|fd|fd|fd cfd|fd|] eqn:E; server_simpl; try done.
  - eexists. split; [done|]. by destruct (g_running s); split; server_simpl.
  - eexists. split; [done|]. assert (Permutation (g_clients s ++ fd :: cfd :: fds) ((g_clients s ++ [cfd]) ++ fd :: fds)) as HP.
    { rewrite <- app_assoc. cbn [app]. by rewrite (perm_swap cfd fd). }
    split; server_simpl; [by rewrite <- HP|]. intros x. rewrite <- HP. apply Ho.
  - rewrite close_ok by (apply Ho; set_solver). eexists. split; [done|]. apply NoDup_app in Hn as (H1 & H2 & H3).
    apply NoDup_cons in H3 as [H3 H4]. split; server_simpl.
    + apply NoDup_app. split; [done|]. split; [|done]. intros x Hx Hx'. apply (H2 x Hx), elem_of_cons. by right.
    + intros x Hx. apply elem_of_difference. split; [apply Ho; set_solver|]. intros ->%elem_of_singleton.
      apply elem_of_app in Hx as [Hx|Hx]; [|done]. apply (H2 fd Hx), elem_of_cons. by left.
Qed.

Lemma accept_holds s r s' fds : holds s fds → fresh_fd s r → accept_returns s r = Some s' → holds s' fds.
Proof.
  intros [Hn Ho] Hf H. unfold accept_returns in H.
  destruct (g_server_thread s) as [|fd|fd|fd cfd|fd|] eqn:E; simplify_eq; server_simpl.
  destruct r as [cfd|]; split; server_simpl; [| |done|done].
  - assert (∀ x, x ∈ g_clients s ++ fd :: fds → x ≠ cfd) as Hne by (intros x Hx ->; auto).
    assert (Permutation (g_clients s ++ fd :: cfd :: fds) (cfd :: g_clients s ++ fd :: fds)) as ->.
    { rewrite (perm_swap cfd fd). by rewrite Permutation_middle. }
    apply NoDup_cons. split; [|done]. intros Hx. by apply (Hne cfd).
  - intros x Hx. assert (x = cfd ∨ x ∈ g_clients s ++ fd :: fds) as [->|H'] by set_solver; [set_solver|].
    specialize (Ho x H'). set_solver.
Qed.

Definition held (x : State) : Prop := holds (srv x) (concat (point_fds <$> calls x)).

Lemma calls_fds l1 p l2 :
  Permutation (concat (point_fds <$> l1 ++ p :: l2)) (point_fds p ++ concat (point_fds <$> l1 ++ l2)).
Proof.
  rewrite !fmap_app, fmap_cons, !concat_app. cbn [concat]. rewrite !app_assoc. by rewrite (Permutation_app_comm (point_fds p)).
Qed.

Lemma step_held x y : held x → step x y → held y.
Proof.
  unfold held. intros H Hs. destruct Hs as [s ps p He|s l1 p l2 s' p' Hf E|s l1 p l2 s' r Hf E|s ps s' E|s ps r s' Hf E]; cbn [srv calls] in *.
  - rewrite fmap_app, concat_app. assert (point_fds p = []) as Ep by by destruct He. cbn. by rewrite Ep, !app_nil_r.
  - eapply holds_perm; [symmetry; apply calls_fds|]. eapply holds_perm in H; [|apply calls_fds].
    pose proof (call_holds s p _ H Hf) as HC. by rewrite E in HC.
  - eapply holds_perm in H; [|apply calls_fds]. pose proof (call_holds s p _ H Hf) as HC. by rewrite E in HC.
  - pose proof (loop_holds s _ H) as HL. destruct (g_server_thread s); try congruence; destruct HL as (s2 & E2 & ?); congruence.
  - by eapply accept_holds.
Qed.

Lemma reachable_held x : reachable x → held x.
Proof.
  intros H. assert (held state_init) as H0 by (split; cbn; [constructor|set_solver]).
  revert H0. induction H as [x|x y z Hs _ IH]; [done|]. intros H0. by eapply IH, step_held.
Qed.

(** ** Calls that do not overlap *)

Definition idle (s : Server) : Prop := g_running s = false → g_server_thread s = NotJoinable.

(** What holds of the globals while a call that runs alone is at a point. *)
Definition at_point (s : Server) (p : point) : Prop :=
  match p with
  | StartTest _ | StartBusy | StartResult | StopRunning _ | SendAll _ => idle s
  | StartSocket _ | StartPort _ _ | StartRunning _ | StopPort => g_server_thread s = NotJoinable
  | StartThread _ => g_running s = true ∧ g_server_thread s = NotJoinable
  | StopClients _ | StopJoinable _ => g_running s = false
  | StopJoin _ => g_running s = false ∧ g_server_thread s ≠ NotJoinable
  end.

Definition serial_inv (x : State) : Prop :=
  match calls x with [] => idle (srv x) | [p] => at_point (srv x) p | _ => False end.

Lemma call_serial s p : at_point s p →
  match call_step s p with
  | Goes s' p' => at_point s' p'
  | Returns s' _ => idle s'
  | Waits | BadClose => True
  | Terminates => False
  end.
Proof.
  unfold idle. intros H. destruct p as [env| |env|fd port|fd|fd| |reset|reset|reset|reset| |sent]; cbn [call_step at_point] in *.
  - destruct (g_running s) eqn:E; cbn; [by unfold idle; rewrite E|by apply H].
  - done.
  - unfold open_socket. destruct (se_fd env) as [fd|]; [|done].
    destruct (negb (se_bind env)); [destruct (close _ _); cbn; auto|].
    destruct (negb (se_listen env)); [destruct (close _ _); cbn; auto|]. exact H.
  - done.
  - done.
  - destruct H as [Hr Ht]. rewrite Ht. cbn. unfold idle. cbn. congruence.
  - done.
  - done.
  - unfold close_clients. by destruct (close_all _ _).
  - destruct (g_server_thread s) eqn:E; cbn [joinable]; [by destruct reset; cbn|..]; (split; [done|congruence]).
  - destruct H as [Hr Ht]. destruct (g_server_thread s) eqn:E; try done. by destruct reset; cbn.
  - done.
  - unfold broadcast_to_clients. by destruct (broadcast_loop _ _ _) as [[]|].
Qed.

(** Steps of the server thread: it stays a thread to be joined. *)
Lemma thread_step s s' r : server_loop_step s = Some s' ∨ accept_returns s r = Some s' →
  g_running s' = g_running s ∧ g_server_thread s ≠ NotJoinable ∧ g_server_thread s' ≠ NotJoinable.
Proof.
  unfold server_loop_step, accept_returns. intros [H|H]; destruct (g_server_thread s); simplify_eq.
  - cbn. by destruct (g_running s).
  - done.
  - destruct (close _ _); simplify_eq/=. done.
  - by destruct r.
Qed.

Lemma at_point_thread s s' p : g_running s' = g_running s → g_server_thread s ≠ NotJoinable →
  g_server_thread s' ≠ NotJoinable → at_point s p → at_point s' p.
Proof. intros E H1 H2. destruct p; cbn; unfold idle; rewrite ?E; intuition congruence. Qed.

Lemma serial_step_inv x y : serial_inv x → serial_step x y → serial_inv y.
Proof.
  intros H [Hs Hl]. destruct Hs as [s ps p He|s l1 p l2 s' p' Hf E|s l1 p l2 s' r Hf E|s ps s' E|s ps r s' Hf E];
    unfold serial_inv in *; cbn [srv calls] in *.
  - rewrite length_app in Hl. cbn in Hl. destruct ps; [|cbn in Hl; lia]. cbn [app]. by destruct He.
  - rewrite length_app in Hl. cbn in Hl. assert (l1 = [] ∧ l2 = []) as [-> ->] by (destruct l1, l2; cbn in Hl; (done || lia)).
    cbn [app] in *. pose proof (call_serial s p H) as HC. by rewrite E in HC.
  - destruct l1 as [|? [|? ?]], l2; cbn [app] in *; try done. pose proof (call_serial s p H) as HC. by rewrite E in HC.
  - destruct (thread_step s s' None (or_introl E)) as (E1 & E2 & E3). destruct ps as [|p [|]]; [|by eapply at_point_thread|done].
    unfold idle in *. rewrite E1. intuition congruence.
  - destruct (thread_step s s' r (or_intror E)) as (E1 & E2 & E3). destruct ps as [|p [|]]; [|by eapply at_point_thread|done].
    unfold idle in *. rewrite E1. intuition congruence.
Qed.

Lemma serially_reachable_inv x : serially_reachable x → serial_inv x ∧ reachable x.
Proof.
  intros H. assert (serial_inv state_init ∧ reachable state_init) as H0 by (split; [done|apply rtc_refl]).
  revert H0. induction H as [x|x y z Hs _ IH]; [done|]. intros [H1 H2]. apply IH.
  split; [by eapply serial_step_inv|]. eapply rtc_r; [exact H2|apply Hs].
Qed.

(** C31: safety of the server, for any number of calls in progress at once.
    Whatever the interleaving of the accesses of calls, of connections and of
    the server thread, every registered client is an open descriptor that is
    registered once, no call and no step of the server thread closes a
    descriptor that is not open. And in the runs in which no two calls overlap
    no call assigns over a joinable thread or joins one that is not, so that
    none ends the process. (Calls can overlap: the engine's lock serialises
    those of scripts only, and [server_start_race] below shows what happens.) *)
Theorem server_safe (x : State) : reachable x →
  (NoDup (g_clients (srv x)) ∧ (∀ fd, fd ∈ g_clients (srv x) → fd ∈ open_fds (srv x)) ∧
   (∀ p, p ∈ calls x → fresh_at (srv x) p → call_step (srv x) p ≠ BadClose) ∧
   (∀ fd, g_server_thread (srv x) = LeftLoop fd → is_Some (server_loop_step (srv x)))) ∧
  (serially_reachable x → ∀ p, p ∈ calls x → call_step (srv x) p ≠ Terminates).
Proof.
  intros H%reachable_held. split; [|intros [HI _]%serially_reachable_inv p Hp E].
  - pose proof H as [Hn Ho]. split; [by apply NoDup_app in Hn as (? & _)|]. split; [|split].
    + intros fd Hfd. apply Ho, elem_of_app. by left.
    + intros p (l1 & l2 & Ep)%list_elem_of_split Hf E. unfold held in H. rewrite Ep in H.
      eapply holds_perm in H; [|apply calls_fds]. pose proof (call_holds _ _ _ H Hf) as HC. by rewrite E in HC.
    + intros fd Et. pose proof (loop_holds _ _ H) as HL. rewrite Et in HL. destruct HL as (s' & -> & _). by eexists.
  - unfold serial_inv in HI. destruct (calls x) as [|q [|]]; [by apply elem_of_nil in Hp| |done].
    apply list_elem_of_singleton in Hp as ->. pose proof (call_serial _ _ HI) as HC. by rewrite E in HC.
Qed.

(** ** When a stop returns *)

(** The server thread runs on without waiting, and the [join] returns. *)
Definition join_completes (s : Server) (reset : bool) : Prop :=
  ∃ s1 s2, rtc (λ a b, server_loop_step a = Some b) s s1 ∧
    call_step s1 (StopJoin reset) = behind_join reset s2 ∧ g_server_thread s2 = NotJoinable ∧ g_running s2 = false.

Lemma completes_step s s1 reset : server_loop_step s = Some s1 → join_completes s1 reset → join_completes s reset.
Proof. intros H (s2 & s' & Hr & ?). exists s2, s'. split; [|done]. by eapply rtc_l. Qed.

Lemma loop_running s s1 : server_loop_step s = Some s1 → g_running s1 = g_running s.
Proof. intros H. by destruct (thread_step s s1 None (or_introl H)). Qed.

Lemma ended_completes s reset : g_running s = false → g_server_thread s = Ended → join_completes s reset.
Proof. intros Er Et. exists s. cbn. rewrite Et. eexists. split; [apply rtc_refl|]. by split. Qed.

Lemma left_completes s fd fds reset : holds s fds → g_running s = false → g_server_thread s = LeftLoop fd →
  join_completes s reset.
Proof.
  intros H Er Et. pose proof (loop_holds s fds H) as HL. rewrite Et in HL. destruct HL as (s1 & E1 & _).
  apply (completes_step s s1); [done|]. apply ended_completes; [by rewrite (loop_running s)|].
  unfold server_loop_step in E1. rewrite Et in E1. destruct (close _ _); simplify_eq/=. done.
Qed.

Lemma test_completes s fd fds reset : holds s fds → g_running s = false → g_server_thread s = LoopTest fd →
  join_completes s reset.
Proof.
  intros H Er Et. pose proof (loop_holds s fds H) as HL. rewrite Et in HL. destruct HL as (s1 & E1 & H1).
  apply (completes_step s s1); [done|]. apply (left_completes s1 fd fds); [done|by rewrite (loop_running s)|].
  unfold server_loop_step in E1. rewrite Et, Er in E1. by simplify_eq/=.
Qed.

Lemma accepted_completes s fd cfd fds reset : holds s fds → g_running s = false →
  g_server_thread s = Accepted fd cfd → join_completes s reset.
Proof.
  intros H Er Et. pose proof (loop_holds s fds H) as HL. rewrite Et in HL. destruct HL as (s1 & E1 & H1).
  apply (completes_step s s1); [done|]. apply (test_completes s1 fd fds); [done|by rewrite (loop_running s)|].
  unfold server_loop_step in E1. rewrite Et in E1. by simplify_eq/=.
Qed.

(** While the server thread is in [accept] and nobody has replaced it, a step
    other than a return of [accept] leaves it there and every waiting call
    waiting. *)
Lemma accept_blocks x y fd reset : step x y → g_server_thread (srv x) = InAccept fd → StopJoin reset ∈ calls x →
  (∃ r, accept_returns (srv x) r = Some (srv y)) ∨
  (g_server_thread (srv y) = InAccept fd ∧ StopJoin reset ∈ calls y).
Proof.
  intros Hs Et Hw. destruct Hs as [s ps p He|s l1 p l2 s' p' Hf E|s l1 p l2 s' r Hf E|s ps s' E|s ps r s' Hf E]; cbn [srv calls] in *.
  - right. split; [done|]. apply elem_of_app. by left.
  - right. assert (p ≠ StopJoin reset) as Hp by (intros ->; cbn in E; by rewrite Et in E). split.
    + destruct p as [env| |env| | | | |?|?|?|rs| |?]; cbn in E; rewrite ?Et in E; cbn in E; simplify_eq/=; try done.
      * by destruct (g_running s); simplify_eq.
      * unfold open_socket in E. destruct (se_fd env); [|done]. destruct (negb (se_bind env)); [by destruct (close _ _)|].
        destruct (negb (se_listen env)); [by destruct (close _ _)|]. by simplify_eq/=.
      * unfold close_clients in E. destruct (close_all _ _); simplify_eq/=. done.
      * unfold broadcast_to_clients in E. destruct (broadcast_loop _ _ _) as [[]|]; simplify_eq/=.
    + rewrite elem_of_app, elem_of_cons in *. destruct Hw as [|[|]]; [by left|congruence|by right; right].
  - right. assert (p ≠ StopJoin reset) as Hp by (intros ->; cbn in E; by rewrite Et in E). split.
    + destruct p as [env| |env| | | | |?|?|?|rs| |?]; cbn in E; rewrite ?Et in E; cbn in E; simplify_eq/=; try done.
      * by destruct (g_running s); simplify_eq.
      * unfold open_socket in E. destruct (se_fd env); [|by simplify_eq]. destruct (negb (se_bind env)); [destruct (close _ _); by simplify_eq/=|].
        destruct (negb (se_listen env)); [destruct (close _ _); by simplify_eq/=|]. done.
      * unfold close_clients in E. by destruct (close_all _ _); simplify_eq/=.
      * unfold broadcast_to_clients in E. destruct (broadcast_loop _ _ _) as [[]|]; simplify_eq/=. done.
    + rewrite elem_of_app, elem_of_cons in *. destruct Hw as [|[|]]; [by left|congruence|by right].
  - unfold server_loop_step in E. by rewrite Et in E.
  - left. by exists r.
Qed.

(** C36: when a stop returns. While a call that stops the server waits in
    [join] and the server thread is in [accept], no step of the program, of
    any of the calls in progress or of new ones, lets the call go on before
    [accept] returns: it waits for a connection (or an error of the kernel),
    since it never closes the listening socket. When no other call overlaps
    it, the [join] returns as soon as the thread is not in [accept], and once
    [accept] has returned, without further help. *)
Theorem stop_liveness (x : State) (reset : bool) : reachable x → StopJoin reset ∈ calls x →
  (∀ fd y, g_server_thread (srv x) = InAccept fd → step x y →
    (∃ r, accept_returns (srv x) r = Some (srv y)) ∨
    (g_server_thread (srv y) = InAccept fd ∧ StopJoin reset ∈ calls y)) ∧
  (serially_reachable x →
    match g_server_thread (srv x) with
    | InAccept _ => ∀ r s', fresh_fd (srv x) r → accept_returns (srv x) r = Some s' → join_completes s' reset
    | _ => join_completes (srv x) reset
    end).
Proof.
  intros H%reachable_held Hw. split; [intros fd y Et Hs; by eapply accept_blocks|].
  intros [HI _]%serially_reachable_inv. unfold serial_inv in HI. unfold held in H.
  destruct (calls x) as [|q [|]]; [by apply elem_of_nil in Hw| |done].
  apply list_elem_of_singleton in Hw as <-. destruct HI as [Er Hj].
  destruct (g_server_thread (srv x)) as [|fd|fd|fd cfd|fd|] eqn:Et; [done|by eapply test_completes| |by eapply accepted_completes|
    by eapply left_completes|by apply ended_completes].
  intros r s' Hf Hr. pose proof (accept_holds _ _ _ _ H Hf Hr) as H'.
  destruct (thread_step _ _ r (or_intror Hr)) as (Er' & _ & _). rewrite Er in Er'.
  unfold accept_returns in Hr. rewrite Et in Hr. destruct r as [cfd|]; injection Hr as <-.
  - by eapply (accepted_completes _ fd cfd).
  - by eapply (left_completes _ fd).
Qed.

(** ** A server that is stopped while it waits for clients *)

Definition demo_env : start_env := mkStartEnv (Some 3) true true 45896.
Definition demo_waiting : Server := mkServer true 45896 (InAccept 3) [] ({[3]} ∪ ∅).
Definition demo_stopping (ps : list point) : State := mkState (set_running demo_waiting false) ps.

Lemma rtc_trans {A} (R : A → A → Prop) {x y z} : rtc R x y → rtc R y z → rtc R x z.
Proof. intros H1 H2. by etrans. Qed.

Tactic Notation "serial" tactic3(t) := eapply rtc_l; [split; [t|cbn; lia]|]; cbn [app].

Lemma demo_waiting_reachable : serially_reachable (mkState demo_waiting []).
Proof.
  serial (apply (step_enter _ [] _ (entry_server_start demo_env))).
  serial (eapply (step_goes _ [] _ []); [exact I|reflexivity]).
  serial (eapply (step_goes _ [] _ []); [cbn; set_solver|reflexivity]).
  serial (eapply (step_goes _ [] _ []); [exact I|reflexivity]).
  serial (eapply (step_goes _ [] _ []); [exact I|reflexivity]).
  serial (eapply (step_goes _ [] _ []); [exact I|reflexivity]).
  serial (eapply (step_returns _ [] _ []); [exact I|reflexivity]).
  serial (apply step_loop; reflexivity). apply rtc_refl.
Qed.

Lemma demo_stopping_reachable : serially_reachable (demo_stopping [StopJoin false]).
Proof.
  refine (rtc_trans _ demo_waiting_reachable _).
  serial (apply (step_enter _ [] _ entry_server_stop)).
  serial (eapply (step_goes _ [] _ []); [exact I|reflexivity]).
  serial (eapply (step_goes _ [] _ []); [exact I|reflexivity]).
  serial (eapply (step_goes _ [] _ []); [exact I|reflexivity]). apply rtc_refl.
Qed.

Lemma server_safe_witness :
  call_step (set_running demo_waiting false) (StopJoin false) ≠ Terminates.
Proof.
  destruct (serially_reachable_inv _ demo_stopping_reachable) as [_ H].
  apply (proj2 (server_safe (demo_stopping [StopJoin false]) H) demo_stopping_reachable). by apply list_elem_of_singleton.
Defined.

Lemma stop_liveness_witness :
  join_completes (set_thread (set_running demo_waiting false) (LeftLoop 3)) false.
Proof.
  destruct (serially_reachable_inv _ demo_stopping_reachable) as [_ H].
  exact (proj2 (stop_liveness (demo_stopping [StopJoin false]) false H ltac:(by apply list_elem_of_singleton))
    demo_stopping_reachable None _ I eq_refl).
Defined.

(** While [Shutdown] waits in [js_socket_server_stop], without the engine's
    lock, a script of a client that is still connected starts the server: the
    flag is already clear, and the assignment to the joinable thread ends the
    process. *)
Lemma server_start_race : ∃ x, reachable x ∧ StopJoin false ∈ calls x ∧
  ∃ p, p ∈ calls x ∧ call_step (srv x) p = Terminates.
Proof.
  destruct (serially_reachable_inv _ demo_stopping_reachable) as [_ H]. eexists. split.
  - refine (rtc_trans _ H _).
    eapply rtc_l; [apply (step_enter _ _ _ (entry_start (mkStartEnv (Some 5) true true 5)))|]. cbn [app].
    eapply rtc_l; [eapply (step_goes _ [_] _ []); [exact I|reflexivity]|]. cbn [app].
    eapply rtc_l; [eapply (step_goes _ [_] _ []); [cbn; set_solver|reflexivity]|]. cbn [app].
    eapply rtc_l; [eapply (step_goes _ [_] _ []); [exact I|reflexivity]|]. cbn [app].
    eapply rtc_l; [eapply (step_goes _ [_] _ []); [exact I|reflexivity]|]. cbn [app]. apply rtc_refl.
  - cbn [calls srv]. split; [apply elem_of_cons; by left|]. exists (StartThread 5).
    split; [rewrite !elem_of_cons; by right; left|reflexivity].
Qed.

End JsServer.
