(* ===== verification/A64Frame.v ===== *)
(** * A64 instructions on stack frames

    Specification vocabulary, like [Arm64Machine], for the code the JavaScript
    bindings emit at run time: stores, loads and pairs relative to a base
    register, arithmetic on SP and RET, and what running a sequence of them
    does to a frame. Written from the Arm Architecture Reference Manual; the
    program contains no such interpreter. *)

From S2P Require Import Prelude Arm64 Arm64Machine Assembler.

Module A64F.
Import A64.

Inductive finst : Set :=
| FBase (i : inst)
| FAddSub (sub : bool) (rd rn imm : Z)
| FStrX (rt rn off : Z)
| FStrV (n : nat) (rt rn off : Z)
| FLdrV (n : nat) (rt rn off : Z)
| FStpPre (rt rt2 rn off : Z)
| FLdpPost (rt rt2 rn off : Z)
| FRet (rn : Z).

(** Unsigned-offset stores and vector loads scale their immediate by the size
    of the access: size 00 is a byte for opc 0x, and 16 bytes for opc 1x. *)
Definition fdecode (w : Z) : finst :=
  let rt := fld w 0 5 in
  let rn := fld w 5 5 in
  let imm12 := fld w 10 12 in
  let op := fld w 22 10 in
  if op =? 0x344 then FAddSub true rt rn imm12
  else if op =? 0x244 then FAddSub false rt rn imm12
  else if op =? 0x3E4 then FStrX rt rn (8 * imm12)
  else if op =? 0x0F4 then FStrV 1 rt rn imm12
  else if op =? 0x0F5 then FLdrV 1 rt rn imm12
  else if op =? 0x0F6 then FStrV 16 rt rn (16 * imm12)
  else if op =? 0x0F7 then FLdrV 16 rt rn (16 * imm12)
  else if op =? 0x3F4 then FStrV 8 rt rn (8 * imm12)
  else if op =? 0x3F5 then FLdrV 8 rt rn (8 * imm12)
  else if op =? 0x2A6 then FStpPre rt (fld w 10 5) rn (8 * sext 7 (fld w 15 7))
  else if op =? 0x2A3 then FLdpPost rt (fld w 10 5) rn (8 * sext 7 (fld w 15 7))
  else if (fld w 10 22 =? 0x3597C0) && (rt =? 0) then FRet rn
  else FBase (decode w).

Definition set_sp (s : state) (v : Z) : state :=
  State (xr s) (vr s) (u64 v) (nzcv s) (pc s) (mem s).
Definition set_xsp (s : state) (r v : Z) : state :=
  if r =? 31 then set_sp s v else set_x s r v.

(** Store the [n] low bytes of [v] at [a]. *)
Definition store (s : state) (a : Z) (n : nat) (v : Z) : state :=
  State (xr s) (vr s) (sp s) (nzcv s) (pc s)
    (λ x, let i := u64 (x - a) in
          if i <? Z.of_nat n then (v / 256 ^ i) mod 256 else mem s x).

Definition fexec (i : finst) (s : state) : option state :=
  match i with
  | FBase i => exec i s
  | FAddSub sub rd rn imm =>
      Some (next (set_xsp s rd (if sub then get_xsp s rn - imm else get_xsp s rn + imm)))
  | FStrX rt rn off => Some (next (store s (get_xsp s rn + off) 8 (get_x s rt)))
  | FStrV n rt rn off => Some (next (store s (get_xsp s rn + off) n (vr s rt)))
  | FLdrV n rt rn off => Some (next (set_v s rt (load s (get_xsp s rn + off) n)))
  | FStpPre rt rt2 rn off =>
      let a := get_xsp s rn + off in
      Some (next (set_xsp (store (store s a 8 (get_x s rt)) (a + 8) 8 (get_x s rt2)) rn a))
  | FLdpPost rt rt2 rn off =>
      let a := get_xsp s rn in
      Some (next (set_xsp (set_x (set_x s rt (load s a 8)) rt2 (load s (a + 8) 8)) rn (a + off)))
  | FRet rn => Some (set_pc s (get_x s rn))
  end.

Definition fstep (s : state) : option state := fexec (fdecode (fetch s)) s.

Fixpoint frun (n : nat) (s : state) : option state :=
  match n with
  | O => Some s
  | S n => s' ← fstep s; frun n s'
  end.

Lemma frun_app n m s : frun (n + m) s = s' ← frun n s; frun m s'.
Proof.
  revert s. induction n as [|n IH]; intros s; cbn [frun Nat.add]; [done|].
  destruct (fstep s); cbn [mbind option_bind]; auto.
Qed.

(** ** Memory *)

Lemma u64_sub_add a i n : 0 <= i < n → n <= 2 ^ 64 → u64 (u64 (a + i) - a) = i.
Proof.
  intros Hi Hn. unfold u64. rewrite Zminus_mod_idemp_l. replace (a + i - a) with i by lia.
  apply Z.mod_small. lia.
Qed.

Lemma le_bytes_lookup n v i : (i < n)%nat →
  le_bytes n v !! i = Some ((v / 256 ^ Z.of_nat i) mod 256).
Proof.
  revert v i. induction n as [|n IH]; intros v i Hi; [lia|].
  unfold le_bytes; fold le_bytes. destruct i as [|i]; cbn [lookup list_lookup].
  - by rewrite Z.div_1_r.
  - rewrite IH by lia. do 2 f_equal. rewrite Nat2Z.inj_succ, Z.pow_succ_r, Z.div_div by lia. done.
Qed.

Lemma le_val_seq (f : nat → Z) v n :
  (∀ i, (i < n)%nat → f i = (v / 256 ^ Z.of_nat i) mod 256) →
  le_val (map f (seq 0 n)) = v mod 256 ^ Z.of_nat n.
Proof.
  intros H. rewrite <- le_val_bytes. f_equal. apply list_eq. intros i.
  rewrite list_lookup_fmap. destruct (decide (i < n)%nat).
  - rewrite lookup_seq_lt by lia. cbn. rewrite H by done. by rewrite le_bytes_lookup.
  - rewrite !lookup_ge_None_2; [done|rewrite le_bytes_length; lia|rewrite length_seq; lia].
Qed.

(** A byte inside a loaded value. *)
Lemma load_byte s a n j : (∀ x, is_u8 (mem s x)) → (j < n)%nat →
  load s (a + Z.of_nat j) 1 = (load s a n / 256 ^ Z.of_nat j) mod 256.
Proof.
  intros Hu Hj. unfold load. set (bs := map (λ i, mem s (u64 (a + Z.of_nat i))) (seq 0 n)).
  assert (Forall is_u8 bs) as Hb by (apply Forall_fmap, Forall_true; intros; apply Hu).
  pose proof (le_bytes_val bs Hb) as E. assert (length bs = n) as Hl by (unfold bs; by rewrite length_map, length_seq).
  rewrite Hl in E. apply (f_equal (.!! j)) in E. rewrite le_bytes_lookup in E by done.
  assert (bs !! j = Some (mem s (u64 (a + Z.of_nat j)))) as E2.
  { unfold bs. rewrite list_lookup_fmap, lookup_seq_lt by done. done. }
  rewrite E2 in E. injection E as ->. cbn. unfold le_val. rewrite Z.mul_0_r, !Z.add_0_r. done.
Qed.

Lemma load_store_eq s a n v : Z.of_nat n <= 2 ^ 64 →
  load (store s a n v) a n = v mod 256 ^ Z.of_nat n.
Proof.
  intros Hn. unfold load. apply le_val_seq. intros i Hi. cbn [mem store].
  rewrite (u64_sub_add a (Z.of_nat i) (Z.of_nat n)) by lia.
  by destruct (Z.ltb_spec (Z.of_nat i) (Z.of_nat n)); [|lia].
Qed.

(** Two states with the same memory on the bytes read. *)
Lemma load_ext s s' a n :
  (∀ i, 0 <= i < Z.of_nat n → mem s' (u64 (a + i)) = mem s (u64 (a + i))) →
  load s' a n = load s a n.
Proof.
  intros H. unfold load. f_equal. apply list_fmap_ext. intros i j Hj.
  apply lookup_seq in Hj as [-> Hj]. apply H. lia.
Qed.

(** Address [x] is outside the [len] bytes at [lo]. *)
Definition outside (lo len x : Z) : Prop := len <= u64 (x - lo).

Lemma store_outside s a n v x : outside a (Z.of_nat n) x → mem (store s a n v) x = mem s x.
Proof. unfold outside. intros H. cbn. by destruct (Z.ltb_spec (u64 (x - a)) (Z.of_nat n)); [lia|]. Qed.

(** Accesses at fixed offsets from a base. *)
Lemma outside_off b o n p : - 2 ^ 63 <= p - o < 2 ^ 63 → p < o ∨ o + n <= p → 0 <= n <= 2 ^ 63 →
  outside (b + o) n (u64 (b + p)).
Proof.
  intros H1 H2 H3. unfold outside, u64. rewrite Zminus_mod_idemp_l.
  replace (b + p - (b + o)) with (p - o) by lia.
  destruct H2; [|rewrite Z.mod_small; lia].
  replace (p - o) with (2 ^ 64 + (p - o) + (-1) * 2 ^ 64) by lia.
  rewrite Z.mod_add by lia. rewrite Z.mod_small; lia.
Qed.

Lemma load_store_ne s b o n v p m : - 2 ^ 62 <= p - o < 2 ^ 62 → Z.of_nat n <= 2 ^ 62 →
  Z.of_nat m <= 2 ^ 62 → p + Z.of_nat m <= o ∨ o + Z.of_nat n <= p →
  load (store s (b + o) n v) (b + p) m = load s (b + p) m.
Proof.
  intros H1 H2 H3 H4. apply load_ext. intros i Hi. apply store_outside.
  rewrite <- Z.add_assoc. apply outside_off; lia.
Qed.

(** ** Memory stays bytes *)

Definition byte_mem (s : state) : Prop := ∀ x, is_u8 (mem s x).

Lemma place_bytes base bs x : Forall is_u8 bs → is_u8 (place base bs x).
Proof.
  intros Hb. unfold place. destruct (bs !! Z.to_nat (x - base)) as [b|] eqn:E; [|done].
  rewrite Forall_lookup in Hb. by apply (Hb _ b E).
Qed.

Lemma store_bytes s a n v : byte_mem s → byte_mem (store s a n v).
Proof.
  intros H x. cbn. destruct (_ <? _); [apply Z.mod_pos_bound; lia|apply H].
Qed.

Lemma exec_mem i s s' : exec i s = Some s' → mem s' = mem s.
Proof.
  destruct i; cbn [exec]; repeat case_match; intros [= <-]; try done.
  all: by destruct (cond_holds _ _) || by destruct (xorb _ _) || by destruct (Bool.eqb _ _).
Qed.

Lemma frun_bytes n s s' : frun n s = Some s' → byte_mem s → byte_mem s'.
Proof.
  revert s. induction n as [|n IH]; intros s H Hb; cbn [frun] in H; [by simplify_eq|].
  destruct (fstep s) as [s1|] eqn:E; [|done]. cbn in H. apply (IH s1 H). clear IH H.
  unfold fstep in E. destruct (fdecode (fetch s)) as [i|sub rd rn imm|rt rn off|k rt rn off|
    k rt rn off|rt rt2 rn off|rt rt2 rn off|rn]; cbn [fexec] in E.
  1: intros x; by rewrite (exec_mem _ _ _ E).
  all: injection E as <-; unfold set_xsp; try destruct (_ =? 31); try done;
    intros x; try apply store_bytes; try done; by apply store_bytes.
Qed.

(** ** Sequences of instructions that fall through *)

Definition plain (i : finst) : bool :=
  match i with
  | FBase (ILdrX _ _ _ | IMov _ _ | IMovz _ _ _ | IMovk _ _ _) => true
  | FBase _ | FRet _ => false
  | _ => true
  end.

(** Memory outside the [len] bytes at [lo] is the same. *)
Definition stays (lo len : Z) (s s' : state) : Prop :=
  ∀ x, outside lo len x → mem s' x = mem s x.

(** Executing [il] in order, writing only to the [len] bytes at [lo]. *)
Inductive seq_run (lo len : Z) : list finst → state → state → Prop :=
| seq_nil s : seq_run lo len [] s s
| seq_cons i il s s1 s2 :
    plain i = true → fexec i s = Some s1 → stays lo len s s1 →
    seq_run lo len il s1 s2 → seq_run lo len (i :: il) s s2.

Lemma seq_run_app lo len il1 il2 s s1 s2 :
  seq_run lo len il1 s s1 → seq_run lo len il2 s1 s2 → seq_run lo len (il1 ++ il2) s s2.
Proof. induction 1; cbn [app]; [done|]. intros. eapply seq_cons; eauto. Qed.

Lemma seq_run_one lo len i s s1 :
  plain i = true → fexec i s = Some s1 → stays lo len s s1 → seq_run lo len [i] s s1.
Proof. intros. eapply seq_cons; [done..|]. constructor. Qed.

Lemma seq_run_stays lo len il s s' : seq_run lo len il s s' → stays lo len s s'.
Proof.
  induction 1 as [|i il s s1 s2 _ _ H1 _ IH]; intros x Hx; [done|]. by rewrite IH, H1.
Qed.

Lemma set_xsp_pc s r v : pc (set_xsp s r v) = pc s.
Proof. unfold set_xsp. by destruct (r =? 31). Qed.

Lemma plain_pc i s s1 : plain i = true → fexec i s = Some s1 → pc s1 = u64 (pc s + 4).
Proof.
  intros Hp H. destruct i as [i| | | | | | |]; cbn in H; simplify_eq; try done;
    try (cbn; by rewrite ?set_xsp_pc).
  destruct i; cbn in Hp, H; simplify_eq; done.
Qed.

Lemma fstep_word s w i : is_u32 w → code_at (mem s) (pc s) (le_bytes 4 w) → fdecode w = i →
  fstep s = fexec i s.
Proof. intros Hw H <-. unfold fstep, fetch. by rewrite (load_word s _ w). Qed.

(** The code is not in the written region. *)
Definition clear_of (lo len a n : Z) : Prop :=
  ∀ i, 0 <= i < n → outside lo len (u64 (a + i)).

Lemma clear_of_sub lo len a n o m : clear_of lo len a n → 0 <= o → o + m <= n →
  clear_of lo len (a + o) m.
Proof. intros H Ho Hm i Hi. rewrite <- Z.add_assoc. apply H. lia. Qed.

Lemma code_at_stays lo len s s' a bs : stays lo len s s' → clear_of lo len a (zlen bs) →
  code_at (mem s) a bs → code_at (mem s') a bs.
Proof.
  intros Hs Hc H i b Hi. pose proof (lookup_lt_Some _ _ _ Hi). rewrite Hs by (apply Hc; lia).
  by apply H.
Qed.

Lemma seq_run_frun lo len il s s' ws : seq_run lo len il s s' → fdecode <$> ws = il →
  Forall is_u32 ws → is_u64 (pc s) → code_at (mem s) (pc s) (words_bytes ws) →
  clear_of lo len (pc s) (4 * zlen ws) →
  frun (length ws) s = Some s' ∧ pc s' = u64 (pc s + 4 * zlen ws).
Proof.
  intros Hr. revert ws. induction Hr as [s|i il s s1 s2 Hp He Hs _ IH];
    intros ws Hd Hw Hpc Hc Ho.
  - destruct ws; [|done]. cbn. rewrite Z.add_0_r, u64_id by done. done.
  - destruct ws as [|w ws]; [done|]. injection Hd as Hd1 Hd2.
    apply Forall_cons in Hw as [Hw1 Hw2]. rewrite words_bytes_cons in Hc.
    apply code_at_app in Hc as [Hc1 Hc2]. rewrite le_bytes_length in Hc2. cbn [length] in *.
    pose proof (plain_pc _ _ _ Hp He) as Hpc1.
    assert (clear_of lo len (pc s + 4) (4 * zlen ws)) as Ho2
      by (eapply clear_of_sub; [exact Ho|lia|lia]).
    destruct (IH ws) as [IH1 IH2]; [done|done|rewrite Hpc1; apply u64_range| | |].
    + rewrite Hpc1. apply code_at_u64. eapply code_at_stays; [exact Hs| |exact Hc2].
      rewrite words_bytes_length. by replace (Z.of_nat (4 * length ws)) with (4 * zlen ws) by lia.
    + intros j Hj. rewrite Hpc1, u64_add_l. by apply Ho2.
    + cbn [frun]. rewrite (fstep_word s w i) by done. rewrite He. cbn [mbind option_bind].
      split; [done|]. rewrite IH2, Hpc1, u64_add_l. f_equal. lia.
Qed.

(** ** Saving and restoring registers relative to SP *)

(** Only memory and the program counter may differ. *)
Record regs_eq (s s' : state) : Prop := {
  re_x : xr s' = xr s;
  re_v : vr s' = vr s;
  re_sp : sp s' = sp s;
  re_f : nzcv s' = nzcv s
}.

Lemma regs_eq_refl s : regs_eq s s.
Proof. done. Qed.
Lemma regs_eq_trans s s1 s2 : regs_eq s s1 → regs_eq s1 s2 → regs_eq s s2.
Proof. intros [] []. split; congruence. Qed.

(** The memory at [b + p] is the same for the offsets [p] of a range. *)
Definition keeps (b lo hi : Z) (s s' : state) : Prop :=
  ∀ p, lo <= p < hi → mem s' (u64 (b + p)) = mem s (u64 (b + p)).

Lemma keeps_load b lo hi s s' p n : keeps b lo hi s s' → lo <= p → p + Z.of_nat n <= hi →
  load s' (b + p) n = load s (b + p) n.
Proof.
  intros H H1 H2. apply load_ext. intros i Hi. rewrite <- Z.add_assoc. apply H. lia.
Qed.

Lemma keeps_trans b lo hi s s1 s2 : keeps b lo hi s s1 → keeps b lo hi s1 s2 → keeps b lo hi s s2.
Proof. intros H1 H2 p Hp. by rewrite H2, H1. Qed.

Lemma keeps_sub b lo hi lo' hi' s s' : keeps b lo hi s s' → lo <= lo' → hi' <= hi →
  keeps b lo' hi' s s'.
Proof. intros H ?? p Hp. apply H. lia. Qed.

(** A store of [n] bytes at offset [o] of a frame of [len] bytes at [b]. *)
Lemma store_stays b len o n v s : 0 <= o → o + Z.of_nat n <= len → len <= 2 ^ 32 →
  stays b len s (next (store s (b + o) n v)).
Proof.
  intros Ho Hn Hl x Hx. cbn [next set_pc mem]. apply store_outside. unfold outside in *.
  replace (x - (b + o)) with (x - b - o) by lia.
  unfold u64 in *. rewrite <- Zminus_mod_idemp_l.
  pose proof (Z.mod_pos_bound (x - b) (2 ^ 64) ltac:(lia)). rewrite Z.mod_small by lia. lia.
Qed.

Lemma store_keeps b o n v s lo hi : - 2 ^ 62 <= lo → hi <= 2 ^ 62 → 0 <= o <= 2 ^ 32 →
  Z.of_nat n <= 2 ^ 32 → hi <= o ∨ o + Z.of_nat n <= lo →
  keeps b lo hi s (next (store s (b + o) n v)).
Proof.
  intros ????? p Hp. cbn [next set_pc mem]. apply store_outside, outside_off; lia.
Qed.

Section Save.
Variables (b len : Z).
Hypothesis len_small : len <= 2 ^ 32.

(** The two kinds of store, and what they leave in their slot. *)
Variables (sz : nat) (ins : Z → Z → finst) (val : state → Z → Z).
Hypothesis sz_pos : (0 < sz <= 16)%nat.
Hypothesis ins_exec : ∀ s i o, sp s = b →
  fexec (ins i o) s = Some (next (store s (b + o) sz (val s i))).
Hypothesis ins_plain : ∀ i o, plain (ins i o) = true.
Hypothesis val_regs : ∀ s s' i, regs_eq s s' → val s' i = val s i.

Lemma save_seq s o (k : nat) : sp s = b → 0 <= o → o + Z.of_nat (sz * k) <= len →
  ∃ s', seq_run b len ((λ i, ins i (o + Z.of_nat sz * i)) <$> seqZ 0 (Z.of_nat k)) s s' ∧
    regs_eq s s' ∧
    (∀ i, 0 <= i < Z.of_nat k →
       load s' (b + (o + Z.of_nat sz * i)) sz = val s i mod 256 ^ Z.of_nat sz) ∧
    keeps b (- 2 ^ 32) o s s' ∧ keeps b (o + Z.of_nat (sz * k)) (2 ^ 33) s s'.
Proof using len_small sz_pos ins_exec ins_plain val_regs.
  intros Hb Ho. induction k as [|k IH]; intros Hk.
  - exists s. split; [constructor|]. split; [done|]. split; [lia|]. done.
  - destruct IH as (s1 & Hr & Hg & Hl & Hk1 & Hk2); [lia|].
    set (o' := o + Z.of_nat sz * Z.of_nat k).
    assert (fexec (ins (Z.of_nat k) o') s1 =
      Some (next (store s1 (b + o') sz (val s1 (Z.of_nat k))))) as He.
    { apply ins_exec. by rewrite (re_sp _ _ Hg). }
    eexists. split; [|split; [|split]].
    + rewrite seqZ_S, fmap_app. eapply seq_run_app; [exact Hr|].
      cbn [fmap list_fmap]. rewrite Z.add_0_l. eapply seq_run_one; [done|exact He|].
      apply store_stays; lia.
    + eapply regs_eq_trans; [exact Hg|done].
    + intros i Hi. destruct (decide (i = Z.of_nat k)) as [->|Hne].
      * fold o'. unfold next. change (load (set_pc ?x ?p)) with (load x).
        rewrite load_store_eq by lia. by rewrite (val_regs s s1).
      * rewrite (keeps_load b (- 2 ^ 32) o' s1); [by apply Hl; lia| |nia|nia].
        apply store_keeps; lia.
    + split.
      * eapply keeps_trans; [exact Hk1|]. apply store_keeps; lia.
      * eapply keeps_trans; [eapply keeps_sub; [exact Hk2|lia|lia]|].
        apply store_keeps; lia.
Qed.

End Save.

(** STR Xi / STR Qi at consecutive slots. *)
Definition save_x (o : Z) (k : nat) : list finst :=
  (λ i, FStrX i 31 (o + 8 * i)) <$> seqZ 0 (Z.of_nat k).
Definition save_q (o : Z) (k : nat) : list finst :=
  (λ i, FStrV 16 i 31 (o + 16 * i)) <$> seqZ 0 (Z.of_nat k).
(** LDR Xi from consecutive slots behind a base register. *)
Definition load_xr (rn o : Z) (k : nat) : list finst :=
  (λ i, FBase (ILdrX i rn (o + 8 * i))) <$> seqZ 0 (Z.of_nat k).
Definition load_x : Z → nat → list finst := load_xr 31.

Lemma save_x_ok b len s o (k : nat) : len <= 2 ^ 32 → sp s = b → 0 <= o → o + 8 * Z.of_nat k <= len →
  (k <= 31)%nat → (∀ r, is_u64 (xr s r)) →
  ∃ s', seq_run b len (save_x o k) s s' ∧ regs_eq s s' ∧
    (∀ i, 0 <= i < Z.of_nat k → load s' (b + (o + 8 * i)) 8 = xr s i) ∧
    keeps b (- 2 ^ 32) o s s' ∧ keeps b (o + 8 * Z.of_nat k) (2 ^ 33) s s'.
Proof.
  intros Hl Hb Ho Hk Hk31 Hx.
  destruct (save_seq b len Hl 8 (λ i o, FStrX i 31 o) get_x) with (s := s) (o := o) (k := k)
    as (s' & H1 & H2 & H3 & H4 & H5); try done; try lia.
  - intros t i o' Ht. cbn. by rewrite Ht.
  - intros t t' i [E _ _ _]. unfold get_x. by rewrite E.
  - exists s'. split_and!; try done.
    + intros i Hi. rewrite H3 by done. unfold get_x. destruct (Z.eqb_spec i 31); [lia|].
      apply Z.mod_small. change (256 ^ Z.of_nat 8) with (2 ^ 64). apply Hx.
    + by replace (8 * Z.of_nat k) with (Z.of_nat (8 * k)) by lia.
Qed.

Lemma save_q_ok b len s o (k : nat) : len <= 2 ^ 32 → sp s = b → 0 <= o → o + 16 * Z.of_nat k <= len →
  ∃ s', seq_run b len (save_q o k) s s' ∧ regs_eq s s' ∧
    (∀ i, 0 <= i < Z.of_nat k → load s' (b + (o + 16 * i)) 16 = vr s i mod 2 ^ 128) ∧
    keeps b (- 2 ^ 32) o s s' ∧ keeps b (o + 16 * Z.of_nat k) (2 ^ 33) s s'.
Proof.
  intros Hl Hb Ho Hk.
  destruct (save_seq b len Hl 16 (λ i o, FStrV 16 i 31 o) (λ s i, vr s i)) with (s := s) (o := o) (k := k)
    as (s' & H1 & H2 & H3 & H4 & H5); try done; try lia.
  - intros t i o' Ht. cbn. by rewrite Ht.
  - intros t t' i [_ E _ _]. by rewrite E.
  - exists s'. split_and!; try done.
    by replace (16 * Z.of_nat k) with (Z.of_nat (16 * k)) by lia.
Qed.

(** Everything but the general registers and the program counter. *)
Record rest_eq (s s' : state) : Prop := {
  rt_v : vr s' = vr s;
  rt_sp : sp s' = sp s;
  rt_f : nzcv s' = nzcv s;
  rt_m : mem s' = mem s
}.

Lemma stays_mem lo len s s' : mem s' = mem s → stays lo len s s'.
Proof. intros E x _. by rewrite E. Qed.

Lemma load_mem s s' a n : mem s' = mem s → load s' a n = load s a n.
Proof. intros E. unfold load. by rewrite E. Qed.

Lemma load_xr_ok lo len s rn b o (k : nat) : get_xsp s rn = b → (k <= 31)%nat →
  Z.of_nat k <= rn →
  ∃ s', seq_run lo len (load_xr rn o k) s s' ∧ rest_eq s s' ∧
    (∀ i, 0 <= i < Z.of_nat k → xr s' i = u64 (load s (b + (o + 8 * i)) 8)) ∧
    (∀ r, r < 0 ∨ Z.of_nat k <= r → xr s' r = xr s r).
Proof.
  intros Hb. induction k as [|k IH]; intros Hk Hrn.
  - exists s. split; [constructor|]. by split_and!; [|lia|].
  - destruct IH as (s1 & Hr & Hg & Hl & Ho); [lia..|].
    assert (get_xsp s1 rn = b) as Hb1.
    { rewrite <- Hb. unfold get_xsp. rewrite (rt_sp _ _ Hg), Ho by lia. done. }
    eexists. split; [|split; [|split]].
    + unfold load_xr. rewrite seqZ_S, fmap_app. eapply seq_run_app; [exact Hr|].
      cbn [fmap list_fmap]. rewrite Z.add_0_l. eapply seq_run_one; [done|reflexivity|]. by apply stays_mem.
    + destruct Hg. by split.
    + intros i Hi. cbn [next set_pc set_x xr].
      rewrite Hb1. destruct (Z.eqb_spec i (Z.of_nat k)) as [->|Hne].
      * destruct (Z.eqb_spec (Z.of_nat k) 31); [lia|]. cbn [andb negb].
        by rewrite (load_mem s s1) by apply Hg.
      * cbn. apply Hl. lia.
    + intros r Hr'. cbn. destruct (Z.eqb_spec r (Z.of_nat k)); [lia|]. cbn. apply Ho. lia.
Qed.

Lemma load_x_ok b len s o (k : nat) : sp s = b → (k <= 31)%nat →
  ∃ s', seq_run b len (load_x o k) s s' ∧ rest_eq s s' ∧
    (∀ i, 0 <= i < Z.of_nat k → xr s' i = u64 (load s (b + (o + 8 * i)) 8)) ∧
    (∀ r, r < 0 ∨ Z.of_nat k <= r → xr s' r = xr s r).
Proof. intros Hb Hk. apply load_xr_ok; [exact Hb|done|lia]. Qed.

(** LDR Bi: a byte into the whole vector register. *)
Definition load_b (o : Z) (k : nat) : list finst :=
  (λ i, FLdrV 1 i 31 (o + i)) <$> seqZ 0 (Z.of_nat k).

(** Everything but the vector registers and the program counter. *)
Record but_v (s s' : state) : Prop := {
  bv_x : xr s' = xr s;
  bv_sp : sp s' = sp s;
  bv_f : nzcv s' = nzcv s;
  bv_m : mem s' = mem s
}.

Lemma load_b_ok b len s o (k : nat) : sp s = b →
  ∃ s', seq_run b len (load_b o k) s s' ∧ but_v s s' ∧
    (∀ i, 0 <= i < Z.of_nat k → vr s' i = load s (b + (o + i)) 1) ∧
    (∀ r, r < 0 ∨ Z.of_nat k <= r → vr s' r = vr s r).
Proof.
  intros Hb. induction k as [|k IH].
  - exists s. split; [constructor|]. by split_and!; [|lia|].
  - destruct IH as (s1 & Hr & Hg & Hl & Ho).
    eexists. split; [|split; [|split]].
    + unfold load_b. rewrite seqZ_S, fmap_app. eapply seq_run_app; [exact Hr|].
      cbn [fmap list_fmap]. rewrite Z.add_0_l. eapply seq_run_one; [done|reflexivity|].
      by apply stays_mem.
    + destruct Hg. by split.
    + intros i Hi. cbn [next set_pc set_v vr get_xsp Z.eqb Pos.eqb].
      rewrite (bv_sp _ _ Hg), Hb. destruct (Z.eqb_spec i (Z.of_nat k)) as [->|Hne].
      * by rewrite (load_mem s s1) by apply Hg.
      * apply Hl. lia.
    + intros r Hr'. cbn [next set_pc set_v vr]. destruct (Z.eqb_spec r (Z.of_nat k)); [lia|].
      apply Ho. lia.
Qed.

(** LDR Di from consecutive slots behind a base register. *)
Definition load_d (rn o : Z) (k : nat) : list finst :=
  (λ i, FLdrV 8 i rn (o + 8 * i)) <$> seqZ 0 (Z.of_nat k).

Lemma load_d_ok lo len s rn b o (k : nat) : get_xsp s rn = b →
  ∃ s', seq_run lo len (load_d rn o k) s s' ∧ but_v s s' ∧
    (∀ i, 0 <= i < Z.of_nat k → vr s' i = load s (b + (o + 8 * i)) 8) ∧
    (∀ r, r < 0 ∨ Z.of_nat k <= r → vr s' r = vr s r).
Proof.
  intros Hb. induction k as [|k IH].
  - exists s. split; [constructor|]. by split_and!; [|lia|].
  - destruct IH as (s1 & Hr & Hg & Hl & Ho).
    assert (get_xsp s1 rn = b) as Hb1.
    { rewrite <- Hb. unfold get_xsp. by rewrite (bv_sp _ _ Hg), (bv_x _ _ Hg). }
    eexists. split; [|split; [|split]].
    + unfold load_d. rewrite seqZ_S, fmap_app. eapply seq_run_app; [exact Hr|].
      cbn [fmap list_fmap]. rewrite Z.add_0_l. eapply seq_run_one; [done|reflexivity|].
      by apply stays_mem.
    + destruct Hg. by split.
    + intros i Hi. cbn [next set_pc set_v vr]. rewrite Hb1.
      destruct (Z.eqb_spec i (Z.of_nat k)) as [->|Hne]; [|apply Hl; lia].
      by rewrite (load_mem s s1) by apply Hg.
    + intros r Hr'. cbn [next set_pc set_v vr]. destruct (Z.eqb_spec r (Z.of_nat k)); [lia|].
      apply Ho. lia.
Qed.

(** STR Di at consecutive slots above SP. *)
Definition save_d (o : Z) (k : nat) : list finst :=
  (λ i, FStrV 8 i 31 (o + 8 * i)) <$> seqZ 0 (Z.of_nat k).

Lemma save_d_ok b len s o (k : nat) : len <= 2 ^ 32 → sp s = b → 0 <= o → o + 8 * Z.of_nat k <= len →
  ∃ s', seq_run b len (save_d o k) s s' ∧ regs_eq s s' ∧
    (∀ i, 0 <= i < Z.of_nat k → load s' (b + (o + 8 * i)) 8 = vr s i mod 2 ^ 64) ∧
    keeps b (- 2 ^ 32) o s s' ∧ keeps b (o + 8 * Z.of_nat k) (2 ^ 33) s s'.
Proof.
  intros Hl Hb Ho Hk.
  destruct (save_seq b len Hl 8 (λ i o, FStrV 8 i 31 o) (λ s i, vr s i)) with (s := s) (o := o) (k := k)
    as (s' & H1 & H2 & H3 & H4 & H5); try done; try lia.
  - intros t i o' Ht. cbn. by rewrite Ht.
  - intros t t' i [_ E _ _]. by rewrite E.
  - exists s'. split_and!; try done.
    by replace (8 * Z.of_nat k) with (Z.of_nat (8 * k)) by lia.
Qed.

(** ** Materialising a 64-bit constant *)

Definition mov_imm (rd val : Z) : list finst :=
  [FBase (IMovz rd (val mod 2 ^ 16) 0); FBase (IMovk rd (val / 2 ^ 16 mod 2 ^ 16) 1);
   FBase (IMovk rd (val / 2 ^ 32 mod 2 ^ 16) 2); FBase (IMovk rd (val / 2 ^ 48 mod 2 ^ 16) 3)].

(** [s'] is [s] with [val] in X[rd], but for the program counter. *)
Record x_set (rd val : Z) (s s' : state) : Prop := {
  xs_x : ∀ r, xr s' r = if r =? rd then val else xr s r;
  xs_rest : rest_eq s s'
}.

Lemma get_set_x s rd v : rd ≠ 31 → get_x (next (set_x s rd v)) rd = u64 v.
Proof.
  intros H. unfold get_x. cbn. destruct (Z.eqb_spec rd 31); [done|]. by rewrite Z.eqb_refl.
Qed.

Lemma movk_value v k x : is_u64 v → 1 <= k <= 3 → x = v mod 2 ^ (16 * k) →
  u64 (x - fld x (16 * k) 16 * 2 ^ (16 * k) + v / 2 ^ (16 * k) mod 2 ^ 16 * 2 ^ (16 * k)) =
    v mod 2 ^ (16 * k + 16).
Proof.
  intros Hv Hk ->. unfold fld.
  pose proof (Z.mod_pos_bound v (2 ^ (16 * k)) ltac:(apply Z.pow_pos_nonneg; lia)).
  rewrite Z.div_small by done. rewrite Z.mod_0_l by lia.
  rewrite Z.pow_add_r, Z.rem_mul_r by (try apply Z.pow_pos_nonneg; lia).
  rewrite Z.mul_0_l, Z.sub_0_r, (Z.mul_comm (2 ^ (16 * k))). apply Z.mod_small.
  assert (k = 1 ∨ k = 2 ∨ k = 3) as [->|[->| ->]] by lia; zmod_lia.
Qed.

Lemma mov_imm_ok b len s rd val : 0 <= rd < 31 → is_u64 val →
  ∃ s', seq_run b len (mov_imm rd val) s s' ∧ x_set rd val s s'.
Proof.
  intros Hrd Hv. assert (rd ≠ 31) as Hn by lia.
  set (s1 := next (set_x s rd (val mod 2 ^ 16))).
  set (up := λ s k, next (set_x s rd (get_x s rd - fld (get_x s rd) (16 * k) 16 * 2 ^ (16 * k)
               + val / 2 ^ (16 * k) mod 2 ^ 16 * 2 ^ (16 * k)))).
  exists (up (up (up s1 1) 2) 3). split.
  - apply (seq_cons _ _ _ _ s s1); [done| |by apply stays_mem|].
    { cbn [fexec exec]. change (2 ^ (16 * 0)) with 1. by rewrite Z.mul_1_r. }
    apply (seq_cons _ _ _ _ s1 (up s1 1)); [done|done|by apply stays_mem|].
    apply (seq_cons _ _ _ _ _ (up (up s1 1) 2)); [done|done|by apply stays_mem|].
    apply seq_run_one; [done|done|by apply stays_mem].
  - assert (get_x s1 rd = val mod 2 ^ (16 * 1)) as E1.
    { unfold s1. rewrite get_set_x by done. apply u64_id. unfold is_u64. zmod_lia. }
    assert (∀ t k, 1 <= k <= 3 → get_x t rd = val mod 2 ^ (16 * k) →
      get_x (up t k) rd = val mod 2 ^ (16 * k + 16)) as Hup.
    { intros t k Hk Ht. unfold up. rewrite get_set_x by done. by apply movk_value. }
    pose proof (Hup _ 1 ltac:(lia) E1) as E2. pose proof (Hup _ 2 ltac:(lia) E2) as E3.
    pose proof (Hup _ 3 ltac:(lia) E3) as E4.
    split; [|by split]. intros r. destruct (Z.eqb_spec r rd) as [->|Hne].
    + unfold get_x in E4 at 1. destruct (Z.eqb_spec rd 31); [done|]. rewrite E4.
      by apply Z.mod_small.
    + unfold up, s1. cbn [next set_pc set_x xr]. by rewrite (proj2 (Z.eqb_neq r rd)).
Qed.

(** The words [Assembler::EmitMovImm64] writes. *)
Definition mov_word (op hw imm rd : Z) : Z := op .| u32 (hw << 21) .| u32 (imm << 5) .| rd.

Lemma mov_word_sum op hw imm rd : op = 0xD2800000 ∨ op = 0xF2800000 → 0 <= hw <= 3 →
  is_u16 imm → 0 <= rd < 32 → mov_word op hw imm rd = op + hw * 2 ^ 21 + imm * 2 ^ 5 + rd.
Proof.
  intros Hop Hhw Hi Hrd. unfold mov_word, is_u16 in *. rewrite !Z.shiftl_mul_pow2 by lia.
  rewrite !u32_id by (unfold is_u32; lia).
  assert (∃ c, op = c * 2 ^ 23) as [c Hc] by (destruct Hop as [->| ->]; [by exists 0x1A5|by exists 0x1E5]).
  rewrite Hc.
  rewrite (lor_low_high (hw * 2 ^ 21) c 23) by lia.
  replace (c * 2 ^ 23 + hw * 2 ^ 21) with ((4 * c + hw) * 2 ^ 21) by lia.
  rewrite (lor_low_high (imm * 2 ^ 5) _ 21) by lia.
  replace ((4 * c + hw) * 2 ^ 21 + imm * 2 ^ 5) with ((2 ^ 16 * (4 * c + hw) + imm) * 2 ^ 5) by lia.
  rewrite (lor_low_high rd _ 5) by lia. lia.
Qed.

Ltac fdecode_word := unfold fdecode, decode, decode_plain, fld; repeat eval_eqb.

Lemma fdecode_movz imm rd : is_u16 imm → 0 <= rd < 31 →
  fdecode (mov_word 0xD2800000 0 imm rd) = FBase (IMovz rd imm 0).
Proof.
  intros Hi Hrd. rewrite mov_word_sum by (auto || lia). unfold is_u16 in Hi.
  fdecode_word. do 2 f_equal; zmod_lia.
Qed.

Lemma fdecode_movk hw imm rd : 1 <= hw <= 3 → is_u16 imm → 0 <= rd < 31 →
  fdecode (mov_word 0xF2800000 hw imm rd) = FBase (IMovk rd imm hw).
Proof.
  intros Hhw Hi Hrd. rewrite mov_word_sum by (auto || lia). unfold is_u16 in Hi.
  fdecode_word. do 2 f_equal; zmod_lia.
Qed.

Definition mov_words (rd val : Z) : list Z :=
  [mov_word Arm64.kOpMovZ 0 (u16 (val .& 0xFFFF)) rd;
   mov_word Arm64.kOpMovK 1 (u16 ((val >> 16) .& 0xFFFF)) rd;
   mov_word Arm64.kOpMovK 2 (u16 ((val >> 32) .& 0xFFFF)) rd;
   mov_word Arm64.kOpMovK 3 (u16 ((val >> 48) .& 0xFFFF)) rd].

Lemma emits_mov_imm rd val :
  Assembler.emits 4 (λ a, Assembler.EmitMovImm64 a rd val) (mov_words rd val, []).
Proof.
  unfold Assembler.EmitMovImm64, Assembler.EmitMovZ, Assembler.EmitMovK.
  change ((0 ÷ 16) .& 3) with 0. change ((16 ÷ 16) .& 3) with 1.
  change ((32 ÷ 16) .& 3) with 2. change ((48 ÷ 16) .& 3) with 3.
  eapply (Assembler.emits_seq 1 3 4 _ _ ([_], []) ([_; _; _], [])); [apply Assembler.emits_inst| |lia|done].
  eapply (Assembler.emits_seq 1 2 3 _ _ ([_], []) ([_; _], [])); [apply Assembler.emits_inst| |lia|done].
  eapply (Assembler.emits_seq 1 1 2 _ _ ([_], []) ([_], [])); [apply Assembler.emits_inst| |lia|done].
  apply Assembler.emits_inst.
Qed.

Lemma fdecode_mov_words rd val : 0 <= rd < 31 → is_u64 val →
  fdecode <$> mov_words rd val = mov_imm rd val.
Proof.
  intros Hrd Hv. unfold mov_words, mov_imm. mask_mod.
  assert (∀ x, u16 (x mod 2 ^ 16) = x mod 2 ^ 16) as Hu by (intros x; apply Zmod_mod).
  assert (∀ x, is_u16 (x mod 2 ^ 16)) as Hr by (intros x; unfold is_u16; apply Z.mod_pos_bound; lia).
  rewrite !Hu, !Z.shiftr_div_pow2 by lia. cbn [fmap list_fmap].
  rewrite fdecode_movz by auto. rewrite !fdecode_movk by (auto || lia). done.
Qed.

Lemma mov_words_u32 rd val : 0 <= rd < 31 → Forall is_u32 (mov_words rd val).
Proof.
  intros Hrd. assert (∀ op hw imm, op = 0xD2800000 ∨ op = 0xF2800000 → 0 <= hw <= 3 →
    is_u16 imm → is_u32 (mov_word op hw imm rd)) as H.
  { intros op hw imm Ho Hh Hi. rewrite mov_word_sum by (done || lia). unfold is_u32, is_u16 in *. lia. }
  unfold mov_words. repeat constructor; apply H; auto with cint; lia.
Qed.

(** ** Segments of placed code *)

Section Segments.
Context (c : Z) (ws : list Z).
Hypothesis ws_u32 : Forall is_u32 ws.
Hypothesis c_range : 0 <= c ∧ c + 4 * zlen ws <= 2 ^ 63.

Definition placed (s : state) : Prop := code_at (mem s) c (words_bytes ws).

#[local] Set Default Proof Using "Type*".

Lemma placed_same s s' : placed s →
  (∀ i, 0 <= i < 4 * zlen ws → mem s' (u64 (c + i)) = mem s (u64 (c + i))) → placed s'.
Proof.
  intros H Hm i b Hi. pose proof (lookup_lt_Some _ _ _ Hi) as Hl.
  rewrite words_bytes_length in Hl. rewrite Hm by lia. by apply H.
Qed.

Lemma placed_word s pre w post : ws = pre ++ w :: post → placed s → pc s = c + 4 * zlen pre →
  is_u32 w ∧ code_at (mem s) (pc s) (le_bytes 4 w).
Proof.
  intros E Hc Hpc. split.
  - rewrite E, Forall_app in ws_u32. by destruct ws_u32 as [_ [? _]%Forall_cons].
  - unfold placed in Hc. rewrite E, words_bytes_app in Hc. apply code_at_app in Hc as [_ Hc].
    rewrite words_bytes_cons in Hc. apply code_at_app in Hc as [Hc _].
    rewrite words_bytes_length in Hc. rewrite Hpc.
    by replace (4 * zlen pre) with (Z.of_nat (4 * length pre)) by lia.
Qed.

Lemma seg_frun lo len pre seg post il s s' : ws = pre ++ seg ++ post → fdecode <$> seg = il →
  placed s → pc s = c + 4 * zlen pre → clear_of lo len c (4 * zlen ws) → seq_run lo len il s s' →
  frun (length seg) s = Some s' ∧ pc s' = c + 4 * (zlen pre + zlen seg) ∧ placed s'.
Proof.
  intros E Hd Hc Hpc Hcl Hr.
  assert (length ws = length pre + length seg + length post)%nat as Hlen.
  { rewrite E, !length_app. lia. }
  destruct (seq_run_frun lo len il s s' seg Hr Hd) as [H1 H2].
  - rewrite E, !Forall_app in ws_u32. by destruct ws_u32 as (_ & ? & _).
  - rewrite Hpc. unfold is_u64. lia.
  - rewrite Hpc. unfold placed in Hc. rewrite E, !words_bytes_app in Hc.
    apply code_at_app in Hc as [_ Hc]. apply code_at_app in Hc as [Hc _].
    rewrite words_bytes_length in Hc. by replace (4 * zlen pre) with (Z.of_nat (4 * length pre)) by lia.
  - rewrite Hpc. apply (clear_of_sub lo len c (4 * zlen ws)); [done|lia|lia].
  - split; [done|]. split.
    + rewrite H2, Hpc. rewrite u64_id by (unfold is_u64; lia). lia.
    + apply (placed_same s); [done|]. intros i Hi. apply (seq_run_stays _ _ _ _ _ Hr). by apply Hcl.
Qed.

(** BLR Xn. *)
Lemma blr_frun pre w post rn s : ws = pre ++ [w] ++ post → fdecode w = FBase (IBlr rn) →
  placed s → pc s = c + 4 * zlen pre →
  frun 1 s = Some (set_pc (set_x s 30 (c + 4 * (zlen pre + 1))) (get_x s rn)).
Proof.
  intros E Hw Hc Hpc. destruct (placed_word s pre w post E Hc Hpc) as [Hu Hcw]. cbn [frun].
  rewrite (fstep_word s w (FBase (IBlr rn))) by done. cbn [fexec exec mbind option_bind]. rewrite Hpc.
  by replace (c + 4 * zlen pre + 4) with (c + 4 * (zlen pre + 1)) by lia.
Qed.

(** RET Xn. *)
Lemma ret_frun pre w post rn s : ws = pre ++ [w] ++ post → fdecode w = FRet rn →
  placed s → pc s = c + 4 * zlen pre → frun 1 s = Some (set_pc s (get_x s rn)).
Proof.
  intros E Hw Hc Hpc. destruct (placed_word s pre w post E Hc Hpc) as [Hu Hcw]. cbn [frun].
  by rewrite (fstep_word s w (FRet rn)).
Qed.

End Segments.

(** A called function follows the procedure call standard: it returns to the
    link register with SP and X19 .. X29 as they were and does not write the
    [n] bytes at [c], where the calling code is. *)
Record returns (c n : Z) (s s' : state) : Prop := {
  rn_pc : pc s' = xr s 30;
  rn_sp : sp s' = sp s;
  rn_saved : ∀ r, 19 <= r <= 29 → xr s' r = xr s r;
  rn_u64 : ∀ r, is_u64 (xr s' r);
  rn_code : ∀ i, 0 <= i < n → mem s' (u64 (c + i)) = mem s (u64 (c + i))
}.

(** ** Single instructions on SP *)

Lemma addsub_sp_ok b len s (sub : bool) rd imm v : rd = 31 → v = u64 (if sub then sp s - imm else sp s + imm) →
  ∃ s', seq_run b len [FAddSub sub rd 31 imm] s s' ∧ sp s' = v ∧ xr s' = xr s ∧ vr s' = vr s ∧
    nzcv s' = nzcv s ∧ mem s' = mem s.
Proof.
  intros -> ->. eexists. split; [eapply seq_run_one; [done|reflexivity|by apply stays_mem]|].
  by destruct sub.
Qed.

(** Push and pop a pair; [b + o] is SP while the pair is on the stack. *)
Lemma push_ok b len s o r1 r2 : 0 <= o → o + 16 <= len → len <= 2 ^ 32 → sp s = b + o + 16 →
  is_u64 (b + o) → r1 ≠ 31 → r2 ≠ 31 → is_u64 (xr s r1) → is_u64 (xr s r2) →
  ∃ s', seq_run b len [FStpPre r1 r2 31 (-16)] s s' ∧ sp s' = b + o ∧ xr s' = xr s ∧ vr s' = vr s ∧
    nzcv s' = nzcv s ∧ load s' (b + o) 8 = xr s r1 ∧ load s' (b + (o + 8)) 8 = xr s r2 ∧
    keeps b (- 2 ^ 32) o s s' ∧ keeps b (o + 16) (2 ^ 33) s s'.
Proof.
  intros Ho Hl Hl2 Hsp Hb H1 H2 Hx1 Hx2.
  assert (get_x s r1 = xr s r1 ∧ get_x s r2 = xr s r2) as [E1 E2].
  { unfold get_x. destruct (Z.eqb_spec r1 31), (Z.eqb_spec r2 31); done. }
  set (t := store (store s (b + o) 8 (xr s r1)) (b + (o + 8)) 8 (xr s r2)).
  assert (fexec (FStpPre r1 r2 31 (-16)) s = Some (next (set_sp t (b + o)))) as He.
  { cbn [fexec]. unfold get_xsp, set_xsp. cbn [Z.eqb Pos.eqb]. rewrite E1, E2, Hsp.
    replace (b + o + 16 + -16) with (b + o) by lia. by rewrite <- Z.add_assoc. }
  assert (∀ q, sp (next (set_sp q (b + o))) = b + o) as Hs by (intros q; cbn; by rewrite u64_id).
  eexists. split; [eapply seq_run_one; [done|exact He|]|].
  - intros x Hx. change (mem t x = mem s x). unfold t.
    pose proof (store_stays b len (o + 8) 8 (xr s r2) (store s (b + o) 8 (xr s r1)) ltac:(lia)
      ltac:(lia) Hl2 x Hx) as G1.
    pose proof (store_stays b len o 8 (xr s r1) s ltac:(lia) ltac:(lia) Hl2 x Hx) as G2.
    cbn [next set_pc mem] in G1, G2. by rewrite G1, G2.
  - split_and!; try done; try apply Hs.
    + change (load t (b + o) 8 = xr s r1). unfold t.
      rewrite load_store_ne, load_store_eq by lia. by apply Z.mod_small.
    + change (load t (b + (o + 8)) 8 = xr s r2). unfold t.
      rewrite load_store_eq by lia. by apply Z.mod_small.
    + intros p Hp. change (mem t (u64 (b + p)) = mem s (u64 (b + p))). unfold t.
      rewrite !store_outside by (apply outside_off; lia). done.
    + intros p Hp. change (mem t (u64 (b + p)) = mem s (u64 (b + p))). unfold t.
      rewrite !store_outside by (apply outside_off; lia). done.
Qed.

Lemma pop_ok b len s r1 r2 v : r1 ≠ 31 → r2 ≠ 31 → r1 ≠ r2 → v = u64 (sp s + 16) →
  ∃ s', seq_run b len [FLdpPost r1 r2 31 16] s s' ∧ sp s' = v ∧ vr s' = vr s ∧
    nzcv s' = nzcv s ∧ mem s' = mem s ∧
    ∀ r, xr s' r = if r =? r2 then u64 (load s (sp s + 8) 8)
                   else if r =? r1 then u64 (load s (sp s) 8) else xr s r.
Proof.
  intros H1 H2 H12 ->. eexists. split; [eapply seq_run_one; [done|reflexivity|by apply stays_mem]|].
  unfold set_xsp, get_xsp. cbn [Z.eqb Pos.eqb]. split_and!; try done.
  intros r. cbn. rewrite (proj2 (Z.eqb_neq r1 31)), (proj2 (Z.eqb_neq r2 31)) by done.
  by rewrite !andb_true_r.
Qed.

End A64F.

(** ** Emitting sequences of words *)

Module Emit.
Import Assembler.

(** [EmitInst] for each word, in order. *)
Fixpoint emit_all (a : Assembler) (ws : list Z) : option Assembler :=
  match ws with
  | [] => Some a
  | w :: ws => a ← EmitInst a w; emit_all a ws
  end.

(** The emitter [f] appends exactly [ws], without labels. *)
Definition appends (f : Assembler → option Assembler) (ws : list Z) : Prop :=
  ∀ a pre, view a pre [] → zlen pre + zlen ws < 2 ^ 28 →
    ∃ a', f a = Some a' ∧ view a' (pre ++ ws) [].

Lemma appends_seq f g ws1 ws2 :
  appends f ws1 → appends g ws2 → appends (λ a, a ← f a; g a) (ws1 ++ ws2).
Proof.
  intros Hf Hg a pre V Hl. rewrite length_app in Hl.
  destruct (Hf a pre V) as (a1 & -> & V1); [lia|]. cbn [mbind option_bind].
  destruct (Hg a1 _ V1) as (a2 & -> & V2); [rewrite length_app; lia|].
  exists a2. split; [done|]. by rewrite app_assoc.
Qed.

Lemma emits_appends n f ws : emits n f (ws, []) → n <= zlen ws → appends f ws.
Proof.
  intros H Hn a pre V Hl. destruct (H a pre [] V) as (a' & -> & V'); [lia|]. by exists a'.
Qed.

Lemma appends_inst w : appends (λ a, EmitInst a w) [w].
Proof. by apply (emits_appends 1); [apply emits_inst|]. Qed.

Lemma appends_mov rd v : appends (λ a, EmitMovImm64 a rd v) (A64F.mov_words rd v).
Proof. by apply (emits_appends 4); [apply A64F.emits_mov_imm|]. Qed.

Lemma appends_all ws : appends (λ a, emit_all a ws) ws.
Proof.
  induction ws as [|w ws IH].
  - intros a pre V _. exists a. by rewrite app_nil_r.
  - apply (appends_seq (λ a, EmitInst a w) (λ a, emit_all a ws) [w] ws); [apply appends_inst|done].
Qed.

(** Closed words are checked by computation. *)
Lemma words_u32 ws : forallb (λ w, (0 <=? w) && (w <? 2 ^ 32)) ws = true → Forall is_u32 ws.
Proof.
  intros H. apply Forall_forall. intros w Hw. rewrite forallb_forall in H.
  specialize (H w). rewrite <- list_elem_of_In in H. specialize (H Hw). unfold is_u32. lia.
Qed.

(** [Finalize] on code without labels: the words, padded to 8 bytes. *)
Lemma Finalize_words a ws : view a ws [] → Forall is_u32 ws → zlen ws + 8 < 2 ^ 28 →
  ∃ a', Finalize a = Some a' ∧ data (buf_ a') = words_bytes (ws ++ pad_words (length ws)) ∧
    size (buf_ a') = zlen (data (buf_ a')).
Proof.
  intros V Hw Hl. destruct (Finalize_ok a ws []) as (a' & -> & W & _ & D); [done| |done|cbn; lia|].
  - constructor.
  - exists a'. split; [done|]. cbn [patch_all label_data flat_map] in D. rewrite app_nil_r in D.
    split; [done|]. apply W.
Qed.

End Emit.
