(* ===== verification/JsInterceptor.v ===== *)
(** * Interceptor ([js_interceptor.cpp])

    [Interceptor.attach] hooks a function with a generated trampoline that
    calls [dispatch_on_enter], the original function and [dispatch_on_leave];
    [Interceptor.replace] hooks it with a given function; [detachAll] removes
    every hook. The code generator writes through [Assembler], memory comes
    from [MemoryAllocator], hooks from [HookApi]. What a JavaScript callback
    returns is a parameter. [None] is a fault or undefined behaviour. *)

From S2P Require Import Prelude Arm64 Arm64Machine Assembler Trampoline Os CodePatch MemoryAllocator HookApi A64Frame.

Module JsInterceptor.
Import Arm64 Os CodePatch MemoryAllocator HookApi Emit.

(** ** State *)

(** [on_enter] and [on_leave] are functions of the engine or undefined. *)
Record AttachEntry : Set := mkAttachEntry {
  target : Z;
  orig_func : Z;
  on_enter : option Z;
  on_leave : option Z;
  trampoline_mem : Z;
  trampoline_size : Z;
  orig_func_patch_offset : Z
}.

(** [g_entries] holds pointers: the address of each entry and what it points
    to. *)
Record Interceptor : Type := mkInterceptor {
  sys : Sys;
  g_entries : list (Z * AttachEntry)
}.

(** ** The saved context *)

Definition kOffEntry : Z := 0.
Definition kOffX0 : Z := 8.
Definition kOffV0 : Z := 8 + 19 * 8.
Definition kSaveSize : Z := 8 + 19 * 8 + 8 * 16.

Definition sub_sp (imm : Z) : Z := 0xD1000000 .| u32 (imm << 10) .| (31 << 5) .| 31.
Definition add_sp (imm : Z) : Z := 0x91000000 .| u32 (imm << 10) .| (31 << 5) .| 31.
Definition str_x (rt rn imm8 : Z) : Z := 0xF9000000 .| u32 (imm8 << 10) .| u32 (rn << 5) .| rt.
Definition ldr_x (rt rn imm8 : Z) : Z := 0xF9400000 .| u32 (imm8 << 10) .| u32 (rn << 5) .| rt.
Definition str_q (rt rn imm16 : Z) : Z := 0x3D800000 .| u32 (imm16 << 10) .| u32 (rn << 5) .| rt.
Definition ldr_q (rt rn imm16 : Z) : Z := 0x3D400000 .| u32 (imm16 << 10) .| u32 (rn << 5) .| rt.

(** ** Dispatch

    [base] points to the saved context in memory. The engine is a parameter:
    [JS_Call_enter f args] is the object a callback returns, as the pointers
    [js_ptr_unwrap] finds in its properties [x0] .. [x7] ([None]: undefined),
    or [None] when it throws or returns no object; [JS_Call_leave f retval] is
    the pointer in its result, or [None] when it throws. *)
Section Dispatch.
Context (JS_Call_enter : Z → list Z → option (Z → option Z)).
Context (JS_Call_leave : Z → Z → option Z).
Context (heap : Z → option AttachEntry).

Definition write_arg (base : Z) (ret : Z → option Z) (s : A64.state) (i : Z) : A64.state :=
  match ret i with
  | Some p => if p =? 0 then s else A64F.store s (base + kOffX0 + i * 8) 8 p
  | None => s
  end.

Definition dispatch_on_enter (s : A64.state) (base : Z) : option A64.state :=
  let entry := A64.load s (base + kOffEntry) 8 in
  if entry =? 0 then Some s
  else
    e ← heap entry;
    match on_enter e with
    | None => Some s
    | Some f =>
        let args := (λ i, A64.load s (base + kOffX0 + i * 8) 8) <$> seqZ 0 8 in
        match JS_Call_enter f args with
        | None => Some s
        | Some ret => Some (foldl (write_arg base ret) s (seqZ 0 8))
        end
    end.

Definition dispatch_on_leave (s : A64.state) (base : Z) : option A64.state :=
  let entry := A64.load s (base + kOffEntry) 8 in
  if entry =? 0 then Some s
  else
    e ← heap entry;
    match on_leave e with
    | None => Some s
    | Some f =>
        match JS_Call_leave f (A64.load s (base + kOffX0) 8) with
        | None => Some s
        | Some p => Some (if p =? 0 then s else A64F.store s (base + kOffX0) 8 p)
        end
    end.

End Dispatch.

(** ** Trampoline generation *)

(** Save x0-x18 and q0-q7, store the entry, call [dispatch(SP)]. *)
Definition emit_call (a : Assembler.Assembler) (entry dispatch : Z) : option Assembler.Assembler :=
  a ← emit_all a [sub_sp kSaveSize];
  a ← emit_all a ((λ i, str_x i 31 ((kOffX0 + i * 8) ÷ 8)) <$> seqZ 0 19);
  a ← emit_all a ((λ i, str_q i 31 ((kOffV0 + i * 16) ÷ 16)) <$> seqZ 0 8);
  a ← Assembler.EmitMovImm64 a 16 entry;
  a ← emit_all a [str_x 16 31 0];
  a ← Assembler.EmitMovImm64 a 16 dispatch;
  a ← emit_all a [0x910003E0];
  Assembler.EmitBLR a 16.

(** Restore x0-x18 and q0-q7, release the save area. *)
Definition emit_restore (a : Assembler.Assembler) : option Assembler.Assembler :=
  a ← emit_all a ((λ i, ldr_x i 31 ((kOffX0 + i * 8) ÷ 8)) <$> seqZ 0 19);
  a ← emit_all a ((λ i, ldr_q i 31 ((kOffV0 + i * 16) ÷ 16)) <$> seqZ 0 8);
  emit_all a [add_sp kSaveSize].

(** The code and the offset of the placeholder for [orig_func]; [enter] and
    [leave] are the addresses of the dispatch functions. *)
Definition trampoline_code (entry enter leave : Z) : option (Assembler.CodeBuffer * Z) :=
  let a := Assembler.Assembler_new in
  a ← emit_all a [0xA9BF7BF3];
  a ← emit_call a entry enter;
  a ← emit_restore a;
  a ← emit_all a [0xA8C17BF3; 0xA9BF7BF3; 0xAA1E03F3];
  let patch_off := Assembler.CurrentOffset (Assembler.buf_ a) in
  a ← Assembler.EmitMovImm64 a 16 0;
  a ← Assembler.EmitBLR a 16;
  a ← emit_all a [0xAA1303FE];
  a ← emit_call a entry leave;
  a ← emit_restore a;
  a ← emit_all a [0xA8C17BF3; 0xD65F03C0];
  a ← Assembler.Finalize a;
  Some (Assembler.buf_ a, patch_off).

(** The four words that load [val] into X16, written over the placeholder. *)
Definition orig_words (val : Z) : list Z :=
  [kOpMovZ .| u32 (0 << 21) .| u32 ((val .& 0xFFFF) << 5) .| 16;
   kOpMovK .| u32 (1 << 21) .| u32 (u32 ((val >> 16) .& 0xFFFF) << 5) .| 16;
   kOpMovK .| u32 (2 << 21) .| u32 (u32 ((val >> 32) .& 0xFFFF) << 5) .| 16;
   kOpMovK .| u32 (3 << 21) .| u32 (u32 ((val >> 48) .& 0xFFFF) << 5) .| 16].

Section with_os.
Context `{O : OS}.
(** The addresses of the two dispatch functions in the process. *)
Context (enter_addr leave_addr : Z).

Definition total_alloc : Z := 1024.

(** [alloc.BeginWrite(...); memcpy; alloc.EndWrite(...)]. *)
Definition write_code (m : Alloc) (code_mem addr : Z) (bs : list Z) : option Alloc :=
  let '(m, _) := BeginWrite m code_mem total_alloc in
  w ← write_bytes (world m) addr bs;
  let '(m, _) := EndWrite (mkAlloc w (pages_ m)) code_mem total_alloc in
  Some m.

Definition generate_trampolines (s : Sys) (entry_ptr : Z) (entry : AttachEntry) :
    option (Sys * AttachEntry * bool) :=
  let '(m, code_mem) := AllocNearCode (mem s) total_alloc (target entry) kMaxBRange in
  let s := mkSys m (entries_ s) in
  if code_mem =? 0 then Some (s, entry, false)
  else
    '(buf, patch_off) ← trampoline_code entry_ptr enter_addr leave_addr;
    let code_size := Assembler.size buf in
    code ← slice (Assembler.data buf) 0 code_size;
    m ← write_code (mem s) code_mem code_mem code;
    '(s, ret, orig) ← HookInstall (mkSys m (entries_ s)) (target entry) code_mem false;
    if negb (ret =? 0) then Some (s, entry, false)
    else
      let orig := default 0 orig in
      m ← write_code (mem s) code_mem (code_mem + patch_off) (words_bytes (orig_words orig));
      Some (mkSys m (entries_ s),
            mkAttachEntry (target entry) orig (on_enter entry) (on_leave entry) code_mem code_size
              patch_off, true).

(** ** The JavaScript API

    [ep] and [lp] are the callbacks' properties [onEnter] and [onLeave] when
    they are functions; [entry_ptr] is what [new AttachEntry] returns. *)

Inductive result : Set :=
| RObject
| RUndefined
| RException
| RTypeError.

Definition js_attach (st : Interceptor) (argc tgt : Z) (ep lp : option Z) (entry_ptr : Z) :
    option (Interceptor * result) :=
  if argc <? 2 then Some (st, RTypeError)
  else if tgt =? 0 then Some (st, RException)
  else match ep, lp with
  | None, None => Some (st, RTypeError)
  | _, _ =>
      let entry := mkAttachEntry tgt 0 ep lp 0 0 0 in
      '(s, entry, ok) ← generate_trampolines (sys st) entry_ptr entry;
      if (ok : bool) then Some (mkInterceptor s (g_entries st ++ [(entry_ptr, entry)]), RObject)
      else Some (mkInterceptor s (g_entries st), RTypeError)
  end.

Definition js_replace (st : Interceptor) (argc tgt replacement entry_ptr : Z) :
    option (Interceptor * result) :=
  if argc <? 2 then Some (st, RTypeError)
  else if tgt =? 0 then Some (st, RException)
  else if replacement =? 0 then Some (st, RException)
  else
    '(s, ret, orig) ← HookInstall (sys st) tgt replacement false;
    if negb (ret =? 0) then Some (mkInterceptor s (g_entries st), RTypeError)
    else
      let entry := mkAttachEntry tgt (default 0 orig) None None 0 0 0 in
      Some (mkInterceptor s (g_entries st ++ [(entry_ptr, entry)]), RObject).

(** The return code of [HookUninstall] is ignored. *)
Fixpoint detach_loop (s : Sys) (es : list (Z * AttachEntry)) : option Sys :=
  match es with
  | [] => Some s
  | (_, e) :: es => '(s, _) ← HookUninstall s (target e); detach_loop s es
  end.

Definition js_detach_all (st : Interceptor) : option (Interceptor * result) :=
  s ← detach_loop (sys st) (g_entries st);
  Some (mkInterceptor s [], RUndefined).

Definition js_interceptor_cleanup (st : Interceptor) : option Interceptor :=
  s ← detach_loop (sys st) (g_entries st);
  Some (mkInterceptor s []).

End with_os.

(** ** The generated code *)

Definition call_words (entry dispatch : Z) : list Z :=
  [sub_sp kSaveSize] ++ ((λ i, str_x i 31 ((kOffX0 + i * 8) ÷ 8)) <$> seqZ 0 19) ++
  ((λ i, str_q i 31 ((kOffV0 + i * 16) ÷ 16)) <$> seqZ 0 8) ++
  A64F.mov_words 16 entry ++ [str_x 16 31 0] ++ A64F.mov_words 16 dispatch ++
  [0x910003E0] ++ [kOpBLR .| u32 (16 << 5)].

Definition restore_words : list Z :=
  ((λ i, ldr_x i 31 ((kOffX0 + i * 8) ÷ 8)) <$> seqZ 0 19) ++
  ((λ i, ldr_q i 31 ((kOffV0 + i * 16) ÷ 16)) <$> seqZ 0 8) ++ [add_sp kSaveSize].

(** Everything before the load of [orig_func], and everything behind it. *)
Definition enter_words (entry enter : Z) : list Z :=
  [0xA9BF7BF3] ++ call_words entry enter ++ restore_words ++ [0xA8C17BF3; 0xA9BF7BF3; 0xAA1E03F3].
Definition leave_words (entry leave : Z) : list Z :=
  [kOpBLR .| u32 (16 << 5)] ++ [0xAA1303FE] ++ call_words entry leave ++ restore_words ++
  [0xA8C17BF3; 0xD65F03C0].

Definition tramp_words (entry enter leave orig : Z) : list Z :=
  enter_words entry enter ++ A64F.mov_words 16 orig ++ leave_words entry leave.

Lemma appends_call entry f : appends (λ a, emit_call a entry f) (call_words entry f).
Proof.
  unfold emit_call, call_words.
  repeat (apply appends_seq; [apply appends_all || apply appends_mov|]). apply appends_inst.
Qed.

Lemma appends_restore : appends emit_restore restore_words.
Proof.
  unfold emit_restore, restore_words. repeat (apply appends_seq; [apply appends_all|]).
  apply appends_all.
Qed.

Lemma call_words_length entry f : length (call_words entry f) = 39%nat.
Proof. done. Qed.

Lemma tramp_words_u32 entry enter leave orig : Forall is_u32 (tramp_words entry enter leave orig).
Proof.
  assert (∀ f, Forall is_u32 (call_words entry f)) as Hcall.
  { intros f. unfold call_words. rewrite !Forall_app. split_and!;
      first [by apply A64F.mov_words_u32 | apply words_u32; vm_compute; reflexivity]. }
  assert (Forall is_u32 restore_words) as Hr by (apply words_u32; vm_compute; reflexivity).
  unfold tramp_words, enter_words, leave_words. rewrite !Forall_app.
  split_and!; first [done | apply Hcall | by apply A64F.mov_words_u32 | apply words_u32; vm_compute; reflexivity].
Qed.

(** One emitting call of a sequence: the buffer stays a view of the words
    appended so far. *)
Ltac emit_step H :=
  let a := fresh "a" in let E := fresh "E" in let V := fresh "V" in
  match goal with V0 : Assembler.view _ _ [] |- _ =>
    destruct (H _ _ V0) as (a & E & V); [reflexivity|]; rewrite E;
    cbn [mbind option_bind]; clear V0 E end.

Lemma trampoline_code_ok entry enter leave :
  ∃ buf, trampoline_code entry enter leave = Some (buf, 284) ∧
    Assembler.data buf = words_bytes (tramp_words entry enter leave 0) ∧ Assembler.size buf = 584.
Proof.
  unfold trampoline_code, Assembler.EmitBLR. cbv zeta.
  pose proof Assembler.view_new as V.
  emit_step (appends_all [0xA9BF7BF3]). emit_step (appends_call entry enter). emit_step appends_restore.
  emit_step (appends_all [0xA8C17BF3; 0xA9BF7BF3; 0xAA1E03F3]).
  match goal with V : Assembler.view ?a ?ws [] |- _ =>
    rewrite (Assembler.view_offset a ws [] V); change (4 * zlen ws) with 284 end.
  emit_step (appends_mov 16 0). emit_step (appends_inst (kOpBLR .| u32 (16 << 5))).
  emit_step (appends_all [0xAA1303FE]). emit_step (appends_call entry leave). emit_step appends_restore.
  emit_step (appends_all [0xA8C17BF3; 0xD65F03C0]).
  match goal with V : Assembler.view ?a ?ws [] |- _ =>
    assert (ws = tramp_words entry enter leave 0) as Hws
      by (unfold tramp_words, enter_words, leave_words; by rewrite <- !app_assoc);
    rewrite Hws in V; destruct (Finalize_words a _ V) as (a' & -> & D & S) end.
  - apply tramp_words_u32.
  - reflexivity.
  - cbn [mbind option_bind]. eexists. split; [done|]. rewrite S, D.
    change (Assembler.pad_words (length (tramp_words entry enter leave 0))) with (@nil Z).
    rewrite app_nil_r. split; [done|]. by rewrite words_bytes_length.
Qed.

End JsInterceptor.
