(* ===== verification/JsAttach.v ===== *)
(** * Installing and removing interceptors

    What [Interceptor.attach], [replace] and [detachAll]
    ([js_interceptor.cpp]) do to the process, on top of the theorems about the
    allocator and the hook registry. *)

From stdpp Require Import relations.
From S2P Require Import Prelude Arm64 Arm64Machine Assembler Relocator Trampoline Os CodePatch MemoryAllocator HookApi A64Frame JsInterceptor.

Module JsAttach.
Import Arm64 Os CodePatch MemoryAllocator HookApi JsInterceptor.

Section with_os.
Context `{O : OS} `{L : !OSLaws O} `{M : !MapsLaws}.
Context (enter_addr leave_addr : Z).

#[local] Set Default Proof Using "Type*".

(** The kernel refuses to make a block writable that was taken since [s]: in a
    state of the process that owns the block and all that [s] owns. *)
Definition block_refused (s0 : Alloc) (s : Sys) : Prop :=
  ∃ s1 a n, Inv s0 s1 ∧ (∀ x, owned (mem s) x → owned (mem s1) x) ∧
    (∀ x, a <= x < a + n → owned (mem s1) x ∧ ¬ owned (mem s) x) ∧ refused (world (mem s1)) a n.

Lemma write_code_ok m c addr bs :
  inv m → 0 < c → c + 2 ^ 33 <= 2 ^ 64 → c <= addr → addr + zlen bs <= c + total_alloc →
  (∀ x, c <= x < c + total_alloc → owned m x) →
  match write_code m c addr bs with
  | None => refused (world m) c total_alloc
  | Some m' => pages_ m' = pages_ m ∧ world_le (world m) (world m') ∧
      bytes (world m') = overwrite (bytes (world m)) addr bs
  end.
Proof.
  intros I Hc Hl Ha Hb Ho. unfold total_alloc in *.
  assert (∀ x, c <= x < c + 1024 → managed m x) as Hm by (intros x Hx; by apply owned_managed, Ho).
  pose proof (write_granted m c 1024 addr bs ltac:(lia) ltac:(lia) ltac:(lia) Ha Hb
    ltac:(intros x Hx; by apply inv_mapped, Hm)) as H.
  unfold write_code, total_alloc. destruct (BeginWrite m c 1024) as [m1 r1] eqn:EB. cbn [fst] in H.
  assert (pages_ m1 = pages_ m) as Ep1.
  { unfold BeginWrite in EB. destruct (MakeMemoryRWX _ _ _). by injection EB as <- _. }
  destruct (write_bytes (world m1) addr bs) as [w|]; cbn [mbind option_bind]; [|done].
  rewrite Ep1. by destruct (EndWrite _ c 1024).
Qed.

Lemma owned_pages m m' x : pages_ m' = pages_ m → owned m x → owned m' x.
Proof. intros E. unfold owned. by rewrite E. Qed.

Lemma owned_mapped m x : inv m → owned m x → mapped m x.
Proof. intros I Hx. apply (inv_mapped _ I). by apply owned_managed. Qed.

Lemma orig_words_mov v : orig_words v = A64F.mov_words 16 v.
Proof.
  unfold orig_words, A64F.mov_words, A64F.mov_word. mask_mod.
  assert (∀ x, u16 (x mod 2 ^ 16) = x mod 2 ^ 16) as E1 by (intros x; apply Zmod_mod).
  assert (∀ x, u32 (x mod 2 ^ 16) = x mod 2 ^ 16) as E2.
  { intros x. apply u32_id. unfold is_u32. pose proof (Z.mod_pos_bound x (2 ^ 16)). lia. }
  by rewrite !E1, !E2.
Qed.

(** ** Attaching *)

(** The code of a trampoline once it has been written, hooked and patched. *)
Definition tramp_code (entry_ptr orig : Z) : list Z :=
  words_bytes (tramp_words entry_ptr enter_addr leave_addr orig).

Lemma code_at_overwrite m a bs : 0 <= a → a + zlen bs <= 2 ^ 64 → A64.code_at (overwrite m a bs) a bs.
Proof. apply overwrite_at. Qed.

Lemma code_at_same m m' a bs : 0 <= a → a + zlen bs <= 2 ^ 64 →
  (∀ x, a <= x < a + zlen bs → m' x = m x) → A64.code_at m a bs → A64.code_at m' a bs.
Proof.
  intros H1 H2 H Hc i b Hi. pose proof (lookup_lt_Some _ _ _ Hi).
  rewrite <- (Hc i b Hi). rewrite u64_id by (unfold is_u64; lia). apply H. lia.
Qed.

(** Overwriting the placeholder completes the code. *)
Lemma tramp_patch m c entry_ptr orig : 0 <= c → c + 1024 <= 2 ^ 64 →
  A64.code_at m c (tramp_code entry_ptr 0) →
  A64.code_at (overwrite m (c + 284) (words_bytes (orig_words orig))) c (tramp_code entry_ptr orig).
Proof.
  intros Hc Hl H. rewrite orig_words_mov. unfold tramp_code, tramp_words in *.
  rewrite !words_bytes_app in *. rewrite !A64.code_at_app in *.
  destruct H as (H1 & _ & H3).
  assert (zlen (words_bytes (enter_words entry_ptr enter_addr)) = 284) as L1 by done.
  assert (∀ v, zlen (words_bytes (A64F.mov_words 16 v)) = 16) as L2 by done.
  assert (zlen (words_bytes (leave_words entry_ptr leave_addr)) = 284) as L3 by done.
  rewrite L1, L2 in *. split_and!.
  - eapply code_at_same; [lia|lia| |exact H1]. rewrite L1.
    intros x Hx. apply overwrite_other, in_range_false. lia.
  - apply code_at_overwrite; [lia|rewrite L2; lia].
  - eapply code_at_same; [lia|lia| |exact H3]. rewrite L3.
    intros x Hx. apply overwrite_other, in_range_false. rewrite L2. lia.
Qed.

(** What a successful [generate_trampolines] leaves behind. *)
Record attached (s0 : Alloc) (s s' : Sys) (t entry_ptr c orig : Z) : Prop := {
  at_inv : Inv s0 s';
  at_addr : 0 < c ∧ c + 1024 <= 2 ^ 63;
  at_jump : ∀ a, A64.mem a = bytes (world (mem s')) → A64.pc a = t → Trampoline.jumped a c;
  at_code : A64.code_at (bytes (world (mem s'))) c (tramp_code entry_ptr orig);
  at_orig : A64.code_at (bytes (world (mem s'))) orig
              (Relocator.reloc_image (displaced s0 t c) t);
  at_program : ∀ x, program s0 x → ¬ (t <= x < t + 4 * zlen (displaced s0 t c)) →
    bytes (world (mem s')) x = bytes (world (mem s)) x;
  at_entries : ∃ e, entries_ s' = entries_ s ++ [e] ∧ target_addr e = t ∧ active e = true
}.

Lemma owned_apart s0 s x : Inv s0 s → owned (mem s) x → ¬ program s0 x.
Proof.
  intros I Ho Hx. destruct (Inv_program _ _ I x Hx) as [_ Hn]. apply Hn.
  apply owned_managed; [apply I|done].
Qed.

(** An installation does not touch blocks handed out before. *)
Lemma installed_owned s0 s s' t rep a e m k x :
  Inv s0 s → hookable s0 s t → 0 < rep < 2 ^ 63 → installed s0 s s' t rep a e m k →
  owned (mem s) x →
  owned (mem s') x ∧ bytes (world (mem s')) x = bytes (world (mem s)) x.
Proof.
  intros I H Hr J Hx. pose proof (i_grants _ _ _ _ _ _ _ _ _ J) as G.
  pose proof (h_addr _ _ _ H) as Ht. split.
  - apply (owned_pages m); [apply (i_pages _ _ _ _ _ _ _ _ _ J)|].
    apply (g_owned _ _ _ _ G). by left.
  - rewrite (i_bytes _ _ _ _ _ _ _ _ _ J). rewrite !overwrite_other.
    + apply (g_frame _ _ _ _ G). apply owned_mapped; [apply I|done].
    + apply not_true_is_false. intros Hin%in_range_spec.
      pose proof (i_fits _ _ _ _ _ _ _ _ _ J). apply (g_fresh _ _ _ _ G x); [lia|done].
    + apply not_true_is_false. intros Hin%in_range_spec. rewrite patch_img_length in Hin by lia.
      pose proof (patch_len_cases t rep). apply (owned_apart s0 s x I Hx).
      apply (h_program _ _ _ H). lia.
Qed.

(** From the hook to the completed trampoline. *)
Lemma finish_ok s0 s s' t c entry_ptr orig e m k :
  Inv s0 s → hookable s0 s t → 0 < c → c + 1024 <= 2 ^ 63 → (∀ x, is_u8 (bytes (world s0) x)) →
  (∀ x, c <= x < c + 1024 → owned (mem s) x) →
  A64.code_at (bytes (world (mem s))) c (tramp_code entry_ptr 0) →
  installed s0 s s' t c orig e m k →
  match write_code (mem s') c (c + 284) (words_bytes (orig_words orig)) with
  | None => refused (world (mem s')) c total_alloc
  | Some m' => attached s0 s (mkSys m' (entries_ s')) t entry_ptr c orig
  end.
Proof.
  intros I H Hc1 Hc2 Hu Ho Hcode J. pose proof (h_addr _ _ _ H) as Ht.
  assert (0 < c < 2 ^ 63) as Hrep by lia. pose proof (installed_Inv _ _ _ _ _ _ _ _ _ I H Hrep J) as I'.
  pose proof (λ x Hx, installed_owned _ _ _ _ _ _ _ _ _ x I H Hrep J (Ho x Hx)) as Hblk.
  pose proof (write_code_ok (mem s') c (c + 284) (words_bytes (orig_words orig)) (Inv_alloc _ _ I') ltac:(lia) ltac:(lia) ltac:(lia)
    ltac:(change (zlen (words_bytes (orig_words orig))) with 16; unfold total_alloc; lia) ltac:(intros x Hx; by apply Hblk)) as HW.
  destruct (write_code (mem s') c (c + 284) (words_bytes (orig_words orig))) as [m'|]; [|done]. destruct HW as (Hp & W & Hb).
  destruct (write_Inv s0 s' m' (c + 284) (words_bytes (orig_words orig)) I' Hp W Hb) as [I2 Hprog].
  { change (zlen (words_bytes (orig_words orig))) with 16. intros x Hx. apply Hblk. lia. }
  assert (∀ x, ¬ (c <= x < c + 1024) → bytes (world m') x = bytes (world (mem s')) x) as Hout.
  { intros x Hx. rewrite Hb. apply overwrite_other, in_range_false.
    change (zlen (words_bytes (orig_words orig))) with 16. lia. }
  pose proof (displaced_ok s0 t c Hu) as (Hwl & _ & _). pose proof (patch_len_cases t c) as Hlen.
  assert (zlen (patch_img t c) = patch_len t c) as Hpl by (apply patch_img_length; lia).
  split; cbn [mem entries_]; [done|lia|..].
  - intros a Hm Hpc. apply (Trampoline.patch_block_jumps t c ltac:(lia) ltac:(lia)); [|done].
    rewrite Hm. apply (code_at_same (bytes (world (mem s'))) _ t (patch_img t c)); [lia|lia| |].
    + intros x Hx. apply Hprog, (h_program _ _ _ H). lia.
    + rewrite (i_bytes _ _ _ _ _ _ _ _ _ J). apply code_at_overwrite; lia.
  - rewrite Hb. apply tramp_patch; [lia|lia|].
    eapply code_at_same; [lia| | |exact Hcode]; change (zlen (tramp_code entry_ptr 0)) with 584; [lia|].
    intros x Hx. apply Hblk. lia.
  - pose proof (installed_reloc s0 s s' t c orig e m k I H ltac:(lia) ltac:(lia) J) as Hr.
    rewrite <- (i_bytes _ _ _ _ _ _ _ _ _ J) in Hr.
    pose proof (i_grants _ _ _ _ _ _ _ _ _ J) as G. pose proof (i_fits _ _ _ _ _ _ _ _ _ J) as Hfit.
    pose proof (g_addr _ _ _ _ G) as (? & ? & _).
    unfold reloc_img in *. eapply code_at_same; [lia|lia| |exact Hr].
    intros x Hx. apply Hout. intros Hin. apply (g_fresh _ _ _ _ G x); [lia|]. by apply Ho.
  - intros x Hx Hn. rewrite Hprog by done.
    rewrite (installed_program s0 s s' t c orig e m k x) by (done || lia).
    apply overwrite_other, in_range_false. lia.
  - exists e. split; [apply J|]. split; [|apply J]. by destruct (i_entry _ _ _ _ _ _ _ _ _ J) as (_ & -> & _).
Qed.

Lemma hookable_entries s0 s s' t : entries_ s' = entries_ s → hookable s0 s t → hookable s0 s' t.
Proof. intros E [H1 H2 H3]. split; [done..|]. by rewrite E. Qed.

(** [generate_trampolines] attaches the hook, or fails and changes nothing of
    the program, or faults because the kernel refused a block. *)
Lemma generate_ok s0 s entry_ptr entry :
  Inv s0 s → hookable s0 s (target entry) → (∀ x, is_u8 (bytes (world s0) x)) →
  match generate_trampolines enter_addr leave_addr s entry_ptr entry with
  | None => block_refused s0 s
  | Some (s', entry', true) =>
      ∃ c orig, attached s0 s s' (target entry) entry_ptr c orig ∧
        entry' = mkAttachEntry (target entry) orig (on_enter entry) (on_leave entry) c 584 284
  | Some (s', entry', false) => Inv s0 s' ∧ entries_ s' = entries_ s ∧
      ∀ x, program s0 x → bytes (world (mem s')) x = bytes (world (mem s)) x
  end.
Proof.
  intros I H Hu. pose proof (h_addr _ _ _ H) as Ht. pose proof page_size_range as Hps.
  unfold generate_trampolines.
  pose proof (AllocNearCode_ok (mem s) total_alloc (target entry) kMaxBRange (Inv_alloc _ _ I)
    ltac:(unfold total_alloc; lia) ltac:(unfold is_u64; lia) ltac:(done) ltac:(lia)) as HA.
  destruct (AllocNearCode _ _ _ _) as [m c]. destruct HA as [[-> R]|[Ha G]].
  { cbn [Z.eqb]. split_and!; [by eapply refuses_Inv|done|].
    intros x Hx. apply (r_frame _ _ R). by apply (Inv_program _ _ I). }
  rewrite (proj2 (Z.eqb_neq c 0)) by done. change (round8 total_alloc) with 1024 in G.
  pose proof (g_addr _ _ _ _ G) as (Hc1 & Hc2 & _).
  destruct (trampoline_code_ok entry_ptr enter_addr leave_addr) as (buf & -> & Hd & Hs).
  cbn [mbind option_bind mem entries_]. rewrite Hs, Hd.
  assert (zlen (tramp_code entry_ptr 0) = 584) as Hcl by done.
  fold (tramp_code entry_ptr 0). rewrite slice_Some by lia.
  rewrite drop_0, take_ge by lia. cbn [mbind option_bind]. set (s1 := mkSys m (entries_ s)).
  pose proof (grants_Inv s0 s m c 1024 I G) as I1. fold s1 in I1.
  assert (∀ x, c <= x < c + 1024 → owned m x) as Ho by (intros x Hx; apply (g_owned _ _ _ _ G); by right).
  pose proof (write_code_ok m c c (tramp_code entry_ptr 0) (Inv_alloc _ _ I1) ltac:(lia) ltac:(lia) ltac:(lia)
    ltac:(unfold total_alloc; lia) Ho) as HW.
  destruct (write_code m c c (tramp_code entry_ptr 0)) as [m2|]; cbn [mbind option_bind].
  2: { exists s1, c, total_alloc. split; [done|]. split; [intros x Hx; apply (g_owned _ _ _ _ G); by left|].
       split; [|done]. intros x Hx. split; [by apply Ho|by apply (g_fresh _ _ _ _ G)]. }
  destruct HW as (Hp & W & Hb).
  destruct (write_Inv s0 s1 m2 c (tramp_code entry_ptr 0) I1 Hp W Hb) as [I2 Hprog].
  { intros x Hx. apply Ho. lia. }
  set (s2 := mkSys m2 (entries_ s)). fold s2 in I2.
  assert (hookable s0 s2 (target entry)) as H2 by (by apply (hookable_entries s0 s)).
  assert (∀ x, program s0 x → bytes (world m2) x = bytes (world (mem s)) x) as Hpre.
  { intros x Hx. rewrite Hprog by done. apply (g_frame _ _ _ _ G). by apply (Inv_program _ _ I). }
  assert (∀ x, owned (mem s) x → owned m2 x) as Hkeep.
  { intros x Hx. apply (owned_pages m); [done|]. apply (g_owned _ _ _ _ G). by left. }
  pose proof (HookInstall_ok s0 s2 (target entry) c I2 H2 ltac:(lia) Hu) as HI.
  destruct (HookInstall s2 (target entry) c false) as [[[s3 ret] r]|]; cbn [mbind option_bind].
  2: { destruct HI as (m3 & a & k & G3 & Hk & Hr). exists (mkSys m3 (entries_ s2)), a, (zlen (reloc_img s0 (target entry) c)).
       split; [by apply grants_Inv with (c := a) (n := k)|]. split; [intros x Hx; apply (g_owned _ _ _ _ G3); left; by apply Hkeep|].
       split; [|done]. intros x Hx. split; [apply (g_owned _ _ _ _ G3); right; lia|].
       intros Hx'. apply (g_fresh _ _ _ _ G3 x); [lia|by apply Hkeep]. }
  destruct HI as [(-> & -> & He & R)|[(-> & -> & a & m3 & k & B)|(-> & orig & e & m3 & k & -> & J)]]; cbn [Z.eqb Pos.eqb negb].
  { split_and!; [by eapply refuses_Inv|done|].
    intros x Hx. rewrite <- Hpre by done. apply (r_frame _ _ R). by apply (Inv_program _ _ I2). }
  { destruct (abandoned_Inv _ _ _ _ _ _ _ _ I2 B) as [I3 Hx3]. split_and!; [done|apply B|].
    intros x Hx. rewrite Hx3 by done. by apply Hpre. }
  cbn [default id]. pose proof (finish_ok s0 s2 s3 (target entry) c entry_ptr orig e m3 k I2 H2 ltac:(lia) ltac:(lia) Hu
    ltac:(intros x Hx; apply (owned_pages m); [done|by apply Ho])
    ltac:(change (mem s2) with m2; rewrite Hb; apply code_at_overwrite; lia) J) as HF.
  destruct (write_code (mem s3) c (c + 284) (words_bytes (orig_words orig))) as [m4|]; cbn [mbind option_bind].
  2: { pose proof (λ x Hx, proj1 (installed_owned s0 s2 s3 (target entry) c orig e m3 k x I2 H2 ltac:(lia) J Hx)) as Hown.
       exists s3, c, total_alloc. split; [by eapply (installed_Inv s0 s2); [done|done| |done]; lia|].
       split; [intros x Hx; by apply Hown, Hkeep|]. split; [|done]. intros x Hx.
       split; [apply Hown, (owned_pages m); [done|by apply Ho]|by apply (g_fresh _ _ _ _ G)]. }
  exists c, orig. split; [|done]. destruct HF. split; try done. intros x Hx Hn. by rewrite <- Hpre, <- at_program0.
Qed.

Lemma attach_ok s0 st t ep lp entry_ptr :
  Inv s0 (sys st) → hookable s0 (sys st) t → (∀ x, is_u8 (bytes (world s0) x)) →
  ep ≠ None ∨ lp ≠ None →
  match js_attach enter_addr leave_addr st 2 t ep lp entry_ptr with
  | None => block_refused s0 (sys st)
  | Some (st', r) => Inv s0 (sys st') ∧
      ((r = RTypeError ∧ g_entries st' = g_entries st ∧ entries_ (sys st') = entries_ (sys st) ∧
        ∀ x, program s0 x → bytes (world (mem (sys st'))) x = bytes (world (mem (sys st))) x) ∨
       (r = RObject ∧ ∃ c orig, attached s0 (sys st) (sys st') t entry_ptr c orig ∧
        g_entries st' = g_entries st ++ [(entry_ptr, mkAttachEntry t orig ep lp c 584 284)]))
  end.
Proof.
  intros I H Hu Hcb. pose proof (h_addr _ _ _ H) as Ht. unfold js_attach. cbn [Z.ltb Z.compare Pos.compare Pos.compare_cont].
  rewrite (proj2 (Z.eqb_neq t 0)) by lia.
  assert (∀ X Y : option (Interceptor * result), match ep, lp with None, None => X | _, _ => Y end = Y)
    as -> by (intros; by destruct ep, lp, Hcb).
  pose proof (generate_ok s0 (sys st) entry_ptr (mkAttachEntry t 0 ep lp 0 0 0) I H Hu) as Hok.
  destruct (generate_trampolines _ _ _ _ _) as [[[s' entry'] [|]]|]; cbn [mbind option_bind]; [| |done].
  - destruct Hok as (c & orig & A & ->). split; [apply A|]. right. split; [done|]. by exists c, orig.
  - destruct Hok as (I' & He & Hx). split; [done|]. left. by split_and!.
Qed.

(** C24: On a function that can be hooked (16 readable bytes of user-space
    program memory, clear of other patches), [Interceptor.attach] either throws
    and leaves every program byte and registration as it was, or succeeds, and
    then control that arrives at the function goes to a trampoline at [c] that
    holds exactly the generated code with the address of the displaced
    original filled in; at that address stands the relocated original; and
    program memory is unchanged outside the patch. It faults only if the
    kernel refuses to make a block of the allocator's own memory writable. *)
Theorem attach_installs s0 st t ep lp entry_ptr :
  Inv s0 (sys st) → hookable s0 (sys st) t → (∀ x, is_u8 (bytes (world s0) x)) →
  ep ≠ None ∨ lp ≠ None →
  match js_attach enter_addr leave_addr st 2 t ep lp entry_ptr with
  | None => block_refused s0 (sys st)
  | Some (st', r) => Inv s0 (sys st') ∧
      ((r = RTypeError ∧ g_entries st' = g_entries st ∧ entries_ (sys st') = entries_ (sys st) ∧
        ∀ x, program s0 x → bytes (world (mem (sys st'))) x = bytes (world (mem (sys st))) x) ∨
       (r = RObject ∧ ∃ c orig, attached s0 (sys st) (sys st') t entry_ptr c orig ∧
        g_entries st' = g_entries st ++ [(entry_ptr, mkAttachEntry t orig ep lp c 584 284)]))
  end.
Proof. apply attach_ok. Qed.

(** ** Sequences of calls *)

Inductive call_step (s0 : Alloc) (st : Interceptor) : Interceptor → Prop :=
| call_attach argc t ep lp p st' r :
    hookable s0 (sys st) t →
    js_attach enter_addr leave_addr st argc t ep lp p = Some (st', r) → call_step s0 st st'
| call_replace argc t rep p st' r :
    hookable s0 (sys st) t → 0 <= rep < 2 ^ 63 →
    js_replace st argc t rep p = Some (st', r) → call_step s0 st st'
| call_detach st' r : js_detach_all st = Some (st', r) → call_step s0 st st'.

(** The functions in the interceptor's list. *)
Definition listed (es : list (Z * AttachEntry)) : list Z := (λ pe, target pe.2) <$> es.

(** An entry is marked inactive only after the kernel refused its removal. *)
Definition removal_refused (s0 : Alloc) (e : HookEntry) : Prop :=
  ∃ s, Inv s0 s ∧ target_addr e ∈ target_addr <$> entries_ s ∧ refused (world (mem s)) (target_addr e) (saved_size e).
Definition refusals (s0 : Alloc) (es : list HookEntry) : Prop :=
  ∀ e, e ∈ es → active e = false → removal_refused s0 e.

(** The active entries of the registry are in the interceptor's list. *)
Record IInv (s0 : Alloc) (st : Interceptor) : Prop := {
  ii_inv : Inv s0 (sys st);
  ii_listed : ∀ e, e ∈ entries_ (sys st) → active e = true → target_addr e ∈ listed (g_entries st);
  ii_refused : refusals s0 (entries_ (sys st))
}.

(** One removal, whatever its result: no active entry for the target is left,
    and no other entry becomes active. *)
Lemma uninstall_any s0 s t : Inv s0 s → refusals s0 (entries_ s) →
  ∃ s' ret, HookUninstall s t = Some (s', ret) ∧ Inv s0 s' ∧ refusals s0 (entries_ s') ∧
    ∀ e, e ∈ entries_ s' → active e = true → e ∈ entries_ s ∧ target_addr e ≠ t.
Proof.
  intros I Hr. destruct (decide (t = 0)) as [->|Ht].
  { exists s, (-1). split; [done|]. split; [done|]. split; [done|]. intros e He _. split; [done|].
    pose proof (Inv_entries _ _ I) as HE. rewrite Forall_forall in HE. pose proof (e_addr _ _ (HE e He)). lia. }
  pose proof (HookUninstall_ok s0 s t I Ht) as HU. pose proof (Remove_Find (entries_ s) t) as HR.
  destruct (Find (entries_ s) t) as [h|] eqn:EF.
  - destruct HR as (l1 & l2 & E & Eh & _ & ER). destruct HU as (s' & ret & E' & HU). exists s', ret. split; [done|].
    assert (∀ e, e ∈ l1 ++ l2 → e ∈ entries_ s ∧ target_addr e ≠ t) as Hin.
    { intros e He. split; [rewrite E; rewrite elem_of_app in He; rewrite elem_of_app, elem_of_cons; tauto|]. intros Hte.
      assert (Permutation (entries_ s) (h :: l1 ++ l2)) as HP by (rewrite E; by rewrite Permutation_middle).
      pose proof (Inv_nodup _ _ I) as Hnd. rewrite HP, fmap_cons in Hnd. apply NoDup_cons in Hnd as [Hnd _].
      apply Hnd. rewrite Eh, <- Hte. by apply list_elem_of_fmap_2. }
    destruct HU as [[_ [U1 U2 U3 _]]|[_ [K1 K2 K3 K4]]]; rewrite ER in *; cbn [fst] in *.
    + split; [done|]. rewrite U2. split; [|intros e He _; by apply Hin]. intros e He. apply Hr. by apply Hin.
    + split; [done|]. rewrite K2. split; intros e He; rewrite elem_of_app, list_elem_of_singleton in He.
      * destruct He as [He| ->]; [apply Hr; by apply Hin|]. intros _. exists s. cbn. rewrite Eh. split; [done|]. split; [|done].
        apply list_elem_of_fmap. exists h. split; [done|]. rewrite E, elem_of_app, elem_of_cons. by right; left.
      * destruct He as [He| ->]; [intros _; by apply Hin|done].
  - exists (mkSys (mem s) (entries_ s)), (-2). split; [done|]. destruct s as [m es]. cbn in *. split; [done|]. split; [done|].
    intros e He _. split; [done|]. intros Hte. apply Find_None in EF. apply EF. rewrite <- Hte. by apply list_elem_of_fmap_2.
Qed.

Lemma detach_loop_ok s0 s es : Inv s0 s → refusals s0 (entries_ s) →
  ∃ s', detach_loop s es = Some s' ∧ Inv s0 s' ∧ refusals s0 (entries_ s') ∧
    ∀ e, e ∈ entries_ s' → active e = true → e ∈ entries_ s ∧ target_addr e ∉ listed es.
Proof.
  revert s. induction es as [|[p e0] es IH]; intros s I Hr; cbn [detach_loop].
  - exists s. split_and!; [done|done|done|]. intros e He _. split; [done|]. apply not_elem_of_nil.
  - destruct (uninstall_any s0 s (target e0) I Hr) as (s1 & ret & -> & I1 & Hr1 & H1). cbn [mbind option_bind].
    destruct (IH s1 I1 Hr1) as (s' & E & I' & Hr' & H'). exists s'. split_and!; [done|done|done|].
    intros e He Ha. destruct (H' e He Ha) as [He1 Hn]. destruct (H1 e He1 Ha) as [He0 Ht]. split; [done|].
    unfold listed. rewrite fmap_cons, not_elem_of_cons. by split.
Qed.

(** A step that adds at most one active entry, with its target listed. *)
Lemma IInv_add s0 st s' es' : IInv s0 st → Inv s0 s' →
  (entries_ s' = entries_ (sys st) ∧ listed es' = listed (g_entries st) ∨
   ∃ e, entries_ s' = entries_ (sys st) ++ [e] ∧ active e = true ∧ listed es' = listed (g_entries st) ++ [target_addr e]) →
  IInv s0 (mkInterceptor s' es').
Proof.
  intros [_ H1 H2] I H. split; cbn [sys g_entries]; [done|..];
    destruct H as [[-> El]|(e & -> & Ha & El)]; rewrite ?El; [done| |done|].
  - intros e' He' Ha'. rewrite elem_of_app, list_elem_of_singleton in He'. apply elem_of_app.
    destruct He' as [He'| ->]; [left; by apply H1|right; by apply list_elem_of_singleton].
  - intros e' He' Ha'. rewrite elem_of_app, list_elem_of_singleton in He'. destruct He' as [He'| ->]; [by apply H2|congruence].
Qed.

Lemma attach_IInv s0 st argc t ep lp p st' r : (∀ x, is_u8 (bytes (world s0) x)) →
  IInv s0 st → hookable s0 (sys st) t →
  js_attach enter_addr leave_addr st argc t ep lp p = Some (st', r) → IInv s0 st'.
Proof.
  intros Hu HI H Hs. unfold js_attach in Hs. destruct (argc <? 2); [by simplify_eq|].
  destruct (t =? 0); [by simplify_eq|].
  pose proof (generate_ok s0 (sys st) p (mkAttachEntry t 0 ep lp 0 0 0) (ii_inv _ _ HI) H Hu) as Hok.
  assert (∀ v, ('(s, entry, ok) ← generate_trampolines enter_addr leave_addr (sys st) p (mkAttachEntry t 0 ep lp 0 0 0);
    if (ok : bool) then Some (mkInterceptor s (g_entries st ++ [(p, entry)]), RObject)
    else Some (mkInterceptor s (g_entries st), RTypeError)) = Some v → IInv s0 v.1) as G.
  { intros v. destruct (generate_trampolines _ _ _ _ _) as [[[s' entry'] [|]]|]; cbn [mbind option_bind]; [| |done]; intros [= <-]; cbn [fst].
    - destruct Hok as (c & orig & A & ->). edestruct at_entries as (e & He & Ht & Ha); [exact A|].
      apply (IInv_add s0 st); [done|apply A|]. right. exists e. split; [done|]. split; [done|]. unfold listed. rewrite fmap_app. cbn. by rewrite Ht.
    - destruct Hok as (I' & He & _). apply (IInv_add s0 st); [done|done|]. by left. }
  destruct ep, lp; try (apply (G (st', r)); exact Hs). by simplify_eq.
Qed.

Lemma replace_IInv s0 st argc t rep p st' r : (∀ x, is_u8 (bytes (world s0) x)) →
  IInv s0 st → hookable s0 (sys st) t → 0 <= rep < 2 ^ 63 →
  js_replace st argc t rep p = Some (st', r) → IInv s0 st'.
Proof.
  intros Hu HI H Hr Hs. unfold js_replace in Hs. destruct (argc <? 2); [by simplify_eq|].
  destruct (t =? 0); [by simplify_eq|]. destruct (Z.eqb_spec rep 0); [by simplify_eq|]. pose proof (ii_inv _ _ HI) as I.
  pose proof (HookInstall_ok s0 (sys st) t rep I H ltac:(lia) Hu) as Hok.
  destruct (HookInstall (sys st) t rep false) as [[[s3 ret] o]|]; cbn [mbind option_bind] in Hs; [|done].
  destruct Hok as [(-> & -> & He & R)|[(-> & -> & a & m & k & B)|(-> & orig & e & m3 & k & -> & J)]];
    cbn [Z.eqb Pos.eqb negb] in Hs; injection Hs as <- _; apply (IInv_add s0 st); try done.
  - by eapply refuses_Inv.
  - by left.
  - by eapply abandoned_Inv.
  - left. split; [apply B|done].
  - by eapply (installed_Inv _ (sys st)); [done|done| |done]; lia.
  - right. exists e. split; [apply J|]. split; [apply J|]. unfold listed. rewrite fmap_app. cbn.
    by destruct (i_entry _ _ _ _ _ _ _ _ _ J) as (_ & -> & _).
Qed.

Lemma calls_IInv s0 st st' : (∀ x, is_u8 (bytes (world s0) x)) → IInv s0 st →
  rtc (call_step s0) st st' → IInv s0 st'.
Proof.
  intros Hu HI Hs. induction Hs as [|st st1 st2 Hc _ IH]; [done|]. apply IH.
  destruct Hc as [argc t ep lp p st1 r H Hs1|argc t rep p st1 r H Hr Hs1|st1 r Hs1].
  - by eapply attach_IInv.
  - by eapply replace_IInv.
  - destruct HI as [I Hl Hf]. destruct (detach_loop_ok s0 _ (g_entries st) I Hf) as (s' & Ed & I' & Hf' & Ha).
    unfold js_detach_all in Hs1. rewrite Ed in Hs1. injection Hs1 as <- _. split; cbn; [done| |done].
    intros e He Hae. destruct (Ha e He Hae) as [He0 Hn]. by destruct Hn; apply Hl.
Qed.

(** C29: Whatever attach, replace and detachAll calls a script has made on
    hookable functions that did not fault, [detachAll] and the engine's
    clean-up return, empty the interceptor's list and leave every byte of
    program memory as it was before the first hook, except under the patches
    that are still registered: each of these is marked inactive, and the kernel
    refused its removal, which [detachAll] does not report. *)
Theorem detach_all_restores s0 st :
  inv s0 → (∀ x, is_u8 (bytes (world s0) x)) →
  rtc (call_step s0) (mkInterceptor (mkSys s0 []) []) st →
  ∃ st', js_detach_all st = Some (st', RUndefined) ∧ js_interceptor_cleanup st = Some st' ∧
    g_entries st' = [] ∧
    (∀ e, e ∈ entries_ (sys st') → active e = false ∧ removal_refused s0 e) ∧
    ∀ x, program s0 x → (∀ e, e ∈ entries_ (sys st') → ¬ patched e x) →
      bytes (world (mem (sys st'))) x = bytes (world s0) x.
Proof.
  intros I0 Hu Hs. assert (IInv s0 st) as [I Hl Hf].
  { eapply calls_IInv; [done| |exact Hs]. split; [by apply Inv_init|..]; intros e He; by apply elem_of_nil in He. }
  destruct (detach_loop_ok s0 _ (g_entries st) I Hf) as (s' & Ed & I' & Hf' & Ha).
  unfold js_detach_all, js_interceptor_cleanup. rewrite Ed. cbn [mbind option_bind]. eexists. split_and!; [done..| |].
  - cbn [sys]. intros e He. assert (active e = false) as Hae.
    { apply not_true_is_false. intros Hae. destruct (Ha e He Hae) as [He0 Hn]. by apply Hn, Hl. }
    split; [done|by apply Hf'].
  - apply I'.
Qed.

End with_os.

(** ** On the demonstration kernel *)

Definition demo_st : Interceptor := mkInterceptor demo_sys [].

Lemma demo_attach_ok :
  snd <$> @js_attach demo_os 0x500000 0x500100 demo_st 2 0x10000 (Some 1) None 0x600000 = Some RObject.
Proof. vm_compute. reflexivity. Qed.

Lemma demo_callback : Some 1 ≠ None ∨ (None : option Z) ≠ None.
Proof. by left. Qed.

Lemma attach_installs_witness :
  ∃ st' c orig, @js_attach demo_os 0x500000 0x500100 demo_st 2 0x10000 (Some 1) None 0x600000 = Some (st', RObject) ∧
    A64.code_at (bytes (world (mem (sys st')))) c (tramp_code 0x500000 0x500100 0x600000 orig).
Proof.
  pose proof (@attach_installs demo_os demo_os_laws demo_maps_laws 0x500000 0x500100
    (mem demo_sys) demo_st 0x10000 (Some 1) None 0x600000 demo_Inv (demo_hookable demo_sys eq_refl) demo_bytes
    demo_callback) as H.
  pose proof demo_attach_ok as Hr.
  destruct (@js_attach demo_os 0x500000 0x500100 demo_st 2 0x10000 (Some 1) None 0x600000) as [[st' r]|]; [|discriminate Hr].
  injection Hr as ->. destruct H as [_ [(H & _)|(_ & c & orig & A & _)]]; [discriminate H|].
  exists st', c, orig. split; [reflexivity|apply A].
Defined.

Lemma demo_call : ∃ st, call_step (O := demo_os) 0x500000 0x500100 (mem demo_sys) demo_st st.
Proof.
  pose proof demo_attach_ok as Hr.
  destruct (@js_attach demo_os 0x500000 0x500100 demo_st 2 0x10000 (Some 1) None 0x600000) as [[st' r]|] eqn:E; [|discriminate Hr].
  exists st'. refine (call_attach _ _ _ _ 2 0x10000 (Some 1) None 0x600000 st' r _ E). by apply demo_hookable.
Qed.

Lemma detach_all_restores_witness :
  ∃ st st', call_step (O := demo_os) 0x500000 0x500100 (mem demo_sys) demo_st st ∧
    @js_detach_all demo_os st = Some (st', RUndefined) ∧ g_entries st' = [].
Proof.
  destruct demo_call as [st Hc].
  destruct (@detach_all_restores demo_os demo_os_laws demo_maps_laws 0x500000 0x500100
    (mem demo_sys) st demo_inv demo_bytes (rtc_once _ _ Hc)) as (st' & Hd & _ & He & _).
  exists st, st'. split; [exact Hc|]. split; [exact Hd|exact He].
Defined.

End JsAttach.
