(* ===== verification/JsTrampoline.v ===== *)
(** * Running an interceptor trampoline

    What the code that [generate_trampolines] ([js_interceptor.cpp]) writes
    does when control reaches it: the registers the original function is
    called with, and the state in which the caller is resumed. The functions
    it calls are arbitrary functions that follow the procedure call standard;
    the two dispatch functions do to the saved context what their models do. *)

From S2P Require Import Prelude Arm64 Arm64Machine Assembler A64Frame JsInterceptor.

Module JsTrampoline.
Import Arm64 A64 A64F JsInterceptor.

(** ** The instructions *)

Definition call_il (entry f : Z) : list finst :=
  [FAddSub true 31 31 288] ++ save_x 8 19 ++ save_q 160 8 ++ mov_imm 16 entry ++
  [FStrX 16 31 0] ++ mov_imm 16 f ++ [FAddSub false 0 31 0].

(** [ldr_q] encodes an 8-bit load at an unscaled offset. *)
Definition restore_il : list finst :=
  load_x 8 19 ++ load_b 10 8 ++ [FAddSub false 31 31 288].

Lemma decode_call entry f : is_u64 entry → is_u64 f →
  fdecode <$> call_words entry f = call_il entry f ++ [FBase (IBlr 16)].
Proof.
  intros He Hf. unfold call_words, call_il. rewrite !fmap_app, !fdecode_mov_words by (done || lia).
  rewrite <- !app_assoc. repeat (f_equal; try reflexivity).
Qed.

Lemma decode_restore : fdecode <$> restore_words = restore_il.
Proof. vm_compute. reflexivity. Qed.

(** ** Saving the context and calling a dispatch function *)

Lemma call_block b s entry f : sp s = b + 288 → 0 <= b → b + 304 <= 2 ^ 64 → is_u64 entry →
  is_u64 f → (∀ r, is_u64 (xr s r)) →
  ∃ s', seq_run b 304 (call_il entry f) s s' ∧ sp s' = b ∧
    (∀ r, xr s' r = if r =? 0 then b else if r =? 16 then f else xr s r) ∧ vr s' = vr s ∧
    load s' (b + 0) 8 = entry ∧
    (∀ i, 0 <= i < 19 → load s' (b + (8 + 8 * i)) 8 = xr s i) ∧
    keeps b 288 304 s s'.
Proof.
  intros Hsp Hb1 Hb2 He Hf Hx.
  destruct (addsub_sp_ok b 304 s true 31 288 b) as (s1 & R1 & S1 & X1 & V1 & _ & M1);
    [done|rewrite Hsp; replace (b + 288 - 288) with b by lia; symmetry; apply u64_id; unfold is_u64; lia|].
  destruct (save_x_ok b 304 s1 8 19) as (s2 & R2 & [X2 V2 S2 _] & L2 & _ & K2);
    [lia|done|lia|lia|lia|by rewrite X1|].
  destruct (save_q_ok b 304 s2 160 8) as (s3 & R3 & [X3 V3 S3 _] & _ & K3a & K3b);
    [lia|congruence|lia|lia|].
  destruct (mov_imm_ok b 304 s3 16 entry) as (s4 & R4 & [X4 [V4 S4 _ M4]]); [lia|done|].
  set (s5 := next (store s4 (b + 0) 8 entry)).
  assert (seq_run b 304 [FStrX 16 31 0] s4 s5) as R5.
  { apply seq_run_one; [done| |apply store_stays; lia]. cbn [fexec]. unfold get_xsp, get_x.
    cbn [Z.eqb Pos.eqb]. rewrite X4. cbn [Z.eqb Pos.eqb]. do 2 f_equal. f_equal. congruence. }
  destruct (mov_imm_ok b 304 s5 16 f) as (s6 & R6 & [X6 [V6 S6 _ M6]]); [lia|done|].
  assert (sp s6 = b) as Hs6 by (rewrite S6; unfold s5; cbn; congruence).
  set (s7 := next (set_x s6 0 (b + 0))).
  assert (seq_run b 304 [FAddSub false 0 31 0] s6 s7) as R7.
  { apply seq_run_one; [done| |by apply stays_mem]. cbn [fexec]. unfold get_xsp, set_xsp.
    cbn [Z.eqb Pos.eqb]. by rewrite Hs6. }
  exists s7. unfold call_il. split; [by repeat (eapply seq_run_app; [eassumption|])|].
  assert (∀ a n, load s7 a n = load s5 a n) as Hl by (intros; apply load_mem; exact M6).
  assert (keeps b 8 304 s4 s5) as K5 by (apply store_keeps; lia).
  split_and!.
  - done.
  - intros r. cbn. destruct (Z.eqb_spec r 0) as [->|Hr]; cbn.
    + rewrite Z.add_0_r. apply u64_id. unfold is_u64. lia.
    + rewrite X6. destruct (Z.eqb_spec r 16); [done|]. unfold s5. cbn. rewrite X4.
      rewrite (proj2 (Z.eqb_neq r 16)) by done. congruence.
  - change (vr s7) with (vr s6). rewrite V6. unfold s5. cbn. congruence.
  - rewrite Hl. unfold s5. change (load (next ?x)) with (load x).
    rewrite load_store_eq by lia. by apply Z.mod_small.
  - intros i Hi. rewrite Hl, (keeps_load b 8 304 s4 s5) by (done || lia).
    rewrite (load_mem s3 s4) by done.
    rewrite (keeps_load b (- 2 ^ 32) 160 s2 s3) by (done || lia). rewrite L2 by lia. by rewrite X1.
  - intros p Hp. change (mem s7) with (mem s6). rewrite M6, K5 by lia. rewrite M4, K3b, K2 by lia.
    by rewrite M1.
Qed.

Lemma restore_block b s : sp s = b → 0 <= b → b + 304 <= 2 ^ 64 →
  ∃ s', seq_run b 304 restore_il s s' ∧ sp s' = b + 288 ∧
    (∀ i, 0 <= i < 19 → xr s' i = u64 (load s (b + (8 + 8 * i)) 8)) ∧
    (∀ r, 19 <= r → xr s' r = xr s r) ∧
    (∀ i, 0 <= i < 8 → vr s' i = load s (b + (10 + i)) 1) ∧ mem s' = mem s.
Proof.
  intros Hsp Hb1 Hb2.
  destruct (load_x_ok b 304 s 8 19 Hsp) as (s1 & R1 & [V1 S1 _ M1] & L1 & X1); [lia|].
  destruct (load_b_ok b 304 s1 10 8) as (s2 & R2 & [X2 S2 _ M2] & L2 & _); [congruence|].
  destruct (addsub_sp_ok b 304 s2 false 31 288 (b + 288)) as (s3 & R3 & S3 & X3 & V3 & _ & M3); [done| |].
  { rewrite S2, S1, Hsp. symmetry. apply u64_id. unfold is_u64. lia. }
  exists s3. unfold restore_il. split; [by repeat (eapply seq_run_app; [eassumption|])|].
  split_and!; [done| | | |congruence].
  - intros i Hi. rewrite X3, X2. by apply L1.
  - intros r Hr. rewrite X3, X2. apply X1. lia.
  - intros i Hi. rewrite V3, L2 by lia. by apply load_mem.
Qed.

(** ** What the dispatch functions do to the saved context *)

Section Dispatched.
Context (JS_Call_enter : Z → list Z → option (Z → option Z)).
Context (JS_Call_leave : Z → Z → option Z).

(** The value of an argument register after [on_enter]: a non-null pointer the
    callback returned for it, or what it was. *)
Definition arg_after (e : AttachEntry) (regs : Z → Z) (i : Z) : Z :=
  match on_enter e with
  | None => regs i
  | Some f =>
      match JS_Call_enter f (regs <$> seqZ 0 8) with
      | Some ret => match ret i with
                    | Some p => if p =? 0 then regs i else u64 p
                    | None => regs i
                    end
      | None => regs i
      end
  end.

Definition ret_after (e : AttachEntry) (retval : Z) : Z :=
  match on_leave e with
  | None => retval
  | Some f => match JS_Call_leave f retval with
              | Some p => if p =? 0 then retval else u64 p
              | None => retval
              end
  end.

Lemma write_args_ok b ret s (k : nat) : (k <= 8)%nat →
  let s' := foldl (write_arg b ret) s (seqZ 0 (Z.of_nat k)) in
  (∀ i, 0 <= i < 19 → load s' (b + (8 + 8 * i)) 8 =
     if i <? Z.of_nat k then
       match ret i with
       | Some p => if p =? 0 then load s (b + (8 + 8 * i)) 8 else u64 p
       | None => load s (b + (8 + 8 * i)) 8
       end
     else load s (b + (8 + 8 * i)) 8) ∧
  keeps b 160 304 s s' ∧ keeps b 0 8 s s'.
Proof.
  intros Hk. induction k as [|k IH]; cbv zeta.
  - change (seqZ 0 (Z.of_nat 0)) with (@nil Z). cbn [foldl]. split_and!; [|done|done].
    intros i Hi. by destruct (Z.ltb_spec i (Z.of_nat 0)); [lia|].
  - rewrite seqZ_S, foldl_snoc, Z.add_0_l. destruct IH as (L & K1 & K2); [lia|].
    set (s1 := foldl _ _ _) in *. unfold write_arg.
    assert (∀ p, A64F.store s1 (b + kOffX0 + Z.of_nat k * 8) 8 p =
                 A64F.store s1 (b + (8 + 8 * Z.of_nat k)) 8 p) as Hst.
    { intros p. f_equal. unfold kOffX0. lia. }
    assert (∀ i, 0 <= i < 19 → (i <? Z.of_nat (S k)) = (i <? Z.of_nat k) || (i =? Z.of_nat k)) as Hlt.
    { intros i Hi. case_cmp; cbn; try lia; done. }
    destruct (ret (Z.of_nat k)) as [p|] eqn:Er; [destruct (Z.eqb_spec p 0) as [->|Hp]|].
    1,3: split_and!; [|done|done]; intros i Hi; rewrite L by done; rewrite Hlt by done;
      destruct (Z.ltb_spec i (Z.of_nat k)), (Z.eqb_spec i (Z.of_nat k)) as [->|]; cbn; try done;
      by rewrite Er.
    rewrite Hst. split_and!.
    + intros i Hi. rewrite Hlt by done. destruct (Z.eqb_spec i (Z.of_nat k)) as [->|Hne].
      * rewrite orb_true_r, Er, (proj2 (Z.eqb_neq p 0)) by done. by rewrite load_store_eq by lia.
      * rewrite orb_false_r, load_store_ne by lia. by apply L.
    + eapply keeps_trans; [exact K1|]. apply (store_keeps b (8 + 8 * Z.of_nat k) 8 p s1); lia.
    + eapply keeps_trans; [exact K2|]. apply (store_keeps b (8 + 8 * Z.of_nat k) 8 p s1); lia.
Qed.

Lemma dispatch_enter_ok heap e entry b s sd regs : heap entry = Some e → entry ≠ 0 →
  load s (b + 0) 8 = entry → (∀ i, 0 <= i < 19 → load s (b + (8 + 8 * i)) 8 = regs i) →
  dispatch_on_enter JS_Call_enter heap s b = Some sd →
  (∀ i, 0 <= i < 8 → load sd (b + (8 + 8 * i)) 8 = arg_after e regs i) ∧
  (∀ i, 8 <= i < 19 → load sd (b + (8 + 8 * i)) 8 = regs i) ∧ keeps b 160 304 s sd.
Proof.
  intros Hh Hne Hl Hr. unfold dispatch_on_enter, kOffEntry. rewrite Hl.
  rewrite (proj2 (Z.eqb_neq entry 0)), Hh by done. cbn [mbind option_bind]. unfold arg_after.
  destruct (on_enter e) as [f|]; [|intros [= <-]; split_and!; [..|done]; intros; apply Hr; lia].
  assert ((λ i, load s (b + kOffX0 + i * 8) 8) <$> seqZ 0 8 = regs <$> seqZ 0 8) as ->.
  { apply list_fmap_ext. intros j i Hi. apply lookup_seqZ in Hi as [-> Hi].
    unfold kOffX0. rewrite <- Hr by lia. f_equal. lia. }
  destruct (JS_Call_enter f _) as [ret|]; [|intros [= <-]; split_and!; [..|done]; intros; apply Hr; lia].
  intros [= <-]. destruct (write_args_ok b ret s 8) as (L & K & _); [lia|].
  change (Z.of_nat 8) with 8 in L, K. split_and!; [| |done]; intros i Hi; rewrite L by lia.
  - rewrite (proj2 (Z.ltb_lt i 8)) by lia. by rewrite !Hr by lia.
  - rewrite (proj2 (Z.ltb_ge i 8)) by lia. apply Hr. lia.
Qed.

Lemma dispatch_leave_ok heap e entry b s sd regs : heap entry = Some e → entry ≠ 0 →
  load s (b + 0) 8 = entry → (∀ i, 0 <= i < 19 → load s (b + (8 + 8 * i)) 8 = regs i) →
  dispatch_on_leave JS_Call_leave heap s b = Some sd →
  load sd (b + (8 + 8 * 0)) 8 = ret_after e (regs 0) ∧
  (∀ i, 1 <= i < 19 → load sd (b + (8 + 8 * i)) 8 = regs i) ∧ keeps b 160 304 s sd.
Proof.
  intros Hh Hne Hl Hr. unfold dispatch_on_leave, kOffEntry, kOffX0. rewrite Hl.
  rewrite (proj2 (Z.eqb_neq entry 0)), Hh by done. cbn [mbind option_bind]. unfold ret_after.
  assert (∀ s', Some s = Some s' → load s' (b + (8 + 8 * 0)) 8 = regs 0 ∧
    (∀ i, 1 <= i < 19 → load s' (b + (8 + 8 * i)) 8 = regs i) ∧ keeps b 160 304 s s') as Hsame.
  { intros s' [= <-]. split_and!; [apply Hr; lia|intros; apply Hr; lia|done]. }
  destruct (on_leave e) as [f|]; [|apply Hsame].
  replace (b + 8) with (b + (8 + 8 * 0)) by lia. rewrite (Hr 0) by lia.
  destruct (JS_Call_leave f (regs 0)) as [p|]; [|apply Hsame].
  destruct (Z.eqb_spec p 0); [apply Hsame|]. intros [= <-]. split_and!.
  - by rewrite load_store_eq by lia.
  - intros i Hi. rewrite load_store_ne by lia. apply Hr. lia.
  - by apply (store_keeps b (8 + 8 * 0) 8 p s); lia.
Qed.

End Dispatched.

(** ** The run *)

(** The called function is [dispatch], whose argument is the saved context:
    the frame is as it leaves it. *)
Definition ran (dispatch : state → Z → option state) (s s' : state) : Prop :=
  ∃ sd, dispatch s (xr s 0) = Some sd ∧
    ∀ p, 0 <= p < 304 → mem s' (u64 (sp s + p)) = mem sd (u64 (sp s + p)).

Section Run.
Context (entry enter leave orig c : Z).
Hypothesis entry_u64 : is_u64 entry.
Hypothesis enter_u64 : is_u64 enter.
Hypothesis leave_u64 : is_u64 leave.
Hypothesis orig_u64 : is_u64 orig.
Hypothesis c_range : 0 < c ∧ c + 1024 <= 2 ^ 63.

Let tw := tramp_words entry enter leave orig.
Definition has_code (s : state) : Prop := placed c tw s.

Lemma tw_length : length tw = 146%nat.
Proof. done. Qed.

#[local] Set Default Proof Using "Type*".

Lemma tw_range : 0 <= c ∧ c + 4 * zlen tw <= 2 ^ 63.
Proof. rewrite tw_length. lia. Qed.

Lemma has_code_same s s' : has_code s →
  (∀ i, 0 <= i < 584 → mem s' (u64 (c + i)) = mem s (u64 (c + i))) → has_code s'.
Proof. exact (placed_same c tw (tramp_words_u32 _ _ _ _) tw_range s s'). Qed.

Lemma seg_run b pre ws post il s s' : tw = pre ++ ws ++ post → fdecode <$> ws = il →
  has_code s → pc s = c + 4 * zlen pre → clear_of b 304 c 584 → seq_run b 304 il s s' →
  frun (length ws) s = Some s' ∧ pc s' = c + 4 * (zlen pre + zlen ws) ∧ has_code s'.
Proof. exact (seg_frun c tw (tramp_words_u32 _ _ _ _) tw_range b 304 pre ws post il s s'). Qed.

(** BLR X16. *)
Lemma blr_run pre post s : tw = pre ++ [kOpBLR .| u32 (16 << 5)] ++ post → has_code s →
  pc s = c + 4 * zlen pre →
  frun 1 s = Some (set_pc (set_x s 30 (c + 4 * (zlen pre + 1))) (xr s 16)).
Proof.
  intros E. exact (blr_frun c tw (tramp_words_u32 _ _ _ _) tw_range pre _ post 16 s E eq_refl).
Qed.

(** Up to the entry of the dispatch function [f]. *)
Lemma call_run b pre post f s : tw = pre ++ call_words entry f ++ post → is_u64 f → has_code s →
  pc s = c + 4 * zlen pre → clear_of b 304 c 584 → sp s = b + 288 → 0 <= b → b + 304 <= 2 ^ 64 →
  (∀ r, is_u64 (xr s r)) →
  ∃ s', frun 39 s = Some s' ∧ pc s' = f ∧ has_code s' ∧ sp s' = b ∧
    (∀ r, xr s' r = if r =? 30 then c + 4 * (zlen pre + 39) else if r =? 0 then b
                    else if r =? 16 then f else xr s r) ∧
    load s' (b + 0) 8 = entry ∧ (∀ i, 0 <= i < 19 → load s' (b + (8 + 8 * i)) 8 = xr s i) ∧
    keeps b 288 304 s s'.
Proof.
  intros E Hf Hc Hpc Hcl Hsp Hb1 Hb2 Hx.
  destruct (call_block b s entry f Hsp Hb1 Hb2 entry_u64 Hf Hx)
    as (s1 & R1 & S1 & X1 & V1 & L0 & L1 & K1).
  set (ws := take 38 (call_words entry f)).
  assert (call_words entry f = ws ++ [kOpBLR .| u32 (16 << 5)]) as Ew by done.
  assert (fdecode <$> ws = call_il entry f) as Hd.
  { pose proof (decode_call entry f entry_u64 Hf) as Hd. rewrite Ew, fmap_app in Hd.
    by apply app_inj_2 in Hd as [? _]. }
  rewrite Ew, <- app_assoc in E.
  assert (length pre + 39 + length post = 146)%nat as Hlen.
  { rewrite <- tw_length, E, !length_app. change (length ws) with 38%nat. cbn [length]. lia. }
  destruct (seg_run b pre ws _ _ s s1 E Hd Hc Hpc Hcl R1) as (F1 & P1 & C1).
  change (zlen ws) with 38 in P1. change (length ws) with 38%nat in F1.
  pose proof (blr_run (pre ++ ws) post s1) as F2.
  rewrite <- app_assoc, length_app in F2. change (length ws) with 38%nat in F2.
  specialize (F2 E C1). rewrite P1 in F2. specialize (F2 ltac:(lia)).
  eexists. split; [|split_and!].
  - change 39%nat with (38 + 1)%nat. rewrite frun_app, F1. cbn [mbind option_bind]. exact F2.
  - cbn. rewrite X1. cbn. by apply u64_id.
  - exact C1.
  - exact S1.
  - intros r. cbn. destruct (Z.eqb_spec r 30) as [->|]; cbn; [|apply X1].
    rewrite u64_id by (unfold is_u64; lia). lia.
  - exact L0.
  - exact L1.
  - exact K1.
Qed.

(** A state in which the trampoline is entered: 304 bytes of stack clear of
    its code. *)
Record ready (s : state) : Prop := {
  rd_pc : pc s = c;
  rd_code : has_code s;
  rd_sp : 304 <= sp s < 2 ^ 64;
  rd_clear : clear_of (sp s - 304) 304 c 584;
  rd_u64 : ∀ r, is_u64 (xr s r)
}.

Lemma enter_phase s : ready s → let b := sp s - 304 in
  ∃ s1, frun 40 s = Some s1 ∧ pc s1 = enter ∧ has_code s1 ∧ sp s1 = b ∧
    (∀ r, xr s1 r = if r =? 30 then c + 160 else if r =? 0 then b
                    else if r =? 16 then enter else xr s r) ∧
    load s1 (b + 0) 8 = entry ∧ (∀ i, 0 <= i < 19 → load s1 (b + (8 + 8 * i)) 8 = xr s i) ∧
    load s1 (b + 288) 8 = xr s 19 ∧ load s1 (b + 296) 8 = xr s 30.
Proof.
  intros [Hpc Hc Hsp Hcl Hx] b. assert (0 <= b ∧ b + 304 <= 2 ^ 64) as [Hb1 Hb2] by lia.
  destruct (push_ok b 304 s 288 19 30) as (t & R & S & X & V & _ & L1 & L2 & _);
    [lia|lia|lia|lia|unfold is_u64; lia|done|done|auto|auto|].
  destruct (seg_run b [] [0xA9BF7BF3] (drop 1 tw) _ s t eq_refl eq_refl Hc) as (F1 & P1 & C1);
    [cbn; lia|done|exact R|].
  destruct (call_run b [0xA9BF7BF3] (drop 40 tw) enter t) as (s1 & F & P & C & S1 & X1 & L0 & L & K);
    [reflexivity|done|done|exact P1|done|done|lia|lia|by rewrite X|].
  exists s1. split; [change 40%nat with (1 + 39)%nat; rewrite frun_app; cbn [length] in F1; by rewrite F1|].
  rewrite X in X1, L. split_and!; try done.
  - rewrite (keeps_load b 288 304 t s1) by (done || lia). exact L1.
  - rewrite (keeps_load b 288 304 t s1) by (done || lia). exact L2.
Qed.

(** From the return of [dispatch_on_enter] to the original function. *)
Lemma orig_phase b s x19 lr : pc s = c + 160 → has_code s → sp s = b → 0 <= b → b + 304 < 2 ^ 64 →
  clear_of b 304 c 584 → is_u64 x19 → is_u64 lr →
  load s (b + 288) 8 = x19 → load s (b + 296) 8 = lr →
  ∃ s2, frun 36 s = Some s2 ∧ pc s2 = orig ∧ has_code s2 ∧ sp s2 = b + 288 ∧
    (∀ i, 0 <= i < 19 → i ≠ 16 → xr s2 i = u64 (load s (b + (8 + 8 * i)) 8)) ∧
    (∀ r, 20 <= r <= 29 → xr s2 r = xr s r) ∧ xr s2 19 = lr ∧ xr s2 30 = c + 304 ∧
    (∀ i, 0 <= i < 8 → vr s2 i = load s (b + (10 + i)) 1) ∧
    load s2 (b + 288) 8 = x19 ∧ load s2 (b + 296) 8 = lr.
Proof.
  intros Hpc Hc Hsp Hb1 Hb2 Hcl Hx19 Hlr H19 H30.
  destruct (restore_block b s Hsp Hb1 ltac:(lia)) as (s1 & R1 & S1 & X1 & X1' & V1 & M1).
  destruct (pop_ok b 304 s1 19 30 (b + 304)) as (s2 & R2 & S2 & V2 & _ & M2 & X2); [done..| |].
  { rewrite S1. symmetry. rewrite u64_id by (unfold is_u64; lia). lia. }
  assert (∀ a n, load s1 a n = load s a n) as Hl1 by (intros; by apply load_mem).
  rewrite S1, !Hl1 in X2. replace (b + 288 + 8) with (b + 296) in X2 by lia.
  rewrite H30, H19, !u64_id in X2 by done.
  destruct (push_ok b 304 s2 288 19 30) as (s3 & R3 & S3 & X3 & V3 & _ & L3a & L3b & _ & _);
    [lia|lia|lia|lia|unfold is_u64; lia|done|done|by rewrite X2|by rewrite X2|].
  set (s4 := next (set_x s3 19 (xr s3 30))).
  assert (seq_run b 304 [FBase (IMov 19 30)] s3 s4) as R4
    by (apply seq_run_one; [done|done|by apply stays_mem]).
  destruct (mov_imm_ok b 304 s4 16 orig) as (s5 & R5 & [X5 [V5 S5 _ M5]]); [lia|done|].
  destruct (seg_run b (take 40 tw) (take 35 (drop 40 tw)) (drop 75 tw)
    (restore_il ++ [FLdpPost 19 30 31 16] ++ [FStpPre 19 30 31 (-16)] ++ [FBase (IMov 19 30)] ++
     mov_imm 16 orig) s s5) as (F5 & P5 & C5); [reflexivity| |done|exact Hpc|done| |].
  { change (take 35 (drop 40 tw)) with
      (restore_words ++ [0xA8C17BF3; 0xA9BF7BF3; 0xAA1E03F3] ++ mov_words 16 orig).
    rewrite !fmap_app, decode_restore, fdecode_mov_words by (done || lia). done. }
  { by repeat (eapply seq_run_app; [eassumption|]). }
  change (length (take 35 (drop 40 tw))) with 35%nat in F5.
  pose proof (blr_run (take 75 tw) (drop 76 tw) s5 eq_refl C5 P5) as F6.
  eexists. split; [change 36%nat with (35 + 1)%nat; rewrite frun_app; rewrite F5; exact F6|].
  change (zlen (take 75 tw)) with 75. cbn [pc set_pc set_x xr sp vr].
  assert (∀ a n, load s5 a n = load s3 a n) as Hl5 by (intros; by apply load_mem).
  split_and!.
  - rewrite X5. by apply u64_id.
  - exact C5.
  - by rewrite S5.
  - intros i Hi Hi16. rewrite (proj2 (Z.eqb_neq i 30)) by lia. cbn [andb]. rewrite X5.
    rewrite (proj2 (Z.eqb_neq i 16)) by lia. cbn. rewrite (proj2 (Z.eqb_neq i 19)) by lia. cbn.
    rewrite X3, X2, (proj2 (Z.eqb_neq i 30)), (proj2 (Z.eqb_neq i 19)) by lia. by apply X1.
  - intros r Hr. rewrite (proj2 (Z.eqb_neq r 30)) by lia. cbn [andb]. rewrite X5.
    rewrite (proj2 (Z.eqb_neq r 16)) by lia. cbn. rewrite (proj2 (Z.eqb_neq r 19)) by lia. cbn.
    rewrite X3, X2, (proj2 (Z.eqb_neq r 30)), (proj2 (Z.eqb_neq r 19)) by lia. apply X1'. lia.
  - cbn [Z.eqb Pos.eqb andb]. rewrite X5. cbn. rewrite X3, X2. cbn. by apply u64_id.
  - cbn [Z.eqb Pos.eqb andb negb]. rewrite u64_id by (unfold is_u64; lia). lia.
  - intros i Hi. rewrite V5. unfold s4. cbn. rewrite V3, V2. by apply V1.
  - change (load s5 (b + 288) 8 = x19). rewrite Hl5, L3a. by rewrite X2.
  - change (load s5 (b + 296) 8 = lr). rewrite Hl5. replace (b + 296) with (b + (288 + 8)) by lia.
    rewrite L3b. by rewrite X2.
Qed.

(** From the return of the original function to [dispatch_on_leave]. *)
Lemma leave_phase b s : pc s = c + 304 → has_code s → sp s = b + 288 → 0 <= b →
  b + 304 < 2 ^ 64 → clear_of b 304 c 584 → (∀ r, is_u64 (xr s r)) →
  ∃ s3, frun 40 s = Some s3 ∧ pc s3 = leave ∧ has_code s3 ∧ sp s3 = b ∧ xr s3 0 = b ∧
    xr s3 30 = c + 464 ∧ (∀ r, 19 <= r <= 29 → xr s3 r = xr s r) ∧
    load s3 (b + 0) 8 = entry ∧ (∀ i, 0 <= i < 19 → load s3 (b + (8 + 8 * i)) 8 = xr s i) ∧
    keeps b 288 304 s s3.
Proof.
  intros Hpc Hc Hsp Hb1 Hb2 Hcl Hx. set (t := next (set_x s 30 (xr s 19))).
  assert (seq_run b 304 [FBase (IMov 30 19)] s t) as R
    by (apply seq_run_one; [done|done|by apply stays_mem]).
  destruct (seg_run b (take 76 tw) [0xAA1303FE] (drop 77 tw) _ s t eq_refl eq_refl Hc)
    as (F1 & P1 & C1); [exact Hpc|done|exact R|].
  assert (∀ r, xr t r = if r =? 30 then xr s 19 else xr s r) as Xt.
  { intros r. cbn. destruct (Z.eqb_spec r 30); cbn; [|done]. by apply u64_id. }
  destruct (call_run b (take 77 tw) (drop 116 tw) leave t) as (s3 & F & P & C & S & X & L0 & L & K);
    [reflexivity|done|done|exact P1|done|done|lia|lia|intros r; rewrite Xt; by destruct (r =? 30)|].
  change (zlen (take 77 tw)) with 77 in X.
  exists s3. split; [change 40%nat with (1 + 39)%nat; rewrite frun_app; cbn [length] in F1; by rewrite F1|].
  split_and!; [done|done|done|by rewrite X|by rewrite X| |done| |done].
  - intros r Hr. rewrite X, Xt. by rewrite (proj2 (Z.eqb_neq r 30)), (proj2 (Z.eqb_neq r 0)),
      (proj2 (Z.eqb_neq r 16)) by lia.
  - intros i Hi. rewrite L by done. by rewrite Xt, (proj2 (Z.eqb_neq i 30)) by lia.
Qed.

(** From the return of [dispatch_on_leave] to the caller. *)
Lemma resume_phase b s x19 lr : pc s = c + 464 → has_code s → sp s = b → 0 <= b →
  b + 304 < 2 ^ 64 → clear_of b 304 c 584 → is_u64 x19 → is_u64 lr →
  load s (b + 288) 8 = x19 → load s (b + 296) 8 = lr →
  ∃ s4, frun 30 s = Some s4 ∧ pc s4 = lr ∧ sp s4 = b + 304 ∧
    (∀ i, 0 <= i < 19 → xr s4 i = u64 (load s (b + (8 + 8 * i)) 8)) ∧
    xr s4 19 = x19 ∧ (∀ r, 20 <= r <= 29 → xr s4 r = xr s r) ∧ xr s4 30 = lr ∧
    (∀ i, 0 <= i < 8 → vr s4 i = load s (b + (10 + i)) 1).
Proof.
  intros Hpc Hc Hsp Hb1 Hb2 Hcl Hx19 Hlr H19 H30.
  destruct (restore_block b s Hsp Hb1 ltac:(lia)) as (s1 & R1 & S1 & X1 & X1' & V1 & M1).
  destruct (pop_ok b 304 s1 19 30 (b + 304)) as (s2 & R2 & S2 & V2 & _ & M2 & X2); [done..| |].
  { rewrite S1. symmetry. rewrite u64_id by (unfold is_u64; lia). lia. }
  assert (∀ a n, load s1 a n = load s a n) as Hl1 by (intros; by apply load_mem).
  rewrite S1, !Hl1 in X2. replace (b + 288 + 8) with (b + 296) in X2 by lia.
  rewrite H30, H19, !u64_id in X2 by done.
  destruct (seg_run b (take 116 tw) (take 29 (drop 116 tw)) (drop 145 tw)
    (restore_il ++ [FLdpPost 19 30 31 16]) s s2) as (F5 & P5 & C5);
    [reflexivity| |done|exact Hpc|done| |].
  { change (take 29 (drop 116 tw)) with (restore_words ++ [0xA8C17BF3]).
    rewrite fmap_app, decode_restore. done. }
  { eapply seq_run_app; eassumption. }
  change (length (take 29 (drop 116 tw))) with 29%nat in F5.
  change (zlen (take 116 tw) + zlen (take 29 (drop 116 tw))) with 145 in P5.
  pose proof (ret_frun c tw (tramp_words_u32 _ _ _ _) tw_range (take 145 tw) 0xD65F03C0 [] 30 s2
    eq_refl eq_refl C5 P5) as F6.
  change (get_x s2 30) with (xr s2 30) in F6. rewrite X2 in F6.
  exists (set_pc s2 lr). split.
  { change 30%nat with (29 + 1)%nat. rewrite frun_app, F5. exact F6. }
  cbn [pc set_pc xr sp vr]. split_and!; [by apply u64_id|done|..].
  - intros i Hi. rewrite X2, (proj2 (Z.eqb_neq i 30)), (proj2 (Z.eqb_neq i 19)) by lia. by apply X1.
  - by rewrite X2.
  - intros r Hr. rewrite X2, (proj2 (Z.eqb_neq r 30)), (proj2 (Z.eqb_neq r 19)) by lia. apply X1'. lia.
  - by rewrite X2.
  - intros i Hi. rewrite V2. by apply V1.
Qed.

(** ** The whole run *)

Context (JS_Call_enter : Z → list Z → option (Z → option Z)).
Context (JS_Call_leave : Z → Z → option Z).
Context (heap : Z → option AttachEntry) (e : AttachEntry).
Hypothesis entry_nonnull : entry ≠ 0.
Hypothesis entry_heap : heap entry = Some e.

(** The original function is entered: its arguments are the caller's, or what
    [on_enter] made of them. *)
Record at_original (s s2 : state) : Prop := {
  ao_pc : pc s2 = orig;
  ao_sp : sp s2 = sp s - 16;
  ao_args : ∀ i, 0 <= i < 8 → xr s2 i = arg_after JS_Call_enter e (xr s) i;
  ao_temps : ∀ i, 8 <= i < 19 → i ≠ 16 → xr s2 i = xr s i;
  ao_saved : ∀ r, 20 <= r <= 29 → xr s2 r = xr s r;
  ao_x19 : xr s2 19 = xr s 30;
  ao_lr : xr s2 30 = c + 304
}.

(** The caller is resumed: [s'] is the state in which the original function
    returned. *)
Record resumed (s s' s4 : state) : Prop := {
  rs_pc : pc s4 = xr s 30;
  rs_sp : sp s4 = sp s;
  rs_ret : xr s4 0 = ret_after JS_Call_leave e (xr s' 0);
  rs_regs : ∀ i, 1 <= i < 19 → xr s4 i = xr s' i;
  rs_saved : ∀ r, 19 <= r <= 30 → xr s4 r = xr s r
}.

Lemma arg_after_u64 regs i : (∀ r, is_u64 (regs r)) → is_u64 (arg_after JS_Call_enter e regs i).
Proof.
  intros H. unfold arg_after. repeat case_match; auto with cint.
Qed.

Lemma ret_after_u64 v : is_u64 v → is_u64 (ret_after JS_Call_leave e v).
Proof. intros H. unfold ret_after. repeat case_match; auto with cint. Qed.


(** The state on the return of [dispatch_on_enter]. *)
Lemma after_enter s s1 s1' : ready s → let b := sp s - 304 in
  sp s1 = b → xr s1 0 = b → load s1 (b + 0) 8 = entry →
  (∀ i, 0 <= i < 19 → load s1 (b + (8 + 8 * i)) 8 = xr s i) →
  ran (dispatch_on_enter JS_Call_enter heap) s1 s1' →
  (∀ i, 0 <= i < 8 → load s1' (b + (8 + 8 * i)) 8 = arg_after JS_Call_enter e (xr s) i) ∧
  (∀ i, 8 <= i < 19 → load s1' (b + (8 + 8 * i)) 8 = xr s i) ∧ keeps b 160 304 s1 s1'.
Proof.
  intros HR b Hsp Hx L0 L (sd & Hd & Hm). rewrite Hx, Hsp in *.
  destruct (dispatch_enter_ok JS_Call_enter heap e entry b s1 sd (xr s)) as (A1 & A2 & A3); try done.
  assert (∀ p n, 0 <= p → p + Z.of_nat n <= 304 → load s1' (b + p) n = load sd (b + p) n) as Hl.
  { intros p n Hp Hn. apply load_ext. intros i Hi. rewrite <- Z.add_assoc. apply Hm. lia. }
  split_and!.
  - intros i Hi. rewrite Hl by lia. by apply A1.
  - intros i Hi. rewrite Hl by lia. by apply A2.
  - intros p Hp. rewrite Hm by lia. by apply A3.
Qed.

Lemma after_leave s3 s3' b regs : sp s3 = b → xr s3 0 = b → load s3 (b + 0) 8 = entry →
  (∀ i, 0 <= i < 19 → load s3 (b + (8 + 8 * i)) 8 = regs i) →
  ran (dispatch_on_leave JS_Call_leave heap) s3 s3' →
  load s3' (b + (8 + 8 * 0)) 8 = ret_after JS_Call_leave e (regs 0) ∧
  (∀ i, 1 <= i < 19 → load s3' (b + (8 + 8 * i)) 8 = regs i) ∧ keeps b 160 304 s3 s3'.
Proof.
  intros Hsp Hx L0 L (sd & Hd & Hm). rewrite Hx, Hsp in *.
  destruct (dispatch_leave_ok JS_Call_leave heap e entry b s3 sd regs) as (A1 & A2 & A3); try done.
  assert (∀ p n, 0 <= p → p + Z.of_nat n <= 304 → load s3' (b + p) n = load sd (b + p) n) as Hl.
  { intros p n Hp Hn. apply load_ext. intros i Hi. rewrite <- Z.add_assoc. apply Hm. lia. }
  split_and!.
  - rewrite Hl by lia. exact A1.
  - intros i Hi. rewrite Hl by lia. by apply A2.
  - intros p Hp. rewrite Hm by lia. by apply A3.
Qed.

(** Up to the original function; [s2] still has the caller's X19 and link
    register on its stack. *)
Lemma to_original s : ready s → let b := sp s - 304 in
  ∃ s1, frun 40 s = Some s1 ∧ pc s1 = enter ∧
    ∀ s1', returns c 584 s1 s1' → ran (dispatch_on_enter JS_Call_enter heap) s1 s1' →
    ∃ s2, frun 36 s1' = Some s2 ∧ at_original s s2 ∧ has_code s2 ∧
      load s2 (b + 288) 8 = xr s 19 ∧ load s2 (b + 296) 8 = xr s 30 ∧
      (∀ i, 0 <= i < 8 → vr s2 i = load s1' (b + (10 + i)) 1) ∧
      (∀ i, 0 <= i < 2 → load s1' (b + (8 + 8 * i)) 8 = arg_after JS_Call_enter e (xr s) i).
Proof.
  intros HR b. pose proof HR as [Hpc Hc Hsp Hcl Hx].
  destruct (enter_phase s HR) as (s1 & F1 & P1 & C1 & S1 & X1 & L0 & L & L19 & L30).
  exists s1. split_and!; [done|done|]. intros s1' [Npc Nsp Nsv Nu Nc] Hran.
  fold b in Hcl, S1, X1, L0, L, L19, L30.
  assert (xr s1 0 = b) as X0 by (by rewrite X1).
  destruct (after_enter s s1 s1' HR S1 X0 L0 L Hran) as (A1 & A2 & K).
  fold b in A1, A2, K.
  destruct (orig_phase b s1' (xr s 19) (xr s 30)) as
    (s2 & F2 & P2 & C2 & S2 & Y1 & Y2 & Y3 & Y4 & V & M1 & M2);
    [by rewrite Npc, X1|by apply (has_code_same s1)|by rewrite Nsp|lia|lia|done|auto|auto|
     by rewrite (keeps_load b 160 304 s1 s1') by (done || lia)|
     by rewrite (keeps_load b 160 304 s1 s1') by (done || lia)|].
  exists s2. split_and!; try done; [|intros i Hi; apply A1; lia]. split; try done.
  - lia.
  - intros i Hi. rewrite Y1, A1 by lia. by apply u64_id, arg_after_u64.
  - intros i Hi Hi16. rewrite Y1, A2 by lia. by apply u64_id.
  - intros r Hr. rewrite Y2, Nsv, X1 by lia.
    by rewrite (proj2 (Z.eqb_neq r 30)), (proj2 (Z.eqb_neq r 0)), (proj2 (Z.eqb_neq r 16)) by lia.
Qed.

(** From the original function back to the caller. *)
Lemma from_original s s2 s2' : ready s → let b := sp s - 304 in
  at_original s s2 → has_code s2 → load s2 (b + 288) 8 = xr s 19 → load s2 (b + 296) 8 = xr s 30 →
  returns c 584 s2 s2' → keeps (sp s2) 0 16 s2 s2' →
  ∃ s3, frun 40 s2' = Some s3 ∧ pc s3 = leave ∧
    ∀ s3', returns c 584 s3 s3' → ran (dispatch_on_leave JS_Call_leave heap) s3 s3' →
    ∃ s4, frun 30 s3' = Some s4 ∧ resumed s s2' s4 ∧
      (∀ i, 0 <= i < 8 → vr s4 i = load s3' (b + (10 + i)) 1) ∧
      load s3' (b + 8) 8 = ret_after JS_Call_leave e (xr s2' 0) ∧
      load s3' (b + 16) 8 = xr s2' 1.
Proof.
  intros HR b [Opc Osp Oa Ot Os O19 Olr] C2 L19 L30 [Npc Nsp Nsv Nu Nc] Hk.
  pose proof HR as [Hpc Hc Hsp Hcl Hx]. fold b in Hcl.
  destruct (leave_phase b s2') as (s3 & F3 & P3 & C3 & S3 & X0 & X30 & Xs & L0 & L & K3);
    [congruence|by apply (has_code_same s2)|lia|lia|lia|done|done|].
  exists s3. split_and!; [done|done|]. intros s3' [Mpc Msp Msv Mu Mc] Hran.
  destruct (after_leave s3 s3' b (xr s2')) as (A0 & A1 & K4); try done.
  assert (∀ p, 288 <= p → p + 8 <= 304 → load s3' (b + p) 8 = load s2 (b + p) 8) as Hl.
  { intros p H1 H2. rewrite (keeps_load b 160 304 s3 s3') by (done || lia).
    rewrite (keeps_load b 288 304 s2' s3) by (done || lia). apply load_ext. intros i Hi.
    replace (b + p + i) with (sp s2 + (p - 288 + i)) by lia. apply Hk. lia. }
  destruct (resume_phase b s3' (xr s 19) (xr s 30)) as (s4 & F4 & P4 & S4 & Y & Y19 & Ys & Y30 & V);
    [congruence|by apply (has_code_same s3)|congruence|lia|lia|done|auto|auto|
     by rewrite Hl by lia|by rewrite Hl by lia|].
  exists s4. split_and!; try done; [|by apply (A1 1)]. split; try done.
  - lia.
  - rewrite Y, A0 by lia. apply u64_id, ret_after_u64, Nu.
  - intros i Hi. rewrite Y, A1 by lia. apply u64_id, Nu.
  - intros r Hr. destruct (decide (r = 19)) as [->|]; [done|].
    destruct (decide (r = 30)) as [->|]; [done|].
    by rewrite Ys, Msv, Xs, Nsv, Os by lia.
Qed.

(** C1: What an interceptor trampoline does, for any callbacks and any
    functions that follow the calling convention: it calls
    [dispatch_on_enter]; then the original function, whose integer arguments
    are the caller's with the non-null pointers [onEnter] returned in their
    place, with every other integer register as the caller left it; then
    [dispatch_on_leave]; and then resumes the caller at its return address
    with its stack pointer and callee-saved registers restored and the
    result the original function returned, or the pointer [onLeave] put in
    its place. The original function runs with SP 16 bytes below the
    caller's. *)
Theorem trampoline_run s : ready s →
  ∃ s1, frun 40 s = Some s1 ∧ pc s1 = enter ∧
    ∀ s1', returns c 584 s1 s1' → ran (dispatch_on_enter JS_Call_enter heap) s1 s1' →
    ∃ s2, frun 36 s1' = Some s2 ∧ at_original s s2 ∧
      ∀ s2', returns c 584 s2 s2' → keeps (sp s2) 0 16 s2 s2' →
      ∃ s3, frun 40 s2' = Some s3 ∧ pc s3 = leave ∧
        ∀ s3', returns c 584 s3 s3' → ran (dispatch_on_leave JS_Call_leave heap) s3 s3' →
        ∃ s4, frun 30 s3' = Some s4 ∧ resumed s s2' s4.
Proof.
  intros HR. destruct (to_original s HR) as (s1 & F1 & P1 & H1). exists s1. split_and!; [done|done|].
  intros s1' N1 R1. destruct (H1 s1' N1 R1) as (s2 & F2 & A2 & C2 & L19 & L30 & _).
  exists s2. split_and!; [done|done|]. intros s2' N2 K2.
  destruct (from_original s s2 s2' HR A2 C2 L19 L30 N2 K2) as (s3 & F3 & P3 & H3).
  exists s3. split_and!; [done|done|]. intros s3' N3 R3. destruct (H3 s3' N3 R3) as (s4 & F4 & A4 & _).
  by exists s4.
Qed.

(** What LDR B leaves in a vector register: a byte of X0 or X1. *)
Lemma frame_byte s b x0 x1 i : byte_mem s → load s (b + 8) 8 = x0 →
  load s (b + 16) 8 = x1 → 0 <= i < 8 →
  load s (b + (10 + i)) 1 = (if i <? 6 then x0 / 256 ^ (i + 2) else x1 / 256 ^ (i - 6)) mod 256.
Proof.
  intros Hu H0 H1 Hi. destruct (Z.ltb_spec i 6).
  - replace (b + (10 + i)) with (b + 8 + Z.of_nat (Z.to_nat (i + 2))) by lia.
    rewrite (load_byte s (b + 8) 8) by (done || lia). rewrite H0. do 3 f_equal. lia.
  - replace (b + (10 + i)) with (b + 16 + Z.of_nat (Z.to_nat (i - 6))) by lia.
    rewrite (load_byte s (b + 16) 8) by (done || lia). rewrite H1. do 3 f_equal. lia.
Qed.

(** C32: A trampoline does not preserve vector registers: when the original
    function is entered, each of V0 .. V7 holds one byte of the saved X0 and
    X1 instead of the caller's argument, and when the caller is resumed V0 is
    a byte of the integer result instead of the floating-point one. *)
Theorem trampoline_vectors s : ready s →
  ∃ s1, frun 40 s = Some s1 ∧
    ∀ s1', returns c 584 s1 s1' → ran (dispatch_on_enter JS_Call_enter heap) s1 s1' →
      byte_mem s1' →
    ∃ s2, frun 36 s1' = Some s2 ∧ pc s2 = orig ∧
      (∀ i, 0 <= i < 8 → vr s2 i =
         (if i <? 6 then arg_after JS_Call_enter e (xr s) 0 / 256 ^ (i + 2)
          else arg_after JS_Call_enter e (xr s) 1 / 256 ^ (i - 6)) mod 256) ∧
      ∀ s2', returns c 584 s2 s2' → keeps (sp s2) 0 16 s2 s2' →
      ∃ s3, frun 40 s2' = Some s3 ∧
        ∀ s3', returns c 584 s3 s3' → ran (dispatch_on_leave JS_Call_leave heap) s3 s3' →
          byte_mem s3' →
        ∃ s4, frun 30 s3' = Some s4 ∧ pc s4 = xr s 30 ∧
          vr s4 0 = (ret_after JS_Call_leave e (xr s2' 0) / 256 ^ 2) mod 256.
Proof.
  intros HR. destruct (to_original s HR) as (s1 & F1 & P1 & H1). exists s1. split; [done|].
  intros s1' N1 R1 U1. destruct (H1 s1' N1 R1) as (s2 & F2 & A2 & C2 & L19 & L30 & V2 & L).
  exists s2. split_and!; [done|apply A2| |].
  - intros i Hi. rewrite V2 by done. apply frame_byte; [done|apply (L 0)|apply (L 1)|done]; lia.
  - intros s2' N2 K2.
    destruct (from_original s s2 s2' HR A2 C2 L19 L30 N2 K2) as (s3 & F3 & P3 & H3).
    exists s3. split; [done|]. intros s3' N3 R3 U3.
    destruct (H3 s3' N3 R3) as (s4 & F4 & A4 & V4 & M0 & M1). exists s4.
    split_and!; [done|apply A4|]. rewrite V4 by lia. by apply (frame_byte s3' _ _ _ 0 U3 M0 M1).
Qed.

End Run.

(** ** A trampoline at a concrete address *)

Definition demo_entry : AttachEntry := mkAttachEntry 0x10000 0x400800 None None 0x400000 584 284.
Definition demo_state : state :=
  State (λ _, 7) (λ _, 9) 0x70000000 (false, false, false, false) 0x400000
    (place 0x400000 (words_bytes (tramp_words 0x600000 0x500000 0x500100 0x400800))).

Lemma demo_ready : ready 0x600000 0x500000 0x500100 0x400800 0x400000 demo_state.
Proof.
  split; cbn [pc sp xr demo_state]; [done| |lia| |intros r; unfold is_u64; lia].
  - apply code_at_place; [lia|]. rewrite words_bytes_length. vm_compute. discriminate.
  - intros i Hi. unfold outside, u64. rewrite (Z.mod_small (0x400000 + i)) by lia.
    rewrite <- (Z_mod_plus_full _ 1). rewrite Z.mod_small; lia.
Qed.

(** A callee that returns at once. *)
Definition demo_return (s : state) : state := set_pc s (xr s 30).

Lemma demo_u64 : is_u64 0x600000 ∧ is_u64 0x500000 ∧ is_u64 0x500100 ∧ is_u64 0x400800.
Proof. unfold is_u64. lia. Qed.

Lemma demo_returns a n s : (∀ r, is_u64 (xr s r)) → returns a n s (demo_return s).
Proof. intros H. split; cbn; try done. by apply u64_id. Qed.

Lemma demo_enter :
  ∃ s1, frun 40 demo_state = Some s1 ∧ returns 0x400000 584 s1 (demo_return s1) ∧
    ran (dispatch_on_enter (λ _ _, None) (λ _, Some demo_entry)) s1 (demo_return s1).
Proof.
  destruct demo_u64 as (U1 & U2 & U3 & U4).
  destruct (enter_phase 0x600000 0x500000 0x500100 0x400800 0x400000 U1 U2 U3 U4 ltac:(lia)
    demo_state demo_ready) as (s1 & F & _ & _ & S & X & L & _).
  exists s1. split; [exact F|]. split.
  - apply demo_returns. intros r. rewrite X. cbn [sp xr demo_state]. unfold is_u64. case_cmp; lia.
  - exists s1. split; [|done]. unfold dispatch_on_enter, kOffEntry. rewrite X.
    cbn [Z.eqb Pos.eqb]. rewrite L. reflexivity.
Qed.

Lemma trampoline_run_witness :
  ∃ s1 s2, frun 40 demo_state = Some s1 ∧ frun 36 (demo_return s1) = Some s2 ∧
    pc s2 = 0x400800 ∧ sp s2 = 0x70000000 - 16 ∧ xr s2 0 = 7.
Proof.
  destruct demo_u64 as (U1 & U2 & U3 & U4). destruct demo_enter as (s1 & F1 & N1 & R1).
  destruct (trampoline_run 0x600000 0x500000 0x500100 0x400800 0x400000 U1 U2 U3 U4 ltac:(lia)
    (λ _ _, None) (λ _ _, None) (λ _, Some demo_entry) demo_entry ltac:(lia) eq_refl
    demo_state demo_ready) as (s1' & F1' & _ & H).
  rewrite F1 in F1'. injection F1' as <-. destruct (H _ N1 R1) as (s2 & F2 & A & _).
  exists s1, s2. split; [exact F1|]. split; [exact F2|].
  split; [apply A|]. split; [apply A|]. exact (ao_args _ _ _ _ _ _ A 0 ltac:(lia)).
Defined.

Lemma demo_return_bytes s1 : frun 40 demo_state = Some s1 → byte_mem (demo_return s1).
Proof.
  intros H. change (byte_mem s1). apply (frun_bytes _ _ _ H). clear H. intros x.
  apply place_bytes, words_bytes_bytes.
Qed.

Lemma trampoline_vectors_witness :
  ∃ s1 s2, frun 40 demo_state = Some s1 ∧ frun 36 (demo_return s1) = Some s2 ∧ vr s2 0 = 0.
Proof.
  destruct demo_u64 as (U1 & U2 & U3 & U4). destruct demo_enter as (s1 & F1 & N1 & R1).
  destruct (trampoline_vectors 0x600000 0x500000 0x500100 0x400800 0x400000 U1 U2 U3 U4 ltac:(lia)
    (λ _ _, None) (λ _ _, None) (λ _, Some demo_entry) demo_entry ltac:(lia) eq_refl
    demo_state demo_ready) as (s1' & F1' & H).
  rewrite F1 in F1'. injection F1' as <-.
  destruct (H _ N1 R1 (demo_return_bytes s1 F1)) as (s2 & F2 & _ & V & _).
  exists s1, s2. split; [exact F1|]. split; [exact F2|]. exact (V 0 ltac:(lia)).
Defined.

End JsTrampoline.
