(* ===== verification/JsValue.v ===== *)
(** * Values of the JavaScript engine ([quickjs/quickjs.h], [quickjs/quickjs.c])

    The tagged values the native bindings exchange with scripts, their
    constructors and their conversions to C integers and doubles. A double is
    its 64-bit pattern; the C casts between integers, [float] and [double] are
    written out on the patterns as the processor performs them. Values of the
    big-float extension do not exist in this engine: its context only adds
    [BigInt]. *)
From S2P Require Import Prelude.

Module JsValue.

(** ** Doubles and floats as bit patterns *)

Definition f64_sign (u : Z) : bool := negb (u >> 63 =? 0).
Definition f64_exp (u : Z) : Z := (u >> 52) .& 0x7ff.
Definition f64_frac (u : Z) : Z := u .& (2 ^ 52 - 1).
Definition f64_nan (u : Z) : bool := (f64_exp u =? 0x7ff) && negb (f64_frac u =? 0).
Definition f64_finite (u : Z) : bool := negb (f64_exp u =? 0x7ff).

(** The significand: a finite double is [± f64_mant u * 2 ^ (max 1 e - 1075)]. *)
Definition f64_mant (u : Z) : Z :=
  if f64_exp u =? 0 then f64_frac u else 2 ^ 52 + f64_frac u.

(** The integral part, towards zero, of the absolute value and of the value. *)
Definition f64_mag (u : Z) : Z := f64_mant u << (Z.max 1 (f64_exp u) - 1075).
Definition f64_trunc (u : Z) : Z := if f64_sign u then - f64_mag u else f64_mag u.

(** [(int32_t)d] and [(int64_t)d] as [FCVTZS] computes them: NaN is 0 and a
    value out of range, for which C defines nothing, saturates. *)
Definition fcvtzs (w : Z) (u : Z) : Z :=
  if f64_nan u then 0 else Z.max (- 2 ^ (w - 1)) (Z.min (2 ^ (w - 1) - 1) (f64_trunc u)).

(** [m >> n] rounded to nearest, ties to even. *)
Definition rne_shiftr (m n : Z) : Z :=
  let q := m >> n in
  let r := m - (q << n) in
  let half := 1 << (n - 1) in
  if (n <=? 0) then m << (- n)
  else if (half <? r) || ((half =? r) && Z.odd q) then q + 1 else q.

(** [(double)n]: a carry out of the significand moves to the exponent. *)
Definition f64_of_Z (n : Z) : Z :=
  if n =? 0 then 0
  else
    let k := Z.log2 (Z.abs n) in
    (if n <? 0 then 1 << 63 else 0) +
    (((k + 1023) << 52) + (rne_shiftr (Z.abs n) (k - 52) - 2 ^ 52)).

(** [a < b]: signed-magnitude order, false when one is NaN. *)
Definition f64_key (u : Z) : Z := if f64_sign u then - (u - 2 ^ 63) else u.
Definition f64_lt (a b : Z) : bool :=
  negb (f64_nan a) && negb (f64_nan b) && (f64_key a <? f64_key b).

Definition f32_exp (b : Z) : Z := (b >> 23) .& 0xff.
Definition f32_frac (b : Z) : Z := b .& (2 ^ 23 - 1).
Definition f32_nan (b : Z) : bool := (f32_exp b =? 0xff) && negb (f32_frac b =? 0).

(** [(double)f], exact; a NaN becomes quiet. *)
Definition f64_of_f32 (b : Z) : Z :=
  let s := (b >> 31) << 63 in
  let e := f32_exp b in
  let m := f32_frac b in
  s + (if e =? 0xff then (0x7ff << 52) + (if m =? 0 then 0 else (m << 29) .| (1 << 51))
       else if e =? 0 then
         if m =? 0 then 0
         else let k := Z.log2 m in ((k + 874) << 52) + ((m << (52 - k)) - 2 ^ 52)
       else ((e + 896) << 52) + (m << 29)).

(** [(float)d], to nearest; a carry out of the significand moves to the
    exponent, and from the largest exponent to infinity. *)
Definition f32_of_f64 (u : Z) : Z :=
  let s := (u >> 63) << 31 in
  let e := f64_exp u in
  let m := f64_mant u in
  let e32 := e - 896 in
  s + (if e =? 0x7ff then
         (0xff << 23) + (if f64_frac u =? 0 then 0 else (f64_frac u >> 29) .| (1 << 22))
       else if 0xff <=? e32 then 0xff << 23
       else if 1 <=? e32 then (e32 << 23) + (rne_shiftr m 29 - 2 ^ 23)
       else rne_shiftr m (30 - e32)).

(** ** Values *)

Inductive JSValue : Set :=
| JInt (i : Z)
| JBool (b : bool)
| JNull
| JUndefined
| JException
| JFloat64 (u : Z)
| JBigInt (n : Z)
| JString (s : list Z)
| JSymbol
| JObject (id : Z).

Definition JS_NewBool (b : bool) : JSValue := JBool b.
Definition JS_NewInt32 (i : Z) : JSValue := JInt i.

Definition JS_NewInt64 (v : Z) : JSValue :=
  if v =? s32 v then JS_NewInt32 v else JFloat64 (f64_of_Z v).

Definition JS_NewUint32 (v : Z) : JSValue :=
  if v <=? 0x7fffffff then JS_NewInt32 v else JFloat64 (f64_of_Z v).

Definition JS_NewFloat64 (u : Z) : JSValue :=
  let val :=
    if f64_lt u (f64_of_Z (- 2 ^ 31)) then - 2 ^ 31
    else if f64_lt (f64_of_Z (2 ^ 31 - 1)) u then 2 ^ 31 - 1
    else fcvtzs 32 u in
  if u =? f64_of_Z val then JInt val else JFloat64 u.

(** Outside the math mode, which scripts cannot enter here. *)
Definition JS_NewBigInt64 (v : Z) : JSValue := JBigInt v.
Definition JS_NewBigUint64 (v : Z) : JSValue := JBigInt v.

Definition JS_IsNumber (v : JSValue) : bool :=
  match v with JInt _ | JFloat64 _ => true | _ => false end.
Definition JS_IsString (v : JSValue) : bool := match v with JString _ => true | _ => false end.
Definition JS_IsNull (v : JSValue) : bool := match v with JNull => true | _ => false end.
Definition JS_IsUndefined (v : JSValue) : bool :=
  match v with JUndefined => true | _ => false end.
Definition JS_IsException (v : JSValue) : bool :=
  match v with JException => true | _ => false end.

Definition JS_NAN : JSValue := JFloat64 0x7ff8000000000000.

(** ** Conversions

    The parsers of numbers in strings and the conversion of an object to a
    primitive value, which runs script code, are operations of an interface;
    nothing is assumed about them. *)
Class Engine : Type := {
  number_of_string : list Z → JSValue;
  bigint_of_string : list Z → JSValue;
  to_primitive : Z → JSValue
}.

(** An engine in which no string is a number and no object a primitive. *)
Definition demo_engine : Engine := {|
  number_of_string := λ _, JS_NAN;
  bigint_of_string := λ _, JException;
  to_primitive := λ _, JUndefined
|}.

Section Conversions.
Context `{Engine}.

Definition primitive (v : JSValue) : JSValue :=
  match v with JObject o => to_primitive o | _ => v end.

Definition JS_ToNumberFree (v : JSValue) : JSValue :=
  match primitive v with
  | JBigInt _ | JSymbol => JException
  | JFloat64 u => JFloat64 u
  | JInt i => JInt i
  | JException => JException
  | JBool b => JS_NewInt32 (Z.b2z b)
  | JNull => JS_NewInt32 0
  | JUndefined => JS_NAN
  | JString s => number_of_string s
  | JObject _ => JS_NAN
  end.

(** The part of the switches on tags that [JS_ToInt32Free] and
    [JS_ToInt64Free] share: [JS_VALUE_GET_INT] of null and undefined is 0. *)
Definition int_of_tag (v : JSValue) : option Z :=
  match v with
  | JInt i => Some i
  | JBool b => Some (Z.b2z b)
  | JNull | JUndefined => Some 0
  | _ => None
  end.

(** The case [JS_TAG_FLOAT64] of [JS_ToInt32Free]. *)
Definition f64_to_int32 (u : Z) : Z :=
  let e := (u >> 52) .& 0x7ff in
  if e <=? 1023 + 30 then fcvtzs 32 u
  else if e <=? 1023 + 30 + 53 then
    let v := (u .& ((1 << 52) - 1)) .| (1 << 52) in
    let v := u64 (v << ((e - 1023) - 52 + 32)) in
    let ret := s32 (v >> 32) in
    if u >> 63 =? 0 then ret else s32 (- ret)
  else 0.

Definition f64_to_int64 (u : Z) : Z :=
  let e := (u >> 52) .& 0x7ff in
  if e <=? 1023 + 62 then fcvtzs 64 u
  else if e <=? 1023 + 62 + 53 then
    let v := (u .& ((1 << 52) - 1)) .| (1 << 52) in
    let ret := s64 (v << ((e - 1023) - 52)) in
    if u >> 63 =? 0 then ret else s64 (- ret)
  else 0.

(** A switch on the tag, entered again with the number [JS_ToNumberFree] makes
    of any other value; [None] is the exception. *)
Definition to_int_free (conv : Z → Z) (v : JSValue) : option Z :=
  let switch v :=
    match v with JFloat64 u => Some (conv u) | _ => int_of_tag v end in
  match switch v with
  | Some r => Some r
  | None => switch (JS_ToNumberFree v)
  end.

Definition JS_ToInt32 : JSValue → option Z := to_int_free f64_to_int32.
Definition JS_ToInt64 : JSValue → option Z := to_int_free f64_to_int64.
Definition JS_ToUint32 (v : JSValue) : option Z := u32 <$> JS_ToInt32 v.

Definition JS_ToFloat64 (v : JSValue) : option Z :=
  match v with
  | JInt i => Some (f64_of_Z i)
  | JBool b => Some (f64_of_Z (Z.b2z b))
  | JNull => Some (f64_of_Z 0)
  | JFloat64 u => Some u
  | _ =>
      match JS_ToNumberFree v with
      | JInt i => Some (f64_of_Z i)
      | JFloat64 u => Some u
      | _ => None
      end
  end.

(** Outside the math mode, which refuses numbers. *)
Definition JS_ToBigIntFree (v : JSValue) : option Z :=
  let big v := match v with
    | JBigInt n => Some n
    | JBool b => Some (Z.b2z b)
    | _ => None
    end in
  match primitive v with
  | JString s => big (bigint_of_string s)
  | v => big v
  end.

(** The value modulo 2^64. *)
Definition JS_ToBigInt64 (v : JSValue) : option Z := s64 <$> JS_ToBigIntFree v.

End Conversions.

(** ** Facts about the patterns *)

Lemma f64_frac_range u : 0 <= f64_frac u < 2 ^ 52.
Proof. unfold f64_frac. rewrite (land_ones_mod _ 52) by lia. apply Z.mod_pos_bound. lia. Qed.

Lemma f64_exp_range u : 0 <= f64_exp u < 2 ^ 11.
Proof.
  unfold f64_exp. change 0x7ff with (2 ^ 11 - 1). rewrite land_ones_mod by lia.
  apply Z.mod_pos_bound. lia.
Qed.

Lemma f64_mant_range u : 0 <= f64_mant u < 2 ^ 53.
Proof. unfold f64_mant. pose proof (f64_frac_range u). destruct (f64_exp u =? 0); lia. Qed.

(** The significand as the conversions build it. *)
Lemma f64_mant_lor u : f64_exp u ≠ 0 → (u .& ((1 << 52) - 1)) .| (1 << 52) = f64_mant u.
Proof.
  intros He. unfold f64_mant. destruct (Z.eqb_spec (f64_exp u) 0); [done|].
  change ((1 << 52) - 1) with (2 ^ 52 - 1). fold (f64_frac u).
  rewrite Z.lor_comm. apply (lor_low_high (f64_frac u) 1 52); [lia|apply f64_frac_range].
Qed.

Lemma shiftl_neg_div a n : n <= 0 → a << n = a / 2 ^ (- n).
Proof. intros. rewrite <- (Z.opp_involutive n) at 1. by rewrite Z.shiftl_opp_r, Z.shiftr_div_pow2 by lia. Qed.

(** The integral part is below the power of two the exponent gives. *)
Lemma f64_mag_range u n : f64_exp u <= 1022 + n → 0 <= n → 0 <= f64_mag u < 2 ^ n.
Proof.
  intros He Hn. unfold f64_mag. pose proof (f64_mant_range u) as Hm.
  pose proof (f64_exp_range u) as Hr. set (k := Z.max 1 (f64_exp u) - 1075).
  split; [apply Z.shiftl_nonneg; lia|].
  destruct (decide (k <= 0)).
  - rewrite shiftl_neg_div by done. apply Z.div_lt_upper_bound; [lia|].
    rewrite <- Z.pow_add_r by lia. eapply Z.lt_le_trans; [apply Hm|].
    apply Z.pow_le_mono_r; lia.
  - rewrite Z.shiftl_mul_pow2 by lia. replace n with (53 + (n - 53)) by lia.
    rewrite Z.pow_add_r by lia.
    assert (2 ^ k <= 2 ^ (n - 53)) by (apply Z.pow_le_mono_r; lia). nia.
Qed.

(** Two's complement at any width; [s32] and [s64] are instances. *)
Definition signed (w x : Z) : Z :=
  let y := x mod 2 ^ w in if y <? 2 ^ (w - 1) then y else y - 2 ^ w.

Lemma signed_eq w x y : x mod 2 ^ w = y mod 2 ^ w → signed w x = signed w y.
Proof. unfold signed. by intros ->. Qed.

Lemma signed_id w x : 0 < w → - 2 ^ (w - 1) <= x < 2 ^ (w - 1) → signed w x = x.
Proof.
  intros Hw Hx. unfold signed. assert (2 ^ w = 2 * 2 ^ (w - 1)) as E.
  { rewrite <- Z.pow_succ_r by lia. f_equal. lia. }
  rewrite E. destruct (decide (0 <= x)).
  - rewrite Z.mod_small by lia. destruct (Z.ltb_spec x (2 ^ (w - 1))); lia.
  - rewrite <- (Z.mod_unique x (2 * 2 ^ (w - 1)) (-1) (x + 2 * 2 ^ (w - 1))) by lia.
    destruct (Z.ltb_spec (x + 2 * 2 ^ (w - 1)) (2 ^ (w - 1))); lia.
Qed.

Lemma signed_range w x : 0 < w → - 2 ^ (w - 1) <= signed w x < 2 ^ (w - 1).
Proof.
  intros Hw. unfold signed. assert (2 ^ w = 2 * 2 ^ (w - 1)) as E.
  { rewrite <- Z.pow_succ_r by lia. f_equal. lia. }
  pose proof (Z.mod_pos_bound x (2 ^ w) ltac:(lia)).
  destruct (Z.ltb_spec (x mod 2 ^ w) (2 ^ (w - 1))); lia.
Qed.

Lemma signed_mod w x : 0 <= w → signed w x mod 2 ^ w = x mod 2 ^ w.
Proof.
  intros Hw. unfold signed. destruct (_ <? _); [by rewrite Z.mod_mod by lia|].
  by rewrite Zminus_mod, Z_mod_same_full, Z.sub_0_r, !Z.mod_mod by lia.
Qed.

Lemma s32_eq x y : x mod 2 ^ 32 = y mod 2 ^ 32 → s32 x = s32 y.
Proof. apply (signed_eq 32). Qed.
Lemma s64_eq x y : x mod 2 ^ 64 = y mod 2 ^ 64 → s64 x = s64 y.
Proof. apply (signed_eq 64). Qed.
Lemma s32_id x : - 2 ^ 31 <= x < 2 ^ 31 → s32 x = x.
Proof. by apply (signed_id 32). Qed.
Lemma s64_id x : - 2 ^ 63 <= x < 2 ^ 63 → s64 x = x.
Proof. by apply (signed_id 64). Qed.
Lemma s32_range x : - 2 ^ 31 <= s32 x < 2 ^ 31.
Proof. by apply (signed_range 32). Qed.
Lemma s32_mod x : s32 x mod 2 ^ 32 = x mod 2 ^ 32.
Proof. by apply (signed_mod 32). Qed.
Lemma s64_mod x : s64 x mod 2 ^ 64 = x mod 2 ^ 64.
Proof. by apply (signed_mod 64). Qed.

Lemma opp_mod_eq n x y : n ≠ 0 → x mod n = y mod n → (- x) mod n = (- y) mod n.
Proof.
  intros Hn E. rewrite <- (Z.sub_0_l x), <- (Z.sub_0_l y).
  rewrite Zminus_mod, E, <- Zminus_mod. done.
Qed.

(** Shifting left in 64 bits and taking the upper half. *)
Lemma shl64_hi x n : 0 <= n → (u64 (x << n) >> 32) mod 2 ^ 32 = (x << (n - 32)) mod 2 ^ 32.
Proof.
  intros Hn. apply Z.bits_inj'. intros i Hi. unfold u64. autorewrite with bits.
  destruct (Z.ltb_spec i 32); [|done]. rewrite !(proj2 (Z.leb_le 0 _)) by lia.
  rewrite (proj2 (Z.ltb_lt _ _)) by lia. cbn [andb]. f_equal. lia.
Qed.

Lemma f64_sign_eqb u : (u >> 63 =? 0) = negb (f64_sign u).
Proof. unfold f64_sign. by rewrite negb_involutive. Qed.

Lemma fcvtzs_trunc w u : 0 < w → f64_exp u <= 1021 + w → w <= 64 →
  fcvtzs w u = f64_trunc u ∧ - 2 ^ (w - 1) <= f64_trunc u < 2 ^ (w - 1).
Proof.
  intros Hw He Hw'. pose proof (f64_mag_range u (w - 1) ltac:(lia) ltac:(lia)).
  unfold fcvtzs, f64_nan. destruct (Z.eqb_spec (f64_exp u) 0x7ff); [lia|]. cbn [andb].
  unfold f64_trunc. destruct (f64_sign u); lia.
Qed.

(** What ECMAScript calls modulo 2^w: the integral part of the exact value. *)
Lemma f64_to_int32_ok u : f64_finite u = true → f64_to_int32 u = s32 (f64_trunc u).
Proof.
  intros Hf. unfold f64_finite in Hf. unfold f64_to_int32. fold (f64_exp u).
  pose proof (f64_exp_range u) as Hr. destruct (Z.leb_spec (f64_exp u) (1023 + 30)).
  { destruct (fcvtzs_trunc 32 u) as [-> ?]; [lia..|]. by rewrite s32_id by lia. }
  assert (f64_mag u = f64_mant u << (f64_exp u - 1075)) as Hm
    by (unfold f64_mag; f_equal; lia).
  destruct (Z.leb_spec (f64_exp u) (1023 + 30 + 53)).
  - rewrite f64_mant_lor by lia. rewrite f64_sign_eqb.
    assert ((u64 (f64_mant u << (f64_exp u - 1023 - 52 + 32)) >> 32) mod 2 ^ 32 =
            f64_mag u mod 2 ^ 32) as E by (rewrite shl64_hi, Hm by lia; do 2 f_equal; lia).
    unfold f64_trunc. destruct (f64_sign u); cbn [negb]; apply s32_eq; [|done].
    apply opp_mod_eq; [lia|]. by rewrite s32_mod.
  - assert (f64_mag u mod 2 ^ 32 = 0) as E.
    { rewrite Hm, Z.shiftl_mul_pow2 by lia. replace (f64_exp u - 1075) with
        ((f64_exp u - 1107) + 32) by lia. rewrite Z.pow_add_r, Z.mul_assoc by lia.
      by apply Z_mod_mult. }
    unfold f64_trunc. change 0 with (s32 0). destruct (f64_sign u); apply s32_eq; [|done].
    symmetry. by apply (opp_mod_eq _ _ 0).
Qed.

Lemma f64_to_int64_ok u : f64_finite u = true → f64_to_int64 u = s64 (f64_trunc u).
Proof.
  intros Hf. unfold f64_finite in Hf. unfold f64_to_int64. fold (f64_exp u).
  pose proof (f64_exp_range u) as Hr. destruct (Z.leb_spec (f64_exp u) (1023 + 62)).
  { destruct (fcvtzs_trunc 64 u) as [-> ?]; [lia..|]. by rewrite s64_id by lia. }
  assert (f64_mag u = f64_mant u << (f64_exp u - 1075)) as Hm
    by (unfold f64_mag; f_equal; lia).
  destruct (Z.leb_spec (f64_exp u) (1023 + 62 + 53)).
  - rewrite f64_mant_lor by lia. rewrite f64_sign_eqb.
    replace (f64_exp u - 1023 - 52) with (f64_exp u - 1075) by lia. rewrite <- Hm.
    unfold f64_trunc. destruct (f64_sign u); cbn [negb]; [|done]. apply s64_eq.
    apply opp_mod_eq; [lia|]. by rewrite s64_mod.
  - assert (f64_mag u mod 2 ^ 64 = 0) as E.
    { rewrite Hm, Z.shiftl_mul_pow2 by lia. replace (f64_exp u - 1075) with
        ((f64_exp u - 1139) + 64) by lia. rewrite Z.pow_add_r, Z.mul_assoc by lia.
      by apply Z_mod_mult. }
    unfold f64_trunc. change 0 with (s64 0). destruct (f64_sign u); apply s64_eq; [|done].
    symmetry. by apply (opp_mod_eq _ _ 0).
Qed.

Lemma f64_to_int_special u : f64_finite u = false → f64_to_int32 u = 0 ∧ f64_to_int64 u = 0.
Proof.
  unfold f64_finite. intros H. unfold f64_to_int32, f64_to_int64. fold (f64_exp u).
  destruct (Z.eqb_spec (f64_exp u) 0x7ff) as [->|]; done.
Qed.

(** ** Building patterns *)

Lemma f64_fields s e f : 0 <= s <= 1 → 0 <= e < 2 ^ 11 → 0 <= f < 2 ^ 52 →
  let u := (s << 63) + ((e << 52) + f) in
  u >> 63 = s ∧ f64_exp u = e ∧ f64_frac u = f ∧ is_u64 u.
Proof.
  intros Hs He Hf u. unfold f64_exp, f64_frac. change 0x7ff with (2 ^ 11 - 1).
  rewrite !land_ones_mod, !Z.shiftr_div_pow2 by lia.
  subst u. rewrite !Z.shiftl_mul_pow2 by lia. split_and!.
  - symmetry. apply (Z.div_unique_pos _ _ _ (e * 2 ^ 52 + f)); lia.
  - rewrite <- (Z.div_unique_pos _ (2 ^ 52) (s * 2 ^ 11 + e) f) by lia.
    symmetry. apply (Z.mod_unique_pos _ _ s); lia.
  - symmetry. apply (Z.mod_unique_pos _ _ (s * 2 ^ 11 + e)); lia.
  - unfold is_u64. lia.
Qed.

Lemma rne_shiftr_exact q n : 0 < n → rne_shiftr (q << n) n = q.
Proof.
  intros Hn. unfold rne_shiftr. rewrite Z.shiftr_shiftl_l by lia.
  rewrite Z.sub_diag, Z.shiftl_0_r, Z.sub_diag. destruct (Z.leb_spec n 0); [lia|].
  assert (0 < 1 << (n - 1)) by (rewrite Z.shiftl_mul_pow2 by lia; lia).
  destruct (Z.ltb_spec (1 << (n - 1)) 0); [lia|].
  by destruct (Z.eqb_spec (1 << (n - 1)) 0); [lia|].
Qed.

(** A number shifted up to its 53rd bit. *)
Lemma shift_to_53 a k : 0 <= k <= 52 → 2 ^ k <= a < 2 ^ Z.succ k →
  2 ^ 52 <= a << (52 - k) < 2 ^ 53.
Proof.
  intros Hk Ha. rewrite Z.shiftl_mul_pow2 by lia. replace 52 with (k + (52 - k)) at 1 by lia.
  replace 53 with (Z.succ k + (52 - k)) by lia. rewrite !Z.pow_add_r by lia.
  assert (0 < 2 ^ (52 - k)) by lia. nia.
Qed.

(** Integers of up to 53 bits are doubles. *)
Lemma f64_of_Z_exact n : Z.abs n < 2 ^ 53 →
  is_u64 (f64_of_Z n) ∧ f64_finite (f64_of_Z n) = true ∧ f64_trunc (f64_of_Z n) = n.
Proof.
  intros Hn. unfold f64_of_Z. destruct (Z.eqb_spec n 0) as [->|Hz]; [done|].
  set (a := Z.abs n) in *. set (k := Z.log2 a).
  destruct (Z.log2_spec a) as [Hk1 Hk2]; [lia|]. fold k in Hk1, Hk2.
  pose proof (Z.log2_nonneg a) as Hk0. fold k in Hk0.
  assert (k <= 52) as Hk by (apply Z.lt_succ_r, Z.log2_lt_pow2; lia).
  assert (rne_shiftr a (k - 52) = a << (52 - k)) as ->.
  { unfold rne_shiftr. destruct (Z.leb_spec (k - 52) 0); [|lia]. f_equal. lia. }
  assert (2 ^ 52 <= a << (52 - k) < 2 ^ 53) as Hr by (apply shift_to_53; lia).
  assert ((if n <? 0 then 1 << 63 else 0) = Z.b2z (n <? 0) << 63) as -> by by destruct (n <? 0).
  destruct (f64_fields (Z.b2z (n <? 0)) (k + 1023) (a << (52 - k) - 2 ^ 52))
    as (Es & Ee & Ef & Hu); [destruct (n <? 0); cbn; lia|lia..|].
  cbv zeta in *. match goal with |- is_u64 ?x ∧ _ => set (u := x) in * end.
  split; [done|]. unfold f64_finite, f64_trunc, f64_sign, f64_mag, f64_mant. rewrite Es, Ee, Ef.
  destruct (Z.eqb_spec (k + 1023) 0x7ff); [lia|]. split; [done|].
  destruct (Z.eqb_spec (k + 1023) 0); [lia|].
  replace (2 ^ 52 + (a << (52 - k) - 2 ^ 52)) with (a << (52 - k)) by lia.
  rewrite Z.shiftl_shiftl by lia. replace (52 - k + (Z.max 1 (k + 1023) - 1075)) with 0 by lia.
  rewrite Z.shiftl_0_r. unfold a. destruct (Z.ltb_spec n 0); cbn; lia.
Qed.

Lemma f32_fields b : is_u32 b →
  b = (b >> 31 << 31) + ((f32_exp b << 23) + f32_frac b) ∧ 0 <= b >> 31 <= 1 ∧
  0 <= f32_exp b < 256 ∧ 0 <= f32_frac b < 2 ^ 23.
Proof.
  intros Hb. unfold f32_exp, f32_frac, is_u32 in *. change 0xff with (2 ^ 8 - 1).
  rewrite !land_ones_mod, !Z.shiftr_div_pow2, !Z.shiftl_mul_pow2 by lia.
  pose proof (Z.div_mod b (2 ^ 31)). pose proof (Z.div_mod b (2 ^ 23)).
  pose proof (Z.mod_pos_bound b (2 ^ 23)). pose proof (Z.mod_pos_bound (b / 2 ^ 23) (2 ^ 8)).
  pose proof (Z.div_mod (b / 2 ^ 23) (2 ^ 8)).
  rewrite (Z.div_div b (2 ^ 23) (2 ^ 8)) in * by lia.
  change (2 ^ 23 * 2 ^ 8) with (2 ^ 31) in *.
  pose proof (Z.div_pos b (2 ^ 31)). assert (b / 2 ^ 31 < 2) by (apply Z.div_lt_upper_bound; lia).
  lia.
Qed.

(** A [float] survives its conversion to [double] and back, but for NaN. *)
Lemma f32_roundtrip b : is_u32 b → f32_nan b = false → f32_of_f64 (f64_of_f32 b) = b.
Proof.
  intros Hb Hn. unfold f64_of_f32. unfold f32_nan in Hn.
  destruct (f32_fields b Hb) as (Eb & Hs & He & Hm). etrans; [|symmetry; exact Eb].
  clear Hb Eb. revert Hn Hs He Hm.
  generalize (b >> 31), (f32_exp b), (f32_frac b). clear b. intros s e m Hn Hs He Hm.
  destruct (Z.eqb_spec e 0xff) as [->|H1].
  { destruct (Z.eqb_spec m 0) as [E|E]; [subst m|done].
    destruct (f64_fields s 0x7ff 0) as (Es & Ee & Ef & _); [lia..|].
    cbv zeta in *. unfold f32_of_f64. by rewrite Es, Ee, Ef. }
  destruct (Z.eqb_spec e 0) as [->|H2].
  - destruct (Z.eqb_spec m 0) as [E|H3].
    { subst m. destruct (f64_fields s 0 0) as (Es & Ee & Ef & _); [lia..|].
      cbv zeta in *. change ((0 << 52) + 0) with 0 in *. unfold f32_of_f64, f64_mant.
      by rewrite Es, Ee, Ef. }
    set (k := Z.log2 m). destruct (Z.log2_spec m) as [Hk1 Hk2]; [lia|]. fold k in Hk1, Hk2.
    pose proof (Z.log2_nonneg m) as Hk0. fold k in Hk0.
    assert (k < 23) as Hk by (apply Z.log2_lt_pow2; lia).
    assert (2 ^ 52 <= m << (52 - k) < 2 ^ 53) as Hr by (apply shift_to_53; lia).
    destruct (f64_fields s (k + 874) (m << (52 - k) - 2 ^ 52)) as (Es & Ee & Ef & _); [lia..|].
    cbv zeta in *. unfold f32_of_f64, f64_mant. rewrite Es, Ee, Ef.
    destruct (Z.eqb_spec (k + 874) 0x7ff); [lia|]. destruct (Z.leb_spec 0xff (k + 874 - 896)); [lia|].
    destruct (Z.leb_spec 1 (k + 874 - 896)); [lia|]. destruct (Z.eqb_spec (k + 874) 0); [lia|].
    replace (2 ^ 52 + (m << (52 - k) - 2 ^ 52)) with (m << (52 - k)) by lia.
    replace (30 - (k + 874 - 896)) with (52 - k) by lia. rewrite rne_shiftr_exact by lia. done.
  - assert (0 <= m << 29 < 2 ^ 52) as Hr by (rewrite Z.shiftl_mul_pow2; lia).
    destruct (f64_fields s (e + 896) (m << 29)) as (Es & Ee & Ef & _); [lia..|].
    cbv zeta in *. unfold f32_of_f64, f64_mant. rewrite Es, Ee, Ef.
    destruct (Z.eqb_spec (e + 896) 0x7ff); [lia|]. destruct (Z.leb_spec 0xff (e + 896 - 896)); [lia|].
    destruct (Z.leb_spec 1 (e + 896 - 896)); [|lia]. destruct (Z.eqb_spec (e + 896) 0); [lia|].
    replace (2 ^ 52 + (m << 29)) with ((2 ^ 23 + m) << 29) by (rewrite !Z.shiftl_mul_pow2; lia).
    rewrite rne_shiftr_exact by lia. do 2 f_equal; [f_equal; lia|lia].
Qed.

Lemma lor_bound n a b : 0 <= n → 0 <= a < 2 ^ n → 0 <= b < 2 ^ n → 0 <= a .| b < 2 ^ n.
Proof.
  intros Hn Ha Hb. assert (a .| b = (a .| b) mod 2 ^ n) as ->; [|apply Z.mod_pos_bound; lia].
  rewrite <- Z.land_ones, Z.land_lor_distr_l, !Z.land_ones, !Z.mod_small by lia. done.
Qed.

Lemma f32_of_fields s e f : 0 <= s <= 1 → 0 <= e < 2 ^ 8 → 0 <= f < 2 ^ 23 →
  let b := (s << 31) + ((e << 23) + f) in b >> 31 = s ∧ f32_exp b = e ∧ f32_frac b = f ∧ is_u32 b.
Proof.
  intros Hs He Hf b. unfold f32_exp, f32_frac. change 0xff with (2 ^ 8 - 1).
  rewrite !land_ones_mod, !Z.shiftr_div_pow2 by lia.
  subst b. rewrite !Z.shiftl_mul_pow2 by lia. split_and!.
  - symmetry. apply (Z.div_unique_pos _ _ _ (e * 2 ^ 23 + f)); lia.
  - rewrite <- (Z.div_unique_pos _ (2 ^ 23) (s * 2 ^ 8 + e) f) by lia.
    symmetry. apply (Z.mod_unique_pos _ _ s); lia.
  - symmetry. apply (Z.mod_unique_pos _ _ (s * 2 ^ 8 + e)); lia.
  - unfold is_u32. lia.
Qed.

(** The double that a [float] becomes does not change when it is stored as a
    [float] and read again; of a NaN only the first conversion sets the quiet
    bit. *)
Lemma f32_stored b : is_u32 b →
  is_u32 (f32_of_f64 (f64_of_f32 b)) ∧ f64_of_f32 (f32_of_f64 (f64_of_f32 b)) = f64_of_f32 b.
Proof.
  intros Hb. destruct (f32_nan b) eqn:Hn; [|by rewrite f32_roundtrip].
  destruct (f32_fields b Hb) as (_ & Hs & _ & Hm). unfold f32_nan in Hn. apply andb_true_iff in Hn as [He Hn].
  apply Z.eqb_eq in He. apply negb_true_iff, Z.eqb_neq in Hn.
  assert (f64_of_f32 b = ((b >> 31) << 63) + ((0x7ff << 52) + ((f32_frac b << 29) .| (1 << 51)))) as E.
  { unfold f64_of_f32. rewrite He. cbn [Z.eqb Pos.eqb]. by rewrite (proj2 (Z.eqb_neq _ _) Hn). }
  assert (0 <= (f32_frac b << 29) .| (1 << 51) < 2 ^ 52) as Hq.
  { apply lor_bound; [lia|rewrite Z.shiftl_mul_pow2; lia|done]. }
  assert (0 <= f32_frac b .| (1 << 22) < 2 ^ 23) as Hq' by (apply lor_bound; [lia|lia|done]).
  assert ((f32_frac b << 29) .| (1 << 51) = (f32_frac b .| (1 << 22)) << 29) as Es by (rewrite Z.shiftl_lor; done).
  assert (∀ q, q .| (1 << 22) = 0 → False) as Hq0.
  { intros q Hq0. apply Z.lor_eq_0_iff in Hq0 as [_ Hq0]. discriminate Hq0. }
  destruct (f64_fields (b >> 31) 0x7ff ((f32_frac b << 29) .| (1 << 51)) Hs ltac:(lia) Hq) as (E1 & E2 & E3 & _).
  assert (f32_of_f64 (f64_of_f32 b) = ((b >> 31) << 31) + ((0xff << 23) + (f32_frac b .| (1 << 22)))) as E'.
  { rewrite E. unfold f32_of_f64. cbv zeta in *. rewrite E1, E2, E3. cbn [Z.eqb Pos.eqb].
    rewrite (proj2 (Z.eqb_neq ((f32_frac b << 29) .| (1 << 51)) 0)).
    - rewrite Es, Z.shiftr_shiftl_l, Z.shiftl_0_r, <- Z.lor_assoc, Z.lor_diag by lia. done.
    - rewrite Es. intros H0. apply Z.shiftl_eq_0_iff in H0; [|lia]. by apply (Hq0 (f32_frac b)). }
  destruct (f32_of_fields (b >> 31) 0xff (f32_frac b .| (1 << 22)) Hs ltac:(lia) Hq') as (F1 & F2 & F3 & F4).
  rewrite E'. split; [exact F4|]. rewrite E. unfold f64_of_f32. cbv zeta in *. rewrite F1, F2, F3. cbn [Z.eqb Pos.eqb].
  rewrite (proj2 (Z.eqb_neq (f32_frac b .| (1 << 22)) 0)) by (intros H0; by apply (Hq0 (f32_frac b))).
  rewrite <- Es. by rewrite <- Z.lor_assoc, Z.lor_diag.
Qed.

(** ** Properties *)

Section Properties.
Context `{Engine}.

(** C4: the conversions of numbers to integers are the modular reductions of
    ECMAScript. A double with the exact value [x] becomes the integral part of
    [x] reduced modulo 2^32 (2^64) into the signed range, NaN and the
    infinities become 0, although no path computes a remainder. *)
Theorem to_int_modular (u : Z) :
  JS_ToInt32 (JFloat64 u) = Some (if f64_finite u then s32 (f64_trunc u) else 0) ∧
  JS_ToInt64 (JFloat64 u) = Some (if f64_finite u then s64 (f64_trunc u) else 0) ∧
  JS_ToUint32 (JFloat64 u) = Some (if f64_finite u then u32 (f64_trunc u) else 0).
Proof.
  unfold JS_ToUint32, JS_ToInt32, JS_ToInt64, to_int_free.
  cbn [int_of_tag fmap option_fmap option_map].
  destruct (f64_finite u) eqn:E.
  - rewrite f64_to_int32_ok, f64_to_int64_ok by done. split_and!; [done..|].
    f_equal. unfold u32. apply s32_mod.
  - destruct (f64_to_int_special u E) as [-> ->]. done.
Qed.

Lemma NewUint32_ToInt32 v : is_u32 v → JS_ToInt32 (JS_NewUint32 v) = Some (s32 v).
Proof.
  unfold is_u32. intros Hv. unfold JS_NewUint32. destruct (Z.leb_spec v 0x7fffffff).
  - unfold JS_ToInt32, to_int_free, JS_NewInt32. cbn [int_of_tag]. by rewrite s32_id by lia.
  - destruct (f64_of_Z_exact v) as (_ & Hf & Ht); [lia|].
    unfold JS_ToInt32, to_int_free. by rewrite f64_to_int32_ok, Ht.
Qed.

Lemma NewInt64_ToInt64 v : Z.abs v < 2 ^ 53 → JS_ToInt64 (JS_NewInt64 v) = Some v.
Proof.
  intros Hv. unfold JS_NewInt64. destruct (Z.eqb_spec v (s32 v)); [done|].
  destruct (f64_of_Z_exact v) as (_ & Hf & Ht); [lia|].
  unfold JS_ToInt64, to_int_free. rewrite f64_to_int64_ok, Ht by done. by rewrite s64_id by lia.
Qed.

(** A double survives being made a value, whatever tag is chosen. *)
Lemma NewFloat64_ToFloat64 u : JS_ToFloat64 (JS_NewFloat64 u) = Some u.
Proof.
  unfold JS_NewFloat64. cbv zeta.
  match goal with |- context [u =? f64_of_Z ?v] => generalize v end. intros v.
  destruct (Z.eqb_spec u (f64_of_Z v)) as [->|]; done.
Qed.

End Properties.

End JsValue.
