(* ===== verification/JsPtr.v ===== *)
(** * Native pointers ([js_engine/src/js_ptr.cpp])

    The class [NativePointer] of the script interface. Objects of the engine
    are entries of a heap with their class and the first word of the union [u]
    of [JSObject]: the opaque pointer of a class instance, and the realm of a
    C function. The [NativePointer] structures are a second heap. An
    operation returns [None] where C defines no result. *)
From stdpp Require Import gmap.
From Stdlib Require Import (notations) String.
From S2P Require Import Prelude Bytes CNumber JsValue.

Module JsPtr.
Import JsValue.

Record JSObject : Set := mkObj { class_id : Z; u_word : Z }.

(** [next] is above every object and structure, both numbered by allocation. *)
Record Heap : Type := mkHeap {
  objs : gmap Z JSObject;
  nps : gmap Z Z;
  next : Z
}.

Definition JS_SetOpaque (h : Heap) (obj : JSValue) (opaque : Z) : Heap :=
  match obj with
  | JObject id =>
      match objs h !! id with
      | Some o => mkHeap (<[id := mkObj (class_id o) opaque]> (objs h)) (nps h) (next h)
      | None => h
      end
  | _ => h
  end.

Definition JS_GetOpaque (h : Heap) (obj : JSValue) (cid : Z) : Z :=
  match obj with
  | JObject id =>
      match objs h !! id with
      | Some o => if class_id o =? cid then u_word o else 0
      | None => 0
      end
  | _ => 0
  end.

(** [new NativePointer{ptr}]. *)
Definition new_np (h : Heap) (ptr : Z) : Heap * Z :=
  (mkHeap (objs h) (<[next h := ptr]> (nps h)) (next h + 1), next h).

Definition JS_NewObjectClass (h : Heap) (cid : Z) : Heap * JSValue :=
  (mkHeap (<[next h := mkObj cid 0]> (objs h)) (nps h) (next h + 1), JObject (next h)).

Section Ptr.
Context `{Engine}.
(** The class identifier [JS_NewClassID] assigned. *)
Context (np_class_id : Z).

Definition js_ptr_new (h : Heap) (ptr : Z) : Heap * JSValue :=
  let '(h, np) := new_np h ptr in
  let '(h, obj) := JS_NewObjectClass h np_class_id in
  (JS_SetOpaque h obj np, obj).

(** [np->value]. *)
Definition np_value (h : Heap) (np : Z) : option Z := nps h !! np.

(** The pointer in a string, [nullptr] when it has no digits. *)
Definition parse_ptr (s : list Z) : Z := default 0 (strtoull s).

Definition js_ptr_unwrap (h : Heap) (val : JSValue) : option Z :=
  let np := JS_GetOpaque h val np_class_id in
  if negb (np =? 0) then np_value h np
  else
    match (if JS_IsNumber val then JS_ToInt64 val else None) with
    | Some v => Some (u64 v)
    | None => match val with JString s => Some (parse_ptr s) | _ => Some 0 end
    end.

Definition np_constructor (h : Heap) (this_val : JSValue) (argv : list JSValue) :
    option (Heap * JSValue) :=
  ptr ← match argv with
        | [] => Some (Some 0)
        | a :: _ =>
            if JS_IsNumber a then Some (u64 <$> JS_ToInt64 a)
            else match a with
            | JString s => Some (Some (parse_ptr s))
            | _ =>
                let existing := JS_GetOpaque h a np_class_id in
                if negb (existing =? 0) then Some <$> np_value h existing else Some (Some 0)
            end
        end;
  match ptr with
  | None => Some (h, JException)
  | Some ptr =>
      let '(h, np) := new_np h ptr in
      Some (JS_SetOpaque h this_val np, JUndefined)
  end.

(** [delete np] when the garbage collector drops an object. *)
Definition np_finalize (h : Heap) (val : JSValue) : Heap :=
  let np := JS_GetOpaque h val np_class_id in
  if np =? 0 then h else mkHeap (objs h) (delete np (nps h)) (next h).

(** Methods that need [this] to be a pointer; [JS_EXCEPTION] otherwise. *)
Definition with_this (h : Heap) (this_val : JSValue) (k : Z → option (Heap * JSValue)) :
    option (Heap * JSValue) :=
  let np := JS_GetOpaque h this_val np_class_id in
  if np =? 0 then Some (h, JException) else v ← np_value h np; k v.

Definition np_is_null (h : Heap) (this_val : JSValue) : option (Heap * JSValue) :=
  with_this h this_val (λ v, Some (h, JS_NewBool (v =? 0))).

Definition np_to_string (h : Heap) (this_val : JSValue) : option (Heap * JSValue) :=
  with_this h this_val (λ v, Some (h, JString (hex_string v))).

Definition np_to_int32 (h : Heap) (this_val : JSValue) : option (Heap * JSValue) :=
  with_this h this_val (λ v, Some (h, JS_NewInt32 (s32 v))).

(** The operand of a method: a pointer's value or an integer; the outer
    [None] is undefined, the inner one an exception. *)
Definition operand (h : Heap) (a : JSValue) : option (option Z) :=
  let np := JS_GetOpaque h a np_class_id in
  if negb (np =? 0) then Some <$> np_value h np else Some (u64 <$> JS_ToInt64 a).

Definition np_compare (h : Heap) (this_val : JSValue) (argv : list JSValue) :
    option (Heap * JSValue) :=
  match argv with
  | [] => Some (h, JException)
  | a :: _ =>
      b ← operand h a;
      match b with
      | None => Some (h, JException)
      | Some vb =>
          with_this h this_val (λ va,
            Some (h, JS_NewInt32 (if va <? vb then -1 else if vb <? va then 1 else 0)))
      end
  end.

Inductive binop : Set := OpAdd | OpSub | OpAnd | OpOr | OpXor.

Definition apply_binop (op : binop) (lhs rhs : Z) : Z :=
  match op with
  | OpAdd => u64 (lhs + rhs)
  | OpSub => u64 (lhs - rhs)
  | OpAnd => lhs .& rhs
  | OpOr => lhs .| rhs
  | OpXor => lhs .^ rhs
  end.

Definition np_binop (op : binop) (h : Heap) (this_val : JSValue) (argv : list JSValue) :
    option (Heap * JSValue) :=
  with_this h this_val (λ lhs,
    match argv with
    | [] => Some (h, JException)
    | a :: _ =>
        b ← operand h a;
        match b with
        | None => Some (h, JException)
        | Some rhs => Some (js_ptr_new h (apply_binop op lhs rhs))
        end
    end).

Definition np_add := np_binop OpAdd.
Definition np_sub := np_binop OpSub.
Definition np_and := np_binop OpAnd.
Definition np_or := np_binop OpOr.
Definition np_xor := np_binop OpXor.

(** Shifting a 64-bit value by a count outside 0 .. 63 is undefined. *)
Definition np_shift (sh : Z → Z → Z) (h : Heap) (this_val : JSValue) (argv : list JSValue) :
    option (Heap * JSValue) :=
  with_this h this_val (λ v,
    match argv with
    | [] => Some (h, JException)
    | a :: _ =>
        match JS_ToInt64 a with
        | None => Some (h, JException)
        | Some n =>
            if (0 <=? n) && (n <? 64) then Some (js_ptr_new h (u64 (sh v n))) else None
        end
    end).

Definition np_shr := np_shift Z.shiftr.
Definition np_shl := np_shift Z.shiftl.

Definition np_not (h : Heap) (this_val : JSValue) : option (Heap * JSValue) :=
  with_this h this_val (λ v, Some (js_ptr_new h (not64 v))).

(** ** Calling the constructor

    [new F(argv)] for a C function object [F] with the prototype
    [JS_CFUNC_constructor]: [js_call_c_function] takes the realm out of the
    function object, which must be the context, and passes [new_target] as
    [this_val]. *)
Definition construct (ctx : Z) (h : Heap) (func new_target : Z) (argv : list JSValue) :
    option (Heap * JSValue) :=
  o ← objs h !! func;
  if u_word o =? ctx then np_constructor h (JObject new_target) argv else None.

(** ** The heap's typing *)

Record wf (h : Heap) : Prop := {
  wf_objs id o : objs h !! id = Some o → 0 < id < next h;
  wf_np id o : objs h !! id = Some o → class_id o = np_class_id → u_word o ≠ 0 →
    is_Some (nps h !! u_word o);
  wf_nps a v : nps h !! a = Some v → 0 < a < next h ∧ is_u64 v;
  wf_own i j o p : objs h !! i = Some o → objs h !! j = Some p →
    class_id o = np_class_id → class_id p = np_class_id → u_word o ≠ 0 →
    u_word o = u_word p → i = j;
  wf_next : 0 < next h
}.

(** [v] is a [NativePointer] object with the value [p]. *)
Definition is_ptr (h : Heap) (v : JSValue) (p : Z) : Prop :=
  ∃ id o, v = JObject id ∧ objs h !! id = Some o ∧ class_id o = np_class_id ∧
    u_word o ≠ 0 ∧ nps h !! u_word o = Some p.

(** Every pointer of [h] is one of [h'], with the same value. *)
Definition keeps_ptrs (h h' : Heap) : Prop := ∀ v p, is_ptr h v p → is_ptr h' v p.

(** The methods, as [np_methods] lists them. *)
Inductive method : Set :=
| isNull | toString | toInt32 | compare | add | sub | and | or | xor | shr | shl | not.

Definition np_methods (m : method) (h : Heap) (this_val : JSValue) (argv : list JSValue) :
    option (Heap * JSValue) :=
  match m with
  | isNull => np_is_null h this_val
  | toString => np_to_string h this_val
  | toInt32 => np_to_int32 h this_val
  | compare => np_compare h this_val argv
  | add => np_add h this_val argv
  | sub => np_sub h this_val argv
  | and => np_and h this_val argv
  | or => np_or h this_val argv
  | xor => np_xor h this_val argv
  | shr => np_shr h this_val argv
  | shl => np_shl h this_val argv
  | not => np_not h this_val
  end.

(** ** Opaque pointers *)

Lemma GetOpaque_ptr h v p : is_ptr h v p →
  JS_GetOpaque h v np_class_id ≠ 0 ∧ np_value h (JS_GetOpaque h v np_class_id) = Some p.
Proof.
  intros (id & o & -> & Ho & Hc & Hn & Hp). unfold JS_GetOpaque, np_value.
  by rewrite Ho, Hc, Z.eqb_refl.
Qed.

(** A non-null opaque pointer of the class points to a structure. *)
Lemma GetOpaque_live h v : wf h → JS_GetOpaque h v np_class_id ≠ 0 → ∃ p, is_ptr h v p.
Proof.
  intros W. unfold JS_GetOpaque. destruct v; try done.
  destruct (objs h !! id) as [o|] eqn:Ho; [|done].
  destruct (Z.eqb_spec (class_id o) np_class_id) as [Hc|]; [|done]. intros Hn.
  destruct (wf_np _ W id o Ho Hc Hn) as [p Hp]. exists p. by exists id, o.
Qed.

Lemma ptr_u64 h v p : wf h → is_ptr h v p → is_u64 p.
Proof. intros W (id & o & _ & _ & _ & _ & Hp). apply (wf_nps _ W _ _ Hp). Qed.

Lemma js_ptr_new_eq h p : js_ptr_new h p =
  (mkHeap (<[next h + 1 := mkObj np_class_id (next h)]> (objs h)) (<[next h := p]> (nps h))
     (next h + 2), JObject (next h + 1)).
Proof.
  unfold js_ptr_new, new_np, JS_NewObjectClass, JS_SetOpaque. cbn [objs nps next class_id].
  rewrite lookup_insert_eq, insert_insert_eq. cbn [class_id]. do 2 f_equal. lia.
Qed.

Lemma fresh_np h : wf h → nps h !! next h = None.
Proof.
  intros W. destruct (nps h !! next h) as [v|] eqn:E; [|done]. apply (wf_nps _ W) in E. lia.
Qed.

Lemma js_ptr_new_ok h p h' v : wf h → is_u64 p → js_ptr_new h p = (h', v) →
  wf h' ∧ is_ptr h' v p ∧ keeps_ptrs h h'.
Proof.
  intros W Hp E. rewrite js_ptr_new_eq in E. simplify_eq. pose proof (fresh_np h W) as Hfr.
  pose proof (wf_next _ W). split_and!.
  - split; cbn [objs nps next]; [| | | |lia].
    + intros id o Ho. apply lookup_insert_Some in Ho as [[<- _]|[_ Ho]]; [lia|].
      apply (wf_objs _ W) in Ho. lia.
    + intros id o Ho Hc Hn. apply lookup_insert_Some in Ho as [[_ <-]|[_ Ho]]; cbn.
      * rewrite lookup_insert_eq. by eexists.
      * destruct (wf_np _ W id o Ho Hc Hn) as [x Hx]. rewrite lookup_insert_ne; [by eexists|].
        intros E. congruence.
    + intros a x Hx. apply lookup_insert_Some in Hx as [[<- <-]|[_ Hx]]; [split; [lia|done]|].
      apply (wf_nps _ W) in Hx. split; [lia|apply Hx].
    + assert (∀ i o, objs h !! i = Some o → class_id o = np_class_id → u_word o ≠ 0 →
               u_word o ≠ next h) as Hne.
      { intros i o Ho Hc Hn E. destruct (wf_np _ W i o Ho Hc Hn). congruence. }
      intros i j o q Ho Hq Hc Hc' Hn Ew.
      apply lookup_insert_Some in Ho as [[<- <-]|[_ Ho]];
        apply lookup_insert_Some in Hq as [[<- <-]|[_ Hq]]; cbn in *; [done| | |].
      * exfalso. apply (Hne j q); [done..| |done]. lia.
      * exfalso. by apply (Hne i o).
      * by apply (wf_own _ W i j o q).
  - exists (next h + 1), (mkObj np_class_id (next h)). cbn [objs nps class_id u_word].
    rewrite !lookup_insert_eq. split_and!; [done..|lia|done].
  - intros w q (id & o & -> & Ho & Hc & Hn & Hq). exists id, o. cbn [objs nps].
    apply (wf_objs _ W) in Ho as Hid. rewrite !lookup_insert_ne; [done|congruence|lia].
Qed.

Lemma operand_ok h a : wf h → ∃ b, operand h a = Some b ∧ (∀ x, b = Some x → is_u64 x).
Proof.
  intros W. unfold operand. destruct (Z.eqb_spec (JS_GetOpaque h a np_class_id) 0) as [_|Hn]; cbn [negb].
  - eexists. split; [done|]. intros x Hx. destruct (JS_ToInt64 a); simplify_eq/=. apply u64_range.
  - destruct (GetOpaque_live h a W Hn) as [p Hp]. destruct (GetOpaque_ptr h a p Hp) as [_ ->].
    exists (Some p). split; [done|]. intros x [= <-]. by eapply ptr_u64.
Qed.

Lemma not64_range x : is_u64 (not64 x).
Proof. pose proof (u64_range x) as Hx. unfold is_u64, not64 in *. lia. Qed.

Lemma apply_binop_u64 op x y : is_u64 x → is_u64 y → is_u64 (apply_binop op x y).
Proof.
  intros Hx Hy. destruct op; cbn [apply_binop]; try apply u64_range.
  - by apply land_range.
  - by apply lor_range.
  - by apply lxor_range.
Qed.

(** ** Methods *)

Definition well_typed (h : Heap) (v : JSValue) : Prop :=
  match v with
  | JInt i => - 2 ^ 31 <= i < 2 ^ 31
  | JFloat64 u => is_u64 u
  | JString s => Forall is_u8 s
  | JObject id => is_Some (objs h !! id)
  | _ => True
  end.

(** A call that returns, to a well-formed heap in which the earlier pointers
    are what they were, with a value of the engine. *)
Definition safe (h : Heap) (r : option (Heap * JSValue)) : Prop :=
  ∃ h' v, r = Some (h', v) ∧ wf h' ∧ keeps_ptrs h h' ∧ well_typed h' v.

Lemma safe_same h v : wf h → well_typed h v → safe h (Some (h, v)).
Proof. intros W Hv. exists h, v. split_and!; try done. by intros ? ?. Qed.

Lemma safe_new h p : wf h → is_u64 p → safe h (Some (js_ptr_new h p)).
Proof.
  intros W Hp. destruct (js_ptr_new h p) as [h' v] eqn:E.
  destruct (js_ptr_new_ok h p h' v W Hp E) as (W' & P & K). exists h', v. split_and!; try done.
  destruct P as (id & o & -> & Ho & _). by eexists.
Qed.

Lemma safe_with_this h this_val k : wf h → (∀ p, is_u64 p → safe h (k p)) →
  safe h (with_this h this_val k).
Proof.
  intros W Hk. unfold with_this.
  destruct (Z.eqb_spec (JS_GetOpaque h this_val np_class_id) 0) as [_|Hn]; [by apply safe_same|].
  destruct (GetOpaque_live h this_val W Hn) as [p Hp].
  destruct (GetOpaque_ptr h this_val p Hp) as [_ ->]. cbn [mbind option_bind].
  apply Hk. by eapply ptr_u64.
Qed.

Lemma safe_binop op h this_val argv : wf h → safe h (np_binop op h this_val argv).
Proof.
  intros W. apply safe_with_this; [done|]. intros x Hx. destruct argv as [|a ?]; [by apply safe_same|].
  destruct (operand_ok h a W) as (b & -> & Hb). cbn [mbind option_bind].
  destruct b as [y|]; [|by apply safe_same]. apply safe_new; [done|]. apply apply_binop_u64; auto.
Qed.

Definition shift_in_range (argv : list JSValue) : Prop :=
  match argv with
  | a :: _ => match JS_ToInt64 a with Some n => 0 <= n < 64 | None => True end
  | [] => True
  end.

Lemma safe_shift sh h this_val argv : wf h → shift_in_range argv →
  safe h (np_shift sh h this_val argv).
Proof.
  intros W Hs. apply safe_with_this; [done|]. intros x Hx.
  destruct argv as [|a ?]; [by apply safe_same|]. cbn in Hs.
  destruct (JS_ToInt64 a) as [n|]; [|by apply safe_same].
  rewrite (proj2 (Z.leb_le 0 n)), (proj2 (Z.ltb_lt n 64)) by lia.
  apply safe_new; [done|apply u64_range].
Qed.

Lemma safe_compare h this_val argv : wf h → safe h (np_compare h this_val argv).
Proof.
  intros W. unfold np_compare. destruct argv as [|a ?]; [by apply safe_same|].
  destruct (operand_ok h a W) as (b & -> & Hb). cbn [mbind option_bind].
  destruct b as [y|]; [|by apply safe_same]. apply safe_with_this; [done|]. intros x Hx.
  apply safe_same; [done|]. cbn. destruct (x <? y); [lia|]. destruct (y <? x); lia.
Qed.

(** C10: the class [NativePointer] is type safe. From a well-formed heap every
    method returns, whatever it is applied to and with whatever arguments: it
    reads no structure that does not exist, gives a well-formed heap in which
    all earlier pointers are unchanged, and a proper value (the exception for
    a [this] that is no pointer); only shifts require a count in 0 .. 63,
    which they do not check. *)
Theorem methods_typed (m : method) h this_val argv : wf h →
  (m = shr ∨ m = shl → shift_in_range argv) → safe h (np_methods m h this_val argv).
Proof.
  intros W Hs. destruct m; cbn [np_methods]; try by apply safe_binop.
  - apply safe_with_this; [done|]. intros. by apply safe_same.
  - apply safe_with_this; [done|]. intros p Hp. apply safe_same; [done|]. by apply hex_string_u8.
  - apply safe_with_this; [done|]. intros. apply safe_same; [done|]. cbn. apply s32_range.
  - by apply safe_compare.
  - apply safe_shift; auto.
  - apply safe_shift; auto.
  - apply safe_with_this; [done|]. intros p Hp. apply safe_new; [done|]. apply not64_range.
Qed.

(** ** Round trips *)

Lemma with_this_ptr h v p k : is_ptr h v p → with_this h v k = k p.
Proof.
  intros Hp. unfold with_this. destruct (GetOpaque_ptr h v p Hp) as [Hn ->].
  by destruct (Z.eqb_spec (JS_GetOpaque h v np_class_id) 0).
Qed.

Lemma operand_ptr h v p : is_ptr h v p → operand h v = Some (Some p).
Proof.
  intros Hp. unfold operand. destruct (GetOpaque_ptr h v p Hp) as [Hn ->].
  by destruct (Z.eqb_spec (JS_GetOpaque h v np_class_id) 0).
Qed.

Lemma binop_ptr op h p q a b : wf h → is_ptr h p a → is_ptr h q b →
  ∃ h' r, np_binop op h p [q] = Some (h', r) ∧ wf h' ∧ is_ptr h' r (apply_binop op a b) ∧
    keeps_ptrs h h'.
Proof.
  intros W Hp Hq. unfold np_binop. rewrite (with_this_ptr _ _ _ _ Hp), (operand_ptr _ _ _ Hq).
  cbn [mbind option_bind]. destruct (js_ptr_new h _) as [h' r] eqn:E. exists h', r. split; [done|].
  apply (js_ptr_new_ok h _ h' r W); [|done]. apply apply_binop_u64; by eapply ptr_u64.
Qed.

(** Applying [op] and then its inverse gives the pointer back. *)
Lemma binop_inverse op op' h p q a b : wf h → is_ptr h p a → is_ptr h q b →
  apply_binop op' (apply_binop op a b) b = a →
  ∃ h1 r1 h2 r2, np_binop op h p [q] = Some (h1, r1) ∧ np_binop op' h1 r1 [q] = Some (h2, r2) ∧
    is_ptr h2 r2 a ∧ np_compare h2 r2 [p] = Some (h2, JInt 0).
Proof.
  intros W Hp Hq Ei. destruct (binop_ptr op h p q a b W Hp Hq) as (h1 & r1 & E1 & W1 & P1 & K1).
  destruct (binop_ptr op' h1 r1 q _ b W1 P1 (K1 _ _ Hq)) as (h2 & r2 & E2 & W2 & P2 & K2).
  rewrite Ei in P2. exists h1, r1, h2, r2. split_and!; [done..|]. unfold np_compare.
  rewrite (operand_ptr _ _ _ (K2 _ _ (K1 _ _ Hp))). cbn [mbind option_bind].
  rewrite (with_this_ptr _ _ _ _ P2). by rewrite Z.ltb_irrefl.
Qed.

(** Pointers survive what scripts do with them. The string [toString]
    prints is unwrapped to the same address; adding and then subtracting, and
    xoring twice with, any other pointer, gives an equal pointer, with the
    wrap-around of 64 bits in between. *)
Theorem ptr_roundtrip h p q a b : wf h → is_ptr h p a → is_ptr h q b →
  (∃ s, np_to_string h p = Some (h, JString s) ∧ js_ptr_unwrap h (JString s) = Some a) ∧
  (∃ h1 r1 h2 r2, np_add h p [q] = Some (h1, r1) ∧ np_sub h1 r1 [q] = Some (h2, r2) ∧
    is_ptr h2 r2 a ∧ np_compare h2 r2 [p] = Some (h2, JInt 0)) ∧
  (∃ h1 r1 h2 r2, np_xor h p [q] = Some (h1, r1) ∧ np_xor h1 r1 [q] = Some (h2, r2) ∧
    is_ptr h2 r2 a ∧ np_compare h2 r2 [p] = Some (h2, JInt 0)).
Proof.
  intros W Hp Hq. pose proof (ptr_u64 h p a W Hp) as Ua. split_and!.
  - exists (hex_string a). unfold np_to_string. rewrite (with_this_ptr _ _ _ _ Hp). split; [done|].
    unfold js_ptr_unwrap, parse_ptr, JS_GetOpaque. cbn [negb Z.eqb JS_IsNumber].
    by rewrite strtoull_hex_string.
  - apply (binop_inverse OpAdd OpSub h p q a b); [done..|]. cbn [apply_binop]. unfold u64.
    rewrite Zminus_mod_idemp_l. rewrite Z.add_simpl_r. by apply u64_id.
  - apply (binop_inverse OpXor OpXor h p q a b); [done..|]. cbn [apply_binop].
    by rewrite Z.lxor_assoc, Z.lxor_nilpotent, Z.lxor_0_r.
Qed.

(** ** The constructor *)

Lemma np_constructor_returns h this_val argv : wf h →
  ∃ p, np_constructor h this_val argv =
    Some (JS_SetOpaque (mkHeap (objs h) (<[next h := p]> (nps h)) (next h + 1)) this_val (next h),
          JUndefined).
Proof.
  intros W. unfold np_constructor. destruct argv as [|a ?]; [by eexists|].
  destruct (JS_IsNumber a) eqn:En; [destruct a; try done; by eexists|].
  destruct a; try done; try by eexists. cbv zeta.
  destruct (Z.eqb_spec (JS_GetOpaque h (JObject id) np_class_id) 0) as [->|Hn]; [by eexists|].
  destruct (GetOpaque_live h _ W Hn) as [p Hp]. destruct (GetOpaque_ptr h _ p Hp) as [_ ->].
  cbn [negb]. by eexists.
Qed.

(** The constructor does not construct. The engine passes [new_target] to
    a function registered as [JS_CFUNC_constructor] and returns what it
    returns: [new NativePointer(...)] evaluates to undefined, whatever the
    arguments, no pointer object comes to be, and the first word of the
    function object, which is its realm, is overwritten with the address of
    the structure, so that the next call of the constructor runs with a wild
    context. *)
Theorem constructor_broken ctx h c cid argv : wf h → objs h !! c = Some (mkObj cid ctx) →
  cid ≠ np_class_id → ctx ≠ next h →
  ∃ h', construct ctx h c c argv = Some (h', JUndefined) ∧
    (∀ v p, is_ptr h' v p → is_ptr h v p) ∧
    (∀ argv', construct ctx h' c c argv' = None).
Proof.
  intros W Ho Hc Hx. unfold construct. rewrite Ho. cbn [mbind option_bind u_word].
  rewrite Z.eqb_refl. destruct (np_constructor_returns h (JObject c) argv W) as [p ->].
  eexists. split; [done|]. unfold JS_SetOpaque. cbn [objs]. rewrite Ho. cbn [class_id]. split.
  - intros v x (id & o & -> & Hid & Hcl & Hn & Hp). cbn [objs nps] in *.
    apply lookup_insert_Some in Hid as [[<- <-]|[_ Hid]]; [done|]. exists id, o. split_and!; try done.
    apply lookup_insert_Some in Hp as [[Ew _]|[_ Hp]]; [|done].
    destruct (wf_np _ W id o Hid Hcl Hn) as [y Hy]. rewrite <- Ew, fresh_np in Hy by done. done.
  - intros argv'. cbn [objs]. rewrite lookup_insert_eq. cbn [mbind option_bind u_word].
    destruct (Z.eqb_spec (next h) ctx); [congruence|done].
Qed.

End Ptr.

(** ** A heap with two pointers and the constructor *)

Definition demo_heap : Heap :=
  mkHeap {[2 := mkObj 7 1; 4 := mkObj 7 3; 5 := mkObj 12 900]}
    {[1 := 0x7fff0000; 3 := 0xffffffffffffff00]} 6.

Lemma demo_heap_wf : wf 7 demo_heap.
Proof.
  split.
  - intros id o Ho. cbn [objs demo_heap] in Ho.
    repeat (apply lookup_insert_Some in Ho as [[<- _]|[_ Ho]]; [cbn; lia|]).
    apply lookup_singleton_Some in Ho as [<- _]. cbn. lia.
  - intros id o Ho Hc Hn. cbn [objs demo_heap] in Ho.
    repeat (apply lookup_insert_Some in Ho as [[<- <-]|[_ Ho]]; [by eexists|]).
    apply lookup_singleton_Some in Ho as [<- <-]. done.
  - intros a v Hv. cbn [nps demo_heap] in Hv.
    apply lookup_insert_Some in Hv as [[<- <-]|[_ Hv]]; [done|].
    apply lookup_singleton_Some in Hv as [<- <-]. done.
  - intros i j o p Ho Hp Hc Hc' Hn E. cbn [objs demo_heap] in Ho, Hp.
    repeat (apply lookup_insert_Some in Ho as [[<- <-]|[_ Ho]]);
      repeat (apply lookup_insert_Some in Hp as [[<- <-]|[_ Hp]]);
      try apply lookup_singleton_Some in Ho as [<- <-];
      try apply lookup_singleton_Some in Hp as [<- <-]; done.
  - done.
Qed.

Lemma demo_ptr : is_ptr 7 demo_heap (JObject 2) 0x7fff0000.
Proof. by exists 2, (mkObj 7 1). Qed.

Lemma demo_ptr_high : is_ptr 7 demo_heap (JObject 4) 0xffffffffffffff00.
Proof. by exists 4, (mkObj 7 3). Qed.

Lemma methods_typed_witness :
  safe 7 demo_heap (np_methods (H := demo_engine) 7 shl demo_heap (JObject 4) [JInt 8]).
Proof. apply (methods_typed 7 shl); [apply demo_heap_wf|]. intros _. cbn. lia. Defined.

Lemma ptr_roundtrip_witness :
  ∃ h1 r1 h2 r2, np_add (H := demo_engine) 7 demo_heap (JObject 2) [JObject 4] = Some (h1, r1) ∧
    np_sub (H := demo_engine) 7 h1 r1 [JObject 4] = Some (h2, r2) ∧
    is_ptr 7 h2 r2 0x7fff0000 ∧ np_compare (H := demo_engine) 7 h2 r2 [JObject 2] = Some (h2, JInt 0).
Proof.
  exact (proj1 (proj2 (ptr_roundtrip 7 demo_heap _ _ _ _ demo_heap_wf demo_ptr demo_ptr_high))).
Defined.

Lemma constructor_broken_witness :
  ∃ h', construct (H := demo_engine) 7 900 demo_heap 5 5 [JString (lit "0x1000")] =
      Some (h', JUndefined) ∧
    (∀ v p, is_ptr 7 h' v p → is_ptr 7 demo_heap v p) ∧
    (∀ argv', construct (H := demo_engine) 7 900 h' 5 5 argv' = None).
Proof.
  apply (constructor_broken 7 900 demo_heap 5 12 [JString (lit "0x1000")]);
    [apply demo_heap_wf|reflexivity|discriminate|discriminate].
Defined.

End JsPtr.
