(* ===== verification/JsMemory.v ===== *)
(** * Memory access for scripts ([js_engine/src/js_memory.cpp])

    The functions [Memory.read*], [Memory.write*] and [Memory.alloc] over the
    process memory of [Os] and the object heap of [JsPtr]. [None] is an access
    that faults. Array buffers of the engine are byte lists by object. *)
From stdpp Require Import gmap.
From S2P Require Import Prelude Arm64Machine Bytes CNumber Os JsValue JsPtr.

Module JsMemory.
Import Os JsValue JsPtr.

Record MState : Type := mkMState {
  mem : World;
  heap : Heap;
  buffers : gmap Z (list Z)
}.

(** Casts to [int8_t] and [int16_t]. *)
Definition s8 : Z → Z := signed 8.
Definition s16 : Z → Z := signed 16.

Section Memory.
Context `{Engine}.
Context (np_class_id : Z).

Definition ret : Type := option (MState * JSValue).

(** [JS_EXCEPTION] for fewer than [min] arguments or a null first one. *)
Definition with_ptr (min : nat) (st : MState) (argv : list JSValue) (k : Z → ret) : ret :=
  if decide (length argv < min)%nat then Some (st, JException)
  else
    p ← js_ptr_unwrap np_class_id (heap st) (default JUndefined (argv !! 0%nat));
    if p =? 0 then Some (st, JException) else k p.

(** The [n] bytes at [p], little-endian. *)
Definition read_le (st : MState) (p : Z) (n : nat) : option Z := le_val <$> read_bytes (mem st) p n.

Definition read_with (n : nat) (mk : Z → JSValue) (st : MState) (argv : list JSValue) : ret :=
  with_ptr 1 st argv (λ p, v ← read_le st p n; Some (st, mk v)).

Definition js_read_u8 := read_with 1 (λ v, JS_NewInt32 v).
Definition js_read_u16 := read_with 2 (λ v, JS_NewInt32 v).
Definition js_read_u32 := read_with 4 (λ v, JS_NewUint32 v).
Definition js_read_u64 := read_with 8 (λ v, JS_NewBigInt64 (s64 v)).
Definition js_read_s8 := read_with 1 (λ v, JS_NewInt32 (s8 v)).
Definition js_read_s16 := read_with 2 (λ v, JS_NewInt32 (s16 v)).
Definition js_read_s32 := read_with 4 (λ v, JS_NewInt32 (s32 v)).
Definition js_read_s64 := read_with 8 (λ v, JS_NewBigInt64 (s64 v)).
Definition js_read_f32 := read_with 4 (λ v, JS_NewFloat64 (f64_of_f32 v)).
Definition js_read_f64 := read_with 8 (λ v, JS_NewFloat64 v).

Definition js_read_pointer (st : MState) (argv : list JSValue) : ret :=
  with_ptr 1 st argv (λ p,
    val ← read_le st p 8;
    let '(h, v) := js_ptr_new np_class_id (heap st) val in
    Some (mkMState (mem st) h (buffers st), v)).

(** [strlen]: [None] when the string runs into unreadable memory, or is longer
    than the bound [fuel]. *)
Fixpoint read_cstr (fuel : nat) (w : World) (p : Z) : option (list Z) :=
  match fuel with
  | O => None
  | S fuel =>
      if readable w p then
        if bytes w p =? 0 then Some [] else (bytes w p ::.) <$> read_cstr fuel w (p + 1)
      else None
  end.

(** [JS_NewStringLen] decodes UTF-8; [decoded s] is the encoding of the string
    it makes of the bytes [s]. *)
Context (decoded : list Z → list Z).

Definition js_read_utf8 (fuel : nat) (st : MState) (argv : list JSValue) : ret :=
  with_ptr 1 st argv (λ p,
    let size := match argv !! 1%nat with
                | Some v => if JS_IsUndefined v then Some (-1) else JS_ToInt64 v
                | None => Some (-1)
                end in
    match size with
    | None => Some (st, JException)
    | Some size =>
        s ← (if size <? 0 then read_cstr fuel (mem st) p
             else read_bytes (mem st) p (Z.to_nat size));
        Some (st, JString (decoded s))
    end).

(** [JS_NewArrayBufferCopy]. *)
Definition new_array_buffer (st : MState) (bs : list Z) : MState * JSValue :=
  let h := heap st in
  (mkMState (mem st) (mkHeap (objs h) (nps h) (next h + 1)) (<[next h := bs]> (buffers st)),
   JObject (next h)).

Definition js_read_byte_array (st : MState) (argv : list JSValue) : ret :=
  with_ptr 2 st argv (λ p,
    match JS_ToInt64 (default JUndefined (argv !! 1%nat)) with
    | None => Some (st, JException)
    | Some size =>
        if size <? 0 then Some (st, JException)
        else bs ← read_bytes (mem st) p (Z.to_nat size); Some (new_array_buffer st bs)
    end).

Definition store (st : MState) (p : Z) (bs : list Z) : option MState :=
  w ← write_bytes (mem st) p bs; Some (mkMState w (heap st) (buffers st)).

(** [conv] is the conversion of the second argument; [None] throws. *)
Definition write_with (n : nat) (conv : JSValue → option Z) (st : MState) (argv : list JSValue) :
    ret :=
  with_ptr 2 st argv (λ p,
    match conv (default JUndefined (argv !! 1%nat)) with
    | None => Some (st, JException)
    | Some v => st ← store st p (le_bytes n v); Some (st, JUndefined)
    end).

Definition js_write_u8 := write_with 1 (λ a, u8 <$> JS_ToInt32 a).
Definition js_write_u16 := write_with 2 (λ a, u16 <$> JS_ToInt32 a).
Definition js_write_u32 := write_with 4 JS_ToUint32.
Definition js_write_u64 := write_with 8 (λ a, u64 <$> JS_ToBigInt64 a).
Definition js_write_s8 := write_with 1 (λ a, s8 <$> JS_ToInt32 a).
Definition js_write_s16 := write_with 2 (λ a, s16 <$> JS_ToInt32 a).
Definition js_write_s32 := write_with 4 JS_ToInt32.
Definition js_write_s64 := write_with 8 JS_ToBigInt64.
Definition js_write_f32 := write_with 4 (λ a, f32_of_f64 <$> JS_ToFloat64 a).
Definition js_write_f64 := write_with 8 JS_ToFloat64.

Definition js_write_pointer (st : MState) (argv : list JSValue) : ret :=
  with_ptr 2 st argv (λ p,
    val ← js_ptr_unwrap np_class_id (heap st) (default JUndefined (argv !! 1%nat));
    st ← store st p (le_bytes 8 val);
    Some (st, JUndefined)).

(** [JS_ToCString] of values that are not strings runs script code and is an
    interface, as are the answers of [calloc]. *)
Context (to_cstring : JSValue → option (list Z)).
Context (calloc : World → Z → option (World * Z)).

Definition JS_ToCString (v : JSValue) : option (list Z) :=
  match v with JString s => Some s | _ => to_cstring v end.

(** The copy is of [strlen(str) + 1] bytes: up to the first NUL. *)
Definition js_write_utf8 (st : MState) (argv : list JSValue) : ret :=
  with_ptr 2 st argv (λ p,
    match JS_ToCString (default JUndefined (argv !! 1%nat)) with
    | None => Some (st, JException)
    | Some s => st ← store st p (c_str s ++ [0]); Some (st, JUndefined)
    end).

Definition JS_GetArrayBuffer (st : MState) (v : JSValue) : option (list Z) :=
  match v with JObject id => buffers st !! id | _ => None end.

Definition js_write_byte_array (st : MState) (argv : list JSValue) : ret :=
  with_ptr 2 st argv (λ p,
    match JS_GetArrayBuffer st (default JUndefined (argv !! 1%nat)) with
    | None => Some (st, JException)
    | Some bs => st ← store st p bs; Some (st, JUndefined)
    end).

Definition js_alloc (st : MState) (argv : list JSValue) : ret :=
  match (match argv with [] => Some 1 | a :: _ => JS_ToInt64 a end) with
  | None => Some (st, JException)
  | Some size =>
      if size <=? 0 then Some (st, JException)
      else
        match calloc (mem st) size with
        | None => Some (st, JException)
        | Some (w, p) =>
            let '(h, v) := js_ptr_new np_class_id (heap st) p in
            Some (mkMState w h (buffers st), v)
        end
  end.

(** ** Round trips *)

Definition rw (w : World) (p n : Z) : Prop :=
  ∀ x, p <= x < p + n → readable w x = true ∧ writable w x = true.

(** [st'] differs from [st] only in the bytes of [p, p + n). *)
Definition only (st st' : MState) (p n : Z) : Prop :=
  heap st' = heap st ∧ buffers st' = buffers st ∧ perms (mem st') = perms (mem st) ∧
  ∀ x, ¬ (p <= x < p + n) → bytes (mem st') x = bytes (mem st) x.

Lemma store_read st p bs : rw (mem st) p (zlen bs) →
  ∃ st', store st p bs = Some st' ∧ read_bytes (mem st') p (length bs) = Some bs ∧
    only st st' p (zlen bs).
Proof.
  intros Hrw. unfold store. rewrite write_bytes_Some by (intros x Hx; by apply Hrw).
  cbn [mbind option_bind]. eexists. split; [done|]. cbn [mem]. split.
  - rewrite read_bytes_Some by (intros x Hx; by apply Hrw). f_equal. apply list_eq. intros i.
    rewrite list_lookup_fmap. destruct (decide (i < length bs)%nat).
    + rewrite lookup_seqZ_lt by lia. cbn [fmap option_fmap option_map bytes]. unfold overwrite.
      rewrite (proj2 (in_range_spec _ _ _)) by lia.
      replace (Z.to_nat (p + (0 + Z.of_nat i) - p)) with i by lia.
      by destruct (lookup_lt_is_Some_2 bs i) as [b ->].
    + rewrite lookup_seqZ_ge, lookup_ge_None_2 by lia. done.
  - split_and!; [done..|]. intros x Hx. cbn [mem bytes]. unfold overwrite.
    by rewrite (proj2 (in_range_false _ _ _)) by lia.
Qed.

Lemma store_read_le st p n v : rw (mem st) p (Z.of_nat n) →
  ∃ st', store st p (le_bytes n v) = Some st' ∧
    read_le st' p n = Some (v mod 256 ^ Z.of_nat n) ∧ only st st' p (Z.of_nat n).
Proof.
  intros Hrw. destruct (store_read st p (le_bytes n v)) as (st' & E & R & O).
  { by rewrite le_bytes_length. }
  rewrite le_bytes_length in R, O. exists st'. split_and!; [done| |done].
  unfold read_le. rewrite R. cbn. by rewrite le_val_bytes.
Qed.

(** [v] unwraps to the address [p]. *)
Definition points (st : MState) (v : JSValue) (p : Z) : Prop :=
  js_ptr_unwrap np_class_id (heap st) v = Some p ∧ p ≠ 0.

Lemma with_ptr_points min st a argv p k : points st a p → (min <= S (length argv))%nat →
  with_ptr min st (a :: argv) k = k p.
Proof.
  intros [Hp Hn] Hm. unfold with_ptr. cbn [length]. destruct (decide _); [lia|].
  cbn [lookup list_lookup default id]. rewrite Hp. cbn [mbind option_bind].
  by destruct (Z.eqb_spec p 0).
Qed.

(** Reading back with [mk] what [write_with conv] wrote of [v]. *)
Lemma write_read_with st a p n v x conv mk : points st a p → rw (mem st) p (Z.of_nat n) →
  conv v = Some x →
  ∃ st', write_with n conv st [a; v] = Some (st', JUndefined) ∧
    read_with n mk st' [a] = Some (st', mk (x mod 256 ^ Z.of_nat n)) ∧
    only st st' p (Z.of_nat n).
Proof.
  intros Hp Hrw Hc. destruct (store_read_le st p n x Hrw) as (st' & E & R & O).
  exists st'. unfold write_with, read_with. rewrite (with_ptr_points _ _ _ _ _ _ Hp) by (cbn; lia).
  cbn [lookup list_lookup default id]. rewrite Hc, E. split; [done|]. split; [|done].
  rewrite (with_ptr_points _ st' a [] p).
  - by rewrite R.
  - unfold points. destruct O as (-> & _). done.
  - cbn. lia.
Qed.

(** The typed accesses. *)
Inductive mtype : Set := U8 | U16 | U32 | U64 | S8 | S16 | S32 | S64 | F32 | F64.

Definition type_bytes (t : mtype) : Z :=
  match t with U8 | S8 => 1 | U16 | S16 => 2 | U32 | S32 | F32 => 4 | U64 | S64 | F64 => 8 end.

Definition read_type (t : mtype) : MState → list JSValue → ret :=
  match t with
  | U8 => js_read_u8 | U16 => js_read_u16 | U32 => js_read_u32 | U64 => js_read_u64
  | S8 => js_read_s8 | S16 => js_read_s16 | S32 => js_read_s32 | S64 => js_read_s64
  | F32 => js_read_f32 | F64 => js_read_f64
  end.

Definition write_type (t : mtype) : MState → list JSValue → ret :=
  match t with
  | U8 => js_write_u8 | U16 => js_write_u16 | U32 => js_write_u32 | U64 => js_write_u64
  | S8 => js_write_s8 | S16 => js_write_s16 | S32 => js_write_s32 | S64 => js_write_s64
  | F32 => js_write_f32 | F64 => js_write_f64
  end.

(** The values that are of each type, and what a value that was written is read
    back as: itself, but for an unsigned 64-bit integer from 2^63 on, which is
    read as the signed integer with the same bits. A float may be any, NaN
    included. *)
Inductive read_back : mtype → JSValue → JSValue → Prop :=
| rb_U8 i : 0 <= i < 2 ^ 8 → read_back U8 (JInt i) (JInt i)
| rb_U16 i : 0 <= i < 2 ^ 16 → read_back U16 (JInt i) (JInt i)
| rb_U32 i : 0 <= i < 2 ^ 32 → read_back U32 (JS_NewUint32 i) (JS_NewUint32 i)
| rb_U64 n : - 2 ^ 63 <= n < 2 ^ 63 → read_back U64 (JBigInt n) (JBigInt n)
| rb_U64_high n : 2 ^ 63 <= n < 2 ^ 64 → read_back U64 (JBigInt n) (JBigInt (n - 2 ^ 64))
| rb_S8 i : - 2 ^ 7 <= i < 2 ^ 7 → read_back S8 (JInt i) (JInt i)
| rb_S16 i : - 2 ^ 15 <= i < 2 ^ 15 → read_back S16 (JInt i) (JInt i)
| rb_S32 i : - 2 ^ 31 <= i < 2 ^ 31 → read_back S32 (JInt i) (JInt i)
| rb_S64 n : - 2 ^ 63 <= n < 2 ^ 63 → read_back S64 (JBigInt n) (JBigInt n)
| rb_F32 b : 0 <= b < 2 ^ 32 → read_back F32 (JS_NewFloat64 (f64_of_f32 b)) (JS_NewFloat64 (f64_of_f32 b))
| rb_F64 u : 0 <= u < 2 ^ 64 → read_back F64 (JS_NewFloat64 u) (JS_NewFloat64 u).

Lemma signed_twice w i : 0 < w → - 2 ^ (w - 1) <= i < 2 ^ (w - 1) →
  signed w (signed w i mod 2 ^ w) = i.
Proof.
  intros Hw Hi. rewrite <- (signed_id w i) at 2 by done. apply signed_eq.
  rewrite Z.mod_mod by lia. by apply signed_mod; lia.
Qed.

(** What [write_type t] stores of a value of its type, and what a read makes of it. *)
Lemma type_codec t v v' : read_back t v v' → ∃ conv mk x,
  write_type t = write_with (Z.to_nat (type_bytes t)) conv ∧
  read_type t = read_with (Z.to_nat (type_bytes t)) mk ∧
  conv v = Some x ∧ mk (x mod 256 ^ type_bytes t) = v'.
Proof.
  intros Hv. destruct Hv as [i Hi|i Hi|i Hi|n Hn|n Hn|i Hi|i Hi|i Hi|n Hn|b Hb|u Hu];
    do 3 eexists; (split; [reflexivity|]); (split; [reflexivity|]); cbn [type_bytes].
  - split; [reflexivity|]. unfold u8. change (256 ^ 1) with (2 ^ 8).
    by rewrite Z.mod_mod, Z.mod_small by lia.
  - split; [reflexivity|]. unfold u16. change (256 ^ 2) with (2 ^ 16).
    by rewrite Z.mod_mod, Z.mod_small by lia.
  - split; [unfold JS_ToUint32; by rewrite NewUint32_ToInt32|].
    change (256 ^ 4) with (2 ^ 32). f_equal. unfold u32. rewrite s32_mod, !Z.mod_mod by lia.
    by apply Z.mod_small.
  - split; [reflexivity|]. change (256 ^ 8) with (2 ^ 64). unfold JS_NewBigInt64. f_equal.
    rewrite <- (s64_id n) at 2 by lia. apply s64_eq. unfold u64. rewrite !Z.mod_mod by lia. apply s64_mod.
  - split; [reflexivity|]. change (256 ^ 8) with (2 ^ 64). unfold JS_NewBigInt64. f_equal.
    rewrite <- (s64_id (n - 2 ^ 64)) by lia. apply s64_eq. unfold u64. rewrite !Z.mod_mod, s64_mod by lia.
    replace (n - 2 ^ 64) with (n + (-1) * 2 ^ 64) by lia. by rewrite Z.mod_add by lia.
  - split; [reflexivity|]. unfold JS_NewInt32. f_equal. by apply (signed_twice 8).
  - split; [reflexivity|]. unfold JS_NewInt32. f_equal. by apply (signed_twice 16).
  - split; [reflexivity|]. unfold JS_NewInt32. f_equal. change (256 ^ 4) with (2 ^ 32).
    rewrite <- (s32_id i) at 2 by lia. apply s32_eq. by rewrite Z.mod_mod by lia.
  - split; [reflexivity|]. unfold JS_NewBigInt64. f_equal. change (256 ^ 8) with (2 ^ 64).
    rewrite <- (s64_id n) at 2 by lia. apply s64_eq. rewrite Z.mod_mod by lia. apply s64_mod.
  - split; [by rewrite NewFloat64_ToFloat64|]. cbn [fmap].
    change (256 ^ 4) with (2 ^ 32). destruct (f32_stored b Hb) as [Hu E]. by rewrite Z.mod_small, E by apply Hu.
  - split; [apply NewFloat64_ToFloat64|]. change (256 ^ 8) with (2 ^ 64). by rewrite Z.mod_small by lia.
Qed.

(** C33: reading gives back what was written. For every access type, a value of
    that type written through a pointer to accessible memory is read back the
    same (integers through the doubles that represent them beyond 2^31, floats
    with NaN included), and no other byte of memory and no object changes. The
    exception is an unsigned 64-bit value of 2^63 or more, which is read back
    less 2^64. *)
Theorem memory_roundtrip t st a p v v' : points st a p → rw (mem st) p (type_bytes t) →
  read_back t v v' →
  ∃ st', write_type t st [a; v] = Some (st', JUndefined) ∧
    read_type t st' [a] = Some (st', v') ∧ only st st' p (type_bytes t).
Proof.
  intros Hp Hrw Hv. destruct (type_codec t v v' Hv) as (conv & mk & x & -> & -> & Hc & Hm).
  assert (0 <= type_bytes t) by by destruct t.
  destruct (write_read_with st a p (Z.to_nat (type_bytes t)) v x conv mk Hp) as (st' & W & R & O);
    rewrite ?Z2Nat.id in * by done; [done..|].
  exists st'. rewrite Hm in R. done.
Qed.

(** ** Pointers, blocks and strings *)

Lemma unwrap_ptr h v p : is_ptr np_class_id h v p → js_ptr_unwrap np_class_id h v = Some p.
Proof.
  intros Hp. unfold js_ptr_unwrap. destruct (GetOpaque_ptr np_class_id h v p Hp) as [Hn ->].
  by destruct (Z.eqb_spec (JS_GetOpaque h v np_class_id) 0).
Qed.

Lemma only_points st st' p n a q : only st st' p n → points st a q → points st' a q.
Proof. intros (Hh & _) Hp. unfold points. by rewrite Hh. Qed.

Lemma pointer_roundtrip st a p q x : points st a p → rw (mem st) p 8 → wf np_class_id (heap st) →
  is_ptr np_class_id (heap st) q x →
  ∃ st1 st2 r, js_write_pointer st [a; q] = Some (st1, JUndefined) ∧
    js_read_pointer st1 [a] = Some (st2, r) ∧ is_ptr np_class_id (heap st2) r x.
Proof.
  intros Hp Hrw W Hq. pose proof (ptr_u64 _ _ _ _ W Hq) as Hx.
  destruct (store_read_le st p 8 x Hrw) as (st1 & E & R & O).
  exists st1. unfold js_write_pointer, js_read_pointer.
  rewrite (with_ptr_points _ _ _ _ _ _ Hp) by (cbn; lia). cbn [lookup list_lookup default id].
  rewrite (unwrap_ptr _ _ _ Hq). cbn [mbind option_bind]. rewrite E.
  rewrite (with_ptr_points _ _ _ _ _ _ (only_points _ _ _ _ _ _ O Hp)) by (cbn; lia).
  rewrite R. cbn [mbind option_bind]. change (256 ^ Z.of_nat 8) with (2 ^ 64).
  rewrite Z.mod_small by apply Hx. destruct O as (-> & _).
  destruct (js_ptr_new np_class_id (heap st) x) as [h' r] eqn:En.
  destruct (js_ptr_new_ok _ _ _ _ _ W Hx En) as (_ & P & _). by eexists _, r.
Qed.

Lemma byte_array_roundtrip st a p b bs : points st a p → rw (mem st) p (zlen bs) →
  buffers st !! b = Some bs → zlen bs < 2 ^ 53 →
  ∃ st1 st2 b', js_write_byte_array st [a; JObject b] = Some (st1, JUndefined) ∧
    js_read_byte_array st1 [a; JS_NewInt64 (zlen bs)] = Some (st2, JObject b') ∧
    buffers st2 !! b' = Some bs.
Proof.
  intros Hp Hrw Hb Hl. destruct (store_read st p bs Hrw) as (st1 & E & R & O).
  exists st1. unfold js_write_byte_array, js_read_byte_array.
  rewrite (with_ptr_points _ _ _ _ _ _ Hp) by (cbn; lia).
  rewrite (with_ptr_points _ _ _ _ _ _ (only_points _ _ _ _ _ _ O Hp)) by (cbn; lia).
  cbn [lookup list_lookup default id JS_GetArrayBuffer]. rewrite Hb, E.
  rewrite NewInt64_ToInt64 by lia. destruct (Z.ltb_spec (zlen bs) 0); [lia|].
  rewrite Nat2Z.id, R. cbn [mbind option_bind]. do 2 eexists. split; [done|].
  split; [done|]. cbn. by rewrite lookup_insert_eq.
Qed.

Lemma read_bytes_cons w p n b l : read_bytes w p (S n) = Some (b :: l) →
  readable w p = true ∧ bytes w p = b ∧ read_bytes w (p + 1) n = Some l.
Proof.
  intros Hr. assert (∀ i, 0 <= i < Z.of_nat (S n) → readable w (p + i) = true) as Hrd.
  { unfold read_bytes in Hr. case_match eqn:Ef; [|done]. by apply forallb_seqZ. }
  pose proof (read_bytes_length _ _ _ _ Hr) as Hl. cbn [length] in Hl.
  pose proof (read_bytes_lookup _ _ _ _ 0 Hr ltac:(lia)) as H0. cbn in H0. rewrite Z.add_0_r in H0.
  split; [rewrite <- (Z.add_0_r p); apply Hrd; lia|]. split; [congruence|].
  rewrite read_bytes_Some by (intros x Hx; replace x with (p + (x - p)) by lia; apply Hrd; lia).
  f_equal. apply list_eq. intros i. rewrite list_lookup_fmap. destruct (decide (i < n)%nat).
  - rewrite lookup_seqZ_lt by lia. symmetry. etrans.
    + apply (read_bytes_lookup _ _ _ (b :: l) (S i) Hr). lia.
    + cbn [fmap option_fmap option_map]. do 2 f_equal. lia.
  - rewrite lookup_seqZ_ge, lookup_ge_None_2 by lia. done.
Qed.

Lemma read_cstr_ok w p s fuel : Forall (λ c, c ≠ 0) s →
  read_bytes w p (S (length s)) = Some (s ++ [0]) → (length s < fuel)%nat →
  read_cstr fuel w p = Some s.
Proof.
  intros Hs. revert p fuel. induction Hs as [|c s Hc Hs IH]; intros p fuel Hr Hf;
    (destruct fuel as [|fuel]; [cbn in Hf; lia|]); cbn [read_cstr];
    apply read_bytes_cons in Hr as (-> & -> & Hr).
  - done.
  - destruct (Z.eqb_spec c 0); [done|]. rewrite IH; [done..|]. cbn in Hf. lia.
Qed.

(** Blocks survive too. A pointer written is read back as a pointer with
    the same address, a byte array as an equal array, and a string without
    NUL that the engine decodes to itself as the same string, with any bound
    above its length on the search for its end. *)
Theorem blocks_roundtrip st a p : points st a p → wf np_class_id (heap st) →
  (∀ q x, rw (mem st) p 8 → is_ptr np_class_id (heap st) q x →
    ∃ st1 st2 r, js_write_pointer st [a; q] = Some (st1, JUndefined) ∧
      js_read_pointer st1 [a] = Some (st2, r) ∧ is_ptr np_class_id (heap st2) r x) ∧
  (∀ b bs, rw (mem st) p (zlen bs) → buffers st !! b = Some bs → zlen bs < 2 ^ 53 →
    ∃ st1 st2 b', js_write_byte_array st [a; JObject b] = Some (st1, JUndefined) ∧
      js_read_byte_array st1 [a; JS_NewInt64 (zlen bs)] = Some (st2, JObject b') ∧
      buffers st2 !! b' = Some bs) ∧
  (∀ s fuel, rw (mem st) p (zlen s + 1) → Forall (λ c, c ≠ 0) s → decoded s = s →
    (length s < fuel)%nat →
    ∃ st1, js_write_utf8 st [a; JString s] = Some (st1, JUndefined) ∧
      js_read_utf8 fuel st1 [a] = Some (st1, JString s)).
Proof.
  intros Hp W. split_and!.
  - intros q x Hrw Hq. by apply (pointer_roundtrip st a p q x).
  - intros b bs Hrw Hb Hl. by apply (byte_array_roundtrip st a p b bs).
  - intros s fuel Hrw Hs Hd Hf. destruct (store_read st p (s ++ [0])) as (st1 & E & R & O).
    { rewrite length_app. cbn [length]. by replace (Z.of_nat (length s + 1)) with (zlen s + 1) by lia. }
    exists st1. unfold js_write_utf8, js_read_utf8.
    rewrite (with_ptr_points _ _ _ _ _ _ Hp) by (cbn; lia).
    rewrite (with_ptr_points _ _ _ _ _ _ (only_points _ _ _ _ _ _ O Hp)) by (cbn; lia).
    cbn [lookup list_lookup default id JS_ToCString]. rewrite c_str_id by done. rewrite E.
    split; [done|]. cbn iota. rewrite (read_cstr_ok _ _ s fuel); [|done| |done].
    + cbn. by rewrite Hd.
    + rewrite length_app, Nat.add_comm in R. apply R.
Qed.

(** What [calloc] promises. *)
Hypothesis calloc_ok : ∀ w n w' p, calloc w n = Some (w', p) →
  p ≠ 0 ∧ is_u64 p ∧ rw w' p n ∧ ∀ x, p <= x < p + n → bytes w' x = 0.

(** [Memory.alloc] throws or gives a pointer to zeroed memory of the size
    asked for, which [memory_roundtrip] can then be applied to. *)
Lemma js_alloc_ok st n : wf np_class_id (heap st) → 0 < n < 2 ^ 53 →
  js_alloc st [JS_NewInt64 n] = Some (st, JException) ∨
  ∃ st' v p, js_alloc st [JS_NewInt64 n] = Some (st', v) ∧ points st' v p ∧
    rw (mem st') p n ∧ (∀ x, p <= x < p + n → bytes (mem st') x = 0) ∧ wf np_class_id (heap st').
Proof using calloc_ok.
  intros W Hn. unfold js_alloc. rewrite NewInt64_ToInt64 by lia.
  destruct (Z.leb_spec n 0); [lia|]. destruct (calloc (mem st) n) as [[w p]|] eqn:Ec; [|by left].
  destruct (calloc_ok _ _ _ _ Ec) as (Hp & Hu & Hrw & Hz). right.
  destruct (js_ptr_new np_class_id (heap st) p) as [h v] eqn:En.
  destruct (js_ptr_new_ok _ _ _ _ _ W Hu En) as (W' & P & _).
  eexists _, v, p. split; [done|]. split_and!; try done. split; [by apply unwrap_ptr|done].
Qed.

End Memory.

(** ** A process whose memory is all accessible *)

Definition demo_state : MState :=
  mkMState (mkWorld (λ _, 0) (λ _, Some PROT_RWX)) JsPtr.demo_heap ∅.

Lemma demo_points : points (H := demo_engine) 7 demo_state (JObject 2) 0x7fff0000.
Proof. by split. Qed.

Lemma demo_rw n : rw (mem demo_state) 0x7fff0000 n.
Proof. by intros x Hx. Qed.

(** 4294967295 is a double; it is read back from the four bytes as one. *)
Lemma memory_roundtrip_witness :
  ∃ st', write_type (H := demo_engine) 7 U32 demo_state [JObject 2; JS_NewUint32 4294967295] =
      Some (st', JUndefined) ∧
    read_type (H := demo_engine) 7 U32 st' [JObject 2] = Some (st', JS_NewUint32 4294967295) ∧
    only demo_state st' 0x7fff0000 4.
Proof.
  apply (memory_roundtrip 7 U32); [apply demo_points|apply demo_rw|apply rb_U32; lia].
Defined.

Lemma blocks_roundtrip_witness :
  ∃ st1, js_write_utf8 (H := demo_engine) 7 (λ _, None) demo_state [JObject 2; JString [72; 105]] =
      Some (st1, JUndefined) ∧
    js_read_utf8 (H := demo_engine) 7 (λ s, s) 100 st1 [JObject 2] = Some (st1, JString [72; 105]).
Proof.
  apply (blocks_roundtrip 7 (λ s, s) (λ _, None) demo_state (JObject 2) 0x7fff0000 demo_points
           JsPtr.demo_heap_wf); [apply demo_rw|repeat constructor; discriminate|reflexivity|cbn; lia].
Defined.

End JsMemory.
