(* ===== verification/JsNative.v ===== *)
(** * Native functions and callbacks ([js_engine/src/js_native.cpp])

    Types of the foreign-function interface, the conversion of values, the
    code generated for a call of a native function and for a callback, and the
    classes [NativeFunction] and [NativeCallback]. Code is emitted through
    [Assembler] into pages of [MemoryAllocator]; the functions called are
    parameters. [None] is a fault or undefined behaviour. *)
From stdpp Require Import gmap.
From Stdlib Require Import (notations) String.
From S2P Require Import Prelude Bytes CNumber Arm64 Arm64Machine Assembler Os CodePatch MemoryAllocator A64Frame JsValue JsPtr JsMemory.

Module JsNative.
Import Arm64 Os MemoryAllocator Emit JsValue JsPtr.

(** ** Types *)

Inductive ArgType : Set :=
| kTypeVoid | kTypeInt | kTypeUInt8 | kTypeInt8 | kTypeUInt16 | kTypeInt16 | kTypeUInt32
| kTypeInt32 | kTypeUInt64 | kTypeInt64 | kTypeFloat | kTypeDouble | kTypePointer | kTypeSizeT.

#[export] Instance ArgType_eq_dec : EqDecision ArgType.
Proof. solve_decision. Defined.

(** [strcmp(s, name) == 0]. *)
Definition named (s : list Z) (name : String.string) : bool := bool_decide (c_str s = lit name).
#[global] Arguments named s name%_string.

Definition parse_type (s : list Z) : option ArgType :=
  if named s "void" then Some kTypeVoid
  else if named s "int" then Some kTypeInt
  else if named s "uint8" || named s "uchar" then Some kTypeUInt8
  else if named s "int8" || named s "char" then Some kTypeInt8
  else if named s "uint16" || named s "ushort" then Some kTypeUInt16
  else if named s "int16" || named s "short" then Some kTypeInt16
  else if named s "uint32" then Some kTypeUInt32
  else if named s "int32" then Some kTypeInt32
  else if named s "uint64" then Some kTypeUInt64
  else if named s "int64" || named s "long" then Some kTypeInt64
  else if named s "float" then Some kTypeFloat
  else if named s "double" then Some kTypeDouble
  else if named s "pointer" || named s "ptr" then Some kTypePointer
  else if named s "size_t" then Some kTypeSizeT
  else None.

Definition is_float_type (t : ArgType) : bool :=
  match t with kTypeFloat | kTypeDouble => true | _ => false end.
Definition is_void_type (t : ArgType) : bool :=
  match t with kTypeVoid => true | _ => false end.
Definition type_size (t : ArgType) : Z :=
  match t with kTypeVoid => 0 | kTypeFloat => 4 | kTypeDouble => 8 | _ => 8 end.

(** ** Marshalling a call *)

(** The arrays [int_regs] and [float_regs], up to their fill. *)
Fixpoint classify (i : nat) (args : list (ArgType * Z)) (ints floats : list Z) : list Z * list Z :=
  match args with
  | [] => (ints, floats)
  | (t, v) :: args =>
      if decide (i < 24)%nat then
        if is_float_type t
        then classify (S i) args ints (if decide (length floats < 8)%nat then floats ++ [v] else floats)
        else classify (S i) args (if decide (length ints < 8)%nat then ints ++ [v] else ints) floats
      else (ints, floats)
  end.

Definition ldr_arg (i : Z) : Z := 0xF9400000 .| u32 (i << 10) .| (21 << 5) .| i.
Definition ldr_farg (i : Z) : Z := 0xFD400000 .| u32 (i << 10) .| (22 << 5) .| i.

(** The stub of [marshal_and_call]; the arguments are the addresses of the
    arrays, the function and the result. *)
Definition call_stub (int_regs float_regs fn ret_value int_idx float_idx : Z) :
    option Assembler.CodeBuffer :=
  let a := Assembler.Assembler_new in
  a ← emit_all a [0xA9BF0000 .| (20 << 10) .| (31 << 5) .| 19;
                  0xA9BF0000 .| (22 << 10) .| (31 << 5) .| 21];
  a ← Assembler.EmitMovImm64 a 21 int_regs;
  a ← emit_all a (ldr_arg <$> seqZ 0 int_idx);
  a ← Assembler.EmitMovImm64 a 22 float_regs;
  a ← emit_all a (ldr_farg <$> seqZ 0 float_idx);
  a ← Assembler.EmitMovImm64 a 19 fn;
  a ← Assembler.EmitBLR a 19;
  a ← Assembler.EmitMovImm64 a 19 ret_value;
  a ← emit_all a [0xF9000000 .| (0 << 10) .| (19 << 5) .| 0;
                  0xFD000000 .| (0 << 10) .| (19 << 5) .| 0;
                  0xA8C10000 .| (22 << 10) .| (31 << 5) .| 21;
                  0xA8C10000 .| (20 << 10) .| (31 << 5) .| 19;
                  0xD65F03C0];
  a ← Assembler.Finalize a;
  Some (Assembler.buf_ a).

(** The stub of [generate_callback_stub]. *)
Definition kCbOffData : Z := 0.
Definition kCbOffArgs : Z := 8.
Definition kCbOffFloats : Z := 8 + 8 * 8.
Definition kCbOffRet : Z := 8 + 8 * 8 + 8 * 8.
Definition kCbSaveSize : Z := 144.

Definition callback_stub (cb dispatch : Z) : option Assembler.CodeBuffer :=
  let a := Assembler.Assembler_new in
  a ← emit_all a [0xD1000000 .| u32 (kCbSaveSize << 10) .| (31 << 5) .| 31];
  a ← Assembler.EmitMovImm64 a 9 cb;
  a ← emit_all a [0xF9000000 .| (0 << 10) .| (31 << 5) .| 9];
  a ← emit_all a ((λ i, 0xF9000000 .| u32 ((kCbOffArgs / 8 + i) << 10) .| (31 << 5) .| i)
                    <$> seqZ 0 8);
  a ← emit_all a ((λ i, 0xFD000000 .| u32 (((kCbOffFloats + i * 8) / 8) << 10) .| (31 << 5) .| i)
                    <$> seqZ 0 8);
  a ← Assembler.EmitMovImm64 a 0 cb;
  a ← emit_all a [0x91000000 .| u32 (kCbOffArgs << 10) .| (31 << 5) .| 1;
                  0x91000000 .| u32 (kCbOffRet << 10) .| (31 << 5) .| 2];
  a ← Assembler.EmitMovImm64 a 8 dispatch;
  a ← Assembler.EmitBLR a 8;
  a ← emit_all a [0xF9400000 .| u32 ((kCbOffRet / 8) << 10) .| (31 << 5) .| 0;
                  0xFD400000 .| u32 ((kCbOffRet / 8) << 10) .| (31 << 5) .| 0;
                  0x91000000 .| u32 (kCbSaveSize << 10) .| (31 << 5) .| 31;
                  0xD65F0000];
  a ← Assembler.Finalize a;
  Some (Assembler.buf_ a).

Section with_os.
Context `{O : OS}.

Definition stub_size : Z := 512.

(** [AllocPage], then [BeginWrite], [memcpy] and [EndWrite]: the address, or 0
    without a page. *)
Definition write_stub (s : Alloc) (code : option Assembler.CodeBuffer) : option (Alloc * Z) :=
  let '(s, stub_mem) := AllocPage s in
  if stub_mem =? 0 then Some (s, 0)
  else
    buf ← code;
    bs ← slice (Assembler.data buf) 0 (Assembler.size buf);
    let '(s, _) := BeginWrite s stub_mem stub_size in
    w ← write_bytes (world s) stub_mem bs;
    let '(s, _) := EndWrite (mkAlloc w (pages_ s)) stub_mem stub_size in
    Some (s, stub_mem).

End with_os.

(** ** Values *)

Section Values.
Context `{Engine}.
Context (np_class_id : Z).

(** The 64-bit word of an argument; the outer [None] is undefined, the inner
    one a conversion that throws. The last case casts a double that may be out
    of range. *)
Definition js_to_native (h : Heap) (val : JSValue) (type : ArgType) : option (option Z) :=
  match type with
  | kTypePointer =>
      p ← js_ptr_unwrap np_class_id h val;
      Some (if (p =? 0) && negb (JS_IsNull val) then None else Some p)
  | kTypeInt | kTypeInt32 => Some (u64 <$> JS_ToInt32 val)
  | kTypeUInt8 => Some (u8 <$> JS_ToInt32 val)
  | kTypeInt8 => Some ((λ v, u64 (signed 8 v)) <$> JS_ToInt32 val)
  | kTypeUInt16 => Some (u16 <$> JS_ToInt32 val)
  | kTypeInt16 => Some ((λ v, u64 (signed 16 v)) <$> JS_ToInt32 val)
  | kTypeUInt32 => Some (JS_ToUint32 val)
  | kTypeUInt64 | kTypeInt64 | kTypeSizeT =>
      Some (match JS_ToBigInt64 val with
            | Some v => Some (u64 v)
            | None => (λ d, u64 (fcvtzs 64 d)) <$> JS_ToFloat64 val
            end)
  | kTypeFloat => Some (f32_of_f64 <$> JS_ToFloat64 val)
  | kTypeDouble => Some (JS_ToFloat64 val)
  | kTypeVoid => Some None
  end.

Definition native_to_js (h : Heap) (type : ArgType) (val : Z) : Heap * JSValue :=
  match type with
  | kTypeVoid => (h, JUndefined)
  | kTypePointer => js_ptr_new np_class_id h val
  | kTypeInt | kTypeInt32 => (h, JS_NewInt32 (s32 val))
  | kTypeUInt8 => (h, JS_NewUint32 (u8 val))
  | kTypeInt8 => (h, JS_NewInt32 (signed 8 val))
  | kTypeUInt16 => (h, JS_NewUint32 (u16 val))
  | kTypeInt16 => (h, JS_NewInt32 (signed 16 val))
  | kTypeUInt32 => (h, JS_NewUint32 (u32 val))
  | kTypeUInt64 => (h, JS_NewBigUint64 val)
  | kTypeInt64 => (h, JS_NewBigInt64 (s64 val))
  | kTypeSizeT => (h, JS_NewBigInt64 (s64 val))
  | kTypeFloat => (h, JS_NewFloat64 (f64_of_f32 (u32 val)))
  | kTypeDouble => (h, JS_NewFloat64 val)
  end.

(** ** NativeFunction and NativeCallback *)

Record NativeFuncData : Set := mkNF {
  address : Z;
  nf_ret_type : ArgType;
  nf_arg_types : list ArgType
}.

Record NativeCbData : Set := mkCb {
  js_func : JSValue;
  cb_ret_type : ArgType;
  cb_arg_types : list ArgType;
  code_ptr : Z
}.

(** The object heap and the two kinds of structures. *)
Record NState : Type := mkNState {
  nheap : Heap;
  nfs : gmap Z NativeFuncData;
  ncs : gmap Z NativeCbData
}.

Context (to_cstring : JSValue → option (list Z)).
(** [JS_GetPropertyStr(v, "length")] and [JS_GetPropertyUint32(v, i)]. *)
Context (get_length : JSValue → JSValue).
Context (get_elem : JSValue → Z → JSValue).

Definition type_of (v : JSValue) : option ArgType :=
  s ← JsMemory.JS_ToCString to_cstring v; parse_type s.

(** The loop over the array of type names. *)
Definition parse_types (arr : JSValue) (n : Z) : option (list ArgType) :=
  mapM (λ i, type_of (get_elem arr i)) (seqZ 0 n).

(** Return type and argument types, at most [max]; [None] throws. *)
Definition parse_signature (ret arr : JSValue) (max : Z) : option (ArgType * list ArgType) :=
  r ← type_of ret;
  n ← JS_ToInt32 (get_length arr);
  if (n <? 0) || (max <? n) then None
  else ts ← parse_types arr n; Some (r, ts).

(** [new NativeFuncData] at the next address. *)
Definition new_nf (st : NState) (d : NativeFuncData) : NState * Z :=
  let h := nheap st in
  (mkNState (mkHeap (objs h) (nps h) (next h + 1)) (<[next h := d]> (nfs st)) (ncs st), next h).

Definition set_opaque (st : NState) (v : JSValue) (p : Z) : NState :=
  mkNState (JS_SetOpaque (nheap st) v p) (nfs st) (ncs st).

Definition nf_constructor (st : NState) (this_val : JSValue) (argv : list JSValue) :
    option (NState * JSValue) :=
  match argv with
  | a0 :: a1 :: a2 :: _ =>
      addr ← js_ptr_unwrap np_class_id (nheap st) a0;
      if addr =? 0 then Some (st, JException)
      else match parse_signature a1 a2 24 with
      | None => Some (st, JException)
      | Some (r, ts) =>
          let '(st, nf) := new_nf st (mkNF addr r ts) in
          Some (set_opaque st this_val nf, JUndefined)
      end
  | _ => Some (st, JException)
  end.

(** The arguments of a call as words; [Some None] is an exception. *)
Fixpoint marshal (h : Heap) (argv : list JSValue) (ts : list ArgType) : option (option (list Z)) :=
  match ts, argv with
  | [], _ => Some (Some [])
  | t :: ts, a :: argv =>
      v ← js_to_native h a t;
      match v with
      | None => Some None
      | Some v => vs ← marshal h argv ts; Some (option_map (cons v) vs)
      end
  | _ :: _, [] => Some (Some [])
  end.

(** [call fn args] is what [marshal_and_call] leaves in [ret_val]. *)
Context (call : Z → list (ArgType * Z) → option Z).

Definition nf_call (nf_class_id : Z) (st : NState) (this_val : JSValue) (argv : list JSValue) :
    option (NState * JSValue) :=
  let p := JS_GetOpaque (nheap st) this_val nf_class_id in
  if p =? 0 then Some (st, JException)
  else
    nf ← nfs st !! p;
    if decide (length argv < length (nf_arg_types nf))%nat then Some (st, JException)
    else
      values ← marshal (nheap st) argv (nf_arg_types nf);
      match values with
      | None => Some (st, JException)
      | Some values =>
          ret_val ← call (address nf) (zip (nf_arg_types nf) values);
          let '(h, v) := native_to_js (nheap st) (nf_ret_type nf) ret_val in
          Some (mkNState h (nfs st) (ncs st), v)
      end.

Definition new_cb (st : NState) (d : NativeCbData) : NState * Z :=
  let h := nheap st in
  (mkNState (mkHeap (objs h) (nps h) (next h + 1)) (nfs st) (<[next h := d]> (ncs st)), next h).

Context (JS_IsFunction : JSValue → bool).
(** [generate_callback_stub]: the address of the code for a structure. *)
Context (stub_for : Z → option Z).

Definition nc_constructor (st : NState) (this_val : JSValue) (argv : list JSValue) :
    option (NState * JSValue) :=
  match argv with
  | a0 :: a1 :: a2 :: _ =>
      if negb (JS_IsFunction a0) then Some (st, JException)
      else match parse_signature a1 a2 8 with
      | None => Some (st, JException)
      | Some (r, ts) =>
          let cb := next (nheap st) in
          match stub_for cb with
          | None => Some (st, JException)
          | Some code =>
              let '(st, cb) := new_cb st (mkCb a0 r ts code) in
              Some (set_opaque st this_val cb, JUndefined)
          end
      end
  | _ => Some (st, JException)
  end.

Definition nc_get_address (nc_class_id : Z) (st : NState) (this_val : JSValue) :
    option (NState * JSValue) :=
  let p := JS_GetOpaque (nheap st) this_val nc_class_id in
  if p =? 0 then Some (st, JException)
  else
    cb ← ncs st !! p;
    let '(h, v) := js_ptr_new np_class_id (nheap st) (code_ptr cb) in
    Some (mkNState h (nfs st) (ncs st), v).

(** The finalizers: the structure of a collected object is deleted. *)
Definition nf_finalize (nf_class_id : Z) (st : NState) (val : JSValue) : NState :=
  let p := JS_GetOpaque (nheap st) val nf_class_id in
  if p =? 0 then st else mkNState (nheap st) (delete p (nfs st)) (ncs st).

Definition nc_finalize (nc_class_id : Z) (st : NState) (val : JSValue) : NState :=
  let p := JS_GetOpaque (nheap st) val nc_class_id in
  if p =? 0 then st else mkNState (nheap st) (nfs st) (delete p (ncs st)).

(** ** Dispatch of a callback

    [args] are the words of the save area from [kCbOffArgs]; [JS_Call] is the
    result of the script's function. The result word, [None] when it is not
    written. *)
Context (JS_Call : JSValue → list JSValue → JSValue).

Fixpoint callback_args (h : Heap) (ts : list ArgType) (args : list Z) : Heap * list JSValue :=
  match ts, args with
  | t :: ts, x :: args =>
      let '(h, v) := native_to_js h t x in
      let '(h, vs) := callback_args h ts args in
      (h, v :: vs)
  | _, _ => (h, [])
  end.

Definition native_callback_dispatch (st : NState) (cb : Z) (args : list Z) :
    option (NState * option Z) :=
  if cb =? 0 then Some (st, None)
  else
    d ← ncs st !! cb;
    if JS_IsUndefined (js_func d) then Some (st, None)
    else
      let '(h, vs) := callback_args (nheap st) (cb_arg_types d) args in
      let result := JS_Call (js_func d) vs in
      let st := mkNState h (nfs st) (ncs st) in
      if JS_IsException result || is_void_type (cb_ret_type d) then Some (st, None)
      else r ← js_to_native h result (cb_ret_type d); Some (st, r).

(** The code of a collected callback outlives its structure: native code that
    still calls it makes the dispatcher read the deleted structure. *)
Lemma nc_finalize_dangling nc_class_id st val args :
  let cb := JS_GetOpaque (nheap st) val nc_class_id in
  cb ≠ 0 → native_callback_dispatch (nc_finalize nc_class_id st val) cb args = None.
Proof.
  cbn zeta. intros Hcb. unfold native_callback_dispatch, nc_finalize.
  rewrite (proj2 (Z.eqb_neq _ _) Hcb). cbn [ncs]. by rewrite lookup_delete_eq.
Qed.

(** ** Values survive the crossing *)

(** The values that are of a type, apart from pointers, and what they come back
    as: themselves, but for a [size_t] from 2^63 on, which comes back as the
    signed integer with the same bits. A float may be any, NaN included. *)
Inductive comes_back : ArgType → JSValue → JSValue → Prop :=
| cb_Int i : - 2 ^ 31 <= i < 2 ^ 31 → comes_back kTypeInt (JInt i) (JInt i)
| cb_Int32 i : - 2 ^ 31 <= i < 2 ^ 31 → comes_back kTypeInt32 (JInt i) (JInt i)
| cb_UInt8 i : 0 <= i < 2 ^ 8 → comes_back kTypeUInt8 (JInt i) (JInt i)
| cb_Int8 i : - 2 ^ 7 <= i < 2 ^ 7 → comes_back kTypeInt8 (JInt i) (JInt i)
| cb_UInt16 i : 0 <= i < 2 ^ 16 → comes_back kTypeUInt16 (JInt i) (JInt i)
| cb_Int16 i : - 2 ^ 15 <= i < 2 ^ 15 → comes_back kTypeInt16 (JInt i) (JInt i)
| cb_UInt32 i : 0 <= i < 2 ^ 32 → comes_back kTypeUInt32 (JS_NewUint32 i) (JS_NewUint32 i)
| cb_UInt64 n : 0 <= n < 2 ^ 64 → comes_back kTypeUInt64 (JBigInt n) (JBigInt n)
| cb_Int64 n : - 2 ^ 63 <= n < 2 ^ 63 → comes_back kTypeInt64 (JBigInt n) (JBigInt n)
| cb_SizeT n : - 2 ^ 63 <= n < 2 ^ 63 → comes_back kTypeSizeT (JBigInt n) (JBigInt n)
| cb_SizeT_high n : 2 ^ 63 <= n < 2 ^ 64 → comes_back kTypeSizeT (JBigInt n) (JBigInt (n - 2 ^ 64))
| cb_Float b : 0 <= b < 2 ^ 32 → comes_back kTypeFloat (JS_NewFloat64 (f64_of_f32 b)) (JS_NewFloat64 (f64_of_f32 b))
| cb_Double u : 0 <= u < 2 ^ 64 → comes_back kTypeDouble (JS_NewFloat64 u) (JS_NewFloat64 u).

Lemma u64_signed w i : 0 < w <= 64 → - 2 ^ (w - 1) <= i < 2 ^ (w - 1) →
  signed w (u64 i) = i.
Proof.
  intros Hw Hi. rewrite <- (signed_id w i) at 2 by (done || lia). apply signed_eq. unfold u64.
  replace 64 with (w + (64 - w)) by lia. rewrite Z.pow_add_r by lia.
  apply Z.mod_mod_divide. exists (2 ^ (64 - w)). lia.
Qed.

Lemma JInt_ToInt32 i : JS_ToInt32 (JInt i) = Some i.
Proof. done. Qed.

Lemma NewUint32_small i : 0 <= i < 2 ^ 31 → JS_NewUint32 i = JInt i.
Proof. intros Hi. unfold JS_NewUint32. by rewrite (proj2 (Z.leb_le _ _)) by lia. Qed.


End Values.

(** ** Classification of arguments *)

Lemma classify_take i args ints floats : (length ints <= 8)%nat → (length floats <= 8)%nat →
  classify i args ints floats =
    (take 8 (ints ++ (snd <$> filter (λ a, is_float_type a.1 = false) (take (24 - i) args))),
     take 8 (floats ++ (snd <$> filter (λ a, is_float_type a.1 = true) (take (24 - i) args)))).
Proof.
  revert i ints floats. induction args as [|[t v] args IH]; intros i ints floats Hi Hf;
    cbn [classify].
  - by rewrite take_nil, !app_nil_r, !take_ge.
  - destruct (decide (i < 24)%nat) as [Hlt|Hge].
    + replace (24 - i)%nat with (S (24 - S i)) by lia. cbn [take]. rewrite !filter_cons. cbn [fst].
      destruct (is_float_type t) eqn:Et.
      * rewrite (decide_False (P := true = false)), (decide_True (P := true = true)) by done.
        rewrite IH; [|done|destruct (decide _); rewrite ?length_app; cbn; lia].
        f_equal. cbn [fmap list_fmap snd]. destruct (decide _) as [Hl|Hl]; [by rewrite <- app_assoc|].
        rewrite !take_app_le by lia. done.
      * rewrite (decide_True (P := false = false)), (decide_False (P := false = true)) by done.
        rewrite IH; [|destruct (decide _); rewrite ?length_app; cbn; lia|done].
        f_equal. cbn [fmap list_fmap snd]. destruct (decide _) as [Hl|Hl]; [by rewrite <- app_assoc|].
        rewrite !take_app_le by lia. done.
    + replace (24 - i)%nat with 0%nat by lia. cbn. rewrite !app_nil_r, !take_ge by lia. done.
Qed.

(** ** The generated code *)

Definition push_words : list Z :=
  [0xA9BF0000 .| (20 << 10) .| (31 << 5) .| 19; 0xA9BF0000 .| (22 << 10) .| (31 << 5) .| 21].
Definition tail_words : list Z :=
  [0xF9000000 .| (0 << 10) .| (19 << 5) .| 0; 0xFD000000 .| (0 << 10) .| (19 << 5) .| 0;
   0xA8C10000 .| (22 << 10) .| (31 << 5) .| 21; 0xA8C10000 .| (20 << 10) .| (31 << 5) .| 19;
   0xD65F03C0].

(** Up to the call, and behind it. *)
Definition before_words (p q f ni nf : Z) : list Z :=
  push_words ++ A64F.mov_words 21 p ++ (ldr_arg <$> seqZ 0 ni) ++ A64F.mov_words 22 q ++
  (ldr_farg <$> seqZ 0 nf) ++ A64F.mov_words 19 f.
Definition call_stub_words (p q f r ni nf : Z) : list Z :=
  before_words p q f ni nf ++ [kOpBLR .| u32 (19 << 5)] ++ A64F.mov_words 19 r ++ tail_words.

(** An emitter on the empty assembler, then [Finalize]. *)
Lemma appends_finalize f ws : appends f ws → Forall is_u32 ws → zlen ws < 2 ^ 16 →
  ∃ a buf, f Assembler.Assembler_new = Some a ∧
    (a ← Assembler.Finalize a; Some (Assembler.buf_ a)) = Some buf ∧
    Assembler.data buf = words_bytes (ws ++ Assembler.pad_words (length ws)) ∧
    Assembler.size buf = zlen (Assembler.data buf).
Proof.
  intros Hf Hw Hl. destruct (Hf _ _ Assembler.view_new) as (a & E & V); [cbn; lia|].
  cbn [app] in V. destruct (Finalize_words a ws V Hw) as (a' & Ef & D & S); [lia|].
  exists a, (Assembler.buf_ a'). rewrite Ef. done.
Qed.

Lemma ldr_args_u32 n : 0 <= n <= 8 → Forall is_u32 (ldr_arg <$> seqZ 0 n) ∧
  Forall is_u32 (ldr_farg <$> seqZ 0 n).
Proof.
  intros Hn. assert (Forall is_u32 (ldr_arg <$> seqZ 0 8) ∧ Forall is_u32 (ldr_farg <$> seqZ 0 8))
    as [H1 H2] by (split; apply words_u32; vm_compute; reflexivity).
  rewrite !Forall_fmap, !Forall_forall in *. split; intros i Hi; apply elem_of_seqZ in Hi;
    [apply H1|apply H2]; apply elem_of_seqZ; lia.
Qed.

Lemma call_stub_words_u32 p q f r ni nf : 0 <= ni <= 8 → 0 <= nf <= 8 →
  Forall is_u32 (call_stub_words p q f r ni nf).
Proof.
  intros Hi Hf. unfold call_stub_words, before_words. rewrite !Forall_app.
  split_and!; lazymatch goal with
  | |- Forall _ (A64F.mov_words _ _) => apply A64F.mov_words_u32; lia
  | |- Forall _ (_ <$> _) => by apply ldr_args_u32
  | _ => apply words_u32; vm_compute; reflexivity
  end.
Qed.

Lemma call_stub_ok p q f r ni nf : 0 <= ni <= 8 → 0 <= nf <= 8 →
  ∃ buf, call_stub p q f r ni nf = Some buf ∧
    Assembler.data buf = words_bytes (call_stub_words p q f r ni nf ++
      Assembler.pad_words (length (call_stub_words p q f r ni nf))) ∧
    Assembler.size buf = zlen (Assembler.data buf).
Proof.
  intros Hi Hf.
  destruct (appends_finalize (λ a,
    a ← emit_all a push_words; a ← Assembler.EmitMovImm64 a 21 p;
    a ← emit_all a (ldr_arg <$> seqZ 0 ni); a ← Assembler.EmitMovImm64 a 22 q;
    a ← emit_all a (ldr_farg <$> seqZ 0 nf); a ← Assembler.EmitMovImm64 a 19 f;
    a ← Assembler.EmitBLR a 19; a ← Assembler.EmitMovImm64 a 19 r; emit_all a tail_words)
    (call_stub_words p q f r ni nf)) as (a & buf & E & Ef & D & S).
  - unfold call_stub_words, before_words. rewrite <- !app_assoc.
    repeat (eapply appends_seq; [first [apply appends_all|apply appends_mov|apply appends_inst]|]).
    apply appends_all.
  - by apply call_stub_words_u32.
  - unfold call_stub_words, before_words. rewrite !length_app, !length_fmap, !length_seqZ.
    cbn [length push_words tail_words A64F.mov_words]. lia.
  - exists buf. split; [|done]. rewrite <- Ef. clear Ef D S. revert E. unfold call_stub.
    fold push_words tail_words. cbv beta zeta. intros E.
    repeat match type of E with
    | (?m ≫= _) = Some _ => destruct m; cbn [mbind option_bind] in E |- *; [|discriminate E]
    end. by rewrite E.
Qed.

Definition cb_save_words (cb : Z) : list Z :=
  [0xD1000000 .| u32 (kCbSaveSize << 10) .| (31 << 5) .| 31] ++ A64F.mov_words 9 cb ++
  [0xF9000000 .| (0 << 10) .| (31 << 5) .| 9] ++
  ((λ i, 0xF9000000 .| u32 ((kCbOffArgs / 8 + i) << 10) .| (31 << 5) .| i) <$> seqZ 0 8) ++
  ((λ i, 0xFD000000 .| u32 (((kCbOffFloats + i * 8) / 8) << 10) .| (31 << 5) .| i) <$> seqZ 0 8).
Definition cb_call_words (cb dispatch : Z) : list Z :=
  A64F.mov_words 0 cb ++
  [0x91000000 .| u32 (kCbOffArgs << 10) .| (31 << 5) .| 1;
   0x91000000 .| u32 (kCbOffRet << 10) .| (31 << 5) .| 2] ++ A64F.mov_words 8 dispatch.
Definition cb_tail_words : list Z :=
  [0xF9400000 .| u32 ((kCbOffRet / 8) << 10) .| (31 << 5) .| 0;
   0xFD400000 .| u32 ((kCbOffRet / 8) << 10) .| (31 << 5) .| 0;
   0x91000000 .| u32 (kCbSaveSize << 10) .| (31 << 5) .| 31; 0xD65F0000].
Definition callback_words (cb dispatch : Z) : list Z :=
  cb_save_words cb ++ cb_call_words cb dispatch ++ [kOpBLR .| u32 (8 << 5)] ++ cb_tail_words.

Lemma callback_words_u32 cb dispatch : Forall is_u32 (callback_words cb dispatch).
Proof.
  unfold callback_words, cb_save_words, cb_call_words. rewrite !Forall_app.
  split_and!; lazymatch goal with
  | |- Forall _ (A64F.mov_words _ _) => apply A64F.mov_words_u32; lia
  | _ => apply words_u32; vm_compute; reflexivity
  end.
Qed.

Lemma callback_stub_ok cb dispatch :
  ∃ buf, callback_stub cb dispatch = Some buf ∧
    Assembler.data buf = words_bytes (callback_words cb dispatch ++
      Assembler.pad_words (length (callback_words cb dispatch))) ∧
    Assembler.size buf = zlen (Assembler.data buf).
Proof.
  set (il1 := (λ i, 0xF9000000 .| u32 ((kCbOffArgs / 8 + i) << 10) .| (31 << 5) .| i) <$> seqZ 0 8).
  set (il2 := (λ i, 0xFD000000 .| u32 (((kCbOffFloats + i * 8) / 8) << 10) .| (31 << 5) .| i)
                <$> seqZ 0 8).
  destruct (appends_finalize (λ a,
    a ← emit_all a [0xD1000000 .| u32 (kCbSaveSize << 10) .| (31 << 5) .| 31];
    a ← Assembler.EmitMovImm64 a 9 cb; a ← emit_all a [0xF9000000 .| (0 << 10) .| (31 << 5) .| 9];
    a ← emit_all a il1; a ← emit_all a il2; a ← Assembler.EmitMovImm64 a 0 cb;
    a ← emit_all a [0x91000000 .| u32 (kCbOffArgs << 10) .| (31 << 5) .| 1;
                    0x91000000 .| u32 (kCbOffRet << 10) .| (31 << 5) .| 2];
    a ← Assembler.EmitMovImm64 a 8 dispatch; a ← Assembler.EmitBLR a 8; emit_all a cb_tail_words)
    (callback_words cb dispatch)) as (a & buf & E & Ef & D & S).
  - unfold callback_words, cb_save_words, cb_call_words. rewrite <- !app_assoc.
    repeat (eapply appends_seq; [first [apply appends_all|apply appends_mov|apply appends_inst]|]).
    apply appends_all.
  - apply callback_words_u32.
  - done.
  - exists buf. split; [|by split]. rewrite <- Ef. clear Ef D S. revert E. unfold callback_stub.
    fold il1 il2 cb_tail_words. cbv beta zeta. intros E.
    repeat match type of E with
    | (?m ≫= _) = Some _ => destruct m; cbn [mbind option_bind] in E |- *; [|discriminate E]
    end. by rewrite E.
Qed.

(** ** Where the stub is *)

Section Reuse.
Context `{OL : OSLaws}.
#[local] Set Default Proof Using "Type*".

Lemma existing_loop_snoc ps pg size lo hi : existing_loop ps size lo hi = None →
  size <= u32 (capacity pg - used pg) → lo <= u64 (base pg + used pg) <= hi →
  ∃ ps', existing_loop (ps ++ [pg]) size lo hi = Some (ps', u64 (base pg + used pg)).
Proof.
  intros Hn Hs Ha. induction ps as [|p ps IH]; cbn [existing_loop app] in *.
  - rewrite (proj2 (Z.ltb_ge _ _)), !(proj2 (Z.leb_le _ _)) by lia. cbn [negb andb]. by eexists.
  - destruct (_ && _ && _); [done|]. destruct (existing_loop ps size lo hi) as [[]|]; [done|].
    destruct (IH eq_refl) as [ps' ->]. cbn [mbind option_bind]. by eexists.
Qed.

Lemma BeginWrite_pages s a n : pages_ (BeginWrite s a n).1 = pages_ s.
Proof. unfold BeginWrite. by destruct (CodePatch.MakeMemoryRWX _ _ _). Qed.
Lemma EndWrite_pages s a n : pages_ (EndWrite s a n).1 = pages_ s.
Proof. unfold EndWrite. by destruct (CodePatch.MakeMemoryRX _ _ _). Qed.

Lemma write_stub_pages s code s' p : write_stub s code = Some (s', p) → p ≠ 0 →
  pages_ s' = pages_ s ++ [new_page p] ∧ 0 < p < 2 ^ 63.
Proof.
  unfold write_stub, AllocPage. destruct (mmap (world s) 0 GetPageSize MAP_ANY) as [w [pg|]] eqn:E.
  - destruct (mmap_page (world s) 0 GetPageSize MAP_ANY pg) as (_ & Hp & Hb); [by rewrite E|].
    destruct page_size_pow2 as (k & Hk & Ek).
    assert (0 < GetPageSize) by (unfold GetPageSize; rewrite Ek; apply Z.pow_pos_nonneg; lia).
    rewrite (proj2 (Z.eqb_neq pg 0)) by lia. intros Hw Hn.
    destruct code as [buf|]; [|done]. cbn [mbind option_bind] in Hw.
    destruct (slice _ _ _) as [bs|]; [|done]. cbn [mbind option_bind] in Hw.
    pose proof (BeginWrite_pages (mkAlloc w (pages_ s ++ [new_page pg])) pg stub_size) as B.
    destruct (BeginWrite _ _ _) as [s1 r1]. cbn in B, Hw.
    destruct (write_bytes _ _ _) as [w'|]; [|done]. cbn [mbind option_bind] in Hw.
    pose proof (EndWrite_pages (mkAlloc w' (pages_ s1)) pg stub_size) as B2.
    destruct (EndWrite _ _ _) as [s2 r2]. cbn in B2, Hw. simplify_eq. split; [congruence|lia].
  - cbn. intros [= <- <-]. done.
Qed.

(** The page of a stub is not reserved. [AllocPage] records the page as
    unused, and neither [marshal_and_call] nor [generate_callback_stub] says
    how much of it they take: the next allocation near the page, for the
    trampoline of a hook or for relocated code, gets the very address of the
    stub, whose code it then overwrites. *)
Theorem stub_page_reused s code s' p size near range : write_stub s code = Some (s', p) → p ≠ 0 →
  0 <= size → size + 7 <= page_size →
  existing_loop (pages_ s) (u64 (size + 7) .& not64 7) (range_lo near range) (u64 (near + range)) =
    None →
  range_lo near range <= p <= u64 (near + range) →
  ∃ s'', AllocNearCode s' size near range = (s'', p).
Proof.
  intros Hw Hp Hs Hsz Hn Hr. destruct (write_stub_pages s code s' p Hw Hp) as [Hpg Hpr].
  destruct page_size_pow2 as (k & Hk & Ek).
  assert (0 < page_size < 2 ^ 32) as Hps.
  { rewrite Ek. split; [apply Z.pow_pos_nonneg; lia|apply Z.pow_lt_mono_r; lia]. }
  unfold AllocNearCode, TryAllocFromExisting. rewrite Hpg.
  assert (u64 (p + 0) = p) as Ep by (rewrite Z.add_0_r; apply u64_id; unfold is_u64; lia).
  destruct (existing_loop_snoc (pages_ s) (new_page p) (u64 (size + 7) .& not64 7)
    (range_lo near range) (u64 (near + range)) Hn) as [ps' E]; cbn [new_page base used capacity].
  - rewrite Z.sub_0_r. unfold u32 at 1. rewrite (Z.mod_small (u32 _)) by apply u32_range.
    unfold u32, GetPageSize. rewrite Z.mod_small by lia.
    rewrite u64_id by (unfold is_u64; lia).
    pose proof (CodePatch.mask_down 3 (size + 7) ltac:(lia) ltac:(unfold is_u64; lia)) as Em.
    change (2 ^ 3 - 1) with 7 in Em. rewrite Em. zmod_lia.
  - by rewrite Ep.
  - cbn [new_page base used] in E. rewrite E, Ep. rewrite (proj2 (Z.eqb_neq p 0)) by done. by eexists.
Qed.

End Reuse.

(** ** A stub of one instruction and the next allocation *)

Definition demo_code : option Assembler.CodeBuffer :=
  Assembler.buf_ <$> Assembler.EmitInst Assembler.Assembler_new 0xD65F03C0.

Lemma demo_stub_ok : ∃ s',
  @write_stub demo_os (mkAlloc demo_world []) demo_code = Some (s', 0x11000).
Proof.
  assert (snd <$> @write_stub demo_os (mkAlloc demo_world []) demo_code = Some 0x11000) as H
    by vm_cast_no_check (eq_refl (Some 0x11000)).
  destruct (write_stub _ _) as [[s' p]|]; cbn in H; [|discriminate H].
  injection H as ->. by exists s'.
Qed.

Lemma stub_page_reused_witness : ∃ s' s'',
  @write_stub demo_os (mkAlloc demo_world []) demo_code = Some (s', 0x11000) ∧
  @AllocNearCode demo_os s' 1024 0x10000 0x8000000 = (s'', 0x11000).
Proof.
  destruct demo_stub_ok as [s' E].
  destruct (stub_page_reused (OL := demo_os_laws) (mkAlloc demo_world []) demo_code s' 0x11000
    1024 0x10000 0x8000000 E) as [s'' E2];
    [discriminate|lia|cbn; lia|reflexivity|vm_compute; split; discriminate|].
  exists s', s''. split; [exact E|exact E2].
Defined.


End JsNative.
