(* ===== verification/JsNativeRun.v ===== *)
(** * Running the stubs of [js_native.cpp]

    What the code generated for a native call and for a callback does on the
    machine of [A64Frame], for any function that follows the calling
    convention. *)
From S2P Require Import Prelude Arm64 Arm64Machine Assembler A64Frame JsNative.

Module JsNativeRun.
Import Arm64 A64 A64F JsNative.

(** ** The call stub *)

Definition before_il (p q f : Z) (ni nf : nat) : list finst :=
  [FStpPre 19 20 31 (-16)] ++ [FStpPre 21 22 31 (-16)] ++ mov_imm 21 p ++ load_xr 21 0 ni ++
  mov_imm 22 q ++ load_d 22 0 nf ++ mov_imm 19 f.

Definition tail_il (r : Z) : list finst :=
  mov_imm 19 r ++ [FStrX 0 19 0] ++ [FStrV 8 0 19 0] ++ [FLdpPost 21 22 31 16] ++
  [FLdpPost 19 20 31 16].

Lemma decode_args (n : nat) : (n <= 8)%nat →
  fdecode <$> (ldr_arg <$> seqZ 0 (Z.of_nat n)) = load_xr 21 0 n ∧
  fdecode <$> (ldr_farg <$> seqZ 0 (Z.of_nat n)) = load_d 22 0 n.
Proof.
  intros Hn. unfold load_xr, load_d. rewrite <- !list_fmap_compose.
  assert (∀ i, i ∈ seqZ 0 8 → fdecode (ldr_arg i) = FBase (ILdrX i 21 (0 + 8 * i)) ∧
    fdecode (ldr_farg i) = FLdrV 8 i 22 (0 + 8 * i)) as H.
  { apply Forall_forall. repeat (constructor; [by vm_compute|]). constructor. }
  split; apply list_fmap_ext; intros j i Hi; apply lookup_seqZ in Hi as [-> Hi];
    apply H, elem_of_seqZ; lia.
Qed.

Lemma decode_before p q f (ni nf : nat) : is_u64 p → is_u64 q → is_u64 f → (ni <= 8)%nat →
  (nf <= 8)%nat → fdecode <$> before_words p q f (Z.of_nat ni) (Z.of_nat nf) = before_il p q f ni nf.
Proof.
  intros Hp Hq Hf Hi Hn. unfold before_words, before_il.
  rewrite !fmap_app, !fdecode_mov_words by (done || lia).
  rewrite (proj1 (decode_args ni Hi)), (proj2 (decode_args nf Hn)).
  change (fdecode <$> push_words) with ([FStpPre 19 20 31 (-16)] ++ [FStpPre 21 22 31 (-16)]).
  by rewrite <- !app_assoc.
Qed.

(** What the stub has done when it calls the function: [b] is the new SP. *)
Lemma before_block b s p q f (ni nf : nat) : sp s = b + 32 → 0 <= b → b + 32 < 2 ^ 64 →
  is_u64 p → is_u64 q → is_u64 f → (ni <= 8)%nat → (nf <= 8)%nat → (∀ r, is_u64 (xr s r)) →
  clear_of b 32 p 64 → clear_of b 32 q 64 →
  ∃ s', seq_run b 32 (before_il p q f ni nf) s s' ∧ sp s' = b ∧
    (∀ i, 0 <= i < Z.of_nat ni → xr s' i = u64 (load s (p + 8 * i) 8)) ∧
    (∀ i, 0 <= i < Z.of_nat nf → vr s' i = load s (q + 8 * i) 8) ∧ xr s' 19 = f.
Proof.
  intros Hsp Hb1 Hb2 Hp Hq Hf Hi Hn Hx Cp Cq.
  assert (∀ a s', stays b 32 s s' → clear_of b 32 a 64 → ∀ i, 0 <= i < 8 →
    load s' (a + (0 + 8 * i)) 8 = load s (a + 8 * i) 8) as Hld.
  { intros a s' St Ca i Hi'. apply load_ext. intros j Hj. apply St. rewrite <- Z.add_assoc.
    apply Ca. lia. }
  destruct (push_ok b 32 s 16 19 20) as (s1 & R1 & S1 & X1 & V1 & _); try done; try lia.
  { unfold is_u64. lia. }
  destruct (push_ok b 32 s1 0 21 22) as (s2 & R2 & S2 & X2 & V2 & _); try done; try lia;
    rewrite ?X1; try done.
  { unfold is_u64. lia. }
  destruct (mov_imm_ok b 32 s2 21 p) as (s3 & R3 & [X3 [V3 S3 _ M3]]); [lia|done|].
  destruct (load_xr_ok b 32 s3 21 p 0 ni) as (s4 & R4 & [V4 S4 _ M4] & L4 & X4); [|lia|lia|].
  { unfold get_xsp. cbn [Z.eqb Pos.eqb]. by rewrite X3. }
  destruct (mov_imm_ok b 32 s4 22 q) as (s5 & R5 & [X5 [V5 S5 _ M5]]); [lia|done|].
  destruct (load_d_ok b 32 s5 22 q 0 nf) as (s6 & R6 & [X6 S6 _ M6] & L6 & _).
  { unfold get_xsp. cbn [Z.eqb Pos.eqb]. by rewrite X5. }
  destruct (mov_imm_ok b 32 s6 19 f) as (s7 & R7 & [X7 [V7 S7 _ M7]]); [lia|done|].
  assert (stays b 32 s s2) as St2.
  { apply seq_run_stays in R1, R2. intros x Hx'. by rewrite R2, R1. }
  assert (stays b 32 s s3) as St3 by (intros x Hx'; rewrite M3; by apply St2).
  assert (stays b 32 s s5) as St5 by (intros x Hx'; rewrite M5, M4; by apply St3).
  exists s7. split; [unfold before_il; by repeat (eapply seq_run_app; [eassumption|])|].
  split_and!.
  - rewrite S7, S6, S5, S4, S3, S2. lia.
  - intros i Hi'. rewrite X7, (proj2 (Z.eqb_neq i 19)), X6, X5, (proj2 (Z.eqb_neq i 22)) by lia.
    rewrite L4 by done. by rewrite (Hld p s3) by (done || lia).
  - intros i Hi'. rewrite V7, L6 by done. by rewrite (Hld q s5) by (done || lia).
  - by rewrite X7.
Qed.

(** Behind the call: the result is stored, twice, and the saved registers are
    popped. *)
Lemma tail_block s r : is_u64 r →
  ∃ s', seq_run r 8 (tail_il r) s s' ∧ sp s' = u64 (sp s + 32) ∧ vr s' = vr s ∧
    xr s' 30 = xr s 30 ∧ load s' r 8 = vr s 0 mod 2 ^ 64.
Proof.
  intros Hr. destruct (mov_imm_ok r 8 s 19 r) as (s1 & R1 & [X1 [V1 S1 _ M1]]); [lia|done|].
  assert (get_xsp s1 19 = r) as H19 by (unfold get_xsp; cbn [Z.eqb Pos.eqb]; by rewrite X1).
  set (s2 := next (store s1 (r + 0) 8 (get_x s1 0))).
  assert (seq_run r 8 [FStrX 0 19 0] s1 s2) as R2.
  { apply seq_run_one; [done| |apply store_stays; lia]. cbn [fexec]. by rewrite H19. }
  set (s3 := next (store s2 (r + 0) 8 (vr s2 0))).
  assert (seq_run r 8 [FStrV 8 0 19 0] s2 s3) as R3.
  { apply seq_run_one; [done| |apply store_stays; lia]. cbn [fexec].
    change (get_xsp s2 19) with (get_xsp s1 19). by rewrite H19. }
  destruct (pop_ok r 8 s3 21 22 (u64 (sp s3 + 16))) as (s4 & R4 & S4 & V4 & _ & M4 & X4); [done..|].
  destruct (pop_ok r 8 s4 19 20 (u64 (sp s4 + 16))) as (s5 & R5 & S5 & V5 & _ & M5 & X5); [done..|].
  exists s5. split; [unfold tail_il; by repeat (eapply seq_run_app; [eassumption|])|].
  split_and!.
  - rewrite S5, S4. change (sp s3) with (sp s1). rewrite S1, u64_add_l. f_equal. lia.
  - rewrite V5, V4. exact V1.
  - rewrite X5, X4. cbn [Z.eqb Pos.eqb]. change (xr s3 30) with (xr s1 30). by rewrite X1.
  - rewrite (load_mem s3 s5) by congruence. unfold s3. change (load (next ?x)) with (load x).
    rewrite <- (Z.add_0_r r) at 2. rewrite load_store_eq by lia. change (vr s2) with (vr s1).
    by rewrite V1.
Qed.

(** ** Running the call stub *)

Section CallRun.
(** The arrays, the function, the result, the code and the registers used. *)
Context (p q f r c : Z) (ni nf : nat).
Hypothesis addrs_u64 : is_u64 p ∧ is_u64 q ∧ is_u64 f ∧ is_u64 r.
Hypothesis regs_le : (ni <= 8)%nat ∧ (nf <= 8)%nat.
Hypothesis c_pos : 0 < c ∧ c + 512 <= 2 ^ 63.

Let ws := call_stub_words p q f r (Z.of_nat ni) (Z.of_nat nf).
Let before := before_words p q f (Z.of_nat ni) (Z.of_nat nf).
Let n_before : Z := zlen before.

#[local] Set Default Proof Using "All".

Lemma before_length : n_before = 14 + Z.of_nat ni + Z.of_nat nf.
Proof.
  unfold n_before, before, before_words. rewrite !length_app, !length_fmap, !length_seqZ.
  cbn [length push_words mov_words]. lia.
Qed.

Lemma ws_length : zlen ws = n_before + 10.
Proof. unfold ws, call_stub_words. fold before. rewrite !length_app. cbn [length mov_words tail_words]. lia. Qed.

Lemma ws_u32 : Forall is_u32 ws.
Proof. apply call_stub_words_u32; lia. Qed.

Lemma ws_range : 0 <= c ∧ c + 4 * zlen ws <= 2 ^ 63.
Proof. rewrite ws_length, before_length. lia. Qed.

(** The stub is entered with 32 bytes of stack that are clear of its code and
    of the arrays. *)
Record ready (s : state) : Prop := {
  rd_pc : pc s = c;
  rd_code : placed c ws s;
  rd_sp : 32 <= sp s < 2 ^ 64;
  rd_clear : clear_of (sp s - 32) 32 c (4 * zlen ws);
  rd_ints : clear_of (sp s - 32) 32 p 64;
  rd_floats : clear_of (sp s - 32) 32 q 64;
  rd_u64 : ∀ x, is_u64 (xr s x)
}.

(** Where the function returns to. *)
Definition resume : Z := c + 4 * (n_before + 1).

Lemma call_phase s : ready s →
  ∃ s1, frun (length before + 1) s = Some s1 ∧ pc s1 = f ∧ sp s1 = sp s - 32 ∧
    xr s1 30 = resume ∧ placed c ws s1 ∧
    (∀ i, 0 <= i < Z.of_nat ni → xr s1 i = u64 (load s (p + 8 * i) 8)) ∧
    (∀ i, 0 <= i < Z.of_nat nf → vr s1 i = load s (q + 8 * i) 8).
Proof.
  intros [Hpc Hc Hsp Hcl Hi Hf Hx]. destruct addrs_u64 as (Up & Uq & Uf & _).
  destruct regs_le as [Li Lf].
  destruct (before_block (sp s - 32) s p q f ni nf) as (s1 & R1 & S1 & X1 & V1 & F1);
    try done; try lia.
  destruct (seg_frun c ws ws_u32 ws_range (sp s - 32) 32 [] before
    ([kOpBLR .| u32 (19 << 5)] ++ mov_words 19 r ++ tail_words) (before_il p q f ni nf) s s1)
    as (E1 & P1 & C1); [done|by apply decode_before|done|by rewrite Hpc; cbn; lia|done|done|].
  change (zlen (@nil Z) + zlen before) with n_before in P1.
  pose proof (blr_frun c ws ws_u32 ws_range before (kOpBLR .| u32 (19 << 5))
    (mov_words 19 r ++ tail_words) 19 s1 eq_refl eq_refl C1 P1) as E2.
  change (get_x s1 19) with (xr s1 19) in E2. rewrite F1 in E2.
  eexists. split; [rewrite frun_app, E1; exact E2|]. cbn [pc sp xr vr set_pc set_x mem].
  split_and!; [by apply u64_id|done| |exact C1| |exact V1].
  - cbn. fold n_before. unfold resume. apply u64_id. pose proof before_length. unfold is_u64. lia.
  - intros i Hi'. rewrite (proj2 (Z.eqb_neq i 30)) by lia. by apply X1.
Qed.

(** Nine instructions lead from behind the call to behind the call. *)
Lemma loop_phase s : placed c ws s → pc s = resume → xr s 30 = resume → clear_of r 8 c (4 * zlen ws) →
  ∃ s', frun 9 s = Some s' ∧ placed c ws s' ∧ pc s' = resume ∧ xr s' 30 = resume ∧
    sp s' = u64 (sp s + 32) ∧ vr s' = vr s ∧ load s' r 8 = vr s 0 mod 2 ^ 64.
Proof.
  intros Hc Hpc H30 Hcl. destruct addrs_u64 as (_ & _ & _ & Ur).
  destruct (tail_block s r Ur) as (s1 & R1 & S1 & V1 & X1 & L1).
  pose proof before_length as Hb. pose proof ws_range as Hwr. pose proof ws_length as Hwl.
  destruct (seg_frun c ws ws_u32 ws_range r 8 (before ++ [kOpBLR .| u32 (19 << 5)])
    (mov_words 19 r ++ take 4 tail_words) [0xD65F03C0] (tail_il r) s s1) as (E1 & P1 & C1).
  - unfold ws, call_stub_words. fold before. by rewrite <- !app_assoc.
  - rewrite fmap_app, fdecode_mov_words by (done || lia). done.
  - done.
  - rewrite length_app, Hpc. unfold resume, n_before. cbn [length]. lia.
  - done.
  - done.
  - change (length (mov_words 19 r ++ take 4 tail_words)) with 8%nat in E1, P1.
    rewrite length_app in P1. cbn [length] in P1.
    pose proof (ret_frun c ws ws_u32 ws_range
      (before ++ [kOpBLR .| u32 (19 << 5)] ++ mov_words 19 r ++ take 4 tail_words) 0xD65F03C0 [] 30 s1) as E2.
    rewrite !length_app in E2. cbn [length mov_words take tail_words] in E2.
    change (get_x s1 30) with (xr s1 30) in E2. rewrite X1, H30 in E2.
    eexists. split; [change 9%nat with (8 + 1)%nat; rewrite frun_app, E1; apply E2|].
    + unfold ws, call_stub_words. fold before. by rewrite <- !app_assoc.
    + reflexivity.
    + exact C1.
    + rewrite P1. lia.
    + cbn [set_pc pc xr sp vr]. split_and!; try done; try congruence.
      apply u64_id. unfold resume, is_u64. lia.
Qed.

Lemma loop_forever s (k : nat) : placed c ws s → pc s = resume → xr s 30 = resume →
  clear_of r 8 c (4 * zlen ws) → is_u64 (sp s) →
  ∃ s', frun (9 * k) s = Some s' ∧ pc s' = resume ∧ sp s' = u64 (sp s + 32 * Z.of_nat k) ∧
    ((0 < k)%nat → load s' r 8 = vr s 0 mod 2 ^ 64).
Proof.
  intros Hc Hpc H30 Hcl Hsp. enough (∃ s', frun (9 * k) s = Some s' ∧ placed c ws s' ∧
    pc s' = resume ∧ xr s' 30 = resume ∧ sp s' = u64 (sp s + 32 * Z.of_nat k) ∧ vr s' = vr s ∧
    ((0 < k)%nat → load s' r 8 = vr s 0 mod 2 ^ 64)) as (s' & ? & ? & ? & ? & ? & ? & ?)
    by (by exists s').
  induction k as [|k (s1 & E1 & C1 & P1 & X1 & S1 & V1 & _)].
  - exists s. split_and!; try done; [|lia]. rewrite Z.add_0_r. by rewrite u64_id.
  - destruct (loop_phase s1 C1 P1 X1 Hcl) as (s2 & E2 & C2 & P2 & X2 & S2 & V2 & L2).
    exists s2. replace (9 * S k)%nat with (9 * k + 9)%nat by lia. rewrite frun_app, E1.
    split_and!; try done; [|congruence|].
    + rewrite S2, S1, u64_add_l. f_equal. lia.
    + intros _. by rewrite L2, V1.
Qed.

(** C38: calling a native function never comes back. The stub passes the first
    eight integer and the first eight floating-point arguments in their
    registers and calls the function on an aligned stack. But it does not save
    its own return address: whenever the function returns, the stub runs its
    tail and then returns to the address [BLR] left in X30, which is the tail
    itself, for ever, each time raising SP by 32 bytes. And the word it stores
    as the result is D0, also for a function that returns an integer. *)
Theorem native_call_stub s : ready s → clear_of r 8 c (4 * zlen ws) →
  ∃ s1, frun (length before + 1) s = Some s1 ∧ pc s1 = f ∧ sp s1 = sp s - 32 ∧
    (∀ i, 0 <= i < Z.of_nat ni → xr s1 i = u64 (load s (p + 8 * i) 8)) ∧
    (∀ i, 0 <= i < Z.of_nat nf → vr s1 i = load s (q + 8 * i) 8) ∧
    ∀ s2, returns c (4 * zlen ws) s1 s2 → xr s2 30 = pc s2 →
      ∀ k, ∃ s3, frun (9 * k) s2 = Some s3 ∧ pc s3 = pc s2 ∧
        sp s3 = u64 (sp s2 + 32 * Z.of_nat k) ∧
        ((0 < k)%nat → load s3 r 8 = vr s2 0 mod 2 ^ 64).
Proof.
  intros HR Hcl. destruct (call_phase s HR) as (s1 & E1 & P1 & S1 & X1 & C1 & A1 & V1).
  exists s1. split_and!; [done..|]. intros s2 [Rp Rs _ _ Rc] H30 k.
  assert (pc s2 = resume) as P2 by congruence.
  destruct (loop_forever s2 k) as (s3 & E3 & P3 & S3 & L3).
  - by apply (placed_same c ws ws_u32 ws_range s1).
  - done.
  - congruence.
  - done.
  - rewrite Rs, S1. destruct HR as [_ _ Hsp _ _ _ _]. unfold is_u64. lia.
  - exists s3. split_and!; congruence || done.
Qed.

End CallRun.

(** ** The callback stub *)

Definition cb_il (cb d : Z) : list finst :=
  [FAddSub true 31 31 144] ++ mov_imm 9 cb ++ [FStrX 9 31 0] ++ save_x 8 8 ++ save_d 72 8 ++
  mov_imm 0 cb ++ [FAddSub false 1 31 8] ++ [FAddSub false 2 31 136] ++ mov_imm 8 d.

Lemma decode_cb cb d : is_u64 cb → is_u64 d →
  fdecode <$> (cb_save_words cb ++ cb_call_words cb d) = cb_il cb d.
Proof.
  intros Hc Hd. unfold cb_save_words, cb_call_words, cb_il.
  rewrite !fmap_app, !fdecode_mov_words by (done || lia). rewrite <- !app_assoc.
  repeat (f_equal; try reflexivity).
Qed.

Lemma cb_block b s cb d : sp s = b + 144 → 0 <= b → b + 144 < 2 ^ 64 → is_u64 cb → is_u64 d →
  (∀ r, is_u64 (xr s r)) →
  ∃ s', seq_run b 144 (cb_il cb d) s s' ∧ sp s' = b ∧ xr s' 0 = cb ∧ xr s' 1 = b + 8 ∧
    xr s' 2 = b + 136 ∧ xr s' 8 = d ∧
    (∀ i, 0 <= i < 8 → load s' (b + (8 + 8 * i)) 8 = xr s i) ∧
    (∀ i, 0 <= i < 8 → load s' (b + (72 + 8 * i)) 8 = vr s i mod 2 ^ 64).
Proof.
  intros Hsp Hb1 Hb2 Hcb Hd Hx.
  destruct (addsub_sp_ok b 144 s true 31 144 b) as (s1 & R1 & S1 & X1 & V1 & _ & M1);
    [done|rewrite Hsp; replace (b + 144 - 144) with b by lia; symmetry; apply u64_id; unfold is_u64; lia|].
  destruct (mov_imm_ok b 144 s1 9 cb) as (s2 & R2 & [X2 [V2 S2 _ M2]]); [lia|done|].
  set (s3 := next (store s2 (b + 0) 8 (get_x s2 9))).
  assert (seq_run b 144 [FStrX 9 31 0] s2 s3) as R3.
  { apply seq_run_one; [done| |apply store_stays; lia]. cbn [fexec]. unfold get_xsp.
    cbn [Z.eqb Pos.eqb]. by rewrite S2, S1. }
  assert (∀ r, is_u64 (xr s3 r)) as Hx3.
  { intros r. change (xr s3) with (xr s2). rewrite X2, X1. by destruct (r =? 9). }
  destruct (save_x_ok b 144 s3 8 8) as (s4 & R4 & [X4 V4 S4 _] & L4 & _);
    [lia|change (sp s3) with (sp s2); congruence|lia|lia|lia|done|].
  destruct (save_d_ok b 144 s4 72 8) as (s5 & R5 & [X5 V5 S5 _] & L5 & K5 & _);
    [lia|rewrite S4; change (sp s3) with (sp s2); congruence|lia|lia|].
  destruct (mov_imm_ok b 144 s5 0 cb) as (s6 & R6 & [X6 [V6 S6 _ M6]]); [lia|done|].
  assert (sp s6 = b) as Hs6 by (rewrite S6, S5, S4; change (sp s3) with (sp s2); congruence).
  set (s7 := next (set_x s6 1 (b + 8))). set (s8 := next (set_x s7 2 (b + 136))).
  assert (seq_run b 144 [FAddSub false 1 31 8] s6 s7) as R7.
  { apply seq_run_one; [done| |by apply stays_mem]. cbn [fexec]. unfold get_xsp, set_xsp.
    cbn [Z.eqb Pos.eqb]. by rewrite Hs6. }
  assert (seq_run b 144 [FAddSub false 2 31 136] s7 s8) as R8.
  { apply seq_run_one; [done| |by apply stays_mem]. cbn [fexec]. unfold get_xsp, set_xsp.
    cbn [Z.eqb Pos.eqb]. change (sp s7) with (sp s6). by rewrite Hs6. }
  destruct (mov_imm_ok b 144 s8 8 d) as (s9 & R9 & [X9 [V9 S9 _ M9]]); [lia|done|].
  exists s9. split; [unfold cb_il; by repeat (eapply seq_run_app; [eassumption|])|].
  assert (∀ a n, load s9 a n = load s5 a n) as Hl.
  { intros a n. apply load_mem. rewrite M9. exact M6. }
  rewrite S9, !X9. cbn [Z.eqb Pos.eqb]. split_and!.
  - exact Hs6.
  - change (xr s8 0) with (xr s6 0). by rewrite X6.
  - change (xr s8 1) with (u64 (b + 8)). apply u64_id. unfold is_u64. lia.
  - change (xr s8 2) with (u64 (b + 136)). apply u64_id. unfold is_u64. lia.
  - done.
  - intros i Hi. rewrite Hl, (keeps_load b (- 2 ^ 32) 72 s4 s5) by (done || lia).
    rewrite L4 by lia. change (xr s3) with (xr s2). rewrite X2, X1.
    by rewrite (proj2 (Z.eqb_neq i 9)) by lia.
  - intros i Hi. rewrite Hl, L5 by lia. rewrite V4. change (vr s3) with (vr s2). by rewrite V2, V1.
Qed.

Section CallbackRun.
(** The structure, the dispatch function and the code. *)
Context (cb d c : Z).
Hypothesis cb_u64 : is_u64 cb ∧ is_u64 d.
Hypothesis c_pos : 0 < c ∧ c + 512 <= 2 ^ 63.

Let ws := callback_words cb d.

#[local] Set Default Proof Using "All".

Lemma cb_range : 0 <= c ∧ c + 4 * zlen ws <= 2 ^ 63.
Proof. change (zlen ws) with 37. lia. Qed.

Record cb_ready (s : state) : Prop := {
  cr_pc : pc s = c;
  cr_code : placed c ws s;
  cr_sp : 144 <= sp s < 2 ^ 64;
  cr_clear : clear_of (sp s - 144) 144 c 148;
  cr_u64 : ∀ x, is_u64 (xr s x)
}.

Lemma cb_return b s : placed c ws s → pc s = c + 132 → sp s = b → 0 <= b → b + 144 < 2 ^ 64 →
  clear_of b 144 c 148 → is_u64 (load s (b + 136) 8) →
  ∃ s', frun 4 s = Some s' ∧ pc s' = load s (b + 136) 8 ∧ xr s' 0 = load s (b + 136) 8 ∧
    sp s' = b + 144.
Proof.
  intros Hc Hpc Hsp Hb1 Hb2 Hcl Hv. pose proof (callback_words_u32 cb d) as Hu. fold ws in Hu.
  set (s1 := next (set_x s 0 (load s (b + 136) 8))).
  set (s2 := next (set_v s1 0 (load s1 (b + 136) 8))).
  set (s3 := next (set_sp s2 (b + 144))).
  assert (seq_run b 144 ([FBase (ILdrX 0 31 136)] ++ [FLdrV 8 0 31 136] ++ [FAddSub false 31 31 144])
    s s3) as R.
  { apply (seq_run_app _ _ _ _ s s1 s3); [|apply (seq_run_app _ _ _ _ s1 s2 s3)];
      (apply seq_run_one; [done| |by apply stays_mem]).
    - cbn [fexec exec]. unfold get_xsp. cbn [Z.eqb Pos.eqb]. rewrite Hsp. reflexivity.
    - cbn [fexec]. unfold get_xsp. cbn [Z.eqb Pos.eqb]. change (sp s1) with (sp s).
      rewrite Hsp. reflexivity.
    - cbn [fexec]. unfold get_xsp, set_xsp. cbn [Z.eqb Pos.eqb]. change (sp s2) with (sp s).
      by rewrite Hsp. }
  destruct (seg_frun c ws Hu cb_range b 144 (take 33 ws) (take 3 cb_tail_words) [0xD65F0000]
    [FBase (ILdrX 0 31 136); FLdrV 8 0 31 136; FAddSub false 31 31 144] s s3)
    as (E1 & P1 & C1); [reflexivity|reflexivity|done|exact Hpc|done|exact R|].
  change (zlen (take 33 ws) + zlen (take 3 cb_tail_words)) with 36 in P1.
  change (length (take 3 cb_tail_words)) with 3%nat in E1.
  pose proof (ret_frun c ws Hu cb_range (take 36 ws) 0xD65F0000 [] 0 s3 eq_refl eq_refl C1 P1) as E2.
  change (get_x s3 0) with (u64 (load s (b + 136) 8)) in E2. rewrite u64_id in E2 by done.
  eexists. split; [change 4%nat with (3 + 1)%nat; rewrite frun_app, E1; exact E2|].
  cbn [set_pc pc xr sp]. split_and!; [by apply u64_id| |].
  - change (xr s3 0) with (u64 (load s (b + 136) 8)). by apply u64_id.
  - change (sp s3) with (u64 (b + 144)). apply u64_id. unfold is_u64. lia.
Qed.

(** C16: a callback never returns to its caller. The stub hands the dispatch
    function the structure, the saved X0 .. X7 followed by D0 .. D7 as the
    arguments, and the slot of the result. When the dispatch function is done
    the stub loads the result into X0 and branches there: its last instruction
    is RET X0, not RET X30, so the value the script's function returned is
    executed as an address. *)
Theorem callback_stub_run s : cb_ready s →
  ∃ s1, frun 33 s = Some s1 ∧ pc s1 = d ∧ sp s1 = sp s - 144 ∧
    xr s1 0 = cb ∧ xr s1 1 = sp s1 + kCbOffArgs ∧ xr s1 2 = sp s1 + kCbOffRet ∧
    (∀ i, 0 <= i < 8 → load s1 (sp s1 + (kCbOffArgs + 8 * i)) 8 = xr s i) ∧
    (∀ i, 0 <= i < 8 → load s1 (sp s1 + (kCbOffFloats + 8 * i)) 8 = vr s i mod 2 ^ 64) ∧
    ∀ s2, returns c 148 s1 s2 → is_u64 (load s2 (sp s2 + kCbOffRet) 8) →
      ∃ s3, frun 4 s2 = Some s3 ∧ sp s3 = sp s ∧
        xr s3 0 = load s2 (sp s2 + kCbOffRet) 8 ∧ pc s3 = load s2 (sp s2 + kCbOffRet) 8.
Proof.
  intros [Hpc Hc Hsp Hcl Hx]. pose proof (callback_words_u32 cb d) as Hu. fold ws in Hu.
  destruct cb_u64 as [Uc Ud].
  destruct (cb_block (sp s - 144) s cb d) as (s1 & R1 & S1 & X0 & X1 & X2 & X8 & L1 & L2);
    try done; try lia.
  destruct (seg_frun c ws Hu cb_range (sp s - 144) 144 [] (cb_save_words cb ++ cb_call_words cb d)
    ([kOpBLR .| u32 (8 << 5)] ++ cb_tail_words) (cb_il cb d) s s1) as (E1 & P1 & C1);
    [reflexivity|by apply decode_cb|done|by rewrite Hpc; cbn; lia|done|done|].
  change (zlen [] + zlen (cb_save_words cb ++ cb_call_words cb d)) with 32 in P1.
  change (length (cb_save_words cb ++ cb_call_words cb d)) with 32%nat in E1.
  pose proof (blr_frun c ws Hu cb_range (take 32 ws) (kOpBLR .| u32 (8 << 5)) cb_tail_words 8 s1
    eq_refl eq_refl C1 P1) as E2.
  change (get_x s1 8) with (xr s1 8) in E2. rewrite X8 in E2.
  change (c + 4 * (zlen (take 32 ws) + 1)) with (c + 132) in E2.
  eexists. split; [change 33%nat with (32 + 1)%nat; rewrite frun_app, E1; exact E2|].
  cbn [set_pc set_x pc sp xr]. rewrite S1. unfold kCbOffArgs, kCbOffFloats, kCbOffRet.
  split_and!; [by apply u64_id|done|exact X0|exact X1|exact X2|exact L1|exact L2|].
  intros s2 [Rp Rs _ _ Rc] Hv. cbn [set_pc set_x pc sp xr] in Rp, Rs. cbn in Rp.
  rewrite u64_id in Rp by (unfold is_u64; lia). rewrite S1 in Rs. rewrite Rs in *.
  destruct (cb_return (sp s - 144) s2) as (s3 & E3 & P3 & A3 & S3); try done; try lia.
  - by apply (placed_same c ws Hu cb_range s1).
  - exists s3. split_and!; [done|lia|done|done].
Qed.

End CallbackRun.

(** ** Stubs at a concrete address *)

Definition demo_at (ws : list Z) : state :=
  State (λ _, 7) (λ _, 9) 0x70000000 (false, false, false, false) 0x400000
    (place 0x400000 (words_bytes ws)).

(** The demo stack is clear of everything below [0x60000000]. *)
Lemma demo_clear lo len a n : 0x60000000 <= lo → 0 <= len → lo + len < 2 ^ 32 → 0 <= a →
  a + n <= 0x60000000 → clear_of lo len a n.
Proof.
  intros H1 H0 H2 H3 H4 i Hi. unfold outside, u64. rewrite (Z.mod_small (a + i)) by lia.
  rewrite <- (Z_mod_plus_full _ 1). rewrite Z.mod_small; lia.
Qed.

Lemma demo_placed ws : zlen ws < 2 ^ 16 → placed 0x400000 ws (demo_at ws).
Proof. intros Hl. apply code_at_place; [lia|]. rewrite words_bytes_length. lia. Qed.

Lemma demo_call_ready : ready 0x600000 0x600100 0x500000 0x600200 0x400000 2 1
  (demo_at (call_stub_words 0x600000 0x600100 0x500000 0x600200 2 1)).
Proof.
  split; cbn [pc sp xr demo_at]; [done|by apply demo_placed|lia| | | |intros r; unfold is_u64; lia];
    apply demo_clear; try lia; vm_compute; discriminate.
Qed.

Lemma native_call_stub_witness :
  ∃ s1, frun 18 (demo_at (call_stub_words 0x600000 0x600100 0x500000 0x600200 2 1)) = Some s1 ∧
    pc s1 = 0x500000 ∧ sp s1 = 0x70000000 - 32.
Proof.
  destruct (native_call_stub 0x600000 0x600100 0x500000 0x600200 0x400000 2 1
    ltac:(unfold is_u64; lia) ltac:(lia) ltac:(lia) _ demo_call_ready) as (s1 & E & P & S & _).
  - intros i Hi. change (0 <= i < 4 * 27) in Hi. unfold outside, u64.
    rewrite (Z.mod_small (0x400000 + i)) by lia. rewrite <- (Z_mod_plus_full _ 1).
    rewrite Z.mod_small; lia.
  - exists s1. split; [exact E|]. split; [exact P|exact S].
Defined.

Lemma demo_cb_ready : cb_ready 0x600000 0x500000 0x400000
  (demo_at (callback_words 0x600000 0x500000)).
Proof.
  split; cbn [pc sp xr demo_at]; [done|by apply demo_placed|lia| |intros r; unfold is_u64; lia].
  apply demo_clear; lia.
Qed.

Lemma callback_stub_run_witness :
  ∃ s1, frun 33 (demo_at (callback_words 0x600000 0x500000)) = Some s1 ∧ pc s1 = 0x500000 ∧
    xr s1 0 = 0x600000 ∧ load s1 (sp s1 + (kCbOffArgs + 8 * 0)) 8 = 7.
Proof.
  destruct (callback_stub_run 0x600000 0x500000 0x400000 ltac:(unfold is_u64; lia) ltac:(lia)
    _ demo_cb_ready) as (s1 & E & P & _ & X & _ & _ & L & _).
  exists s1. split; [exact E|]. split; [exact P|]. split; [exact X|]. exact (L 0 ltac:(lia)).
Defined.

End JsNativeRun.
