(* ===== verification/JsModule.v ===== *)
(** * Modules for scripts ([js_engine/src/js_module.cpp])

    [Module.findExportByName] over the dynamic linker, which is an interface,
    and [Module.getBaseAddress] over the lines of [/proc/self/maps] as [fgets]
    returns them. *)
From Stdlib Require Import (notations) String.
From stdpp Require Import gmap.
From S2P Require Import Prelude Bytes CNumber Arm64Machine Os MemoryAllocator JsValue JsPtr JsMemory.

Module JsModule.
Import JsValue JsPtr.

Section Module_.
Context (np_class_id : Z) (to_cstring : JSValue → option (list Z)).

(** The dynamic linker: a null handle or address is 0; [RTLD_DEFAULT] is
    [None]. *)
Context {D : Type}.
Context (dlopen : D → list Z → D * Z) (dlsym : D → option Z → list Z → Z) (dlclose : D → Z → D).

Definition js_find_export_by_name (h : Heap) (d : D) (argv : list JSValue) : Heap * D * JSValue :=
  match argv with
  | a0 :: a1 :: _ =>
      let module_name :=
        if JS_IsUndefined a0 then Some None else Some <$> JsMemory.JS_ToCString to_cstring a0 in
      match module_name, JsMemory.JS_ToCString to_cstring a1 with
      | Some module_name, Some symbol_name =>
          let '(d, handle, opened) :=
            match module_name with
            | Some ((_ :: _) as name) => let '(d, hd) := dlopen d name in (d, Some hd, true)
            | _ => (d, None, false)
            end in
          let null := match handle with Some hd => hd =? 0 | None => false end in
          let addr := if null then 0 else dlsym d handle symbol_name in
          let d := match handle with
                   | Some hd => if opened && negb null then dlclose d hd else d
                   | None => d
                   end in
          if addr =? 0 then (h, d, JNull)
          else let '(h, v) := js_ptr_new np_class_id h addr in (h, d, v)
      | _, _ => (h, d, JException)
      end
  | _ => (h, d, JException)
  end.

(** What the linker promises, with [refs] the reference count of a handle: a
    library stays loaded while its count is positive. *)
Record linker_ok (refs : D → Z → nat) : Prop := {
  lk_open d name d' hd : dlopen d name = (d', hd) → hd ≠ 0 →
    refs d' hd = S (refs d hd) ∧ ∀ k, k ≠ hd → refs d' k = refs d k;
  lk_fail d name d' : dlopen d name = (d', 0) → ∀ k, refs d' k = refs d k;
  lk_close d hd : refs (dlclose d hd) hd = pred (refs d hd) ∧
    ∀ k, k ≠ hd → refs (dlclose d hd) k = refs d k
}.

(** Every handle the search opens is closed again, on every path: the
    reference counts are those of before the call. A library that was not
    loaded is therefore unloaded when its symbol's address is returned. *)
Lemma find_export_refs refs h d argv : linker_ok refs →
  ∀ k, refs (snd (fst (js_find_export_by_name h d argv))) k = refs d k.
Proof.
  intros Hl k. unfold js_find_export_by_name.
  destruct argv as [|a0 [|a1 argv]]; [done|done|].
  destruct (if JS_IsUndefined a0 then _ else _) as [module_name|]; [|done].
  destruct (JsMemory.JS_ToCString to_cstring a1) as [sym|]; [|done].
  assert (∀ (d' : D) (addr : Z),
    snd (fst (if addr =? 0 then (h, d', JNull)
              else let '(h, v) := js_ptr_new np_class_id h addr in (h, d', v))) = d') as E.
  { intros d' addr. destruct (addr =? 0); [done|]. by destruct (js_ptr_new _ _ _). }
  destruct module_name as [[|c name]|]; [by rewrite E| |by rewrite E].
  destruct (dlopen d (c :: name)) as [d' hd] eqn:Eo. rewrite E. cbn [andb].
  destruct (Z.eqb_spec hd 0) as [->|Hh]; cbn [negb]; [by eapply lk_fail|].
  destruct (lk_open _ Hl _ _ _ _ Eo Hh) as [Ho Hk].
  destruct (lk_close _ Hl d' hd) as [Hc Hk']. destruct (decide (k = hd)) as [->|Hn].
  - by rewrite Hc, Ho.
  - by rewrite Hk', Hk.
Qed.

(** ** Base addresses *)

(** [path], up to the newline: from the first slash, else the first bracket. *)
Definition line_path (line : list Z) : option (list Z) :=
  let line := c_str line in
  i ← match index_of 47 line with Some i => Some i | None => index_of 91 line end;
  let path := drop i line in
  Some (match index_of 10 path with Some n => take n path | None => path end).

(** The path ends with the name, behind a slash or at its start. *)
Definition ends_with (path name : list Z) : bool :=
  let n := (length path - length name)%nat in
  (length name <=? length path)%nat && bool_decide (drop n path = name) &&
  ((n =? 0)%nat || match path !! pred n with Some c => c =? 47 | None => false end).

(** The loop over the lines; 0 when no line matches. *)
Fixpoint maps_loop (lines : list (list Z)) (name : list Z) : Z :=
  match lines with
  | [] => 0
  | line :: lines =>
      match line_path line with
      | None => maps_loop lines name
      | Some path =>
          if ends_with path name then
            match MemoryAllocator.scan_lx (c_str line) with
            | Some (start, _) => start
            | None => maps_loop lines name
            end
          else maps_loop lines name
      end
  end.

(** What successive calls of [fgets(line, 512, f)] return: each reads up to and
    including a newline, and at most 511 bytes. *)
Fixpoint fgets_lines (f line : list Z) : list (list Z) :=
  match f with
  | [] => match line with [] => [] | _ => [line] end
  | c :: f =>
      let line := line ++ [c] in
      if (c =? 10) || (length line =? 511)%nat then line :: fgets_lines f [] else fgets_lines f line
  end.

(** [maps] holds the bytes of [/proc/self/maps], or is [None] when the file
    cannot be opened. *)
Definition js_get_base_address (h : Heap) (maps : option (list Z)) (argv : list JSValue) :
    Heap * JSValue :=
  match argv with
  | [] => (h, JException)
  | a :: _ =>
      match JsMemory.JS_ToCString to_cstring a with
      | None => (h, JException)
      | Some name =>
          match maps with
          | None => (h, JNull)
          | Some f =>
              let base := maps_loop (fgets_lines f []) (c_str name) in
              if base =? 0 then (h, JNull) else js_ptr_new np_class_id h base
          end
      end
  end.

End Module_.

(** ** Lines of [/proc/self/maps] *)

Record mapping : Set := mkMapping {
  m_start : Z;
  (** from the dash to the padding before the path *)
  m_mid : list Z;
  m_path : list Z
}.

Definition maps_line (m : mapping) : list Z :=
  hex_digits 16 (m_start m) (45 :: m_mid m ++ m_path m ++ [10]).

(** The kernel maps nothing at address 0, escapes newlines in paths, and prints
    a path, a name in brackets or nothing. *)
Record wf_mapping (m : mapping) : Prop := {
  wm_start : 0 < m_start m < 2 ^ 64;
  wm_mid : Forall (λ c, c ≠ 0 ∧ c ≠ 47 ∧ c ≠ 91 ∧ c ≠ 10) (m_mid m);
  wm_path : Forall (λ c, c ≠ 0 ∧ c ≠ 10) (m_path m);
  wm_kind : m_path m = [] ∨ head (m_path m) = Some 47 ∨ (head (m_path m) = Some 91 ∧ 47 ∉ m_path m);
  wm_length : (length (maps_line m) < 512)%nat
}.

(** The mapping's path is [name], or a directory and [name]. *)
Definition path_named (name : list Z) (m : mapping) : Prop :=
  m_path m ≠ [] ∧ ∃ dir, m_path m = dir ++ name ∧ (dir = [] ∨ last dir = Some 47).

Lemma hex_digits_app fuel v tl : hex_digits fuel v tl = hex_digits fuel v [] ++ tl.
Proof.
  enough (∀ a, hex_digits fuel v (a ++ tl) = hex_digits fuel v a ++ tl) as E by apply (E []).
  revert v. induction fuel as [|fuel IH]; intros v a; cbn [hex_digits]; [done|].
  destruct (v / 16 =? 0); [done|]. apply (IH _ (_ :: a)).
Qed.

Lemma hex_digit_char c : is_digit 16 c = true →
  MemoryAllocator.hex_digit c = digit_value c ∧ MemoryAllocator.hex_digit c ≠ None.
Proof.
  unfold is_digit, digit_value, MemoryAllocator.hex_digit. case_cmp; cbn [andb]; try done; try lia.
Qed.

Lemma scan_digits_eq l tl acc : Forall (λ c, is_digit 16 c = true) l →
  MemoryAllocator.hex_digit (hd 0 tl) = None → tl ≠ [] →
  MemoryAllocator.scan_digits (l ++ tl) acc = (digits 16 l acc, tl).
Proof.
  intros Hl Ht Hn. revert acc. induction Hl as [|c l Hc Hl IH]; intros acc; cbn [app].
  - destruct tl as [|t tl]; [done|]. cbn in *. by rewrite Ht.
  - cbn [MemoryAllocator.scan_digits digits]. destruct (hex_digit_char c Hc) as [E _]. rewrite E.
    unfold is_digit in Hc. destruct (digit_value c) as [d|]; [|done]. rewrite Hc, IH.
    do 2 f_equal. lia.
Qed.

(** The bytes of a line before the path. *)
Definition line_head (m : mapping) : list Z := hex_digits 16 (m_start m) [] ++ 45 :: m_mid m.

Lemma maps_line_eq m : maps_line m = line_head m ++ m_path m ++ [10].
Proof. unfold maps_line, line_head. by rewrite hex_digits_app, <- app_assoc. Qed.

Lemma hex_digits_plain v c : 0 <= v → c ∈ hex_digits 16 v [] →
  c ≠ 0 ∧ c ≠ 47 ∧ c ≠ 91 ∧ c ≠ 10.
Proof.
  intros Hv Hc. pose proof (hex_digits_Forall 16 v [] Hv ltac:(constructor)) as Hd.
  rewrite Forall_forall in Hd. specialize (Hd c Hc).
  revert Hd. unfold is_digit, digit_value. case_cmp; cbn [andb]; try done; lia.
Qed.

Lemma line_head_plain m : wf_mapping m →
  Forall (λ c, c ≠ 0 ∧ c ≠ 47 ∧ c ≠ 91 ∧ c ≠ 10) (line_head m).
Proof.
  intros [Hs Hm _ _ _]. unfold line_head. rewrite Forall_app, Forall_cons.
  split; [|split; [lia|done]]. rewrite Forall_forall. intros c Hc.
  apply hex_digits_plain in Hc; [done|lia].
Qed.

Lemma plain_not_in (l : list Z) c : Forall (λ c, c ≠ 0 ∧ c ≠ 47 ∧ c ≠ 91 ∧ c ≠ 10) l →
  c = 0 ∨ c = 47 ∨ c = 91 ∨ c = 10 → c ∉ l.
Proof. intros Hl Hc Hi. rewrite Forall_forall in Hl. specialize (Hl c Hi). intuition. Qed.

Lemma maps_line_c_str m : wf_mapping m → c_str (maps_line m) = maps_line m.
Proof.
  intros Hm. apply c_str_id. rewrite maps_line_eq, !Forall_app. split_and!.
  - eapply Forall_impl; [by apply line_head_plain|]. by intros c [? _].
  - eapply Forall_impl; [apply (wm_path m Hm)|]. by intros c [? _].
  - by repeat constructor.
Qed.

(** A number that starts with a digit and is not prefixed is read as it is. *)
Lemma scan_lx_plain c l : is_digit 16 c = true →
  match l with x :: _ => x ≠ 120 ∧ x ≠ 88 | [] => True end →
  let '(v, rest) := MemoryAllocator.scan_digits (c :: l) 0 in
  v < 2 ^ 64 → MemoryAllocator.scan_lx (c :: l) = Some (v, rest).
Proof.
  intros Hc Hx. destruct (MemoryAllocator.scan_digits (c :: l) 0) as [v rest] eqn:Es. intros Hv.
  assert (48 <= c <= 57 ∨ 97 <= c <= 102 ∨ 65 <= c <= 70) as Hr.
  { revert Hc. unfold is_digit, digit_value. case_cmp; cbn [andb]; try done; lia. }
  destruct (hex_digit_char c Hc) as [_ Hh].
  destruct (MemoryAllocator.hex_digit c) as [h|] eqn:Eh; [|done].
  assert (MemoryAllocator.skip_ws (c :: l) = c :: l) as Ew.
  { cbn [MemoryAllocator.skip_ws]. unfold MemoryAllocator.is_space.
    case_cmp; cbn [andb orb]; try lia; done. }
  unfold MemoryAllocator.scan_lx. rewrite Ew.
  assert (match c :: l with 45 :: l' => (true, l') | 43 :: l' => (false, l') | _ => (false, c :: l) end
          = (false, c :: l)) as ->.
  { destruct c as [|c|c]; try done. do 7 (destruct c as [c|c|]; try done); lia. }
  match goal with |- match ?e with [] => _ | _ => _ end = _ => assert (e = c :: l) as -> end.
  { destruct l as [|x [|d l]];
      [destruct c as [|c|c]; try done; do 7 (destruct c as [c|c|]; try done)..|].
    destruct Hx as [Hx1 Hx2]. apply Z.eqb_neq in Hx1, Hx2. rewrite Hx1, Hx2. cbn [orb andb].
    destruct c as [|c|c]; try done; do 7 (destruct c as [c|c|]; try done). }
  rewrite Eh, Es. by destruct (Z.leb_spec (2 ^ 64) v); [lia|].
Qed.

(** The start address is scanned back. *)
Lemma scan_maps_line m : wf_mapping m →
  ∃ r, MemoryAllocator.scan_lx (maps_line m) = Some (m_start m, r).
Proof.
  intros Hm. pose proof (wm_start m Hm) as Hs. unfold maps_line. rewrite hex_digits_app.
  set (tl := 45 :: m_mid m ++ m_path m ++ [10]).
  pose proof (hex_digits_Forall 16 (m_start m) [] ltac:(lia) ltac:(constructor)) as Hd.
  destruct (digits_hex 16 (m_start m) [] 0) as (n & _ & Ed); [cbn; lia|lia|].
  destruct (hex_digits 16 (m_start m) []) as [|d ds] eqn:Eds;
    [by apply (hex_digits_cons 16 (m_start m) []) in Eds; [|left; lia]|].
  pose proof (scan_digits_eq (d :: ds) tl 0 Hd eq_refl ltac:(done)) as Hsc.
  apply Forall_cons in Hd as [Hd Hds]. exists tl. rewrite <- app_comm_cons in Hsc |- *.
  pose proof (scan_lx_plain d (ds ++ tl) Hd) as Hp. rewrite Hsc, Ed in Hp.
  cbn [digits] in Hp. rewrite Z.mul_0_l, Z.add_0_l in Hp. apply Hp; [|lia].
  destruct Hds as [|x ds Hx]; [done|]. by split; intros ->.
Qed.

(** [line_path] finds the path. *)
Lemma line_path_maps_line m : wf_mapping m →
  line_path (maps_line m) = match m_path m with [] => None | p => Some p end.
Proof.
  intros Hm. unfold line_path. rewrite maps_line_c_str by done. rewrite maps_line_eq.
  pose proof (line_head_plain m Hm) as Hh. pose proof (wm_path m Hm) as Hp.
  assert (∀ c p, m_path m = c :: p → c = 47 ∨ c = 91 →
    (let path := drop (length (line_head m)) (line_head m ++ m_path m ++ [10]) in
     match index_of 10 path with Some n => take n path | None => path end) = m_path m) as Hcut.
  { intros c p _ _. cbn zeta. rewrite drop_app_length, index_of_app; [apply take_app_length|].
    intros Hi. rewrite Forall_forall in Hp. by destruct (Hp 10 Hi). }
  destruct (wm_kind m Hm) as [E|[E|[E Hn]]].
  - rewrite E. cbn [app]. rewrite !(proj2 (index_of_None _ _)); [done|..];
      (intros [Hi|Hi]%elem_of_app; [by revert Hi; apply plain_not_in; auto|]);
      apply list_elem_of_singleton in Hi; lia.
  - destruct (m_path m) as [|c p] eqn:Ep; [done|]. injection E as ->.
    rewrite <- app_comm_cons, index_of_app by (apply plain_not_in; auto).
    cbn [mbind option_bind]. f_equal. apply (Hcut 47 p); auto.
  - destruct (m_path m) as [|c p] eqn:Ep; [done|]. injection E as ->.
    rewrite (proj2 (index_of_None 47 _)).
    + rewrite <- app_comm_cons, index_of_app by (apply plain_not_in; auto).
      cbn [mbind option_bind]. f_equal. apply (Hcut 91 p); auto.
    + rewrite !elem_of_app, list_elem_of_singleton. intros [Hi|[Hi|Hi]]; [|done|lia].
      by revert Hi; apply plain_not_in; auto.
Qed.

(** [ends_with] is the intended test. *)
Lemma ends_with_spec path name :
  ends_with path name = true ↔ ∃ dir, path = dir ++ name ∧ (dir = [] ∨ last dir = Some 47).
Proof.
  unfold ends_with. set (n := (length path - length name)%nat).
  rewrite !andb_true_iff, orb_true_iff, bool_decide_eq_true, Nat.leb_le, Nat.eqb_eq. split.
  - intros [[Hl Hd] Hc]. exists (take n path). split; [by rewrite <- Hd, take_drop|].
    destruct (decide (n = 0%nat)) as [->|Hn]; [by left|]. destruct Hc as [?|Hc]; [done|]. right.
    rewrite last_lookup, length_take.
    destruct (path !! pred n) as [c|] eqn:E; [|done]. apply Z.eqb_eq in Hc as ->.
    pose proof (lookup_lt_Some _ _ _ E).
    replace (pred (n `min` length path)) with (pred n) by lia.
    by rewrite lookup_take_lt by lia.
  - intros (dir & -> & Hdir).
    assert (n = length dir) as -> by (unfold n; rewrite length_app; lia).
    rewrite drop_app_length, length_app. split_and!; [lia|done|].
    destruct Hdir as [->|Hl]; [by left|]. right. rewrite last_lookup in Hl.
    by rewrite lookup_app_l, Hl by (destruct dir; cbn in *; [done|lia]).
Qed.

(** A line that fits the buffer is read whole. *)
Lemma fgets_lines_line l line f : 10 ∉ l → (length line + length l < 511)%nat →
  fgets_lines (l ++ 10 :: f) line = (line ++ l ++ [10]) :: fgets_lines f [].
Proof.
  revert line. induction l as [|c l IH]; intros line Hn Hl; cbn [app fgets_lines]; [done|].
  rewrite not_elem_of_cons in Hn. destruct Hn as [Hc Hn]. cbn [length] in Hl.
  rewrite (proj2 (Z.eqb_neq c 10)), length_app by congruence. cbn [orb length].
  rewrite (proj2 (Nat.eqb_neq _ _)) by lia. rewrite IH by (rewrite ?length_app; cbn; auto; lia).
  by rewrite <- app_assoc.
Qed.

Lemma fgets_lines_maps ms : Forall wf_mapping ms →
  fgets_lines (mjoin (maps_line <$> ms)) [] = maps_line <$> ms.
Proof.
  induction 1 as [|m ms Hm _ IH]; [done|]. rewrite fmap_cons.
  change (mjoin (maps_line m :: (maps_line <$> ms)))
    with (maps_line m ++ mjoin (maps_line <$> ms)).
  pose proof (wm_length m Hm) as Hl. rewrite maps_line_eq in Hl |- *.
  rewrite !length_app in Hl. cbn in Hl.
  rewrite <- !app_assoc, app_assoc. cbn [app].
  rewrite fgets_lines_line, IH; [by rewrite <- app_assoc| |rewrite length_app; cbn; lia].
  intros [Hi|Hi]%elem_of_app.
  - revert Hi. apply plain_not_in; [by apply line_head_plain|auto].
  - pose proof (wm_path m Hm) as Hp. rewrite Forall_forall in Hp. by destruct (Hp 10 Hi).
Qed.

(** The test the loop makes on a line. *)
Definition path_namedb (name : list Z) (m : mapping) : bool :=
  match m_path m with [] => false | p => ends_with p name end.

Lemma path_namedb_spec name m : path_namedb name m = true ↔ path_named name m.
Proof.
  unfold path_namedb, path_named. destruct (m_path m) as [|c p]; [by split; [|intros [? _]]|].
  rewrite ends_with_spec. by split; [|intros [_ ?]].
Qed.

Lemma maps_loop_cons m ms name : wf_mapping m →
  maps_loop (maps_line m :: ms) name = if path_namedb name m then m_start m else maps_loop ms name.
Proof.
  intros Hm. cbn [maps_loop]. rewrite line_path_maps_line by done. unfold path_namedb.
  destruct (m_path m) as [|c p]; [done|]. destruct (ends_with _ _); [|done].
  rewrite maps_line_c_str by done. by destruct (scan_maps_line m Hm) as [r ->].
Qed.

Lemma maps_loop_skip ms l name : Forall wf_mapping ms → Forall (λ m, ¬ path_named name m) ms →
  maps_loop ((maps_line <$> ms) ++ l) name = maps_loop l name.
Proof.
  induction 1 as [|m ms Hm _ IH]; intros Hn; [done|]. apply Forall_cons in Hn as [Hn Hns].
  rewrite fmap_cons, <- app_comm_cons, maps_loop_cons, IH by done.
  rewrite <- path_namedb_spec in Hn. by destruct (path_namedb name m).
Qed.

(** [Module.getBaseAddress] returns a pointer to the start of the first
    mapping whose path is the given name or ends with a slash and that name,
    and null when there is none: the lines of [/proc/self/maps] are read back
    whole, the path is found in each, and the address is scanned. *)
Theorem base_address_first np_class_id to_cstring h ms a s argv :
  Forall wf_mapping ms →
  JsMemory.JS_ToCString to_cstring a = Some s →
  let r := js_get_base_address np_class_id to_cstring h (Some (mjoin (maps_line <$> ms))) (a :: argv) in
  (Forall (λ m, ¬ path_named (c_str s) m) ms ∧ r = (h, JNull)) ∨
  (∃ ms1 m ms2, ms = ms1 ++ m :: ms2 ∧ Forall (λ m, ¬ path_named (c_str s) m) ms1 ∧
     path_named (c_str s) m ∧ r = js_ptr_new np_class_id h (m_start m)).
Proof.
  intros Hw Hs r. unfold r, js_get_base_address. rewrite Hs, fgets_lines_maps by done.
  destruct (list_find (λ m, path_namedb (c_str s) m = true) ms) as [[i m]|] eqn:Ef.
  - right. apply list_find_Some in Ef as (Hi & Hm & Hb). exists (take i ms), m, (drop (S i) ms).
    assert (Forall (λ m, ¬ path_named (c_str s) m) (take i ms)) as Hskip.
    { apply Forall_lookup_2. intros j y [Hj ?]%lookup_take_Some. rewrite <- path_namedb_spec.
      by eapply Hb. }
    rewrite path_namedb_spec in Hm. split_and!; [by rewrite take_drop_middle|done|done|].
    rewrite <- (take_drop_middle ms i m) in Hw |- * by done.
    rewrite Forall_app, Forall_cons in Hw. destruct Hw as (Hw1 & Hwm & _).
    rewrite fmap_app, maps_loop_skip by done. rewrite fmap_cons, maps_loop_cons by done.
    rewrite <- path_namedb_spec in Hm. rewrite Hm. pose proof (wm_start m Hwm).
    by rewrite (proj2 (Z.eqb_neq _ _)) by lia.
  - left. apply list_find_None in Ef.
    assert (Forall (λ m, ¬ path_named (c_str s) m) ms) as Hn
      by (eapply Forall_impl; [exact Ef|]; intros m Hm Hm'; apply Hm, path_namedb_spec, Hm').
    split; [done|]. pose proof (maps_loop_skip ms [] (c_str s) Hw Hn) as E.
    rewrite app_nil_r in E. by rewrite E.
Qed.

Definition demo_maps : list mapping :=
  [mkMapping 0x12c00000 (lit "52c00000 rw-p 00000000 00:00 0 ") (lit "[anon:dalvik-main]");
   mkMapping 0x7a00001000 (lit "7a00009000 r-xp 00001000 fd:00 77 ") (lit "/system/lib64/xlibc.so");
   mkMapping 0x7b12345000 (lit "7b12346000 r--p 00000000 fd:00 78 ") (lit "/system/lib64/libc.so");
   mkMapping 0x7b12346000 (lit "7b12347000 r-xp 00001000 fd:00 78 ") (lit "/system/lib64/libc.so")].

Lemma demo_maps_wf : Forall wf_mapping demo_maps.
Proof.
  assert (∀ m, bool_decide (0 < m_start m < 2 ^ 64 ∧
      Forall (λ c, c ≠ 0 ∧ c ≠ 47 ∧ c ≠ 91 ∧ c ≠ 10) (m_mid m) ∧
      Forall (λ c, c ≠ 0 ∧ c ≠ 10) (m_path m) ∧
      (m_path m = [] ∨ head (m_path m) = Some 47 ∨ (head (m_path m) = Some 91 ∧ 47 ∉ m_path m)) ∧
      (length (maps_line m) < 512)%nat) = true → wf_mapping m) as Hw.
  { intros m (? & ? & ? & ? & ?)%bool_decide_eq_true. by constructor. }
  unfold demo_maps. rewrite !Forall_cons. split_and!; [apply Hw; vm_compute; reflexivity..|].
  apply Forall_nil_2.
Qed.

(** The library asked for, not one whose name ends alike. *)
Lemma base_address_first_witness :
  let r := js_get_base_address 7 (λ _, None) demo_heap
             (Some (mjoin (maps_line <$> demo_maps))) [JString (lit "libc.so")] in
  (∃ m, m ∈ demo_maps ∧ path_named (lit "libc.so") m ∧ r = js_ptr_new 7 demo_heap (m_start m)) ∧
  r = js_ptr_new 7 demo_heap 0x7b12345000.
Proof.
  split; [|vm_compute; reflexivity].
  destruct (base_address_first 7 (λ _, None) demo_heap demo_maps
    (JString (lit "libc.so")) (lit "libc.so") [] demo_maps_wf eq_refl)
    as [[_ E]|(ms1 & m & ms2 & Hm & _ & Hn & E)]; [by vm_compute in E|].
  exists m. split; [|by split]. rewrite Hm. apply elem_of_app. right. by left.
Defined.

End JsModule.
