(* ===== verification/JsJava.v ===== *)
(** * Java for scripts ([js_engine/src/js_java_bridge.cpp])

    The object [Java] of scripts over the Java Native Interface. The state is
    what the interface keeps for a thread: the number of local and global
    references and whether an exception is pending. An operation is [None]
    where the interface defines no result: a call other than the clean-up
    functions while an exception is pending, or a call through a method
    identifier that is null or not one of the object's class. *)
From Stdlib Require Import (notations) String.
From stdpp Require Import list.
From S2P Require Import Prelude Bytes JsValue JsPtr JsMemory.

Module JsJava.
Import JsValue.

(** ** The Java Native Interface *)

(** The virtual machine: classes are their names. *)
Class JVM : Type := {
  has_jvm : bool;
  attach_ok : bool;
  class_exists : list Z → bool;
  method_id : list Z → list Z → list Z → option Z;
  static_method_id : list Z → list Z → list Z → option Z;
  boolean_result : list Z → Z → bool;
  declared_methods : list Z → list (list Z * Z)
}.

(** A recorded hook. *)
Record JavaMethodHook : Set := mkHook {
  hook_callback : JSValue;
  hook_methodId : Z;
  isHooked : bool
}.

(** [dups] and [frees] are the references to values taken and given up. *)
Record Bridge : Set := mkB {
  locals : nat;
  globals : nat;
  pending : bool;
  g_java_hooks : list JavaMethodHook;
  dups : list JSValue;
  frees : list JSValue
}.

Definition M (A : Type) : Type := Bridge → option (A * Bridge).

Definition ret {A} (x : A) : M A := λ b, Some (x, b).

Definition bind {A B} (m : M A) (k : A → M B) : M B := λ b, '(x, b) ← m b; k x b.

Declare Scope jni_scope.
Notation "x <<- m ;; k" := (bind m (λ x, k)) (at level 90, m at level 60, right associativity) : jni_scope.
Notation "m ;;; k" := (bind m (λ _ : unit, k)) (at level 90, right associativity) : jni_scope.
Local Open Scope jni_scope.

Definition modify (f : Bridge → Bridge) : M unit := λ b, Some (tt, f b).

Definition add_local (n : nat) (b : Bridge) : Bridge :=
  mkB (locals b + n) (globals b) (pending b) (g_java_hooks b) (dups b) (frees b).
Definition set_pending (p : bool) (b : Bridge) : Bridge :=
  mkB (locals b) (globals b) p (g_java_hooks b) (dups b) (frees b).

(** No exception may be pending. *)
Definition no_exception : M unit := λ b, if pending b then None else Some (tt, b).

Section Jni.
Context `{JVM}.

Definition FindClass (name : list Z) : M (option (list Z)) :=
  no_exception ;;;
  if class_exists name then modify (add_local 1) ;;; ret (Some name)
  else modify (set_pending true) ;;; ret None.

Definition ExceptionClear : M unit := modify (set_pending false).

Definition DeleteLocalRef : M unit :=
  modify (λ b, mkB (pred (locals b)) (globals b) (pending b) (g_java_hooks b) (dups b) (frees b)).

Definition NewGlobalRef (clazz : list Z) : M (list Z) :=
  no_exception ;;;
  modify (λ b, mkB (locals b) (S (globals b)) (pending b) (g_java_hooks b) (dups b) (frees b)) ;;;
  ret clazz.

(** A lookup that fails leaves a [NoSuchMethodError]. *)
Definition lookup_id (id : option Z) : M (option Z) :=
  no_exception ;;;
  match id with
  | Some i => ret (Some i)
  | None => modify (set_pending true) ;;; ret None
  end.

Definition GetMethodID (clazz : option (list Z)) (name sig : list Z) : M (option Z) :=
  match clazz with
  | Some c => lookup_id (method_id c name sig)
  | None => λ _, None
  end.

Definition GetStaticMethodID (clazz name sig : list Z) : M (option Z) := lookup_id (static_method_id clazz name sig).

Definition CallStaticBooleanMethod (clazz : list Z) (id : Z) : M bool :=
  no_exception ;;; ret (boolean_result clazz id).

Definition CLASS : list Z := lit "java/lang/Class".
Definition METHOD : list Z := lit "java/lang/reflect/Method".
Definition MEMBER : list Z := lit "java/lang/reflect/Member".
Definition get_declared : list Z := lit "getDeclaredMethods".
Definition methods_sig : list Z := lit "()[Ljava/lang/reflect/Method;".
Definition get_name : list Z := lit "getName".
Definition string_sig : list Z := lit "()Ljava/lang/String;".

(** A class object calls a method of [java.lang.Class]. *)
Definition call_getDeclaredMethods (clazz : list Z) (id : option Z) : M (list (list Z * Z)) :=
  no_exception ;;;
  λ b, match id with
       | Some i =>
           if bool_decide (method_id CLASS get_declared methods_sig = Some i)
           then Some (declared_methods clazz, add_local 1 b) else None
       | None => None
       end.

(** The name of a method object. *)
Definition call_getName (method : list Z * Z) (id : option Z) : M (list Z) :=
  no_exception ;;;
  λ b, match id with
       | Some i =>
           if bool_decide (method_id MEMBER get_name string_sig = Some i)
           then Some (fst method, add_local 1 b) else None
       | None => None
       end.

(** ** The bridge *)

Definition get_jni_env : bool := has_jvm && attach_ok.

Context (to_cstring : JSValue → option (list Z)).

Definition JS_ToCString (v : JSValue) : option (list Z) := c_str <$> JsMemory.JS_ToCString to_cstring v.

(** [run] is the call of the function, which may use the bridge itself. *)
Definition js_java_perform (is_function : JSValue → bool) (run : JSValue → M JSValue) (argv : list JSValue) : M JSValue :=
  match argv with
  | f :: _ =>
      if negb (is_function f) then ret JException
      else if negb get_jni_env then ret JException
      else
        r <<- run f ;;
        if JS_IsException r then ret JException else ret JUndefined
  | [] => ret JException
  end.

Definition jni_name (name : list Z) : list Z := (λ c, if c =? 46 then 47 else c) <$> name.

(** [object] is the new wrapper. *)
Definition js_java_use (object : JSValue) (argv : list JSValue) : M JSValue :=
  match argv with
  | a :: _ =>
      match JS_ToCString a with
      | None => ret JException
      | Some className =>
          if negb get_jni_env then ret JException
          else
            clazz <<- FindClass (jni_name className) ;;
            match clazz with
            | None => ExceptionClear ;;; ret JException
            | Some clazz =>
                globalClazz <<- NewGlobalRef clazz ;;
                DeleteLocalRef ;;;
                ret object
            end
      end
  | [] => ret JException
  end.

(** The search for the first method of the name. *)
Fixpoint find_method (methods : list (list Z * Z)) (mName : list Z) (getNameId : option Z) : M (option Z) :=
  match methods with
  | [] => ret None
  | method :: methods =>
      modify (add_local 1) ;;;
      name <<- call_getName method getNameId ;;
      DeleteLocalRef ;;;
      if bool_decide (c_str name = mName) then
        methodClazz <<- FindClass METHOD ;;
        getMethodId <<- GetMethodID methodClazz get_name string_sig ;;
        no_exception ;;;
        DeleteLocalRef ;;;
        ret (Some (snd method))
      else DeleteLocalRef ;;; find_method methods mName getNameId
  end.

Definition push_hook (hook : JavaMethodHook) : M unit :=
  modify (λ b, mkB (locals b) (globals b) (pending b) (g_java_hooks b ++ [hook]) (dups b) (frees b)).

Definition JS_DupValue (v : JSValue) : M JSValue :=
  modify (λ b, mkB (locals b) (globals b) (pending b) (g_java_hooks b) (dups b ++ [v]) (frees b)) ;;; ret v.

(** [object id] is the result, with the property [methodId]. *)
Definition js_java_hook_method (object : Z → JSValue) (argv : list JSValue) : M JSValue :=
  match argv with
  | a0 :: a1 :: _ :: callback :: _ =>
      if negb get_jni_env then ret JException
      else
        match JS_ToCString a0, JS_ToCString a1 with
        | Some className, Some methodName =>
            hbClass <<- FindClass (lit "com/io/hook/HookBridge") ;;
            match hbClass with
            | None => ExceptionClear ;;; ret JException
            | Some hbClass =>
                isInitId <<- GetStaticMethodID hbClass (lit "isInitialized") (lit "()Z") ;;
                init <<- match isInitId with Some i => CallStaticBooleanMethod hbClass i | None => ret false end ;;
                if negb init then ret JException
                else
                  targetClass <<- FindClass (jni_name className) ;;
                  match targetClass with
                  | None => ExceptionClear ;;; ret JException
                  | Some targetClass =>
                      methodClass <<- FindClass METHOD ;;
                      memberClass <<- FindClass MEMBER ;;
                      getDeclaredMethodsId <<- GetMethodID (Some targetClass) get_declared methods_sig ;;
                      getNameId <<- GetMethodID memberClass get_name string_sig ;;
                      methods <<- call_getDeclaredMethods targetClass getDeclaredMethodsId ;;
                      targetMethod <<- find_method methods methodName getNameId ;;
                      DeleteLocalRef ;;;
                      match targetMethod with
                      | None => ret JException
                      | Some id =>
                          if id =? 0 then ret JException
                          else
                            cb <<- JS_DupValue callback ;;
                            push_hook (mkHook cb id false) ;;;
                            ret (object id)
                      end
                  end
            end
        | _, _ => ret JException
        end
  | _ => ret JException
  end.

Definition js_java_invoke_original (argv : list JSValue) : M JSValue :=
  if zlen argv <? 3 then ret JException else ret JUndefined.

(** The class of a hook is never set, so that there is no reference to delete;
    no class of the engine has this finalizer. *)
Definition java_method_hook_finalize (hook : option JavaMethodHook) : M unit :=
  match hook with
  | Some h => modify (λ b, mkB (locals b) (globals b) (pending b) (g_java_hooks b) (dups b) (frees b ++ [hook_callback h]))
  | None => ret tt
  end.

Definition js_java_bridge_cleanup (has_context : bool) : M unit :=
  modify (λ b, mkB (locals b) (globals b) (pending b) [] (dups b)
                   (if has_context then frees b ++ (hook_callback <$> g_java_hooks b) else frees b)).

(** ** What the bridge keeps *)

(** Calls of scripts, and the clean-up. *)
Inductive call : Set :=
| Use (argv : list JSValue)
| HookMethod (argv : list JSValue)
| InvokeOriginal (argv : list JSValue)
| Cleanup (has_context : bool).

Definition run_call (object : Z → JSValue) (c : call) : M JSValue :=
  match c with
  | Use argv => js_java_use (object 0) argv
  | HookMethod argv => js_java_hook_method object argv
  | InvokeOriginal argv => js_java_invoke_original argv
  | Cleanup ctx => js_java_bridge_cleanup ctx ;;; ret JUndefined
  end.

(** The callbacks held are those of the recorded hooks, and no hook is
    installed. *)
Record bridge_ok (b : Bridge) : Prop := {
  bk_refs : dups b = frees b ++ (hook_callback <$> g_java_hooks b);
  bk_idle : Forall (λ h, isHooked h = false) (g_java_hooks b)
}.

(** A computation that preserves a relation between states. *)
Definition keeps {A} (R : Bridge → Bridge → Prop) (m : M A) : Prop := ∀ b x b', m b = Some (x, b') → R b b'.

Lemma keeps_ret {A} R (x : A) : (∀ b, R b b) → keeps R (ret x).
Proof. intros HR b y b' [= <- <-]. apply HR. Qed.

Lemma keeps_bind {A B} R (m : M A) (k : A → M B) : (∀ a b c, R a b → R b c → R a c) →
  keeps R m → (∀ x, keeps R (k x)) → keeps R (bind m k).
Proof.
  intros Ht Hm Hk b y b' E. unfold bind in E. destruct (m b) as [[x b1]|] eqn:Em; [|done].
  eapply Ht; [by eapply Hm|by eapply Hk].
Qed.

Lemma keeps_modify R f : (∀ b, R b (f b)) → keeps R (modify f).
Proof. intros HR b y b' [= <- <-]. apply HR. Qed.

Lemma keeps_no_exception R : (∀ b, R b b) → keeps R no_exception.
Proof. intros HR b y b'. unfold no_exception. destruct (pending b); [done|]. intros [= <- <-]. apply HR. Qed.

(** New hooks hold their callbacks; global references are not given up. *)
Definition extends (b b' : Bridge) : Prop :=
  ∃ hs, g_java_hooks b' = g_java_hooks b ++ hs ∧ dups b' = dups b ++ (hook_callback <$> hs) ∧ frees b' = frees b ∧
    Forall (λ h, isHooked h = false) hs ∧ (globals b <= globals b')%nat.

Lemma extends_refl b : extends b b.
Proof. exists []. cbn. rewrite !app_nil_r. by repeat constructor. Qed.

Lemma extends_trans a b c : extends a b → extends b c → extends a c.
Proof.
  intros (h1 & E1 & D1 & F1 & I1 & G1) (h2 & E2 & D2 & F2 & I2 & G2). exists (h1 ++ h2).
  rewrite E2, D2, F2, E1, D1, F1, fmap_app, !app_assoc. split_and!; [done..|by apply Forall_app|lia].
Qed.

(** A state with the same hooks and values. *)
Lemma extends_same b b' : g_java_hooks b' = g_java_hooks b → dups b' = dups b → frees b' = frees b →
  (globals b <= globals b')%nat → extends b b'.
Proof. intros E1 E2 E3 E4. exists []. cbn. rewrite !app_nil_r. by repeat constructor. Qed.

Lemma record_keeps cb id (v : JSValue) : keeps extends (c <<- JS_DupValue cb ;; push_hook (mkHook c id false) ;;; ret v).
Proof. intros b x b' [= <- <-]. exists [mkHook cb id false]. cbn. by repeat constructor. Qed.

Lemma getName_keeps m id : keeps extends (call_getName m id).
Proof.
  unfold call_getName. apply keeps_bind; [exact extends_trans|apply keeps_no_exception, extends_refl|].
  intros _ b x b'. destruct id; [|done]. destruct (bool_decide _); [|done]. intros [= <- <-]. by apply extends_same.
Qed.

Lemma getDeclaredMethods_keeps c id : keeps extends (call_getDeclaredMethods c id).
Proof.
  unfold call_getDeclaredMethods. apply keeps_bind; [exact extends_trans|apply keeps_no_exception, extends_refl|].
  intros _ b x b'. destruct id; [|done]. destruct (bool_decide _); [|done]. intros [= <- <-]. by apply extends_same.
Qed.

(** The calls of the interface do not touch the hooks. *)
Ltac keeps_step :=
  first
    [ assumption | apply getName_keeps | apply getDeclaredMethods_keeps
    | apply keeps_ret, extends_refl
    | apply keeps_no_exception, extends_refl
    | apply record_keeps
    | apply keeps_bind; [exact extends_trans| |intros ?]
    | apply keeps_modify; intros ?; apply extends_same; cbn; (reflexivity || lia)
    | intros ? ? ? ?; discriminate
    | match goal with |- keeps _ (match ?x with _ => _ end) => destruct x end ].

Ltac keeps := unfold FindClass, ExceptionClear, DeleteLocalRef, NewGlobalRef, GetMethodID, GetStaticMethodID,
  CallStaticBooleanMethod, lookup_id, push_hook; repeat keeps_step.

Lemma find_method_keeps methods mName id : keeps extends (find_method methods mName id).
Proof.
  induction methods as [|m methods IH]; cbn [find_method]; keeps.
Qed.

Lemma use_keeps object argv : keeps extends (js_java_use object argv).
Proof. unfold js_java_use. keeps. Qed.

Lemma hook_method_keeps object argv : keeps extends (js_java_hook_method object argv).
Proof.
  unfold js_java_hook_method. keeps. apply find_method_keeps.
Qed.

(** Whatever scripts call, in any order, the references to callbacks that the
    bridge has taken are those that it has given up and those of the recorded
    hooks, and no recorded hook is ever installed; a clean-up with a context
    gives all of them up. *)
Lemma run_call_ok object c b x b' : run_call object c b = Some (x, b') → bridge_ok b → c ≠ Cleanup false → bridge_ok b'.
Proof.
  intros E [Hr Hi] Hc. assert (extends b b' → bridge_ok b') as Hext.
  { intros (hs & E1 & D1 & F1 & I1 & _). constructor.
    - by rewrite D1, F1, E1, Hr, fmap_app, app_assoc.
    - rewrite E1. by apply Forall_app. }
  destruct c as [argv|argv|argv|[]]; cbn [run_call] in E; [| | | |done].
  - apply Hext. by eapply use_keeps.
  - apply Hext. by eapply hook_method_keeps.
  - apply Hext. unfold js_java_invoke_original in E. destruct (_ <? _); injection E as <- <-; apply extends_refl.
  - injection E as <- <-. constructor; cbn; [by rewrite app_nil_r|constructor].
Qed.

Lemma cleanup_releases b : bridge_ok b →
  ∃ b', js_java_bridge_cleanup true b = Some (tt, b') ∧ dups b' = frees b' ∧ g_java_hooks b' = [].
Proof. intros [Hr _]. eexists. split; [reflexivity|]. by split. Qed.

(** ** [Java.hookMethod] *)

Lemma pending_local k b : pending (add_local k b) = pending b.
Proof. done. Qed.

Section Laws.
(** The classes of reflection exist, and only a class object's own method
    lists its methods: identifiers of other classes are others. *)
Context (Hmethod : class_exists METHOD = true) (Hmember : class_exists MEMBER = true).
Context (Hids : ∀ c i, c ≠ CLASS → method_id c get_declared methods_sig = Some i → method_id CLASS get_declared methods_sig ≠ Some i).

(** The method is looked up in the target class and not in [java.lang.Class]:
    for any other target a call records no hook. It ends in an exception, or,
    once the target class was found, in an undefined call. *)
Lemma hook_method_outcome object a0 a1 a2 cb argv n b : pending b = false →
  JS_ToCString a0 = Some n → jni_name n ≠ CLASS →
  match js_java_hook_method object (a0 :: a1 :: a2 :: cb :: argv) b with
  | Some (v, b') => v = JException ∧ g_java_hooks b' = g_java_hooks b
  | None => class_exists (jni_name n) = true
  end.
Proof using All.
  intros Hp E0 Hn. unfold js_java_hook_method. destruct (negb get_jni_env); [by split|]. rewrite E0.
  destruct (JS_ToCString a1) as [mn|]; [|by split].
  unfold bind, FindClass, GetMethodID, GetStaticMethodID, lookup_id, CallStaticBooleanMethod, ExceptionClear, call_getDeclaredMethods,
    bind, no_exception, modify, ret. rewrite Hp, Hmethod, Hmember. cbn [mbind option_bind].
  destruct (class_exists (lit "com/io/hook/HookBridge")); cbn [mbind option_bind]; [|by split].
  rewrite (pending_local 1), Hp. destruct (static_method_id _ _ _) as [i|]; cbn [mbind option_bind]; [|by split].
  rewrite (pending_local 1), Hp. cbn [mbind option_bind]. destruct (negb (boolean_result _ _)); [by split|].
  rewrite (pending_local 1), Hp. cbn [mbind option_bind]. destruct (class_exists (jni_name n)); cbn [mbind option_bind]; [|by split].
  rewrite !pending_local, Hp. cbn [mbind option_bind]. rewrite !pending_local, Hp. cbn [mbind option_bind].
  rewrite !pending_local, Hp. cbn [mbind option_bind].
  destruct (method_id (jni_name n) get_declared methods_sig) as [d|] eqn:Ed; cbn [mbind option_bind]; [|reflexivity].
  rewrite !pending_local, Hp. cbn [mbind option_bind].
  destruct (method_id MEMBER get_name string_sig) as [g|]; cbn [mbind option_bind]; [|reflexivity].
  rewrite !pending_local, Hp. cbn [mbind option_bind].
  rewrite bool_decide_eq_false_2 by (by apply (Hids (jni_name n))). reflexivity.
Qed.

End Laws.

(** A missing [isInitialized] leaves its exception pending, and the next
    [Java.use] is undefined. *)
Lemma exception_left object a0 a1 a2 cb argv n m b x c : pending b = false → get_jni_env = true →
  JS_ToCString a0 = Some n → JS_ToCString a1 = Some m → JS_ToCString c = Some x →
  class_exists (lit "com/io/hook/HookBridge") = true → static_method_id (lit "com/io/hook/HookBridge") (lit "isInitialized") (lit "()Z") = None →
  ∃ b', js_java_hook_method object (a0 :: a1 :: a2 :: cb :: argv) b = Some (JException, b') ∧ js_java_use (object 0) [c] b' = None.
Proof.
  intros Hp He E0 E1 E2 Hc Hs. unfold js_java_hook_method, js_java_use. rewrite He, E0, E1, E2. cbn [negb].
  unfold bind, FindClass, GetStaticMethodID, lookup_id, bind, no_exception, modify, ret. rewrite Hp, Hc. cbn [mbind option_bind].
  rewrite pending_local, Hp, Hs. cbn [mbind option_bind]. eexists. split; reflexivity.
Qed.

(** [Java.use] keeps no local reference and one global reference, which is
    never given up. *)
Lemma use_references object argv b v b' : js_java_use object argv b = Some (v, b') → pending b = false →
  locals b' = locals b ∧ pending b' = false ∧ g_java_hooks b' = g_java_hooks b ∧
  (v = JException ∧ globals b' = globals b ∨ v = object ∧ globals b' = S (globals b)).
Proof.
  unfold js_java_use. intros E Hp. destruct argv as [|a argv]; [injection E as <- <-; by auto 7|].
  destruct (JS_ToCString a) as [n|]; [|injection E as <- <-; by auto 7]. destruct (negb get_jni_env); [injection E as <- <-; by auto 7|].
  unfold bind, FindClass, ExceptionClear, NewGlobalRef, DeleteLocalRef, bind, no_exception, modify, ret in E. rewrite Hp in E.
  cbn [mbind option_bind] in E. destruct (class_exists (jni_name n)); cbn [mbind option_bind] in E.
  - rewrite pending_local, Hp in E. injection E as <- <-. cbn. rewrite Nat.add_1_r. by auto 7.
  - injection E as <- <-. cbn. by auto 7.
Qed.

End Jni.

(** A virtual machine with the application's classes, and a call that is
    undefined in it. *)
Definition demo_jvm : JVM := {|
  has_jvm := true;
  attach_ok := true;
  class_exists := λ _, true;
  method_id := λ c name _, if bool_decide (c = CLASS ∧ name = get_declared) then Some 1
                           else if bool_decide ((c = MEMBER ∨ c = METHOD) ∧ name = get_name) then Some 2 else None;
  static_method_id := λ _ _ _, Some 3;
  boolean_result := λ _ _, true;
  declared_methods := λ _, [(lit "toString", 7); (lit "forName", 8)]
|}.

Example hook_method_demo :
  let b0 := mkB 0 0 false [] [] [] in
  @js_java_hook_method demo_jvm (λ _, None) (λ id, JObject id) [JString (lit "com.app.Main"); JString (lit "run"); JNull; JObject 5] b0 = None ∧
  @js_java_hook_method demo_jvm (λ _, None) (λ id, JObject id) [JString (lit "java.lang.Class"); JString (lit "forName"); JNull; JObject 5] b0 =
    Some (JObject 8, mkB 5 0 false [mkHook (JObject 5) 8 false] [JObject 5] []).
Proof. by vm_compute. Qed.

End JsJava.
