(* ===== verification/JsEngine.v ===== *)
(** * The engine's life cycle and its lock ([js_engine.cpp], [js_scope.h])

    [Init], [Shutdown] and [LoadScript] as the sequences of their accesses to
    what threads share: the recursive mutex, the pointers [g_rt] and [g_ctx],
    and the objects behind them. One thread runs a sequence to its end; several
    threads interleave theirs. *)
From Stdlib Require Import (notations) String.
From stdpp Require Import gmap relations.
From S2P Require Import Prelude Bytes.

Module JsEngine.

(** [JSScope::mutex_], recursive. *)
Inductive mutex : Set :=
| MUninit
| MFree
| MHeld (owner count : nat)
| MDestroyed.

(** The globals; a pointer is 0 or an object, and [live] are the objects not
    yet freed. *)
Record Globals : Type := mkG {
  g_rt : Z;
  g_ctx : Z;
  g_send_cb : bool;
  mutex_ : mutex;
  live : gset Z;
  fresh_id : Z
}.

Definition boot : Globals := mkG 0 0 false MUninit ∅ 1.

Definition set_mutex (g : Globals) (m : mutex) : Globals :=
  mkG (g_rt g) (g_ctx g) (g_send_cb g) m (live g) (fresh_id g).

(** One access. The first three skip the next [n] accesses unless their test
    holds: an early return. *)
Inductive access : Set :=
| IfNoRt (n : nat)
| IfRt (n : nat)
| IfCtx (n : nat)
| InitMutex
| DestroyMutex
| Lock
| Unlock
| Enter
| Leave
| NewRuntime
| NewContext
| UseContext
| EvalBegin
| EvalEnd
| FreeContext
| FreeRuntime
| ClearCtx
| ClearRt
| SetSend (cb : bool).

(** What a thread keeps: the accesses to come, [entered_] of the open scopes
    and the context each running evaluation was given. *)
Record Thread : Type := mkT {
  todo : list access;
  entered : list bool;
  evals : list Z
}.

(** The next state of the globals and of the thread; waiting for the lock; or
    undefined behaviour: an object that is not live is used, or the mutex is
    used outside its life. *)
Inductive outcome : Type :=
| Goes (g : Globals) (t : Thread)
| Waits
| Undef.

Definition lock (me : nat) (m : mutex) : option (option mutex) :=
  match m with
  | MUninit | MDestroyed => None
  | MFree => Some (Some (MHeld me 1))
  | MHeld o c => Some (if (o =? me)%nat then Some (MHeld o (S c)) else None)
  end.

Definition unlock (me : nat) (m : mutex) : option mutex :=
  match m with
  | MHeld o (S c) =>
      if (o =? me)%nat then Some (if (c =? 0)%nat then MFree else MHeld o c) else None
  | _ => None
  end.

Definition is_live (g : Globals) (p : Z) : bool := bool_decide (p ∈ live g).

Definition access_step (me : nat) (g : Globals) (a : access) (p : list access)
    (es : list bool) (cs : list Z) : outcome :=
  let go g := Goes g (mkT p es cs) in
  let skip n := Goes g (mkT (drop n p) es cs) in
  match a with
  | IfNoRt n => if g_rt g =? 0 then go g else skip n
  | IfRt n => if g_rt g =? 0 then skip n else go g
  | IfCtx n => if g_ctx g =? 0 then skip n else go g
  | InitMutex =>
      match mutex_ g with
      | MUninit | MDestroyed => go (set_mutex g MFree)
      | _ => Undef
      end
  | DestroyMutex =>
      match mutex_ g with MFree => go (set_mutex g MDestroyed) | _ => Undef end
  | Lock =>
      match lock me (mutex_ g) with
      | None => Undef
      | Some None => Waits
      | Some (Some m) => go (set_mutex g m)
      end
  | Unlock =>
      match unlock me (mutex_ g) with None => Undef | Some m => go (set_mutex g m) end
  | Enter =>
      if (g_rt g =? 0) || is_live g (g_rt g)
      then Goes g (mkT p (negb (g_rt g =? 0) :: es) cs) else Undef
  | Leave =>
      match es with
      | [] => Undef
      | e :: es =>
          if negb e || (g_rt g =? 0) || is_live g (g_rt g) then Goes g (mkT p es cs) else Undef
      end
  | NewRuntime =>
      let id := fresh_id g in
      go (mkG id (g_ctx g) (g_send_cb g) (mutex_ g) ({[id]} ∪ live g) (id + 1))
  | NewContext =>
      let id := fresh_id g in
      if is_live g (g_rt g)
      then go (mkG (g_rt g) id (g_send_cb g) (mutex_ g) ({[id]} ∪ live g) (id + 1)) else Undef
  | UseContext => if is_live g (g_ctx g) then go g else Undef
  | EvalBegin => if is_live g (g_ctx g) then Goes g (mkT p es (g_ctx g :: cs)) else Undef
  | EvalEnd =>
      match cs with
      | [] => Undef
      | c :: cs => if is_live g c then Goes g (mkT p es cs) else Undef
      end
  | FreeContext =>
      if is_live g (g_ctx g)
      then go (mkG (g_rt g) (g_ctx g) (g_send_cb g) (mutex_ g) (live g ∖ {[g_ctx g]}) (fresh_id g))
      else Undef
  | FreeRuntime =>
      if is_live g (g_rt g)
      then go (mkG (g_rt g) (g_ctx g) (g_send_cb g) (mutex_ g) (live g ∖ {[g_rt g]}) (fresh_id g))
      else Undef
  | ClearCtx => go (mkG (g_rt g) 0 (g_send_cb g) (mutex_ g) (live g) (fresh_id g))
  | ClearRt => go (mkG 0 (g_ctx g) (g_send_cb g) (mutex_ g) (live g) (fresh_id g))
  | SetSend cb => go (mkG (g_rt g) (g_ctx g) cb (mutex_ g) (live g) (fresh_id g))
  end.

(** ** The operations *)

(** The constructor and the destructor of [JSScope] around [p]. *)
Definition JSScope (p : list access) : list access := [Lock; Enter] ++ p ++ [Leave; Unlock].

(** A call of [JS_Eval] or [JS_Call] during which [p] happens, and the use of
    its result. *)
Definition evaluate (p : list access) : list access := [EvalBegin] ++ p ++ [EvalEnd; UseContext].

(** [Init]; [rt_ok] and [ctx_ok]: the runtime and the context can be
    allocated. *)
Definition Init (rt_ok ctx_ok : bool) : list access :=
  let body :=
    [InitMutex] ++
    if rt_ok then
      [NewRuntime] ++
      if ctx_ok then [NewContext; UseContext] ++ JSScope (evaluate [])
      else [FreeRuntime; ClearRt]
    else [] in
  IfNoRt (length body) :: body.

(** [Shutdown]; the two clean-ups are one use of the context, and
    [js_socket_server_stop], which touches none of these globals but may wait in
    [join] without the lock, is a call of [JsServer] ([server_start_race] and
    [stop_liveness] there). *)
Definition Shutdown : list access :=
  let body :=
    JSScope [] ++ [UseContext; FreeContext; FreeRuntime; ClearCtx; ClearRt; SetSend false;
                   DestroyMutex] in
  IfRt (length body) :: body.

(** [LoadScript]; [p] happens during the evaluation. *)
Definition LoadScript (p : list access) : list access :=
  let body := JSScope (evaluate p) in
  IfCtx (length body) :: body.

(** A message of a client: the test and the scope of [handle_client]. *)
Definition client_message (p : list access) : list access :=
  let body := JSScope (LoadScript p) in
  IfCtx (length body) :: body.

(** The callback of a hook or of a native function. *)
Definition callback (p : list access) : list access := JSScope ([UseContext] ++ evaluate p).

Definition SetSendCallback (cb : bool) : list access := [SetSend cb].

(** The string [LoadScript] returns, for the message of an exception or the
    string of the value, each [None] when [JS_ToCString] fails. *)
Definition load_result (g : Globals) (r : option (list Z) + option (list Z)) : list Z :=
  if g_ctx g =? 0 then lit "Error: engine not initialized"
  else match r with
  | inl (Some err) => lit "Error: " ++ err
  | inl None => lit "Error: unknown"
  | inr (Some str) => str
  | inr None => lit "(no result)"
  end.

(** ** One thread *)

Fixpoint run (fuel : nat) (me : nat) (g : Globals) (t : Thread) : option Globals :=
  match fuel with
  | O => None
  | S fuel =>
      match todo t with
      | [] => Some g
      | a :: p =>
          match access_step me g a p (entered t) (evals t) with
          | Goes g t => run fuel me g t
          | _ => None
          end
      end
  end.

(** A call run to its end; every access is run at most once. *)
Definition call (me : nat) (g : Globals) (p : list access) : option Globals :=
  run (S (length p)) me g (mkT p [] []).

(** ** Many threads *)

Definition System : Type := Globals * list Thread.

Inductive step (s : System) : System → Prop :=
| step_thread i t a p g t' :
    s.2 !! i = Some t → todo t = a :: p →
    access_step i s.1 a p (entered t) (evals t) = Goes g t' →
    step s (g, <[i := t']> s.2).

(** Some thread's next access is undefined. *)
Definition undefined (s : System) : Prop :=
  ∃ i t a p, s.2 !! i = Some t ∧ todo t = a :: p ∧
    access_step i s.1 a p (entered t) (evals t) = Undef.

(** ** Scoped programs

    [well d e c p]: with [d] scopes locked, [e] entered and [c] evaluations
    running, [p] evaluates only under the lock, does not touch the life cycle,
    and ends with nothing open. *)
Fixpoint well (d e c : nat) (p : list access) : bool :=
  match p with
  | [] => (d =? 0)%nat && (e =? 0)%nat && (c =? 0)%nat
  | IfCtx _ :: p => well d e c p
  | Lock :: p => well (S d) e c p
  | Unlock :: p => match d with
                   | O => false
                   | S d => ((0 <? d) || (c =? 0))%nat && well d e c p
                   end
  | Enter :: p => (0 <? d)%nat && well d (S e) c p
  | Leave :: p => match e with O => false | S e => well d e c p end
  | UseContext :: p => (0 <? d)%nat && well d e c p
  | EvalBegin :: p => (0 <? d)%nat && well d e (S c) p
  | EvalEnd :: p => match c with O => false | S c => well d e c p end
  | SetSend _ :: p => well d e c p
  | _ => false
  end.

(** What scripts cause: evaluations of scripts, messages and callbacks, one
    after the other and inside each other. *)
Inductive work : list access → Prop :=
| work_nil : work []
| work_load p q : work p → work q → work (LoadScript p ++ q)
| work_client p q : work p → work q → work (client_message p ++ q)
| work_callback p q : work p → work q → work (callback p ++ q)
| work_send cb q : work q → work (SetSendCallback cb ++ q).

(** [p] leaves no trace, under the lock and, with [held] false, outside it. *)
Definition neutral (held : bool) (p : list access) : Prop :=
  ∀ d e c q, (if held then 0 < d else c = 0 ∨ 0 < d)%nat → well d e c (p ++ q) = well d e c q.

Lemma neutral_held p : neutral false p → neutral true p.
Proof. intros H d e c q Hd. apply H. by right. Qed.

Lemma neutral_app b p q : neutral b p → neutral b q → neutral b (p ++ q).
Proof. intros Hp Hq d e c r Hd. by rewrite <- app_assoc, Hp, Hq. Qed.

Lemma neutral_scope p : neutral true p → neutral false (JSScope p).
Proof.
  intros Hp d e c q Hd. unfold JSScope. rewrite <- !app_assoc. cbn [app well Nat.ltb Nat.leb andb].
  rewrite Hp by lia. cbn [app well]. destruct Hd as [->|Hd]; [by rewrite orb_true_r|].
  by rewrite (proj2 (Nat.ltb_lt 0 d) Hd).
Qed.

Lemma neutral_evaluate p : neutral true p → neutral true (evaluate p).
Proof.
  intros Hp d e c q Hd. unfold evaluate. rewrite <- !app_assoc. cbn [app well].
  rewrite (proj2 (Nat.ltb_lt 0 d) Hd), Hp by done. cbn [app well andb].
  by rewrite (proj2 (Nat.ltb_lt 0 d) Hd).
Qed.

Lemma neutral_test b n p : neutral b p → neutral b (IfCtx n :: p).
Proof. intros Hp d e c q Hd. apply (Hp d e c q Hd). Qed.

Lemma neutral_use : neutral true [UseContext].
Proof. intros d e c q Hd. cbn [app well]. by rewrite (proj2 (Nat.ltb_lt 0 d) Hd). Qed.

Lemma neutral_load p : neutral false p → neutral false (LoadScript p).
Proof. intros. by apply neutral_test, neutral_scope, neutral_evaluate, neutral_held. Qed.

Lemma work_neutral p : work p → neutral false p.
Proof.
  induction 1 as [|p q _ IHp _ IHq|p q _ IHp _ IHq|p q _ IHp _ IHq|cb q _ IHq];
    [done|apply neutral_app; [|done]..].
  - by apply neutral_load.
  - by apply neutral_test, neutral_scope, neutral_held, neutral_load.
  - apply neutral_scope, (neutral_app _ [UseContext]); [apply neutral_use|].
    by apply neutral_evaluate, neutral_held.
  - by intros d e c r Hd.
Qed.

Lemma work_well p : work p → well 0 0 0 p = true.
Proof. intros H. rewrite <- (app_nil_r p). by rewrite work_neutral by (done || by left). Qed.

(** ** Threads that use an engine that is up *)

(** The count of [me] on the mutex. *)
Definition held (m : mutex) (me : nat) : nat :=
  match m with MHeld o c => if (o =? me)%nat then c else 0 | _ => 0 end.

Definition usable (m : mutex) : Prop :=
  match m with MFree => True | MHeld _ c => (0 < c)%nat | _ => False end.

Lemma lock_ok me m : usable m →
  (lock me m = Some None ∧ held m me = 0%nat ∧ ∃ o c, m = MHeld o c ∧ o ≠ me) ∨
  ∃ m', lock me m = Some (Some m') ∧ usable m' ∧ held m' me = S (held m me) ∧
    ∀ o, o ≠ me → held m' o = held m o.
Proof.
  intros Hu. destruct m as [| |o c|]; [done| | |done]; cbn [lock held].
  - right. eexists. split; [done|]. split_and!; [cbn; lia|cbn; by rewrite Nat.eqb_refl|].
    intros o Ho. cbn. by rewrite (proj2 (Nat.eqb_neq me o)).
  - destruct (Nat.eqb_spec o me) as [->|Hn].
    + right. eexists. split; [done|]. split_and!; [cbn; lia|cbn; by rewrite Nat.eqb_refl|].
      intros o Ho. cbn. by rewrite (proj2 (Nat.eqb_neq me o)).
    + left. split_and!; [done|done|]. by exists o, c.
Qed.

Lemma unlock_ok me m d : usable m → held m me = S d →
  ∃ m', unlock me m = Some m' ∧ usable m' ∧ held m' me = d ∧ ∀ o, o ≠ me → held m' o = held m o.
Proof.
  intros Hu Hd. destruct m as [| |o c|]; [done..| |done]. cbn [held] in Hd.
  destruct (Nat.eqb_spec o me) as [->|]; [|done]. subst c. cbn [unlock].
  rewrite Nat.eqb_refl. eexists. split; [done|].
  assert (∀ o, o ≠ me → held (MHeld me (S d)) o = 0%nat) as Ho.
  { intros o Ho. cbn. by rewrite (proj2 (Nat.eqb_neq me o)). }
  destruct (Nat.eqb_spec d 0) as [->|Hn]; split_and!; try done.
  - intros o Hne. by rewrite Ho.
  - cbn. lia.
  - cbn. by rewrite Nat.eqb_refl.
  - intros o Hne. rewrite Ho by done. cbn. by rewrite (proj2 (Nat.eqb_neq me o)).
Qed.

(** The engine is initialised: both objects are live. *)
Record up (g : Globals) : Prop := {
  up_rt : g_rt g ≠ 0;
  up_ctx : g_ctx g ≠ 0;
  up_rt_live : g_rt g ∈ live g;
  up_ctx_live : g_ctx g ∈ live g;
  up_mutex : usable (mutex_ g)
}.

Record thread_ok (g : Globals) (me : nat) (t : Thread) : Prop := {
  to_well : well (held (mutex_ g) me) (length (entered t)) (length (evals t)) (todo t) = true;
  to_evals : Forall (λ c, c = g_ctx g) (evals t);
  to_locked : evals t ≠ [] → (0 < held (mutex_ g) me)%nat
}.

(** What one access of a scoped program changes for the others: the lock and
    the send callback. *)
Record same_objects (g g' : Globals) : Prop := {
  so_rt : g_rt g' = g_rt g;
  so_ctx : g_ctx g' = g_ctx g;
  so_live : live g' = live g;
  so_fresh : fresh_id g' = fresh_id g
}.

Lemma up_same g g' : same_objects g g' → usable (mutex_ g') → up g → up g'.
Proof. intros [Er Ec El _] Hm [????]. split; congruence. Qed.

Lemma is_live_up g p : p ∈ live g → is_live g p = true.
Proof. apply bool_decide_eq_true_2. Qed.

(** An access of a thread in order goes through and keeps the order, or waits
    for a lock that another thread holds. *)
Lemma access_ok me g a p t : up g → thread_ok g me t → todo t = a :: p →
  (access_step me g a p (entered t) (evals t) = Waits ∧ held (mutex_ g) me = 0%nat ∧
     ∃ o c, mutex_ g = MHeld o c ∧ o ≠ me) ∨
  ∃ g' t', access_step me g a p (entered t) (evals t) = Goes g' t' ∧
    same_objects g g' ∧ up g' ∧ thread_ok g' me t' ∧ (length (todo t') < length (todo t))%nat ∧
    ∀ o, o ≠ me → held (mutex_ g') o = held (mutex_ g) o.
Proof.
  intros Hu [Hw He Hl] Ht. pose proof Hu as [Hrt Hctx Hlr Hlc Hm]. rewrite Ht in Hw |- *.
  pose proof (is_live_up _ _ Hlr) as Lr. pose proof (is_live_up _ _ Hlc) as Lc.
  apply Z.eqb_neq in Hrt, Hctx.
  assert (∀ t', access_step me g a p (entered t) (evals t) = Goes g t' → thread_ok g me t' →
    (length (todo t') < length (a :: p))%nat →
    ∃ g' t', access_step me g a p (entered t) (evals t) = Goes g' t' ∧
      same_objects g g' ∧ up g' ∧ thread_ok g' me t' ∧ (length (todo t') < length (a :: p))%nat ∧
      ∀ o, o ≠ me → held (mutex_ g') o = held (mutex_ g) o) as Hsame.
  { intros t' E Hok Hn. exists g, t'. by split_and!. }
  destruct a; cbn [well] in Hw; try done; cbn [access_step] in Hsame |- *; cbn zeta;
    try (apply andb_true_iff in Hw as [Hd%Nat.ltb_lt Hw]).
  - right. eapply Hsame; [by rewrite Hctx| |cbn; lia]. by split.
  - destruct (lock_ok me _ Hm) as [(-> & H0 & Ho)|(m' & -> & Hm' & Hh & Ho)]; [by left|right].
    eexists _, _. split; [reflexivity|]. split_and!; [by split|apply (up_same g); [by split|done|done]| |cbn; lia|done].
    split; cbn; [by rewrite Hh|done|]. intros _. rewrite Hh. lia.
  - right. destruct (held (mutex_ g) me) as [|d] eqn:Eh; [done|].
    apply andb_true_iff in Hw as [Hc Hw].
    destruct (unlock_ok me _ d Hm Eh) as (m' & -> & Hm' & Hh & Ho).
    eexists _, _. split; [reflexivity|]. split_and!; [by split|apply (up_same g); [by split|done|done]| |cbn; lia|done].
    split; cbn; [by rewrite Hh|done|]. intros Hn. rewrite Hh.
    apply orb_true_iff in Hc as [Hc%Nat.ltb_lt|Hc%Nat.eqb_eq]; [done|].
    by apply nil_length_inv in Hc.
  - right. eapply Hsame; [by rewrite Hrt, Lr| |cbn; lia]. by split.
  - right. destruct (entered t) as [|e es]; [done|].
    eapply Hsame; [by rewrite Lr, orb_true_r| |cbn; lia]. by split.
  - right. eapply Hsame; [by rewrite Lc| |cbn; lia]. by split.
  - right. eapply Hsame; [by rewrite Lc| |cbn; lia]. split; cbn; [done|by constructor|done].
  - right. destruct (evals t) as [|c cs]; [done|]. apply Forall_cons in He as [-> He].
    eapply Hsame; [by rewrite Lc| |cbn; lia]. split; cbn; [done|done|]. intros _. by apply Hl.
  - right. eexists _, _. split; [reflexivity|]. split_and!; [by split|apply (up_same g); [by split|done|done]|by split|cbn; lia|done].
Qed.

(** ** Any number of threads *)

Record Inv (s : System) : Prop := {
  inv_up : up s.1;
  inv_thread i t : s.2 !! i = Some t → thread_ok s.1 i t;
  inv_owner o : (0 < held (mutex_ s.1) o)%nat → is_Some (s.2 !! o)
}.

(** What is left to run. *)
Definition remaining (s : System) : nat := sum_list_with (λ t, length (todo t)) s.2.

Lemma thread_ok_other g g' i t : same_objects g g' → held (mutex_ g') i = held (mutex_ g) i →
  thread_ok g i t → thread_ok g' i t.
Proof. intros [_ Ec _ _] Eh [Hw He Hl]. split; by rewrite ?Eh, ?Ec. Qed.

Lemma remaining_insert ts i (t t' : Thread) : ts !! i = Some t →
  (length (todo t') < length (todo t))%nat →
  (sum_list_with (λ t, length (todo t)) (<[i := t']> ts) < sum_list_with (λ t, length (todo t)) ts)%nat.
Proof.
  revert i. induction ts as [|t0 ts IH]; intros [|i] Ht Hn; [done..| |].
  - injection Ht as ->. cbn [insert list_insert sum_list_with]. lia.
  - specialize (IH i Ht Hn). apply Nat.add_lt_mono_l, IH.
Qed.

Lemma step_Inv s s' : Inv s → step s s' → Inv s' ∧ (remaining s' < remaining s)%nat.
Proof.
  intros [Hu Ht Hw] [i t a p g t' Hi Htodo E].
  destruct (access_ok i s.1 a p t Hu (Ht i t Hi) Htodo)
    as [(E' & _)|(g' & t'' & E' & Hs & Hu' & Hok & Hn & Ho)]; [congruence|].
  rewrite E in E'. injection E' as <- <-. split.
  - split; [done|intros j t2 Hj|intros o Hh]; cbn [fst snd] in *.
    2: { apply list_lookup_insert_is_Some. destruct (decide (o = i)) as [->|Hne]; [by rewrite Hi|].
         apply Hw. by rewrite <- Ho. }
    destruct (decide (j = i)) as [->|Hne].
    + rewrite list_lookup_insert_eq in Hj by (by eapply lookup_lt_Some). by simplify_eq.
    + rewrite list_lookup_insert_ne in Hj by done.
      eapply thread_ok_other; [done|by apply Ho|by apply Ht].
  - by eapply remaining_insert.
Qed.

Lemma steps_Inv s s' : Inv s → rtc step s s' → Inv s'.
Proof. intros HI Hs. induction Hs as [|s1 s2 s3 H1 _ IH]; [done|]. apply IH. by eapply step_Inv. Qed.

(** Some thread can go on, unless all have ended: the one that holds the lock,
    or any when it is free. *)
Lemma Inv_progress s : Inv s →
  (∃ s', step s s') ∨ (mutex_ s.1 = MFree ∧ Forall (λ t, todo t = []) s.2).
Proof.
  intros [Hu Ht Ho].
  assert (∀ i t a p, s.2 !! i = Some t → todo t = a :: p →
    (∀ o c, mutex_ s.1 = MHeld o c → o = i) → ∃ s', step s s') as Hgo.
  { intros i t a p Hi Htodo Hm.
    destruct (access_ok i s.1 a p t Hu (Ht i t Hi) Htodo)
      as [(_ & _ & o & c & E & Hne)|(g' & t' & E & _)]; [by apply Hm in E|].
    eexists. by eapply step_thread. }
  pose proof (up_mutex _ Hu) as Hm. destruct (mutex_ s.1) as [| |o c|] eqn:Em; [done| | |done].
  - destruct (decide (Forall (λ t, todo t = []) s.2)) as [Hd|Hd]; [by right|left].
    apply not_Forall_Exists, Exists_exists in Hd; [|intros t; apply _].
    destruct Hd as (t & [i Hi]%list_elem_of_lookup & Hn).
    destruct (todo t) as [|a p] eqn:E; [by destruct Hn|]. by eapply Hgo.
  - left. assert (held (MHeld o c) o = c) as Eh by (cbn; by rewrite Nat.eqb_refl).
    destruct (Ho o) as [t Hi]; [by rewrite Eh|].
    destruct (todo t) as [|a p] eqn:E; [|eapply Hgo; [done|done|congruence]].
    pose proof (to_well _ _ _ (Ht o t Hi)) as Hw. rewrite E, Em, Eh in Hw.
    cbn in Hw. destruct c; [cbn in Hm; lia|done].
Qed.

Definition start (g : Globals) (ps : list (list access)) : System :=
  (g, (λ p, mkT p [] []) <$> ps).

Lemma threads_Inv g ps : up g → mutex_ g = MFree → Forall work ps → Inv (start g ps).
Proof.
  intros Hu Hm Hw. split; [done| |by cbn; rewrite Hm; cbn; lia].
  intros i t Hi. cbn [start snd fst] in *. apply list_lookup_fmap_Some in Hi as (p & -> & Hp).
  rewrite Forall_lookup in Hw. split; cbn; [|constructor|done]. rewrite Hm.
  apply work_well. by eapply Hw.
Qed.

Lemma Inv_completes s : Inv s →
  ∃ s', rtc step s s' ∧ mutex_ s'.1 = MFree ∧ Forall (λ t, todo t = []) s'.2.
Proof.
  remember (remaining s) as n eqn:En. revert s En.
  induction (lt_wf n) as [n _ IH]. intros s -> HI.
  destruct (Inv_progress s HI) as [[s1 Hs]|Hd]; [|by exists s].
  destruct (step_Inv _ _ HI Hs) as [HI1 Hn].
  destruct (IH _ Hn s1 eq_refl HI1) as (s' & Hr & Hd). exists s'. split; [by eapply rtc_l|done].
Qed.

Lemma Inv_bounded s n s' : Inv s → nsteps step n s s' → (n ≤ remaining s)%nat.
Proof.
  intros HI H. induction H as [s|n s1 s2 s3 Hs _ IH]; [lia|].
  destruct (step_Inv _ _ HI Hs) as [HI' Hn]. specialize (IH HI'). lia.
Qed.

Lemma Inv_defined s : Inv s → ¬ undefined s.
Proof.
  intros [Hu Ht _] (i & t & a & p & Hi & Htodo & E).
  destruct (access_ok i s.1 a p t Hu (Ht i t Hi) Htodo) as [(E' & _)|(g' & t' & E' & _)]; congruence.
Qed.

Lemma held_unique m i j : (0 < held m i)%nat → (0 < held m j)%nat → i = j.
Proof.
  destruct m as [| |o c|]; cbn; try lia.
  destruct (Nat.eqb_spec o i), (Nat.eqb_spec o j); lia.
Qed.

(** C28: However the threads of an initialised engine interleave, each running
    scripts, messages and callbacks one after the other and inside each other,
    no access is undefined, no two threads evaluate at the same time, the lock
    never blocks all of them, and every run ends, with all threads done, the
    lock free and the context in place. *)
Theorem threads_exclusive g ps s :
  up g → mutex_ g = MFree → Forall work ps → rtc step (start g ps) s →
  ¬ undefined s ∧
  (∀ i j t t', s.2 !! i = Some t → s.2 !! j = Some t' → evals t ≠ [] → evals t' ≠ [] → i = j) ∧
  (∀ n s', nsteps step n s s' → (n ≤ remaining s)%nat) ∧
  ∃ s', rtc step s s' ∧ Forall (λ t, todo t = []) s'.2 ∧ mutex_ s'.1 = MFree ∧ up s'.1.
Proof.
  intros Hu Hm Hw Hs. assert (Inv s) as HI by (eapply steps_Inv; [by apply threads_Inv|done]).
  split_and!.
  - by apply Inv_defined.
  - intros i j t t' Hi Hj He He'. apply (held_unique (mutex_ s.1)).
    + by apply (to_locked _ _ _ (inv_thread _ HI i t Hi)).
    + by apply (to_locked _ _ _ (inv_thread _ HI j t' Hj)).
  - intros n s'. by apply Inv_bounded.
  - destruct (Inv_completes s HI) as (s' & Hr & Hf & Hd). exists s'. split_and!; [done..|].
    apply (inv_up s'). by eapply steps_Inv.
Qed.

(** ** One thread: a machine with three states *)

Inductive phase : Set := Down | Up | Failed.

#[global] Instance phase_eq_dec : EqDecision phase.
Proof. solve_decision. Defined.

Inductive op : Type :=
| OInit (rt_ok ctx_ok : bool)
| OShutdown
| OLoad (p : list access)
| OClient (p : list access)
| OSetSend (cb : bool).

Definition program (o : op) : list access :=
  match o with
  | OInit rt_ok ctx_ok => Init rt_ok ctx_ok
  | OShutdown => Shutdown
  | OLoad p => LoadScript p
  | OClient p => client_message p
  | OSetSend cb => SetSendCallback cb
  end.

(** What happens during an evaluation is work. *)
Definition op_ok (o : op) : Prop :=
  match o with OLoad p | OClient p => work p | _ => True end.

(** The specification; [None] is undefined behaviour. *)
Definition next (ph : phase) (o : op) : option phase :=
  match ph, o with
  | Down, OInit rt_ok ctx_ok => Some (if rt_ok && ctx_ok then Up else Failed)
  | Failed, OInit _ _ => None
  | Up, OShutdown => Some Down
  | ph, _ => Some ph
  end.

Definition in_phase (ph : phase) (g : Globals) : Prop :=
  0 < fresh_id g ∧
  match ph with
  | Down => g_rt g = 0 ∧ g_ctx g = 0 ∧ live g = ∅ ∧ (mutex_ g = MUninit ∨ mutex_ g = MDestroyed)
  | Failed => g_rt g = 0 ∧ g_ctx g = 0 ∧ live g = ∅ ∧ mutex_ g = MFree
  | Up => up g ∧ g_rt g ≠ g_ctx g ∧ live g = {[g_rt g; g_ctx g]} ∧ mutex_ g = MFree
  end.

(** A scoped program that no other thread disturbs runs to its end. *)
Lemma run_scoped n me g t : (length (todo t) < n)%nat → up g → thread_ok g me t →
  (∀ o, o ≠ me → held (mutex_ g) o = 0%nat) →
  ∃ g', run n me g t = Some g' ∧ same_objects g g' ∧ mutex_ g' = MFree.
Proof.
  revert g t. induction n as [|n IH]; intros g t Hn Hu Hok Ho; [lia|]. cbn [run].
  destruct (todo t) as [|a p] eqn:E.
  - exists g. split_and!; [done|by split|]. pose proof (to_well _ _ _ Hok) as Hw.
    rewrite E in Hw. cbn in Hw. apply andb_true_iff in Hw as [[Hw%Nat.eqb_eq _]%andb_true_iff _].
    pose proof (up_mutex _ Hu) as Hm. destruct (mutex_ g) as [| |o c|]; [done..| |done].
    exfalso. cbn in Hm, Hw. destruct (Nat.eqb_spec o me) as [->|Hne]; [lia|].
    specialize (Ho o Hne). cbn in Ho. rewrite Nat.eqb_refl in Ho. lia.
  - destruct (access_ok me g a p t Hu Hok E)
      as [(_ & H0 & o & c & Em & Hne)|(g' & t' & -> & Hs & Hu' & Hok' & Hl & Ho')].
    + exfalso. specialize (Ho o Hne). pose proof (up_mutex _ Hu) as Hm. rewrite Em in Ho, Hm.
      cbn in Ho, Hm. rewrite Nat.eqb_refl in Ho. lia.
    + rewrite E in Hl. destruct (IH g' t') as (g2 & -> & Hs2 & Hm); [cbn in *; lia|done|done| |].
      * intros o Hne. by rewrite Ho', Ho.
      * exists g2. split_and!; [done| |done].
        destruct Hs, Hs2. split; congruence.
Qed.

(** A call of scoped work on an engine that is up. *)
Lemma call_up me g p : in_phase Up g → well 0 0 0 p = true →
  ∃ g', call me g p = Some g' ∧ in_phase Up g'.
Proof.
  intros (Hf & Hu & Hne & Hl & Hm) Hw.
  destruct (run_scoped (S (length p)) me g (mkT p [] [])) as (g' & Hr & Hs & Hm'); [cbn; lia|done| | |].
  - split; cbn; [by rewrite Hm|constructor|done].
  - intros o _. by rewrite Hm.
  - exists g'. split; [done|]. pose proof (up_same g g' Hs ltac:(by rewrite Hm') Hu) as Hu'.
    destruct Hs as [Er Ec El Ef]. split; [congruence|]. split_and!; congruence.
Qed.

(** An early return. *)
Lemma call_skip me g a p : (∀ p' es cs, access_step me g a p' es cs = Goes g (mkT (drop (length p) p') es cs)) →
  call me g (a :: p) = Some g.
Proof.
  intros Ha. unfold call. cbn [run todo entered evals length]. rewrite Ha, drop_all. reflexivity.
Qed.

Ltac live_step :=
  match goal with
  | |- context [is_live ?g ?p] => rewrite (is_live_up g p) by (cbn; set_solver)
  end.

(** [Init] on an engine that is down. *)
Lemma Init_ok me g rt_ok ctx_ok : in_phase Down g →
  ∃ g', call me g (Init rt_ok ctx_ok) = Some g' ∧
    in_phase (if rt_ok && ctx_ok then Up else Failed) g'.
Proof.
  intros (Hf & Hr & Hc & Hl & Hm). destruct g as [rt ctx sc m lv f]. cbn in Hf, Hr, Hc, Hl, Hm. subst.
  set (p := tl (tl (Init rt_ok ctx_ok))).
  assert (call me (mkG 0 0 sc m ∅ f) (Init rt_ok ctx_ok) =
          call me (mkG 0 0 sc MFree ∅ f) p) as ->.
  { by destruct Hm as [-> | ->], rt_ok, ctx_ok. }
  clear Hm. unfold call, p. destruct rt_ok; cbn [andb tl Init app].
  2: { eexists. split; [reflexivity|]. split; cbn; [lia|done]. }
  destruct ctx_ok; cbn [andb length app JSScope evaluate].
  - set (g1 := mkG f (f + 1) sc MFree ({[f + 1]} ∪ ({[f]} ∪ ∅)) (f + 1 + 1)).
    assert (in_phase Up g1) as Hg.
    { split; [cbn; lia|]. split_and!; [split; cbn; try lia; try set_solver|cbn; lia|cbn; set_solver|done]. }
    destruct (call_up me g1 (JSScope (evaluate [])) Hg eq_refl) as (g2 & E & H2).
    exists g2. split; [|exact H2]. rewrite <- E. unfold call.
    cbn [run todo entered evals access_step]. live_step.
    cbn [run todo entered evals access_step]. live_step. reflexivity.
  - cbn [run todo entered evals access_step]. live_step.
    eexists. split; [reflexivity|]. split; cbn; [lia|]. split_and!; [done|done|set_solver|done].
Qed.

Lemma Shutdown_ok me g : in_phase Up g → ∃ g', call me g Shutdown = Some g' ∧ in_phase Down g'.
Proof.
  intros (Hf & Hu & Hne & Hl & Hm). pose proof Hu as [Hrt Hctx _ _ _].
  destruct g as [rt ctx sc m lv f].
  cbn in Hf, Hne, Hl, Hm, Hrt, Hctx. subst. apply Z.eqb_neq in Hrt, Hctx. clear Hu.
  unfold call, Shutdown.
  repeat (cbn [length app JSScope run todo entered evals access_step mutex_ lock unlock set_mutex
               g_rt g_ctx g_send_cb live fresh_id orb negb];
          first [rewrite Hrt | live_step | rewrite Nat.eqb_refl]).
  eexists. split; [reflexivity|]. split; cbn; [done|]. split_and!; [done|done|set_solver|by right].
Qed.

(** The machine's steps are the calls'. *)
Lemma call_next me ph g o ph' : op_ok o → in_phase ph g → next ph o = Some ph' →
  ∃ g', call me g (program o) = Some g' ∧ in_phase ph' g'.
Proof.
  intros Ho Hp Hn.
  assert (∀ q, ph = ph' → (ph = Up → well 0 0 0 q = true) →
    ∃ g', call me g (IfCtx (length q) :: q) = Some g' ∧ in_phase ph' g') as Hwork.
  { intros q <- Hw. destruct (decide (ph = Up)) as [->|Hne]; [by apply call_up; [|apply Hw]|].
    exists g. split; [|done]. apply call_skip. intros. cbn [access_step].
    assert (g_ctx g = 0) as -> by (destruct ph; by destruct Hp as (_ & _ & ? & _)). done. }
  destruct o as [rt_ok ctx_ok| |p|p|cb]; cbn [program op_ok] in *.
  - destruct ph; cbn in Hn; simplify_eq; [by apply Init_ok|]. exists g. split; [|done].
    apply call_skip. intros. cbn. destruct Hp as (_ & [Hr _ _ _ _] & _).
    by rewrite (proj2 (Z.eqb_neq _ _) Hr).
  - destruct ph; cbn in Hn; simplify_eq; [|by apply Shutdown_ok|]; exists g; (split; [|done]);
      apply call_skip; intros; cbn [access_step]; by destruct Hp as (_ & -> & _).
  - apply Hwork; [destruct ph; cbn in Hn; congruence|]. intros _.
    rewrite <- (app_nil_r (JSScope _)), neutral_scope; [done| |by left].
    by apply neutral_evaluate, neutral_held, work_neutral.
  - apply Hwork; [destruct ph; cbn in Hn; congruence|]. intros _.
    rewrite <- (app_nil_r (JSScope _)), neutral_scope; [done| |by left].
    by apply neutral_held, neutral_load, work_neutral.
  - destruct ph; cbn in Hn; simplify_eq; (eexists; split; [reflexivity|]); destruct Hp as [Hf Hp];
      (split; [done|]); [done| |done]. destruct Hp as ([] & ? & ? & ?). by split_and!.
Qed.

(** Calls one after the other. *)
Fixpoint calls (me : nat) (g : Globals) (os : list op) : option Globals :=
  match os with
  | [] => Some g
  | o :: os => g ← call me g (program o); calls me g os
  end.

Fixpoint nexts (ph : phase) (os : list op) : option phase :=
  match os with
  | [] => Some ph
  | o :: os => ph ← next ph o; nexts ph os
  end.

(** C22: Called from one thread in any order, the engine is a machine with
    three states: down, up, and failed to initialise. While it is down or has
    failed, no object is live and scripts are refused; while it is up, exactly
    the runtime and the context are; between calls the lock is free or does
    not exist. Only an [Init] that follows a failed one is undefined: it
    initialises the lock a second time. *)
Theorem lifecycle_refines me os ph :
  Forall op_ok os → nexts Down os = Some ph →
  ∃ g, calls me boot os = Some g ∧ in_phase ph g ∧
    (ph = Failed → ∀ rt_ok ctx_ok, call me g (Init rt_ok ctx_ok) = None).
Proof.
  intros Ho Hn.
  enough (∀ ph0 g0, in_phase ph0 g0 → nexts ph0 os = Some ph →
    ∃ g, calls me g0 os = Some g ∧ in_phase ph g) as Hall.
  { destruct (Hall Down boot) as (g & Hc & Hp); [|done|].
    - split; cbn; [lia|]. split_and!; auto.
    - exists g. split_and!; [done|done|]. intros -> rt_ok ctx_ok.
      destruct Hp as (_ & Hr & _ & _ & Hm). unfold call, Init.
      cbn [length run todo access_step]. rewrite Hr. cbn [Z.eqb run todo access_step app].
      by rewrite Hm. }
  clear Hn. induction Ho as [|o os Ho _ IH]; intros ph0 g0 Hp Hn; cbn [calls nexts] in *;
    [by simplify_eq; eauto|].
  destruct (next ph0 o) as [ph1|] eqn:E; [|done].
  destruct (call_next me ph0 g0 o ph1 Ho Hp E) as (g1 & E1 & Hp1). rewrite E1. by apply (IH ph1).
Qed.

Lemma lifecycle_refines_witness :
  ∃ g, calls 0 boot [OInit true true; OLoad (callback []); OShutdown; OInit true false; OClient []] =
         Some g ∧ in_phase Failed g ∧ call 0 g (Init true true) = None.
Proof.
  destruct (lifecycle_refines 0
    [OInit true true; OLoad (callback []); OShutdown; OInit true false; OClient []] Failed)
    as (g & Hc & Hp & Hu).
  - repeat constructor. apply (work_callback [] []); constructor.
  - reflexivity.
  - exists g. split; [exact Hc|]. split; [exact Hp|]. by apply Hu.
Defined.

(** ** Shutting down while a client is served

    [Shutdown] takes the lock and releases it before it frees the context, and
    [LoadScript] tests the context before it takes the lock. *)

Definition demo_up : Globals := mkG 1 2 false MFree {[1; 2]} 3.

Lemma demo_up_boot : call 0 boot (Init true true) = Some demo_up.
Proof. vm_compute. reflexivity. Qed.

Lemma demo_up_up : up demo_up.
Proof. split; cbn; try done; set_solver. Qed.

(** Runs the threads in the order of a schedule. *)
Fixpoint follow (s : System) (sch : list nat) : option System :=
  match sch with
  | [] => Some s
  | i :: sch =>
      t ← s.2 !! i;
      match todo t with
      | [] => None
      | a :: p =>
          match access_step i s.1 a p (entered t) (evals t) with
          | Goes g t => follow (g, <[i := t]> s.2) sch
          | _ => None
          end
      end
  end.

Lemma follow_steps s sch s' : follow s sch = Some s' → rtc step s s'.
Proof.
  revert s. induction sch as [|i sch IH]; intros s H; cbn [follow] in H; [by simplify_eq|].
  destruct (s.2 !! i) as [t|] eqn:Ei; [|done]. cbn [mbind option_bind] in H.
  destruct (todo t) as [|a p] eqn:Et; [done|].
  destruct (access_step i s.1 a p (entered t) (evals t)) as [g t'| |] eqn:E; [|done..].
  apply IH in H. eapply rtc_l; [|exact H]. by eapply step_thread.
Qed.

(** A script that is loaded while another thread shuts the engine down is
    evaluated in a context that has been freed, or locks a mutex that has been
    destroyed. *)
Lemma shutdown_race :
  (∃ s, rtc step (start demo_up [LoadScript []; Shutdown]) s ∧ undefined s ∧
     ∃ t, s.2 !! 0%nat = Some t ∧ evals t = [2] ∧ live s.1 = {[1]}) ∧
  (∃ s, rtc step (start demo_up [LoadScript []; Shutdown]) s ∧ undefined s ∧
     mutex_ s.1 = MDestroyed).
Proof.
  split.
  - destruct (follow (start demo_up [LoadScript []; Shutdown])
      ([0] ++ replicate 5 1 ++ [0; 0; 0] ++ [1; 1])%nat) as [s|] eqn:E; [|by vm_compute in E].
    exists s. split; [by eapply follow_steps|]. vm_compute in E. injection E as <-. split.
    + by exists 0%nat, (mkT [EvalEnd; UseContext; Leave; Unlock] [true] [2]), EvalEnd,
        [UseContext; Leave; Unlock].
    + by eexists.
  - destruct (follow (start demo_up [LoadScript []; Shutdown])
      ([0] ++ replicate 12 1)%nat) as [s|] eqn:E; [|by vm_compute in E].
    exists s. split; [by eapply follow_steps|]. vm_compute in E. injection E as <-. split; [|done].
    by exists 0%nat, (mkT (JSScope (evaluate [])) [] []), Lock, (tl (JSScope (evaluate []))).
Qed.

Lemma threads_exclusive_witness :
  let s := start demo_up [LoadScript (callback []); client_message [] ++ callback []] in
  ¬ undefined s ∧
  ∃ s', rtc step s s' ∧ Forall (λ t, todo t = []) s'.2 ∧ mutex_ s'.1 = MFree ∧ up s'.1.
Proof.
  destruct (threads_exclusive demo_up
    [LoadScript (callback []); client_message [] ++ callback []]
    (start demo_up [LoadScript (callback []); client_message [] ++ callback []]))
    as (Hd & _ & _ & Hc).
  - exact demo_up_up.
  - reflexivity.
  - apply Forall_cons. split.
    + apply (work_load (callback []) []); [|constructor]. apply (work_callback [] []); constructor.
    + apply Forall_cons. split; [|constructor]. apply work_client; [constructor|].
      apply (work_callback [] []); constructor.
  - apply rtc_refl.
  - split; [exact Hd|exact Hc].
Defined.

End JsEngine.
