(* ===== verification/Limbs.v ===== *)
(** * Limb arithmetic of big numbers ([quickjs/libbf.c])

    Natural numbers as arrays of 64-bit limbs, least significant first: the
    carry chains, schoolbook multiplication, division of two limbs by one
    through a precomputed inverse, and schoolbook division. An array a function
    writes is passed and returned; where the code passes a pointer into an
    array, the part behind it is taken out and put back. [None] is an access
    outside an array, or a loop that does not end. *)
From S2P Require Import Prelude.

Module Limbs.
Local Open Scope cint_scope.

Definition B : Z := 2 ^ 64.
Definition u128 (x : Z) : Z := x mod 2 ^ 128.

(** ** Addition and subtraction *)

(** The loop of [mp_add] over the limbs of [op1] and [op2]. *)
Fixpoint mp_add (op1 op2 : list Z) (k : Z) : option (list Z * Z) :=
  match op1, op2 with
  | [], _ => Some ([], k)
  | v :: op1, w :: op2 =>
      let a := u64 (v + w) in
      let k1 := Z.b2z (a <? v) in
      let a := u64 (a + k) in
      let k := Z.b2z (a <? k) .| k1 in
      '(res, k) ← mp_add op1 op2 k;
      Some (a :: res, k)
  | _ :: _, [] => None
  end.

Fixpoint mp_add_ui (tab : list Z) (k : Z) : list Z * Z :=
  match tab with
  | [] => ([], k)
  | x :: tab =>
      if k =? 0 then (x :: tab, k)
      else
        let a := u64 (x + k) in
        let '(tab, k) := mp_add_ui tab (Z.b2z (a <? k)) in
        (a :: tab, k)
  end.

Fixpoint mp_sub (op1 op2 : list Z) (k : Z) : option (list Z * Z) :=
  match op1, op2 with
  | [], _ => Some ([], k)
  | v :: op1, w :: op2 =>
      let a := u64 (v - w) in
      let k1 := Z.b2z (v <? a) in
      let v := u64 (a - k) in
      let k := Z.b2z (a <? v) .| k1 in
      '(res, k) ← mp_sub op1 op2 k;
      Some (v :: res, k)
  | _ :: _, [] => None
  end.

Fixpoint mp_neg (op2 : list Z) (k : Z) : list Z * Z :=
  match op2 with
  | [] => ([], k)
  | w :: op2 =>
      let a := u64 (0 - w) in
      let k1 := Z.b2z (0 <? a) in
      let v := u64 (a - k) in
      let k := Z.b2z (a <? v) .| k1 in
      let '(res, k) := mp_neg op2 k in
      (v :: res, k)
  end.

Fixpoint mp_sub_ui (tab : list Z) (k : Z) : list Z * Z :=
  match tab with
  | [] => ([], k)
  | v :: tab =>
      let a := u64 (v - k) in
      let k := Z.b2z (v <? a) in
      if k =? 0 then (a :: tab, k)
      else let '(tab, k) := mp_sub_ui tab k in (a :: tab, k)
  end.

(** The loop runs from the last limb down: what lies above is done first. *)
Fixpoint shr_loop (tab : list Z) (shift l : Z) : list Z * Z :=
  match tab with
  | [] => ([], l)
  | a :: tab =>
      let '(res, l) := shr_loop tab shift l in
      (((a >> shift) .| u64 (l << (64 - shift))) :: res, a)
  end.

Definition mp_shr (tab : list Z) (shift high : Z) : option (list Z * Z) :=
  if (1 <=? shift) && (shift <? 64) then
    let '(res, l) := shr_loop tab shift high in
    Some (res, l .& ((1 << shift) - 1))
  else None.

Fixpoint mp_scan_nz (tab : list Z) : bool :=
  match tab with [] => false | x :: tab => if negb (x =? 0) then true else mp_scan_nz tab end.

(** From the last limb down. *)
Fixpoint mp_cmp (taba tabb : list Z) : option Z :=
  match taba, tabb with
  | [], _ => Some 0
  | a :: taba, b :: tabb =>
      r ← mp_cmp taba tabb;
      Some (if negb (r =? 0) then r else if a =? b then 0 else if a <? b then -1 else 1)
  | _ :: _, [] => None
  end.

(** ** Multiplication *)

Fixpoint mp_mul1 (taba : list Z) (b l : Z) : list Z * Z :=
  match taba with
  | [] => ([], l)
  | x :: taba =>
      let t := u128 (u128 (x * b) + l) in
      let '(res, l) := mp_mul1 taba b (u64 (t >> 64)) in
      (u64 t :: res, l)
  end.

Fixpoint add_mul1_loop (tabr taba : list Z) (b l : Z) : option (list Z * Z) :=
  match taba, tabr with
  | [], _ => Some ([], l)
  | x :: taba, y :: tabr =>
      let t := u128 (u128 (u128 (x * b) + l) + y) in
      '(res, l) ← add_mul1_loop tabr taba b (u64 (t >> 64));
      Some (u64 t :: res, l)
  | _ :: _, [] => None
  end.

Definition mp_add_mul1 (tabr taba : list Z) (b : Z) : option (list Z * Z) :=
  add_mul1_loop tabr taba b 0.

Fixpoint sub_mul1_loop (tabr taba : list Z) (b l : Z) : option (list Z * Z) :=
  match taba, tabr with
  | [], _ => Some ([], l)
  | x :: taba, y :: tabr =>
      let t := u128 (u128 (y - u128 (x * b)) - l) in
      '(res, l) ← sub_mul1_loop tabr taba b (u64 (- (t >> 64)));
      Some (u64 t :: res, l)
  | _ :: _, [] => None
  end.

Definition mp_sub_mul1 (tabr taba : list Z) (b : Z) : option (list Z * Z) :=
  sub_mul1_loop tabr taba b 0.

(** The rounds of [mp_mul_basecase] for the limbs of [op2] from the [i]-th. *)
Fixpoint mul_rounds (op1 op2 : list Z) (i : Z) (result : list Z) : option (list Z) :=
  match op2 with
  | [] => Some result
  | b :: op2 =>
      part ← slice result i (zlen op1);
      '(part, r) ← mp_add_mul1 part op1 b;
      result ← splice result i part;
      result ← aset result (i + zlen op1) r;
      mul_rounds op1 op2 (i + 1) result
  end.

Definition mp_mul_basecase (result op1 op2 : list Z) : option (list Z) :=
  match op2 with
  | [] => None
  | b :: op2 =>
      let '(part, r) := mp_mul1 op1 b 0 in
      result ← splice result 0 part;
      result ← aset result (zlen op1) r;
      mul_rounds op1 op2 1 result
  end.

(** ** Division *)

Definition udiv1norm_init (d : Z) : Z :=
  let a1 := u64 (- d - 1) in
  let a0 := 2 ^ 64 - 1 in
  u64 ((u128 (a1 << 64) .| a0) / d).

(** The quotient and the remainder. *)
Definition udiv1norm (a1 a0 d d_inv : Z) : Z * Z :=
  let n1m := if s64 a0 <? 0 then 2 ^ 64 - 1 else 0 in
  let n_adj := u64 (a0 + (n1m .& d)) in
  let a := u128 (u128 (d_inv * u64 (a1 - n1m)) + n_adj) in
  let q := u64 ((a >> 64) + a1) in
  let a := u128 (a1 << 64) .| a0 in
  let a := u128 (u128 (a - u128 (q * d)) - d) in
  let ah := u64 (a >> 64) in
  let q := u64 (q + (u64 (1 + ah))) in
  let r := u64 (u64 a + (ah .& d)) in
  (q, r).

Definition UDIV1NORM_THRESHOLD : Z := 3.
Definition DIVNORM_LARGE_THRESHOLD : Z := 50.

(** One limb of the quotient: by the inverse, if there is one, or by the
    division of the machine. *)
Definition div_limb (b : Z) (inv : option Z) (r a : Z) : Z * Z :=
  match inv with
  | Some b_inv => udiv1norm r a b b_inv
  | None => let a1 := u128 (r << 64) .| a in (u64 (a1 / b), u64 (a1 mod b))
  end.

Fixpoint div1_loop (taba : list Z) (b : Z) (inv : option Z) (r : Z) : list Z * Z :=
  match taba with
  | [] => ([], r)
  | a :: taba =>
      let '(tabr, r) := div1_loop taba b inv r in
      let '(q, r) := div_limb b inv r a in
      (q :: tabr, r)
  end.

Definition mp_div1norm (taba : list Z) (b r : Z) : list Z * Z :=
  div1_loop taba b
    (if UDIV1NORM_THRESHOLD <=? zlen taba then Some (udiv1norm_init b) else None) r.

(** The loop that adds the divisor back until the result is positive; [top]
    is [taba[i + nb]]. *)
Fixpoint add_back (fuel : nat) (q : Z) (low : list Z) (top : Z) (tabb : list Z) :
    option (Z * list Z * Z) :=
  match fuel with
  | O => None
  | S fuel =>
      let q := u64 (q - 1) in
      '(low, c) ← mp_add low tabb 0;
      if negb (c =? 0) then
        let top := u64 (top + 1) in
        if top =? 0 then Some (q, low, top) else add_back fuel q low top tabb
      else add_back fuel q low top tabb
  end.

(** The body of the main loop of [mp_divnorm] on the limbs
    [taba[i .. i + nb]]: the digit of the quotient and what is left of them. *)
Definition div_digit (w tabb : list Z) (b1 b1_inv : Z) : option (Z * list Z) :=
  let nb := zlen tabb in
  top ← aget w nb;
  next ← aget w (nb - 1);
  let q := if b1 <=? top then 2 ^ 64 - 1
           else fst (div_limb b1 (if negb (b1_inv =? 0) then Some b1_inv else None) top next) in
  low ← slice w 0 nb;
  '(low, r) ← mp_sub_mul1 low tabb q;
  let a := u64 (top - r) in
  '(q, low, a) ← (if top <? a then add_back 3 q low a tabb else Some (q, low, a));
  Some (q, low ++ [a]).

(** The main loop, from [i - 1] down to 0. *)
Fixpoint div_loop (i : nat) (tabq taba tabb : list Z) (b1 b1_inv : Z) :
    option (list Z * list Z) :=
  match i with
  | O => Some (tabq, taba)
  | S i =>
      w ← slice taba (Z.of_nat i) (zlen tabb + 1);
      '(q, w) ← div_digit w tabb b1 b1_inv;
      taba ← splice taba (Z.of_nat i) w;
      tabq ← aset tabq (Z.of_nat i) q;
      div_loop i tabq taba tabb b1 b1_inv
  end.

(** [mp_divnorm_large] is the division of large numbers by a Newton inverse. It
    may run out of memory, for which the inner [None] stands. *)
Definition mp_divnorm (mp_divnorm_large : list Z → list Z → list Z → option (list Z * list Z))
    (tabq taba tabb : list Z) : option (option (list Z * list Z)) :=
  let na := zlen taba in
  let nb := zlen tabb in
  b1 ← aget tabb (nb - 1);
  if nb =? 1 then
    let '(q, r) := mp_div1norm taba b1 0 in
    tabq ← splice tabq 0 q;
    taba ← aset taba 0 r;
    Some (Some (tabq, taba))
  else
    let n := na - nb in
    if DIVNORM_LARGE_THRESHOLD <=? Z.min n nb then Some (mp_divnorm_large tabq taba tabb)
    else
      let b1_inv := if UDIV1NORM_THRESHOLD <=? n then udiv1norm_init b1 else 0 in
      high ← slice taba n nb;
      c ← mp_cmp high tabb;
      let q := if c <? 0 then 0 else 1 in
      tabq ← aset tabq n q;
      taba ← (if negb (q =? 0) then
                '(high, _) ← mp_sub high tabb 0; splice taba n high
              else Some taba);
      r ← div_loop (Z.to_nat n) tabq taba tabb b1 b1_inv;
      Some (Some r).

(** ** The number an array stands for *)

Fixpoint lval (l : list Z) : Z := match l with [] => 0 | x :: l => x + B * lval l end.

Definition limbs : list Z → Prop := Forall is_u64.

(** [B ^ n] for an array of [n] limbs. *)
Definition Bn (n : nat) : Z := B ^ Z.of_nat n.

Lemma Bn_S n : Bn (S n) = B * Bn n.
Proof. unfold Bn. rewrite Nat2Z.inj_succ, Z.pow_succ_r by lia. done. Qed.

Lemma Bn_pos n : 0 < Bn n.
Proof. unfold Bn, B. apply Z.pow_pos_nonneg; lia. Qed.

Lemma Bn_add n m : Bn (n + m) = Bn n * Bn m.
Proof. unfold Bn. rewrite Nat2Z.inj_add, Z.pow_add_r by lia. done. Qed.

Lemma lval_app l r : lval (l ++ r) = lval l + Bn (length l) * lval r.
Proof.
  induction l as [|x l IH]; cbn [app lval length]; [unfold Bn; cbn; lia|].
  rewrite IH, Bn_S. lia.
Qed.

Lemma lval_range l : limbs l → 0 <= lval l < Bn (length l).
Proof.
  induction 1 as [|x l Hx _ IH]; cbn [lval length]; [unfold Bn; cbn; lia|].
  rewrite Bn_S. unfold is_u64 in Hx. unfold B in *. nia.
Qed.

Lemma limbs_app l r : limbs (l ++ r) ↔ limbs l ∧ limbs r.
Proof. apply Forall_app. Qed.

(** ** Carry chains *)

Lemma u64_up x : 0 <= x < 2 * B → x < B ∧ u64 x = x ∨ B <= x ∧ u64 x = x - B.
Proof.
  unfold u64, B. intros Hx. destruct (Z.lt_ge_cases x (2 ^ 64)); [left|right]; (split; [done|]).
  - apply Z.mod_small. lia.
  - symmetry. apply Z.mod_unique with 1; lia.
Qed.

Lemma u64_down x : - B <= x < B → 0 <= x ∧ u64 x = x ∨ x < 0 ∧ u64 x = x + B.
Proof.
  unfold u64, B. intros Hx. destruct (Z.lt_ge_cases x 0); [right|left]; (split; [done|]).
  - symmetry. apply Z.mod_unique with (-1); lia.
  - apply Z.mod_small. lia.
Qed.

Lemma lor_b2z a b : Z.b2z a .| Z.b2z b = Z.b2z (a || b).
Proof. by destruct a, b. Qed.

(** One step of an addition and of a subtraction. *)
Lemma add_limb v w k : is_u64 v → is_u64 w → 0 <= k <= 1 →
  let a := u64 (v + w) in
  let a' := u64 (a + k) in
  let k' := Z.b2z (a' <? k) .| Z.b2z (a <? v) in
  is_u64 a' ∧ 0 <= k' <= 1 ∧ a' + B * k' = v + w + k.
Proof.
  intros Hv Hw Hk. cbn zeta. unfold is_u64 in *. fold B in *.
  assert (B = 2 ^ 64) as HB by done.
  destruct (u64_up (v + w)) as [[? E]|[? E]]; [lia|..]; rewrite E;
    (match goal with |- context [u64 (?x + k)] =>
       destruct (u64_up (x + k)) as [[? ->]|[? ->]]; [lia|..] end);
    rewrite lor_b2z; case_cmp; cbn [orb Z.b2z]; lia.
Qed.

Lemma sub_limb v w k : is_u64 v → is_u64 w → 0 <= k <= 1 →
  let a := u64 (v - w) in
  let a' := u64 (a - k) in
  let k' := Z.b2z (a <? a') .| Z.b2z (v <? a) in
  is_u64 a' ∧ 0 <= k' <= 1 ∧ a' - B * k' = v - w - k.
Proof.
  intros Hv Hw Hk. cbn zeta. unfold is_u64 in *. fold B in *.
  assert (B = 2 ^ 64) as HB by done.
  destruct (u64_down (v - w)) as [[? E]|[? E]]; [lia|..]; rewrite E;
    (match goal with |- context [u64 (?x - k)] =>
       destruct (u64_down (x - k)) as [[? ->]|[? ->]]; [lia|..] end);
    rewrite lor_b2z; case_cmp; cbn [orb Z.b2z]; lia.
Qed.

Lemma mp_add_ok op1 op2 k : limbs op1 → limbs op2 → length op1 = length op2 → 0 <= k <= 1 →
  ∃ res k', mp_add op1 op2 k = Some (res, k') ∧ limbs res ∧ length res = length op1 ∧
    0 <= k' <= 1 ∧ lval res + Bn (length op1) * k' = lval op1 + lval op2 + k.
Proof.
  intros H1. revert op2 k. induction H1 as [|v op1 Hv _ IH]; intros [|w op2] k H2 Hl Hk; try done.
  - exists [], k. split_and!; [done|by constructor|done|lia|lia|]. unfold Bn. cbn. lia.
  - apply Forall_cons in H2 as [Hw H2]. cbn [mp_add].
    destruct (add_limb v w k Hv Hw Hk) as (Ha & Hk' & E).
    destruct (IH op2 _ H2 ltac:(cbn in Hl; lia) Hk') as (res & k' & -> & Hr & Hlr & Hk'' & Er).
    eexists _, _. split; [reflexivity|]. cbn [lval length]. rewrite Bn_S.
    split_and!; [by constructor|by rewrite Hlr|lia|lia|]. lia.
Qed.

Lemma mp_sub_ok op1 op2 k : limbs op1 → limbs op2 → length op1 = length op2 → 0 <= k <= 1 →
  ∃ res k', mp_sub op1 op2 k = Some (res, k') ∧ limbs res ∧ length res = length op1 ∧
    0 <= k' <= 1 ∧ lval res - Bn (length op1) * k' = lval op1 - lval op2 - k.
Proof.
  intros H1. revert op2 k. induction H1 as [|v op1 Hv _ IH]; intros [|w op2] k H2 Hl Hk; try done.
  - exists [], k. split_and!; [done|by constructor|done|lia|lia|]. unfold Bn. cbn. lia.
  - apply Forall_cons in H2 as [Hw H2]. cbn [mp_sub].
    destruct (sub_limb v w k Hv Hw Hk) as (Ha & Hk' & E).
    destruct (IH op2 _ H2 ltac:(cbn in Hl; lia) Hk') as (res & k' & -> & Hr & Hlr & Hk'' & Er).
    eexists _, _. split; [reflexivity|]. cbn [lval length]. rewrite Bn_S.
    split_and!; [by constructor|by rewrite Hlr|lia|lia|]. lia.
Qed.

Lemma mp_neg_ok op2 k : limbs op2 → 0 <= k <= 1 →
  ∃ res k', mp_neg op2 k = (res, k') ∧ limbs res ∧ length res = length op2 ∧ 0 <= k' <= 1 ∧
    lval res - Bn (length op2) * k' = - lval op2 - k.
Proof.
  intros H. revert k. induction H as [|w op2 Hw _ IH]; intros k Hk.
  - exists [], k. split_and!; [done|by constructor|done|lia|lia|]. unfold Bn. cbn. lia.
  - cbn [mp_neg]. destruct (sub_limb 0 w k ltac:(unfold is_u64; lia) Hw Hk) as (Ha & Hk' & E).
    destruct (IH _ Hk') as (res & k' & -> & Hr & Hlr & Hk'' & Er).
    eexists _, _. split; [reflexivity|]. cbn [lval length]. rewrite Bn_S.
    split_and!; [by constructor|by rewrite Hlr|lia|lia|]. lia.
Qed.

Lemma mp_add_ui_ok tab k : limbs tab → is_u64 k →
  ∃ res k', mp_add_ui tab k = (res, k') ∧ limbs res ∧ length res = length tab ∧ is_u64 k' ∧
    lval res + Bn (length tab) * k' = lval tab + k.
Proof.
  intros H. revert k. induction H as [|x tab Hx Ht IH]; intros k Hk; cbn [mp_add_ui].
  - exists [], k. split_and!; [done|by constructor|done|apply Hk..|]. unfold Bn. cbn. lia.
  - destruct (Z.eqb_spec k 0) as [->|Hn].
    + eexists _, _. split_and!; [done|by constructor|done|apply Hk..|]. lia.
    + assert (is_u64 (u64 (x + k)) ∧ u64 (x + k) + B * Z.b2z (u64 (x + k) <? k) = x + k) as [Ha E].
      { split; [apply u64_range|]. unfold is_u64 in *. fold B in *.
        destruct (u64_up (x + k)) as [[? ->]|[? ->]]; [lia|..]; case_cmp; cbn [Z.b2z]; lia. }
      destruct (IH (Z.b2z (u64 (x + k) <? k))) as (res & k' & -> & Hr & Hl & Hk' & Er).
      { unfold is_u64. case_cmp; cbn; lia. }
      eexists _, _. split; [reflexivity|]. cbn [lval length]. rewrite Bn_S.
      split_and!; [by constructor|by rewrite Hl|apply Hk'..|]. lia.
Qed.

Lemma mp_sub_ui_ok tab k : limbs tab → is_u64 k →
  ∃ res k', mp_sub_ui tab k = (res, k') ∧ limbs res ∧ length res = length tab ∧ is_u64 k' ∧
    lval res - Bn (length tab) * k' = lval tab - k.
Proof.
  intros H. revert k. induction H as [|x tab Hx Ht IH]; intros k Hk; cbn [mp_sub_ui].
  - exists [], k. split_and!; [done|by constructor|done|apply Hk..|]. unfold Bn. cbn. lia.
  - assert (is_u64 (u64 (x - k)) ∧ u64 (x - k) - B * Z.b2z (x <? u64 (x - k)) = x - k) as [Ha E].
    { split; [apply u64_range|]. unfold is_u64 in *. fold B in *.
      assert (B = 2 ^ 64) as HB by done.
      destruct (u64_down (x - k)) as [[? ->]|[? ->]]; [lia|..]; case_cmp; cbn [Z.b2z]; lia. }
    destruct (Z.b2z (x <? u64 (x - k)) =? 0) eqn:Ek.
    + apply Z.eqb_eq in Ek. rewrite Ek in *. eexists _, _. split; [reflexivity|].
      cbn [lval length]. split_and!; [by constructor|done|unfold is_u64; lia|]. lia.
    + destruct (IH (Z.b2z (x <? u64 (x - k)))) as (res & k' & -> & Hr & Hl & Hk' & Er).
      { unfold is_u64. case_cmp; cbn; lia. }
      eexists _, _. split; [reflexivity|]. cbn [lval length]. rewrite Bn_S.
      split_and!; [by constructor|by rewrite Hl|apply Hk'..|]. lia.
Qed.

(** ** Comparison *)

Lemma mp_cmp_ok taba tabb : limbs taba → limbs tabb → length taba = length tabb →
  ∃ r, mp_cmp taba tabb = Some r ∧ (r = -1 ∨ r = 0 ∨ r = 1) ∧
    (r < 0 ↔ lval taba < lval tabb) ∧ (r = 0 ↔ lval taba = lval tabb).
Proof.
  intros H. revert tabb. induction H as [|a taba Ha Ht IH]; intros [|b tabb] Hb Hl; try done.
  - exists 0. cbn. split_and!; [done|auto|lia|lia].
  - apply Forall_cons in Hb as [Hb Hbs]. cbn [mp_cmp lval].
    destruct (IH tabb Hbs ltac:(cbn in Hl; lia)) as (r & -> & Hr & Hlt & Heq).
    eexists. split; [reflexivity|]. unfold is_u64 in *. fold B in *.
    assert (B = 2 ^ 64) as HB by done. clear IH Ht Hbs.
    destruct (Z.lt_trichotomy (lval taba) (lval tabb)) as [H|[H|H]];
      case_cmp; cbn [negb]; try lia; split_and!; try lia; nia.
Qed.

(** ** Products with one limb *)

Lemma u128_id x : 0 <= x < B * B → u128 x = x.
Proof. intros Hx. apply Z.mod_small. exact Hx. Qed.

Lemma u64_split t : 0 <= t < B * B → is_u64 (u64 t) ∧ is_u64 (u64 (t >> 64)) ∧
  u64 t + B * u64 (t >> 64) = t.
Proof.
  intros Ht. split; [apply u64_range|]. split; [apply u64_range|].
  rewrite Z.shiftr_div_pow2 by lia. change (2 ^ 64) with B.
  pose proof (Z.div_mod t B ltac:(done)). unfold u64. change (2 ^ 64) with B.
  rewrite (Z.mod_small (t / B)).
  - lia.
  - split; [apply Z.div_pos; [lia|done]|]. apply Z.div_lt_upper_bound; [done|lia].
Qed.

Lemma mul_limb x b l : is_u64 x → is_u64 b → is_u64 l →
  0 <= x * b ∧ x * b + l < B * B - B + 1.
Proof. unfold is_u64. change (2 ^ 64) with B. intros. split; nia. Qed.

Lemma mp_mul1_ok taba b l : limbs taba → is_u64 b → is_u64 l →
  ∃ res l', mp_mul1 taba b l = (res, l') ∧ limbs res ∧ length res = length taba ∧ is_u64 l' ∧
    lval res + Bn (length taba) * l' = lval taba * b + l.
Proof.
  intros H Hb. revert l. induction H as [|x taba Hx _ IH]; intros l Hl; cbn [mp_mul1].
  - exists [], l. split_and!; [done|by constructor|done|apply Hl..|]. unfold Bn. cbn. lia.
  - destruct (mul_limb x b l Hx Hb Hl) as [H0 H1]. pose proof (proj1 Hl).
    rewrite (u128_id (x * b)), u128_id by (unfold B in *; lia).
    destruct (u64_split (x * b + l)) as (Ht & Hc & E); [unfold B in *; lia|].
    destruct (IH _ Hc) as (res & l' & -> & Hr & Hlr & Hl' & Er).
    eexists _, _. split; [reflexivity|]. cbn [lval length]. rewrite Bn_S.
    split_and!; [by constructor|by rewrite Hlr|apply Hl'..|]. lia.
Qed.

Lemma add_mul1_ok tabr taba b l : limbs tabr → limbs taba → length tabr = length taba →
  is_u64 b → is_u64 l →
  ∃ res l', add_mul1_loop tabr taba b l = Some (res, l') ∧ limbs res ∧ length res = length taba ∧
    is_u64 l' ∧ lval res + Bn (length taba) * l' = lval tabr + lval taba * b + l.
Proof.
  intros Hr H. revert tabr l Hr. induction H as [|x taba Hx _ IH]; intros [|y tabr] l Hr Hlen Hb Hl;
    try done; cbn [add_mul1_loop].
  - exists [], l. split_and!; [done|by constructor|done|apply Hl..|]. unfold Bn. cbn. lia.
  - apply Forall_cons in Hr as [Hy Hr]. destruct (mul_limb x b l Hx Hb Hl) as [H0 H1].
    pose proof (proj1 Hl). unfold is_u64 in Hy. change (2 ^ 64) with B in Hy.
    rewrite (u128_id (x * b)), (u128_id (x * b + l)), u128_id by (unfold B in *; lia).
    destruct (u64_split (x * b + l + y)) as (Ht & Hc & E); [unfold B in *; lia|].
    destruct (IH tabr _ Hr ltac:(cbn in Hlen; lia) Hb Hc) as (res & l' & -> & Hr' & Hlr & Hl' & Er).
    eexists _, _. split; [reflexivity|]. cbn [lval length]. rewrite Bn_S.
    split_and!; [by constructor|by rewrite Hlr|apply Hl'..|]. lia.
Qed.

(** The borrow is the quotient by [B], rounded down, with the sign changed. *)
Lemma sub_mul_limb x b y l : is_u64 x → is_u64 b → is_u64 y → is_u64 l →
  let t := u128 (u128 (y - u128 (x * b)) - l) in
  is_u64 (u64 t) ∧ is_u64 (u64 (- (t >> 64))) ∧ u64 t - B * u64 (- (t >> 64)) = y - x * b - l.
Proof.
  intros Hx Hb Hy Hl. cbn zeta. split; [apply u64_range|]. split; [apply u64_range|].
  destruct (mul_limb x b l Hx Hb Hl) as [H0 H1]. unfold is_u64 in Hy, Hl. change (2 ^ 64) with B in Hy, Hl.
  set (v := y - x * b - l).
  assert (u128 (u128 (y - u128 (x * b)) - l) = v mod (B * B)) as ->.
  { rewrite (u128_id (x * b)) by lia. unfold u128. change (2 ^ 128) with (B * B).
    rewrite Zminus_mod_idemp_l. done. }
  rewrite Z.shiftr_div_pow2 by lia. unfold u64. change (2 ^ 64) with B.
  assert (HB : B = 2 ^ 64) by done.
  assert (B - B * B <= v < B) as Hv by (unfold v; lia). clearbody v. clear - Hv HB.
  pose proof (Z.div_mod v B ltac:(lia)) as Hd. pose proof (Z.mod_pos_bound v B ltac:(lia)) as Hm.
  rewrite Z.mod_mod_divide by (by exists B).
  assert (- (v mod (B * B) / B) mod B = - (v / B)) as ->; [|lia].
  assert (- B < v / B <= 0) as Hq.
  { enough (1 - B <= v / B /\ v / B < 1) by lia.
    split; [apply Z.div_le_lower_bound|apply Z.div_lt_upper_bound]; lia. }
  destruct (Z.lt_ge_cases v 0).
  - rewrite <- (Z.mod_unique v (B * B) (-1) (v + B * B)) by lia.
    rewrite Z.div_add by lia. symmetry. apply Z.mod_unique with (-1); lia.
  - rewrite (Z.mod_small v) by nia. rewrite (Z.div_small v B) by lia. done.
Qed.

Lemma sub_mul1_ok tabr taba b l : limbs tabr → limbs taba → length tabr = length taba →
  is_u64 b → is_u64 l →
  ∃ res l', sub_mul1_loop tabr taba b l = Some (res, l') ∧ limbs res ∧ length res = length taba ∧
    is_u64 l' ∧ lval res - Bn (length taba) * l' = lval tabr - lval taba * b - l.
Proof.
  intros Hr H. revert tabr l Hr. induction H as [|x taba Hx _ IH]; intros [|y tabr] l Hr Hlen Hb Hl;
    try done; cbn [sub_mul1_loop].
  - exists [], l. split_and!; [done|by constructor|done|apply Hl..|]. unfold Bn. cbn. lia.
  - apply Forall_cons in Hr as [Hy Hr].
    destruct (sub_mul_limb x b y l Hx Hb Hy Hl) as (Ht & Hc & E).
    destruct (IH tabr _ Hr ltac:(cbn in Hlen; lia) Hb Hc) as (res & l' & -> & Hr' & Hlr & Hl' & Er).
    eexists _, _. split; [reflexivity|]. cbn [lval length]. rewrite Bn_S.
    split_and!; [by constructor|by rewrite Hlr|apply Hl'..|]. lia.
Qed.

(** ** Shifting *)

Lemma shr_limb a l s : is_u64 a → 0 <= l → 1 <= s < 64 →
  let r := (a >> s) .| u64 (l << (64 - s)) in
  is_u64 r ∧ r * 2 ^ s + a mod 2 ^ s = a + B * (l mod 2 ^ s).
Proof.
  intros Ha Hl Hs. cbn zeta.
  assert (B = 2 ^ (64 - s) * 2 ^ s) as HB by (unfold B; rewrite <- Z.pow_add_r by lia; f_equal; lia).
  assert (u64 (l << (64 - s)) = (l mod 2 ^ s) * 2 ^ (64 - s)) as ->.
  { rewrite Z.shiftl_mul_pow2 by lia. unfold u64. fold B. rewrite HB, (Z.mul_comm (2 ^ (64 - s))).
    rewrite Z.mul_mod_distr_r by (apply Z.pow_nonzero; lia). done. }
  rewrite Z.shiftr_div_pow2 by lia.
  pose proof (Z.mod_pos_bound l (2 ^ s) ltac:(apply Z.pow_pos_nonneg; lia)) as Hm.
  pose proof (Z.pow_pos_nonneg 2 s ltac:(lia) ltac:(lia)) as Hp.
  pose proof (Z.pow_pos_nonneg 2 (64 - s) ltac:(lia) ltac:(lia)) as Hp'.
  unfold is_u64 in Ha. fold B in Ha.
  assert (0 <= a / 2 ^ s < 2 ^ (64 - s)) as Hd.
  { split; [apply Z.div_pos; lia|]. apply Z.div_lt_upper_bound; lia. }
  rewrite Z.lor_comm, lor_low_high by (done || lia).
  pose proof (Z.div_mod a (2 ^ s) ltac:(lia)). unfold is_u64. fold B. split; nia.
Qed.

Lemma shr_loop_ok tab s high : limbs tab → 0 <= high → 1 <= s < 64 →
  ∃ res l, shr_loop tab s high = (res, l) ∧ limbs res ∧ length res = length tab ∧ 0 <= l ∧
    lval res * 2 ^ s + l mod 2 ^ s = lval tab + Bn (length tab) * (high mod 2 ^ s).
Proof.
  intros H Hh Hs. induction H as [|a tab Ha _ IH]; cbn [shr_loop].
  - exists [], high. split_and!; [done|by constructor|done|done|]. unfold Bn. cbn [lval length Z.of_nat]. lia.
  - destruct IH as (res & l & -> & Hr & Hlr & Hl & E).
    destruct (shr_limb a l s Ha Hl Hs) as [Hr0 E0].
    eexists _, _. split; [reflexivity|]. cbn [lval length]. rewrite Bn_S.
    split_and!; [by constructor|by rewrite Hlr|apply Ha|]. lia.
Qed.

(** [mp_shr] divides by a power of two and returns the remainder. *)
Lemma mp_shr_ok tab s high : limbs tab → 1 <= s < 64 → 0 <= high < 2 ^ s →
  ∃ res, mp_shr tab s high = Some (res, (lval tab + Bn (length tab) * high) mod 2 ^ s) ∧
    limbs res ∧ length res = length tab ∧
    lval res = (lval tab + Bn (length tab) * high) / 2 ^ s.
Proof.
  intros Ht Hs Hh. unfold mp_shr.
  destruct (shr_loop_ok tab s high Ht ltac:(lia) Hs) as (res & l & -> & Hr & Hl & Hp & E).
  rewrite (Z.mod_small high) in E by lia.
  pose proof (Z.mod_pos_bound l (2 ^ s) ltac:(lia)) as Hm.
  exists res. split_and!; [|done|done|].
  - case_cmp; cbn [andb]; try lia. do 2 f_equal.
    rewrite Z.shiftl_1_l, land_ones_mod by lia.
    apply Z.mod_unique with (lval res); lia.
  - apply Z.div_unique with (l mod 2 ^ s); lia.
Qed.

(** ** Schoolbook multiplication *)

Lemma aset_mid {A} (pre post : list A) x y i : i = zlen pre →
  aset (pre ++ x :: post) i y = Some (pre ++ y :: post).
Proof.
  intros ->. rewrite aset_Some by (rewrite length_app; cbn; lia).
  by rewrite Nat2Z.id, insert_app_r_alt, Nat.sub_diag by lia.
Qed.

(** A round adds [op1] times a limb at its place: the low part [res] of the
    result is the product so far. *)
Lemma mul_rounds_ok op1 op2 pre mid post : op1 ≠ [] → limbs op1 → limbs op2 → limbs pre → limbs mid →
  length mid = length op1 → length post = length op2 →
  ∃ res, mul_rounds op1 op2 (zlen pre) (pre ++ mid ++ post) = Some res ∧ limbs res ∧
    length res = (length pre + length mid + length post)%nat ∧
    lval res = lval pre + Bn (length pre) * (lval mid + lval op1 * lval op2).
Proof.
  intros Hne H1 H2. revert pre mid post.
  induction H2 as [|b op2 Hb _ IH]; intros pre mid post Hp Hm Hlm Hlp; cbn [mul_rounds].
  - destruct post; [|done]. rewrite app_nil_r. eexists. split; [reflexivity|].
    rewrite limbs_app, lval_app, length_app. split_and!; [done|done|cbn; lia|cbn; lia].
  - destruct post as [|x post]; [done|].
    rewrite slice_mid by (done || by rewrite Hlm). cbn [mbind option_bind]. unfold mp_add_mul1.
    destruct (add_mul1_ok mid op1 b 0 Hm H1 Hlm Hb) as (part & r & -> & Hpart & Hlpart & Hr & E).
    { unfold is_u64. lia. }
    cbn [mbind option_bind]. rewrite splice_mid by (done || by rewrite Hlpart). cbn [mbind option_bind].
    rewrite app_assoc, aset_mid by (rewrite length_app, Hlpart; lia). cbn [mbind option_bind].
    destruct part as [|p0 part]; [by destruct op1|].
    replace ((pre ++ p0 :: part) ++ r :: post) with ((pre ++ [p0]) ++ (part ++ [r]) ++ post)
      by (by rewrite <- !app_assoc).
    replace (zlen pre + 1) with (zlen (pre ++ [p0])) by (rewrite length_app; cbn; lia).
    apply Forall_cons in Hpart as [Hp0 Hpart].
    destruct (IH (pre ++ [p0]) (part ++ [r]) post) as (res & -> & Hres & Hlres & Eres).
    + apply limbs_app. split; [done|by repeat constructor; apply Hp0].
    + apply limbs_app. split; [done|by repeat constructor; apply Hr].
    + rewrite length_app. cbn in *. lia.
    + cbn in Hlp. lia.
    + exists res. split_and!; [done|done|rewrite Hlres, !length_app; cbn in *; lia|].
      rewrite Eres, !lval_app, !length_app, Bn_add. cbn [lval length] in *.
      replace (Bn 1) with B by (unfold Bn; cbn; lia). rewrite <- Hlpart, Bn_S in E. lia.
Qed.

(** Schoolbook multiplication is multiplication: on factors of any
    positive sizes and a result array of the sum of the sizes, whatever it
    held before, [mp_mul_basecase] stays in bounds and leaves the limbs of the
    product. *)
Lemma mp_mul_basecase_product result op1 op2 :
  limbs op1 → limbs op2 → op1 ≠ [] → op2 ≠ [] → length result = (length op1 + length op2)%nat →
  ∃ res, mp_mul_basecase result op1 op2 = Some res ∧ limbs res ∧ length res = length result ∧
    lval res = lval op1 * lval op2.
Proof.
  intros H1 H2 Hne Hne2 Hl. destruct H2 as [|b op2 Hb H2]; [done|]. cbn [mp_mul_basecase].
  destruct (mp_mul1_ok op1 b 0 H1 Hb) as (part & r & -> & Hp & Hlp & Hr & E); [unfold is_u64; lia|].
  rewrite <- (take_drop (length op1) result). set (old := take (length op1) result).
  assert (length old = length op1) as Hold by (unfold old; rewrite length_take; cbn in Hl; lia).
  destruct (drop (length op1) result) as [|x post] eqn:Ed.
  { apply (f_equal length) in Ed. rewrite length_drop in Ed. cbn in *. lia. }
  assert (length post = length op2) as Hpost.
  { apply (f_equal length) in Ed. rewrite length_drop in Ed. cbn in *. lia. }
  pose proof (splice_mid [] old (x :: post) part 0 eq_refl ltac:(congruence)) as Es.
  cbn [app] in Es. rewrite Es. cbn [mbind option_bind].
  rewrite aset_mid by congruence. cbn [mbind option_bind].
  destruct part as [|p0 part]; [by destruct op1|]. apply Forall_cons in Hp as [Hp0 Hp].
  replace ((p0 :: part) ++ r :: post) with ([p0] ++ (part ++ [r]) ++ post)
    by (by rewrite <- !app_assoc).
  destruct (mul_rounds_ok op1 op2 [p0] (part ++ [r]) post) as (res & Er & Hres & Hlres & Eres);
    [done|done|done|by constructor| | |done|].
  - apply limbs_app. split; [done|by constructor].
  - rewrite length_app. cbn in *. lia.
  - exists res. split_and!; [exact Er|done| |].
    + rewrite Hlres, !length_app. cbn in *. lia.
    + rewrite Eres, lval_app. cbn [lval length] in *. replace (Bn 1) with B by (unfold Bn; cbn; lia).
      rewrite <- Hlp, Bn_S in E. lia.
Qed.

(** ** Division of two limbs by one *)

(** A normalised divisor. *)
Definition norm (d : Z) : Prop := 2 ^ 63 <= d < 2 ^ 64.

Lemma two_limbs a1 a0 : is_u64 a1 → is_u64 a0 → u128 (a1 << 64) .| a0 = a1 * B + a0.
Proof.
  intros H1 H0. rewrite Z.shiftl_mul_pow2 by lia. fold B.
  rewrite u128_id by (unfold is_u64, B in *; lia). apply lor_low_high; [lia|exact H0].
Qed.

(** The inverse: [(B + v) * d] is the largest multiple of [d] below [B * B]. *)
Lemma udiv1norm_init_ok d : norm d →
  is_u64 (udiv1norm_init d) ∧ ∃ k, 1 <= k <= d ∧ (B + udiv1norm_init d) * d = B * B - k.
Proof.
  intros Hd. unfold udiv1norm_init, norm in *. assert (HB : B = 2 ^ 64) by done.
  assert (u64 (- d - 1) = B - d - 1) as ->.
  { destruct (u64_down (- d - 1)) as [[? ?]|[? ->]]; lia. }
  rewrite two_limbs by (unfold is_u64; lia). fold B.
  set (n := (B - d - 1) * B + (B - 1)).
  pose proof (Z.div_mod n d ltac:(lia)) as Hn. pose proof (Z.mod_pos_bound n d ltac:(lia)) as Hm.
  assert (0 <= n / d < B) as Hq.
  { split; [apply Z.div_pos; unfold n; nia|]. apply Z.div_lt_upper_bound; [lia|]. unfold n. nia. }
  rewrite u64_id by exact Hq. split; [exact Hq|]. exists (n mod d + 1). unfold n in *. lia.
Qed.

(** The estimate of the quotient is right or one too small. *)
Lemma div_estimate a1 a0 d v k (t : bool) : 2 ^ 63 <= d < B → 0 <= a1 < d → 0 <= a0 < B →
  t = (2 ^ 63 <=? a0) → 1 <= k <= d → (B + v) * d = B * B - k →
  let q := (v * (a1 + Z.b2z t) + (a0 + Z.b2z t * (d - B))) / B + a1 in
  0 <= a1 * B + a0 - q * d < 2 * d.
Proof.
  intros Hd H1 H0 Ht Hk Hv q. assert (HB : B = 2 * 2 ^ 63) by done.
  set (X := v * (a1 + Z.b2z t) + (a0 + Z.b2z t * (d - B))) in q.
  pose proof (Z.div_mod X B ltac:(lia)) as HX. pose proof (Z.mod_pos_bound X B ltac:(lia)) as Hm.
  set (n := a1 * B + a0 - q * d).
  assert (B * n = a0 * (B - d) + k * (a1 + Z.b2z t) - Z.b2z t * ((B - d) * (B - d)) + X mod B * d) as E.
  { assert (v * d = B * B - k - B * d) as Hv' by lia.
    assert (X * d = (B * B - k - B * d) * (a1 + Z.b2z t) + (a0 + Z.b2z t * (d - B)) * d) as HXd.
    { unfold X. rewrite <- Hv'. lia. }
    assert (B * (X / B) * d = X * d - X mod B * d) as Hq by (rewrite HX at 2; lia).
    unfold n, q. destruct t; cbn [Z.b2z] in *; lia. }
  assert (0 <= B * n < B * (2 * d)) as [Hn1 Hn2].
  2: { split; [apply Z.mul_nonneg_cancel_l with B; lia|apply Z.mul_lt_mono_pos_l with B; lia]. }
  rewrite E. clear E. clearbody n q. clear n q HX Hv. revert Hm. generalize (X mod B).
  clear X. intros x Hx. symmetry in Ht.
  assert (0 <= x * d <= (B - 1) * d) as Hxd
    by (split; [apply Z.mul_nonneg_nonneg|apply Z.mul_le_mono_nonneg_r]; lia).
  destruct t; cbn [Z.b2z].
  - apply Z.leb_le in Ht.
    assert (0 <= k * (a1 + 1) <= d * d) as Hka
      by (split; [apply Z.mul_nonneg_nonneg|apply Z.mul_le_mono_nonneg]; lia).
    assert ((B - d) * (B - d) <= a0 * (B - d) <= (B - 1) * (B - d)) as Ha
      by (split; apply Z.mul_le_mono_nonneg_r; lia). lia.
  - apply Z.leb_gt in Ht.
    assert (0 <= k * (a1 + 0) <= d * (d - 1)) as Hka
      by (split; [apply Z.mul_nonneg_nonneg|apply Z.mul_le_mono_nonneg]; lia).
    assert (0 <= a0 * (B - d) <= 2 ^ 63 * (B - d)) as Ha
      by (split; [apply Z.mul_nonneg_nonneg|apply Z.mul_le_mono_nonneg_r]; lia).
    assert (0 <= (B - d) * (d - 2 ^ 63)) as Hs by (apply Z.mul_nonneg_nonneg; lia). lia.
Qed.

Lemma land_ones_word x : is_u64 x → (2 ^ 64 - 1) .& x = x.
Proof. intros Hx. rewrite Z.land_comm, land_ones_mod by lia. by apply Z.mod_small. Qed.

(** The last correction: from the remainder of the quotient plus one. *)
Lemma div_correct q d v : 2 ^ 63 <= d < B → - d <= v < d → 0 <= q → q + 1 < B ∨ (v < 0 ∧ q < B) →
  let a := v mod (B * B) in
  let ah := u64 (a >> 64) in
  (u64 (q + u64 (1 + ah)), u64 (u64 a + (ah .& d))) =
    if v <? 0 then (q, v + d) else (q + 1, v).
Proof.
  intros Hd Hv Hq0 Hq. cbn zeta. assert (HB : B = 2 ^ 64) by done.
  rewrite Z.shiftr_div_pow2 by lia. fold B. destruct (Z.ltb_spec v 0).
  - rewrite <- (Z.mod_unique v (B * B) (-1) (v + B * B)) by lia.
    rewrite Z.div_add, <- (Z.div_unique v B (-1) (v + B)) by lia.
    rewrite (u64_id (-1 + B)) by (unfold is_u64; lia).
    replace (-1 + B) with (2 ^ 64 - 1) by lia. rewrite land_ones_word by (unfold is_u64; lia).
    replace (u64 (1 + (2 ^ 64 - 1))) with 0 by done. rewrite Z.add_0_r.
    rewrite (u64_id q) by (unfold is_u64; lia). f_equal.
    assert (u64 (v + B * B) = v + B) as ->.
    { unfold u64. fold B. symmetry. apply Z.mod_unique with (B - 1); lia. }
    destruct (u64_up (v + B + d)) as [[? ?]|[? ->]]; lia.
  - rewrite (Z.mod_small v), (Z.div_small v) by lia.
    replace (u64 (1 + u64 0)) with 1 by done. replace (u64 0 .& d) with 0 by done.
    rewrite Z.add_0_r, !u64_id by (unfold is_u64; try lia; rewrite u64_id; unfold is_u64; lia). done.
Qed.

(** From an estimate that is right or one too small. *)
Lemma div_finish n q d : 2 ^ 63 <= d < B → 0 <= q → 0 <= n < B * d → 0 <= n - q * d < 2 * d →
  q < B ∧
  let a := u128 (u128 (n - u128 (q * d)) - d) in
  let ah := u64 (a >> 64) in
  (u64 (q + u64 (1 + ah)), u64 (u64 a + (ah .& d))) = (n / d, n mod d).
Proof.
  intros Hd Hq0 Hn He. assert (HB : B = 2 ^ 64) by done.
  assert (q < B) as HqB by (apply Z.mul_lt_mono_pos_r with d; lia). split; [done|]. cbn zeta.
  assert (0 <= q * d <= (B - 1) * (B - 1)) as Hqd.
  { split; [apply Z.mul_nonneg_nonneg|apply Z.mul_le_mono_nonneg]; lia. }
  assert (u128 (u128 (n - u128 (q * d)) - d) = (n - q * d - d) mod (B * B)) as ->.
  { rewrite (u128_id (q * d)) by lia. unfold u128. change (2 ^ 128) with (B * B).
    by rewrite Zminus_mod_idemp_l. }
  rewrite div_correct; [|lia|lia|lia|].
  - destruct (Z.ltb_spec (n - q * d - d) 0); f_equal.
    + apply Z.div_unique_pos with (n - q * d); lia.
    + apply Z.mod_unique_pos with q; lia.
    + apply Z.div_unique_pos with (n - q * d - d); lia.
    + apply Z.mod_unique_pos with (q + 1); lia.
  - destruct (Z.lt_ge_cases (n - q * d - d) 0); [right; lia|left].
    apply Z.mul_lt_mono_pos_r with d; lia.
Qed.

(** Division of two limbs by a normalised limb through its inverse is division. *)
Lemma udiv1norm_ok a1 a0 d : norm d → 0 <= a1 < d → is_u64 a0 →
  udiv1norm a1 a0 d (udiv1norm_init d) = ((a1 * B + a0) / d, (a1 * B + a0) mod d).
Proof.
  intros Hd H1 H0. destruct (udiv1norm_init_ok d Hd) as (Hv & k & Hk & Ek).
  unfold norm in Hd. unfold is_u64 in H0, Hv. fold B in Hd, H0, Hv. assert (HB : B = 2 ^ 64) by done.
  set (v := udiv1norm_init d) in *. set (t := 2 ^ 63 <=? a0).
  pose proof (div_estimate a1 a0 d v k t ltac:(lia) H1 H0 eq_refl Hk Ek) as He. cbn zeta in He.
  unfold udiv1norm.
  assert ((if s64 a0 <? 0 then 2 ^ 64 - 1 else 0) = Z.b2z t * (B - 1)) as ->.
  { unfold t, s64. rewrite u64_id by exact H0.
    destruct (Z.ltb_spec a0 (2 ^ 63)), (Z.leb_spec (2 ^ 63) a0); try lia;
      case_cmp; cbn [Z.b2z]; lia. }
  assert (u64 (a0 + (Z.b2z t * (B - 1) .& d)) = a0 + Z.b2z t * (d - B)) as ->.
  { unfold t. destruct (Z.leb_spec (2 ^ 63) a0); cbn [Z.b2z]; rewrite ?Z.mul_1_l, ?Z.mul_0_l.
    - rewrite HB, land_ones_word by (unfold is_u64; lia). rewrite <- HB.
      destruct (u64_up (a0 + d)) as [[? ?]|[? ->]]; lia.
    - rewrite Z.land_0_l, Z.add_0_r. by apply u64_id. }
  assert (u64 (a1 - Z.b2z t * (B - 1)) = a1 + Z.b2z t) as ->.
  { unfold t. destruct (2 ^ 63 <=? a0); cbn [Z.b2z]; rewrite ?Z.mul_1_l, ?Z.mul_0_l.
    - destruct (u64_down (a1 - (B - 1))) as [[? ->]|[? ->]]; lia.
    - rewrite Z.sub_0_r, Z.add_0_r. apply u64_id. unfold is_u64. lia. }
  assert (0 <= a0 + Z.b2z t * (d - B) < B) as Hadj
    by (unfold t; destruct (Z.leb_spec (2 ^ 63) a0); cbn [Z.b2z]; lia).
  assert (0 <= v * (a1 + Z.b2z t) <= (B - 1) * (B - 1)) as Hp.
  { assert (0 <= Z.b2z t <= 1) by (by destruct t).
    split; [apply Z.mul_nonneg_nonneg|apply Z.mul_le_mono_nonneg]; lia. }
  rewrite (u128_id (v * (a1 + Z.b2z t))), u128_id by lia.
  revert Hp Hadj He. generalize (a0 + Z.b2z t * (d - B)) (v * (a1 + Z.b2z t)).
  intros adj p Hp Hadj He. clear t k Hk Ek. clearbody v.
  set (n := a1 * B + a0) in *. set (q := (p + adj) / B + a1) in *.
  assert (0 <= a1 * B <= (d - 1) * B) as Ha1
    by (split; [apply Z.mul_nonneg_nonneg|apply Z.mul_le_mono_nonneg_r]; lia).
  assert (0 <= n < B * d) as Hn by (unfold n; lia).
  assert (0 <= q) as Hq0.
  { unfold q. enough (0 <= (p + adj) / B) by lia. apply Z.div_pos; lia. }
  destruct (div_finish n q d ltac:(lia) Hq0 Hn He) as [HqB <-].
  assert (u64 (((p + adj) >> 64) + a1) = q) as ->.
  { rewrite Z.shiftr_div_pow2 by lia. apply u64_id. unfold is_u64. fold B. fold q. lia. }
  by rewrite two_limbs by (unfold is_u64; lia).
Qed.

(** Both ways to divide agree. *)
Lemma div_limb_ok b inv r a : norm b → 0 <= r < b → is_u64 a →
  (∀ v, inv = Some v → v = udiv1norm_init b) →
  div_limb b inv r a = ((r * B + a) / b, (r * B + a) mod b).
Proof.
  intros Hb Hr Ha Hinv. destruct inv as [v|]; cbn [div_limb].
  - rewrite (Hinv v eq_refl). by apply udiv1norm_ok.
  - unfold norm in Hb. unfold is_u64 in Ha. change (2 ^ 64) with B in Hb, Ha.
    rewrite two_limbs by (unfold is_u64; fold B; lia).
    pose proof (Z.mod_pos_bound (r * B + a) b ltac:(lia)).
    rewrite !u64_id; [done|unfold is_u64; fold B; lia|]. unfold is_u64. fold B.
    split; [apply Z.div_pos; [|lia]; assert (HB : B = 2 ^ 64) by done; nia|].
    apply Z.div_lt_upper_bound; [lia|].
    assert (r * B <= (b - 1) * B) by (apply Z.mul_le_mono_nonneg_r; lia). lia.
Qed.

Lemma div1_loop_ok taba b inv r : norm b → 0 <= r < b → limbs taba →
  (∀ v, inv = Some v → v = udiv1norm_init b) →
  ∃ q r', div1_loop taba b inv r = (q, r') ∧ limbs q ∧ length q = length taba ∧ 0 <= r' < b ∧
    lval taba + Bn (length taba) * r = lval q * b + r'.
Proof.
  intros Hb Hr Ht Hinv. induction Ht as [|a taba Ha _ IH]; cbn [div1_loop].
  - exists [], r. split_and!; [done|by constructor|done|lia|lia|]. unfold Bn. cbn. lia.
  - destruct IH as (q & r' & -> & Hq & Hlq & Hr' & E). rewrite div_limb_ok by done.
    eexists _, _. split; [reflexivity|]. cbn [lval length]. rewrite Bn_S.
    unfold norm in Hb. unfold is_u64 in Ha. change (2 ^ 64) with B in Hb, Ha.
    assert (HB : B = 2 ^ 64) by done.
    pose proof (Z.div_mod (r' * B + a) b ltac:(lia)).
    pose proof (Z.mod_pos_bound (r' * B + a) b ltac:(lia)).
    split_and!; [constructor; [|done]|by rewrite Hlq|lia|lia|lia].
    assert (r' * B <= (b - 1) * B) by (apply Z.mul_le_mono_nonneg_r; lia).
    split; [apply Z.div_pos; lia|]. apply Z.div_lt_upper_bound; lia.
Qed.

Lemma mp_div1norm_ok taba b r : norm b → 0 <= r < b → limbs taba →
  ∃ q r', mp_div1norm taba b r = (q, r') ∧ limbs q ∧ length q = length taba ∧ 0 <= r' < b ∧
    lval taba + Bn (length taba) * r = lval q * b + r'.
Proof.
  intros Hb Hr Ht. apply div1_loop_ok; [done..|]. intros v. by destruct (_ <=? _); intros; simplify_eq.
Qed.

(** ** Schoolbook division *)

(** Knuth's bound: dividing the leading limbs by a normalised leading limb
    gives a digit that is at most two too large. *)
Lemma digit_estimate W N Wl b b1 bl P qh : 0 < P → norm b1 → 0 <= Wl < P → 0 <= bl < P →
  0 <= N → W = N * P + Wl → b = b1 * P + bl → W < B * b → 0 <= qh < B → qh * b1 <= N →
  (qh = B - 1 ∨ N < (qh + 1) * b1) → - 2 * b <= W - qh * b < b.
Proof.
  intros HP Hb1 HWl Hbl HN HW Hb HWb Hq Hqb Hqe. unfold norm in Hb1.
  assert (B = 2 * 2 ^ 63) as HB by done.
  assert (qh * b1 * P <= N * P) as H1 by (apply Z.mul_le_mono_nonneg_r; lia).
  assert (qh * bl <= (B - 1) * P) as H2 by (apply Z.mul_le_mono_nonneg; lia).
  assert (2 ^ 63 * P <= b1 * P) as H3 by (apply Z.mul_le_mono_nonneg_r; lia).
  split; [lia|]. destruct Hqe as [->|Hqe]; [lia|].
  assert ((N + 1) * P <= (qh + 1) * b1 * P) as H4 by (apply Z.mul_le_mono_nonneg_r; lia).
  assert (0 <= (qh + 1) * bl) as H5 by (apply Z.mul_nonneg_nonneg; lia). lia.
Qed.

(** [add_back] makes a negative remainder positive again, within as many
    rounds as the digit was too large. *)
Lemma add_back_ok fuel q low top tabb W : limbs low → limbs tabb → length low = length tabb →
  is_u64 top → 0 <= q < B → 0 <= W →
  W - q * lval tabb = lval low + Bn (length tabb) * (top - B) →
  - Z.of_nat fuel * lval tabb <= W - q * lval tabb < 0 →
  ∃ q' low', add_back fuel q low top tabb = Some (q', low', 0) ∧ limbs low' ∧
    length low' = length tabb ∧ 0 <= q' < B ∧ lval low' = W - q' * lval tabb ∧
    lval low' < lval tabb.
Proof.
  intros Hlow Hb. pose proof (lval_range tabb Hb) as Rb. pose proof (Bn_pos (length tabb)) as HP.
  assert (B = 2 ^ 64) as HB by done. revert q low top Hlow.
  induction fuel as [|fuel IH]; intros q low top Hlow Hl Htop Hq HW E HV; [lia|].
  cbn [add_back]. assert (1 <= q) as Hq1 by (destruct (decide (q = 0)) as [->|]; lia).
  rewrite (u64_id (q - 1)) by (unfold is_u64; lia).
  destruct (mp_add_ok low tabb 0 Hlow Hb Hl ltac:(lia)) as (low2 & c & -> & Hlow2 & Hl2 & Hc & E2).
  cbn [mbind option_bind]. pose proof (lval_range low2 Hlow2) as R2. unfold is_u64 in Htop.
  rewrite Hl2, Hl in R2. rewrite Hl in E2, Hl2.
  assert (W - (q - 1) * lval tabb = lval low2 + Bn (length tabb) * (c + top - B)) as E3 by lia.
  assert (0 <= W - (q - 1) * lval tabb ↔ 0 <= c + top - B) as Hpos.
  { rewrite E3. clear - R2 HP. split; intros H; [|nia].
    destruct (Z.lt_ge_cases (c + top - B) 0); [nia|lia]. }
  destruct (Z.eqb_spec c 0) as [->|Hc1]; cbn [negb].
  - apply IH; [done|done|done|lia|done|lia|lia].
  - assert (c = 1) as -> by lia. destruct (Z.eqb_spec (u64 (top + 1)) 0) as [Et|Et].
    + destruct (u64_up (top + 1)) as [[? Eu]|[? Eu]]; [lia|lia|].
      assert (top = B - 1) as -> by lia. rewrite Et.
      exists (q - 1), low2. split_and!; [done|done|done|lia|lia|lia|lia].
    + destruct (u64_up (top + 1)) as [[? Eu]|[? Eu]]; [lia| |lia]. rewrite Eu in *.
      apply IH; [done|done|unfold is_u64; lia|lia|done|lia|lia].
Qed.

Lemma lval_snoc l x : lval (l ++ [x]) = lval l + Bn (length l) * x.
Proof. rewrite lval_app. cbn [lval]. lia. Qed.

Lemma aget_snoc {A} (l r : list A) x : aget (l ++ x :: r) (zlen l) = Some x.
Proof.
  unfold aget. rewrite (proj2 (Z.leb_le _ _)), Nat2Z.id by lia.
  by rewrite lookup_app_r, Nat.sub_diag by done.
Qed.

(** The digit of the quotient the code starts from. *)
Lemma first_digit b1 b1_inv top next : norm b1 → is_u64 top → is_u64 next →
  (b1_inv = 0 ∨ b1_inv = udiv1norm_init b1) →
  let qh := if b1 <=? top then 2 ^ 64 - 1
            else fst (div_limb b1 (if negb (b1_inv =? 0) then Some b1_inv else None) top next) in
  0 <= qh < B ∧ qh * b1 <= top * B + next ∧
  (qh = B - 1 ∨ top * B + next < (qh + 1) * b1).
Proof.
  intros Hb Ht Hn Hinv. unfold is_u64 in Ht, Hn. change (2 ^ 64) with B in Ht, Hn |- *.
  assert (B = 2 ^ 64) as HB by done. assert (2 ^ 63 <= b1 < B) as Hb' by exact Hb. cbn zeta.
  destruct (Z.leb_spec b1 top).
  - assert (B * b1 <= B * top) by (apply Z.mul_le_mono_nonneg_l; lia). lia.
  - rewrite div_limb_ok; [|done|lia|done|].
    2: { intros v. destruct (Z.eqb_spec b1_inv 0); cbn [negb]; intros; simplify_eq.
         by destruct Hinv. }
    cbn [fst]. pose proof (Z.div_mod (top * B + next) b1 ltac:(lia)).
    pose proof (Z.mod_pos_bound (top * B + next) b1 ltac:(lia)).
    assert (top * B <= (b1 - 1) * B) by (apply Z.mul_le_mono_nonneg_r; lia).
    assert (0 <= (top * B + next) / b1 < B).
    { split; [apply Z.div_pos; lia|]. apply Z.div_lt_upper_bound; lia. }
    lia.
Qed.

(** Subtraction of a multiple of the divisor, and its correction. *)
Lemma div_subtract low top tabb qh : limbs low → limbs tabb → length low = length tabb →
  is_u64 top → 0 <= qh < B → 
  let W := lval low + Bn (length tabb) * top in
  - 2 * lval tabb <= W - qh * lval tabb < lval tabb →
  ∃ low1 r, mp_sub_mul1 low tabb qh = Some (low1, r) ∧
  ∃ q low2, (if top <? u64 (top - r) then add_back 3 qh low1 (u64 (top - r)) tabb
             else Some (qh, low1, u64 (top - r))) = Some (q, low2, 0) ∧
    is_u64 q ∧ limbs low2 ∧ length low2 = length tabb ∧
    W = q * lval tabb + lval low2 ∧ lval low2 < lval tabb.
Proof.
  intros Hlow Hb Hl Ht Hq W HV. unfold mp_sub_mul1. assert (B = 2 ^ 64) as HB by done.
  destruct (sub_mul1_ok low tabb qh 0 Hlow Hb Hl Hq ltac:(unfold is_u64; lia))
    as (low1 & r & -> & H1 & Hl1 & Hr & E).
  exists low1, r. split; [done|]. unfold is_u64 in Ht, Hr. fold B in Ht, Hr.
  pose proof (lval_range tabb Hb) as Rb. pose proof (lval_range low1 H1) as R1. rewrite Hl1 in R1.
  pose proof (Bn_pos (length tabb)) as HP.
  assert (W - qh * lval tabb = lval low1 + Bn (length tabb) * (top - r)) as EV by (unfold W; lia).
  assert (0 <= W) as HW.
  { unfold W. pose proof (lval_range low Hlow). apply Z.add_nonneg_nonneg; [lia|].
    apply Z.mul_nonneg_nonneg; lia. }
  destruct (u64_down (top - r)) as [[Hs ->]|[Hs ->]]; [lia|..].
  - assert (top - r = 0) as E0.
    { destruct (Z.eq_dec (top - r) 0); [done|].
      assert (Bn (length tabb) * 1 <= Bn (length tabb) * (top - r))
        by (apply Z.mul_le_mono_nonneg_l; lia). lia. }
    rewrite E0 in *. rewrite (proj2 (Z.ltb_ge _ _)) by lia.
    exists qh, low1. split_and!; [done|apply Hq..|done|done|lia|lia].
  - rewrite (proj2 (Z.ltb_lt _ _)) by lia.
    assert (Bn (length tabb) * (top - r) <= Bn (length tabb) * (-1))
      by (apply Z.mul_le_mono_nonneg_l; lia).
    destruct (add_back_ok 3 qh low1 (top - r + B) tabb W) as (q & low2 & Ea & H2 & Hl2 & Hq2 & E2 & Hlt);
      [done|done|done|unfold is_u64; lia|done|done|lia|lia|].
    exists q, low2. split_and!; [exact Ea|exact Hq2|done|done|lia|done].
Qed.

(** One digit: the quotient and the remainder of the leading limbs. *)
Lemma div_digit_ok wl next top bl b1 b1_inv : limbs (wl ++ [next; top]) → limbs (bl ++ [b1]) →
  length wl = length bl → norm b1 → (b1_inv = 0 ∨ b1_inv = udiv1norm_init b1) →
  let w := wl ++ [next; top] in
  let tabb := bl ++ [b1] in
  lval w < B * lval tabb →
  ∃ q low, div_digit w tabb b1 b1_inv = Some (q, low ++ [0]) ∧ is_u64 q ∧ limbs low ∧
    length low = length tabb ∧ lval w = q * lval tabb + lval low ∧ lval low < lval tabb.
Proof.
  intros Hw Hb Hl Hb1 Hinv. cbn zeta. intros HW.
  replace (wl ++ [next; top]) with ((wl ++ [next]) ++ [top]) in * by (by rewrite <- app_assoc).
  set (low := wl ++ [next]) in *. set (tabb := bl ++ [b1]) in *.
  pose proof Hw as [Hlow [Ht _]%Forall_cons]%limbs_app.
  pose proof Hlow as [Hwl [Hn _]%Forall_cons]%limbs_app.
  pose proof Hb as [Hbl _]%limbs_app.
  assert (length low = length tabb) as Hll by (unfold low, tabb; rewrite !length_app; cbn; lia).
  unfold div_digit. rewrite <- Hll, aget_snoc. cbn [mbind option_bind].
  replace (zlen low - 1) with (zlen wl) by (unfold low; rewrite length_app; cbn; lia).
  assert (aget (low ++ [top]) (zlen wl) = Some next) as ->
    by (unfold low; rewrite <- app_assoc; apply aget_snoc). cbn [mbind option_bind].
  destruct (first_digit b1 b1_inv top next Hb1 Ht Hn Hinv) as (Hq & Hqb & Hqe).
  cbn zeta in Hq, Hqb, Hqe. set (qh := if b1 <=? top then _ else _) in *. clearbody qh.
  rewrite lval_snoc in HW |- *. rewrite Hll in HW |- *.
  pose proof (lval_range wl Hwl) as Rw. pose proof (lval_range bl Hbl) as Rb.
  pose proof (slice_mid [] low [top] 0 (zlen tabb) eq_refl ltac:(lia)) as Es.
  cbn [app] in Es. rewrite Es. cbn [mbind option_bind].
  destruct (div_subtract low top tabb qh Hlow Hb Hll Ht Hq) as (low1 & r & -> & q & low2 & Eq & H);
    [|cbn [mbind option_bind]; rewrite Eq; cbn [mbind option_bind]; by exists q, low2].
  unfold is_u64 in Ht, Hn. assert (B = 2 ^ 64) as HB by done.
  eapply (digit_estimate _ (top * B + next) (lval wl) _ b1 (lval bl) (Bn (length wl)));
    try done; try lia; [by rewrite Hl| |].
  - unfold low, tabb. rewrite lval_snoc, length_app, Bn_add, <- Hl. cbn [length].
    replace (Bn 1) with B by (unfold Bn; cbn; lia). lia.
  - unfold tabb. rewrite lval_snoc, <- Hl. lia.
Qed.

Lemma last_two {A} (l : list A) k : length l = S (S k) →
  ∃ l' x y, l = l' ++ [x; y] ∧ length l' = k.
Proof.
  intros Hl. destruct (exists_last (l := l)) as (l1 & y & ->); [by intros ->|].
  rewrite length_app in Hl. cbn in Hl.
  destruct (exists_last (l := l1)) as (l2 & x & ->); [intros ->; cbn in Hl; lia|].
  rewrite length_app in Hl. cbn in Hl. exists l2, x, y. rewrite <- app_assoc. split; [done|lia].
Qed.

(** The main loop: below the limbs [lo] still to be brought down lies the
    remainder so far, above it zeros. *)
Lemma div_loop_ok lo rem zs ql qh bl b1 b1_inv : norm b1 →
  (b1_inv = 0 ∨ b1_inv = udiv1norm_init b1) →
  let tabb := bl ++ [b1] in
  limbs lo → limbs rem → limbs tabb → length rem = length tabb → length ql = length lo →
  lval rem < lval tabb →
  ∃ qs rem', div_loop (length lo) (ql ++ qh) (lo ++ rem ++ zs) tabb b1 b1_inv =
      Some (qs ++ qh, rem' ++ replicate (length lo) 0 ++ zs) ∧
    limbs qs ∧ length qs = length lo ∧ limbs rem' ∧ length rem' = length tabb ∧
    lval (lo ++ rem) = lval qs * lval tabb + lval rem' ∧ lval rem' < lval tabb.
Proof.
  intros Hb1 Hinv tabb. remember (length lo) as i eqn:Hi.
  revert lo rem zs ql qh Hi. induction i as [|i IH]; intros lo rem zs ql qh Hi Hlo Hrem Hb Hlr Hlq Hlt.
  - destruct lo; [|done]. destruct ql; [|done]. exists [], rem. cbn [div_loop app lval].
    split_and!; [done|constructor|done|done|done|lia|done].
  - destruct (exists_last (l := lo)) as (lo' & x & ->); [by intros ->|].
    destruct (exists_last (l := ql)) as (ql' & y & ->); [by intros ->|].
    rewrite length_app in Hi, Hlq. cbn in Hi, Hlq.
    apply limbs_app in Hlo as [Hlo' [Hx _]%Forall_cons].
    assert (i = length lo') as Hi' by lia. cbn [div_loop].
    replace ((lo' ++ [x]) ++ rem ++ zs) with (lo' ++ (x :: rem) ++ zs) by (by rewrite <- app_assoc).
    replace ((ql' ++ [y]) ++ qh) with (ql' ++ y :: qh) by (by rewrite <- app_assoc).
    rewrite slice_mid by (cbn [length]; lia). cbn [mbind option_bind].
    destruct (last_two (x :: rem) (length bl)) as (wl & nx & top & Ew & Hwl).
    { unfold tabb in Hlr. rewrite length_app in Hlr. cbn in *. lia. }
    assert (lval (x :: rem) < B * lval tabb) as HW.
    { cbn [lval]. unfold is_u64 in Hx. fold B in Hx.
      assert (B * lval rem <= B * (lval tabb - 1)) by (apply Z.mul_le_mono_nonneg_l; lia). lia. }
    assert (limbs (x :: rem)) as Hxr by (by constructor).
    assert (length (x :: rem) = S (length tabb)) as Hlw by (cbn; lia).
    rewrite Ew in Hxr, HW, Hlw |- *.
    destruct (div_digit_ok wl nx top bl b1 b1_inv Hxr Hb Hwl Hb1 Hinv HW)
      as (q & low & Ed & Hq & Hlow & Hll & E & Hlt').
    fold tabb in Ed, Hll, E, Hlt'. rewrite Ed. cbn [mbind option_bind].
    rewrite splice_mid by (rewrite ?length_app in *; cbn in *; lia). cbn [mbind option_bind].
    rewrite aset_mid by lia. cbn [mbind option_bind].
    replace (lo' ++ (low ++ [0]) ++ zs) with (lo' ++ low ++ 0 :: zs) by (by rewrite <- app_assoc).
    destruct (IH lo' low (0 :: zs) ql' (q :: qh)) as (qs & rem' & Er & Hqs & Hlqs & Hrem' & Hlrem' & E' & Hlt2);
      [done|done|done|done|done|lia|done|].
    rewrite Er.
    exists (qs ++ [q]), rem'. split_and!.
    + rewrite <- app_assoc. do 3 f_equal. cbn [app replicate].
      replace (0 :: zs) with ([0] ++ zs) by done. rewrite app_assoc, <- replicate_S_end. done.
    + apply limbs_app. split; [done|by constructor].
    + rewrite length_app, Hlqs. cbn. lia.
    + done.
    + done.
    + rewrite <- app_assoc. change ([x] ++ rem) with (x :: rem). rewrite Ew.
      rewrite lval_app, E, lval_snoc. rewrite lval_app in E'. rewrite Hlqs, Hi'. lia.
    + done.
Qed.

Lemma norm_half bl b1 : limbs bl → norm b1 → Bn (S (length bl)) <= 2 * lval (bl ++ [b1]).
Proof.
  intros Hb Hb1. rewrite lval_snoc, Bn_S. pose proof (lval_range bl Hb). pose proof (Bn_pos (length bl)).
  unfold norm in Hb1. assert (B = 2 * 2 ^ 63) as HB by done.
  assert (Bn (length bl) * 2 ^ 63 <= Bn (length bl) * b1) by (apply Z.mul_le_mono_nonneg_l; lia). lia.
Qed.

(** The first digit of the quotient, 0 or 1. *)
Lemma top_digit hi bl b1 : limbs hi → limbs (bl ++ [b1]) → norm b1 →
  length hi = length (bl ++ [b1]) →
  let tabb := bl ++ [b1] in
  ∃ c, mp_cmp hi tabb = Some c ∧
  let q := if c <? 0 then 0 else 1 in
  ∃ rem, (∀ lo, (if negb (q =? 0) then '(h, _) ← mp_sub hi tabb 0; splice (lo ++ hi) (zlen lo) h
                 else Some (lo ++ hi)) = Some (lo ++ rem)) ∧
    limbs rem ∧ length rem = length tabb ∧ lval hi = q * lval tabb + lval rem ∧
    lval rem < lval tabb.
Proof.
  intros Hhi Hb Hb1 Hl tabb. fold tabb in Hb, Hl.
  destruct (mp_cmp_ok hi tabb Hhi Hb Hl) as (c & -> & Hc & Hlt & _). exists c. split; [done|].
  cbn zeta. destruct (Z.ltb_spec c 0) as [Hn|Hn].
  - exists hi. split_and!; [done|done|done|lia|by apply Hlt].
  - pose proof Hb as [Hbl _]%limbs_app. pose proof (norm_half bl b1 Hbl Hb1) as Hh. fold tabb in Hh.
    assert (S (length bl) = length tabb) as El by (unfold tabb; rewrite length_app; cbn; lia).
    rewrite El in Hh. pose proof (lval_range hi Hhi) as Rhi. rewrite Hl in Rhi.
    destruct (mp_sub_ok hi tabb 0 Hhi Hb Hl ltac:(lia)) as (rem & k & Es & Hrem & Hlr & Hk & E).
    pose proof (lval_range rem Hrem) as Rr. rewrite Hlr in Rr. rewrite Hl in Rr, E, Hlr.
    assert (k = 0) as -> by (destruct (decide (k = 0)); [done|assert (k = 1) as -> by lia; lia]).
    exists rem. split_and!; [|done|done|lia|lia].
    intros lo. cbn [Z.eqb negb]. rewrite Es. cbn [mbind option_bind].
    pose proof (splice_mid lo hi [] rem (zlen lo) eq_refl ltac:(lia)) as Esp.
    by rewrite !app_nil_r in Esp.
Qed.

Lemma quotient_bound taba bl b1 q r : limbs taba → limbs bl → norm b1 →
  (S (length bl) <= length taba)%nat → 0 <= r → lval taba = q * lval (bl ++ [b1]) + r →
  q < 2 * Bn (length taba - S (length bl)).
Proof.
  intros Ht Hb Hb1 Hl Hr E. pose proof (lval_range taba Ht) as R. pose proof (norm_half bl b1 Hb Hb1) as Hh.
  set (n := (length taba - S (length bl))%nat).
  replace (length taba) with (n + S (length bl))%nat in R by (unfold n; lia). rewrite Bn_add in R.
  pose proof (Bn_pos n). pose proof (Bn_pos (S (length bl))).
  assert (Bn n * Bn (S (length bl)) <= Bn n * (2 * lval (bl ++ [b1])))
    by (apply Z.mul_le_mono_nonneg_l; lia).
  apply Z.mul_lt_mono_pos_r with (lval (bl ++ [b1])); lia.
Qed.

(** What the division promises of its result. *)
Definition divided (tabq taba tabb q r : list Z) : Prop :=
  limbs q ∧ length q = length tabq ∧ limbs r ∧ length r = length taba ∧
  lval taba = lval q * lval tabb + lval (take (length tabb) r) ∧
  0 <= lval (take (length tabb) r) < lval tabb.

Lemma divnorm_one large tabq taba b1 : limbs taba → norm b1 → taba ≠ [] →
  length tabq = length taba →
  ∃ q r, mp_divnorm large tabq taba [b1] = Some (Some (q, r)) ∧ divided tabq taba [b1] q r.
Proof.
  intros Ht Hb1 Hne Hl. unfold mp_divnorm. cbn [length aget Z.of_nat Z.sub].
  change (aget [b1] (Z.of_nat 1 - 1)) with (Some b1). change (Z.of_nat 1 =? 1) with true.
  cbn [mbind option_bind].
  destruct (mp_div1norm_ok taba b1 0 Hb1 ltac:(unfold norm in Hb1; lia) Ht)
    as (q & r & -> & Hq & Hlq & Hr & E).
  pose proof (splice_mid [] tabq [] q 0 eq_refl ltac:(lia)) as Es. cbn [app] in Es.
  rewrite !app_nil_r in Es. rewrite Es. cbn [mbind option_bind].
  destruct taba as [|a taba]; [done|].
  pose proof (aset_mid [] taba a r 0 eq_refl) as Ea. cbn [app] in Ea. rewrite Ea. cbn [mbind option_bind].
  exists q, (r :: taba). split; [done|]. unfold divided.
  change (lval (take (length [b1]) (r :: taba))) with (r + B * 0).
  change (lval [b1]) with (b1 + B * 0).
  apply Forall_cons in Ht as [_ Ht]. split_and!; [done|lia|constructor; [|done]|done|lia|lia|lia].
  unfold norm, is_u64 in *. lia.
Qed.

Lemma divnorm_many large tabq taba bl b1 : limbs taba → limbs (bl ++ [b1]) → norm b1 → bl ≠ [] →
  (length (bl ++ [b1]) <= length taba)%nat →
  length tabq = S (length taba - length (bl ++ [b1])) →
  Z.min (zlen taba - zlen (bl ++ [b1])) (zlen (bl ++ [b1])) < DIVNORM_LARGE_THRESHOLD →
  ∃ q r, mp_divnorm large tabq taba (bl ++ [b1]) = Some (Some (q, r)) ∧ divided tabq taba (bl ++ [b1]) q r.
Proof.
  set (tabb := bl ++ [b1]). intros Ht Hb Hb1 Hne Hle Hlq Hmin.
  assert (length tabb = S (length bl)) as Hlb by (unfold tabb; rewrite length_app; cbn; lia).
  unfold mp_divnorm.
  assert (aget tabb (zlen tabb - 1) = Some b1) as ->.
  { replace (zlen tabb - 1) with (zlen bl) by lia. apply aget_snoc. }
  cbn [mbind option_bind].
  rewrite (proj2 (Z.eqb_neq (zlen tabb) 1)) by (destruct bl; [done|cbn in *; lia]).
  rewrite (proj2 (Z.leb_gt _ _) Hmin).
  destruct (exists_last (l := tabq)) as (ql & y & ->); [by intros ->|].
  rewrite length_app in Hlq. cbn in Hlq.
  set (lo := take (length taba - length tabb) taba). set (hi := drop (length taba - length tabb) taba).
  assert (taba = lo ++ hi) as Et by (symmetry; apply take_drop).
  assert (zlen taba - zlen tabb = zlen lo) as Hn by (unfold lo; rewrite length_take; lia).
  assert (length hi = length tabb) as Hhi by (unfold hi; rewrite length_drop; lia).
  rewrite Hn. clearbody lo hi. subst taba. apply limbs_app in Ht as [Hlo Hh].
  pose proof (slice_mid lo hi [] (zlen lo) (zlen tabb) eq_refl ltac:(lia)) as Es.
  rewrite app_nil_r in Es. rewrite Es. cbn [mbind option_bind].
  destruct (top_digit hi bl b1 Hh Hb Hb1 Hhi) as (c & Ec & rem & Er & Hrem & Hlr & E & Hlt).
  fold tabb in Ec, Er, Hlr, E, Hlt. rewrite Ec. cbn [mbind option_bind].
  rewrite aset_mid by (rewrite length_app in Hlq; lia). cbn [mbind option_bind].
  rewrite Er. cbn [mbind option_bind]. rewrite Nat2Z.id.
  set (q := if c <? 0 then 0 else 1) in *.
  destruct (div_loop_ok lo rem [] ql [q] bl b1
    (if UDIV1NORM_THRESHOLD <=? zlen lo then udiv1norm_init b1 else 0) Hb1)
    as (qs & rem' & El & Hqs & Hlqs & Hrem' & Hlrem' & E' & Hlt');
    [by destruct (_ <=? _); [right|left]|done|done|done|done|rewrite length_app in Hlq; lia|done|].
  rewrite !app_nil_r in El. fold tabb in El, Hlrem', E', Hlt'. rewrite El. cbn [mbind option_bind].
  assert (is_u64 q) as Hq by (unfold q, is_u64; destruct (c <? 0); lia).
  eexists _, _. split; [reflexivity|]. unfold divided. rewrite <- Hlrem', take_app_length.
  pose proof (lval_range rem' Hrem') as Rr. split_and!.
  - apply limbs_app. split; [done|by constructor].
  - rewrite !length_app in *. cbn in *. lia.
  - apply limbs_app. split; [done|]. apply Forall_replicate. done.
  - rewrite !length_app, length_replicate in *. lia.
  - rewrite lval_snoc, lval_app, E, Hlqs. rewrite lval_app in E'. lia.
  - lia.
  - lia.
Qed.

(** Schoolbook division is division: below the size from which the
    subquadratic algorithm takes over, for a divisor whose leading limb has
    its leading bit set, [mp_divnorm] stays in bounds, its correcting loop ends
    within two rounds, and it leaves the quotient, whose leading limb is at
    most 1, and the remainder. *)
Lemma mp_divnorm_correct large tabq taba bl b1 :
  let tabb := bl ++ [b1] in
  limbs taba → limbs tabb → norm b1 →
  (length tabb <= length taba)%nat → length tabq = S (length taba - length tabb) →
  Z.min (zlen taba - zlen tabb) (zlen tabb) < DIVNORM_LARGE_THRESHOLD →
  ∃ q r, mp_divnorm large tabq taba tabb = Some (Some (q, r)) ∧ limbs q ∧ length q = length tabq ∧
    limbs r ∧ length r = length taba ∧
    let rem := lval (take (length tabb) r) in
    lval taba = lval q * lval tabb + rem ∧ 0 <= rem < lval tabb ∧
    lval q < 2 * Bn (length taba - length tabb).
Proof.
  intros tabb Ht Hb Hb1 Hle Hlq Hmin. pose proof Hb as [Hbl _]%limbs_app.
  assert (length tabb = S (length bl)) as Hlb by (unfold tabb; rewrite length_app; cbn; lia).
  assert (∃ q r, mp_divnorm large tabq taba tabb = Some (Some (q, r)) ∧ divided tabq taba tabb q r)
    as (q & r & E & Hq & Hlq' & Hlimr & Hlr & Ev & Hr).
  { destruct bl as [|b0 bl]; [apply divnorm_one|by apply divnorm_many]; try done.
    - intros ->. cbn in *. lia.
    - cbn in *. lia. }
  exists q, r. cbn zeta. split_and!; [done..|lia|lia|]. rewrite Hlb in Hle, Ev |- *.
  eapply quotient_bound; [done|done|done|done| |exact Ev]. rewrite <- Hlb. lia.
Qed.

(** Three limbs by two: the first estimate of a digit is one too large. *)
Lemma mp_divnorm_correct_witness :
  let taba := [0; 0; 2 ^ 63] in
  let tabb := [2 ^ 64 - 1; 2 ^ 63] in
  ∃ q r, mp_divnorm (λ _ _ _, None) [7; 7] taba tabb = Some (Some (q, r)) ∧
    lval taba = lval q * lval tabb + lval (take 2 r) ∧ lval (take 2 r) < lval tabb.
Proof.
  destruct (mp_divnorm_correct (λ _ _ _, None) [7; 7] [0; 0; 2 ^ 63] [2 ^ 64 - 1] (2 ^ 63))
    as (q & r & E & _ & _ & _ & _ & Ev & Hr & _).
  - repeat constructor; discriminate.
  - repeat constructor; discriminate.
  - split; [discriminate|reflexivity].
  - cbn. lia.
  - reflexivity.
  - reflexivity.
  - exists q, r. split; [exact E|]. split; [exact Ev|apply Hr].
Defined.

Lemma mp_mul_basecase_product_witness :
  ∃ res, mp_mul_basecase [9; 9; 9; 9; 9] [2 ^ 64 - 1; 2 ^ 64 - 1; 5] [2 ^ 64 - 1; 2 ^ 63] = Some res ∧
    lval res = lval [2 ^ 64 - 1; 2 ^ 64 - 1; 5] * lval [2 ^ 64 - 1; 2 ^ 63].
Proof.
  destruct (mp_mul_basecase_product [9; 9; 9; 9; 9] [2 ^ 64 - 1; 2 ^ 64 - 1; 5] [2 ^ 64 - 1; 2 ^ 63])
    as (res & E & _ & _ & Ev).
  - repeat constructor; discriminate.
  - repeat constructor; discriminate.
  - discriminate.
  - discriminate.
  - reflexivity.
  - exists res. split; [exact E|exact Ev].
Defined.

End Limbs.
