(* ===== verification/Libbf.v ===== *)
(** * Big numbers ([quickjs/libbf.c])

    The floating-point numbers of unbounded precision behind BigInt: a sign, an
    exponent and limbs whose leading bit is set. Construction from and
    conversion to machine integers, comparison, normalization and rounding.
    [None] is an access outside the limbs or a failed assertion. *)
From stdpp Require Import list.
From S2P Require Import Prelude Limbs.

Module Libbf.
Import Limbs.
Local Open Scope cint_scope.

(** ** Bit operations on limbs *)

(** [clz64] and [ctz64] are builtins, undefined on 0. *)
Definition clz (a : Z) : Z := if a =? 0 then 64 else 63 - Z.log2 a.
Definition ctz (a : Z) : Z := if a =? 0 then 64 else Z.log2 (a .& (- a)).

Definition ceil_log2 (a : Z) : Z := if a <=? 1 then 0 else 64 - clz (u64 (a - 1)).

(** C division rounds towards zero. *)
Definition ceil_div (a b : Z) : Z := if 0 <=? a then (a + b - 1) ÷ b else a ÷ b.
Definition floor_div (a b : Z) : Z := if 0 <=? a then a ÷ b else (a - b + 1) ÷ b.

Definition smod (a b : Z) : Z :=
  let a := Z.rem a b in
  if a <? 0 then a + b else a.

(** With two's complement wrap-around of the sum. *)
Definition sat_add (a b : Z) : Z :=
  let r := s64 (a + b) in
  if (a .^ r) .& (b .^ r) <? 0 then s64 ((a >> 63) .^ ((1 << 63) - 1)) else r.

Definition shrd (low high shift : Z) : Z :=
  if negb (shift =? 0) then (low >> shift) .| u64 (high << (64 - shift)) else low.

Definition shld (a1 a0 shift : Z) : Z :=
  if negb (shift =? 0) then u64 (a1 << shift) .| (a0 >> (64 - shift)) else a1.

(** ** Numbers *)

Definition BF_EXP_ZERO : Z := - 2 ^ 63.
Definition BF_EXP_INF : Z := 2 ^ 63 - 1 - 1.
Definition BF_EXP_NAN : Z := 2 ^ 63 - 1.
Definition BF_EXP_BITS_MAX : Z := 64 - 3.
Definition BF_PREC_MAX : Z := 2 ^ 62 - 2.
Definition BF_PREC_INF : Z := BF_PREC_MAX + 1.

Definition BF_ST_INVALID_OP : Z := 1.
Definition BF_ST_OVERFLOW : Z := 4.
Definition BF_ST_UNDERFLOW : Z := 8.
Definition BF_ST_INEXACT : Z := 16.
Definition BF_ST_MEM_ERROR : Z := 32.

Record bf_t : Set := mkBf {
  sign : bool;
  expn : Z;
  tab : list Z
}.

Definition len (r : bf_t) : Z := zlen (tab r).
Definition set_sign (r : bf_t) (s : bool) : bf_t := mkBf s (expn r) (tab r).
Definition set_expn (r : bf_t) (e : Z) : bf_t := mkBf (sign r) e (tab r).
Definition set_tab (r : bf_t) (t : list Z) : bf_t := mkBf (sign r) (expn r) t.

Section Alloc.
(** Whether an array of [n] limbs can be allocated, and what new limbs hold. *)
Context (alloc : Z → bool) (junk : Z → Z).

Definition bf_init : bf_t := mkBf false BF_EXP_ZERO [].

(** [None]: no memory. *)
Definition bf_resize (r : bf_t) (l : Z) : option bf_t :=
  if negb (l =? len r) then
    if negb (alloc l) && negb (l =? 0) then None
    else Some (set_tab r (take (Z.to_nat l) (tab r) ++ (junk <$> seqZ (len r) (l - len r))))
  else Some r.

Definition bf_set_nan (r : bf_t) : bf_t := mkBf false BF_EXP_NAN [].
Definition bf_set_zero (r : bf_t) (is_neg : bool) : bf_t := mkBf is_neg BF_EXP_ZERO [].
Definition bf_set_inf (r : bf_t) (is_neg : bool) : bf_t := mkBf is_neg BF_EXP_INF [].

Definition bf_set_ui (r : bf_t) (a : Z) : option (bf_t * Z) :=
  let r := set_sign r false in
  if a =? 0 then
    r ← bf_resize (set_expn r BF_EXP_ZERO) 0;
    Some (r, 0)
  else match bf_resize r 1 with
  | None => Some (bf_set_nan r, BF_ST_MEM_ERROR)
  | Some r =>
      let shift := clz a in
      t ← aset (tab r) 0 (u64 (a << shift));
      Some (set_expn (set_tab r t) (64 - shift), 0)
  end.

(** [-a] is negated as unsigned 64-bit number. *)
Definition bf_set_si (r : bf_t) (a : Z) : option (bf_t * Z) :=
  if a <? 0 then '(r, ret) ← bf_set_ui r (u64 (- a)); Some (set_sign r true, ret)
  else bf_set_ui r a.

Definition bf_set (r a : bf_t) : bf_t * Z :=
  match bf_resize r (len a) with
  | None => (bf_set_nan r, BF_ST_MEM_ERROR)
  | Some r => (a, 0)
  end.

(** ** Bits of an array *)

Definition get_limbz (a : bf_t) (idx : Z) : Z :=
  if len a <=? idx then 0 else default 0 (aget (tab a) idx).

(** [i] is unsigned: a negative position wraps to an index beyond the end. *)
Definition get_bits (t : list Z) (pos : Z) : Z :=
  let limb i := if i <? zlen t then default 0 (aget t i) else 0 in
  let i := u64 (pos >> 6) in
  let p := pos .& 63 in
  let a0 := limb i in
  if p =? 0 then a0
  else
    let a1 := limb (u64 (i + 1)) in
    (a0 >> p) .| u64 (a1 << (64 - p)).

(** [l] is the number of limbs looked at. *)
Definition get_bit (t : list Z) (l pos : Z) : option Z :=
  let i := pos >> 6 in
  if (i <? 0) || (l <=? i) then Some 0
  else x ← aget t i; Some ((x >> (pos .& 63)) .& 1).

Definition limb_mask (start last : Z) : Z :=
  let n := last - start + 1 in
  if n =? 64 then 2 ^ 64 - 1 else u64 (((1 << n) - 1) << start).

(** Whether one of the limbs below [pos] is not zero. *)
Fixpoint scan_limbs (t : list Z) (pos : nat) : option bool :=
  match pos with
  | O => Some false
  | S pos => x ← t !! pos; if negb (x =? 0) then Some true else scan_limbs t pos
  end.

Definition scan_bit_nz (r : bf_t) (bit_pos : Z) : option bool :=
  let pos := bit_pos >> 6 in
  if pos <? 0 then Some false
  else
    x ← aget (tab r) pos;
    if negb (x .& limb_mask 0 (bit_pos .& 63) =? 0) then Some true
    else scan_limbs (tab r) (Z.to_nat pos).

(** ** Comparison *)

(** From the [i]-th limb down; the limbs are aligned at the leading end. *)
Fixpoint cmpu_loop (a b : bf_t) (l : Z) (i : nat) : Z :=
  match i with
  | O => 0
  | S i =>
      let v1 := get_limbz a (u64 (len a - l + Z.of_nat i)) in
      let v2 := get_limbz b (u64 (len b - l + Z.of_nat i)) in
      if negb (v1 =? v2) then if v1 <? v2 then -1 else 1
      else cmpu_loop a b l i
  end.

Definition bf_cmpu (a b : bf_t) : Z :=
  if negb (expn a =? expn b) then if expn a <? expn b then -1 else 1
  else
    let l := Z.max (len a) (len b) in
    cmpu_loop a b l (Z.to_nat l).

Definition bf_cmp_full (a b : bf_t) : Z :=
  if (expn a =? BF_EXP_NAN) || (expn b =? BF_EXP_NAN) then
    if expn a =? expn b then 0 else if expn a =? BF_EXP_NAN then 1 else -1
  else if negb (Bool.eqb (sign a) (sign b)) then 1 - 2 * Z.b2z (sign a)
  else let res := bf_cmpu a b in if sign a then - res else res.

Definition bf_cmp (a b : bf_t) : Z :=
  if (expn a =? BF_EXP_NAN) || (expn b =? BF_EXP_NAN) then 2
  else if negb (Bool.eqb (sign a) (sign b)) then
    if (expn a =? BF_EXP_ZERO) && (expn b =? BF_EXP_ZERO) then 0 else 1 - 2 * Z.b2z (sign a)
  else let res := bf_cmpu a b in if sign a then - res else res.

(** ** Conversion to machine integers *)

Definition BF_GET_INT_MOD : Z := 1.

(** The leading limb, shifted to its place; [v = -v] of a negative number. *)
Definition top_bits (a : bf_t) : option Z :=
  x ← aget (tab a) (len a - 1); Some (x >> (64 - expn a)).

Definition bf_get_int32 (a : bf_t) (flags : Z) : option (Z * Z) :=
  let mod_ := negb (flags .& BF_GET_INT_MOD =? 0) in
  let neg v := if sign a then u32 (- v) else v in
  '(v, ret) ←
    (if BF_EXP_INF <=? expn a then
       Some (if mod_ then 0
             else if expn a =? BF_EXP_INF then u32 (2 ^ 31 - 1 + Z.b2z (sign a))
             else 2 ^ 31 - 1, BF_ST_INVALID_OP)
     else if expn a <=? 0 then Some (0, 0)
     else if expn a <=? 31 then x ← top_bits a; Some (neg (u32 x), 0)
     else if negb mod_ then
       if sign a then
         x ← (if expn a =? 32 then aget (tab a) (len a - 1) else Some 0);
         Some (2 ^ 31, if (expn a =? 32) && (x >> 32 =? 2 ^ 31) then 0 else BF_ST_INVALID_OP)
       else Some (2 ^ 31 - 1, BF_ST_INVALID_OP)
     else Some (neg (u32 (get_bits (tab a) (len a * 64 - expn a))), 0));
  Some (s32 v, ret).

Definition bf_get_int64 (a : bf_t) (flags : Z) : option (Z * Z) :=
  let mod_ := negb (flags .& BF_GET_INT_MOD =? 0) in
  let neg v := if sign a then u64 (- v) else v in
  '(v, ret) ←
    (if BF_EXP_INF <=? expn a then
       Some (if mod_ then 0
             else if expn a =? BF_EXP_INF then u64 (2 ^ 63 - 1 + Z.b2z (sign a))
             else 2 ^ 63 - 1, BF_ST_INVALID_OP)
     else if expn a <=? 0 then Some (0, 0)
     else if expn a <=? 63 then x ← top_bits a; Some (neg x, 0)
     else if negb mod_ then
       if sign a then
         v1 ← (if expn a =? 64 then aget (tab a) (len a - 1) else Some 0);
         Some (2 ^ 63, if (expn a =? 64) && (v1 =? 2 ^ 63) then 0 else BF_ST_INVALID_OP)
       else Some (2 ^ 63 - 1, BF_ST_INVALID_OP)
     else Some (neg (get_bits (tab a) (len a * 64 - expn a)), 0));
  Some (s64 v, ret).

Definition bf_get_uint64 (a : bf_t) : option (Z * Z) :=
  if expn a =? BF_EXP_NAN then Some (2 ^ 64 - 1, BF_ST_INVALID_OP)
  else if expn a <=? 0 then Some (0, 0)
  else if sign a then Some (0, BF_ST_INVALID_OP)
  else if expn a <=? 64 then x ← top_bits a; Some (x, 0)
  else Some (2 ^ 64 - 1, BF_ST_INVALID_OP).

End Alloc.

(** ** The helpers *)

Lemma ceil_div_ok a b : 1 <= b → ceil_div a b = - ((- a) / b).
Proof.
  intros Hb. unfold ceil_div. destruct (Z.leb_spec 0 a).
  - rewrite Z.quot_div_nonneg by lia. symmetry. Z.div_mod_to_equations. nia.
  - replace a with (- (- a)) at 1 by lia. rewrite Z.quot_opp_l by lia.
    by rewrite Z.quot_div_nonneg by lia.
Qed.

Lemma floor_div_ok a b : 1 <= b → floor_div a b = a / b.
Proof.
  intros Hb. unfold floor_div. destruct (Z.leb_spec 0 a); [apply Z.quot_div_nonneg; lia|].
  replace (a - b + 1) with (- (- a + b - 1)) by lia. rewrite Z.quot_opp_l by lia.
  rewrite Z.quot_div_nonneg by lia. Z.div_mod_to_equations. nia.
Qed.

Lemma smod_ok a b : 1 <= b → smod a b = a mod b.
Proof.
  intros Hb. unfold smod. pose proof (Z.quot_rem a b ltac:(lia)) as E.
  pose proof (Z.rem_bound_abs a b ltac:(lia)) as Hr. rewrite (Z.abs_eq b) in Hr by lia.
  destruct (Z.ltb_spec (Z.rem a b) 0).
  - apply Z.mod_unique_pos with (a ÷ b - 1); lia.
  - apply Z.mod_unique_pos with (a ÷ b); lia.
Qed.

Lemma clz_range a : is_u64 a → a ≠ 0 → 0 <= clz a < 64 ∧ 2 ^ 63 <= a * 2 ^ clz a < 2 ^ 64.
Proof.
  intros Ha Hn. unfold is_u64 in Ha. unfold clz. rewrite (proj2 (Z.eqb_neq _ _) Hn).
  assert (0 <= Z.log2 a < 64) as Hl.
  { split; [apply Z.log2_nonneg|apply Z.log2_lt_pow2; lia]. }
  split; [lia|]. pose proof (Z.log2_spec a ltac:(lia)) as [H1 H2].
  assert (2 ^ 63 = 2 ^ Z.log2 a * 2 ^ (63 - Z.log2 a)) as E1
    by (rewrite <- Z.pow_add_r by lia; f_equal; lia).
  assert (2 ^ 64 = 2 ^ Z.succ (Z.log2 a) * 2 ^ (63 - Z.log2 a)) as E2
    by (rewrite <- Z.pow_add_r by lia; f_equal; lia).
  rewrite E1, E2. split; [apply Z.mul_le_mono_nonneg_r; [apply Z.pow_nonneg; lia|lia]|].
  apply Z.mul_lt_mono_pos_r; [apply Z.pow_pos_nonneg; lia|lia].
Qed.

(** ** Numbers in normal form *)

(** A finite number other than zero: the leading bit of its top limb is set. *)
Record normal (a : bf_t) : Prop := {
  fin_expn : BF_EXP_ZERO < expn a < BF_EXP_INF;
  fin_limbs : limbs (tab a);
  fin_top : ∃ l x, tab a = l ++ [x] ∧ norm x;
  fin_len : len a < 2 ^ 50
}.

Definition zero (a : bf_t) : Prop := expn a = BF_EXP_ZERO ∧ tab a = [].

(** The integral part, with its sign. *)
Definition trunc (a : bf_t) : Z := lval (tab a) >> (64 * len a - expn a).
Definition signed_trunc (a : bf_t) : Z := if sign a then - trunc a else trunc a.

Lemma Bn_pow n : Bn n = 2 ^ (64 * Z.of_nat n).
Proof. unfold Bn, B. by rewrite <- Z.pow_mul_r by lia. Qed.

Lemma normal_range a : normal a → 2 ^ (64 * len a - 1) <= lval (tab a) < 2 ^ (64 * len a).
Proof.
  intros [_ Hl (l & x & E & Hx) _]. unfold len. pose proof (lval_range _ Hl) as R.
  rewrite Bn_pow in R. split; [|lia]. rewrite E, lval_snoc, length_app, Nat2Z.inj_add.
  rewrite E in Hl. apply limbs_app in Hl as [Hl _]. pose proof (lval_range l Hl).
  change (zlen [x]) with 1. rewrite Bn_pow. unfold norm in Hx.
  replace (64 * (zlen l + 1) - 1) with (64 * zlen l + 63) by lia. rewrite Z.pow_add_r by lia.
  pose proof (Z.pow_pos_nonneg 2 (64 * zlen l) ltac:(lia) ltac:(lia)).
  assert (2 ^ (64 * zlen l) * 2 ^ 63 <= 2 ^ (64 * zlen l) * x) by (apply Z.mul_le_mono_nonneg_l; lia).
  lia.
Qed.

(** The integral part lies between powers of two. *)
Lemma trunc_range a : normal a → 0 <= trunc a ∧ trunc a < 2 ^ Z.max 0 (expn a) ∧
  (0 < expn a → 2 ^ (expn a - 1) <= trunc a).
Proof.
  intros H. pose proof (normal_range a H) as [R1 R2]. unfold trunc.
  set (L := 64 * len a) in *. assert (0 < L) as HL.
  { unfold L, len. destruct (fin_top _ H) as (l & x & -> & _). rewrite length_app. cbn. lia. }
  destruct (Z.le_gt_cases (expn a) L).
  - rewrite Z.shiftr_div_pow2 by lia. pose proof (Z.pow_pos_nonneg 2 (L - expn a) ltac:(lia) ltac:(lia)).
    split; [apply Z.div_pos; lia|]. split.
    + apply Z.div_lt_upper_bound; [lia|]. rewrite <- Z.pow_add_r by lia.
      apply Z.lt_le_trans with (2 ^ L); [done|]. apply Z.pow_le_mono_r; lia.
    + intros He. apply Z.div_le_lower_bound; [lia|]. rewrite <- Z.pow_add_r by lia.
      by replace (L - expn a + (expn a - 1)) with (L - 1) by lia.
  - rewrite Z.shiftr_mul_pow2 by lia. replace (- (L - expn a)) with (expn a - L) by lia.
    pose proof (Z.pow_pos_nonneg 2 (expn a - L) ltac:(lia) ltac:(lia)) as Hp.
    assert (2 ^ expn a = 2 ^ L * 2 ^ (expn a - L)) as E1
      by (rewrite <- Z.pow_add_r by lia; f_equal; lia).
    assert (2 ^ (expn a - 1) = 2 ^ (L - 1) * 2 ^ (expn a - L)) as E2
      by (rewrite <- Z.pow_add_r by lia; f_equal; lia).
    rewrite Z.max_r, E1, E2 by lia.
    split; [apply Z.mul_nonneg_nonneg; lia|]. split; [by apply Z.mul_lt_mono_pos_r|].
    intros _. apply Z.mul_le_mono_nonneg_r; lia.
Qed.

(** The leading limb holds the integral part of a small number. *)
Lemma top_bits_ok a : normal a → 0 < expn a <= 64 → top_bits a = Some (trunc a).
Proof.
  intros H He. destruct (fin_top a H) as (l & x & E & Hx). unfold top_bits, trunc, len.
  pose proof (fin_limbs a H) as Hl. rewrite E in *. apply limbs_app in Hl as [Hl _].
  rewrite length_app. change (length [x]) with 1%nat.
  replace (Z.of_nat (length l + 1) - 1) with (zlen l) by lia. rewrite aget_snoc. cbn [mbind option_bind].
  f_equal. replace (64 * Z.of_nat (length l + 1) - expn a) with (64 * zlen l + (64 - expn a)) by lia.
  rewrite <- Z.shiftr_shiftr by lia. f_equal. rewrite Z.shiftr_div_pow2, lval_snoc, <- Bn_pow by lia.
  pose proof (lval_range l Hl). symmetry. rewrite Z.add_comm, Z.mul_comm.
  rewrite Z.div_add_l, Z.div_small by lia. lia.
Qed.

(** ** Bits *)

Lemma lval_limb t (i : nat) : limbs t → u64 (lval t >> (64 * Z.of_nat i)) = default 0 (t !! i).
Proof.
  intros Ht. revert i. induction Ht as [|x t Hx Ht IH]; intros i; [by rewrite Z.shiftr_0_l|].
  unfold is_u64 in Hx. fold B in Hx. destruct i as [|i]; cbn [lval].
  - change (default 0 ((x :: t) !! 0%nat)) with x. rewrite Z.shiftr_0_r. unfold u64. fold B. symmetry. apply Z.mod_unique_pos with (lval t); lia.
  - change ((x :: t) !! S i) with (t !! i). rewrite <- IH. replace (64 * Z.of_nat (S i)) with (64 + 64 * Z.of_nat i) by lia.
    rewrite <- Z.shiftr_shiftr by lia. do 2 f_equal. rewrite Z.shiftr_div_pow2 by lia. fold B.
    rewrite Z.mul_comm, Z.div_add by done. by rewrite Z.div_small.
Qed.

(** The limb at any position, 0 outside the array. *)
Lemma limb_at t i : limbs t → zlen t < 2 ^ 50 → - 2 ^ 63 <= i < 2 ^ 63 →
  (if u64 i <? zlen t then default 0 (aget t (u64 i)) else 0) = u64 (lval t >> (64 * i)).
Proof.
  intros Ht Hl Hi. assert (HB : B = 2 ^ 64) by done. destruct (Z.lt_ge_cases i 0) as [Hn|Hn].
  - destruct (u64_down i) as [[? _]|[_ ->]]; [lia|lia|]. rewrite (proj2 (Z.ltb_ge _ _)) by lia.
    rewrite Z.shiftr_mul_pow2 by lia. replace (- (64 * i)) with (64 * (- i - 1) + 64) by lia.
    rewrite Z.pow_add_r, Z.mul_assoc by lia. symmetry. apply Z.mod_mul. lia.
  - rewrite u64_id by (unfold is_u64; lia). pose proof (lval_limb t (Z.to_nat i) Ht) as E.
    rewrite Z2Nat.id in E by lia. rewrite E. unfold aget. rewrite (proj2 (Z.leb_le _ _)) by lia.
    destruct (Z.ltb_spec i (zlen t)); [done|]. by rewrite lookup_ge_None_2 by lia.
Qed.

Lemma shift_two y p : 0 < p < 64 →
  (u64 y >> p) .| u64 (u64 (y >> 64) << (64 - p)) = u64 (y >> p).
Proof.
  intros Hp. destruct (shr_limb (u64 y) (u64 (y >> 64)) p (u64_range _) (proj1 (u64_range _)))
    as [Hr E]; [lia|]. set (r := _ .| _) in *. clearbody r.
  rewrite Z.shiftr_div_pow2 in E by lia. rewrite Z.shiftr_div_pow2 by lia.
  pose proof (Z.pow_pos_nonneg 2 p ltac:(lia) ltac:(lia)) as HP. assert (HB : B = 2 ^ 64) by done.
  unfold u64 in *. fold B in E |- *. unfold is_u64 in Hr. fold B in Hr.
  assert (B mod 2 ^ p = 0) as HBp.
  { apply Z.mod_divide; [lia|]. exists (2 ^ (64 - p)). rewrite <- Z.pow_add_r by lia. unfold B. f_equal. lia. }
  assert (((y / B) mod B) mod 2 ^ p = (y / B) mod 2 ^ p) as E1.
  { apply Z.mod_mod_divide. by apply Z.mod_divide; [lia|]. }
  assert ((y mod B) mod 2 ^ p = y mod 2 ^ p) as E2.
  { apply Z.mod_mod_divide. by apply Z.mod_divide; [lia|]. }
  rewrite E1, E2, <- (Z.rem_mul_r y B (2 ^ p)) in E by lia.
  rewrite (Z.mul_comm B), Z.rem_mul_r in E by lia.
  apply Z.mul_reg_r with (2 ^ p); lia.
Qed.

(** Sixty-four bits from any position, also from below the array. *)
Lemma get_bits_ok t pos : limbs t → zlen t < 2 ^ 50 → - 2 ^ 63 <= pos < 2 ^ 63 →
  get_bits t pos = u64 (lval t >> pos).
Proof.
  intros Ht Hl Hp. unfold get_bits. assert (HB : B = 2 ^ 64) by done.
  change 63 with (2 ^ 6 - 1). rewrite land_ones_mod, Z.shiftr_div_pow2 by lia.
  change (2 ^ 6) with 64. set (i := pos / 64).
  pose proof (Z.div_mod pos 64 ltac:(lia)) as E. pose proof (Z.mod_pos_bound pos 64 ltac:(lia)) as Hm.
  fold i in E. rewrite (limb_at t i) by (done || lia).
  assert (u64 (u64 i + 1) = u64 (i + 1)) as -> by (unfold u64; by rewrite Zplus_mod_idemp_l).
  rewrite (limb_at t (i + 1)) by (done || lia).
  replace (lval t >> (64 * (i + 1))) with ((lval t >> (64 * i)) >> 64)
    by (rewrite Z.shiftr_shiftr by lia; f_equal; lia).
  destruct (Z.eqb_spec (pos mod 64) 0).
  - do 2 f_equal. lia.
  - rewrite shift_two by lia. rewrite Z.shiftr_shiftr by lia. do 2 f_equal. lia.
Qed.

(** ** Conversion to machine integers *)

Lemma s64_opp x : s64 (u64 (- u64 x)) = s64 (- x).
Proof.
  unfold s64, u64. rewrite Z.mod_mod by done. do 2 (replace (- (x mod 2 ^ 64)) with (0 - x mod 2 ^ 64) by lia).
  rewrite Zminus_mod_idemp_r. done.
Qed.

Lemma s64_u64 x : s64 (u64 x) = s64 x.
Proof. unfold s64, u64. by rewrite Z.mod_mod. Qed.

Lemma get_int_mod v neg : s64 (if (neg : bool) then u64 (- u64 v) else u64 v) = s64 (if neg then - v else v).
Proof. destruct neg; [apply s64_opp|apply s64_u64]. Qed.

(** What [BF_GET_INT_MOD] and its absence mean. *)
Definition int64_spec (n : Z) (mod_ : bool) : Z * Z :=
  if mod_ then (s64 n, 0)
  else if n <? - 2 ^ 63 then (- 2 ^ 63, BF_ST_INVALID_OP)
  else if 2 ^ 63 <=? n then (2 ^ 63 - 1, BF_ST_INVALID_OP)
  else (n, 0).

(** Conversion of a finite number or zero to 64 bits truncates towards zero,
    and then reduces modulo 2^64 or saturates. *)
Lemma bf_get_int64_ok a flags : normal a ∨ zero a →
  bf_get_int64 a flags = Some (int64_spec (signed_trunc a) (negb (flags .& BF_GET_INT_MOD =? 0))).
Proof.
  intros [H|[He Et]].
  2: { unfold bf_get_int64, int64_spec, signed_trunc, trunc. rewrite He, Et, Z.shiftr_0_l.
       destruct (negb _), (sign a); done. }
  pose proof (trunc_range a H) as (R0 & R1 & R2). pose proof (fin_expn a H) as Hexp.
  unfold bf_get_int64, int64_spec, signed_trunc. rewrite (proj2 (Z.leb_gt _ _)) by lia.
  set (m := negb (flags .& BF_GET_INT_MOD =? 0)). clearbody m.
  destruct (Z.leb_spec (expn a) 0).
  { rewrite Z.max_l in R1 by lia. assert (trunc a = 0) as -> by (change (2 ^ 0) with 1 in R1; lia).
    by destruct m, (sign a). }
  rewrite Z.max_r in R1 by lia. specialize (R2 ltac:(lia)).
  destruct (Z.leb_spec (expn a) 63).
  { rewrite top_bits_ok by (done || lia). cbn [mbind option_bind].
    assert (trunc a < 2 ^ 63) by (eapply Z.lt_le_trans; [done|]; apply Z.pow_le_mono_r; lia).
    assert (s64 (if sign a then u64 (- trunc a) else trunc a) = if sign a then - trunc a else trunc a) as ->.
    { destruct (sign a); [rewrite s64_u64|]; apply s64_small; lia. }
    destruct m; [destruct (sign a); rewrite s64_small by lia; done|].
    destruct (sign a); case_cmp; try lia; done. }
  assert (2 ^ 63 <= trunc a) as Hbig
    by (eapply Z.le_trans; [|exact R2]; apply Z.pow_le_mono_r; lia).
  destruct m; cbn [negb].
  { rewrite get_bits_ok; [|apply (fin_limbs a H)|apply (fin_len a H)|].
    - cbn [mbind option_bind]. rewrite Z.mul_comm. fold (trunc a). by rewrite get_int_mod.
    - pose proof (fin_len a H). unfold BF_EXP_INF in Hexp. unfold len in *. lia. }
  destruct (sign a); cbn [mbind option_bind].
  2: { rewrite s64_small by lia. case_cmp; try lia; done. }
  destruct (Z.eqb_spec (expn a) 64) as [E|E].
  - pose proof (top_bits_ok a H ltac:(lia)) as Ht. unfold top_bits in Ht.
    destruct (aget (tab a) (len a - 1)) as [x|]; [|done]. cbn [mbind option_bind] in Ht |- *.
    rewrite E, Z.shiftr_0_r in Ht. injection Ht as ->. cbn [andb].
    change (s64 (2 ^ 63)) with (- 2 ^ 63). case_cmp; try lia; do 2 f_equal; lia.
  - assert (2 ^ 64 <= trunc a) by (eapply Z.le_trans; [|exact R2]; apply Z.pow_le_mono_r; lia).
    change (s64 (2 ^ 63)) with (- 2 ^ 63). cbn [mbind option_bind andb]. case_cmp; try lia; done.
Qed.

Lemma bf_get_uint64_ok a : normal a ∨ zero a →
  bf_get_uint64 a = Some (
    if (signed_trunc a <? 0) || (sign a && (0 <? expn a)) then (0, BF_ST_INVALID_OP)
    else if 2 ^ 64 <=? signed_trunc a then (2 ^ 64 - 1, BF_ST_INVALID_OP)
    else (signed_trunc a, 0)).
Proof.
  intros [H|[He Et]].
  2: { unfold bf_get_uint64, signed_trunc, trunc. rewrite He, Et, Z.shiftr_0_l. by destruct (sign a). }
  pose proof (trunc_range a H) as (R0 & R1 & R2). pose proof (fin_expn a H) as Hexp.
  unfold bf_get_uint64, signed_trunc. unfold BF_EXP_INF, BF_EXP_NAN in *.
  rewrite (proj2 (Z.eqb_neq _ _)) by lia. destruct (Z.leb_spec (expn a) 0).
  { rewrite Z.max_l in R1 by lia. assert (trunc a = 0) as -> by (change (2 ^ 0) with 1 in R1; lia).
    rewrite (proj2 (Z.ltb_ge 0 (expn a))) by lia. by destruct (sign a). }
  rewrite Z.max_r in R1 by lia. specialize (R2 ltac:(lia)).
  rewrite (proj2 (Z.ltb_lt 0 (expn a))) by lia.
  destruct (sign a); cbn [andb]; [by rewrite orb_true_r|].
  rewrite (proj2 (Z.ltb_ge (trunc a) 0)) by lia. cbn [orb].
  destruct (Z.leb_spec (expn a) 64).
  - rewrite top_bits_ok by (done || lia). cbn [mbind option_bind].
    assert (trunc a < 2 ^ 64) by (eapply Z.lt_le_trans; [done|]; apply Z.pow_le_mono_r; lia).
    by rewrite (proj2 (Z.leb_gt _ _)) by lia.
  - assert (2 ^ 64 <= trunc a) by (eapply Z.le_trans; [|exact R2]; apply Z.pow_le_mono_r; lia).
    by rewrite (proj2 (Z.leb_le _ _)) by lia.
Qed.

(** ** Construction from machine integers *)

Lemma bf_resize_ok alloc junk r l : 0 <= l → alloc l = true ∨ l = 0 →
  ∃ t, bf_resize alloc junk r l = Some (set_tab r t) ∧ length t = Z.to_nat l.
Proof.
  intros Hl Ha. unfold bf_resize, len. destruct (Z.eqb_spec l (zlen (tab r))) as [->|Hn]; cbn [negb].
  - exists (tab r). split; [by destruct r|lia].
  - assert (negb (alloc l) && negb (l =? 0) = false) as ->
      by (destruct Ha as [->| ->]; [done|apply andb_false_r]).
    eexists. split; [reflexivity|]. rewrite length_app, length_take, length_fmap, length_seqZ. lia.
Qed.

Lemma bf_set_ui_ok alloc junk r a : is_u64 a → alloc 1 = true →
  ∃ r', bf_set_ui alloc junk r a = Some (r', 0) ∧ sign r' = false ∧
    (a = 0 ∧ zero r' ∨ a ≠ 0 ∧ normal r') ∧ trunc r' = a.
Proof.
  intros Ha Hal. unfold bf_set_ui. destruct (Z.eqb_spec a 0) as [->|Hn].
  - destruct (bf_resize_ok alloc junk (set_expn (set_sign r false) BF_EXP_ZERO) 0)
      as (t & -> & Ht); [lia|by right|]. apply nil_length_inv in Ht as ->.
    eexists. split; [reflexivity|]. split; [done|]. split; [by left|apply Z.shiftr_0_l].
  - destruct (bf_resize_ok alloc junk (set_sign r false) 1) as (t & -> & Ht); [lia|by left|].
    destruct t as [|t0 [|]]; [done| |done].
    destruct (clz_range a Ha Hn) as [Hc Hr]. cbn [tab set_tab].
    change (aset [t0] 0 (u64 (a << clz a))) with (Some [u64 (a << clz a)]). cbn [mbind option_bind].
    rewrite Z.shiftl_mul_pow2, u64_id by (unfold is_u64; lia).
    exists (mkBf false (64 - clz a) [a * 2 ^ clz a]). split; [reflexivity|]. split; [done|]. split.
    + right. split; [done|]. split; cbn [expn tab].
      * unfold BF_EXP_ZERO, BF_EXP_INF. lia.
      * constructor; [unfold is_u64; lia|constructor].
      * exists [], (a * 2 ^ clz a). split; [done|exact Hr].
      * done.
    + unfold trunc, len. cbn [tab expn lval]. change (zlen [a * 2 ^ clz a]) with 1.
      replace (64 * 1 - (64 - clz a)) with (clz a) by lia.
      replace (a * 2 ^ clz a + B * 0) with (a * 2 ^ clz a) by lia.
      rewrite Z.shiftr_div_pow2, Z.div_mul by (try apply Z.pow_nonzero; lia). done.
Qed.

Lemma bf_set_si_ok alloc junk r a : - 2 ^ 63 <= a < 2 ^ 63 → alloc 1 = true →
  ∃ r', bf_set_si alloc junk r a = Some (r', 0) ∧ (normal r' ∨ zero r') ∧ signed_trunc r' = a ∧
    (sign r' = true ↔ a < 0).
Proof.
  intros Ha Hal. unfold bf_set_si, signed_trunc. assert (HB : B = 2 ^ 64) by done.
  destruct (Z.ltb_spec a 0) as [Hn|Hn].
  - rewrite (u64_id (- a)) by (unfold is_u64; lia).
    destruct (bf_set_ui_ok alloc junk r (- a)) as (r' & -> & Hs & Hf & Et); [unfold is_u64; lia|done|].
    cbn [mbind option_bind]. eexists. split; [reflexivity|]. cbn [set_sign sign].
    destruct Hf as [[? _]|[_ Hf]]; [lia|]. split_and!; [|change (- trunc r' = a); lia|done].
    left. destruct Hf as [? ? ? ?]. by split.
  - destruct (bf_set_ui_ok alloc junk r a) as (r' & -> & Hs & Hf & Et); [unfold is_u64; lia|done|].
    exists r'. rewrite Hs. split_and!; [done| |done|split; [done|lia]]. destruct Hf as [[_ ?]|[_ ?]]; auto.
Qed.

(** A machine integer survives the way into a big number and back: signed
    and unsigned 64-bit integers are converted to big numbers in normal form,
    from which [bf_get_int64], in both of its modes, and [bf_get_uint64] give
    them back; a negative number is reduced modulo 2^64 when asked for. *)
Lemma bf_int_roundtrip alloc junk r a flags :
  alloc 1 = true → - 2 ^ 63 <= a < 2 ^ 63 →
  (∃ r', bf_set_si alloc junk r a = Some (r', 0) ∧ bf_get_int64 r' flags = Some (a, 0)) ∧
  (∃ r', bf_set_ui alloc junk r (u64 a) = Some (r', 0) ∧ bf_get_uint64 r' = Some (u64 a, 0) ∧
     bf_get_int64 r' BF_GET_INT_MOD = Some (a, 0)).
Proof.
  intros Hal Ha. split.
  - destruct (bf_set_si_ok alloc junk r a Ha Hal) as (r' & -> & Hf & Et & _). exists r'. split; [done|].
    rewrite bf_get_int64_ok by done. rewrite Et. unfold int64_spec.
    destruct (negb _); [by rewrite s64_small|]. by rewrite (proj2 (Z.ltb_ge _ _)), (proj2 (Z.leb_gt _ _)) by lia.
  - pose proof (u64_range a) as Hu. destruct (bf_set_ui_ok alloc junk r (u64 a) Hu Hal) as (r' & -> & Hs & Hf & Et).
    assert (normal r' ∨ zero r') as Hf' by (destruct Hf as [[_ ?]|[_ ?]]; auto).
    assert (signed_trunc r' = u64 a) as Es by (unfold signed_trunc; by rewrite Hs). unfold is_u64 in Hu.
    exists r'. split_and!; [done| |].
    + rewrite bf_get_uint64_ok by done. rewrite Es, Hs. cbn [andb].
      by rewrite (proj2 (Z.ltb_ge _ _)), (proj2 (Z.leb_gt _ _)) by lia.
    + rewrite bf_get_int64_ok by done. rewrite Es. change (negb (BF_GET_INT_MOD .& BF_GET_INT_MOD =? 0)) with true.
      unfold int64_spec. by rewrite s64_u64, s64_small.
Qed.

Lemma bf_int_roundtrip_witness :
  let r := mkBf true 77 [1; 2; 3] in
  ∃ r', bf_set_si (λ _, true) (λ _, 5) r (- 2 ^ 63) = Some (r', 0) ∧
    bf_get_int64 r' 0 = Some (- 2 ^ 63, 0).
Proof.
  apply (bf_int_roundtrip (λ _, true) (λ _, 5) (mkBf true 77 [1; 2; 3]) (- 2 ^ 63) 0 eq_refl).
  split; [discriminate|reflexivity].
Defined.

(** ** Comparison *)

(** The limbs of a number aligned with [L] limbs. *)
Definition pad (a : bf_t) (L : nat) : list Z := replicate (L - length (tab a)) 0 ++ tab a.

Lemma pad_length a L : (length (tab a) <= L)%nat → length (pad a L) = L.
Proof. intros. unfold pad. rewrite length_app, length_replicate. lia. Qed.

Lemma lval_zeros n : lval (replicate n 0) = 0.
Proof. induction n as [|n IH]; cbn [replicate lval]; lia. Qed.

Lemma lval_pad a L : lval (pad a L) = lval (tab a) * Bn (L - length (tab a)).
Proof. unfold pad. rewrite lval_app, lval_zeros, length_replicate. lia. Qed.

Lemma limbs_pad a L : limbs (tab a) → limbs (pad a L).
Proof.
  intros. apply limbs_app. split; [|done]. apply Forall_replicate. unfold is_u64. lia.
Qed.

Lemma get_limbz_pad a L i : zlen (tab a) < 2 ^ 50 → (length (tab a) <= L)%nat → (i < L)%nat →
  Z.of_nat L < 2 ^ 50 →
  get_limbz a (u64 (len a - Z.of_nat L + Z.of_nat i)) = default 0 (pad a L !! i).
Proof.
  intros Hl HL Hi HL2. unfold get_limbz, pad, len. assert (HB : B = 2 ^ 64) by done.
  destruct (decide (i < L - length (tab a))%nat) as [Hs|Hs].
  - rewrite lookup_app_l by (rewrite length_replicate; lia). rewrite lookup_replicate_2 by lia.
    destruct (u64_down (zlen (tab a) - Z.of_nat L + Z.of_nat i)) as [[? _]|[_ ->]]; [lia|lia|].
    by rewrite (proj2 (Z.leb_le _ _)) by lia.
  - rewrite lookup_app_r by (rewrite length_replicate; lia). rewrite length_replicate.
    rewrite u64_id by (unfold is_u64; lia). rewrite (proj2 (Z.leb_gt _ _)) by lia.
    unfold aget. rewrite (proj2 (Z.leb_le _ _)) by lia. do 2 f_equal. lia.
Qed.

(** The sign of a comparison. *)
Definition compares (r x y : Z) : Prop :=
  (r = -1 ∨ r = 0 ∨ r = 1) ∧ (r < 0 ↔ x < y) ∧ (r = 0 ↔ x = y).

Lemma compares_opp r x y : compares r x y → compares (- r) (- x) (- y).
Proof. unfold compares. lia. Qed.

Lemma compares_scale r x y c : 0 < c → compares r x y → compares r (x * c) (y * c).
Proof.
  intros Hc (Hr & Hlt & Heq). split_and!; [done| |].
  - rewrite Hlt. apply Z.mul_lt_mono_pos_r. done.
  - rewrite Heq. symmetry. apply Z.mul_cancel_r. lia.
Qed.

Lemma cmpu_loop_ok a b L i : limbs (tab a) → limbs (tab b) → (i <= L)%nat → Z.of_nat L < 2 ^ 50 →
  (length (tab a) <= L)%nat → (length (tab b) <= L)%nat →
  compares (cmpu_loop a b (Z.of_nat L) i) (lval (take i (pad a L))) (lval (take i (pad b L))).
Proof.
  intros Ha Hb Hi HL Hla Hlb. induction i as [|i IH].
  { rewrite !take_0. cbn [cmpu_loop lval]. unfold compares. lia. }
  cbn [cmpu_loop]. rewrite !get_limbz_pad by lia.
  pose proof (pad_length a L Hla) as Pa. pose proof (pad_length b L Hlb) as Pb.
  destruct (lookup_lt_is_Some_2 (pad a L) i) as [x Hx]; [lia|].
  destruct (lookup_lt_is_Some_2 (pad b L) i) as [y Hy]; [lia|].
  rewrite (take_S_r _ _ _ Hx), (take_S_r _ _ _ Hy), !lval_snoc, !length_take, Hx, Hy.
  rewrite !Nat.min_l by lia. cbn [default from_option id].
  assert (0 <= lval (take i (pad a L)) < Bn i ∧ 0 <= lval (take i (pad b L)) < Bn i) as [Ra Rb].
  { assert (∀ t, limbs t → length t = L → 0 <= lval (take i t) < Bn i) as Hr.
    { intros t Ht Hlt. pose proof (lval_range (take i t) (Forall_take _ _ _ Ht)) as R.
      by rewrite length_take, Nat.min_l in R by lia. }
    split; apply Hr; auto using limbs_pad. }
  specialize (IH ltac:(lia)). destruct (Z.eqb_spec x y) as [->|Hn]; cbn [negb].
  { unfold compares in *. lia. }
  pose proof (Bn_pos i) as HP. destruct (Z.ltb_spec x y).
  - assert (Bn i * (x + 1) <= Bn i * y) by (apply Z.mul_le_mono_nonneg_l; lia). unfold compares. lia.
  - assert (Bn i * (y + 1) <= Bn i * x) by (apply Z.mul_le_mono_nonneg_l; lia). unfold compares. lia.
Qed.

(** The value of a number, as a multiple of 2^(e0 - 64 L). *)
Definition scaled (a : bf_t) (e0 : Z) (L : nat) : Z :=
  let m := lval (tab a) * Bn (L - length (tab a)) * 2 ^ (expn a - e0) in
  if sign a then - m else m.

Lemma scaled_zero a e0 L : zero a → scaled a e0 L = 0.
Proof. intros [_ Et]. unfold scaled. rewrite Et. cbn [lval]. rewrite !Z.mul_0_l. by destruct (sign a). Qed.

Lemma scaled_range a e0 L : normal a → e0 <= expn a → (length (tab a) <= L)%nat →
  2 ^ (64 * Z.of_nat L - 1 + (expn a - e0)) <= scaled (set_sign a false) e0 L <
    2 ^ (64 * Z.of_nat L + (expn a - e0)).
Proof.
  intros H He HL. pose proof (normal_range a H) as [R1 R2]. unfold len in R1, R2.
  unfold scaled, set_sign. cbn [tab expn sign]. rewrite Bn_pow.
  destruct (fin_top a H) as (l & x & E & _).
  assert (0 < zlen (tab a)) as Hpos by (rewrite E, length_app; cbn; lia).
  set (k := 64 * Z.of_nat (L - length (tab a))).
  assert (64 * Z.of_nat L = 64 * zlen (tab a) + k) as EL by (unfold k; lia).
  assert (0 <= k) as Hk by (unfold k; lia).
  assert (0 < 2 ^ k * 2 ^ (expn a - e0)) as HP
    by (rewrite <- Z.pow_add_r by lia; apply Z.pow_pos_nonneg; lia).
  assert (2 ^ (64 * Z.of_nat L - 1 + (expn a - e0)) =
          2 ^ (64 * zlen (tab a) - 1) * (2 ^ k * 2 ^ (expn a - e0))) as ->
    by (rewrite <- !Z.pow_add_r by lia; f_equal; lia).
  assert (2 ^ (64 * Z.of_nat L + (expn a - e0)) =
          2 ^ (64 * zlen (tab a)) * (2 ^ k * 2 ^ (expn a - e0))) as ->
    by (rewrite <- !Z.pow_add_r by lia; f_equal; lia).
  rewrite <- Z.mul_assoc. split; [apply Z.mul_le_mono_nonneg_r; lia|apply Z.mul_lt_mono_pos_r; lia].
Qed.

Lemma scaled_lt a b e0 L : normal a ∨ zero a → normal b → expn a < expn b →
  (length (tab a) <= L)%nat → (length (tab b) <= L)%nat → (normal a → e0 <= expn a) → e0 <= expn b →
  scaled (set_sign a false) e0 L < scaled (set_sign b false) e0 L.
Proof.
  intros Ha Hb Hlt Hla Hlb Hea Heb. destruct (scaled_range b e0 L Hb Heb Hlb) as [R _].
  eapply Z.lt_le_trans; [|exact R]. destruct (fin_top b Hb) as (l & x & E & _).
  assert (1 <= length (tab b))%nat by (rewrite E, length_app; cbn; lia). destruct Ha as [Ha|Ha].
  - destruct (scaled_range a e0 L Ha (Hea Ha) Hla) as [_ Ra]. eapply Z.lt_le_trans; [exact Ra|].
    specialize (Hea Ha). apply Z.pow_le_mono_r; lia.
  - rewrite scaled_zero by exact Ha. apply Z.pow_pos_nonneg; lia.
Qed.

Lemma bf_cmpu_ok a b e0 L : normal a ∨ zero a → normal b ∨ zero b → Z.of_nat L < 2 ^ 50 →
  (length (tab a) <= L)%nat → (length (tab b) <= L)%nat →
  (normal a → e0 <= expn a) → (normal b → e0 <= expn b) →
  compares (bf_cmpu a b) (scaled (set_sign a false) e0 L) (scaled (set_sign b false) e0 L).
Proof.
  intros Ha Hb HL Hla Hlb Hea Heb. unfold bf_cmpu.
  assert (∀ c, normal c ∨ zero c → expn c = BF_EXP_ZERO ∧ zero c ∨ BF_EXP_ZERO < expn c ∧ normal c) as Hcase.
  { intros c [H|H]; [right; split; [apply (fin_expn c H)|done]|left; split; [apply H|done]]. }
  destruct (Z.eqb_spec (expn a) (expn b)) as [E|E]; cbn [negb].
  - set (M := Nat.max (length (tab a)) (length (tab b))).
    assert (Z.max (len a) (len b) = Z.of_nat M) as -> by (unfold M, len; lia). rewrite Nat2Z.id.
    destruct (Hcase a Ha) as [[Ea Za]|[Ea Fa]], (Hcase b Hb) as [[Eb Zb]|[Eb Fb]]; try lia.
    { rewrite !scaled_zero by done. unfold M. rewrite (proj2 Za), (proj2 Zb). unfold compares. cbn. lia. }
    pose proof (cmpu_loop_ok a b M M (fin_limbs a Fa) (fin_limbs b Fb) ltac:(lia) ltac:(lia)
                  ltac:(lia) ltac:(lia)) as Hc.
    rewrite !take_ge in Hc by (rewrite pad_length; lia). rewrite !lval_pad in Hc.
    apply (compares_scale _ _ _ (Bn (L - M) * 2 ^ (expn a - e0))) in Hc.
    2: { specialize (Hea Fa). pose proof (Bn_pos (L - M)). apply Z.mul_pos_pos; [done|].
         apply Z.pow_pos_nonneg; lia. }
    unfold scaled, set_sign. cbn [tab expn sign]. rewrite <- E.
    assert (∀ n, (n <= M)%nat → Bn (L - n) = Bn (M - n) * Bn (L - M)) as HB.
    { intros n Hn. rewrite <- Bn_add. f_equal. lia. }
    rewrite (HB (length (tab a))), (HB (length (tab b))) by lia. by rewrite !Z.mul_assoc in Hc |- *.
  - destruct (Hcase a Ha) as [[Ea Za]|[Ea Fa]], (Hcase b Hb) as [[Eb Zb]|[Eb Fb]]; try lia;
      destruct (Z.ltb_spec (expn a) (expn b)); try lia.
    + pose proof (scaled_lt a b e0 L Ha Fb ltac:(lia) Hla Hlb Hea (Heb Fb)). unfold compares. lia.
    + pose proof (scaled_lt b a e0 L Hb Fa ltac:(lia) Hlb Hla Heb (Hea Fa)). unfold compares. lia.
    + pose proof (scaled_lt a b e0 L Ha Fb ltac:(lia) Hla Hlb Hea (Heb Fb)). unfold compares. lia.
    + pose proof (scaled_lt b a e0 L Hb Fa ltac:(lia) Hlb Hla Heb (Hea Fa)). unfold compares. lia.
Qed.

(** [bf_cmp] compares the values, zeros of either sign being equal. *)
Lemma bf_cmp_ok a b e0 L : normal a ∨ zero a → normal b ∨ zero b → Z.of_nat L < 2 ^ 50 →
  (length (tab a) <= L)%nat → (length (tab b) <= L)%nat →
  (normal a → e0 <= expn a) → (normal b → e0 <= expn b) →
  compares (bf_cmp a b) (scaled a e0 L) (scaled b e0 L).
Proof.
  intros Ha Hb HL Hla Hlb Hea Heb. unfold bf_cmp.
  pose proof (bf_cmpu_ok a b e0 L Ha Hb HL Hla Hlb Hea Heb) as Hc.
  assert (∀ c, normal c ∨ zero c → expn c ≠ BF_EXP_NAN) as Hnan.
  { intros c [H|[H _]]; [pose proof (fin_expn c H)|]; unfold BF_EXP_INF, BF_EXP_ZERO, BF_EXP_NAN in *; lia. }
  rewrite (proj2 (Z.eqb_neq _ _) (Hnan a Ha)), (proj2 (Z.eqb_neq _ _) (Hnan b Hb)). cbn [orb].
  assert (∀ c, normal c ∨ zero c → (normal c → e0 <= expn c) → (length (tab c) <= L)%nat →
    0 <= scaled (set_sign c false) e0 L ∧ ((expn c =? BF_EXP_ZERO) = true ↔ scaled (set_sign c false) e0 L = 0)) as Hpos.
  { intros c [H|H] He Hl.
    - pose proof (scaled_range c e0 L H (He H) Hl) as [R _]. pose proof (fin_expn c H).
      rewrite Z.eqb_eq. destruct (fin_top c H) as (l & x & E & _).
      assert (1 <= length (tab c))%nat by (rewrite E, length_app; cbn; lia). specialize (He H).
      pose proof (Z.pow_pos_nonneg 2 (64 * Z.of_nat L - 1 + (expn c - e0)) ltac:(lia) ltac:(lia)). lia.
    - rewrite scaled_zero by exact H. destruct H as [-> _]. done. }
  destruct (Hpos a Ha Hea Hla) as [Pa Za], (Hpos b Hb Heb Hlb) as [Pb Zb].
  assert (∀ c, scaled c e0 L = if sign c then - scaled (set_sign c false) e0 L else scaled (set_sign c false) e0 L)
    as Hs by done. rewrite (Hs a), (Hs b).
  destruct (sign a), (sign b); cbn [Bool.eqb negb]; [by apply compares_opp| | |done].
  - destruct (expn a =? BF_EXP_ZERO), (expn b =? BF_EXP_ZERO); cbn [andb Z.b2z]; unfold compares; lia.
  - destruct (expn a =? BF_EXP_ZERO), (expn b =? BF_EXP_ZERO); cbn [andb Z.b2z]; unfold compares; lia.
Qed.

End Libbf.
