(* ===== verification/LibbfRound.v ===== *)
(** * Rounding of big numbers ([quickjs/libbf.c])

    The addend of a rounding mode, rounding to a precision with underflow and
    overflow, and normalization. Only the first [l] limbs of a number are
    read, and the others are dropped when the result is resized: the model
    drops them first. *)
From stdpp Require Import list.
From S2P Require Import Prelude Limbs Libbf.

Module LibbfRound.
Import Limbs Libbf.
Local Open Scope cint_scope.

Inductive bf_rnd_t : Set :=
| BF_RNDN
| BF_RNDZ
| BF_RNDD
| BF_RNDU
| BF_RNDNA
| BF_RNDA
| BF_RNDF.

(** The flags: the rounding mode in the low three bits ([None]: no mode, the
    code aborts), then the options and the size of exponents. *)
Definition BF_RND_MASK : Z := 7.
Definition BF_FLAG_SUBNORMAL : Z := 8.
Definition BF_FLAG_RADPNT_PREC : Z := 16.
Definition BF_EXP_BITS_SHIFT : Z := 5.
Definition BF_EXP_BITS_MASK : Z := 63.

Definition rnd_mode (flags : Z) : option bf_rnd_t :=
  nth_error [BF_RNDN; BF_RNDZ; BF_RNDD; BF_RNDU; BF_RNDNA; BF_RNDA; BF_RNDF]
    (Z.to_nat (flags .& BF_RND_MASK)).

Definition bf_get_exp_bits (flags : Z) : Z :=
  let e := (flags >> BF_EXP_BITS_SHIFT) .& BF_EXP_BITS_MASK in
  if e =? BF_EXP_BITS_MASK then BF_EXP_BITS_MAX + 1 else BF_EXP_BITS_MAX - e.

(** Whether to add one unit, and the status. *)
Definition bf_get_rnd_add (ret : Z) (r : bf_t) (l prec : Z) (mode : bf_rnd_t) :
    option (bool * Z) :=
  bit0 ← (match mode with
          | BF_RNDF => Some true
          | _ => scan_bit_nz r (l * 64 - 1 - Z.max 0 (prec + 1))
          end);
  bit1 ← get_bit (tab r) l (l * 64 - 1 - prec);
  let inexact := negb (bit1 =? 0) || bit0 in
  add_one ← (match mode with
             | BF_RNDZ => Some false
             | BF_RNDN =>
                 if negb (bit1 =? 0) then
                   if bit0 then Some true
                   else b ← get_bit (tab r) l (l * 64 - 1 - (prec - 1)); Some (negb (b =? 0))
                 else Some false
             | BF_RNDD => Some (if Bool.eqb (sign r) true then inexact else false)
             | BF_RNDU => Some (if Bool.eqb (sign r) false then inexact else false)
             | BF_RNDA => Some inexact
             | BF_RNDNA | BF_RNDF => Some (negb (bit1 =? 0))
             end);
  Some (add_one, if inexact then ret .| BF_ST_INEXACT else ret).

(** The loop that propagates a carry from the first limb. *)
Fixpoint carry_loop (t : list Z) (carry : Z) : list Z * Z :=
  match t with
  | [] => ([], carry)
  | x :: t =>
      let v := u64 (x + carry) in
      let carry := Z.b2z (v <? carry) in
      if carry =? 0 then (v :: t, carry)
      else let '(t, carry) := carry_loop t carry in (v :: t, carry)
  end.

(** The loop that drops trailing zero limbs. *)
Fixpoint strip_zeros (t : list Z) : option (list Z) :=
  match t with
  | [] => None
  | x :: t' => if x =? 0 then strip_zeros t' else Some t
  end.

Section Alloc.
Context (alloc : Z → bool) (junk : Z → Z).

Definition bf_set_overflow (r : bf_t) (sg : bool) (prec flags : Z) : option (bf_t * Z) :=
  mode ← rnd_mode flags;
  let st := BF_ST_OVERFLOW .| BF_ST_INEXACT in
  if (prec =? BF_PREC_INF) ||
     match mode with
     | BF_RNDN | BF_RNDNA | BF_RNDA => true
     | BF_RNDD => sg
     | BF_RNDU => negb sg
     | _ => false
     end
  then Some (bf_set_inf r sg, st)
  else
    let l := (prec + 64 - 1) / 64 in
    match bf_resize alloc junk r l with
    | None => Some (bf_set_nan r, BF_ST_MEM_ERROR)
    | Some r =>
        if l <=? 0 then None
        else
          let t := limb_mask ((- prec) .& 63) 63 :: replicate (Z.to_nat (l - 1)) (2 ^ 64 - 1) in
          Some (mkBf sg (1 << (bf_get_exp_bits flags - 1)) t, st)
    end.

(** Adding one unit at [bit_pos] to the limbs from [pos] on, and on a carry out
    of them shifting them right by one bit: the limbs and the change of the
    exponent. *)
Definition add_unit (t : list Z) (bit_pos : Z) : option (list Z * Z) :=
  let pos := bit_pos >> 6 in
  high ← slice t pos (zlen t - pos);
  let '(high, carry) := carry_loop high (1 << (bit_pos .& 63)) in
  let '(high, e) := if negb (carry =? 0) then (fst (shr_loop high 1 1), 1) else (high, 0) in
  t ← splice t pos high;
  Some (t, e).

(** Keeping the bits from [bit_pos] on and dropping trailing zero limbs. *)
Definition keep_bits (t : list Z) (bit_pos : Z) : option (list Z) :=
  let i := bit_pos >> 6 in
  if 0 <=? i then
    let shift := bit_pos .& 63 in
    t ← (if negb (shift =? 0) then
           x ← aget t i; aset t i (x .& limb_mask shift 63)
         else Some t);
    strip_zeros (drop (Z.to_nat i) t)
  else strip_zeros t.

Definition __bf_round (r : bf_t) (prec1 flags l ret : Z) : option (bf_t * Z) :=
  if (l <? 0) || (len r <? l) then None
  else
    let r := set_tab r (take (Z.to_nat l) (tab r)) in
    let has f := negb (flags .& f =? 0) in
    let e_range := 1 << (bf_get_exp_bits flags - 1) in
    let e_min := - e_range + 3 in
    let e_max := e_range in
    prec ← (if has BF_FLAG_RADPNT_PREC then
              Some (if negb (prec1 =? BF_PREC_INF) then expn r + prec1 else prec1)
            else if (expn r <? e_min) && has BF_FLAG_SUBNORMAL then
              if prec1 =? BF_PREC_INF then None else Some (prec1 - (e_min - expn r))
            else Some prec1);
    mode ← rnd_mode flags;
    '(add_one, ret) ← bf_get_rnd_add ret r l prec mode;
    let underflow r :=
      Some (bf_set_zero r (sign r), ret .| (BF_ST_UNDERFLOW .| BF_ST_INEXACT)) in
    if prec <=? 0 then
      if (add_one : bool) then
        Some (mkBf (sign r) (expn r + (1 - prec)) [2 ^ 63],
              ret .| (BF_ST_UNDERFLOW .| BF_ST_INEXACT))
      else underflow r
    else
      let bit_pos := l * 64 - 1 - (prec - 1) in
      r ← (if add_one then
             '(t, e) ← add_unit (tab r) bit_pos; Some (mkBf (sign r) (expn r + e) t)
           else Some r);
      if (expn r <? e_min) && negb (has BF_FLAG_SUBNORMAL) then underflow r
      else
        let ret := if (expn r <? e_min) && negb (ret .& BF_ST_INEXACT =? 0)
                   then ret .| BF_ST_UNDERFLOW else ret in
        if e_max <? expn r then bf_set_overflow r (sign r) prec1 flags
        else
          t ← keep_bits (tab r) bit_pos;
          Some (set_tab r t, ret).

(** The loop that looks for the leading limb. *)
Fixpoint used_limbs (t : list Z) (l : nat) : option nat :=
  match l with
  | O => Some O
  | S k => x ← t !! k; if x =? 0 then used_limbs t k else Some (S k)
  end.

(** The loop that shifts left; [v] is the limb below. *)
Fixpoint shl_loop (t : list Z) (shift v : Z) : list Z :=
  match t with
  | [] => []
  | a :: t => (u64 (a << shift) .| (v >> (64 - shift))) :: shl_loop t shift a
  end.

Definition bf_normalize_and_round (r : bf_t) (prec1 flags : Z) : option (bf_t * Z) :=
  l ← used_limbs (tab r) (length (tab r));
  if (l =? 0)%nat then Some (mkBf (sign r) BF_EXP_ZERO [], 0)
  else
    let e := expn r - (len r - Z.of_nat l) * 64 in
    v ← aget (tab r) (Z.of_nat l - 1);
    let shift := clz v in
    let r := if negb (shift =? 0)
             then mkBf (sign r) (e - shift)
                    (shl_loop (take l (tab r)) shift 0 ++ drop l (tab r))
             else set_expn r e in
    __bf_round r prec1 flags (Z.of_nat l) 0.

Definition bf_round (r : bf_t) (prec flags : Z) : option (bf_t * Z) :=
  if len r =? 0 then Some (r, 0) else __bf_round r prec flags (len r) 0.

End Alloc.

(** ** Bits of a number *)

Lemma land_1_bit x : 0 <= x → x .& 1 = Z.b2z (Z.testbit x 0).
Proof. intros Hx. change 1 with (2 ^ 1 - 1) at 1. rewrite land_ones_mod by lia. by rewrite Z.bit0_mod. Qed.

Lemma get_bit_ok t pos : limbs t → 0 <= pos < 64 * zlen t →
  get_bit t (zlen t) pos = Some (Z.b2z (Z.testbit (lval t) pos)).
Proof.
  intros Ht Hp. unfold get_bit. rewrite Z.shiftr_div_pow2 by lia. change (2 ^ 6) with 64.
  pose proof (Z.div_mod pos 64 ltac:(lia)) as E. pose proof (Z.mod_pos_bound pos 64 ltac:(lia)) as Hm.
  assert (0 <= pos / 64 < zlen t) as Hi
    by (split; [apply Z.div_pos; lia|apply Z.div_lt_upper_bound; lia]).
  case_cmp; try lia. cbn [orb]. destruct (aget_Some t (pos / 64) Hi) as (x & -> & Hx).
  cbn [mbind option_bind]. f_equal. change 63 with (2 ^ 6 - 1). rewrite land_ones_mod by lia.
  change (2 ^ 6) with 64. pose proof (lval_limb t (Z.to_nat (pos / 64)) Ht) as El.
  rewrite Hx, Z2Nat.id in El by lia. cbn [default from_option id] in El. subst x.
  rewrite land_1_bit by (apply Z.shiftr_nonneg, u64_range). f_equal.
  rewrite Z.shiftr_spec, Z.add_0_l by lia. unfold u64. rewrite Z.mod_pow2_bits_low by lia.
  rewrite Z.shiftr_spec by lia. f_equal. lia.
Qed.

Lemma get_bit_below t l pos : pos < 0 → get_bit t l pos = Some 0.
Proof.
  intros Hp. unfold get_bit. rewrite Z.shiftr_div_pow2 by lia.
  rewrite (proj2 (Z.ltb_lt _ _)); [done|]. apply Z.div_lt_upper_bound; lia.
Qed.

Lemma scan_limbs_ok t n : limbs t → (n <= length t)%nat →
  scan_limbs t n = Some (negb (lval (take n t) =? 0)).
Proof.
  intros Ht Hn. induction n as [|n IH]; cbn [scan_limbs]; [by rewrite take_0|].
  destruct (lookup_lt_is_Some_2 t n) as [x Hx]; [lia|]. rewrite Hx. cbn [mbind option_bind].
  rewrite (take_S_r _ _ _ Hx), lval_snoc, length_take, Nat.min_l by lia.
  pose proof (lval_range (take n t) (Forall_take _ _ _ Ht)) as R. pose proof (Bn_pos n).
  assert (is_u64 x) as Hu by (eapply Forall_lookup_1; done). unfold is_u64 in Hu.
  destruct (Z.eqb_spec x 0) as [->|Hn0]; cbn [negb].
  - rewrite IH by lia. do 3 f_equal. lia.
  - rewrite (proj2 (Z.eqb_neq _ _)); [done|]. assert (0 < Bn n * x) by (apply Z.mul_pos_pos; lia). lia.
Qed.

Lemma limb_mask_low p : 0 <= p < 64 → limb_mask 0 p = 2 ^ (p + 1) - 1.
Proof.
  intros Hp. unfold limb_mask. replace (p - 0 + 1) with (p + 1) by lia.
  destruct (Z.eqb_spec (p + 1) 64) as [->|Hn]; [done|]. rewrite Z.shiftl_0_r, Z.shiftl_1_l.
  apply u64_id. unfold is_u64. pose proof (Z.pow_pos_nonneg 2 (p + 1) ltac:(lia) ltac:(lia)).
  assert (2 ^ (p + 1) < 2 ^ 64) by (apply Z.pow_lt_mono_r; lia). lia.
Qed.

(** The low bits of a number: whole limbs and the low bits of the next. *)
Lemma lval_mod t (i : nat) x p : limbs t → t !! i = Some x → 0 <= p <= 64 →
  lval t mod 2 ^ (64 * Z.of_nat i + p) = lval (take i t) + Bn i * (x mod 2 ^ p).
Proof.
  intros Ht Hx Hp. pose proof (take_drop_middle t _ x Hx) as Et. rewrite <- Et at 1. rewrite lval_app.
  pose proof (lval_range (take i t) (Forall_take _ _ _ Ht)) as R.
  pose proof (lookup_lt_Some _ _ _ Hx). rewrite length_take, Nat.min_l in R |- * by lia. cbn [lval].
  set (hi := lval (drop (S i) t)). rewrite Z.pow_add_r, <- Bn_pow by lia.
  pose proof (Bn_pos i). pose proof (Z.pow_pos_nonneg 2 p ltac:(lia) ltac:(lia)).
  rewrite Z.rem_mul_r by lia. f_equal.
  - rewrite Z.mul_comm, Z.mod_add by lia. apply Z.mod_small. lia.
  - f_equal. rewrite Z.mul_comm, Z.div_add, Z.div_small, Z.add_0_l by lia.
    assert (B = 2 ^ (64 - p) * 2 ^ p) as -> by (rewrite <- Z.pow_add_r by lia; unfold B; f_equal; lia).
    replace (x + 2 ^ (64 - p) * 2 ^ p * hi) with (x + (2 ^ (64 - p) * hi) * 2 ^ p) by lia.
    by rewrite Z.mod_add by lia.
Qed.

(** Whether the number has bits below [n]. *)
Lemma scan_bit_nz_ok r n : limbs (tab r) → 0 <= n <= 64 * len r →
  scan_bit_nz r (n - 1) = Some (negb (lval (tab r) mod 2 ^ n =? 0)).
Proof.
  intros Ht Hn. unfold scan_bit_nz. rewrite Z.shiftr_div_pow2 by lia. change (2 ^ 6) with 64.
  pose proof (Z.div_mod (n - 1) 64 ltac:(lia)) as E.
  pose proof (Z.mod_pos_bound (n - 1) 64 ltac:(lia)) as Hm.
  destruct (decide (n = 0)) as [->|Hn0]; [by rewrite Z.mod_1_r|].
  set (i := (n - 1) / 64) in *. set (p := (n - 1) mod 64) in *.
  assert (0 <= i < len r) as Hi
    by (split; [apply Z.div_pos; lia|apply Z.div_lt_upper_bound; lia]).
  rewrite (proj2 (Z.ltb_ge _ _)) by lia. unfold len in Hi.
  destruct (aget_Some (tab r) i Hi) as (x & -> & Hx). cbn [mbind option_bind].
  change 63 with (2 ^ 6 - 1). rewrite land_ones_mod by lia. change (2 ^ 6) with 64. fold p.
  rewrite limb_mask_low, land_ones_mod by lia.
  rewrite scan_limbs_ok by (done || (apply lookup_lt_Some in Hx; lia)).
  assert (lval (tab r) mod 2 ^ n = lval (take (Z.to_nat i) (tab r)) + Bn (Z.to_nat i) * (x mod 2 ^ (p + 1)))
    as -> by (replace n with (64 * Z.of_nat (Z.to_nat i) + (p + 1)) by lia; apply lval_mod; (done || lia)).
  pose proof (lval_range (take (Z.to_nat i) (tab r)) (Forall_take _ _ _ Ht)) as R.
  pose proof (Z.mod_pos_bound x (2 ^ (p + 1)) ltac:(apply Z.pow_pos_nonneg; lia)).
  pose proof (Bn_pos (Z.to_nat i)).
  destruct (Z.eqb_spec (x mod 2 ^ (p + 1)) 0) as [->|Hx0]; cbn [negb].
  - do 3 f_equal. lia.
  - rewrite (proj2 (Z.eqb_neq _ _)); [done|].
    assert (0 < Bn (Z.to_nat i) * (x mod 2 ^ (p + 1))) by (apply Z.mul_pos_pos; lia). lia.
Qed.

(** ** The addend *)

(** Whether a mode rounds [q * 2^k + rem] away from zero, to [q + 1] units. *)
Definition rounds_up (mode : bf_rnd_t) (neg : bool) (q rem k : Z) : bool :=
  match mode with
  | BF_RNDZ => false
  | BF_RNDN => (2 ^ (k - 1) <? rem) || ((rem =? 2 ^ (k - 1)) && Z.odd q)
  | BF_RNDNA | BF_RNDF => 2 ^ (k - 1) <=? rem
  | BF_RNDD => neg && negb (rem =? 0)
  | BF_RNDU => negb neg && negb (rem =? 0)
  | BF_RNDA => negb (rem =? 0)
  end.

(** The discarded part from its leading bit and the others. *)
Lemma rem_split v k : 0 <= v → 1 <= k →
  v mod 2 ^ k = Z.b2z (Z.testbit v (k - 1)) * 2 ^ (k - 1) + v mod 2 ^ (k - 1).
Proof.
  intros Hv Hk. replace (2 ^ k) with (2 ^ (k - 1) * 2) 
    by (replace k with (Z.succ (k - 1)) at 2 by lia; rewrite Z.pow_succ_r by lia; lia).
  rewrite Z.rem_mul_r by lia. rewrite Z.testbit_spec' by lia. lia.
Qed.

Lemma testbit_odd_div v k : 0 <= k → Z.testbit v k = Z.odd (v / 2 ^ k).
Proof. intros Hk. rewrite <- Z.shiftr_div_pow2, <- Z.bit0_odd, Z.shiftr_spec by lia. f_equal. Qed.

Lemma scan_bit_nz_below r pos : pos < 0 → scan_bit_nz r pos = Some false.
Proof.
  intros Hp. unfold scan_bit_nz. rewrite Z.shiftr_div_pow2 by lia.
  rewrite (proj2 (Z.ltb_lt _ _)); [done|]. apply Z.div_lt_upper_bound; lia.
Qed.

(** Case analysis of the tests on the discarded part. *)
Ltac split_tests :=
  repeat match goal with
  | |- context [Z.eqb ?a ?b] => destruct (Z.eqb_spec a b); cbn [negb orb andb]
  | |- context [Z.ltb ?a ?b] => destruct (Z.ltb_spec a b); cbn [negb orb andb]
  | |- context [Z.leb ?a ?b] => destruct (Z.leb_spec a b); cbn [negb orb andb]
  | |- context [Z.odd ?a] => destruct (Z.odd a); cbn [negb orb andb Z.b2z Z.eqb]
  end; cbn [Z.b2z]; try done; lia.

Lemma bf_get_rnd_add_ok ret r prec mode : limbs (tab r) → mode ≠ BF_RNDF → 1 <= prec →
  let k := 64 * len r - prec in
  let v := lval (tab r) in
  bf_get_rnd_add ret r (len r) prec mode =
    Some (if 1 <=? k then rounds_up mode (sign r) (v / 2 ^ k) (v mod 2 ^ k) k else false,
          if (1 <=? k) && negb (v mod 2 ^ k =? 0) then ret .| BF_ST_INEXACT else ret).
Proof.
  intros Ht Hm Hp k v. unfold bf_get_rnd_add.
  replace (len r * 64 - 1 - Z.max 0 (prec + 1)) with (k - 1 - 1) by (unfold k; lia).
  replace (len r * 64 - 1 - (prec - 1)) with k by (unfold k; lia).
  replace (len r * 64 - 1 - prec) with (k - 1) by (unfold k; lia).
  destruct (Z.leb_spec 1 k) as [Hk|Hk]; cbn [andb].
  - assert (0 <= v) as Hv by apply lval_range, Ht.
    rewrite scan_bit_nz_ok by (done || lia). unfold len in *. fold v.
    rewrite !get_bit_ok by (done || lia). fold v.
    rewrite (rem_split v k) by lia. rewrite (testbit_odd_div v k) by lia.
    pose proof (Z.mod_pos_bound v (2 ^ (k - 1)) ltac:(apply Z.pow_pos_nonneg; lia)) as R.
    destruct mode; try done; cbn [mbind option_bind rounds_up]; destruct (Z.testbit v (k - 1)), (sign r);
      cbn [Z.b2z Z.eqb negb orb andb Bool.eqb]; rewrite ?Z.mul_1_l, ?Z.mul_0_l, ?Z.add_0_l; split_tests.
  - rewrite scan_bit_nz_below, (get_bit_below _ _ (k - 1)) by lia. destruct mode; try done; by destruct (sign r).
Qed.

(** ** Adding a unit *)

Lemma mp_add_ui_0 t : mp_add_ui t 0 = (t, 0).
Proof. by destruct t. Qed.

(** The carry loop is the addition of a limb. *)
Lemma carry_loop_eq t c : c ≠ 0 → carry_loop t c = mp_add_ui t c.
Proof.
  revert c. induction t as [|x t IH]; intros c Hc; cbn [carry_loop mp_add_ui]; [done|].
  rewrite (proj2 (Z.eqb_neq c 0)) by done.
  destruct (u64 (x + c) <? c); cbn [Z.b2z Z.eqb]; [by rewrite IH|by rewrite mp_add_ui_0].
Qed.

(** The limbs below and from the one that holds a bit. *)
Lemma split_limb t bp : limbs t → 0 <= bp < 64 * zlen t →
  ∃ low high, t = low ++ high ∧ limbs low ∧ limbs high ∧ zlen low = bp / 64 ∧
    (0 < length high)%nat ∧ 2 ^ bp = Bn (length low) * 2 ^ (bp mod 64) ∧
    ∀ h, lval (low ++ h) / 2 ^ bp = lval h / 2 ^ (bp mod 64).
Proof.
  intros Ht Hb. pose proof (Z.div_mod bp 64 ltac:(lia)) as E.
  pose proof (Z.mod_pos_bound bp 64 ltac:(lia)).
  assert (0 <= bp / 64 < zlen t) as Hi
    by (split; [apply Z.div_pos; lia|apply Z.div_lt_upper_bound; lia]).
  pose proof (Forall_take is_u64 (Z.to_nat (bp / 64)) t Ht) as Hlow.
  exists (take (Z.to_nat (bp / 64)) t), (drop (Z.to_nat (bp / 64)) t).
  rewrite take_drop, length_drop, length_take, Nat.min_l by lia.
  assert (2 ^ bp = Bn (Z.to_nat (bp / 64)) * 2 ^ (bp mod 64)) as Ep
    by (rewrite Bn_pow, <- Z.pow_add_r by lia; f_equal; lia).
  split_and!; [done|exact Hlow|by apply Forall_drop|lia|lia|exact Ep|].
  intros h. rewrite Ep, lval_app, length_take, Nat.min_l by lia.
  pose proof (Bn_pos (Z.to_nat (bp / 64))). pose proof (Z.pow_pos_nonneg 2 (bp mod 64) ltac:(lia) ltac:(lia)).
  rewrite <- Z.div_div by lia. f_equal. rewrite Z.add_comm, Z.mul_comm, Z.div_add_l by lia.
  pose proof (lval_range _ Hlow) as R. rewrite length_take, Nat.min_l in R by lia.
  rewrite Z.div_small by lia. lia.
Qed.

(** A sum that leaves the limbs is the next power of two on the kept bits. *)
Lemma unit_carry M N p h v b c : 0 <= p → 0 <= M → 0 < N → N = 2 * (M * 2 ^ p) → 2 ^ p < N →
  0 <= v < N → 0 <= h → c ≠ 0 → 0 <= c → h + N * c = v + 2 ^ p → 
  ∀ h', 0 <= b < 2 → h' * 2 + b = h + N * 1 →
  M * 2 ^ p <= h' ∧ h' / 2 ^ p * 2 ^ 1 = v / 2 ^ p + 1.
Proof.
  intros Hp HM HN EN Hlt Hv Hh Hc0 Hc E h' Hb E'. pose proof (Z.pow_pos_nonneg 2 p ltac:(lia) Hp).
  set (P := 2 ^ p) in *. assert (c = 1) as -> by nia. rewrite Z.mul_1_r in *.
  assert (h' = M * P + h / 2) as -> by (pose proof (Z.div_mod h 2); pose proof (Z.mod_pos_bound h 2); lia).
  pose proof (Z.div_pos h 2 Hh ltac:(lia)). split; [lia|].
  assert (h / 2 < P) by (apply Z.div_lt_upper_bound; lia).
  rewrite Z.div_add_l, Z.div_small by lia.
  replace v with ((2 * M - 1) * P + h) by lia. rewrite Z.div_add_l, Z.div_small by lia. lia.
Qed.

Lemma high_add high p : limbs high → 0 <= p < 64 → (0 < length high)%nat →
  2 ^ (64 * zlen high - 1) <= lval high →
  ∃ h c, carry_loop high (1 << p) = (h, c) ∧
  ∃ h' e, (if negb (c =? 0) then (fst (shr_loop h 1 1), 1) else (h, 0)) = (h', e) ∧
    limbs h' ∧ length h' = length high ∧ 0 <= e <= 1 ∧ 2 ^ (64 * zlen high - 1) <= lval h' ∧
    lval h' / 2 ^ p * 2 ^ e = lval high / 2 ^ p + 1.
Proof.
  intros Hh Hp Hn Htop. rewrite Z.shiftl_1_l.
  pose proof (Z.pow_pos_nonneg 2 p ltac:(lia) ltac:(lia)) as HP.
  rewrite carry_loop_eq by lia.
  assert (2 ^ p < 2 ^ 64) by (apply Z.pow_lt_mono_r; lia).
  destruct (mp_add_ui_ok high (2 ^ p) Hh) as (h & c & -> & Hl & Elen & Hc & E); [unfold is_u64; lia|].
  exists h, c. split; [done|]. pose proof (lval_range _ Hh) as Rv. pose proof (lval_range _ Hl) as Rh.
  destruct (Z.eqb_spec c 0) as [->|Hc0]; cbn [negb].
  - exists h, 0. split_and!; [done|done|done|lia|lia|lia|]. replace (lval h) with (lval high + 1 * 2 ^ p) by lia.
    rewrite Z.div_add by lia. lia.
  - destruct (shr_loop_ok h 1 1 Hl) as (h' & l & -> & Hl' & El' & Hp' & E'); [lia..|]. cbn [fst].
    pose proof (Z.mod_pos_bound l (2 ^ 1) ltac:(lia)). change (1 mod 2 ^ 1) with 1 in E'.
    assert (2 ^ (64 * zlen high - 1) = 2 ^ (64 * zlen high - 1 - p) * 2 ^ p) as EM
      by (rewrite <- Z.pow_add_r by lia; f_equal; lia).
    assert (Bn (length high) = 2 * 2 ^ (64 * zlen high - 1)) as EB
      by (rewrite Bn_pow, <- Z.pow_succ_r by lia; f_equal; lia).
    assert (2 ^ p < Bn (length high)) as HpB by (rewrite Bn_pow; apply Z.pow_lt_mono_r; lia).
    pose proof (Z.pow_nonneg 2 (64 * zlen high - 1 - p) ltac:(lia)) as HM. unfold is_u64 in Hc.
    rewrite Elen in *. rewrite EM in EB.
    destruct (unit_carry (2 ^ (64 * zlen high - 1 - p)) (Bn (length high)) p (lval h) (lval high) (l mod 2 ^ 1) c ltac:(lia) HM ltac:(lia) EB HpB Rv
      ltac:(lia) Hc0 ltac:(lia) E (lval h') ltac:(lia) ltac:(lia)) as [U1 U2].
    exists h', 1. rewrite EM. split_and!; [done|done|lia|lia|lia|exact U1|exact U2].
Qed.

(** The kept bits grow by one; when they overflow, they are halved and the
    exponent grows. *)
Lemma add_unit_ok t bp : limbs t → 0 <= bp < 64 * zlen t →
  2 ^ (64 * zlen t - 1) <= lval t →
  ∃ t' e, add_unit t bp = Some (t', e) ∧ limbs t' ∧ length t' = length t ∧ 0 <= e <= 1 ∧
    2 ^ (64 * zlen t - 1) <= lval t' ∧ lval t' / 2 ^ bp * 2 ^ e = lval t / 2 ^ bp + 1.
Proof.
  intros Ht Hb Htop. destruct (split_limb t bp Ht Hb) as (low & high & -> & Hlo & Hhi & El & Hn & Ep & Hd).
  pose proof (Z.mod_pos_bound bp 64 ltac:(lia)) as Hm. rewrite !length_app, Nat2Z.inj_add in Hb, Htop |- *.
  unfold add_unit. rewrite Z.shiftr_div_pow2 by lia. change (2 ^ 6) with 64. rewrite <- El.
  pose proof (slice_mid low high [] (zlen low) (zlen (low ++ high) - zlen low) eq_refl
    ltac:(rewrite length_app; lia)) as Es. rewrite app_nil_r in Es. rewrite Es. cbn [mbind option_bind].
  change 63 with (2 ^ 6 - 1). rewrite land_ones_mod by lia. change (2 ^ 6) with 64.
  assert (2 ^ (64 * (zlen low + zlen high) - 1) = Bn (length low) * 2 ^ (64 * zlen high - 1)) as Et
    by (rewrite Bn_pow, <- Z.pow_add_r by lia; f_equal; lia).
  rewrite Et in Htop |- *. pose proof (Bn_pos (length low)) as HB. pose proof (lval_range _ Hlo) as Rlo.
  destruct (high_add high (bp mod 64) Hhi Hm Hn) as (h & c & -> & h' & e & -> & Hl' & Elen & He & Htop' & E).
  { rewrite lval_app in Htop. apply Z.lt_succ_r, (Z.mul_lt_mono_pos_l (Bn (length low))); lia. }
  pose proof (splice_mid low high [] h' (zlen low) eq_refl ltac:(lia)) as Es'.
  rewrite !app_nil_r in Es'. rewrite Es'. cbn [mbind option_bind]. exists (low ++ h'), e. rewrite !Hd, lval_app, !length_app.
  split_and!; [done|by apply limbs_app|lia|lia|lia| |exact E].
  assert (Bn (length low) * 2 ^ (64 * zlen high - 1) <= Bn (length low) * lval h')
    by (apply Z.mul_le_mono_nonneg_l; lia). lia.
Qed.

(** ** Keeping the leading bits *)

Lemma limb_mask_high x sh : is_u64 x → 0 < sh < 64 → x .& limb_mask sh 63 = x - x mod 2 ^ sh.
Proof.
  intros Hx Hs. unfold limb_mask. replace (63 - sh + 1) with (64 - sh) by lia.
  rewrite (proj2 (Z.eqb_neq _ _)) by lia. rewrite Z.shiftl_1_l.
  change (2 ^ (64 - sh) - 1) with (Z.pred (2 ^ (64 - sh))). rewrite <- Z.ones_equiv.
  assert (x - x mod 2 ^ sh = (x >> sh) << sh) as ->.
  { rewrite Z.shiftl_mul_pow2, Z.shiftr_div_pow2 by lia. rewrite Z.mod_eq by (apply Z.pow_nonzero; lia). lia. }
  apply Z.bits_inj'. intros n Hn. rewrite Z.land_spec. unfold u64.
  destruct (Z.lt_ge_cases n 64).
  - rewrite Z.mod_pow2_bits_low by lia. destruct (Z.lt_ge_cases n sh).
    + rewrite !(Z.shiftl_spec_low _ sh n) by lia. apply andb_false_r.
    + rewrite !Z.shiftl_spec_high, Z.shiftr_spec by lia. rewrite Z.ones_spec_low by lia.
      rewrite andb_true_r. f_equal. lia.
  - rewrite Z.mod_pow2_bits_high by lia. rewrite andb_false_r, Z.shiftl_spec_high, Z.shiftr_spec by lia.
    replace (n - sh + sh) with n by lia. rewrite <- (u64_id x Hx). unfold u64.
    by rewrite Z.mod_pow2_bits_high by lia.
Qed.

(** Dropping zero limbs keeps the value. *)
Lemma strip_zeros_ok t : limbs t → 0 < lval t →
  ∃ t', strip_zeros t = Some t' ∧ limbs t' ∧ (length t' <= length t)%nat ∧ (0 < length t')%nat ∧
    lval t' * Bn (length t - length t') = lval t.
Proof.
  intros Ht. induction Ht as [|x t Hx Ht IH]; cbn [strip_zeros lval]; [lia|]. intros Hp.
  destruct (Z.eqb_spec x 0) as [->|Hx0].
  - destruct IH as (t' & -> & Hl & Hle & Hn & E); [unfold B in Hp; lia|]. exists t'. cbn [length].
    split_and!; [done|done|lia|lia|]. rewrite Nat.sub_succ_l, Bn_S by lia. lia.
  - exists (x :: t). rewrite Nat.sub_diag. change (Bn 0) with 1. cbn [lval length].
    split_and!; [done|by constructor|lia|lia|lia].
Qed.

(** The value of a bit range, from the limbs that hold it. *)
Lemma mask_limb x h sh : is_u64 x → 0 <= sh < 64 →
  (if negb (sh =? 0) then x .& limb_mask sh 63 else x) + B * h = (x + B * h) / 2 ^ sh * 2 ^ sh.
Proof.
  intros Hx Hs. pose proof (Z.pow_pos_nonneg 2 sh ltac:(lia) ltac:(lia)).
  assert ((if negb (sh =? 0) then x .& limb_mask sh 63 else x) = x - x mod 2 ^ sh) as ->.
  { destruct (Z.eqb_spec sh 0) as [->|]; cbn [negb]; [rewrite Z.mod_1_r; lia|]. apply limb_mask_high; [done|lia]. }
  assert (B = 2 ^ (64 - sh) * 2 ^ sh) as -> by (unfold B; rewrite <- Z.pow_add_r by lia; f_equal; lia).
  replace (x + 2 ^ (64 - sh) * 2 ^ sh * h) with (x + 2 ^ (64 - sh) * h * 2 ^ sh) by lia.
  rewrite Z.div_add, Z.mod_eq by lia. lia.
Qed.

Lemma keep_bits_ok t bp : limbs t → bp < 64 * zlen t → 2 ^ (64 * zlen t - 1) <= lval t → t ≠ [] →
  ∃ t', keep_bits t bp = Some t' ∧ limbs t' ∧ (length t' <= length t)%nat ∧ (0 < length t')%nat ∧
    lval t' * Bn (length t - length t') = lval t / 2 ^ Z.max 0 bp * 2 ^ Z.max 0 bp.
Proof.
  intros Ht Hb Htop Hne. unfold keep_bits. rewrite Z.shiftr_div_pow2 by lia. change (2 ^ 6) with 64.
  assert (0 < length t)%nat by (destruct t; [done|cbn; lia]).
  pose proof (Z.pow_pos_nonneg 2 (64 * zlen t - 1) ltac:(lia) ltac:(lia)) as HP.
  destruct (Z.leb_spec 0 (bp / 64)) as [Hi|Hi].
  - assert (0 <= bp) as Hb0 by (pose proof (Z.div_mod bp 64); pose proof (Z.mod_pos_bound bp 64); lia).
    destruct (split_limb t bp Ht ltac:(lia)) as (low & high & -> & Hlo & Hhi & El & Hn & Ep & Hd).
    destruct high as [|x high]; [cbn in Hn; lia|]. apply Forall_cons in Hhi as [Hx Hhi].
    pose proof (Z.mod_pos_bound bp 64 ltac:(lia)) as Hm.
    assert (bp .& 63 = bp mod 64) as -> by (change 63 with (2 ^ 6 - 1); by rewrite land_ones_mod by lia).
    assert (1 <= lval (low ++ x :: high) / 2 ^ bp) as Hq.
    { apply Z.div_le_lower_bound; [apply Z.pow_pos_nonneg; lia|]. rewrite Z.mul_1_r.
      etrans; [|exact Htop]. apply Z.pow_le_mono_r; lia. }
    rewrite <- El, Z.max_r by lia. rewrite Hd in Hq |- *. rewrite Ep. set (sh := bp mod 64) in *.
    set (y := if negb (sh =? 0) then x .& limb_mask sh 63 else x).
    assert ((if negb (sh =? 0) then x0 ← aget (low ++ x :: high) (zlen low);
               aset (low ++ x :: high) (zlen low) (x0 .& limb_mask sh 63)
             else Some (low ++ x :: high)) = Some (low ++ y :: high)) as ->.
    { unfold y. case_match; [|done]. rewrite aget_snoc. cbn [mbind option_bind]. by apply aset_mid. }
    cbn [mbind option_bind]. rewrite Nat2Z.id, drop_app_length.
    pose proof (mask_limb x (lval high) sh Hx Hm) as E. fold y in E.
    assert (is_u64 y) as Hy.
    { unfold y. case_match; [|exact Hx]. unfold is_u64 in *. rewrite limb_mask_high by (done || lia).
      pose proof (Z.mod_le x (2 ^ sh)). pose proof (Z.mod_pos_bound x (2 ^ sh)). lia. }
    change (y + B * lval high) with (lval (y :: high)) in E. change (x + B * lval high) with (lval (x :: high)) in E.
    destruct (strip_zeros_ok (y :: high)) as (t' & -> & Hl & Hle & Hn' & E'); [by constructor|rewrite E; apply Z.mul_pos_pos; lia|].
    exists t'. rewrite length_app. cbn [length] in *.
    split_and!; [done|done|lia|lia|].
    replace (length low + S (length high) - length t')%nat with (length low + (S (length high) - length t'))%nat by lia.
    rewrite Bn_add. rewrite E in E'. rewrite (Z.mul_comm (Bn (length low))), Z.mul_assoc, E'. lia.
  - rewrite Z.max_l, Z.mul_1_r, Z.div_1_r by (pose proof (Z.div_mod bp 64); pose proof (Z.mod_pos_bound bp 64); lia).
    apply strip_zeros_ok; [done|lia].
Qed.

(** The leading bit tells the leading limb. *)
Lemma top_norm t : limbs t → (0 < length t)%nat → 2 ^ (64 * zlen t - 1) <= lval t →
  ∃ l x, t = l ++ [x] ∧ norm x.
Proof.
  intros Ht Hn Htop. destruct t as [|x l _] using rev_ind; [cbn in Hn; lia|]. exists l, x. split; [done|].
  apply limbs_app in Ht as [Hl Hx]. apply Forall_inv in Hx. unfold norm. split; [|apply Hx].
  rewrite lval_snoc, length_app, Nat2Z.inj_add in Htop. change (zlen [x]) with 1 in Htop.
  pose proof (lval_range l Hl). pose proof (Bn_pos (length l)).
  replace (64 * (zlen l + 1) - 1) with (64 * zlen l + 63) in Htop by lia.
  rewrite Z.pow_add_r, <- Bn_pow in Htop by lia.
  apply Z.lt_succ_r, (Z.mul_lt_mono_pos_l (Bn (length l))); lia.
Qed.

(** The kept bits of a number in normal form are in normal form. *)
Lemma kept_top t t' K n : 0 <= K < 64 * Z.of_nat n → 2 ^ (64 * Z.of_nat n - 1) <= t →
  (length t' <= n)%nat → (0 < length t')%nat → lval t' * Bn (n - length t') = t / 2 ^ K * 2 ^ K →
  2 ^ (64 * zlen t' - 1) <= lval t'.
Proof.
  intros HK Ht Hle Hn E. pose proof (Bn_pos (n - length t')) as HB.
  pose proof (Z.pow_pos_nonneg 2 K ltac:(lia) ltac:(lia)).
  apply Z.lt_succ_r, (Z.mul_lt_mono_pos_r (Bn (n - length t'))); [lia|].
  rewrite Z.mul_succ_l, E. rewrite Bn_pow at 1. rewrite <- Z.pow_add_r by lia.
  replace (64 * zlen t' - 1 + 64 * Z.of_nat (n - length t')) with (64 * Z.of_nat n - 1) by lia.
  replace (2 ^ (64 * Z.of_nat n - 1)) with (2 ^ (64 * Z.of_nat n - 1 - K) * 2 ^ K) in *
    by (rewrite <- Z.pow_add_r by lia; f_equal; lia).
  assert (2 ^ (64 * Z.of_nat n - 1 - K) <= t / 2 ^ K) by (apply Z.div_le_lower_bound; lia).
  assert (2 ^ (64 * Z.of_nat n - 1 - K) * 2 ^ K <= t / 2 ^ K * 2 ^ K) by (apply Z.mul_le_mono_nonneg_r; lia).
  lia.
Qed.

(** ** The result of rounding *)

(** [y] is [x] rounded to a multiple of [2^k]. *)
Record rounded (mode : bf_rnd_t) (k x y : Z) : Prop := {
  rnd_multiple : (2 ^ k | y);
  rnd_close : Z.abs (y - x) < 2 ^ k;
  rnd_direction :
    match mode with
    | BF_RNDN => 2 * Z.abs (y - x) <= 2 ^ k ∧ (2 * Z.abs (y - x) = 2 ^ k → Z.even (y / 2 ^ k) = true)
    | BF_RNDNA => 2 * Z.abs (y - x) <= 2 ^ k ∧ (2 * Z.abs (y - x) = 2 ^ k → Z.abs x < Z.abs y)
    | BF_RNDZ => Z.abs y <= Z.abs x
    | BF_RNDA => Z.abs x <= Z.abs y
    | BF_RNDD => y <= x
    | BF_RNDU => x <= y
    | BF_RNDF => True
    end
}.

Definition signed (neg : bool) (m : Z) : Z := if neg then - m else m.

Lemma rounded_exact mode x : rounded mode 0 x x.
Proof.
  constructor; [apply Z.divide_1_l|change (2 ^ 0) with 1; lia|].
  destruct mode; change (2 ^ 0) with 1; try lia; split; lia.
Qed.

Lemma even_odd_add q (b : bool) : b = Z.odd q → Z.even (q + Z.b2z b) = true.
Proof. intros ->. rewrite Z.even_add, <- Z.negb_odd. by destruct (Z.odd q). Qed.

Lemma even_signed neg q P : 0 < P → Z.even (signed neg (q * P) / P) = Z.even q.
Proof.
  intros HP. destruct neg; cbn [signed]; [|by rewrite Z.div_mul by lia].
  rewrite <- Z.mul_opp_l, Z.div_mul by lia. apply Z.even_opp.
Qed.

(** The quotient with the addend is the rounded number. *)
Lemma rounds_up_rounded mode neg m k : 0 <= m → 1 <= k → 
  rounded mode k (signed neg m)
    (signed neg ((m / 2 ^ k + Z.b2z (rounds_up mode neg (m / 2 ^ k) (m mod 2 ^ k) k)) * 2 ^ k)).
Proof.
  intros Hm Hk. pose proof (Z.pow_pos_nonneg 2 (k - 1) ltac:(lia) ltac:(lia)) as HH.
  assert (2 ^ k = 2 * 2 ^ (k - 1)) as EP by (rewrite <- Z.pow_succ_r by lia; f_equal; lia).
  pose proof (Z.div_mod m (2 ^ k) ltac:(lia)) as E. pose proof (Z.mod_pos_bound m (2 ^ k) ltac:(lia)) as R.
  set (q := m / 2 ^ k) in *. set (rem := m mod 2 ^ k) in *.
  assert (0 <= q) by (apply Z.div_pos; lia).
  assert (0 <= q * 2 ^ k) as Hq by (apply Z.mul_nonneg_nonneg; lia).
  constructor.
  - destruct neg; cbn [signed]; rewrite ?Z.divide_opp_r; apply Z.divide_factor_r.
  - destruct mode, neg; cbn [rounds_up signed andb negb]; rewrite EP in *; split_tests.
  - destruct mode; try done; rewrite ?even_signed by lia;
      [split; [|intros Ht; apply even_odd_add; revert Ht]|..|split|]; destruct neg;
      cbn [rounds_up signed andb negb]; rewrite EP in *; split_tests.
Qed.

(** The result differs from the number when bits were discarded. *)
Lemma unit_inexact mode neg m k : 0 <= m → 1 <= k →
  (signed neg ((m / 2 ^ k + Z.b2z (rounds_up mode neg (m / 2 ^ k) (m mod 2 ^ k) k)) * 2 ^ k) =? signed neg m)
  = (m mod 2 ^ k =? 0).
Proof.
  intros Hm Hk. pose proof (Z.pow_pos_nonneg 2 (k - 1) ltac:(lia) ltac:(lia)) as HH.
  assert (2 ^ k = 2 * 2 ^ (k - 1)) as EP by (rewrite <- Z.pow_succ_r by lia; f_equal; lia).
  pose proof (Z.div_mod m (2 ^ k) ltac:(lia)) as E. pose proof (Z.mod_pos_bound m (2 ^ k) ltac:(lia)) as R.
  set (q := m / 2 ^ k) in *. set (rem := m mod 2 ^ k) in *.
  destruct (Z.eqb_spec rem 0) as [E0|Hr0].
  - rewrite E0. assert (rounds_up mode neg q 0 k = false) as ->
      by (destruct mode, neg; cbn [rounds_up andb negb]; split_tests).
    apply Z.eqb_eq. f_equal. cbn [Z.b2z]. lia.
  - apply Z.eqb_neq. destruct neg, (rounds_up _ _ _ _ _); cbn [signed Z.b2z]; lia.
Qed.

(** The number, its sign kept, is rounded to [prec] bits and the status says
    whether it changed. *)
Record rounds_number (mode : bf_rnd_t) (prec : Z) (r r' : bf_t) (st : Z) : Prop := {
  rn_finite : normal r';
  rn_sign : sign r' = sign r;
  rn_expn : expn r <= expn r' <= expn r + 1;
  rn_len : (length (tab r') <= length (tab r))%nat;
  rn_value : rounded mode (Z.max 0 (64 * len r - prec))
               (scaled r (expn r) (length (tab r))) (scaled r' (expn r) (length (tab r)));
  rn_status : st = if scaled r' (expn r) (length (tab r)) =? scaled r (expn r) (length (tab r))
                   then 0 else BF_ST_INEXACT
}.

Lemma exp_range flags : 1 << (bf_get_exp_bits flags - 1) <= 2 ^ 61.
Proof.
  unfold bf_get_exp_bits, BF_EXP_BITS_MASK, BF_EXP_BITS_MAX.
  assert (∀ x, x .& 63 = x mod 2 ^ 6) as -> by (intros; change 63 with (2 ^ 6 - 1); by rewrite land_ones_mod by lia).
  pose proof (Z.mod_pos_bound (flags >> BF_EXP_BITS_SHIFT) (2 ^ 6) ltac:(lia)).
  set (e := (flags >> BF_EXP_BITS_SHIFT) mod 2 ^ 6) in *. destruct (Z.eqb_spec e 63); [by vm_compute|].
  destruct (Z.le_gt_cases 1 (64 - 3 - e)).
  - rewrite Z.shiftl_1_l. apply Z.pow_le_mono_r; lia.
  - rewrite Z.shiftl_div_pow2 by lia. etrans; [apply Z.div_le_upper_bound with (q := 1)|done]; [apply Z.pow_pos_nonneg; lia|].
    pose proof (Z.pow_pos_nonneg 2 (- (64 - 3 - e - 1)) ltac:(lia) ltac:(lia)). lia.
Qed.

(** Keeping the leading bits of limbs [t1] whose kept bits are the rounded
    ones. *)
Lemma keep_rounds mode prec r t1 de add : normal r → 1 <= prec → expn r < 2 ^ 61 →
  let k := 64 * len r - prec in
  let v := lval (tab r) in
  limbs t1 → length t1 = length (tab r) → 2 ^ (64 * len r - 1) <= lval t1 → 0 <= de <= 1 →
  lval t1 / 2 ^ Z.max 0 k * 2 ^ de = v / 2 ^ Z.max 0 k + Z.b2z add →
  add = (if 1 <=? k then rounds_up mode (sign r) (v / 2 ^ k) (v mod 2 ^ k) k else false) →
  ∃ t', keep_bits t1 k = Some t' ∧
    rounds_number mode prec r (mkBf (sign r) (expn r + de) t')
      (if (1 <=? k) && negb (v mod 2 ^ k =? 0) then BF_ST_INEXACT else 0).
Proof.
  intros H Hp He k v Ht Hlen Htop Hde Eq Eadd. pose proof (fin_top r H) as (l0 & x0 & E0 & _).
  assert (0 < length (tab r))%nat as Hn by (rewrite E0, length_app; cbn; lia).
  unfold len in *.
  destruct (keep_bits_ok t1 k Ht) as (t' & -> & Hl & Hle & Hn' & E); [lia|by rewrite Hlen|by destruct t1; cbn in Hlen; [lia|]|].
  exists t'. split; [done|]. rewrite Hlen in *. set (K := Z.max 0 k) in *.
  pose proof (kept_top (lval t1) t' K (length (tab r)) ltac:(lia) Htop Hle Hn' E) as Htop'.
  assert (∀ s, scaled (mkBf s (expn r + de) t') (expn r) (length (tab r)) =
     signed s ((v / 2 ^ K + Z.b2z add) * 2 ^ K)) as Es.
  { intros s. unfold scaled. cbn [tab expn sign]. rewrite E. replace (expn r + de - expn r) with de by lia.
    unfold signed. rewrite <- Eq. destruct s; lia. }
  assert (scaled r (expn r) (length (tab r)) = signed (sign r) v) as Ex.
  { unfold scaled, signed. rewrite Nat.sub_diag, Z.sub_diag, !Z.mul_1_r. done. }
  destruct H as [He1 Hv _ HL]. apply lval_range in Hv as [Hv _]. fold v in Hv. unfold BF_EXP_ZERO, BF_EXP_INF, len in *.
  constructor; cbn [tab expn sign]; rewrite ?Es, ?Ex; [|done|lia|done|..].
  - constructor; cbn [expn tab]; [unfold BF_EXP_ZERO, BF_EXP_INF; lia|done|by apply top_norm|unfold len; cbn [tab]; lia].
  - subst add. unfold K, len in *. fold k. destruct (Z.leb_spec 1 k).
    + rewrite Z.max_r by lia. by apply rounds_up_rounded.
    + rewrite Z.max_l, Z.div_1_r, Z.mul_1_r, Z.add_0_r by lia. apply rounded_exact.
  - subst add. unfold K. destruct (Z.leb_spec 1 k); cbn [andb].
    + rewrite Z.max_r by lia. by rewrite unit_inexact by lia; destruct (_ =? _).
    + rewrite Z.max_l, Z.div_1_r, Z.mul_1_r, Z.add_0_r by lia. by rewrite Z.eqb_refl.
Qed.

Section Rounding.
Context (alloc : Z → bool) (junk : Z → Z).

(** Flags that round to a precision in bits, and exponents that stay in their
    range. *)
Record round_flags (flags : Z) (mode : bf_rnd_t) : Prop := {
  rf_mode : rnd_mode flags = Some mode;
  rf_faithful : mode ≠ BF_RNDF;
  rf_radpnt : flags .& BF_FLAG_RADPNT_PREC = 0
}.

Definition expn_ok (flags e : Z) : Prop :=
  - (1 << (bf_get_exp_bits flags - 1)) + 3 <= e < 1 << (bf_get_exp_bits flags - 1).

Lemma round_ok r prec flags mode : normal r → round_flags flags mode → expn_ok flags (expn r) →
  1 <= prec →
  ∃ r' st, __bf_round alloc junk r prec flags (len r) 0 = Some (r', st) ∧ rounds_number mode prec r r' st.
Proof.
  intros H [Hm Hf Hr] He Hp. unfold expn_ok in He. pose proof (exp_range flags) as Hmax.
  pose proof (normal_range r H) as [Htop _]. pose proof (fin_limbs r H) as Hl.
  unfold __bf_round. rewrite (proj2 (Z.ltb_ge (len r) (len r))), (proj2 (Z.ltb_ge (len r) 0)) by (unfold len; lia).
  cbn [orb]. assert (set_tab r (take (Z.to_nat (len r)) (tab r)) = r) as ->.
  { unfold len. rewrite Nat2Z.id, firstn_all. by destruct r. }
  rewrite Hr, Hm. cbn [Z.eqb negb]. rewrite (proj2 (Z.ltb_ge (expn r) _)) by lia. cbn [andb mbind option_bind].
  rewrite (bf_get_rnd_add_ok 0 r prec mode Hl Hf Hp). cbn [mbind option_bind]. rewrite Z.lor_0_l.
  rewrite (proj2 (Z.leb_gt prec 0)) by lia.
  replace (len r * 64 - 1 - (prec - 1)) with (64 * len r - prec) by lia. set (k := 64 * len r - prec).
  set (add := if 1 <=? k then _ else _).
  assert (∃ t1 de, (if add then '(t, e) ← add_unit (tab r) k; Some (mkBf (sign r) (expn r + e) t) else Some r)
            = Some (mkBf (sign r) (expn r + de) t1) ∧ limbs t1 ∧ length t1 = length (tab r) ∧
            2 ^ (64 * len r - 1) <= lval t1 ∧ 0 <= de <= 1 ∧
            lval t1 / 2 ^ Z.max 0 k * 2 ^ de = lval (tab r) / 2 ^ Z.max 0 k + Z.b2z add)
    as (t1 & de & -> & Hl1 & Hlen & Htop1 & Hde & Eq).
  { destruct add eqn:Ea.
    - unfold add in Ea. destruct (Z.leb_spec 1 k) as [Hk|]; [|done]. rewrite Z.max_r by lia.
      destruct (add_unit_ok (tab r) k Hl) as (t1 & de & -> & A); [unfold k, len in *; lia|done|].
      exists t1, de. cbn [mbind option_bind Z.b2z]. unfold len. tauto.
    - exists (tab r), 0. rewrite Z.add_0_r, Z.mul_1_r. cbn [Z.b2z]. rewrite Z.add_0_r.
      split_and!; try done; try lia. by destruct r. }
  cbn [mbind option_bind expn tab sign]. rewrite (proj2 (Z.ltb_ge (expn r + de) _)) by lia. cbn [andb].
  rewrite (proj2 (Z.ltb_ge _ (expn r + de))) by lia.
  destruct (keep_rounds mode prec r t1 de add H Hp ltac:(lia) Hl1 Hlen Htop1 Hde Eq eq_refl) as (t' & Ek & HR).
  fold k in Ek. rewrite Ek.
  cbn [mbind option_bind]. eexists _, _. by split; [reflexivity|].
Qed.

(** ** Normalization *)

Lemma used_limbs_ok t (n : nat) : limbs t → (n <= length t)%nat → 
  ∃ l, used_limbs t n = Some l ∧ (l <= n)%nat ∧ lval (take l t) = lval (take n t) ∧
    (l = O ∨ ∃ l' x, take l t = l' ++ [x] ∧ x ≠ 0).
Proof.
  intros Ht. induction n as [|n IH]; intros Hn; cbn [used_limbs].
  - exists O. split_and!; [done|lia|done|by left].
  - destruct (lookup_lt_is_Some_2 t n) as [x Hx]; [lia|]. rewrite Hx. cbn [mbind option_bind].
    destruct (Z.eqb_spec x 0) as [->|Hx0].
    + destruct IH as (l & -> & Hl & E & Hc); [lia|]. exists l.
      split_and!; [done|lia| |done]. rewrite E, (take_S_r _ _ _ Hx), lval_snoc. lia.
    + exists (S n). split_and!; [done|lia|done|]. right. exists (take n t), x.
      by rewrite (take_S_r _ _ _ Hx).
Qed.

Lemma shl_limb a v s : is_u64 a → is_u64 v → 1 <= s < 64 →
  let r := u64 (a << s) .| (v >> (64 - s)) in
  is_u64 r ∧ r + B * (a >> (64 - s)) = a * 2 ^ s + (v >> (64 - s)).
Proof.
  intros Ha Hv Hs. cbn zeta.
  assert (B = 2 ^ (64 - s) * 2 ^ s) as HB by (unfold B; rewrite <- Z.pow_add_r by lia; f_equal; lia).
  rewrite Z.shiftl_mul_pow2, !Z.shiftr_div_pow2 by lia. unfold is_u64 in *. fold B in *.
  pose proof (Z.pow_pos_nonneg 2 s ltac:(lia) ltac:(lia)). pose proof (Z.pow_pos_nonneg 2 (64 - s) ltac:(lia) ltac:(lia)).
  assert (u64 (a * 2 ^ s) = (a mod 2 ^ (64 - s)) * 2 ^ s) as ->.
  { unfold u64. fold B. rewrite HB. by rewrite Z.mul_mod_distr_r by lia. }
  pose proof (Z.mod_pos_bound a (2 ^ (64 - s)) ltac:(lia)). pose proof (Z.div_mod a (2 ^ (64 - s)) ltac:(lia)).
  assert (0 <= v / 2 ^ (64 - s) < 2 ^ s) as Hd
    by (split; [apply Z.div_pos; lia|apply Z.div_lt_upper_bound; lia]).
  rewrite lor_low_high by (done || lia).
  assert (a mod 2 ^ (64 - s) * 2 ^ s <= (2 ^ (64 - s) - 1) * 2 ^ s) by (apply Z.mul_le_mono_nonneg_r; lia).
  split; [lia|]. replace (a * 2 ^ s) with ((2 ^ (64 - s) * (a / 2 ^ (64 - s)) + a mod 2 ^ (64 - s)) * 2 ^ s) by lia.
  rewrite HB at 1. lia.
Qed.

Lemma shl_loop_ok t x s v : limbs (t ++ [x]) → is_u64 v → 1 <= s < 64 →
  ∃ res, shl_loop (t ++ [x]) s v = res ∧ limbs res ∧ length res = S (length t) ∧
    lval res + Bn (S (length t)) * (x >> (64 - s)) = lval (t ++ [x]) * 2 ^ s + (v >> (64 - s)).
Proof.
  intros Ht Hv Hs. eexists. split; [reflexivity|]. revert v Hv.
  induction t as [|a t IH]; intros v Hv; cbn [app shl_loop lval length]; apply Forall_cons in Ht as [Ha Ht];
    destruct (shl_limb _ v s Ha Hv Hs) as [Hr E].
  - change (Bn 1) with B. split_and!; [constructor; [exact Hr|constructor]|done|]. lia.
  - destruct (IH Ht a Ha) as (Hr' & Hl' & E'). split_and!; [by constructor|by rewrite Hl'|].
    rewrite (Bn_S (S (length t))). lia.
Qed.

(** Shifting by the number of leading zeros sets the leading bit. *)
Lemma shl_norm t x : limbs (t ++ [x]) → is_u64 x → x ≠ 0 →
  let t1 := if negb (clz x =? 0) then shl_loop (t ++ [x]) (clz x) 0 else t ++ [x] in
  limbs t1 ∧ length t1 = S (length t) ∧ lval t1 = lval (t ++ [x]) * 2 ^ clz x ∧
  ∃ l y, t1 = l ++ [y] ∧ norm y.
Proof.
  intros Ht Hx Hx0. destruct (clz_range x Hx Hx0) as [Hs Hn]. set (s := clz x) in *. cbn zeta.
  destruct (Z.eqb_spec s 0) as [E0|Hs0]; cbn [negb].
  - rewrite E0, Z.mul_1_r in *. split_and!; [done|rewrite length_app; cbn; lia|done|by exists t, x].
  - destruct (shl_loop_ok t x s 0 Ht ltac:(done) ltac:(lia)) as (t1 & -> & Hl & Hlen & E).
    rewrite Z.shiftr_0_l, Z.add_0_r in E.
    assert (x >> (64 - s) = 0) as Ez.
    { rewrite Z.shiftr_div_pow2 by lia. apply Z.div_small. split; [apply Hx|].
      apply (Z.mul_lt_mono_pos_r (2 ^ s)); [apply Z.pow_pos_nonneg; lia|].
      rewrite <- Z.pow_add_r by lia. replace (64 - s + s) with 64 by lia. lia. }
    rewrite Ez, Z.mul_0_r, Z.add_0_r in E. split_and!; [done|done|done|].
    apply top_norm; [done|lia|]. rewrite E, Hlen, lval_snoc.
    apply limbs_app in Ht as [Ht _]. pose proof (lval_range t Ht) as R.
    replace (64 * Z.of_nat (S (length t)) - 1) with (64 * zlen t + 63) by lia.
    rewrite Z.pow_add_r, <- Bn_pow by lia. pose proof (Bn_pos (length t)).
    assert (Bn (length t) * 2 ^ 63 <= Bn (length t) * (x * 2 ^ s)) by (apply Z.mul_le_mono_nonneg_l; lia).
    assert (0 <= lval t * 2 ^ s) by (apply Z.mul_nonneg_nonneg; [lia|apply Z.pow_nonneg; lia]). lia.
Qed.

Lemma round_take r prec flags l ret : 0 <= l <= len r →
  __bf_round alloc junk r prec flags l ret =
  __bf_round alloc junk (set_tab r (take (Z.to_nat l) (tab r))) prec flags l ret.
Proof.
  intros Hl. unfold __bf_round, len in *. cbn [set_tab tab expn sign].
  rewrite length_take, Nat.min_l by lia. rewrite take_take, Nat.min_id. case_cmp; try lia; done.
Qed.

(** The number in normal form with the same value. *)
Lemma normalize_ok r prec flags : limbs (tab r) → lval (tab r) ≠ 0 → len r < 2 ^ 50 →
  BF_EXP_ZERO + 64 * len r < expn r < BF_EXP_INF →
  ∃ r1 sh, normal r1 ∧ sign r1 = sign r ∧ lval (tab r1) = lval (tab r) * 2 ^ sh ∧ 0 <= sh < 64 ∧
    expn r1 - 64 * len r1 = expn r - 64 * len r - sh ∧ (length (tab r1) <= length (tab r))%nat ∧ 
    bf_normalize_and_round alloc junk r prec flags = __bf_round alloc junk r1 prec flags (len r1) 0.
Proof.
  intros Ht Hv Hlen He. unfold bf_normalize_and_round.
  destruct (used_limbs_ok (tab r) (length (tab r)) Ht) as (l & -> & Hl & Ev & Hc); [lia|].
  rewrite firstn_all in Ev. cbn [mbind option_bind].
  destruct Hc as [->|(t & x & Et & Hx0)]; [by rewrite <- Ev in Hv|].
  assert (l = S (length t)) as El.
  { apply (f_equal length) in Et. rewrite length_take, length_app in Et. cbn in Et. lia. }
  rewrite (proj2 (Nat.eqb_neq l 0)) by lia.
  pose proof (Forall_take is_u64 l _ Ht) as Hlim. rewrite Et in Hlim.
  assert (is_u64 x) as Hx by (apply limbs_app in Hlim as [_ Hx]; by apply Forall_inv in Hx).
  assert (aget (tab r) (Z.of_nat l - 1) = Some x) as ->.
  { rewrite <- (take_drop l (tab r)), Et, <- app_assoc. cbn [app].
    replace (Z.of_nat l - 1) with (zlen t) by lia. apply aget_snoc. }
  cbn [mbind option_bind]. destruct (clz_range x Hx Hx0) as [Hsh _].
  destruct (shl_norm t x Hlim Hx Hx0) as (Hl1 & Hlen1 & Ev1 & Htop1).
  set (t1 := if negb (clz x =? 0) then _ else _) in *.
  exists (mkBf (sign r) (expn r - (len r - Z.of_nat l) * 64 - clz x) t1), (clz x).
  unfold BF_EXP_ZERO, BF_EXP_INF, len in *. rewrite <- Et, Ev in Ev1. cbn [tab expn sign].
  split_and!; [constructor|done|done|lia|lia|rewrite Hlen1; lia|lia|].
  1: cbn [expn]; unfold BF_EXP_ZERO, BF_EXP_INF; lia. 1: done. 1: done. 1: unfold len; cbn [tab]; lia.
  set (r2 := if negb (clz x =? 0) then _ else _).
  assert (length (tab r2) = length (tab r) ∧
    set_tab r2 (take l (tab r2)) = mkBf (sign r) (expn r - (zlen (tab r) - Z.of_nat l) * 64 - clz x) t1) as [E2 E3].
  { unfold r2, t1 in *. rewrite Et. destruct (Z.eqb_spec (clz x) 0) as [->|]; cbn [negb tab set_expn set_tab expn sign] in *.
    - split; [done|]. by rewrite Et, Z.sub_0_r.
    - rewrite length_app, length_drop, Hlen1. split; [lia|]. by rewrite take_app_length' by lia. }
  rewrite round_take by (unfold len; lia). rewrite Nat2Z.id, E3, Hlen1, <- El. done.
Qed.

(** [r1] is the number in normal form with the value of [r]. *)
Definition normal_of (r r1 : bf_t) : Prop :=
  normal r1 ∧ sign r1 = sign r ∧
  ∃ sh, 0 <= sh < 64 ∧ lval (tab r1) = lval (tab r) * 2 ^ sh ∧
    expn r1 - 64 * len r1 = expn r - 64 * len r - sh.

Lemma bf_round_ok r prec flags mode : normal r → round_flags flags mode → expn_ok flags (expn r) →
  1 <= prec →
  ∃ r' st, bf_round alloc junk r prec flags = Some (r', st) ∧ rounds_number mode prec r r' st.
Proof.
  intros H Hf He Hp. unfold bf_round. destruct (fin_top r H) as (l & x & E & _).
  rewrite (proj2 (Z.eqb_neq (len r) 0)) by (unfold len; rewrite E, length_app; cbn; lia).
  by apply round_ok.
Qed.

(** Normalizing and rounding any limbs whose value is not zero, with a
    precision in bits and an exponent away from the ends of its range, succeeds
    and rounds the number in normal form. *)
Lemma normalize_and_round_ok r prec flags mode :
  limbs (tab r) → lval (tab r) ≠ 0 → len r < 2 ^ 50 → 1 <= prec →
  round_flags flags mode → expn_ok flags (expn r) → expn_ok flags (expn r - 64 * len r) →
  ∃ r1 r' st, normal_of r r1 ∧ bf_normalize_and_round alloc junk r prec flags = Some (r', st) ∧
    rounds_number mode prec r1 r' st.
Proof.
  intros Ht Hv Hl Hp Hf He1 He2. pose proof (exp_range flags) as Hmax. unfold expn_ok in *.
  destruct (normalize_ok r prec flags Ht Hv Hl) as (r1 & sh & H1 & Hs & Ev & Hsh & Ee & Hle & ->);
    [unfold BF_EXP_ZERO, BF_EXP_INF; lia|].
  destruct (round_ok r1 prec flags mode H1 Hf) as (r' & st & E & HR); [|exact Hp|].
  - destruct (fin_top r1 H1) as (l & x & E & _).
    assert (1 <= len r1 <= len r) by (unfold len; rewrite E, length_app in *; cbn in *; lia).
    unfold expn_ok. lia.
  - exists r1, r', st. split_and!; [|done|done]. split_and!; [done|done|]. by exists sh.
Qed.

End Rounding.

(** For example three limbs, the last one zero, rounded to two bits, ties to even:
    7 * 2^64 + 2^63 + 1 becomes 2^67 (the exponent grows). *)
Example normalize_and_round_example :
  bf_normalize_and_round (λ _, true) (λ _, 0) (mkBf false 100 [2 ^ 63 + 1; 7; 0]) 2 0 =
    Some (mkBf false (100 - 64 - 60) [2 ^ 63], BF_ST_INEXACT).
Proof. vm_compute. reflexivity. Qed.

End LibbfRound.
