(* ===== verification/LibbfOps.v ===== *)
(** * Arithmetic on big numbers ([quickjs/libbf.c])

    Multiplication, division, scaling and the integer square root of a limb.
    The results of multiplication and division are the exact ones, correctly
    rounded. *)
From stdpp Require Import list.
From S2P Require Import Prelude Limbs Libbf LibbfRound.

Module LibbfOps.
Import Limbs Libbf LibbfRound.
Local Open Scope cint_scope.

Definition BF_ST_DIVIDE_ZERO : Z := 2.
Definition FFT_MUL_THRESHOLD : Z := 100.
Definition BF_EXT_EXP_BITS_MAX : Z := BF_EXP_BITS_MAX + 1.

Section Ops.
Context (alloc : Z → bool) (junk : Z → Z).
(** The multiplication and division of large numbers; [None]: no memory. *)
Context (fft_mul : list Z → list Z → option (list Z)).
Context (mp_divnorm_large : list Z → list Z → list Z → option (list Z * list Z)).

(** Limbs needed for [prec] bits and two more for rounding. *)
Definition prec_limbs (prec : Z) : Z := (prec + 2 + 64 - 1) / 64.

(** [alias]: the result is one of the operands, and computed apart. *)
Definition bf_mul (alias : bool) (r a b : bf_t) (prec flags : Z) : option (bf_t * Z) :=
  let '(a, b) := if len a <? len b then (b, a) else (a, b) in
  let r_sign := xorb (sign a) (sign b) in
  if len b =? 0 then
    if (expn a =? BF_EXP_NAN) || (expn b =? BF_EXP_NAN) then Some (bf_set_nan r, 0)
    else if (expn a =? BF_EXP_INF) || (expn b =? BF_EXP_INF) then
      if ((expn a =? BF_EXP_INF) && (expn b =? BF_EXP_ZERO)) ||
         ((expn a =? BF_EXP_ZERO) && (expn b =? BF_EXP_INF))
      then Some (bf_set_nan r, BF_ST_INVALID_OP)
      else Some (bf_set_inf r r_sign, 0)
    else Some (bf_set_zero r r_sign, 0)
  else
    let '(a_len, b_len) :=
      match rnd_mode flags with
      | Some BF_RNDF => (Z.min (len a) (prec_limbs prec), Z.min (len b) (prec_limbs prec))
      | _ => (len a, len b)
      end in
    let a_tab := drop (Z.to_nat (len a - a_len)) (tab a) in
    let b_tab := drop (Z.to_nat (len b - b_len)) (tab b) in
    product ← (if FFT_MUL_THRESHOLD <=? b_len then Some (fft_mul a_tab b_tab)
               else match bf_resize alloc junk (if alias then bf_init else r) (a_len + b_len) with
                    | None => Some None
                    | Some r => t ← mp_mul_basecase (tab r) a_tab b_tab; Some (Some t)
                    end);
    match product with
    | None => Some (bf_set_nan r, BF_ST_MEM_ERROR)
    | Some t => bf_normalize_and_round alloc junk (mkBf r_sign (expn a + expn b) t) prec flags
    end.

Definition bf_mul_2exp (r : bf_t) (e prec flags : Z) : option (bf_t * Z) :=
  if len r =? 0 then Some (r, 0)
  else
    let e_max := (1 << BF_EXT_EXP_BITS_MAX) - 1 in
    let e := Z.min (Z.max e (- e_max)) e_max in
    __bf_round alloc junk (set_expn r (expn r + e)) prec flags (len r) 0.

(** The first limb that is not zero, of those left. *)
Fixpoint exp_min_loop (t : list Z) (e : Z) : Z :=
  match t with
  | [] => 0
  | v :: t => if negb (v =? 0) then e - zlen (v :: t) * 64 + ctz v else exp_min_loop t e
  end.

Definition bf_get_exp_min (a : bf_t) : Z := exp_min_loop (tab a) (expn a).

Definition __bf_div (r a b : bf_t) (prec flags : Z) : option (bf_t * Z) :=
  let r_sign := xorb (sign a) (sign b) in
  if (BF_EXP_INF <=? expn a) || (BF_EXP_INF <=? expn b) then
    if (expn a =? BF_EXP_NAN) || (expn b =? BF_EXP_NAN) then Some (bf_set_nan r, 0)
    else if (expn a =? BF_EXP_INF) && (expn b =? BF_EXP_INF) then Some (bf_set_nan r, BF_ST_INVALID_OP)
    else if expn a =? BF_EXP_INF then Some (bf_set_inf r r_sign, 0)
    else Some (bf_set_zero r r_sign, 0)
  else if expn a =? BF_EXP_ZERO then
    if expn b =? BF_EXP_ZERO then Some (bf_set_nan r, BF_ST_INVALID_OP)
    else Some (bf_set_zero r r_sign, 0)
  else if expn b =? BF_EXP_ZERO then Some (bf_set_inf r r_sign, BF_ST_DIVIDE_ZERO)
  else
    let fail r := Some (bf_set_nan r, BF_ST_MEM_ERROR) in
    let nb := len b in
    let n := Z.max (len a) (prec_limbs prec) in
    let na := n + nb in
    if negb (alloc (na + 1)) then fail r
    else
      let taba := replicate (Z.to_nat (na - len a)) 0 ++ tab a in
      match bf_resize alloc junk r (n + 1) with
      | None => fail r
      | Some r =>
          res ← mp_divnorm mp_divnorm_large (tab r) taba (tab b);
          match res with
          | None => fail r
          | Some (q, taba) =>
              rem ← slice taba 0 nb;
              q ← (if mp_scan_nz rem then x ← aget q 0; aset q 0 (x .| 1) else Some q);
              bf_normalize_and_round alloc junk (mkBf r_sign (expn a - expn b + 64) q) prec flags
          end
      end.

End Ops.

(** ** Square root of a limb *)

Definition sqrt_table : list Z :=
  [128; 128; 129; 130; 131; 132; 133; 134; 135; 136; 137; 138; 139; 140; 141; 142; 143; 144; 144;
   145; 146; 147; 148; 149; 150; 150; 151; 152; 153; 154; 155; 155; 156; 157; 158; 159; 160; 160;
   161; 162; 163; 163; 164; 165; 166; 167; 167; 168; 169; 170; 170; 171; 172; 173; 173; 174; 175;
   176; 176; 177; 178; 178; 179; 180; 181; 181; 182; 183; 183; 184; 185; 185; 186; 187; 187; 188;
   189; 189; 190; 191; 192; 192; 193; 193; 194; 195; 195; 196; 197; 197; 198; 199; 199; 200; 201;
   201; 202; 203; 203; 204; 204; 205; 206; 206; 207; 208; 208; 209; 209; 210; 211; 211; 212; 212;
   213; 214; 214; 215; 215; 216; 217; 217; 218; 218; 219; 219; 220; 221; 221; 222; 222; 223; 224;
   224; 225; 225; 226; 226; 227; 227; 228; 229; 229; 230; 230; 231; 231; 232; 232; 233; 234; 234;
   235; 235; 236; 236; 237; 237; 238; 238; 239; 240; 240; 241; 241; 242; 242; 243; 243; 244; 244;
   245; 245; 246; 246; 247; 247; 248; 248; 249; 249; 250; 250; 251; 251; 252; 252; 253; 253; 254;
   254; 255].

(** One iteration: from the root and remainder of the leading bits to those of
    twice as many; [m] is the number of bits added to the root, [hi] and [lo]
    are the next bits of the number. *)
Definition sqrt_step (m s1 r1 hi lo : Z) : Z * Z :=
  let num := u64 (r1 << m) .| hi in
  let q := num / u64 (2 * s1) in
  let u := num mod u64 (2 * s1) in
  let s := u64 (u64 (s1 << m) + q) in
  let r := u64 (u64 (u << m) .| lo) in
  let r := u64 (r - u64 (q * q)) in
  if s64 r <? 0 then
    let s := u64 (s - 1) in (s, u64 (r + u64 (2 * s + 1)))
  else (s, r).

Definition mp_sqrtrem1 (a : Z) : option (Z * Z) :=
  s1 ← aget sqrt_table ((a >> 56) - 64);
  let r1 := u64 ((a >> 48) - s1 * s1) in
  let '(s1, r1) := if 2 * s1 <? r1 then (s1 + 1, u64 (r1 - (2 * s1 + 1))) else (s1, r1) in
  let '(s, r) := sqrt_step 8 s1 r1 ((a >> 40) .& 255) ((a >> 32) .& 255) in
  Some (sqrt_step 16 s r ((a >> 16) .& 65535) (a .& 65535)).

Definition bf_isqrt (a : Z) : option Z :=
  if a =? 0 then Some 0
  else
    let k := clz a .& (- 2) in
    '(s, r) ← mp_sqrtrem1 (u64 (a << k));
    Some (s >> (k >> 1)).

(** *** Correctness of the square root *)

(** [s] is the integer square root of [a] and [r] the remainder. *)
Definition is_root (a s r : Z) : Prop := a = s * s + r ∧ 0 <= s ∧ 0 <= r <= 2 * s.

Lemma is_root_sqrt a s r : is_root a s r → s = Z.sqrt a.
Proof. intros (-> & Hs & Hr). symmetry. apply Z.sqrt_unique. lia. Qed.

(** An iteration in exact arithmetic, [b] the weight of the new bits. *)
Lemma root_step b s1 r1 hi lo : 0 < b → b <= 2 * s1 → 0 <= r1 <= 2 * s1 → 0 <= hi < b → 0 <= lo < b →
  let num := r1 * b + hi in
  let q := num / (2 * s1) in
  let s := s1 * b + q in
  let r := num mod (2 * s1) * b + lo - q * q in
  0 <= q <= b ∧ - (b * b) <= r < 2 * s1 * b ∧
  is_root ((s1 * s1 + r1) * (b * b) + hi * b + lo)
    (if r <? 0 then s - 1 else s) (if r <? 0 then r + (2 * (s - 1) + 1) else r).
Proof.
  intros Hb Hs1 Hr1 Hhi Hlo num q s r. pose proof (Z.div_mod num (2 * s1) ltac:(lia)) as E. fold q in E.
  pose proof (Z.mod_pos_bound num (2 * s1) ltac:(lia)) as Hu. set (u := num mod (2 * s1)) in *.
  assert (0 <= num) as Hnum by (unfold num; apply Z.add_nonneg_nonneg; [apply Z.mul_nonneg_nonneg|]; lia).
  assert (0 <= q <= b) as Hq.
  { split; [apply Z.div_pos; lia|]. apply Z.lt_succ_r. apply Z.div_lt_upper_bound; [lia|].
    assert (r1 * b <= 2 * s1 * b) by (apply Z.mul_le_mono_nonneg_r; lia). unfold num. lia. }
  assert (q * q <= b * b) by (apply Z.mul_le_mono_nonneg; lia).
  assert (0 <= q * q) by (apply Z.mul_nonneg_nonneg; lia).
  assert (0 <= u * b <= (2 * s1 - 1) * b)
    by (split; [apply Z.mul_nonneg_nonneg|apply Z.mul_le_mono_nonneg_r]; lia).
  assert (b * b <= 2 * s1 * b) by (apply Z.mul_le_mono_nonneg_r; lia).
  assert (0 < b * b) by (apply Z.mul_pos_pos; lia).
  assert (1 <= q ∨ q * q = 0) by (destruct (decide (q = 0)) as [->|]; lia).
  assert (- (b * b) <= r < 2 * s1 * b) as Hr by (unfold r; lia).
  split; [done|]. split; [done|].
  assert ((s1 * s1 + r1) * (b * b) + hi * b + lo = s * s + r) as EA.
  { replace ((s1 * s1 + r1) * (b * b) + hi * b + lo) with (s1 * s1 * (b * b) + num * b + lo) by (unfold num; lia).
    rewrite E. unfold s, r. lia. }
  unfold is_root. rewrite EA. unfold s in *. destruct (Z.ltb_spec r 0); split_and!; lia.
Qed.

(** The iteration on 64-bit words does not wrap around. *)
Lemma sqrt_step_ok m s1 r1 hi lo : 0 < m <= 16 → 2 ^ m <= 2 * s1 → s1 < 2 ^ 16 → 0 <= r1 <= 2 * s1 →
  0 <= hi < 2 ^ m → 0 <= lo < 2 ^ m →
  ∃ s r, sqrt_step m s1 r1 hi lo = (s, r) ∧
    is_root ((s1 * s1 + r1) * (2 ^ m * 2 ^ m) + hi * 2 ^ m + lo) s r.
Proof.
  intros Hm Hs1 Hlt Hr1 Hhi Hlo. pose proof (Z.pow_pos_nonneg 2 m ltac:(lia) ltac:(lia)) as Hb.
  pose proof (Z.pow_le_mono_r 2 m 16 ltac:(lia) ltac:(lia)) as Hb16. change (2 ^ 16) with 65536 in *.
  destruct (root_step (2 ^ m) s1 r1 hi lo Hb Hs1 Hr1 Hhi Hlo) as (Hq & Hr & HR).
  set (b := 2 ^ m) in *. unfold sqrt_step. rewrite !Z.shiftl_mul_pow2 by lia. fold b.
  assert (∀ x, 0 <= x < 2 ^ 60 → u64 x = x) as U by (intros; apply u64_id; unfold is_u64; lia).
  assert (0 <= r1 * b <= (2 * 65536) * 65536) by (split; [apply Z.mul_nonneg_nonneg|apply Z.mul_le_mono_nonneg]; lia).
  assert (0 <= s1 * b <= 65536 * 65536) by (split; [apply Z.mul_nonneg_nonneg|apply Z.mul_le_mono_nonneg]; lia).
  assert (0 <= b * b <= 65536 * 65536) by (split; [apply Z.mul_nonneg_nonneg|apply Z.mul_le_mono_nonneg]; lia).
  rewrite (U (r1 * b)), (U (2 * s1)), (U (s1 * b)) by lia.
  unfold b in *. rewrite lor_low_high by (done || lia). 
  set (num := r1 * 2 ^ m + hi) in *. set (q := num / (2 * s1)) in *.
  pose proof (Z.mod_pos_bound num (2 * s1) ltac:(lia)) as Hu. set (u := num mod (2 * s1)) in *.
  assert (0 <= u * 2 ^ m <= (2 * 65536) * 65536) by (split; [apply Z.mul_nonneg_nonneg|apply Z.mul_le_mono_nonneg]; lia).
  assert (0 <= q * q <= 65536 * 65536) by (split; [apply Z.mul_nonneg_nonneg|apply Z.mul_le_mono_nonneg]; lia).
  rewrite (U (u * 2 ^ m)), lor_low_high by (done || lia).
  rewrite (U (s1 * 2 ^ m + q)), (U (u * 2 ^ m + lo)), (U (q * q)) by lia.
  assert (s64 (u64 (u * 2 ^ m + lo - q * q)) = u * 2 ^ m + lo - q * q) as ->.
  { rewrite s64_u64. apply s64_small. lia. }
  set (r := u * 2 ^ m + lo - q * q) in *. set (s := s1 * 2 ^ m + q) in *.
  eexists _, _. split; [|exact HR].
  destruct HR as (_ & Hs0 & Hr0). destruct (Z.ltb_spec r 0); f_equal; [apply U; lia|..].
  - rewrite (U (s - 1)), (U (2 * (s - 1) + 1)) by lia. rewrite u64_add_l. apply U. lia.
  - apply U. lia.
Qed.

(** The table is within one of the root of the leading 16 bits. *)
Definition table_ok : bool :=
  forallb (λ i, match aget sqrt_table (i - 64) with
                | Some s => (128 <=? s) && (s <=? 255) && (s * s <=? i * 256) && (i * 256 + 255 <? (s + 2) * (s + 2))
                | None => false
                end) (seqZ 64 192).

Lemma sqrt_table_ok i : 64 <= i < 256 →
  ∃ s, aget sqrt_table (i - 64) = Some s ∧ 128 <= s <= 255 ∧ s * s <= i * 256 ∧ i * 256 + 255 < (s + 2) * (s + 2).
Proof.
  intros Hi. assert (table_ok = true) as H by (vm_compute; reflexivity).
  unfold table_ok in H. rewrite forallb_forall in H. specialize (H i).
  destruct (aget sqrt_table (i - 64)) as [s|].
  - exists s. split; [done|]. rewrite !andb_true_iff, !Z.leb_le, Z.ltb_lt in H.
    destruct H as [[H1 H2] H3]; [apply list_elem_of_In, elem_of_seqZ; lia|done].
  - discriminate H. apply list_elem_of_In, elem_of_seqZ. lia.
Qed.

(** The leading bits and the digits below them. *)
Lemma digits a n m : 0 <= a → 0 <= n → 0 <= m →
  a >> n = (a >> (n + m)) * 2 ^ m + (a >> n) .& (2 ^ m - 1) ∧ 0 <= (a >> n) .& (2 ^ m - 1) < 2 ^ m.
Proof.
  intros Ha Hn Hm. rewrite land_ones_mod by lia. rewrite <- Z.shiftr_shiftr by lia.
  rewrite (Z.shiftr_div_pow2 (a >> n) m) by lia. pose proof (Z.pow_pos_nonneg 2 m ltac:(lia) Hm).
  pose proof (Z.div_mod (a >> n) (2 ^ m) ltac:(lia)). pose proof (Z.mod_pos_bound (a >> n) (2 ^ m) ltac:(lia)). lia.
Qed.

Lemma root_range a s r n : is_root a s r → 0 <= n → 2 ^ (2 * n - 2) <= a < 2 ^ (2 * n) → 1 <= n →
  2 ^ (n - 1) <= s < 2 ^ n.
Proof.
  intros H Hn Ha Hn1. apply is_root_sqrt in H as ->. split.
  - apply Z.sqrt_le_square; [lia|apply Z.pow_nonneg; lia|]. rewrite <- Z.pow_add_r by lia.
    replace (n - 1 + (n - 1)) with (2 * n - 2) by lia. lia.
  - apply Z.sqrt_lt_square; [lia|apply Z.pow_nonneg; lia|]. rewrite <- Z.pow_add_r by lia.
    replace (n + n) with (2 * n) by lia. lia.
Qed.

(** The first root, from the table. *)
Lemma root_start v s : 0 <= s <= 255 → s * s <= v → v < (s + 2) * (s + 2) →
  ∃ s1 r1, (let r1 := u64 (v - s * s) in
            if 2 * s <? r1 then (s + 1, u64 (r1 - (2 * s + 1))) else (s, r1)) = (s1, r1) ∧ is_root v s1 r1.
Proof.
  intros Hs H1 H2. cbn zeta. assert (0 <= s * s) by (apply Z.mul_nonneg_nonneg; lia).
  rewrite (u64_id (v - s * s)) by (unfold is_u64; lia). unfold is_root.
  destruct (Z.ltb_spec (2 * s) (v - s * s)); eexists _, _; (split; [reflexivity|]).
  - rewrite u64_id by (unfold is_u64; lia). lia.
  - lia.
Qed.

Lemma shr_range a n : 0 <= n <= 62 → ∀ m, 2 ^ 62 <= a < 2 ^ 64 → m = 62 - n → 2 ^ m <= a >> n < 2 ^ (m + 2).
Proof.
  intros Hn m Ha ->. rewrite Z.shiftr_div_pow2 by lia. split.
  - apply Z.div_le_lower_bound; [apply Z.pow_pos_nonneg; lia|]. rewrite <- Z.pow_add_r by lia.
    replace (n + (62 - n)) with 62 by lia. lia.
  - apply Z.div_lt_upper_bound; [apply Z.pow_pos_nonneg; lia|]. rewrite <- Z.pow_add_r by lia.
    replace (n + (62 - n + 2)) with 64 by lia. lia.
Qed.

Lemma mp_sqrtrem1_ok a : 2 ^ 62 <= a < 2 ^ 64 →
  ∃ s r, mp_sqrtrem1 a = Some (s, r) ∧ is_root a s r.
Proof.
  intros Ha. unfold mp_sqrtrem1. pose proof (shr_range a 56 ltac:(lia) 6 Ha eq_refl) as Rh.
  pose proof (shr_range a 48 ltac:(lia) 14 Ha eq_refl) as R48. pose proof (shr_range a 32 ltac:(lia) 30 Ha eq_refl) as R32.
  destruct (digits a 0 16) as [E0 R0]; [lia..|]. destruct (digits a 16 16) as [E1 R1]; [lia..|].
  destruct (digits a 32 8) as [E2 R2]; [lia..|]. destruct (digits a 40 8) as [E3 R3]; [lia..|].
  destruct (digits a 48 8) as [E4 R4]; [lia..|].
  rewrite Z.shiftr_0_r in E0, R0. change (0 + 16) with 16 in *. change (16 + 16) with 32 in *.
  change (32 + 8) with 40 in *. change (40 + 8) with 48 in *. change (48 + 8) with 56 in *.
  change (2 ^ 8 - 1) with 255 in *. change (2 ^ 16 - 1) with 65535 in *.
  destruct (sqrt_table_ok (a >> 56) Rh) as (s & -> & Hs & Hlo & Hhi). cbn [mbind option_bind].
  destruct (root_start (a >> 48) s) as (s1 & r1 & E & HR); [lia..|].
  cbn zeta in E |- *. rewrite E.
  pose proof (root_range _ _ _ 8 HR ltac:(lia) R48 ltac:(lia)) as Rs1. pose proof HR as (Ev1 & _ & Rr1).
  destruct (sqrt_step_ok 8 s1 r1 ((a >> 40) .& 255) ((a >> 32) .& 255)) as (s2 & r2 & -> & HR2); [lia..|].
  rewrite <- Ev1 in HR2.
  replace ((a >> 48) * (2 ^ 8 * 2 ^ 8) + ((a >> 40) .& 255) * 2 ^ 8 + (a >> 32) .& 255) with (a >> 32) in HR2 by lia.
  pose proof (root_range _ _ _ 16 HR2 ltac:(lia) R32 ltac:(lia)) as Rs2. pose proof HR2 as (Ev2 & _ & Rr2).
  destruct (sqrt_step_ok 16 s2 r2 ((a >> 16) .& 65535) (a .& 65535)) as (s3 & r3 & -> & HR3); [lia..|].
  rewrite <- Ev2 in HR3.
  replace ((a >> 32) * (2 ^ 16 * 2 ^ 16) + ((a >> 16) .& 65535) * 2 ^ 16 + a .& 65535) with a in HR3 by lia.
  by exists s3, r3.
Qed.

Lemma sqrt_scale a j : 0 <= a → 0 <= j → Z.sqrt (a * 2 ^ (2 * j)) / 2 ^ j = Z.sqrt a.
Proof.
  intros Ha Hj. pose proof (Z.pow_pos_nonneg 2 j ltac:(lia) Hj) as HP.
  replace (2 ^ (2 * j)) with (2 ^ j * 2 ^ j) by (rewrite <- Z.pow_add_r by lia; f_equal; lia).
  pose proof (Z.sqrt_spec a Ha) as Hs. cbn zeta in Hs. pose proof (Z.sqrt_nonneg a). set (t := Z.sqrt a) in *.
  assert (0 < 2 ^ j * 2 ^ j) by (apply Z.mul_pos_pos; lia).
  assert (t * 2 ^ j <= Z.sqrt (a * (2 ^ j * 2 ^ j))) as H1.
  { apply Z.sqrt_le_square; [apply Z.mul_nonneg_nonneg; lia..|].
    replace (t * 2 ^ j * (t * 2 ^ j)) with (t * t * (2 ^ j * 2 ^ j)) by lia. apply Z.mul_le_mono_nonneg_r; lia. }
  assert (Z.sqrt (a * (2 ^ j * 2 ^ j)) < Z.succ t * 2 ^ j) as H2.
  { apply Z.sqrt_lt_square; [apply Z.mul_nonneg_nonneg; lia..|].
    replace (Z.succ t * 2 ^ j * (Z.succ t * 2 ^ j)) with (Z.succ t * Z.succ t * (2 ^ j * 2 ^ j)) by lia.
    apply Z.mul_lt_mono_pos_r; lia. }
  symmetry. apply Z.div_unique with (Z.sqrt (a * (2 ^ j * 2 ^ j)) - t * 2 ^ j); lia.
Qed.

(** [bf_isqrt] computes the integer square root. *)
Lemma bf_isqrt_ok a : is_u64 a → bf_isqrt a = Some (Z.sqrt a).
Proof.
  intros Ha. unfold bf_isqrt. destruct (Z.eqb_spec a 0) as [->|Ha0]; [done|].
  destruct (clz_range a Ha Ha0) as [Hc Hn]. set (c := clz a) in *.
  assert (c .& (- 2) = 2 * (c / 2)) as ->.
  { change (- 2) with (Z.lnot (Z.ones 1)). rewrite <- Z.ldiff_land, Z.ldiff_ones_r by lia.
    rewrite Z.shiftl_mul_pow2, Z.shiftr_div_pow2 by lia. change (2 ^ 1) with 2. lia. }
  pose proof (Z.div_mod c 2 ltac:(lia)). pose proof (Z.mod_pos_bound c 2 ltac:(lia)). set (j := c / 2) in *.
  rewrite Z.shiftl_mul_pow2, (Z.shiftr_div_pow2 (2 * j) 1) by lia. change (2 ^ 1) with 2.
  rewrite (Z.mul_comm 2 j), Z.div_mul, (Z.mul_comm j 2) by lia. unfold is_u64 in Ha.
  assert (a * 2 ^ c <= a * 2 ^ (2 * j) * 2 <= a * 2 ^ c * 2) as Hr.
  { rewrite <- !Z.mul_assoc, !(Z.mul_comm _ 2), <- !Z.pow_succ_r by lia.
    split; apply Z.mul_le_mono_nonneg_l; try lia; apply Z.pow_le_mono_r; lia. }
  rewrite u64_id by (unfold is_u64; lia).
  destruct (mp_sqrtrem1_ok (a * 2 ^ (2 * j))) as (s & r & -> & HR%is_root_sqrt); [lia|].
  cbn [mbind option_bind]. rewrite HR, Z.shiftr_div_pow2, sqrt_scale by lia. done.
Qed.

(** ** Correct rounding of a ratio *)

(** [y] is [num / den] rounded to a multiple of [2^k]. *)
Record rounded_ratio (mode : bf_rnd_t) (k num den y : Z) : Prop := {
  rr_multiple : (2 ^ k | y);
  rr_close : Z.abs (y * den - num) < 2 ^ k * den;
  rr_direction :
    match mode with
    | BF_RNDN => 2 * Z.abs (y * den - num) <= 2 ^ k * den ∧
                 (2 * Z.abs (y * den - num) = 2 ^ k * den → Z.even (y / 2 ^ k) = true)
    | BF_RNDNA => 2 * Z.abs (y * den - num) <= 2 ^ k * den ∧
                  (2 * Z.abs (y * den - num) = 2 ^ k * den → Z.abs num < Z.abs (y * den))
    | BF_RNDZ => Z.abs (y * den) <= Z.abs num
    | BF_RNDA => Z.abs num <= Z.abs (y * den)
    | BF_RNDD => y * den <= num
    | BF_RNDU => num <= y * den
    | BF_RNDF => True
    end
}.

(** Rounding an integer, as a ratio. *)
Lemma rounded_ratio_exact mode k x y den : 0 < den → rounded mode k x y →
  rounded_ratio mode k (x * den) den y.
Proof.
  intros Hd [Hm Hc Hdir].
  assert (Z.abs (y * den - x * den) = Z.abs (y - x) * den) as E
    by (rewrite <- Z.mul_sub_distr_r, Z.abs_mul, (Z.abs_eq den) by lia; done).
  constructor; rewrite ?E, ?Z.abs_mul, ?(Z.abs_eq den) by lia; [done|by apply Z.mul_lt_mono_pos_r|].
  destruct mode; try (apply Z.mul_le_mono_nonneg_r; lia); [..|done].
  - destruct Hdir as [H1 H2]. rewrite Z.mul_assoc. split; [apply Z.mul_le_mono_nonneg_r; lia|].
    intros ?%Z.mul_reg_r; [auto|lia].
  - destruct Hdir as [H1 H2]. rewrite Z.mul_assoc. split; [apply Z.mul_le_mono_nonneg_r; lia|].
    intros ?%Z.mul_reg_r; [|lia]. apply Z.mul_lt_mono_pos_r; auto.
Qed.

(** A number strictly between the same multiples of half a unit as the ratio
    is rounded the same way. *)
Lemma rounded_ratio_near mode k x num den y h : 0 < h → 0 < den → 2 ^ k = 2 * h →
  (∀ m, m * h <= x → m * h * den < num) → (∀ m, x <= m * h → num < m * h * den) →
  rounded mode k x y → rounded_ratio mode k num den y.
Proof.
  intros Hh Hd Ek F1 F2 [[t ->] Hc Hdir]. rewrite Ek in *.
  assert (0 < h * den) by (apply Z.mul_pos_pos; lia).
  constructor; rewrite ?Ek.
  - by exists t.
  - specialize (F1 (2 * t - 2)). specialize (F2 (2 * t + 2)). lia.
  - pose proof (F1 0). pose proof (F2 0). pose proof (F1 (2 * t)) as G1. pose proof (F2 (2 * t)) as G2.
    destruct mode; [split| | | |split| |done].
    + specialize (F1 (2 * t - 1)). specialize (F2 (2 * t + 1)). lia.
    + specialize (F1 (2 * t - 1)). specialize (F2 (2 * t + 1)). lia.
    + specialize (F1 (- (2 * t))). specialize (F2 (- (2 * t))). lia.
    + lia.
    + lia.
    + specialize (F1 (2 * t - 1)). specialize (F2 (2 * t + 1)). lia.
    + specialize (F1 (2 * t - 1)). specialize (F2 (2 * t + 1)). lia.
    + specialize (F1 (- (2 * t))). specialize (F2 (- (2 * t))). lia.
Qed.

(** [x] lies strictly between the same multiples of [h] as [num / den]. *)
Definition near (h x num den : Z) : Prop :=
  (∀ m, m * h <= x → m * h * den < num) ∧ (∀ m, x <= m * h → num < m * h * den).

Lemma near_signed h x num den neg : near h x num den → near h (signed neg x) (signed neg num) den.
Proof.
  intros [F1 F2]. destruct neg; cbn [signed]; [|done]. split; intros m Hm.
  - specialize (F2 (- m)). lia.
  - specialize (F1 (- m)). lia.
Qed.

(** A quotient whose last bit says that there is a remainder is near the ratio. *)
Lemma sticky_near Q x num den c sh : 0 < den → 0 <= sh → 0 < c → Q * den < num < (Q + 1) * den →
  Z.odd x = true → Q <= x <= Q + 1 → near (2 * c * 2 ^ sh) (x * 2 ^ sh) (num * 2 ^ sh) den.
Proof.
  intros Hd Hsh Hc Hn Ho Hx. pose proof (Z.pow_pos_nonneg 2 sh ltac:(lia) Hsh) as HP.
  apply Z.odd_spec in Ho as [z Ez].
  split; intros m Hm; rewrite Z.mul_assoc in *.
  - assert (m * (2 * c) <= x) as H1 by (apply (Z.mul_le_mono_pos_r _ _ (2 ^ sh)); lia).
    assert (2 * (m * c) <= 2 * z) by lia.
    assert (m * (2 * c) * den <= Q * den) by (apply Z.mul_le_mono_nonneg_r; lia).
    replace (m * (2 * c) * 2 ^ sh * den) with (m * (2 * c) * den * 2 ^ sh) by lia.
    apply Z.mul_lt_mono_pos_r; lia.
  - assert (x <= m * (2 * c)) as H1 by (apply (Z.mul_le_mono_pos_r _ _ (2 ^ sh)); lia).
    assert (2 * (z + 1) <= 2 * (m * c)) by lia.
    assert ((Q + 1) * den <= m * (2 * c) * den) by (apply Z.mul_le_mono_nonneg_r; lia).
    replace (m * (2 * c) * 2 ^ sh * den) with (m * (2 * c) * den * 2 ^ sh) by lia.
    apply Z.mul_lt_mono_pos_r; lia.
Qed.

(** [y] units of [2^u] are the value of [r]. *)
Definition value_in (r : bf_t) (u y : Z) : Prop :=
  u <= expn r - 64 * len r ∧ y = signed (sign r) (lval (tab r)) * 2 ^ (expn r - 64 * len r - u).

(** [r] is the number [num / den * 2^e] with sign [neg], rounded to [prec] bits:
    in units of [2^u] the exact number has [bits] bits before the point. *)
Definition correctly_rounded (mode : bf_rnd_t) (prec : Z) (neg : bool) (num den e : Z) (r : bf_t) (st : Z) : Prop :=
  normal r ∧ sign r = neg ∧
  ∃ u bits y, u <= e ∧ value_in r u y ∧
    let x := num * 2 ^ (e - u) in
    2 ^ (bits - 1) * den <= x < 2 ^ bits * den ∧
    rounded_ratio mode (Z.max 0 (bits - prec)) (signed neg x) den y ∧
    st = if y * den =? signed neg x then 0 else BF_ST_INEXACT.

(** What may be rounded in place of [num / den]. *)
Definition stands_for (x num den prec : Z) : Prop :=
  num = x * den ∨
  ∃ Q, Q * den < num < (Q + 1) * den ∧ Z.odd x = true ∧ Q <= x <= Q + 1 ∧ 2 ^ (prec + 1) <= x.

Lemma scaled_value r r' : (length (tab r') <= length (tab r))%nat → expn r <= expn r' →
  value_in r' (expn r - 64 * len r) (scaled r' (expn r) (length (tab r))).
Proof.
  intros Hl He. unfold value_in, scaled, len, signed. split; [lia|].
  rewrite Bn_pow, <- Z.mul_assoc, <- Z.pow_add_r by lia.
  replace (expn r' - 64 * zlen (tab r') - (expn r - 64 * zlen (tab r))) with
    (64 * Z.of_nat (length (tab r) - length (tab r')) + (expn r' - expn r)) by lia.
  destruct (sign r'); lia.
Qed.

Lemma pow_multiple n m : 0 <= m <= n → 2 ^ n = 2 ^ (n - m) * 2 ^ m.
Proof. intros H. rewrite <- Z.pow_add_r by lia. f_equal. lia. Qed.

(** The rounding of a number near a ratio, on a scale where it has [bits] bits. *)
Lemma near_rounds mode prec bits h x num den neg y : 0 < den → 1 <= prec → 0 <= bits →
  2 ^ (bits - prec) = 2 * h → 0 < h → h = 2 ^ (bits - prec - 1) →
  near h x num den → 2 ^ (bits - 1) <= x < 2 ^ bits → 1 <= bits - prec →
  rounded mode (bits - prec) (signed neg x) y →
  2 ^ (bits - 1) * den <= num < 2 ^ bits * den ∧
  rounded_ratio mode (bits - prec) (signed neg num) den y ∧
  (y =? signed neg x) = (y * den =? signed neg num).
Proof.
  intros Hd Hp Hb Ek Hh Eh HN Hx Hk HR. split_and!.
  - destruct HN as [F1 _]. specialize (F1 (2 ^ (bits - 1 - (bits - prec - 1)))).
    rewrite Eh, <- pow_multiple in F1 by lia. lia.
  - destruct HN as [_ F2]. specialize (F2 (2 ^ (bits - (bits - prec - 1)))).
    rewrite Eh, <- pow_multiple in F2 by lia. lia.
  - apply (near_signed _ _ _ _ neg) in HN as [F1 F2]. by eapply rounded_ratio_near.
  - apply (near_signed _ _ _ _ neg) in HN as [F1 F2]. destruct (rnd_multiple _ _ _ _ HR) as [t ->].
    rewrite Ek. specialize (F1 (2 * t)). specialize (F2 (2 * t)).
    replace (t * (2 * h)) with (2 * t * h) by lia.
    destruct (Z.eqb_spec (2 * t * h) (signed neg x)), (Z.eqb_spec (2 * t * h * den) (signed neg num)); lia.
Qed.

(** Rounding what stands for a ratio rounds the ratio. *)
Lemma ratio_rounds mode prec r r1 r' st num den : 0 < den → 1 <= prec →
  stands_for (lval (tab r)) num den prec → normal_of r r1 → rounds_number mode prec r1 r' st →
  correctly_rounded mode prec (sign r) num den (expn r - 64 * len r) r' st.
Proof.
  intros Hd Hp HS (H1 & Hs & sh & Hsh & Ev & Ee) [Hfin Hsg He Hl HR Hst].
  split; [done|]. split; [congruence|].
  exists (expn r1 - 64 * len r1), (64 * len r1), (scaled r' (expn r1) (length (tab r1))).
  replace (expn r - 64 * len r - (expn r1 - 64 * len r1)) with sh by lia. cbn zeta.
  split; [lia|]. split; [apply scaled_value; [exact Hl|lia]|].
  assert (scaled r1 (expn r1) (length (tab r1)) = signed (sign r) (lval (tab r1))) as Ex.
  { unfold scaled, signed. rewrite Nat.sub_diag, Z.sub_diag, !Z.mul_1_r, Hs. done. }
  rewrite Ex in HR, Hst. pose proof (normal_range r1 H1) as R1. set (bits := 64 * len r1) in *.
  set (y := scaled r' _ _) in *. destruct HS as [->|(Q & HQ & Ho & Hx & Hbig)].
  - replace (lval (tab r) * den * 2 ^ sh) with (lval (tab r1) * den) by (rewrite Ev; lia).
    split; [split; [apply Z.mul_le_mono_nonneg_r; lia|apply Z.mul_lt_mono_pos_r; lia]|].
    replace (signed (sign r) (lval (tab r1) * den)) with (signed (sign r) (lval (tab r1)) * den)
      by (unfold signed; destruct (sign r); lia).
    split; [by apply rounded_ratio_exact|]. rewrite Hst.
    destruct (Z.eqb_spec y (signed (sign r) (lval (tab r1)))) as [->|Hn]; [by rewrite Z.eqb_refl|].
    rewrite (proj2 (Z.eqb_neq _ _)); [done|]. by intros ?%Z.mul_reg_r; [|lia].
  - pose proof (Z.pow_pos_nonneg 2 sh ltac:(lia) ltac:(lia)) as HP.
    assert (prec + 1 + sh < bits) as Hk.
    { apply (Z.pow_lt_mono_r_iff 2); [lia|unfold bits, len; lia|]. rewrite Z.pow_add_r by lia.
      apply Z.le_lt_trans with (lval (tab r) * 2 ^ sh); [apply Z.mul_le_mono_nonneg_r; lia|lia]. }
    rewrite Z.max_r in HR |- * by lia. rewrite Hst.
    set (c := 2 ^ (bits - prec - 2 - sh)).
    assert (2 ^ (bits - prec - 1) = 2 * c * 2 ^ sh) as Eh.
    { unfold c. rewrite <- Z.pow_succ_r, <- Z.pow_add_r by lia. f_equal. lia. }
    destruct (near_rounds mode prec bits (2 ^ (bits - prec - 1)) (lval (tab r1)) (num * 2 ^ sh) den (sign r) y)
      as (G1 & G2 & G3); try assumption; try reflexivity; try lia.
    + rewrite <- Z.pow_succ_r by lia. f_equal. lia.
    + rewrite Ev, Eh. apply (sticky_near Q); try done; [lia|]. apply Z.pow_pos_nonneg; lia.
    + split; [exact G1|]. split; [exact G2|]. by rewrite G3.
Qed.

(** ** Multiplication and division *)

Section Correct.
Context (alloc : Z → bool) (junk : Z → Z).
Context (fft_mul : list Z → list Z → option (list Z)).
Context (mp_divnorm_large : list Z → list Z → list Z → option (list Z * list Z)).

(** A size and exponent for which rounding is defined. *)
Definition sizes_ok (flags e l : Z) : Prop := l < 2 ^ 50 ∧ expn_ok flags e ∧ expn_ok flags (e - 64 * l).

Lemma normalize_ratio r prec flags mode num den : limbs (tab r) → lval (tab r) ≠ 0 →
  0 < den → 1 <= prec → round_flags flags mode → sizes_ok flags (expn r) (len r) →
  stands_for (lval (tab r)) num den prec →
  ∃ r' st, bf_normalize_and_round alloc junk r prec flags = Some (r', st) ∧
    correctly_rounded mode prec (sign r) num den (expn r - 64 * len r) r' st.
Proof.
  intros Ht Hv Hd Hp Hf (Hl & He1 & He2) HS.
  destruct (normalize_and_round_ok alloc junk r prec flags mode) as (r1 & r' & st & H1 & E & HR); try done.
  exists r', st. split; [done|]. by eapply ratio_rounds.
Qed.

Lemma normal_nonempty a : normal a → 1 <= len a ∧ tab a ≠ [] ∧ 0 < lval (tab a).
Proof.
  intros H. destruct (fin_top a H) as (l & x & E & _). pose proof (normal_range a H) as [R _].
  unfold len in *. rewrite E, length_app in *. cbn [length] in *.
  split; [lia|]. split; [by destruct l|].
  apply Z.lt_le_trans with (2 ^ (64 * Z.of_nat (length l + 1) - 1)); [apply Z.pow_pos_nonneg; lia|done].
Qed.

Lemma resize_cases r l : 0 <= l →
  (∃ t, bf_resize alloc junk r l = Some (set_tab r t) ∧ length t = Z.to_nat l) ∨
  (bf_resize alloc junk r l = None ∧ alloc l = false).
Proof.
  intros Hl. destruct (alloc l) eqn:Ea; [left; apply bf_resize_ok; auto|].
  destruct (bf_resize alloc junk r l) as [r'|] eqn:E; [|by right]. left.
  destruct (bf_resize_ok (λ _, true) junk r l Hl (or_introl eq_refl)) as (t & Et & Ht). exists t. split; [|done].
  rewrite <- E, <- Et. unfold bf_resize in *. rewrite Ea in E |- *. cbn [negb andb] in *.
  destruct (negb (l =? len r)); [|done]. by destruct (negb (l =? 0)).
Qed.

(** The result of an operation that ran out of memory. *)
Definition no_memory (r : bf_t) (st : Z) : Prop :=
  sign r = false ∧ expn r = BF_EXP_NAN ∧ tab r = [] ∧ st = BF_ST_MEM_ERROR.

Lemma mul_ok alias r a b prec flags mode : normal a → normal b →
  round_flags flags mode → 1 <= prec → Z.min (len a) (len b) < FFT_MUL_THRESHOLD →
  sizes_ok flags (expn a + expn b) (len a + len b) →
  ∃ r' st, bf_mul alloc junk fft_mul alias r a b prec flags = Some (r', st) ∧
    (correctly_rounded mode prec (xorb (sign a) (sign b)) (lval (tab a) * lval (tab b)) 1
       (expn a + expn b - 64 * (len a + len b)) r' st ∨
     alloc (len a + len b) = false ∧ no_memory r' st).
Proof.
  intros Ha Hb Hf Hp Hfft Hsz. unfold bf_mul.
  destruct (if len a <? len b then (b, a) else (a, b)) as [a' b'] eqn:Esw.
  assert (normal a' ∧ normal b' ∧ xorb (sign a') (sign b') = xorb (sign a) (sign b) ∧
    expn a' + expn b' = expn a + expn b ∧ len a' + len b' = len a + len b ∧
    lval (tab a') * lval (tab b') = lval (tab a) * lval (tab b) ∧ len b' < FFT_MUL_THRESHOLD)
    as (Ha' & Hb' & <- & Ee & El & <- & Hlb).
  { destruct (Z.ltb_spec (len a) (len b)); simplify_eq; split_and!; try done; try lia. by rewrite xorb_comm. }
  rewrite <- El, <- Ee in *. clear Esw Hfft Ee El Ha Hb a b.
  destruct (normal_nonempty a' Ha') as (La & Na & Va). destruct (normal_nonempty b' Hb') as (Lb & Nb & Vb).
  rewrite (proj2 (Z.eqb_neq (len b') 0)) by lia. destruct Hf as [Hm Hnf Hr0].
  assert ((match rnd_mode flags with
          | Some BF_RNDF => (Z.min (len a') (prec_limbs prec), Z.min (len b') (prec_limbs prec))
          | _ => (len a', len b')
          end) = (len a', len b')) as -> by (rewrite Hm; by destruct mode).
  rewrite !Z.sub_diag, (proj2 (Z.leb_gt _ _) Hlb).
  destruct (resize_cases (if alias then bf_init else r) (len a' + len b')) as [(t0 & -> & Ht0)|[-> Hal]];
    [lia| |by eexists _, _; split; [reflexivity|right]]. cbn [tab set_tab].
  destruct (mp_mul_basecase_product t0 (tab a') (tab b')) as (t & Et & Ht & Hlt & Ev);
    [apply Ha'|apply Hb'|done|done|unfold len in Ht0; lia|].
  change (drop (Z.to_nat 0) (tab a')) with (tab a'). change (drop (Z.to_nat 0) (tab b')) with (tab b').
  rewrite Et. cbn [mbind option_bind].
  destruct (normalize_ratio (mkBf (xorb (sign a') (sign b')) (expn a' + expn b') t) prec flags mode
    (lval (tab a') * lval (tab b')) 1) as (r' & st & E & HR); unfold len in *; cbn [tab expn sign] in *; try done.
  - rewrite Ev. apply Z.neq_mul_0. lia.
  - replace (zlen t) with (zlen (tab a') + zlen (tab b')) by lia. done.
  - left. lia.
  - exists r', st. split; [done|]. left. replace (zlen (tab a') + zlen (tab b')) with (zlen t) by lia. done.
Qed.

Lemma mp_scan_nz_ok t : limbs t → mp_scan_nz t = negb (lval t =? 0).
Proof.
  intros Ht. induction Ht as [|x t Hx Ht IH]; cbn [mp_scan_nz lval]; [done|].
  pose proof (lval_range t Ht) as [R _]. unfold is_u64 in Hx.
  destruct (Z.eqb_spec x 0) as [->|Hn]; cbn [negb].
  - rewrite IH. f_equal. destruct (Z.eqb_spec (lval t) 0) as [->|]; [done|].
    symmetry. apply Z.eqb_neq. unfold B. lia.
  - symmetry. apply negb_true_iff, Z.eqb_neq. unfold B. lia.
Qed.

Lemma lor_1 x : 0 <= x → x .| 1 = if Z.odd x then x else x + 1.
Proof.
  intros Hx. pose proof (Z.div_mod x 2 ltac:(lia)) as E. rewrite Zmod_odd in E.
  destruct (Z.odd x) eqn:Ho.
  - apply Z.bits_inj'. intros n Hn. rewrite Z.lor_spec. destruct (decide (n = 0)) as [->|].
    + rewrite Z.bit0_odd, Ho. done.
    + rewrite (Z.bits_above_log2 1 n) by (cbn; lia). apply orb_false_r.
  - replace x with ((x / 2) * 2 ^ 1) at 1 by (rewrite Z.pow_1_r; lia).
    rewrite lor_low_high by lia. lia.
Qed.

(** Marking a remainder in the last bit of the quotient. *)
Lemma sticky_ok q rem prec den : limbs q → q ≠ [] → 0 <= rem < den → (rem ≠ 0 → 2 ^ (prec + 1) <= lval q) →
  ∃ q', (if negb (rem =? 0) then x ← aget q 0; aset q 0 (x .| 1) else Some q) = Some q' ∧
    limbs q' ∧ length q' = length q ∧ lval q <= lval q' ∧ stands_for (lval q') (lval q * den + rem) den prec.
Proof.
  intros Hq Hne Hr Hbig. destruct (Z.eqb_spec rem 0) as [->|Hr0]; cbn [negb]; [|specialize (Hbig Hr0)].
  - exists q. split_and!; [done|done|done|lia|]. left. lia.
  - destruct q as [|x q]; [done|]. apply Forall_cons in Hq as [Hx Hq]. unfold is_u64 in Hx.
    pose proof (aset_mid [] q x (x .| 1) 0 eq_refl) as Ea. cbn [app] in Ea.
    change (aget (x :: q) 0) with (Some x). cbn [mbind option_bind]. rewrite Ea. eexists. split; [done|].
    rewrite lor_1 by lia. cbn [lval] in *. 
    assert (Z.odd (x + B * lval q) = Z.odd x) as Eo by (rewrite Z.odd_add, Z.odd_mul; apply xorb_false_r).
    assert (Z.odd x = false → x + 1 < 2 ^ 64) as Hmax.
    { intros Ho. destruct (decide (x = 2 ^ 64 - 1)) as [->|]; [done|lia]. }
    split_and!; [constructor; [|done]|done|destruct (Z.odd x); lia|].
    + unfold is_u64. destruct (Z.odd x); lia.
    + right. exists (x + B * lval q). split_and!; [lia|lia| |destruct (Z.odd x); lia..].
      destruct (Z.odd x) eqn:Ho; [done|]. rewrite Z.odd_add, Z.odd_mul, Z.odd_add, Ho. done.
Qed.

Lemma correctly_rounded_shift mode prec neg num den e s r st : 0 <= s →
  correctly_rounded mode prec neg (num * 2 ^ s) den e r st → correctly_rounded mode prec neg num den (e + s) r st.
Proof.
  intros Hs (Hfin & Hsg & u & bits & y & Hu & Hv & H). split; [done|]. split; [done|].
  exists u, bits, y. split; [lia|]. split; [done|]. cbn zeta in *.
  replace (num * 2 ^ (e + s - u)) with (num * 2 ^ s * 2 ^ (e - u)); [done|].
  rewrite <- Z.mul_assoc, <- Z.pow_add_r by lia. do 2 f_equal. lia.
Qed.

(** The quotient has bits enough for rounding. *)
Lemma quotient_bits a b n q rem : normal a → normal b → len a <= n →
  0 <= rem < lval (tab b) → lval (tab a) * 2 ^ (64 * (n + len b - len a)) = q * lval (tab b) + rem →
  2 ^ (64 * n - 1) <= q.
Proof.
  intros Ha Hb Hn Hr E. pose proof (normal_range a Ha) as [Ra _]. pose proof (normal_range b Hb) as [_ Rb].
  destruct (normal_nonempty a Ha) as (La & _ & _). destruct (normal_nonempty b Hb) as (Lb & _ & Vb).
  apply Z.lt_succ_r, (Z.mul_lt_mono_pos_r (lval (tab b))); [done|].
  apply Z.lt_le_trans with (2 ^ (64 * n - 1) * 2 ^ (64 * len b)).
  { apply Z.mul_lt_mono_pos_l; [apply Z.pow_pos_nonneg; lia|done]. }
  assert (2 ^ (64 * n - 1) * 2 ^ (64 * len b) = 2 ^ (64 * len a - 1) * 2 ^ (64 * (n + len b - len a))) as ->
    by (rewrite <- !Z.pow_add_r by lia; f_equal; lia).
  assert (2 ^ (64 * len a - 1) * 2 ^ (64 * (n + len b - len a)) <=
    lval (tab a) * 2 ^ (64 * (n + len b - len a)))
    by (apply Z.mul_le_mono_nonneg_r; [apply Z.pow_nonneg; lia|done]).
  lia.
Qed.

Lemma lval_low_zeros n t : lval (replicate n 0 ++ t) = lval t * 2 ^ (64 * Z.of_nat n).
Proof. rewrite lval_app, lval_zeros, length_replicate, Bn_pow. lia. Qed.

(** The long division of [__bf_div]. *)
Lemma div_core a b n t0 : normal a → normal b → len a <= n → Z.of_nat (length t0) = n + 1 →
  Z.min n (len b) < DIVNORM_LARGE_THRESHOLD →
  ∃ q rt rem, mp_divnorm mp_divnorm_large t0 (replicate (Z.to_nat (n + len b - len a)) 0 ++ tab a) (tab b) =
      Some (Some (q, rt)) ∧ limbs q ∧ length q = length t0 ∧ slice rt 0 (len b) = Some rem ∧ limbs rem ∧
    0 <= lval rem < lval (tab b) ∧
    lval (tab a) * 2 ^ (64 * (n + len b - len a)) = lval q * lval (tab b) + lval rem.
Proof.
  intros Ha Hb Hn Ht0 Hmin. destruct (fin_top b Hb) as (bl & b1 & Eb & Hb1).
  destruct (normal_nonempty b Hb) as (Lb & _ & _). unfold len in *. rewrite Eb in *.
  set (zs := replicate (Z.to_nat (n + zlen (bl ++ [b1]) - zlen (tab a))) 0).
  assert (limbs (zs ++ tab a)) as Hl.
  { apply limbs_app. split; [|apply Ha]. apply Forall_replicate. unfold is_u64. lia. }
  assert (zlen (zs ++ tab a) = n + zlen (bl ++ [b1])) as Hlen
    by (unfold zs; rewrite length_app, length_replicate; lia).
  destruct (mp_divnorm_correct mp_divnorm_large t0 (zs ++ tab a) bl b1) as (q & rt & E & Hq & Hlq & Hrt & Hlr & Ev & Hr & _);
    [done|rewrite <- Eb; apply Hb|done|lia|lia|replace (_ - _) with n by lia; lia|].
  exists q, rt, (take (length (bl ++ [b1])) rt). split_and!; [done|done|done| |by apply Forall_take|apply Hr..|].
  - rewrite slice_Some by lia. by rewrite Nat2Z.id.
  - rewrite <- Ev. unfold zs. rewrite lval_low_zeros, Z2Nat.id by lia. done.
Qed.

Lemma div_ok r a b prec flags mode : normal a → normal b →
  let n := Z.max (len a) (prec_limbs prec) in
  round_flags flags mode → 1 <= prec → Z.min n (len b) < DIVNORM_LARGE_THRESHOLD →
  sizes_ok flags (expn a - expn b + 64) (n + 1) →
  ∃ r' st, __bf_div alloc junk mp_divnorm_large r a b prec flags = Some (r', st) ∧
    (correctly_rounded mode prec (xorb (sign a) (sign b)) (lval (tab a)) (lval (tab b))
       (expn a - 64 * len a - (expn b - 64 * len b)) r' st ∨
     (alloc (n + len b + 1) = false ∨ alloc (n + 1) = false) ∧ no_memory r' st).
Proof.
  intros Ha Hb n Hf Hp Hmin Hsz. unfold __bf_div.
  pose proof (fin_expn a Ha) as Ea. pose proof (fin_expn b Hb) as Eb.
  assert (∀ c, BF_EXP_ZERO < expn c < BF_EXP_INF → (BF_EXP_INF <=? expn c) = false ∧ (expn c =? BF_EXP_ZERO) = false)
    as Hfin by (intros; rewrite Z.leb_gt, Z.eqb_neq; lia).
  destruct (Hfin a Ea) as [-> ->]. destruct (Hfin b Eb) as [-> ->]. cbn [orb]. fold n.
  destruct (alloc (n + len b + 1)) eqn:Hal1; cbn [negb];
    [|eexists _, _; split; [reflexivity|right; split; [by left|done]]].
  assert (len a <= n ∧ prec + 2 <= 64 * n) as [Hn Hn2].
  { unfold n, prec_limbs. split; [lia|]. pose proof (Z.div_mod (prec + 2 + 64 - 1) 64 ltac:(lia)).
    pose proof (Z.mod_pos_bound (prec + 2 + 64 - 1) 64 ltac:(lia)). lia. }
  destruct (normal_nonempty a Ha) as (La & _ & _). destruct (normal_nonempty b Hb) as (Lb & _ & Vb).
  destruct (resize_cases r (n + 1)) as [(t0 & -> & Ht0)|[-> Hal2]];
    [lia| |eexists _, _; split; [reflexivity|right; split; [by right|done]]]. cbn [tab set_tab].
  destruct (div_core a b n t0 Ha Hb Hn ltac:(lia) Hmin) as (q & rt & rem & -> & Hq & Hlq & Hrem & Hlrem & Rr & Ev).
  cbn [mbind option_bind]. rewrite Hrem. cbn [mbind option_bind]. rewrite mp_scan_nz_ok by done.
  pose proof (quotient_bits a b n _ _ Ha Hb Hn Rr Ev) as Hbits.
  pose proof (Z.pow_le_mono_r 2 (prec + 1) (64 * n - 1) ltac:(lia) ltac:(lia)) as Hpow.
  pose proof (Z.pow_pos_nonneg 2 (prec + 1) ltac:(lia) ltac:(lia)) as Hpp.
  destruct (sticky_ok q (lval rem) prec (lval (tab b)) Hq) as (q' & -> & Hq' & Hlq' & Hge & HS);
    [by destruct q; cbn in Hlq; [lia|]|done|lia|]. cbn [mbind option_bind].
  destruct (normalize_ratio (mkBf (xorb (sign a) (sign b)) (expn a - expn b + 64) q') prec flags mode
    (lval q * lval (tab b) + lval rem) (lval (tab b))) as (r' & st & E & HR);
    unfold len in *; cbn [tab expn sign] in *; try done; try lia.
  - replace (zlen q') with (n + 1) by lia. done.
  - exists r', st. split; [done|]. left. rewrite <- Ev in HR. apply correctly_rounded_shift in HR; [|lia].
    replace (expn a - 64 * zlen (tab a) - (expn b - 64 * zlen (tab b))) with
      (expn a - expn b + 64 - 64 * zlen q' + 64 * (n + zlen (tab b) - zlen (tab a))) by lia. done.
Qed.

(** C40: Normalizing and rounding keep the error in bounds. For any limbs whose
    value is not zero, a precision of at least one bit (without
    [BF_FLAG_RADPNT_PREC]), a rounding mode other than the faithful one, and
    exponents of the top and bottom limb away from both ends of the range that
    the flags give them (where the code returns infinity, zero or a
    subnormal), the result exists, is in normal form, has the sign of the
    number and is the multiple of one unit in the last place that the rounding
    mode asks for: less than one unit away, at most half a unit to nearest with
    ties to even or away from zero, toward zero, away from it, down or up for
    the others. The status is inexact exactly when the value changed. *)
Theorem bf_normalize_and_round_bounds r prec flags mode :
  limbs (tab r) → lval (tab r) ≠ 0 → 1 <= prec → round_flags flags mode → sizes_ok flags (expn r) (len r) →
  ∃ r' st, bf_normalize_and_round alloc junk r prec flags = Some (r', st) ∧
    correctly_rounded mode prec (sign r) (lval (tab r)) 1 (expn r - 64 * len r) r' st.
Proof. intros Ht Hv Hp Hf Hsz. apply normalize_ratio; try done. left. lia. Qed.

End Correct.

(** 7 * 2^64 + 2^63 + 1, in three limbs, to two bits with ties to even. *)
Lemma bf_normalize_and_round_bounds_witness :
  let r := mkBf false 100 [2 ^ 63 + 1; 7; 0] in
  ∃ r' st, bf_normalize_and_round (λ _, true) (λ _, 0) r 2 0 = Some (r', st) ∧
    correctly_rounded BF_RNDN 2 false (lval (tab r)) 1 (100 - 192) r' st.
Proof.
  apply (bf_normalize_and_round_bounds (λ _, true) (λ _, 0) (mkBf false 100 [2 ^ 63 + 1; 7; 0]) 2 0 BF_RNDN).
  - repeat constructor; vm_compute; congruence.
  - vm_compute. congruence.
  - lia.
  - constructor; [reflexivity|congruence|reflexivity].
  - repeat split; vm_compute; congruence.
Defined.

End LibbfOps.
