(* ===== verification/LibbfAdd.v ===== *)
(** * Addition of big numbers ([quickjs/libbf.c])

    Addition and subtraction: the cancelled bits, the limbs below the result,
    which only count for rounding, and the limbs of the result. The sum is
    correctly rounded. *)
From stdpp Require Import list.
From S2P Require Import Prelude Limbs Libbf LibbfRound LibbfOps.

Module LibbfAdd.
Import Limbs Libbf LibbfRound LibbfOps.
Local Open Scope cint_scope.

(** ** The code *)

(** The two limbs at [bit_offset], aligned. *)
Definition limbs_at (a b : bf_t) (b_offset bit_offset : Z) : Z * Z :=
  (get_limbz a (bit_offset >> 6), get_bits (tab b) (bit_offset + b_offset)).

(** The search for the first limbs that differ. *)
Fixpoint search_equal (fuel : nat) (a b : bf_t) (b_offset bit_offset n : Z) : option (Z * Z * Z * Z) :=
  match fuel with
  | O => None
  | S fuel =>
      let '(v1, v2) := limbs_at a b b_offset bit_offset in
      if negb (v1 =? v2) then Some (v1, v2, bit_offset, n)
      else search_equal fuel a b b_offset (bit_offset - 64) (n + 64)
  end.

(** The search for the end of the zeros of [a] and ones of [b]. *)
Fixpoint search_cancel (fuel : nat) (a b : bf_t) (b_offset bit_offset n : Z) : option Z :=
  match fuel with
  | O => None
  | S fuel =>
      let '(v1, v2) := limbs_at a b b_offset bit_offset in
      if negb (v1 =? 0) || negb (v2 =? 2 ^ 64 - 1) then Some (n + Z.min (clz v1) (clz (not64 v2)))
      else search_cancel fuel a b b_offset (bit_offset - 64) (n + 64)
  end.

Definition count_cancelled_bits (a b : bf_t) : option Z :=
  let fuel := S (S (length (tab a) + length (tab b))) in
  let bit_offset := len a * 64 - 1 in
  let b_offset := (len b - len a) * 64 - 63 + expn a - expn b in
  '(v1, v2, bit_offset, n) ← search_equal fuel a b b_offset bit_offset 0;
  let p := clz (v1 .^ v2) + 1 in
  let n := n + p in
  let p := 64 - p in
  let rest n := search_cancel fuel a b b_offset (bit_offset - 64) n in
  if 0 <? p then
    let mask := limb_mask 0 (p - 1) in
    let p1 := Z.min (clz (v1 .& mask)) (clz (not64 v2 .& mask)) - (64 - p) in
    let n := n + p1 in
    if negb (p1 =? p) then Some n else rest n
  else rest n.

(** One limb of the sum and the carry. *)
Definition add_step (v1 v2 carry : Z) : Z * Z :=
  let u := u64 (v1 + v2) in
  let carry1 := Z.b2z (u <? v1) in
  let u := u64 (u + carry) in
  (u, Z.b2z (u <? carry) .| carry1).

(** The limbs below the result: the carry into it, and [z], not zero when one
    of them is not. *)
Fixpoint low_loop (fuel : nat) (a b : bf_t) (a_offset b_bit_offset sub_mask i carry z : Z) :
    option (Z * Z) :=
  match fuel with
  | O => None
  | S fuel =>
      if i <? 0 then
        let ap := a_offset + i in
        let bp := b_bit_offset + i * 64 in
        let in_a := (0 <=? ap) && (ap <? len a) in
        let in_b := (0 <? bp + 64) && (bp <? len b * 64) in
        v1 ← (if in_a then aget (tab a) ap else Some 0);
        let v2 := if in_b then get_bits (tab b) bp else 0 in
        let i :=
          if negb (in_a || in_b) then
            let i := if ap <? 0 then Z.min 0 (- a_offset) else 0 in
            if bp + 64 <=? 0 then Z.min i ((- b_bit_offset) >> 6) else i
          else i + 1 in
        let '(u, carry) := add_step v1 (v2 .^ sub_mask) carry in
        low_loop fuel a b a_offset b_bit_offset sub_mask i carry (z .| u)
      else Some (carry, z)
  end.

(** The limbs of the result, from the [i]-th. *)
Fixpoint high_loop (n : nat) (a b : bf_t) (a_offset b_bit_offset sub_mask i carry : Z) : list Z * Z :=
  match n with
  | O => ([], carry)
  | S n =>
      let v1 := get_limbz a (a_offset + i) in
      let v2 := get_bits (tab b) (b_bit_offset + i * 64) in
      let '(u, carry) := add_step v1 (v2 .^ sub_mask) carry in
      let '(t, carry) := high_loop n a b a_offset b_bit_offset sub_mask (i + 1) carry in
      (u :: t, carry)
  end.

Section Add.
Context (alloc : Z → bool) (junk : Z → Z).

(** The sum of finite numbers, [a] the larger one. *)
Definition add_finite (r a b : bf_t) (a_sign is_sub : bool) (prec flags : Z) : option (bf_t * Z) :=
  let fail r := Some (bf_set_nan r, BF_ST_MEM_ERROR) in
  let d := expn a - expn b in
  cancelled_bits ← (if is_sub then if d <=? 1 then count_cancelled_bits a b else Some 1 else Some 0);
  let precl := (cancelled_bits + prec + 2 + 64 - 1) / 64 in
  let tot_len := Z.max (len a) (len b + (d + 64 - 1) / 64) in
  let r_len := Z.min precl tot_len in
  match bf_resize alloc junk r r_len with
  | None => fail r
  | Some r =>
      let a_offset := len a - r_len in
      let b_bit_offset := (len b - r_len) * 64 + d in
      let sub_mask := if is_sub then 2 ^ 64 - 1 else 0 in
      '(carry, z) ← low_loop (S (S (S (S (length (tab a) + length (tab b)))))) a b a_offset b_bit_offset
                      sub_mask (r_len - tot_len) (Z.b2z is_sub) 0;
      let '(t, carry) := high_loop (Z.to_nat r_len) a b a_offset b_bit_offset sub_mask 0 carry in
      x ← aget t 0;
      t ← aset t 0 (x .| Z.b2z (negb (z =? 0)));
      let r := mkBf a_sign (expn a) t in
      if negb is_sub && negb (carry =? 0) then
        match bf_resize alloc junk r (r_len + 1) with
        | None => fail r
        | Some r =>
            t ← aset (tab r) r_len 1;
            bf_normalize_and_round alloc junk (mkBf a_sign (expn a + 64) t) prec flags
        end
      else bf_normalize_and_round alloc junk r prec flags
  end.

Definition bf_add_internal (r a b : bf_t) (prec flags : Z) (b_neg : bool) : option (bf_t * Z) :=
  let a_sign := sign a in
  let b_sign := xorb (sign b) b_neg in
  let is_sub := xorb a_sign b_sign in
  let cmp_res := bf_cmpu a b in
  let '(a, b, a_sign) := if cmp_res <? 0 then (b, a, b_sign) else (a, b, a_sign) in
  if (cmp_res =? 0) && is_sub && (expn a <? BF_EXP_INF) then
    Some (bf_set_zero r (flags .& BF_RND_MASK =? 2), 0)
  else if (len a =? 0) || (len b =? 0) then
    if BF_EXP_INF <=? expn a then
      if expn a =? BF_EXP_NAN then Some (bf_set_nan r, 0)
      else if (expn b =? BF_EXP_INF) && is_sub then Some (bf_set_nan r, BF_ST_INVALID_OP)
      else Some (bf_set_inf r a_sign, 0)
    else
      let '(r, _) := bf_set alloc junk r a in
      bf_normalize_and_round alloc junk (set_sign r a_sign) prec flags
  else add_finite r a b a_sign is_sub prec flags.

(** [alias]: the result is one of the operands, and computed apart. *)
Definition bf_op2 (alias : bool) (r a b : bf_t) (prec flags : Z)
    (func : bf_t → bf_t → bf_t → Z → Z → option (bf_t * Z)) : option (bf_t * Z) :=
  if alias then func bf_init a b prec flags else func r a b prec flags.

Definition bf_add (alias : bool) (r a b : bf_t) (prec flags : Z) : option (bf_t * Z) :=
  bf_op2 alias r a b prec flags (λ r a b prec flags, bf_add_internal r a b prec flags false).

Definition bf_sub (alias : bool) (r a b : bf_t) (prec flags : Z) : option (bf_t * Z) :=
  bf_op2 alias r a b prec flags (λ r a b prec flags, bf_add_internal r a b prec flags true).

Definition bf_div mp_divnorm_large (alias : bool) (r a b : bf_t) (prec flags : Z) : option (bf_t * Z) :=
  bf_op2 alias r a b prec flags (__bf_div alloc junk mp_divnorm_large).

End Add.

(** ** Aligned numbers *)

Lemma shiftl_shiftr x n m : 0 <= n → (x << n) >> m = x >> (m - n).
Proof. intros Hn. rewrite <- !Z.shiftl_opp_r, Z.shiftl_shiftl by lia. f_equal. lia. Qed.

Lemma get_limbz_ok a i : limbs (tab a) → get_limbz a i = u64 (lval (tab a) >> (64 * i)).
Proof.
  intros Ha. unfold get_limbz, len, aget. destruct (Z.lt_ge_cases i 0) as [Hi|Hi].
  - rewrite (proj2 (Z.leb_gt (zlen (tab a)) i)), (proj2 (Z.leb_gt 0 i)) by lia. cbn [default].
    rewrite Z.shiftr_mul_pow2 by lia. replace (- (64 * i)) with (64 * (- i - 1) + 64) by lia.
    rewrite Z.pow_add_r, Z.mul_assoc by lia. symmetry. apply Z.mod_mul. lia.
  - pose proof (lval_limb (tab a) (Z.to_nat i) Ha) as E. rewrite Z2Nat.id in E by lia. rewrite E.
    rewrite (proj2 (Z.leb_le 0 i)) by lia. destruct (Z.leb_spec (zlen (tab a)) i); [|done].
    by rewrite lookup_ge_None_2 by lia.
Qed.

(** Two finite numbers on a scale of [W] limbs, the exponent of [a] the larger
    by [d]. *)
Record aligned (a b : bf_t) (W d : Z) : Prop := {
  al_a : normal a;
  al_b : normal b;
  al_d : d = expn a - expn b;
  al_pos : 0 <= d;
  al_len_a : len a <= W;
  al_len_b : 64 * len b + d <= 64 * W;
  al_len_b' : 64 * W < 64 * len b + d + 64 ∨ W = len a;
  al_W : W < 2 ^ 50
}.

Definition up_a (a : bf_t) (W : Z) : Z := lval (tab a) << (64 * (W - len a)).
Definition up_b (b : bf_t) (W d : Z) : Z := lval (tab b) << (64 * (W - len b) - d).

Section Aligned.
Context (a b : bf_t) (W d : Z) (H : aligned a b W d).
Let A := up_a a W.
Let Bb := up_b b W d.

Lemma up_a_range : 2 ^ (64 * W - 1) <= A < 2 ^ (64 * W).
Proof using H.
  destruct H as [Ha Hb -> Hd Hla Hlb Hlb' HW]. destruct (normal_nonempty a Ha) as (La & _ & _).
  unfold A, up_a. rewrite Z.shiftl_mul_pow2 by lia.
  pose proof (normal_range a Ha) as R. pose proof (Z.pow_pos_nonneg 2 (64 * (W - len a)) ltac:(lia) ltac:(lia)).
  rewrite (pow_multiple (64 * W - 1) (64 * (W - len a))), (pow_multiple (64 * W) (64 * (W - len a))) by lia.
  replace (64 * W - 1 - 64 * (W - len a)) with (64 * len a - 1) by lia.
  replace (64 * W - 64 * (W - len a)) with (64 * len a) by lia.
  split; [apply Z.mul_le_mono_nonneg_r|apply Z.mul_lt_mono_pos_r]; lia.
Qed.

Lemma up_b_range : 0 < Bb < 2 ^ (64 * W - d).
Proof using H.
  destruct H as [Ha Hb Hd0 Hd Hla Hlb Hlb' HW]. destruct (normal_nonempty b Hb) as (Lb & _ & Vb).
  unfold Bb, up_b. rewrite Z.shiftl_mul_pow2 by lia.
  pose proof (normal_range b Hb) as R. pose proof (Z.pow_pos_nonneg 2 (64 * (W - len b) - d) ltac:(lia) ltac:(lia)).
  rewrite (pow_multiple (64 * W - d) (64 * (W - len b) - d)) by lia.
  replace (64 * W - d - (64 * (W - len b) - d)) with (64 * len b) by lia.
  split; [apply Z.mul_pos_pos|apply Z.mul_lt_mono_pos_r]; lia.
Qed.

Lemma limb_a j : get_limbz a (len a - W + j) = u64 (A >> (64 * j)).
Proof using H.
  destruct H as [Ha Hb Hd0 Hd Hla Hlb Hlb' HW]. rewrite get_limbz_ok by apply Ha.
  unfold A, up_a. rewrite shiftl_shiftr by lia. do 2 f_equal. lia.
Qed.

Lemma limb_b j : - 2 ^ 51 <= j < 2 ^ 51 → get_bits (tab b) ((len b - W) * 64 + d + j * 64) = u64 (Bb >> (64 * j)).
Proof using H.
  intros Hj. destruct H as [Ha Hb Hd0 Hd Hla Hlb Hlb' HW]. pose proof (fin_len b Hb) as Hl.
  destruct (normal_nonempty b Hb) as (Lb & _ & _).
  rewrite get_bits_ok by (apply Hb || unfold len in *; lia).
  unfold Bb, up_b. rewrite shiftl_shiftr by lia. do 2 f_equal. lia.
Qed.

End Aligned.

(** ** The sum, limb by limb *)

Section Sum.
Context (A Bb : Z) (sub : bool).

Definition masked (w x : Z) : Z := if sub then 2 ^ w - 1 - x else x.

(** The sum of the limbs below [j] with the first carry. *)
Definition sum_below (j : Z) : Z :=
  A mod 2 ^ (64 * j) + masked (64 * j) (Bb mod 2 ^ (64 * j)) + Z.b2z sub.

(** [carry] comes out of the limbs below [j], [z] says whether they are zero. *)
Definition carried (j carry z : Z) : Prop :=
  carry = sum_below j / 2 ^ (64 * j) ∧ 0 <= carry <= 1 ∧ 0 <= z ∧
  (z = 0 ↔ sum_below j mod 2 ^ (64 * j) = 0).

Lemma masked_limb v : is_u64 v → v .^ (if sub then 2 ^ 64 - 1 else 0) = masked 64 v ∧ is_u64 (masked 64 v).
Proof.
  intros Hv. unfold masked. destruct sub; [|by rewrite Z.lxor_0_r]. unfold is_u64 in *. split; [|lia].
  apply Z.bits_inj'. intros n Hn. rewrite Z.lxor_spec. destruct (Z.lt_ge_cases n 64).
  - change (2 ^ 64 - 1) with (Z.ones 64). rewrite Z.ones_spec_low by lia.
    replace (Z.ones 64 - v) with (Z.lnot v mod 2 ^ 64).
    + rewrite Z.mod_pow2_bits_low, Z.lnot_spec by lia. by destruct (Z.testbit v n).
    + symmetry. apply Z.mod_unique_pos with (-1); unfold Z.lnot; change (Z.ones 64) with (2 ^ 64 - 1); lia.
  - rewrite <- (u64_id v) at 1 by done. unfold u64. rewrite Z.mod_pow2_bits_high by lia.
    change (2 ^ 64 - 1) with (Z.ones 64) at 1. rewrite Z.ones_spec_high by lia.
    symmetry. apply Z.bits_above_log2; [lia|]. destruct (decide (2 ^ 64 - 1 - v = 0)) as [->|]; [cbn; lia|].
    apply Z.lt_le_trans with 64; [|done]. apply Z.log2_lt_pow2; lia.
Qed.

(** The low bits with one more limb. *)
Lemma mod_next x j : 0 <= j → x mod 2 ^ (64 * (j + 1)) = x mod 2 ^ (64 * j) + 2 ^ (64 * j) * u64 (x >> (64 * j)).
Proof.
  intros Hj. replace (64 * (j + 1)) with (64 * j + 64) by lia. rewrite Z.pow_add_r by lia.
  pose proof (Z.pow_pos_nonneg 2 (64 * j) ltac:(lia) ltac:(lia)).
  rewrite Z.rem_mul_r by lia. rewrite Z.shiftr_div_pow2 by lia. done.
Qed.

Lemma sum_next j : 0 <= j →
  sum_below (j + 1) = sum_below j + 2 ^ (64 * j) * (u64 (A >> (64 * j)) + masked 64 (u64 (Bb >> (64 * j)))).
Proof.
  intros Hj. unfold sum_below. rewrite !mod_next by lia. unfold masked. destruct sub; [|lia].
  replace (64 * (j + 1)) with (64 * j + 64) by lia. rewrite Z.pow_add_r by lia. lia.
Qed.

Lemma sum_split j : 0 <= j → sum_below j = 2 ^ (64 * j) * (sum_below j / 2 ^ (64 * j)) + sum_below j mod 2 ^ (64 * j) ∧
  0 <= sum_below j mod 2 ^ (64 * j) < 2 ^ (64 * j).
Proof.
  intros Hj. pose proof (Z.pow_pos_nonneg 2 (64 * j) ltac:(lia) ltac:(lia)).
  split; [apply Z.div_mod; lia|apply Z.mod_pos_bound; lia].
Qed.

Lemma carried_0 : carried 0 (Z.b2z sub) 0.
Proof.
  unfold carried, sum_below, masked. rewrite !Z.mod_1_r, Z.div_1_r. destruct sub; cbn; lia.
Qed.

(** The quotient and remainder of a sum given by its parts. *)
Lemma div_parts x P q r : 0 <= r < P → x = P * q + r → x / P = q ∧ x mod P = r.
Proof.
  intros Hr E. split; symmetry; [by apply Z.div_unique_pos with r|by apply Z.mod_unique_pos with q].
Qed.

Lemma add_step_ok v1 v2 carry : is_u64 v1 → is_u64 v2 → 0 <= carry <= 1 →
  ∃ u c, add_step v1 v2 carry = (u, c) ∧ is_u64 u ∧ 0 <= c <= 1 ∧ u + 2 ^ 64 * c = v1 + v2 + carry.
Proof. intros H1 H2 Hc. eexists _, _. split; [reflexivity|]. apply (add_limb v1 v2 carry H1 H2 Hc). Qed.

Lemma lor_zero z u : 0 <= z → 0 <= u → 0 <= z .| u ∧ (z .| u = 0 ↔ z = 0 ∧ u = 0).
Proof. intros Hz Hu. split; [by apply Z.lor_nonneg|]. by rewrite Z.lor_eq_0_iff. Qed.

(** One limb more. *)
Lemma carried_step j carry z : 0 <= j → carried j carry z →
  ∃ u c, add_step (u64 (A >> (64 * j))) (masked 64 (u64 (Bb >> (64 * j)))) carry = (u, c) ∧ is_u64 u ∧
    carried (j + 1) c (z .| u) ∧
    sum_below (j + 1) = sum_below j mod 2 ^ (64 * j) + 2 ^ (64 * j) * (u + 2 ^ 64 * c).
Proof.
  intros Hj (Ec & Rc & Hz & Ez). destruct (masked_limb (u64 (Bb >> (64 * j))) (u64_range _)) as [_ Hm].
  destruct (add_step_ok (u64 (A >> (64 * j))) _ carry (u64_range _) Hm Rc) as (u & c & E & Hu & Hc & Es).
  exists u, c. split; [done|]. split; [done|].
  pose proof (sum_next j Hj) as Esum. destruct (sum_split j Hj) as [Ed Rd].
  assert (sum_below (j + 1) = sum_below j mod 2 ^ (64 * j) + 2 ^ (64 * j) * (u + 2 ^ 64 * c)) as E1
    by (rewrite Es, Ec, Esum; rewrite Ed at 1; lia).
  split; [|done]. unfold is_u64 in Hu. destruct (lor_zero z u Hz ltac:(lia)) as [L1 L2].
  set (P := 2 ^ (64 * j)) in *. set (rem := sum_below j mod P) in *.
  assert (2 ^ (64 * (j + 1)) = P * 2 ^ 64) as EP
    by (unfold P; rewrite <- Z.pow_add_r by lia; f_equal; lia).
  assert (0 <= P * u <= P * (2 ^ 64 - 1)) as Ru by (split; [apply Z.mul_nonneg_nonneg|apply Z.mul_le_mono_nonneg_l]; lia).
  destruct (div_parts (sum_below (j + 1)) (P * 2 ^ 64) c (rem + P * u)) as [Q1 Q2]; [lia|lia|].
  unfold carried. rewrite EP, Q1, Q2. split_and!; [done|lia|lia|done|]. rewrite L2, Ez.
  split; [intros [-> ->]; lia|]. intros Hs. assert (P * u = 0 ∧ rem = 0) as [Hp ->] by lia.
  apply Z.mul_eq_0_r in Hp; [|lia]. done.
Qed.

(** A run of zero limbs up to [j']. *)
Lemma carried_run j j' carry z : 0 <= j < j' → carried j carry z →
  A mod 2 ^ (64 * j') = A mod 2 ^ (64 * j) → Bb mod 2 ^ (64 * j') = Bb mod 2 ^ (64 * j) →
  ∃ u c, add_step 0 (masked 64 0) carry = (u, c) ∧ carried j' c (z .| u).
Proof.
  intros Hj (Ec & Rc & Hz & Ez) EA EB.
  destruct (masked_limb 0 ltac:(done)) as [_ Hm].
  destruct (add_step_ok 0 _ carry ltac:(done) Hm Rc) as (u & c & E & Hu & Hc & Es).
  exists u, c. split; [done|]. unfold is_u64 in Hu. destruct (lor_zero z u Hz ltac:(lia)) as [L1 L2].
  destruct (sum_split j ltac:(lia)) as [Ed Rd]. rewrite <- Ec in Ed.
  set (P := 2 ^ (64 * j)) in *. set (Q := 2 ^ (64 * (j' - j))).
  assert (2 ^ (64 * j') = P * Q) as EP by (unfold P, Q; rewrite <- Z.pow_add_r by lia; f_equal; lia).
  assert (2 ^ 64 <= Q) as HQ by (apply Z.pow_le_mono_r; lia).
  assert (sum_below j' = sum_below j + (if sub then P * Q - P else 0)) as E1.
  { unfold sum_below, masked. rewrite EA, EB, EP. fold P. destruct sub; lia. }
  set (rem := sum_below j mod P) in *. unfold masked in Es.
  assert (P * 2 ^ 64 <= P * Q) by (apply Z.mul_le_mono_nonneg_l; lia).
  assert (∃ rem', sum_below j' = P * Q * c + rem' ∧ 0 <= rem' < P * Q ∧ (rem' = 0 ↔ rem = 0 ∧ u = 0)) as (rem' & F1 & F2 & F3).
  { rewrite E1, Ed. destruct sub.
    - assert (carry = 1 ∧ c = 1 ∧ u = 0 ∨ carry = 0 ∧ c = 0 ∧ u = 2 ^ 64 - 1) as [(-> & -> & ->)|(-> & -> & ->)] by lia.
      + exists rem. lia.
      + exists (P * Q - P + rem). lia.
    - assert (c = 0 ∧ u = carry) as [-> ->] by lia. exists (P * carry + rem).
      assert (carry = 0 ∨ carry = 1) as [-> | ->] by lia; lia. }
  destruct (div_parts _ _ _ _ F2 F1) as [G1 G2]. unfold carried. rewrite EP, G1, G2.
  split_and!; [done|lia|lia|done|]. rewrite L2, Ez, F3. done.
Qed.

End Sum.

(** ** The limbs below the result *)

Lemma mod_shifted x s n : 0 <= n <= s → (x << s) mod 2 ^ n = 0.
Proof.
  intros H. rewrite Z.shiftl_mul_pow2, (pow_multiple s n), Z.mul_assoc by lia.
  apply Z.mod_mul. apply Z.pow_nonzero; lia.
Qed.

Section Low.
Context (a b : bf_t) (W d : Z) (H : aligned a b W d) (R : Z) (HR : 1 <= R <= W).
Let A := up_a a W.
Let Bb := up_b b W d.
Let a_offset := len a - R.
Let b_bit_offset := (len b - R) * 64 + d.
Let w := W - R.

Lemma low_a i : R - W <= i < 0 →
  (if (0 <=? a_offset + i) && (a_offset + i <? len a) then aget (tab a) (a_offset + i) else Some 0) =
  Some (u64 (A >> (64 * (i + w)))).
Proof using H HR.
  intros Hi. rewrite <- (limb_a a b W d H). unfold a_offset, w, get_limbz.
  replace (len a - W + (i + (W - R))) with (len a - R + i) by lia. unfold len.
  destruct (Z.leb_spec 0 (zlen (tab a) - R + i)); cbn [andb].
  - rewrite (proj2 (Z.ltb_lt _ _)), (proj2 (Z.leb_gt _ _)) by lia.
    destruct (aget_Some (tab a) (zlen (tab a) - R + i)) as (x & E & _); [lia|]. by rewrite E.
  - rewrite (proj2 (Z.leb_gt _ _)) by lia. unfold aget. by rewrite (proj2 (Z.leb_gt _ _)) by lia.
Qed.

Lemma low_b i : R - W <= i < 0 →
  let bp := b_bit_offset + i * 64 in
  (if (0 <? bp + 64) && (bp <? len b * 64) then get_bits (tab b) bp else 0) = u64 (Bb >> (64 * (i + w))).
Proof using H HR.
  intros Hi bp. pose proof (al_W _ _ _ _ H) as HW. pose proof (al_len_b _ _ _ _ H) as Hlb.
  assert (bp = (len b - W) * 64 + d + (i + w) * 64) as Ebp by (unfold bp, b_bit_offset, w; lia).
  assert (Bb >> (64 * (i + w)) = lval (tab b) >> bp) as EB.
  { unfold Bb, up_b. rewrite shiftl_shiftr by lia. f_equal. lia. }
  destruct (Z.ltb_spec 0 (bp + 64)) as [H1|H1]; cbn [andb].
  - destruct (Z.ltb_spec bp (len b * 64)) as [H2|H2].
    + rewrite Ebp. apply (limb_b a b W d H). unfold w. lia.
    + rewrite EB, Z.shiftr_div_pow2, Z.div_small; [done| |unfold len in *; lia].
      pose proof (normal_range b (al_b _ _ _ _ H)) as [R1 R2]. split; [apply lval_range, (al_b _ _ _ _ H)|].
      apply Z.lt_le_trans with (2 ^ (64 * len b)); [done|]. apply Z.pow_le_mono_r; lia.
  - rewrite EB, <- Z.shiftl_opp_r. symmetry. apply mod_shifted. lia.
Qed.

(** Where the loop jumps to over limbs that are zero in both. *)
Lemma low_jump i : R - W <= i < 0 →
  let ap := a_offset + i in
  let bp := b_bit_offset + i * 64 in
  (0 <=? ap) && (ap <? len a) = false → (0 <? bp + 64) && (bp <? len b * 64) = false →
  let i1 := if ap <? 0 then Z.min 0 (- a_offset) else 0 in
  let i' := if bp + 64 <=? 0 then Z.min i1 ((- b_bit_offset) >> 6) else i1 in
  i < i' <= 0 ∧ i + a_offset < 0 ∧ i' = (if bp + 64 <=? 0 then Z.min (Z.min 0 (- a_offset)) ((- b_bit_offset) / 64) else Z.min 0 (- a_offset)) ∧
  A mod 2 ^ (64 * (i' + w)) = A mod 2 ^ (64 * (i + w)) ∧ Bb mod 2 ^ (64 * (i' + w)) = Bb mod 2 ^ (64 * (i + w)).
Proof using H HR.
  intros Hi ap bp Ha Hb i1 i'.
  assert (ap < 0) as Hap.
  { unfold ap, a_offset in *. destruct (Z.leb_spec 0 (len a - R + i)); [|done]. cbn [andb] in Ha.
    apply Z.ltb_ge in Ha. lia. }
  unfold i', i1. rewrite (proj2 (Z.ltb_lt ap 0) Hap). rewrite Z.shiftr_div_pow2 by lia. change (2 ^ 6) with 64.
  pose proof (Z.div_mod (- b_bit_offset) 64 ltac:(lia)) as E.
  pose proof (Z.mod_pos_bound (- b_bit_offset) 64 ltac:(lia)) as Hm.
  set (k := if bp + 64 <=? 0 then _ else _).
  assert (i < k <= 0 ∧ k <= - a_offset) as [Hk Hka] by (unfold k, ap, bp in *; destruct (Z.leb_spec (b_bit_offset + i * 64 + 64) 0); lia).
  pose proof (al_len_a _ _ _ _ H). pose proof (al_len_b _ _ _ _ H). pose proof (al_pos _ _ _ _ H).
  split_and!; [lia|lia|unfold ap in *; lia|done|..].
  - unfold A, up_a. rewrite !mod_shifted; [done|unfold a_offset, w in *; lia..].
  - unfold k in *. destruct (Z.leb_spec (bp + 64) 0) as [Hlow|Hhigh].
    + unfold Bb, up_b. rewrite !mod_shifted; [done|unfold bp, b_bit_offset, w in *; lia..].
    + pose proof (up_b_range a b W d H) as RB. fold Bb in RB.
      rewrite (proj2 (Z.ltb_lt _ _)) in Hb by lia. cbn [andb] in Hb. apply Z.ltb_ge in Hb.
      rewrite !Z.mod_small; [done|..]; (split; [lia|]);
        (apply Z.lt_le_trans with (2 ^ (64 * W - d)); [lia|apply Z.pow_le_mono_r; unfold bp, b_bit_offset, w in *; lia]).
Qed.

Context (sub : bool).
Let sub_mask := if sub then 2 ^ 64 - 1 else 0.

(** The rounds left: at most one per limb of [a] and [b] and two jumps. *)
Definition rounds_left (i : Z) : Z :=
  let sa := - a_offset in
  let sb := (- b_bit_offset) / 64 in
  Z.max 0 (- Z.max i sa) + Z.max 0 (Z.min 0 (sb + len b + 1) - Z.max i sb) +
  (if i <? sa then if i <? sb then 2 else 1 else 0).

Lemma rounds_pos i : 0 <= rounds_left i.
Proof using All. unfold rounds_left. repeat case_match; lia. Qed.

Lemma rounds_step i : R - W <= i < 0 →
  let bp := b_bit_offset + i * 64 in
  (0 <=? a_offset + i) && (a_offset + i <? len a) = true ∨ (0 <? bp + 64) && (bp <? len b * 64) = true →
  rounds_left (i + 1) < rounds_left i.
Proof using All.
  intros Hi bp Hin. unfold rounds_left. rewrite !andb_true_iff, !Z.leb_le, !Z.ltb_lt in Hin.
  pose proof (Z.div_mod (- b_bit_offset) 64 ltac:(lia)) as E.
  pose proof (Z.mod_pos_bound (- b_bit_offset) 64 ltac:(lia)) as Hm. unfold bp in Hin. clear bp.
  set (sb := (- b_bit_offset) / 64) in *.
  destruct (Z.ltb_spec i (- a_offset)), (Z.ltb_spec (i + 1) (- a_offset)), (Z.ltb_spec i sb), (Z.ltb_spec (i + 1) sb); lia.
Qed.

Lemma rounds_jump i i' : R - W <= i < i' → i' < 0 → i + a_offset < 0 →
  let bp := b_bit_offset + i * 64 in
  i' = (if bp + 64 <=? 0 then Z.min (Z.min 0 (- a_offset)) ((- b_bit_offset) / 64) else Z.min 0 (- a_offset)) →
  rounds_left i' < rounds_left i.
Proof using All.
  intros Hi Hneg Ha bp Ei. unfold rounds_left.
  pose proof (Z.div_mod (- b_bit_offset) 64 ltac:(lia)) as E.
  pose proof (Z.mod_pos_bound (- b_bit_offset) 64 ltac:(lia)) as Hm. unfold bp in Ei. clear bp.
  set (sb := (- b_bit_offset) / 64) in *.
  destruct (Z.leb_spec (b_bit_offset + i * 64 + 64) 0);
    destruct (Z.ltb_spec i (- a_offset)), (Z.ltb_spec i' (- a_offset)), (Z.ltb_spec i sb), (Z.ltb_spec i' sb); lia.
Qed.

Lemma low_loop_ok fuel i carry z : R - W <= i <= 0 → i = 0 ∧ 0 < Z.of_nat fuel ∨ rounds_left i + 1 < Z.of_nat fuel →
  carried A Bb sub (i + w) carry z →
  ∃ carry' z', low_loop fuel a b a_offset b_bit_offset sub_mask i carry z = Some (carry', z') ∧
    carried A Bb sub w carry' z'.
Proof using All.
  revert i carry z. induction fuel as [|fuel IH]; intros i carry z Hi Hf Hc; cbn [low_loop].
  { unfold rounds_left in Hf. destruct Hf as [Hf|Hf]; [lia|]. repeat case_match; lia. }
  destruct (Z.ltb_spec i 0) as [Hneg|Hz0].
  2: { exists carry, z. split; [done|]. by replace i with 0 in Hc by lia. }
  rewrite low_a, low_b by lia. cbn [mbind option_bind].
  destruct (masked_limb sub (u64 (Bb >> (64 * (i + w)))) (u64_range _)) as [Em _].
  set (in_a := (0 <=? a_offset + i) && _) in *. set (in_b := (0 <? _) && _) in *.
  destruct (in_a || in_b) eqn:Ein; cbn [negb].
  - destruct (carried_step A Bb sub (i + w) carry z) as (u & c & Ea & _ & Hc' & _); [unfold w; lia|done|].
    unfold sub_mask. rewrite Em, Ea. apply IH; [lia| |by replace (i + 1 + w) with (i + w + 1) by lia].
    pose proof (rounds_pos (i + 1)). pose proof (rounds_step i ltac:(lia) (proj1 (orb_true_iff _ _) Ein)). lia.
  - apply orb_false_iff in Ein as [Ea Eb].
    destruct (low_jump i ltac:(lia) Ea Eb) as (Hi' & Hai & Ei' & EA & EB).
    set (i' := if b_bit_offset + i * 64 + 64 <=? 0 then _ else _) in *.
    destruct (carried_run A Bb sub (i + w) (i' + w) carry z) as (u & c & Es & Hc'); [unfold w; lia|done..|].
    assert (u64 (A >> (64 * (i + w))) = 0) as ->.
    { pose proof (low_a i ltac:(lia)) as E. fold in_a in E. rewrite Ea in E. by inversion E. }
    assert (u64 (Bb >> (64 * (i + w))) = 0) as E0.
    { pose proof (low_b i ltac:(lia)) as E. cbn zeta in E. fold in_b in E. rewrite Eb in E. by inversion E. }
    rewrite E0 in Em |- *. unfold sub_mask. rewrite Em, Es. apply IH; [lia| |done].
    destruct Hf as [Hf|Hf]; [lia|]. destruct (decide (i' = 0)); [left; pose proof (rounds_pos i); lia|right].
    pose proof (rounds_jump i i' ltac:(lia) ltac:(lia) ltac:(lia) Ei'). lia.
Qed.

Lemma high_loop_ok n i carry z : 0 <= i → i + Z.of_nat n <= R → carried A Bb sub (i + w) carry z →
  ∃ t c, high_loop n a b a_offset b_bit_offset sub_mask i carry = (t, c) ∧ limbs t ∧ length t = n ∧ 0 <= c <= 1 ∧
    sum_below A Bb sub (i + w + Z.of_nat n) =
      sum_below A Bb sub (i + w) mod 2 ^ (64 * (i + w)) + 2 ^ (64 * (i + w)) * (lval t + Bn n * c).
Proof using All.
  revert i carry z. induction n as [|n IH]; intros i carry z Hi Hn Hc; cbn [high_loop].
  - exists [], carry. destruct Hc as (Ec & Rc & _ & _). split_and!; [done|by constructor|done|lia|lia|].
    rewrite Z.add_0_r. change (Bn 0) with 1. cbn [lval]. rewrite Ec.
    pose proof (sum_split A Bb sub (i + w) ltac:(unfold w; lia)). lia.
  - pose proof (al_W _ _ _ _ H).
    replace (a_offset + i) with (len a - W + (i + w)) by (unfold a_offset, w; lia).
    replace (b_bit_offset + i * 64) with ((len b - W) * 64 + d + (i + w) * 64) by (unfold b_bit_offset, w; lia).
    rewrite (limb_a a b W d H), (limb_b a b W d H) by (unfold w; lia). fold A Bb.
    destruct (masked_limb sub (u64 (Bb >> (64 * (i + w)))) (u64_range _)) as [Em _]. unfold sub_mask. rewrite Em.
    destruct (carried_step A Bb sub (i + w) carry z) as (u & c1 & Ea & Hu & Hc' & Es); [unfold w; lia|done|].
    rewrite Ea. destruct (IH (i + 1) c1 (z .| u)) as (t & c & Et & Ht & Hlt & Rc & E'); [lia|lia|by replace (i + 1 + w) with (i + w + 1) by lia|].
    unfold sub_mask in Et. rewrite Et. exists (u :: t), c. cbn [lval length].
    split_and!; [done|by constructor|by rewrite Hlt|lia|lia|].
    rewrite Bn_S. unfold B.
    replace (i + w + Z.of_nat (S n)) with (i + 1 + w + Z.of_nat n) by lia. rewrite E'.
    replace (i + 1 + w) with (i + w + 1) by lia.
    set (P := 2 ^ (64 * (i + w))) in *.
    assert (2 ^ (64 * (i + w + 1)) = P * 2 ^ 64) as EP
      by (unfold P; rewrite <- Z.pow_add_r by (unfold w; lia); f_equal; lia).
    destruct (sum_split A Bb sub (i + w) ltac:(unfold w; lia)) as [_ Rd]. fold P in Rd.
    set (rem := sum_below A Bb sub (i + w) mod P) in *.
    assert (sum_below A Bb sub (i + w + 1) mod (P * 2 ^ 64) = rem + P * u) as EM.
    { unfold is_u64 in Hu.
      assert (0 <= P * u <= P * (2 ^ 64 - 1)) by (split; [apply Z.mul_nonneg_nonneg|apply Z.mul_le_mono_nonneg_l]; lia).
      apply (div_parts _ (P * 2 ^ 64) c1); lia. }
    rewrite EP, EM. lia.
Qed.

(** The whole sum. *)
Lemma sum_total : sum_below A Bb sub W = if sub then A - Bb + 2 ^ (64 * W) else A + Bb.
Proof using All.
  pose proof (up_a_range a b W d H) as RA. pose proof (up_b_range a b W d H) as RB. fold A in RA. fold Bb in RB.
  pose proof (al_pos _ _ _ _ H). pose proof (al_len_a _ _ _ _ H).
  assert (2 ^ (64 * W - d) <= 2 ^ (64 * W)) by (apply Z.pow_le_mono_r; lia).
  unfold sum_below, masked. rewrite !Z.mod_small by lia. destruct sub; cbn [Z.b2z]; lia.
Qed.

End Low.

(** ** Cancelled bits *)

(** The smaller number of leading zeros is that of one of the two. *)
Lemma clz_min x y : is_u64 x → is_u64 y → x ≠ 0 ∨ y ≠ 0 →
  let c := Z.min (clz x) (clz y) in
  0 <= c < 64 ∧ (2 ^ (63 - c) <= x ∨ 2 ^ (63 - c) <= y).
Proof.
  intros Hx Hy Hn. cbn zeta.
  assert (∀ v, is_u64 v → v ≠ 0 → 0 <= clz v < 64 ∧ 2 ^ (63 - clz v) <= v) as Hc.
  { intros v Hv Hv0. destruct (clz_range v Hv Hv0) as [R1 R2]. split; [done|].
    apply (Z.mul_le_mono_pos_r _ _ (2 ^ clz v)); [apply Z.pow_pos_nonneg; lia|].
    rewrite <- Z.pow_add_r by lia. replace (63 - clz v + clz v) with 63 by lia. lia. }
  assert (clz 0 = 64) as C0 by done.
  destruct (decide (x = 0)) as [->|Hx0].
  - destruct (Hc y Hy ltac:(lia)) as [R1 R2]. rewrite C0, Z.min_r by lia. lia.
  - destruct (Hc x Hx Hx0) as [R1 R2]. destruct (decide (y = 0)) as [->|Hy0].
    + rewrite C0, Z.min_l by lia. lia.
    + destruct (Hc y Hy Hy0) as [R3 R4]. destruct (Z.min_spec (clz x) (clz y)) as [[? ->]|[? ->]]; lia.
Qed.

(** The first bit that differs. *)
Lemma top_diff v1 v2 : is_u64 v1 → is_u64 v2 → v2 < v1 →
  let q := 63 - clz (v1 .^ v2) in
  0 <= q < 64 ∧ v1 / 2 ^ q = v2 / 2 ^ q + 1.
Proof.
  intros H1 H2 Hlt. unfold is_u64 in *. set (x := v1 .^ v2).
  assert (0 < x) as Hx.
  { assert (0 <= x) by (apply Z.lxor_nonneg; lia). assert (x ≠ 0) by (intros E%Z.lxor_eq; lia). lia. }
  assert (Z.log2 x < 64) as Hl.
  { apply Z.lt_le_trans with (Z.max (Z.log2 v1) (Z.log2 v2) + 1).
    - pose proof (Z.log2_lxor v1 v2 ltac:(lia) ltac:(lia)). fold x in H. lia.
    - assert (∀ v, 0 <= v < 2 ^ 64 → Z.log2 v <= 63) as Hv.
      { intros v Hv. destruct (decide (v = 0)) as [->|]; [cbn; lia|].
        assert (Z.log2 v < 64); [apply Z.log2_lt_pow2; lia|lia]. }
      pose proof (Hv v1 H1). pose proof (Hv v2 H2). lia. }
  pose proof (Z.log2_nonneg x) as Hl0.
  assert (63 - clz x = Z.log2 x) as -> by (unfold clz; rewrite (proj2 (Z.eqb_neq x 0)) by lia; lia).
  cbn zeta. split; [lia|]. set (q := Z.log2 x) in *.
  assert (v1 >> (q + 1) = v2 >> (q + 1)) as Ehi.
  { apply Z.lxor_eq. rewrite <- Z.shiftr_lxor. fold x. rewrite Z.shiftr_div_pow2 by lia. apply Z.div_small.
    pose proof (Z.log2_spec x Hx) as [_ Hs]. fold q in Hs. split; [lia|]. by rewrite Z.add_1_r. }
  assert (xorb (Z.testbit v1 q) (Z.testbit v2 q) = true) as Eb
    by (rewrite <- Z.lxor_spec; apply Z.bit_log2; done).
  assert (∀ v, v >> q = 2 * (v >> (q + 1)) + Z.b2z (Z.testbit v q)) as Eq.
  { intros v. rewrite <- (Z.shiftr_shiftr v q 1) by lia. rewrite (Z.shiftr_div_pow2 (v >> q) 1) by lia.
    change (2 ^ 1) with 2. pose proof (Z.div_mod (v >> q) 2 ltac:(lia)) as E.
    rewrite <- Z.bit0_mod, Z.shiftr_spec, Z.add_0_l in E by lia. lia. }
  rewrite <- !Z.shiftr_div_pow2 by lia. rewrite (Eq v1), (Eq v2), Ehi.
  destruct (Z.testbit v1 q) eqn:B1, (Z.testbit v2 q) eqn:B2; try done; cbn [Z.b2z]; [lia|]. exfalso.
  assert (v1 >> q < v2 >> q) as Hlt' by (rewrite (Eq v1), (Eq v2), Ehi, B1, B2; cbn [Z.b2z]; lia).
  rewrite !Z.shiftr_div_pow2 in Hlt' by lia.
  pose proof (Z.div_le_mono v2 v1 (2 ^ q) ltac:(apply Z.pow_pos_nonneg; lia) ltac:(lia)). lia.
Qed.

Lemma not64_mod v q : is_u64 v → 0 <= q <= 64 → not64 v .& (2 ^ q - 1) = 2 ^ q - 1 - v mod 2 ^ q.
Proof.
  intros Hv Hq. rewrite land_ones_mod by lia. unfold not64. rewrite u64_id by done.
  pose proof (Z.pow_pos_nonneg 2 q ltac:(lia) ltac:(lia)). pose proof (Z.mod_pos_bound v (2 ^ q) ltac:(lia)).
  pose proof (Z.div_mod v (2 ^ q) ltac:(lia)).
  pose proof (pow_multiple 64 q ltac:(lia)) as E64.
  apply (div_parts _ (2 ^ q) (2 ^ (64 - q) - 1 - v / 2 ^ q)); [lia|]. rewrite E64. lia.
Qed.

Lemma shr_limbs x j : 0 <= j → x >> (64 * j) = (x >> (64 * (j + 1))) * 2 ^ 64 + u64 (x >> (64 * j)).
Proof.
  intros Hj. replace (64 * (j + 1)) with (64 * j + 64) by lia. rewrite <- Z.shiftr_shiftr by lia.
  rewrite (Z.shiftr_div_pow2 (x >> (64 * j)) 64) by lia. unfold u64.
  pose proof (Z.div_mod (x >> (64 * j)) (2 ^ 64) ltac:(lia)). lia.
Qed.

Lemma shr_low x j : 0 <= j → ∃ l, x = (x >> (64 * j)) * 2 ^ (64 * j) + l ∧ 0 <= l < 2 ^ (64 * j).
Proof.
  intros Hj. exists (x mod 2 ^ (64 * j)). rewrite Z.shiftr_div_pow2 by lia.
  pose proof (Z.pow_pos_nonneg 2 (64 * j) ltac:(lia) ltac:(lia)).
  pose proof (Z.div_mod x (2 ^ (64 * j)) ltac:(lia)). pose proof (Z.mod_pos_bound x (2 ^ (64 * j)) ltac:(lia)). lia.
Qed.

Section Cancel.
Context (a b : bf_t) (W d : Z) (H : aligned a b W d).
Let A := up_a a W.
Let Bb := up_b b W d.
Let b_offset := (len b - len a) * 64 - 63 + expn a - expn b.

(** Leaving out [n] bits leaves half a unit of the difference. *)
Definition cancels (n : Z) : Prop := 0 <= n <= 64 * W ∧ 2 ^ (64 * W - n) < 2 * (A - Bb).

Definition offset_at (j : Z) : Z := 64 * (len a - W + j + 1) - 1.

Lemma limbs_at_ok j : - 2 ^ 51 <= j < 2 ^ 51 →
  limbs_at a b b_offset (offset_at j) = (u64 (A >> (64 * j)), u64 (Bb >> (64 * j))).
Proof using H.
  intros Hj. unfold limbs_at, offset_at. f_equal.
  - rewrite <- (limb_a a b W d H). f_equal. rewrite Z.shiftr_div_pow2 by lia. change (2 ^ 6) with 64.
    symmetry. apply Z.div_unique_pos with 63; lia.
  - rewrite <- (limb_b a b W d H) by done. f_equal. unfold b_offset. pose proof (al_d _ _ _ _ H). lia.
Qed.

(** The difference from the difference of leading parts. *)
Lemma cancels_from j h s : 0 <= j < W → 0 <= s <= 64 → h * 2 = 2 ^ s →
  h + 1 <= (A >> (64 * j)) - (Bb >> (64 * j)) → cancels (64 * (W - j) - s).
Proof using All.
  intros Hj Hs Eh Hd. destruct (shr_low A j ltac:(lia)) as (l1 & E1 & R1).
  destruct (shr_low Bb j ltac:(lia)) as (l2 & E2 & R2). unfold cancels. split; [lia|].
  replace (64 * W - (64 * (W - j) - s)) with (s + 64 * j) by lia. rewrite Z.pow_add_r, <- Eh by lia.
  set (P := 2 ^ (64 * j)) in *.
  assert ((h + 1) * P <= (A >> (64 * j) - Bb >> (64 * j)) * P) by (apply Z.mul_le_mono_nonneg_r; lia). lia.
Qed.

Lemma search_cancel_ok fuel j : - 1 <= j < W → j + 2 <= Z.of_nat fuel →
  A >> (64 * (j + 1)) = Bb >> (64 * (j + 1)) + 1 →
  ∃ n, search_cancel fuel a b b_offset (offset_at j) (64 * (W - 1 - j)) = Some n ∧ cancels n.
Proof using All.
  pose proof (al_W _ _ _ _ H) as HW. revert j. induction fuel as [|fuel IH]; intros j Hj Hf E; [lia|]. cbn [search_cancel].
  rewrite limbs_at_ok by lia. set (v1 := u64 (A >> (64 * j))). set (v2 := u64 (Bb >> (64 * j))).
  destruct (decide (j = -1)) as [->|Hj1].
  { assert (v1 = 0 ∧ v2 = 0) as [-> ->].
    { unfold v1, v2, u64. rewrite <- !Z.shiftl_opp_r. split; apply mod_shifted; lia. }
    cbn [negb Z.eqb orb]. eexists. split; [reflexivity|]. change (Z.min (clz 0) (clz (not64 0))) with 0.
    unfold cancels. change (64 * (-1 + 1)) with 0 in E. rewrite !Z.shiftr_0_r in E. rewrite E.
    split; [lia|]. replace (64 * W - (64 * (W - 1 - -1) + 0)) with 0 by lia. lia. }
  assert (is_u64 v1 ∧ is_u64 v2) as [H1 H2] by (split; apply u64_range). unfold is_u64 in H1, H2.
  pose proof (shr_limbs A j ltac:(lia)) as EA. pose proof (shr_limbs Bb j ltac:(lia)) as EB.
  fold v1 in EA. fold v2 in EB.
  destruct (negb (v1 =? 0) || negb (v2 =? 2 ^ 64 - 1)) eqn:Et.
  - eexists. split; [reflexivity|].
    assert (not64 v2 = 2 ^ 64 - 1 - v2) as En by (unfold not64; by rewrite u64_id).
    destruct (clz_min v1 (not64 v2)) as [Rc Hc]; [done|rewrite En; unfold is_u64; lia| |].
    { rewrite orb_true_iff, !negb_true_iff, !Z.eqb_neq in Et. lia. }
    set (c := Z.min _ _) in *. rewrite En in Hc.
    replace (64 * (W - 1 - j) + c) with (64 * (W - j) - (64 - c)) by lia.
    apply (cancels_from j (2 ^ (63 - c))); [lia|lia| |lia].
    replace (64 - c) with (Z.succ (63 - c)) by lia. rewrite Z.pow_succ_r by lia. lia.
  - rewrite orb_false_iff, !negb_false_iff, !Z.eqb_eq in Et. destruct Et as [E1 E2].
    replace (offset_at j - 64) with (offset_at (j - 1)) by (unfold offset_at; lia).
    replace (64 * (W - 1 - j) + 64) with (64 * (W - 1 - (j - 1))) by lia.
    apply IH; [lia|lia|]. replace (j - 1 + 1) with j by lia. lia.
Qed.

Lemma search_equal_ok fuel j : 0 <= j < W → j + 1 <= Z.of_nat fuel → Bb < A →
  A >> (64 * (j + 1)) = Bb >> (64 * (j + 1)) →
  ∃ j', 0 <= j' <= j ∧ A >> (64 * (j' + 1)) = Bb >> (64 * (j' + 1)) ∧
    u64 (A >> (64 * j')) ≠ u64 (Bb >> (64 * j')) ∧
    search_equal fuel a b b_offset (offset_at j) (64 * (W - 1 - j)) =
      Some (u64 (A >> (64 * j')), u64 (Bb >> (64 * j')), offset_at j', 64 * (W - 1 - j')).
Proof using All.
  pose proof (al_W _ _ _ _ H) as HW. intros Hj. revert j Hj. induction fuel as [|fuel IH]; intros j Hj Hf Hlt E; [lia|].
  cbn [search_equal]. rewrite limbs_at_ok by lia.
  destruct (Z.eqb_spec (u64 (A >> (64 * j))) (u64 (Bb >> (64 * j)))) as [Ev|Hn]; cbn [negb].
  - assert (A >> (64 * j) = Bb >> (64 * j)) as E'.
    { rewrite (shr_limbs A j), (shr_limbs Bb j), E, Ev by lia. done. }
    destruct (decide (j = 0)) as [->|Hj0].
    { change (64 * 0) with 0 in E'. rewrite !Z.shiftr_0_r in E'. lia. }
    replace (offset_at j - 64) with (offset_at (j - 1)) by (unfold offset_at; lia).
    replace (64 * (W - 1 - j) + 64) with (64 * (W - 1 - (j - 1))) by lia.
    destruct (IH (j - 1)) as (j' & Hj' & R); [lia|lia|done|by replace (j - 1 + 1) with j by lia|].
    exists j'. split; [lia|done].
  - exists j. split_and!; [lia|lia|done|done|done].
Qed.

(** The limbs that differ decide, unless they are next to each other. *)
Lemma diff_limb j v1 v2 : 0 <= j < W → A >> (64 * (j + 1)) = Bb >> (64 * (j + 1)) →
  v1 = u64 (A >> (64 * j)) → v2 = u64 (Bb >> (64 * j)) → v2 < v1 →
  let q := 63 - clz (v1 .^ v2) in
  let p1 := Z.min (clz (v1 .& (2 ^ q - 1))) (clz (not64 v2 .& (2 ^ q - 1))) - (64 - q) in
  0 <= q < 64 ∧ (0 < q → p1 ≠ q → cancels (64 * (W - j) - q + p1)) ∧
  (q = 0 ∨ p1 = q → A >> (64 * j) = Bb >> (64 * j) + 1).
Proof using All.
  intros Hj E E1 E2 Hlt q p1. assert (is_u64 v1 ∧ is_u64 v2) as [H1 H2] by (subst; split; apply u64_range).
  pose proof (shr_limbs A j ltac:(lia)) as EA. pose proof (shr_limbs Bb j ltac:(lia)) as EB.
  rewrite <- E1 in EA. rewrite <- E2 in EB. clear E1 E2.
  destruct (top_diff v1 v2 H1 H2 Hlt) as [Rq Hq]. fold q in Rq, Hq. split; [done|].
  unfold p1. rewrite not64_mod, land_ones_mod by (done || lia).
  pose proof (Z.pow_pos_nonneg 2 q ltac:(lia) ltac:(lia)) as HP.
  pose proof (Z.pow_lt_mono_r 2 q 64 ltac:(lia) ltac:(lia) ltac:(lia)) as HP64.
  pose proof (Z.div_mod v1 (2 ^ q) ltac:(lia)) as D1. pose proof (Z.div_mod v2 (2 ^ q) ltac:(lia)) as D2.
  pose proof (Z.mod_pos_bound v1 (2 ^ q) HP) as R1. pose proof (Z.mod_pos_bound v2 (2 ^ q) HP) as R2.
  set (a' := v1 mod 2 ^ q) in *. set (b' := v2 mod 2 ^ q) in *. rewrite Hq in D1.
  assert (v1 - v2 = 2 ^ q + a' - b') as Ed by lia.
  assert (a' ≠ 0 ∨ 2 ^ q - 1 - b' ≠ 0 ∨ (a' = 0 ∧ 2 ^ q - 1 - b' = 0)) as [Hz|[Hz|[Z1 Z2]]] by lia.
  3: { rewrite Z1, Z2. change (Z.min (clz 0) (clz 0) - (64 - q)) with (64 - (64 - q)). split; intros; lia. }
  all: destruct (clz_min a' (2 ^ q - 1 - b')) as [Rc Hc]; [unfold is_u64; lia..|lia|];
    set (c := Z.min (clz a') _) in *; (split; [intros Hq0 Hn|intros [Hq0|Hq0]; [rewrite Hq0 in *; change (2 ^ 0) with 1 in *; lia|lia]]);
    assert (63 - c < q) by (apply (Z.pow_lt_mono_r_iff 2); lia);
    replace (64 * (W - j) - q + (c - (64 - q))) with (64 * (W - j) - (64 - c)) by lia;
    (apply (cancels_from j (2 ^ (63 - c))); [lia|lia| |lia]);
    replace (64 - c) with (Z.succ (63 - c)) by lia; rewrite Z.pow_succ_r by lia; lia.
Qed.

Lemma count_ok : d <= 1 → Bb < A → ∃ n, count_cancelled_bits a b = Some n ∧ cancels n.
Proof using All.
  intros Hd1 Hlt. pose proof H as [Ha Hb Ed Hd Hla Hlb Hlb' HW].
  destruct (normal_nonempty a Ha) as (La & _ & _). destruct (normal_nonempty b Hb) as (Lb & _ & _).
  pose proof (up_a_range a b W d H) as RA. pose proof (up_b_range a b W d H) as RB. fold A in RA. fold Bb in RB.
  assert (2 ^ (64 * W - d) <= 2 ^ (64 * W)) by (apply Z.pow_le_mono_r; lia).
  unfold count_cancelled_bits. fold b_offset.
  replace (len a * 64 - 1) with (offset_at (W - 1)) by (unfold offset_at; lia).
  set (fuel := S (S (length (tab a) + length (tab b)))).
  assert (W + 1 <= Z.of_nat fuel) as Hfuel by (unfold fuel, len in *; lia).
  destruct (search_equal_ok fuel (W - 1)) as (j & Hj & Ehi & Hne & E); [lia|lia|done| |].
  { replace (W - 1 + 1) with W by lia. rewrite !Z.shiftr_div_pow2, !Z.div_small by lia. done. }
  replace (64 * (W - 1 - (W - 1))) with 0 in E by lia. rewrite E. cbn [mbind option_bind]. clear E.
  set (v1 := u64 (A >> (64 * j))) in *. set (v2 := u64 (Bb >> (64 * j))) in *.
  assert (v2 < v1) as Hv.
  { pose proof (shr_limbs A j ltac:(lia)) as EA. pose proof (shr_limbs Bb j ltac:(lia)) as EB.
    fold v1 in EA. fold v2 in EB.
    pose proof (Z.div_le_mono Bb A (2 ^ (64 * j)) ltac:(apply Z.pow_pos_nonneg; lia) ltac:(lia)) as Hm.
    rewrite <- !Z.shiftr_div_pow2 in Hm by lia. lia. }
  destruct (diff_limb j v1 v2 ltac:(lia) Ehi eq_refl eq_refl Hv) as (Rq & Hc & Hr).
  replace (64 - (clz (v1 .^ v2) + 1)) with (63 - clz (v1 .^ v2)) by lia. set (q := 63 - clz (v1 .^ v2)) in *.
  replace (64 * (W - 1 - j) + (clz (v1 .^ v2) + 1)) with (64 * (W - j) - q) by (unfold q; lia).
  replace (offset_at j - 64) with (offset_at (j - 1)) by (unfold offset_at; lia).
  assert (A >> (64 * j) = Bb >> (64 * j) + 1 → ∃ n, search_cancel fuel a b b_offset (offset_at (j - 1)) (64 * (W - j)) = Some n ∧ cancels n) as Hrest.
  { intros E. replace (64 * (W - j)) with (64 * (W - 1 - (j - 1))) by lia.
    apply search_cancel_ok; [lia|lia|by replace (j - 1 + 1) with j by lia]. }
  destruct (Z.ltb_spec 0 q) as [Hq|Hq].
  - rewrite limb_mask_low by lia. replace (q - 1 + 1) with q by lia.
    set (p1 := Z.min _ _ - _) in *. destruct (Z.eqb_spec p1 q) as [E|Hn]; cbn [negb].
    + replace (64 * (W - j) - q + p1) with (64 * (W - j)) by lia. auto.
    + exists (64 * (W - j) - q + p1). auto.
  - replace (64 * (W - j) - q) with (64 * (W - j)) by lia. apply Hrest, Hr. lia.
Qed.

End Cancel.

(** ** The sum of two numbers *)

(** [r] is the number [num * 2^e] with sign [neg], rounded to [prec] bits. *)
Definition rounds_value (mode : bf_rnd_t) (prec : Z) (neg : bool) (num e : Z) (r : bf_t) (st : Z) : Prop :=
  ∃ s, 0 <= s ∧ correctly_rounded mode prec neg num (2 ^ s) (e + s) r st.

Lemma sticky_cons x rest z rem prec den : limbs (x :: rest) → (z = 0 ↔ rem = 0) → 0 <= rem < den →
  (rem ≠ 0 → 2 ^ (prec + 1) <= lval (x :: rest)) →
  let q := (x .| Z.b2z (negb (z =? 0))) :: rest in
  limbs q ∧ lval (x :: rest) <= lval q ∧ stands_for (lval q) (lval (x :: rest) * den + rem) den prec.
Proof.
  intros Hq Hz Hr Hbig. destruct (sticky_ok (x :: rest) rem prec den Hq ltac:(done) Hr Hbig)
    as (q' & E & Hq' & _ & Hge & HS). cbn zeta.
  assert (q' = (x .| Z.b2z (negb (z =? 0))) :: rest) as <-; [|done].
  destruct (Z.eqb_spec rem 0) as [E0|E0], (Z.eqb_spec z 0) as [Z0|Z0]; try tauto; cbn [negb Z.b2z] in *.
  - rewrite Z.lor_0_r. congruence.
  - change (aget (x :: rest) 0) with (Some x) in E. cbn [mbind option_bind] in E.
    pose proof (aset_mid [] rest x (x .| 1) 0 eq_refl) as Ea. cbn [app] in Ea. congruence.
Qed.

Lemma sizes_ok_le flags e l l' : 0 <= l' <= l → sizes_ok flags e l → sizes_ok flags e l'.
Proof. unfold sizes_ok, expn_ok. lia. Qed.

Section AddOk.
Context (alloc : Z → bool) (junk : Z → Z).

(** Growing by one limb for the carry. *)
Lemma resize_carry r : 
  (∃ r', bf_resize alloc junk r (len r + 1) = Some r' ∧ aset (tab r') (len r) 1 = Some (tab r ++ [1])) ∨
  (bf_resize alloc junk r (len r + 1) = None ∧ alloc (len r + 1) = false).
Proof.
  unfold bf_resize. rewrite (proj2 (Z.eqb_neq (len r + 1) (len r))) by lia. cbn [negb].
  rewrite (proj2 (Z.eqb_neq (len r + 1) 0)) by (unfold len; lia). cbn [negb andb].
  destruct (alloc (len r + 1)); cbn [negb andb]; [left|by right].
  eexists. split; [reflexivity|]. cbn [tab set_tab]. unfold len. rewrite take_ge by lia.
  replace (zlen (tab r) + 1 - zlen (tab r)) with 1 by lia. rewrite (seqZ_cons _ 1) by lia.
  by apply aset_mid.
Qed.

(** The result from the limbs of the sum [num], of which the last [w] are left out. *)
Lemma add_finish_ok x rest e a_sign prec flags mode num w z rem :
  round_flags flags mode → 1 <= prec → 0 <= w → limbs (x :: rest) → (z = 0 ↔ rem = 0) → 0 <= rem < 2 ^ (64 * w) →
  num = lval (x :: rest) * 2 ^ (64 * w) + rem → 0 < num → (rem ≠ 0 → 2 ^ (prec + 1) <= lval (x :: rest)) →
  sizes_ok flags e (zlen (x :: rest)) →
  ∃ r' st, bf_normalize_and_round alloc junk (mkBf a_sign e ((x .| Z.b2z (negb (z =? 0))) :: rest)) prec flags = Some (r', st) ∧
    rounds_value mode prec a_sign num (e - 64 * zlen (x :: rest) - 64 * w) r' st.
Proof.
  intros Hf Hp Hw Hq Hz Hr En Hn Hbig Hsz.
  destruct (sticky_cons x rest z rem prec _ Hq Hz Hr Hbig) as (Hq' & Hge & HS). cbn zeta in *.
  assert (0 < lval (x :: rest)) as Hpos.
  { destruct (decide (rem = 0)) as [->|Hr0].
    - rewrite Z.add_0_r in En. apply (Z.mul_pos_cancel_r _ (2 ^ (64 * w))); [apply Z.pow_pos_nonneg; lia|lia].
    - specialize (Hbig Hr0). pose proof (Z.pow_pos_nonneg 2 (prec + 1) ltac:(lia) ltac:(lia)). lia. }
  destruct (normalize_ratio alloc junk (mkBf a_sign e ((x .| Z.b2z (negb (z =? 0))) :: rest)) prec flags mode
    num (2 ^ (64 * w))) as (r' & st & E & HR); unfold len; cbn [tab expn sign]; try done; try lia; [by rewrite En|].
  exists r', st. split; [done|]. exists (64 * w). split; [lia|].
  by replace (e - 64 * zlen (x :: rest) - 64 * w + 64 * w) with (e - 64 * zlen (x :: rest)) by lia.
Qed.

(** Of the difference or sum at most the cancelled bits and one more are lost. *)
Lemma cancelled_ok a b W d (sub : bool) : aligned a b W d → (sub = true → up_b b W d < up_a a W) →
  let num := if sub then up_a a W - up_b b W d else up_a a W + up_b b W d in
  ∃ cb, (if sub then if d <=? 1 then count_cancelled_bits a b else Some 1 else Some 0) = Some cb ∧
    0 <= cb ∧ 0 < num < 2 * 2 ^ (64 * W) ∧ 2 ^ (64 * W - cb - 1) <= num.
Proof.
  intros H Hlt num. pose proof (up_a_range a b W d H) as RA. pose proof (up_b_range a b W d H) as RB.
  pose proof (al_pos _ _ _ _ H). pose proof (al_len_a _ _ _ _ H). pose proof (al_len_b _ _ _ _ H).
  destruct (normal_nonempty a (al_a _ _ _ _ H)) as (La & _ & _).
  destruct (normal_nonempty b (al_b _ _ _ _ H)) as (Lb & _ & _).
  assert (2 ^ (64 * W - d) <= 2 ^ (64 * W)) by (apply Z.pow_le_mono_r; lia).
  unfold num. destruct sub.
  - specialize (Hlt eq_refl). destruct (Z.leb_spec d 1).
    + destruct (count_ok a b W d H) as (n & E & Rn & Hn); [done|done|]. exists n. split_and!; [done|lia|lia|lia|].
      destruct (decide (n = 64 * W)) as [->|]; [rewrite Z.pow_neg_r; lia|].
      apply Z.mul_le_mono_pos_l with 2; [lia|]. rewrite <- Z.pow_succ_r by lia.
      replace (Z.succ (64 * W - n - 1)) with (64 * W - n) by lia. lia.
    + exists 1. split_and!; [done|lia|lia|lia|].
      assert (2 ^ (64 * W - d) <= 2 ^ (64 * W - 1 - 1)) by (apply Z.pow_le_mono_r; lia).
      assert (2 ^ (64 * W - 1) = 2 * 2 ^ (64 * W - 1 - 1)) by (rewrite <- Z.pow_succ_r by lia; f_equal; lia). lia.
  - exists 0. replace (64 * W - 0 - 1) with (64 * W - 1) by lia. split_and!; [done|lia|lia|lia|lia].
Qed.

(** Bits of the limbs kept when limbs are left out. *)
Lemma kept_bits lv num rem w R cb prec : 0 <= w → 0 <= rem < 2 ^ (64 * w) → num = lv * 2 ^ (64 * w) + rem →
  2 ^ (64 * (w + R) - cb - 1) <= num → cb + prec + 2 <= 64 * R → 1 <= prec → 0 <= cb → 2 ^ (prec + 1) <= lv.
Proof.
  intros Hw Hr En Hn HR Hp Hcb. pose proof (Z.pow_pos_nonneg 2 (64 * w) ltac:(lia) ltac:(lia)) as HP.
  assert (2 ^ (prec + 1) * 2 ^ (64 * w) <= num) as Hle.
  { rewrite <- Z.pow_add_r by lia. etrans; [|exact Hn]. apply Z.pow_le_mono_r; lia. }
  apply Z.lt_succ_r, (Z.mul_lt_mono_pos_r (2 ^ (64 * w))); lia.
Qed.

(** What the limbs of the result and the carry are. *)
Lemma sum_result a b W d sub R t c rem : aligned a b W d → (sub = true → up_b b W d < up_a a W) → 1 <= R <= W →
  limbs t → zlen t = R → 0 <= c <= 1 → 0 <= rem < 2 ^ (64 * (W - R)) →
  sum_below (up_a a W) (up_b b W d) sub W = rem + 2 ^ (64 * (W - R)) * (lval t + Bn (length t) * c) →
  (if sub then up_a a W - up_b b W d else up_a a W + up_b b W d) =
    lval (t ++ (if negb sub && negb (c =? 0) then [1] else [])) * 2 ^ (64 * (W - R)) + rem.
Proof.
  intros H Hlt HR Ht Hlt' Hc Hr E. rewrite (sum_total a b W d H R HR sub) in E.
  pose proof (up_a_range a b W d H) as RA. pose proof (up_b_range a b W d H) as RB.
  pose proof (lval_range t Ht) as Rt. rewrite lval_app.
  assert (2 ^ (64 * W) = 2 ^ (64 * (W - R)) * Bn (length t)) as EW
    by (rewrite Bn_pow, Hlt', <- Z.pow_add_r by lia; f_equal; lia).
  destruct sub; cbn [negb andb lval].
  - specialize (Hlt eq_refl). rewrite EW in *. set (P := 2 ^ (64 * (W - R))) in *.
    assert (P * lval t <= P * (Bn (length t) - 1)) by (apply Z.mul_le_mono_nonneg_l; lia).
    assert (c = 1) as -> by (destruct (decide (c = 0)) as [->|]; lia). lia.
  - assert (c = 0 ∨ c = 1) as [-> | ->] by lia; cbn [Z.eqb negb lval]; lia.
Qed.

(** The two loops together. *)
Lemma loops_ok a b W d (sub : bool) R : aligned a b W d → 1 <= R <= W →
  let a_offset := len a - R in
  let b_bit_offset := (len b - R) * 64 + d in
  let sub_mask := if sub then 2 ^ 64 - 1 else 0 in
  ∃ carry z t c rem,
    low_loop (S (S (S (S (length (tab a) + length (tab b)))))) a b a_offset b_bit_offset sub_mask
      (R - W) (Z.b2z sub) 0 = Some (carry, z) ∧
    high_loop (Z.to_nat R) a b a_offset b_bit_offset sub_mask 0 carry = (t, c) ∧
    limbs t ∧ zlen t = R ∧ 0 <= c <= 1 ∧ (z = 0 ↔ rem = 0) ∧ 0 <= rem < 2 ^ (64 * (W - R)) ∧
    sum_below (up_a a W) (up_b b W d) sub W = rem + 2 ^ (64 * (W - R)) * (lval t + Bn (length t) * c).
Proof.
  intros H HR a_offset b_bit_offset sub_mask.
  destruct (low_loop_ok a b W d H R HR sub (S (S (S (S (length (tab a) + length (tab b)))))) (R - W) (Z.b2z sub) 0)
    as (carry & z & El & Hc); [lia| |by replace (R - W + (W - R)) with 0 by lia; apply carried_0|].
  { right. unfold rounds_left. pose proof (al_len_a _ _ _ _ H).
    destruct (normal_nonempty a (al_a _ _ _ _ H)) as (La & _ & _). unfold len in *. repeat case_match; lia. }
  destruct (high_loop_ok a b W d H R HR sub (Z.to_nat R) 0 carry z) as (t & c & Eh & Ht & Hlt & Rc & E);
    [lia|lia|by rewrite Z.add_0_l|].
  rewrite Z.add_0_l in E. replace (W - R + Z.of_nat (Z.to_nat R)) with W in E by lia.
  exists carry, z, t, c, (sum_below (up_a a W) (up_b b W d) sub (W - R) mod 2 ^ (64 * (W - R))).
  destruct (sum_split (up_a a W) (up_b b W d) sub (W - R)) as [_ Rd]; [lia|].
  split; [done|]. split; [done|]. split; [done|]. split; [lia|]. split; [lia|]. split; [apply Hc|].
  split; [exact Rd|]. rewrite Hlt. exact E.
Qed.

Lemma add_finite_ok r a b a_sign sub prec flags mode W d :
  aligned a b W d → W = Z.max (len a) (len b + (d + 64 - 1) / 64) → (sub = true → up_b b W d < up_a a W) →
  round_flags flags mode → 1 <= prec → sizes_ok flags (expn a) W → sizes_ok flags (expn a + 64) (W + 1) →
  ∃ r' st, add_finite alloc junk r a b a_sign sub prec flags = Some (r', st) ∧
    (rounds_value mode prec a_sign (if sub then up_a a W - up_b b W d else up_a a W + up_b b W d)
       (expn a - 64 * W) r' st ∨
     (∃ l, alloc l = false) ∧ no_memory r' st).
Proof.
  intros H EW Hlt Hf Hp Hsz1 Hsz2. destruct (cancelled_ok a b W d sub H Hlt) as (cb & Ecb & Hcb & Rn & Hn).
  unfold add_finite. rewrite <- (al_d _ _ _ _ H), Ecb. cbn [mbind option_bind]. rewrite <- EW.
  pose proof (Z.div_mod (cb + prec + 2 + 64 - 1) 64 ltac:(lia)) as Ed.
  pose proof (Z.mod_pos_bound (cb + prec + 2 + 64 - 1) 64 ltac:(lia)) as Hm.
  set (precl := (cb + prec + 2 + 64 - 1) / 64) in *. set (R := Z.min precl W).
  destruct (normal_nonempty a (al_a _ _ _ _ H)) as (La & _ & _). pose proof (al_len_a _ _ _ _ H).
  assert (1 <= R <= W) as HR by (unfold R; lia).
  destruct (resize_cases alloc junk r R) as [(t0 & -> & _)|[-> Hal]];
    [lia| |eexists _, _; split; [reflexivity|right; split; [by exists R|done]]].
  destruct (loops_ok a b W d sub R H HR) as (carry & z & t & c & rem & -> & Eh & Ht & Hlt' & Rc & Hz & Rrem & Es).
  cbn [mbind option_bind]. rewrite Eh.
  pose proof (sum_result a b W d sub R t c rem H Hlt HR Ht Hlt' Rc Rrem Es) as En.
  destruct t as [|x rest]; [cbn in Hlt'; lia|]. change (aget (x :: rest) 0) with (Some x). cbn [mbind option_bind].
  pose proof (aset_mid [] rest x (x .| Z.b2z (negb (z =? 0))) 0 eq_refl) as Ea. cbn [app] in Ea.
  rewrite Ea. cbn [mbind option_bind].
  set (num := if sub then up_a a W - up_b b W d else up_a a W + up_b b W d) in *.
  assert (∀ lv, num = lv * 2 ^ (64 * (W - R)) + rem → rem ≠ 0 → 2 ^ (prec + 1) <= lv) as Hbig.
  { intros lv E Hr0. assert (R < W) by (destruct (decide (R = W)) as [E'|]; [rewrite E', Z.sub_diag in Rrem; lia|lia]).
    apply (kept_bits lv num rem (W - R) R cb prec); try done; [lia| |unfold R in *; lia].
    by replace (64 * (W - R + R)) with (64 * W) by lia. }
  destruct (negb sub && negb (c =? 0)) eqn:Ecarry.
  - set (r1 := mkBf a_sign (expn a) ((x .| Z.b2z (negb (z =? 0))) :: rest)).
    assert (len r1 = R) as Hlr by (unfold r1, len; cbn [tab length] in *; lia).
    pose proof (resize_carry r1) as Hrc. rewrite Hlr in Hrc. destruct Hrc as [(r2 & -> & Er)|[-> Hal]];
      [|eexists _, _; split; [reflexivity|right; split; [by eexists|done]]].
    rewrite Er. cbn [mbind option_bind r1 tab app] in *.
    destruct (add_finish_ok x (rest ++ [1]) (expn a + 64) a_sign prec flags mode num (W - R) z rem) as (r' & st & E & HV);
      try done; try lia; [by apply (limbs_app (x :: rest)); split; [|repeat constructor]|by apply Hbig| |].
    + apply (sizes_ok_le flags (expn a + 64) (W + 1)); [|done]. cbn [length] in *. rewrite length_app. cbn. lia.
    + exists r', st. split; [exact E|]. left.
      replace (expn a + 64 - 64 * zlen (x :: rest ++ [1]) - 64 * (W - R)) with (expn a - 64 * W) in HV; [done|].
      cbn [length] in *. rewrite length_app. cbn. lia.
  - rewrite app_nil_r in En.
    destruct (add_finish_ok x rest (expn a) a_sign prec flags mode num (W - R) z rem) as (r' & st & E & HV);
      try done; try lia; [by apply Hbig|by apply (sizes_ok_le flags (expn a) W); [lia|]|].
    exists r', st. split; [exact E|]. left. rewrite Hlt' in HV. by replace (expn a - 64 * R - 64 * (W - R)) with (expn a - 64 * W) in HV by lia.
Qed.

(** *** On a common scale *)

(** The exponent of the last bit. *)
Definition low_expn (r : bf_t) : Z := expn r - 64 * len r.

(** The absolute value of [r] in units of [2^u]. *)
Definition mag (r : bf_t) (u : Z) : Z := lval (tab r) * 2 ^ (low_expn r - u).

(** The limbs that the numbers aligned span. *)
Definition span (a b : bf_t) : Z :=
  Z.max (len a + (Z.max 0 (expn b - expn a) + 64 - 1) / 64) (len b + (Z.max 0 (expn a - expn b) + 64 - 1) / 64).

Lemma span_comm a b : span a b = span b a.
Proof. unfold span. lia. Qed.

Lemma mag_scale x n m k : 0 <= n → 0 <= k → m = n + k → x * 2 ^ m = x * 2 ^ n * 2 ^ k.
Proof. intros Hn Hk ->. rewrite Z.pow_add_r by lia. lia. Qed.

Lemma aligned_span a b : normal a → normal b → expn b <= expn a → span a b < 2 ^ 50 →
  let W := span a b in
  let d := expn a - expn b in
  let u := Z.min (low_expn a) (low_expn b) in
  let k := u - (expn a - 64 * W) in
  aligned a b W d ∧ W = Z.max (len a) (len b + (d + 64 - 1) / 64) ∧ 0 <= k ∧
  up_a a W = mag a u * 2 ^ k ∧ up_b b W d = mag b u * 2 ^ k.
Proof.
  intros Ha Hb He HW W d u k.
  assert (W = Z.max (len a) (len b + (d + 64 - 1) / 64)) as EW.
  { unfold W, span. rewrite (Z.max_l 0 (expn b - expn a)), (Z.max_r 0 (expn a - expn b)) by lia.
    change ((0 + 64 - 1) / 64) with 0. fold d. by rewrite Z.add_0_r. }
  pose proof (Z.div_mod (d + 64 - 1) 64 ltac:(lia)) as Ed. pose proof (Z.mod_pos_bound (d + 64 - 1) 64 ltac:(lia)) as Hm.
  assert (len a <= W ∧ 64 * len b + d <= 64 * W) as [Hla Hlb] by lia.
  assert (0 <= k) as Hk by (unfold k, u, low_expn, d in *; lia).
  split_and!; [constructor; try done; try lia|done|done|..]; unfold up_a, up_b, mag, low_expn in *.
  - rewrite Z.shiftl_mul_pow2 by lia. apply mag_scale; unfold k, u, d in *; lia.
  - rewrite Z.shiftl_mul_pow2 by lia. apply mag_scale; unfold k, u, d in *; lia.
Qed.

Lemma rounds_value_shift mode prec neg num k e r st : 0 <= k →
  rounds_value mode prec neg (num * 2 ^ k) e r st → rounds_value mode prec neg num (e + k) r st.
Proof.
  intros Hk (s & Hs & HC). exists s. split; [done|]. apply correctly_rounded_shift in HC; [|done].
  by replace (e + k + s) with (e + s + k) by lia.
Qed.

Lemma add_sorted r a b a_sign (sub : bool) prec flags mode : normal a → normal b → expn b <= expn a →
  let u := Z.min (low_expn a) (low_expn b) in
  (sub = true → mag b u < mag a u) → round_flags flags mode → 1 <= prec →
  sizes_ok flags (expn a) (span a b) → sizes_ok flags (expn a + 64) (span a b + 1) →
  ∃ r' st, add_finite alloc junk r a b a_sign sub prec flags = Some (r', st) ∧
    (rounds_value mode prec a_sign (if sub then mag a u - mag b u else mag a u + mag b u) u r' st ∨
     (∃ l, alloc l = false) ∧ no_memory r' st).
Proof.
  intros Ha Hb He u Hlt Hf Hp Hs1 Hs2.
  destruct (aligned_span a b Ha Hb He) as (H & EW & Hk & Ea & Eb); [apply Hs1|]. fold u in Hk, Ea, Eb.
  set (W := span a b) in *. set (d := expn a - expn b) in *. set (k := u - (expn a - 64 * W)) in *.
  pose proof (Z.pow_pos_nonneg 2 k ltac:(lia) Hk) as HP.
  destruct (add_finite_ok r a b a_sign sub prec flags mode W d H EW) as (r' & st & E & HR); try done.
  { intros Hsub. rewrite Ea, Eb. apply Z.mul_lt_mono_pos_r; auto. }
  exists r', st. split; [done|]. destruct HR as [HV|HM]; [left|by right].
  replace u with (expn a - 64 * W + k) by (unfold k; lia).
  apply rounds_value_shift; [done|]. rewrite Ea, Eb in HV. replace (expn a - 64 * W + k) with u by (unfold k; lia).
  destruct sub; [rewrite Z.mul_sub_distr_r|rewrite Z.mul_add_distr_r]; done.
Qed.

Lemma cmpu_mag a b : normal a → normal b → 
  let u := Z.min (low_expn a) (low_expn b) in
  compares (bf_cmpu a b) (mag a u) (mag b u) ∧
  (bf_cmpu a b < 0 → expn a <= expn b) ∧ (0 <= bf_cmpu a b → expn b <= expn a).
Proof.
  intros Ha Hb u. split.
  - set (L := Nat.max (length (tab a)) (length (tab b))). set (e0 := Z.min (expn a) (expn b)).
    pose proof (fin_len a Ha) as La. pose proof (fin_len b Hb) as Lb. unfold len in La, Lb.
    pose proof (bf_cmpu_ok a b e0 L (or_introl Ha) (or_introl Hb) ltac:(lia) ltac:(lia) ltac:(lia)
      ltac:(lia) ltac:(lia)) as Hc.
    set (k := u - (e0 - 64 * Z.of_nat L)).
    assert (0 <= k) as Hk by (unfold k, u, low_expn, len; lia).
    assert (∀ c, (length (tab c) <= L)%nat → e0 <= expn c → u <= low_expn c →
      scaled (set_sign c false) e0 L = mag c u * 2 ^ k) as Es.
    { intros c Hl He Hu. unfold scaled, set_sign, mag, low_expn in *. cbn [sign tab expn]. unfold len in *.
      rewrite Bn_pow, <- Z.mul_assoc, <- Z.pow_add_r by lia. apply mag_scale; unfold k; lia. }
    rewrite (Es a), (Es b) in Hc by lia. pose proof (Z.pow_pos_nonneg 2 k ltac:(lia) Hk) as HP.
    destruct Hc as (H1 & H2 & H3). split_and!; [done|rewrite H2; symmetry; by apply Z.mul_lt_mono_pos_r|].
    rewrite H3. apply Z.mul_cancel_r. lia.
  - unfold bf_cmpu. destruct (Z.eqb_spec (expn a) (expn b)); cbn [negb]; [lia|].
    destruct (Z.ltb_spec (expn a) (expn b)); lia.
Qed.

(** The exact sum or difference in units of the last bit of either. *)
Definition exact_sum (a b : bf_t) (b_neg : bool) (u : Z) : Z :=
  signed (sign a) (mag a u) + signed (xorb (sign b) b_neg) (mag b u).

(** What a correct sum is: zero, negative only when rounding down, or the exact
    sum correctly rounded. *)
Definition sum_correct (mode : bf_rnd_t) (prec sum u : Z) (r : bf_t) (st : Z) : Prop :=
  (sum = 0 ∧ zero r ∧ (sign r = true ↔ mode = BF_RNDD) ∧ st = 0) ∨
  (sum ≠ 0 ∧ rounds_value mode prec (sum <? 0) (Z.abs sum) u r st).

Lemma rndd_flag flags mode : rnd_mode flags = Some mode → (flags .& BF_RND_MASK =? 2) = true ↔ mode = BF_RNDD.
Proof.
  unfold rnd_mode, BF_RND_MASK. change 7 with (2 ^ 3 - 1). rewrite land_ones_mod by lia.
  pose proof (Z.mod_pos_bound flags (2 ^ 3) ltac:(lia)) as R. intros E.
  assert (∃ n, flags mod 2 ^ 3 = Z.of_nat n ∧ (n < 8)%nat) as (n & En & Hn)
    by (exists (Z.to_nat (flags mod 2 ^ 3)); lia).
  rewrite En, Nat2Z.id in *. do 8 (destruct n as [|n]; [cbn in E |- *; by simplify_eq|]). lia.
Qed.

Lemma mag_pos a u : normal a → u <= low_expn a → 0 < mag a u.
Proof.
  intros Ha Hu. destruct (normal_nonempty a Ha) as (_ & _ & Hv).
  apply Z.mul_pos_pos; [done|]. apply Z.pow_pos_nonneg; lia.
Qed.

(** From the sorted operands to the sum with its sign. *)
Lemma sum_signed mode prec u r st sa sb (ma mb : Z) : 0 < ma → 0 < mb → (xorb sa sb = true → mb < ma) →
  rounds_value mode prec sa (if xorb sa sb then ma - mb else ma + mb) u r st →
  ∀ sum, sum = signed sa ma + signed sb mb → sum_correct mode prec sum u r st.
Proof.
  intros Ha Hb Hlt HV sum ->. right.
  assert (signed sa ma + signed sb mb ≠ 0 ∧ (signed sa ma + signed sb mb <? 0) = sa ∧
    Z.abs (signed sa ma + signed sb mb) = if xorb sa sb then ma - mb else ma + mb) as (H1 & -> & ->); [|done].
  destruct sa, sb; cbn [signed xorb] in *; try specialize (Hlt eq_refl); (split; [lia|split; [|lia]]); (apply Z.ltb_lt || apply Z.ltb_ge); lia.
Qed.

Lemma add_internal_ok r a b prec flags b_neg mode : normal a → normal b →
  let u := Z.min (low_expn a) (low_expn b) in
  let e := Z.max (expn a) (expn b) in
  round_flags flags mode → 1 <= prec → sizes_ok flags e (span a b) → sizes_ok flags (e + 64) (span a b + 1) →
  ∃ r' st, bf_add_internal alloc junk r a b prec flags b_neg = Some (r', st) ∧
    (sum_correct mode prec (exact_sum a b b_neg u) u r' st ∨ (∃ l, alloc l = false) ∧ no_memory r' st).
Proof.
  intros Ha Hb u e Hf Hp Hs1 Hs2. unfold bf_add_internal, exact_sum.
  destruct (cmpu_mag a b Ha Hb) as ((Rc & Hclt & Hceq) & He1 & He2). fold u in Hclt, Hceq.
  pose proof (mag_pos a u Ha ltac:(unfold u; lia)) as Pa. pose proof (mag_pos b u Hb ltac:(unfold u; lia)) as Pb.
  destruct (normal_nonempty a Ha) as (La & _ & _). destruct (normal_nonempty b Hb) as (Lb & _ & _).
  pose proof (fin_expn a Ha) as Ea. pose proof (fin_expn b Hb) as Eb.
  set (sb := xorb (sign b) b_neg). set (cmp := bf_cmpu a b) in *.
  destruct (Z.ltb_spec cmp 0) as [Hc|Hc]; cbn [andb].
  - rewrite (proj2 (Z.eqb_neq cmp 0)) by lia. cbn [andb].
    rewrite (proj2 (Z.eqb_neq (len a) 0)), (proj2 (Z.eqb_neq (len b) 0)) by lia. cbn [orb].
    destruct (add_sorted r b a sb (xorb (sign a) sb) prec flags mode Hb Ha) as (r' & st & E & HR);
      [lia|intros; rewrite Z.min_comm; apply Hclt; lia|done|done|rewrite span_comm; unfold e in *; by rewrite (Z.max_r (expn a) (expn b)) in * by lia..|].
    exists r', st. split; [done|]. destruct HR as [HV|HM]; [left|by right].
    rewrite Z.min_comm in HV. fold u in HV. rewrite xorb_comm in HV.
    eapply (sum_signed mode prec u r' st sb (sign a) (mag b u) (mag a u)); try done; [|lia].
    intros _. lia.
  - destruct (xorb (sign a) sb) eqn:Esub.
    + destruct (Z.eqb_spec cmp 0) as [Hc0|Hc0]; cbn [andb].
      * rewrite (proj2 (Z.ltb_lt (expn a) _)) by lia. eexists _, _. split; [reflexivity|]. left. left.
        apply Hceq in Hc0. split; [|split; [done|split; [apply (rndd_flag flags mode (rf_mode _ _ Hf))|done]]].
        rewrite Hc0. destruct (sign a), sb; cbn [signed]; try done; lia.
      * rewrite (proj2 (Z.eqb_neq (len a) 0)), (proj2 (Z.eqb_neq (len b) 0)) by lia. cbn [orb].
        destruct (add_sorted r a b (sign a) true prec flags mode Ha Hb) as (r' & st & E & HR);
          [lia|intros; fold u; lia|done|done|unfold e in *; by rewrite (Z.max_l (expn a) (expn b)) in * by lia..|].
        exists r', st. split; [done|]. destruct HR as [HV|HM]; [left|by right]. fold u in HV.
        eapply (sum_signed mode prec u r' st (sign a) sb (mag a u) (mag b u)); try done; [lia|by rewrite Esub].
    + rewrite andb_false_r. cbn [andb].
      rewrite (proj2 (Z.eqb_neq (len a) 0)), (proj2 (Z.eqb_neq (len b) 0)) by lia. cbn [orb].
      destruct (add_sorted r a b (sign a) false prec flags mode Ha Hb) as (r' & st & E & HR);
        [lia|done|done|done|unfold e in *; by rewrite (Z.max_l (expn a) (expn b)) in * by lia..|].
      exists r', st. split; [done|]. destruct HR as [HV|HM]; [left|by right]. fold u in HV.
      eapply (sum_signed mode prec u r' st (sign a) sb (mag a u) (mag b u)); try done; [by rewrite Esub|by rewrite Esub].
Qed.

(** Adding zero rounds the other operand. A memory failure of [bf_set] is lost:
    the sum is then zero, without an error. *)
Definition sum_with_zero (mode : bf_rnd_t) (prec : Z) (s : bool) (a : bf_t) (res : option (bf_t * Z)) : Prop :=
  ∃ r' st, res = Some (r', st) ∧
    (correctly_rounded mode prec s (lval (tab a)) 1 (low_expn a) r' st ∨
     alloc (len a) = false ∧ r' = mkBf s BF_EXP_ZERO [] ∧ st = 0).

Lemma set_and_round r a s prec flags mode : normal a → round_flags flags mode → 1 <= prec →
  sizes_ok flags (expn a) (len a) →
  sum_with_zero mode prec s a
    (let '(r, _) := bf_set alloc junk r a in bf_normalize_and_round alloc junk (set_sign r s) prec flags).
Proof.
  intros Ha Hf Hp Hs. destruct (normal_nonempty a Ha) as (La & _ & Va). unfold bf_set, bf_resize.
  assert (sum_with_zero mode prec s a (bf_normalize_and_round alloc junk (set_sign a s) prec flags)) as Hok.
  { destruct (normalize_ratio alloc junk (set_sign a s) prec flags mode (lval (tab a)) 1) as (r' & st & E & HR);
      cbn [set_sign tab expn]; try done; [apply Ha|lia|left; lia|].
    exists r', st. split; [exact E|]. by left. }
  destruct (negb (len a =? len r)); [|exact Hok].
  destruct (alloc (len a)) eqn:El; cbn [negb andb]; [exact Hok|].
  rewrite (proj2 (Z.eqb_neq (len a) 0)) by lia. cbn [negb]. eexists _, _. split; [reflexivity|]. by right.
Qed.

Lemma add_zero_ok r a z b_neg prec flags mode : normal a → zero z → round_flags flags mode → 1 <= prec →
  sizes_ok flags (expn a) (len a) →
  sum_with_zero mode prec (sign a) a (bf_add_internal alloc junk r a z prec flags b_neg) ∧
  sum_with_zero mode prec (xorb (sign a) b_neg) a (bf_add_internal alloc junk r z a prec flags b_neg).
Proof.
  intros Ha [Hz Hz'] Hf Hp Hs. pose proof (fin_expn a Ha) as Ea. unfold bf_add_internal, bf_cmpu. rewrite Hz.
  rewrite (proj2 (Z.eqb_neq (expn a) BF_EXP_ZERO)), (proj2 (Z.eqb_neq BF_EXP_ZERO (expn a))) by lia.
  rewrite (proj2 (Z.ltb_ge (expn a) BF_EXP_ZERO)), (proj2 (Z.ltb_lt BF_EXP_ZERO (expn a))) by lia.
  assert (len z = 0) as Lz by (unfold len; by rewrite Hz').
  cbn [negb Z.ltb Z.eqb Z.compare andb]. rewrite Lz, orb_true_r.
  rewrite (proj2 (Z.leb_gt BF_EXP_INF (expn a))) by lia. split; by apply set_and_round.
Qed.

(** Products and quotients with zero. *)
Lemma zero_operand_ok fft_mul mp_divnorm_large alias r a z prec flags : normal a → zero z →
  bf_mul alloc junk fft_mul alias r a z prec flags = Some (mkBf (xorb (sign a) (sign z)) BF_EXP_ZERO [], 0) ∧
  bf_mul alloc junk fft_mul alias r z a prec flags = Some (mkBf (xorb (sign a) (sign z)) BF_EXP_ZERO [], 0) ∧
  bf_div alloc junk mp_divnorm_large alias r z a prec flags = Some (mkBf (xorb (sign a) (sign z)) BF_EXP_ZERO [], 0) ∧
  bf_div alloc junk mp_divnorm_large alias r a z prec flags =
    Some (mkBf (xorb (sign a) (sign z)) BF_EXP_INF [], BF_ST_DIVIDE_ZERO) ∧
  bf_div alloc junk mp_divnorm_large alias r z z prec flags = Some (mkBf false BF_EXP_NAN [], BF_ST_INVALID_OP).
Proof.
  intros Ha [Hz Hz']. pose proof (fin_expn a Ha) as Ea. destruct (normal_nonempty a Ha) as (La & _ & _).
  assert (len z = 0) as Lz by (unfold len; by rewrite Hz').
  assert ((expn a =? BF_EXP_NAN) = false ∧ (expn a =? BF_EXP_INF) = false ∧ (expn a =? BF_EXP_ZERO) = false ∧
    (BF_EXP_INF <=? expn a) = false) as (E1 & E2 & E3 & E4).
  { rewrite !Z.eqb_neq, Z.leb_gt. unfold BF_EXP_NAN, BF_EXP_INF, BF_EXP_ZERO in *. lia. }
  unfold bf_div, bf_op2, bf_mul, __bf_div. rewrite Lz, (proj2 (Z.ltb_ge (len a) 0)), (proj2 (Z.ltb_lt 0 (len a))) by lia.
  rewrite Lz, Hz, E1, E2, E3, E4.
  split; [done|]. split; [done|]. rewrite (xorb_comm (sign z)). by destruct alias.
Qed.

(** The result is as specified, or memory ran out. *)
Definition result_ok (P : bf_t → Z → Prop) (res : option (bf_t * Z)) : Prop :=
  ∃ r' st, res = Some (r', st) ∧ (P r' st ∨ (∃ l, alloc l = false) ∧ no_memory r' st).

(** C35: Addition, subtraction, multiplication and division of finite numbers
    other than zero return the exact result correctly rounded to a precision in
    bits (without [BF_FLAG_RADPNT_PREC]), in every rounding mode but the
    faithful one, with the inexact status exactly when it is not representable;
    a zero sum is negative only when rounding down. When an allocation is
    refused the result is NaN with the memory error. This holds up to the sizes
    from which the Fourier multiplication and the subquadratic division take
    over, while exponents stay away from the ends of their range. With an
    operand [z] that is zero: a sum is the other operand rounded (or, when an
    allocation is refused, zero without an error), products and zero divided by
    a number are zero, a number divided by zero is infinity with the status of
    division by zero, and zero by zero is NaN with the invalid one. *)
Theorem bf_arith_correct fft_mul mp_divnorm_large alias r a b z prec flags mode :
  let u := Z.min (low_expn a) (low_expn b) in
  let e := Z.max (expn a) (expn b) in
  let n := Z.max (len a) (prec_limbs prec) in
  let s := xorb (sign a) (sign z) in
  normal a → normal b → zero z → round_flags flags mode → 1 <= prec →
  Z.min (len a) (len b) < FFT_MUL_THRESHOLD → Z.min n (len b) < DIVNORM_LARGE_THRESHOLD →
  sizes_ok flags e (span a b) → sizes_ok flags (e + 64) (span a b + 1) → sizes_ok flags (expn a) (len a) →
  sizes_ok flags (expn a + expn b) (len a + len b) → sizes_ok flags (expn a - expn b + 64) (n + 1) →
  result_ok (sum_correct mode prec (exact_sum a b false u) u) (bf_add alloc junk alias r a b prec flags) ∧
  result_ok (sum_correct mode prec (exact_sum a b true u) u) (bf_sub alloc junk alias r a b prec flags) ∧
  result_ok (correctly_rounded mode prec (xorb (sign a) (sign b)) (lval (tab a) * lval (tab b)) 1
               (low_expn a + low_expn b))
    (bf_mul alloc junk fft_mul alias r a b prec flags) ∧
  result_ok (correctly_rounded mode prec (xorb (sign a) (sign b)) (lval (tab a)) (lval (tab b))
               (low_expn a - low_expn b))
    (bf_div alloc junk mp_divnorm_large alias r a b prec flags) ∧
  (sum_with_zero mode prec (sign a) a (bf_add alloc junk alias r a z prec flags) ∧
   sum_with_zero mode prec (sign a) a (bf_add alloc junk alias r z a prec flags) ∧
   sum_with_zero mode prec (sign a) a (bf_sub alloc junk alias r a z prec flags) ∧
   sum_with_zero mode prec (negb (sign a)) a (bf_sub alloc junk alias r z a prec flags)) ∧
  (bf_mul alloc junk fft_mul alias r a z prec flags = Some (mkBf s BF_EXP_ZERO [], 0) ∧
   bf_mul alloc junk fft_mul alias r z a prec flags = Some (mkBf s BF_EXP_ZERO [], 0) ∧
   bf_div alloc junk mp_divnorm_large alias r z a prec flags = Some (mkBf s BF_EXP_ZERO [], 0) ∧
   bf_div alloc junk mp_divnorm_large alias r a z prec flags = Some (mkBf s BF_EXP_INF [], BF_ST_DIVIDE_ZERO) ∧
   bf_div alloc junk mp_divnorm_large alias r z z prec flags = Some (mkBf false BF_EXP_NAN [], BF_ST_INVALID_OP)).
Proof.
  intros u e n s Ha Hb Hz Hf Hp H1 H2 H3 H4 H4' H5 H6.
  split; [unfold bf_add, bf_op2; by destruct alias; apply add_internal_ok|].
  split; [unfold bf_sub, bf_op2; by destruct alias; apply add_internal_ok|]. split; [|split; [|split]].
  - destruct (mul_ok alloc junk fft_mul alias r a b prec flags mode) as (r' & st & E & [HR|[Hl HR]]); try done;
      exists r', st; (split; [done|]); [left|right; split; [by eexists|done]]. unfold low_expn.
    by replace (expn a - 64 * len a + (expn b - 64 * len b)) with (expn a + expn b - 64 * (len a + len b)) by lia.
  - assert (∀ r0, result_ok (correctly_rounded mode prec (xorb (sign a) (sign b)) (lval (tab a)) (lval (tab b))
               (low_expn a - low_expn b)) (__bf_div alloc junk mp_divnorm_large r0 a b prec flags)) as Hdiv.
    { intros r0. destruct (div_ok alloc junk mp_divnorm_large r0 a b prec flags mode)
        as (r' & st & E & [HR|[[Hl|Hl] HR]]); try done; exists r', st; (split; [done|]);
        [by left|right; split; [by eexists|done]..]. }
    unfold bf_div, bf_op2. destruct alias; apply Hdiv.
  - pose proof (λ r0, add_zero_ok r0 a z false prec flags mode Ha Hz Hf Hp H4') as Hp0. rewrite xorb_false_r in Hp0.
    pose proof (λ r0, add_zero_ok r0 a z true prec flags mode Ha Hz Hf Hp H4') as Hm0. rewrite xorb_true_r in Hm0.
    unfold bf_add, bf_sub, bf_op2. destruct alias; (split; [apply Hp0|split; [apply Hp0|split; [apply Hm0|apply Hm0]]]).
  - by apply zero_operand_ok.
Qed.

End AddOk.

(** -1 and 3, to 53 bits rounded down: for example their quotient. *)
Lemma bf_arith_correct_witness :
  let a := mkBf true 1 [2 ^ 63] in
  let b := mkBf false 2 [3 * 2 ^ 62] in
  let div := bf_div (λ _, true) (λ _, 0) (λ _ _ _, None) false bf_init a b 53 2 in
  bf_add (λ _, true) (λ _, 0) false bf_init a b 53 2 = Some (mkBf false 2 [2 ^ 63], 0) ∧
  bf_mul (λ _, true) (λ _, 0) (λ _ _, None) false bf_init a b 53 2 = Some (mkBf true 2 [3 * 2 ^ 62], 0) ∧
  (∃ r', div = Some (r', BF_ST_INEXACT)) ∧
  result_ok (λ _, true) (correctly_rounded BF_RNDD 53 true (2 ^ 63) (3 * 2 ^ 62) (- 1)) div.
Proof.
  cbn zeta. split; [vm_compute; reflexivity|]. split; [vm_compute; reflexivity|].
  split; [eexists; vm_compute; reflexivity|].
  apply (bf_arith_correct (λ _, true) (λ _, 0) (λ _ _, None) (λ _ _ _, None) false bf_init
    (mkBf true 1 [2 ^ 63]) (mkBf false 2 [3 * 2 ^ 62]) bf_init 53 2 BF_RNDD).
  - constructor; [split; reflexivity|repeat constructor; vm_compute; congruence| |reflexivity].
    exists [], (2 ^ 63). split; [reflexivity|]. split; vm_compute; congruence.
  - constructor; [split; reflexivity|repeat constructor; vm_compute; congruence| |reflexivity].
    exists [], (3 * 2 ^ 62). split; [reflexivity|]. split; vm_compute; congruence.
  - split; reflexivity.
  - constructor; [reflexivity|congruence|reflexivity].
  - lia.
  - reflexivity.
  - reflexivity.
  - repeat split; vm_compute; congruence.
  - repeat split; vm_compute; congruence.
  - repeat split; vm_compute; congruence.
  - repeat split; vm_compute; congruence.
  - repeat split; vm_compute; congruence.
Defined.

End LibbfAdd.
