(* ===== verification/JsString.v ===== *)
(** * String buffers of the interpreter ([quickjs/quickjs.c])

    Strings of 8-bit or 16-bit characters and the buffer they are built in,
    which widens itself, in place, when a character above 0xff comes. The
    buffer is an array of bytes. The buffer refines the list of the characters
    that were appended. *)
From stdpp Require Import list.
From S2P Require Import Prelude.

Module JsString.
Local Open Scope cint_scope.

Definition JS_STRING_LEN_MAX : Z := (1 << 30) - 1.

(** A string: [str8] or [str16]. *)
Record JSString : Set := mkStr {
  str_wide : bool;
  chars : list Z
}.

(** [str] is the character array of the block, of the size that the allocator
    made usable; [None] stands for NULL. *)
Record StringBuffer : Set := mkSB {
  str : option (list Z);
  len : Z;
  size : Z;
  is_wide_char : bool;
  error_status : bool
}.

(** ** Access as 8-bit and 16-bit characters *)

Definition store8 (t : list Z) (i c : Z) : option (list Z) := aset t i (u8 c).

Definition store16 (t : list Z) (i c : Z) : option (list Z) :=
  t ← aset t (2 * i) (u8 c);
  aset t (2 * i + 1) (u8 (c >> 8)).

Definition load16 (t : list Z) (i : Z) : option Z :=
  lo ← aget t (2 * i);
  hi ← aget t (2 * i + 1);
  Some (lo + 256 * hi).

Definition store (wide : bool) (t : list Z) (i c : Z) : option (list Z) :=
  if wide then store16 t i c else store8 t i c.

(** A loop that stores characters from index [i] on. *)
Fixpoint store_all (wide : bool) (t : list Z) (i : Z) (p : list Z) : option (list Z) :=
  match p with
  | [] => Some t
  | c :: p => t ← store wide t i c; store_all wide t (i + 1) p
  end.

(** The widening loop, from [i - 1] down to 0. *)
Fixpoint widen_loop (i : nat) (t : list Z) : option (list Z) :=
  match i with
  | O => Some t
  | S i => c ← aget t (Z.of_nat i); t ← store16 t (Z.of_nat i) c; widen_loop i t
  end.

Fixpoint load_all (wide : bool) (t : list Z) (n : nat) : option (list Z) :=
  match n with
  | O => Some []
  | S n =>
      p ← load_all wide t n;
      c ← (if wide then load16 t (Z.of_nat n) else aget t (Z.of_nat n));
      Some (p ++ [c])
  end.

Section Buffer.
(** [realloc old n] is a block of at least [n] usable bytes, if there is one. *)
Context (realloc : list Z → Z → option (list Z)).

(** The bytes of characters, with the terminator of 8-bit strings. *)
Definition str_bytes (n : Z) (wide : bool) : Z := (n << Z.b2z wide) + 1 - Z.b2z wide.

Definition js_alloc_string (max_len : Z) (wide : bool) : option (list Z) :=
  realloc [] (str_bytes max_len wide).

(** The block and the slack. *)
Definition js_realloc2 (t : list Z) (n : Z) : option (list Z * Z) :=
  ret ← realloc t n;
  Some (ret, if n <? zlen ret then zlen ret - n else 0).

Definition string_buffer_init2 (sz : Z) (wide : bool) : StringBuffer * Z :=
  match js_alloc_string sz wide with
  | None => (mkSB None 0 0 wide true, -1)
  | Some t => (mkSB (Some t) 0 sz wide false, 0)
  end.

Definition string_buffer_init (sz : Z) : StringBuffer * Z := string_buffer_init2 sz false.

Definition string_buffer_set_error (s : StringBuffer) : StringBuffer * Z :=
  (mkSB None 0 0 (is_wide_char s) true, -1).

Definition string_buffer_widen (s : StringBuffer) (sz : Z) : option (StringBuffer * Z) :=
  if error_status s then Some (s, -1)
  else
    t ← str s;
    match js_realloc2 t (sz << 1) with
    | None => Some (string_buffer_set_error s)
    | Some (t, slack) =>
        t ← widen_loop (Z.to_nat (len s)) t;
        Some (mkSB (Some t) (len s) (sz + (slack >> 1)) true (error_status s), 0)
    end.

(** [None] when [size * 3] overflows. *)
Definition string_buffer_realloc (s : StringBuffer) (new_len c : Z) : option (StringBuffer * Z) :=
  if error_status s then Some (s, -1)
  else if JS_STRING_LEN_MAX <? new_len then Some (string_buffer_set_error s)
  else if 2 ^ 31 <=? size s * 3 then None
  else
    let new_size := Z.min (Z.max new_len (size s * 3 / 2)) JS_STRING_LEN_MAX in
    if negb (is_wide_char s) && (0x100 <=? c) then string_buffer_widen s new_size
    else
      t ← str s;
      match js_realloc2 t (str_bytes new_size (is_wide_char s)) with
      | None => Some (string_buffer_set_error s)
      | Some (t, slack) =>
          let new_size := Z.min (new_size + (slack >> Z.b2z (is_wide_char s))) JS_STRING_LEN_MAX in
          Some (mkSB (Some t) (len s) new_size (is_wide_char s) (error_status s), 0)
      end.

(** Storing a character at the end. *)
Definition push (s : StringBuffer) (c : Z) : option (StringBuffer * Z) :=
  t ← str s;
  t ← store (is_wide_char s) t (len s) c;
  Some (mkSB (Some t) (len s + 1) (size s) (is_wide_char s) (error_status s), 0).

Definition string_buffer_putc_slow (s : StringBuffer) (c : Z) : option (StringBuffer * Z) :=
  '(s, ret) ← (if size s <=? len s then string_buffer_realloc s (len s + 1) c else Some (s, 0));
  if negb (ret =? 0) then Some (s, -1)
  else if is_wide_char s then push s c
  else if c <? 0x100 then push s c
  else
    '(s, ret) ← string_buffer_widen s (size s);
    if negb (ret =? 0) then Some (s, -1) else push s c.

Definition string_buffer_putc8 (s : StringBuffer) (c : Z) : option (StringBuffer * Z) :=
  '(s, ret) ← (if size s <=? len s then string_buffer_realloc s (len s + 1) c else Some (s, 0));
  if negb (ret =? 0) then Some (s, -1) else push s c.

Definition string_buffer_putc16 (s : StringBuffer) (c : Z) : option (StringBuffer * Z) :=
  if (len s <? size s) && (is_wide_char s || (c <? 0x100)) then push s c
  else string_buffer_putc_slow s c.

Definition string_buffer_putc (s : StringBuffer) (c : Z) : option (StringBuffer * Z) :=
  if 0x10000 <=? c then
    let c := c - 0x10000 in
    '(s, ret) ← string_buffer_putc16 s ((c >> 10) + 0xd800);
    if negb (ret =? 0) then Some (s, -1)
    else string_buffer_putc16 s ((c .& 0x3ff) + 0xdc00)
  else string_buffer_putc16 s c.

(** Storing characters at the end; nothing is accessed when there are none. *)
Definition append (s : StringBuffer) (p : list Z) : option (StringBuffer * Z) :=
  match p with
  | [] => Some (s, 0)
  | _ =>
      t ← str s;
      t ← store_all (is_wide_char s) t (len s) p;
      Some (mkSB (Some t) (len s + zlen p) (size s) (is_wide_char s) (error_status s), 0)
  end.

Definition string_buffer_write8 (s : StringBuffer) (p : list Z) : option (StringBuffer * Z) :=
  '(s, ret) ← (if size s <? len s + zlen p then string_buffer_realloc s (len s + zlen p) 0 else Some (s, 0));
  if negb (ret =? 0) then Some (s, -1) else append s p.

Definition string_buffer_write16 (s : StringBuffer) (p : list Z) : option (StringBuffer * Z) :=
  let c := foldl Z.lor 0 p in
  '(s, ret) ← (if size s <? len s + zlen p then string_buffer_realloc s (len s + zlen p) c
               else if negb (is_wide_char s) && (0x100 <=? c) then string_buffer_widen s (size s)
               else Some (s, 0));
  if negb (ret =? 0) then Some (s, -1) else append s p.

Definition string_buffer_concat (s : StringBuffer) (p : JSString) (from to : Z) : option (StringBuffer * Z) :=
  if to <=? from then Some (s, 0)
  else
    part ← slice (chars p) from (to - from);
    if str_wide p then string_buffer_write16 s part else string_buffer_write8 s part.

Fixpoint fill_loop (s : StringBuffer) (c : Z) (count : nat) : option (StringBuffer * Z) :=
  match count with
  | O => Some (s, 0)
  | S count =>
      '(s, ret) ← string_buffer_putc16 s c;
      if negb (ret =? 0) then Some (s, -1) else fill_loop s c count
  end.

Definition string_buffer_fill (s : StringBuffer) (c count : Z) : option (StringBuffer * Z) :=
  '(s, ret) ← (if size s <? len s + count then string_buffer_realloc s (len s + count) c else Some (s, 0));
  if negb (ret =? 0) then Some (s, -1) else fill_loop s c (Z.to_nat count).

(** The string, or [None], an exception. *)
Definition string_buffer_end (s : StringBuffer) : option (option JSString) :=
  if error_status s then Some None
  else if len s =? 0 then Some (Some (mkStr false []))
  else
    t ← str s;
    let t := if len s <? size s
             then default t (realloc t (str_bytes (len s) (is_wide_char s))) else t in
    t ← (if negb (is_wide_char s) then store8 t (len s) 0 else Some t);
    p ← load_all (is_wide_char s) t (Z.to_nat (len s));
    Some (Some (mkStr (is_wide_char s) p)).

End Buffer.

(** ** The characters in the array *)

(** The bytes of characters, the low byte of a 16-bit one first. *)
Definition enc (wide : bool) (l : list Z) : list Z :=
  if wide then l ≫= λ c, [u8 c; u8 (c >> 8)] else l.

Definition width (wide : bool) : nat := if wide then 2 else 1.

(** A character of an 8-bit or 16-bit string. *)
Definition is_char (wide : bool) (c : Z) : Prop := if wide then is_u16 c else is_u8 c.

Lemma enc_app wide l k : enc wide (l ++ k) = enc wide l ++ enc wide k.
Proof. destruct wide; [apply bind_app|done]. Qed.

Lemma enc_length wide l : length (enc wide l) = (width wide * length l)%nat.
Proof. destruct wide; cbn [enc width]; [|lia]. induction l as [|c l IH]; [done|]. rewrite bind_cons, length_app, IH. cbn. lia. Qed.

Lemma is_char_widen wide c : is_u8 c → is_char wide c.
Proof. unfold is_char, is_u8, is_u16. destruct wide; lia. Qed.

Lemma u16_bytes c : is_u16 c → u8 c + 256 * u8 (c >> 8) = c.
Proof.
  unfold is_u16, u8. intros Hc. rewrite Z.shiftr_div_pow2 by lia.
  rewrite (Z.mod_small (c / 2 ^ 8)) by (split; [apply Z.div_pos; lia|apply Z.div_lt_upper_bound; lia]).
  pose proof (Z.div_mod c (2 ^ 8) ltac:(lia)). lia.
Qed.

(** Updates and reads in the middle of an array. *)
Lemma byte_set_at {A} (pre post : list A) x y i : i = zlen pre → aset (pre ++ x :: post) i y = Some (pre ++ y :: post).
Proof.
  intros ->. rewrite aset_Some by (rewrite length_app; cbn; lia). f_equal.
  by rewrite Nat2Z.id, insert_app_r_alt, Nat.sub_diag by lia.
Qed.

Lemma byte_get_at {A} (pre post : list A) x i : i = zlen pre → aget (pre ++ x :: post) i = Some x.
Proof.
  intros ->. unfold aget. rewrite (proj2 (Z.leb_le _ _)) by lia. by rewrite Nat2Z.id, lookup_app_r, Nat.sub_diag by lia.
Qed.

Lemma store16_at pre x y post i c : 2 * i = zlen pre →
  store16 (pre ++ x :: y :: post) i c = Some (pre ++ u8 c :: u8 (c >> 8) :: post).
Proof.
  intros Hi. unfold store16. rewrite byte_set_at by done. cbn [mbind option_bind].
  replace (pre ++ u8 c :: y :: post) with ((pre ++ [u8 c]) ++ y :: post) by (by rewrite <- app_assoc).
  rewrite byte_set_at by (rewrite length_app; cbn; lia). by rewrite <- app_assoc.
Qed.

(** Room for one character. *)
Lemma room wide (rest : list Z) : (width wide <= length rest)%nat →
  ∃ old rest', rest = old ++ rest' ∧ length old = width wide ∧
    ∀ pre i c, is_char wide c → i * Z.of_nat (width wide) = zlen pre →
      store wide (pre ++ rest) i c = Some (pre ++ enc wide [c] ++ rest').
Proof.
  intros Hr. destruct wide; cbn [width] in *.
  - destruct rest as [|x [|y rest]]; [cbn in Hr; lia..|]. exists [x; y], rest. split_and!; [done|done|].
    intros pre i c Hc Hi. cbn [store]. rewrite store16_at by lia. done.
  - destruct rest as [|x rest]; [cbn in Hr; lia|]. exists [x], rest. split_and!; [done|done|].
    intros pre i c Hc Hi. cbn [store]. unfold store8. rewrite byte_set_at by lia. by rewrite u8_id.
Qed.

Lemma store_all_ok wide p pre rest i : Forall (is_char wide) p → i * Z.of_nat (width wide) = zlen pre →
  (width wide * length p <= length rest)%nat →
  ∃ rest', store_all wide (pre ++ rest) i p = Some (pre ++ enc wide p ++ rest') ∧
    length rest = (width wide * length p + length rest')%nat.
Proof.
  intros Hp. revert pre rest i. induction Hp as [|c p Hc Hp IH]; intros pre rest i Hi Hr; cbn [store_all].
  - exists rest. destruct wide; split; try done; cbn; lia.
  - destruct (room wide rest) as (old & rest1 & -> & Hold & Hst); [cbn in Hr; destruct wide; cbn in *; lia|].
    rewrite Hst by done. cbn [mbind option_bind]. rewrite app_assoc.
    rewrite length_app in Hr. cbn [length] in Hr.
    destruct (IH (pre ++ enc wide [c]) rest1 (i + 1)) as (rest' & -> & Hl);
      [rewrite length_app, enc_length; cbn [length]; destruct wide; cbn in *; lia|destruct wide; cbn in *; lia|].
    exists rest'. split; [|rewrite length_app; cbn [length]; destruct wide; cbn in *; lia].
    replace (c :: p) with ([c] ++ p) by done. by rewrite enc_app, <- !app_assoc.
Qed.

(** The widening loop works in place: each character is read before its bytes
    are overwritten. *)
Lemma widen_loop_ok l i mid rest : Forall is_u8 l → (i <= length l)%nat → length mid = i →
  ∃ t, widen_loop i (take i l ++ mid ++ enc true (drop i l) ++ rest) = Some t ∧ t = enc true l ++ rest.
Proof.
  intros Hl. revert mid. induction i as [|i IH]; intros mid Hi Hm; cbn [widen_loop].
  - destruct mid; [|done]. eexists. split; [reflexivity|done].
  - destruct (lookup_lt_is_Some_2 l i) as [c Hc]; [lia|].
    assert (is_u8 c) as Hu by (eapply Forall_lookup_1; done).
    rewrite (take_S_r _ _ _ Hc).
    set (R := (take i l ++ [c]) ++ mid).
    assert (length R = 2 * i + 2)%nat as HR by (unfold R; rewrite !length_app, length_take; cbn; lia).
    assert (∃ R' x y, R = R' ++ [x; y] ∧ length R' = (2 * i)%nat) as (R' & x & y & ER & HR').
    { exists (take (2 * i) R). destruct (drop (2 * i) R) as [|x [|y [|? ?]]] eqn:Ed;
        apply (f_equal length) in Ed as Edl; rewrite length_drop in Edl; cbn in Edl; try lia.
      exists x, y. rewrite <- Ed, take_drop. split; [done|]. rewrite length_take. lia. }
    assert (take i R' = take i l) as Et.
    { transitivity (take i R).
      - rewrite ER, take_app_le by lia. done.
      - unfold R. rewrite <- app_assoc, take_app_le by (rewrite length_take; lia). rewrite take_take. f_equal. lia. }
    rewrite (app_assoc (take i l ++ [c]) mid). fold R.
    assert (aget (R ++ enc true (drop (S i) l) ++ rest) (Z.of_nat i) = Some c) as ->.
    { unfold R. rewrite <- !app_assoc. cbn [app]. apply byte_get_at. rewrite length_take. lia. }
    cbn [mbind option_bind]. rewrite ER, <- !app_assoc. cbn [app].
    rewrite store16_at by lia. cbn [mbind option_bind].
    destruct (IH (drop i R')) as (t & Eq & Et'); [lia|rewrite length_drop; lia|].
    exists t. split; [|done]. rewrite <- Eq. f_equal. rewrite <- Et.
    rewrite (app_assoc (take i R')), take_drop. rewrite (drop_S _ _ _ Hc). done.
Qed.

Lemma load_all_ok wide l rest : Forall (is_char wide) l → load_all wide (enc wide l ++ rest) (length l) = Some l.
Proof.
  revert rest. induction l as [|c l IH] using rev_ind; intros rest Hl; [done|].
  apply Forall_app in Hl as [Hl Hc]. apply Forall_inv in Hc.
  rewrite length_app, Nat.add_1_r. cbn [load_all]. rewrite enc_app, <- app_assoc, IH by done. cbn [mbind option_bind].
  pose proof (enc_length wide l) as Hlen. destruct wide; cbn [width enc] in *.
  - change ([c] ≫= λ c0 : Z, [u8 c0; u8 (c0 >> 8)]) with [u8 c; u8 (c >> 8)]. cbn [app].
    unfold load16. rewrite (byte_get_at _ _ _ (2 * zlen l)) by lia. cbn [mbind option_bind].
    match goal with |- context [aget (?a ++ ?x :: ?y :: ?z) _] => replace (a ++ x :: y :: z) with ((a ++ [x]) ++ y :: z) by (by rewrite <- app_assoc) end.
    rewrite byte_get_at by (rewrite length_app; cbn; lia). cbn [mbind option_bind]. by rewrite u16_bytes.
  - cbn [app]. rewrite byte_get_at by done. done.
Qed.

(** ** The buffer refines a list of characters *)

(** What is assumed of the allocator: blocks keep their bytes and are not much
    larger than asked for. *)
Record realloc_ok (f : list Z → Z → option (list Z)) : Prop := {
  ra_size : ∀ old n new, f old n = Some new → n <= zlen new <= n + 2 ^ 26;
  ra_keep : ∀ old n new m, f old n = Some new → (m <= length old)%nat → Z.of_nat m <= n → take m new = take m old
}.

(** The longest string for which [size * 3] is known not to overflow. *)
Definition LEN_OK : Z := 2 ^ 28.

Record sb_ok (s : StringBuffer) (l : list Z) : Prop := {
  ok_error : error_status s = false;
  ok_len : len s = zlen l;
  ok_size : len s <= size s <= (if is_wide_char s then 2 ^ 29 else 2 ^ 29 - 2 ^ 26);
  ok_chars : Forall (is_char (is_wide_char s)) l;
  ok_str : ∃ rest, str s = Some (enc (is_wide_char s) l ++ rest) ∧
             str_bytes (size s) (is_wide_char s) <= zlen (enc (is_wide_char s) l ++ rest)
}.

(** The allocator refuses a block of at most 1 GiB. *)
Definition refused (f : list Z → Z → option (list Z)) : Prop := ∃ old n, n <= 2 ^ 30 ∧ f old n = None.

Definition sb_error (f : list Z → Z → option (list Z)) (s : StringBuffer) : Prop :=
  error_status s = true ∧ len s = 0 ∧ size s = 0 ∧ refused f.

(** What an operation that appends [u] does. *)
Definition appends f (u l : list Z) (res : option (StringBuffer * Z)) : Prop :=
  ∃ s ret, res = Some (s, ret) ∧ (sb_error f s ∧ ret ≠ 0 ∨ sb_ok s (l ++ u) ∧ ret = 0).

Lemma str_bytes_eq n wide : str_bytes n wide = if wide then 2 * n else n + 1.
Proof. unfold str_bytes. destruct wide; cbn [Z.b2z]; rewrite Z.shiftl_mul_pow2 by lia; lia. Qed.

Section Refines.
Context (f : list Z → Z → option (list Z)) (Hf : realloc_ok f).

Lemma realloc2_ok old n new slack : 0 <= n → js_realloc2 f old n = Some (new, slack) →
  zlen new = n + slack ∧ 0 <= slack <= 2 ^ 26 ∧ (∀ m, (m <= length old)%nat → Z.of_nat m <= n → take m new = take m old).
Proof using Hf.
  intros Hn. unfold js_realloc2. destruct (f old n) as [t|] eqn:E; cbn [mbind option_bind]; [|done].
  intros [= <- <-]. pose proof (ra_size f Hf _ _ _ E). split; [destruct (Z.ltb_spec n (zlen t)); lia|].
  split; [destruct (Z.ltb_spec n (zlen t)); lia|]. intros m Hm Hmn. by eapply ra_keep.
Qed.

Lemma realloc2_none s old n : n <= 2 ^ 30 → js_realloc2 f old n = None → sb_error f (fst (string_buffer_set_error s)).
Proof.
  unfold js_realloc2. destruct (f old n) eqn:E; [done|]. intros Hn _. split_and!; try done. by exists old, n.
Qed.

(** A reallocated block still holds the characters. *)
Lemma keep_enc (new e rest : list Z) n : (∀ m, (m <= length (e ++ rest))%nat → Z.of_nat m <= n → take m new = take m (e ++ rest)) →
  zlen e <= n → ∃ rest', new = e ++ rest'.
Proof.
  intros Hk Hn. exists (drop (length e) new). specialize (Hk (length e)).
  rewrite take_app_length in Hk. rewrite <- (Hk ltac:(rewrite length_app; lia) Hn) at 1. by rewrite take_drop.
Qed.

Lemma widen_ok s l sz : sb_ok s l → is_wide_char s = false → len s <= sz <= 2 ^ 29 - 2 ^ 26 →
  ∃ s' ret, string_buffer_widen f s sz = Some (s', ret) ∧
    (sb_error f s' ∧ ret ≠ 0 ∨ sb_ok s' l ∧ ret = 0 ∧ is_wide_char s' = true ∧ sz <= size s').
Proof using Hf.
  intros [He Hl Hs Hc (rest & Es & Hb)] Hw Hsz. unfold string_buffer_widen. rewrite He, Es. cbn [mbind option_bind].
  rewrite Hw in *. cbn [enc] in *. rewrite Z.shiftl_mul_pow2 by lia. change (2 ^ 1) with 2.
  destruct (js_realloc2 f (l ++ rest) (sz * 2)) as [[new slack]|] eqn:Er.
  2: { eexists _, _. split; [reflexivity|]. left. split; [refine (realloc2_none s _ _ _ Er); lia|lia]. }
  apply realloc2_ok in Er as (Hlen & Hsl & Hk); [|lia].
  destruct (keep_enc new l rest (sz * 2) Hk) as [rest' ->]; [lia|]. rewrite length_app in Hlen.
  destruct (widen_loop_ok l (length l) (take (length l) rest') (drop (length l) rest')) as (t & Ew & ->);
    [done|lia|rewrite length_take; lia|].
  rewrite firstn_all, drop_all in Ew. cbn [enc] in Ew. change (([] : list Z) ≫= λ c : Z, [u8 c; u8 (c >> 8)]) with (@nil Z) in Ew.
  cbn [app] in Ew. rewrite take_drop in Ew. rewrite Hl, Nat2Z.id, Ew. cbn [mbind option_bind].
  eexists _, _. split; [reflexivity|]. right. rewrite (Z.shiftr_div_pow2 slack 1) by lia. change (2 ^ 1) with 2.
  pose proof (Z.div_mod slack 2 ltac:(lia)). pose proof (Z.mod_pos_bound slack 2 ltac:(lia)).
  split; [|split; [done|split; [done|cbn; lia]]].
  constructor; cbn [error_status len size is_wide_char str]; [done|done|lia| |].
  - eapply Forall_impl; [exact Hc|]. intros c. apply (is_char_widen true).
  - exists (drop (length l) rest'). split; [done|]. rewrite str_bytes_eq, length_app, enc_length, length_drop. cbn [width]. lia.
Qed.

Lemma realloc_buffer_ok s l new_len c : sb_ok s l → size s < new_len <= LEN_OK →
  ∃ s' ret, string_buffer_realloc f s new_len c = Some (s', ret) ∧
    (sb_error f s' ∧ ret ≠ 0 ∨ sb_ok s' l ∧ ret = 0 ∧ new_len <= size s' ∧ is_wide_char s' = (is_wide_char s || (0x100 <=? c))).
Proof using Hf.
  intros Hok Hn. pose proof Hok as [He Hl Hs Hc (rest & Es & Hb)]. unfold string_buffer_realloc, LEN_OK in *.
  change JS_STRING_LEN_MAX with (2 ^ 30 - 1).
  rewrite He. rewrite (proj2 (Z.ltb_ge _ new_len)), (proj2 (Z.leb_gt _ (size s * 3))) by lia.
  pose proof (Z.div_mod (size s * 3) 2 ltac:(lia)). pose proof (Z.mod_pos_bound (size s * 3) 2 ltac:(lia)).
  rewrite Z.min_l by lia. set (ns := Z.max new_len (size s * 3 / 2)).
  assert (new_len <= ns <= 2 ^ 29 - 2 ^ 26 - 2 ^ 26) as Hns by (unfold ns; lia).
  destruct (negb (is_wide_char s) && (0x100 <=? c)) eqn:Ew.
  - apply andb_true_iff in Ew as [Ew Ec]. apply negb_true_iff in Ew.
    destruct (widen_ok s l ns Hok Ew) as (s' & ret & E & R); [lia|]. exists s', ret. split; [done|].
    rewrite Ew, Ec. cbn [orb]. destruct R as [R|(R1 & R2 & R3 & R4)]; [by left|right]. split_and!; [done|done|lia|done].
  - rewrite Es. cbn [mbind option_bind]. rewrite str_bytes_eq in Hb |- *.
    assert (is_wide_char s = (is_wide_char s || (0x100 <=? c))) as Eor.
    { destruct (is_wide_char s); [done|]. cbn [negb andb orb] in *. done. }
    destruct (js_realloc2 f _ _) as [[new slack]|] eqn:Er.
    2: { eexists _, _. split; [reflexivity|]. left. split; [refine (realloc2_none s _ _ _ Er); destruct (is_wide_char s); lia|lia]. }
    apply realloc2_ok in Er as (Hlen & Hsl & Hk); [|destruct (is_wide_char s); lia].
    destruct (keep_enc new (enc (is_wide_char s) l) rest (if is_wide_char s then 2 * ns else ns + 1) Hk) as [rest' ->];
      [rewrite enc_length; destruct (is_wide_char s); cbn [width]; lia|].
    eexists _, _. split; [reflexivity|]. right.
    assert (0 <= slack >> Z.b2z (is_wide_char s) ∧ (slack >> Z.b2z (is_wide_char s)) * Z.of_nat (width (is_wide_char s)) <= slack) as Hsh.
    { destruct (is_wide_char s); cbn [Z.b2z width]; [|rewrite Z.shiftr_0_r; lia].
      rewrite Z.shiftr_div_pow2 by lia. change (2 ^ 1) with 2.
      pose proof (Z.div_mod slack 2 ltac:(lia)). pose proof (Z.mod_pos_bound slack 2 ltac:(lia)). lia. }
    set (sh := slack >> _) in *.
    assert (sh <= 2 ^ 26) by (destruct (is_wide_char s); cbn [width] in *; lia). rewrite Z.min_l by lia.
    split; [|split; [done|split; [cbn [size]; lia|exact Eor]]].
    constructor; cbn [error_status len size is_wide_char str]; [done|done|destruct (is_wide_char s); lia|done|].
    exists rest'. split; [done|]. rewrite str_bytes_eq, Hlen. destruct (is_wide_char s); cbn [width] in *; lia.
Qed.

(** *** The operations *)

Lemma sb_append_ok s l p : sb_ok s l → Forall (is_char (is_wide_char s)) p → len s + zlen p <= size s →
  appends f p l (append s p).
Proof.
  intros [He Hl Hs Hc (rest & Es & Hb)] Hp Hlen. unfold append.
  destruct p as [|c p]; [eexists _, _; split; [reflexivity|right]; rewrite app_nil_r; split; [|done]; constructor; eauto|].
  set (q := c :: p) in *. clearbody q. rewrite Es. cbn [mbind option_bind].
  rewrite str_bytes_eq, length_app, enc_length in Hb.
  destruct (store_all_ok (is_wide_char s) q (enc (is_wide_char s) l) rest (len s)) as (rest' & E & Hr);
    [done|rewrite enc_length, Hl; lia|destruct (is_wide_char s); cbn [width] in *; lia|].
  rewrite E. cbn [mbind option_bind]. eexists _, _. split; [reflexivity|right]. split; [|done].
  constructor; cbn [error_status len size is_wide_char str]; [done|rewrite length_app; lia|lia|by apply Forall_app|].
  exists rest'. rewrite enc_app, <- app_assoc. split; [done|].
  rewrite str_bytes_eq, !length_app, !enc_length. destruct (is_wide_char s); cbn [width] in *; lia.
Qed.

Lemma sb_push_ok s l c : sb_ok s l → is_char (is_wide_char s) c → len s < size s → appends f [c] l (push s c).
Proof.
  intros Hok Hc Hl. assert (push s c = append s [c]) as ->.
  { unfold push, append. destruct (str s) as [t|]; [|done]. cbn [mbind option_bind store_all].
    by destruct (store _ _ _ _). }
  apply sb_append_ok; [done|by constructor|cbn; lia].
Qed.

(** After making room: an error, or the buffer with room and wide enough. *)
Lemma room_then (u l : list Z) res (k : StringBuffer → option (StringBuffer * Z)) :
  (∃ s' ret, res = Some (s', ret) ∧ (sb_error f s' ∧ ret ≠ 0 ∨ ret = 0 ∧ appends f u l (k s'))) →
  appends f u l ('(s, ret) ← res; if negb (ret =? 0) then Some (s, -1) else k s).
Proof.
  intros (s' & ret & -> & [[He Hr]|[-> Hk]]); cbn [mbind option_bind].
  - rewrite (proj2 (Z.eqb_neq ret 0)) by done. eexists _, _. split; [reflexivity|]. left. by split; [|lia].
  - done.
Qed.

Lemma narrow_char c : is_u16 c → (0x100 <=? c) = false → is_u8 c.
Proof. unfold is_u16, is_u8. intros Hc ?%Z.leb_gt. lia. Qed.

Lemma grow_ok s l n c : sb_ok s l → 0 <= n → zlen l + n <= LEN_OK →
  ∃ s' ret, (if size s <? len s + n then string_buffer_realloc f s (len s + n) c else Some (s, 0)) = Some (s', ret) ∧
    (sb_error f s' ∧ ret ≠ 0 ∨ ret = 0 ∧ sb_ok s' l ∧ len s' + n <= size s' ∧
      (is_wide_char s' = (is_wide_char s || (0x100 <=? c)) ∨ s' = s)).
Proof using Hf.
  intros Hok Hn Hl. pose proof (ok_len s l Hok) as El. destruct (Z.ltb_spec (size s) (len s + n)).
  - destruct (realloc_buffer_ok s l (len s + n) c Hok) as (s' & ret & E & R); [unfold LEN_OK in *; lia|].
    exists s', ret. split; [done|]. destruct R as [R|(R1 & -> & R3 & R4)]; [by left|right].
    pose proof (ok_len s' l R1). split_and!; [done|done|lia|by left].
  - exists s, 0. split; [done|]. right. split_and!; [done|done|lia|by right].
Qed.

Lemma putc_slow_ok s l c : sb_ok s l → is_u16 c → zlen l + 1 <= LEN_OK →
  appends f [c] l (string_buffer_putc_slow f s c).
Proof using Hf.
  intros Hok Hc Hl. unfold string_buffer_putc_slow.
  destruct (grow_ok s l 1 c Hok ltac:(lia) Hl) as (s' & ret & E & R).
  apply room_then. exists s', ret. split.
  { rewrite <- E. destruct (Z.leb_spec (size s) (len s)), (Z.ltb_spec (size s) (len s + 1)); try done; lia. }
  destruct R as [R|(-> & Hok' & Hroom & _)]; [by left|right; split; [done|]].
  destruct (is_wide_char s') eqn:Ew.
  { apply sb_push_ok; [done|rewrite Ew; exact Hc|lia]. }
  destruct (Z.ltb_spec c 0x100) as [Hlow|Hhigh].
  { apply sb_push_ok; [done|rewrite Ew; unfold is_char, is_u8, is_u16 in *; lia|lia]. }
  apply room_then. pose proof (ok_size s' l Hok') as Hs. rewrite Ew in Hs.
  destruct (widen_ok s' l (size s') Hok' Ew) as (s2 & ret & E2 & R2); [lia|]. exists s2, ret. split; [done|].
  destruct R2 as [R2|(Hok2 & -> & Ew2 & Hsz2)]; [by left|right; split; [done|]].
  pose proof (ok_len s2 l Hok2). pose proof (ok_len s' l Hok').
  apply sb_push_ok; [done|rewrite Ew2; exact Hc|lia].
Qed.

Lemma putc16_ok s l c : sb_ok s l → is_u16 c → zlen l + 1 <= LEN_OK → appends f [c] l (string_buffer_putc16 f s c).
Proof using Hf.
  intros Hok Hc Hl. unfold string_buffer_putc16.
  destruct ((len s <? size s) && _) eqn:E; [|by apply putc_slow_ok].
  apply andb_true_iff in E as [E1%Z.ltb_lt E2]. apply sb_push_ok; [done| |done].
  destruct (is_wide_char s); [exact Hc|]. apply Z.ltb_lt in E2. unfold is_char, is_u8, is_u16 in *. lia.
Qed.

Lemma putc8_ok s l c : sb_ok s l → is_u8 c → zlen l + 1 <= LEN_OK → appends f [c] l (string_buffer_putc8 f s c).
Proof using Hf.
  intros Hok Hc Hl. unfold string_buffer_putc8.
  destruct (grow_ok s l 1 c Hok ltac:(lia) Hl) as (s' & ret & E & R).
  apply room_then. exists s', ret. split.
  { rewrite <- E. destruct (Z.leb_spec (size s) (len s)), (Z.ltb_spec (size s) (len s + 1)); try done; lia. }
  destruct R as [R|(-> & Hok' & Hroom & _)]; [by left|right; split; [done|]].
  apply sb_push_ok; [done|by apply is_char_widen|lia].
Qed.

Lemma write8_ok s l p : sb_ok s l → Forall is_u8 p → zlen l + zlen p <= LEN_OK → appends f p l (string_buffer_write8 f s p).
Proof using Hf.
  intros Hok Hp Hl. unfold string_buffer_write8.
  destruct (grow_ok s l (zlen p) 0 Hok ltac:(lia) Hl) as (s' & ret & E & R).
  apply room_then. exists s', ret. split; [done|].
  destruct R as [R|(-> & Hok' & Hroom & _)]; [by left|right; split; [done|]].
  apply sb_append_ok; [done| |done]. eapply Forall_impl; [exact Hp|]. intros c. apply is_char_widen.
Qed.

(** The characters of a string whose union is below 0x100 are. *)
Lemma union_low p a : 0 <= a → Forall is_u16 p → a <= foldl Z.lor a p ∧ Forall (λ c, c <= foldl Z.lor a p) p.
Proof.
  intros Ha Hp. revert a Ha. induction Hp as [|c p Hc Hp IH]; intros a Ha; cbn [foldl]; [by split|].
  assert (a <= a .| c ∧ c <= a .| c ∧ 0 <= a .| c) as (L1 & L2 & L3).
  { unfold is_u16 in Hc. assert (∀ x y, 0 <= x → 0 <= y → x <= x .| y) as Hge.
    { intros x y Hx Hy. apply Z.ldiff_le; [by apply Z.lor_nonneg|]. apply Z.bits_inj'. intros n Hn.
      rewrite Z.ldiff_spec, Z.lor_spec, Z.bits_0. by destruct (Z.testbit x n). }
    split_and!; [apply Hge; lia|rewrite Z.lor_comm; apply Hge; lia|apply Z.lor_nonneg; lia]. }
  destruct (IH (a .| c) L3) as [I1 I2]. split; [lia|]. constructor; [lia|done].
Qed.

Lemma write16_ok s l p : sb_ok s l → Forall is_u16 p → zlen l + zlen p <= LEN_OK → appends f p l (string_buffer_write16 f s p).
Proof using Hf.
  intros Hok Hp Hl. unfold string_buffer_write16. set (c := foldl Z.lor 0 p).
  assert (∀ w, (w : bool) = true ∨ (0x100 <=? c) = false → Forall (is_char w) p) as Hchars.
  { intros w Hw. destruct (union_low p 0 ltac:(lia) Hp) as [_ Hu]. fold c in Hu.
    destruct w; [done|]. destruct Hw as [Hw|Hw%Z.leb_gt]; [done|].
    rewrite Forall_forall in Hp, Hu |- *. intros x Hx. specialize (Hp x Hx). specialize (Hu x Hx).
    unfold is_char, is_u8, is_u16 in *. lia. }
  apply room_then. pose proof (ok_len s l Hok) as El. destruct (Z.ltb_spec (size s) (len s + zlen p)) as [Hg|Hg].
  - destruct (realloc_buffer_ok s l (len s + zlen p) c Hok) as (s' & ret & E & R); [unfold LEN_OK in *; lia|].
    exists s', ret. split; [done|]. destruct R as [R|(R1 & -> & R3 & R4)]; [by left|right; split; [done|]].
    pose proof (ok_len s' l R1). apply sb_append_ok; [done| |lia]. apply Hchars. rewrite R4.
    destruct (0x100 <=? c); [left; apply orb_true_r|by right].
  - destruct (negb (is_wide_char s) && (0x100 <=? c)) eqn:Ew.
    + apply andb_true_iff in Ew as [Ew _]. apply negb_true_iff in Ew.
      pose proof (ok_size s l Hok) as Hs. rewrite Ew in Hs.
      destruct (widen_ok s l (size s) Hok Ew) as (s' & ret & E & R); [lia|]. exists s', ret. split; [done|].
      destruct R as [R|(R1 & -> & R3 & R4)]; [by left|right; split; [done|]].
      pose proof (ok_len s' l R1). apply sb_append_ok; [done|apply Hchars; by left|lia].
    + exists s, 0. split; [done|]. right; split; [done|]. apply sb_append_ok; [done| |lia]. apply Hchars.
      destruct (is_wide_char s); [by left|by right].
Qed.

(** The characters of a code point. *)
Definition units (c : Z) : list Z :=
  if 0x10000 <=? c then [((c - 0x10000) >> 10) + 0xd800; ((c - 0x10000) .& 0x3ff) + 0xdc00] else [c].

Lemma units_u16 c : 0 <= c <= 0x10ffff → Forall is_u16 (units c).
Proof.
  intros Hc. unfold units. destruct (Z.leb_spec 0x10000 c); repeat constructor; unfold is_u16 in *; try lia.
  all: try (rewrite Z.shiftr_div_pow2 by lia;
    first [assert (0 <= (c - 0x10000) / 2 ^ 10) by (apply Z.div_pos; lia); lia
          |assert ((c - 0x10000) / 2 ^ 10 < 2 ^ 10) by (apply Z.div_lt_upper_bound; lia); lia]).
  all: change 0x3ff with (2 ^ 10 - 1); rewrite land_ones_mod by lia;
    pose proof (Z.mod_pos_bound (c - 0x10000) (2 ^ 10) ltac:(lia)); lia.
Qed.

(** Appending after appending. *)
Lemma appends_then u1 u2 l res k : appends f u1 l res →
  (∀ s, sb_ok s (l ++ u1) → appends f u2 (l ++ u1) (k s)) →
  appends f (u1 ++ u2) l ('(s, ret) ← res; if negb (ret =? 0) then Some (s, -1) else k s).
Proof.
  intros (s & ret & -> & [[He Hr]|[Hok ->]]) Hk; cbn [mbind option_bind].
  - rewrite (proj2 (Z.eqb_neq ret 0)) by done. eexists _, _. split; [reflexivity|]. left. by split; [|lia].
  - destruct (Hk s Hok) as (s' & ret & -> & R). eexists _, _. split; [reflexivity|]. by rewrite app_assoc.
Qed.

Lemma putc_ok s l c : sb_ok s l → 0 <= c <= 0x10ffff → zlen l + 2 <= LEN_OK →
  appends f (units c) l (string_buffer_putc f s c).
Proof using Hf.
  intros Hok Hc Hl. pose proof (units_u16 c Hc) as Hu. unfold string_buffer_putc, units in *.
  destruct (Z.leb_spec 0x10000 c).
  - apply Forall_cons in Hu as [H1 H2]. apply Forall_inv in H2.
    apply (appends_then [_] [_]); [by apply putc16_ok; [| |lia]|]. intros s' Hok'.
    apply putc16_ok; [done|done|rewrite length_app; cbn; lia].
  - apply Forall_inv in Hu. apply putc16_ok; [done|done|lia].
Qed.

Lemma fill_loop_ok n s l c : sb_ok s l → is_u16 c → zlen l + Z.of_nat n <= LEN_OK →
  appends f (replicate n c) l (fill_loop f s c n).
Proof using Hf.
  revert s l. induction n as [|n IH]; intros s l Hok Hc Hl; cbn [fill_loop replicate].
  - eexists _, _. split; [reflexivity|]. right. by rewrite app_nil_r.
  - apply (appends_then [c] (replicate n c)); [apply putc16_ok; [done|done|lia]|]. intros s' Hok'.
    apply IH; [done|done|rewrite length_app; cbn; lia].
Qed.

Lemma fill_ok s l c n : sb_ok s l → is_u16 c → 0 <= n → zlen l + n <= LEN_OK →
  appends f (replicate (Z.to_nat n) c) l (string_buffer_fill f s c n).
Proof using Hf.
  intros Hok Hc Hn Hl. unfold string_buffer_fill. destruct (grow_ok s l n c Hok Hn Hl) as (s' & ret & E & R).
  apply room_then. exists s', ret. split; [done|].
  destruct R as [R|(-> & Hok' & Hroom & _)]; [by left|right; split; [done|]]. apply fill_loop_ok; [done|done|lia].
Qed.

Lemma concat_ok s l p from to : sb_ok s l → Forall (is_char (str_wide p)) (chars p) → 0 <= from → to <= zlen (chars p) →
  zlen l + zlen (take (Z.to_nat (to - from)) (drop (Z.to_nat from) (chars p))) <= LEN_OK →
  appends f (take (Z.to_nat (to - from)) (drop (Z.to_nat from) (chars p))) l (string_buffer_concat f s p from to).
Proof using Hf.
  intros Hok Hp Hf0 Ht Hl. unfold string_buffer_concat. destruct (Z.leb_spec to from).
  - replace (Z.to_nat (to - from)) with O by lia. rewrite take_0. eexists _, _. split; [reflexivity|]. right. by rewrite app_nil_r.
  - rewrite slice_Some by lia. cbn [mbind option_bind].
    assert (Forall (is_char (str_wide p)) (take (Z.to_nat (to - from)) (drop (Z.to_nat from) (chars p)))) as Hpart
      by (by apply Forall_take, Forall_drop).
    destruct (str_wide p); [by apply write16_ok|by apply write8_ok].
Qed.

(** *** Errors stay *)

Lemma error_realloc s n c : sb_error f s → string_buffer_realloc f s n c = Some (s, -1).
Proof. intros (He & _). unfold string_buffer_realloc. by rewrite He. Qed.

Lemma error_putc16 s c : sb_error f s → string_buffer_putc16 f s c = Some (s, -1).
Proof.
  intros Hs. pose proof Hs as (He & Hl & Hz & _). unfold string_buffer_putc16, string_buffer_putc_slow.
  rewrite Hl, Hz. change (0 <? 0) with false. change (0 <=? 0) with true. cbn [andb].
  by rewrite (error_realloc s (0 + 1) c Hs).
Qed.

Lemma error_grow s n c : sb_error f s → 0 <= n →
  (if size s <? len s + n then string_buffer_realloc f s (len s + n) c else Some (s, 0)) =
  Some (s, if 0 <? n then -1 else 0).
Proof.
  intros Hs Hn. pose proof Hs as (He & -> & -> & _). rewrite Z.add_0_l. destruct (Z.ltb_spec 0 n); [by apply error_realloc|done].
Qed.

End Refines.

(** ** Sequences of operations *)

Inductive sb_op : Set :=
| Putc8 (c : Z)
| Putc16 (c : Z)
| Putc (c : Z)
| Write8 (p : list Z)
| Write16 (p : list Z)
| Concat (p : JSString) (from to : Z)
| Fill (c count : Z).

(** The arguments that the operations are meant for. *)
Definition op_ok (o : sb_op) : Prop :=
  match o with
  | Putc8 c => is_u8 c
  | Putc16 c => is_u16 c
  | Putc c => 0 <= c <= 0x10ffff
  | Write8 p => Forall is_u8 p
  | Write16 p => Forall is_u16 p
  | Concat p from to => Forall (is_char (str_wide p)) (chars p) ∧ 0 <= from ∧ to <= zlen (chars p)
  | Fill c count => is_u16 c ∧ 0 <= count
  end.

(** What an operation appends. *)
Definition op_chars (o : sb_op) : list Z :=
  match o with
  | Putc8 c | Putc16 c => [c]
  | Putc c => units c
  | Write8 p | Write16 p => p
  | Concat p from to => take (Z.to_nat (to - from)) (drop (Z.to_nat from) (chars p))
  | Fill c count => replicate (Z.to_nat count) c
  end.

Section Ops.
Context (f : list Z → Z → option (list Z)).

Definition run_op (s : StringBuffer) (o : sb_op) : option (StringBuffer * Z) :=
  match o with
  | Putc8 c => string_buffer_putc8 f s c
  | Putc16 c => string_buffer_putc16 f s c
  | Putc c => string_buffer_putc f s c
  | Write8 p => string_buffer_write8 f s p
  | Write16 p => string_buffer_write16 f s p
  | Concat p from to => string_buffer_concat f s p from to
  | Fill c count => string_buffer_fill f s c count
  end.

(** The results of the operations are not looked at. *)
Fixpoint run_ops (s : StringBuffer) (os : list sb_op) : option StringBuffer :=
  match os with
  | [] => Some s
  | o :: os => '(s, _) ← run_op s o; run_ops s os
  end.

Context (Hf : realloc_ok f).

Lemma run_op_ok s l o : sb_ok s l → op_ok o → zlen l + zlen (op_chars o) + 1 <= LEN_OK → appends f (op_chars o) l (run_op s o).
Proof using Hf.
  intros Hok Ho Hl. destruct o; cbn [run_op op_chars op_ok] in *.
  - apply putc8_ok; [done|done|done|cbn in Hl; lia].
  - apply putc16_ok; [done|done|done|cbn in Hl; lia].
  - apply putc_ok; [done|done|done|]. unfold units in Hl. destruct (0x10000 <=? c); cbn in Hl; lia.
  - apply write8_ok; [done|done|done|lia].
  - apply write16_ok; [done|done|done|lia].
  - destruct Ho as (H1 & H2 & H3). apply concat_ok; [done|done|done|done|done|lia].
  - destruct Ho as (H1 & H2). rewrite length_replicate in Hl. apply fill_ok; [done|done|done|done|lia].
Qed.

Lemma run_op_error s o : sb_error f s → op_ok o → ∃ s' ret, run_op s o = Some (s', ret) ∧ sb_error f s'.
Proof.
  intros Hs Ho. assert (∀ p, ∃ s' ret, string_buffer_write8 f s p = Some (s', ret) ∧ sb_error f s') as W8.
  { intros p. unfold string_buffer_write8. rewrite error_grow by (done || lia). cbn [mbind option_bind].
    destruct p; [|by eexists _, _]. by eexists _, _. }
  assert (∀ p, ∃ s' ret, string_buffer_write16 f s p = Some (s', ret) ∧ sb_error f s') as W16.
  { intros p. unfold string_buffer_write16. pose proof Hs as (He & Hl & Hz & _). destruct p as [|c p].
    - rewrite Hl, Hz. cbn. rewrite andb_false_r. by eexists _, _.
    - rewrite (proj2 (Z.ltb_lt _ _)) by (rewrite Hl, Hz; cbn; lia). rewrite error_realloc by done. by eexists _, _. }
  destruct o; cbn [run_op op_ok] in *.
  - unfold string_buffer_putc8. pose proof Hs as (He & Hl & Hz & _). rewrite (proj2 (Z.leb_le _ _)) by lia.
    rewrite error_realloc by done. by eexists _, _.
  - rewrite error_putc16 by done. by eexists _, _.
  - unfold string_buffer_putc. destruct (_ <=? _); rewrite error_putc16 by done; by eexists _, _.
  - apply W8.
  - apply W16.
  - destruct Ho as (H1 & H2 & H3). unfold string_buffer_concat. destruct (Z.leb_spec to from); [by eexists _, _|].
    rewrite slice_Some by lia. cbn [mbind option_bind]. destruct (str_wide p); auto.
  - destruct Ho as (H1 & H2). unfold string_buffer_fill. rewrite error_grow by (done || lia). cbn [mbind option_bind].
    destruct (Z.ltb_spec 0 count); [by eexists _, _|]. replace (Z.to_nat count) with O by lia. by eexists _, _.
Qed.

Lemma run_ops_ok os s l : sb_ok s l ∨ sb_error f s → Forall op_ok os → zlen l + zlen (os ≫= op_chars) + 1 <= LEN_OK →
  ∃ s', run_ops s os = Some s' ∧ (sb_ok s' (l ++ (os ≫= op_chars)) ∨ sb_error f s').
Proof using Hf.
  intros Hs Hos. revert s l Hs. induction Hos as [|o os Ho Hos IH]; intros s l Hs Hl; cbn [run_ops].
  - exists s. split; [done|]. change (([] : list sb_op) ≫= op_chars) with (@nil Z). by rewrite app_nil_r.
  - rewrite bind_cons, length_app in Hl. rewrite bind_cons. destruct Hs as [Hok|Herr].
    + destruct (run_op_ok s l o Hok Ho) as (s1 & ret & -> & R); [lia|]. cbn [mbind option_bind].
      rewrite app_assoc. apply IH; [|rewrite length_app; lia]. destruct R as [[R _]|[R _]]; [by right|by left].
    + destruct (run_op_error s o Herr Ho) as (s1 & ret & -> & R). cbn [mbind option_bind].
      rewrite app_assoc. apply IH; [by right|rewrite length_app; lia].
Qed.

(** The end of a buffer: an exception, or the string of its characters. *)
Lemma string_buffer_end_ok s l : sb_ok s l →
  ∃ p, string_buffer_end f s = Some (Some p) ∧ chars p = l ∧ Forall (is_char (str_wide p)) l.
Proof using Hf.
  intros [He Hl Hs Hc (rest & Es & Hb)]. unfold string_buffer_end. rewrite He.
  destruct (Z.eqb_spec (len s) 0) as [E0|E0].
  { assert (l = []) as -> by (destruct l; [done|cbn in Hl; lia]). eexists. split; [reflexivity|]. by split. }
  rewrite Es. cbn [mbind option_bind]. set (w := is_wide_char s) in *.
  set (t := if len s <? size s then _ else _).
  assert (∃ rest', t = enc w l ++ rest' ∧ str_bytes (len s) w <= zlen t) as (rest' & Et & Hlt).
  { unfold t. rewrite str_bytes_eq in Hb. destruct (Z.ltb_spec (len s) (size s)) as [Hlt|Hge].
    - destruct (f _ _) as [new|] eqn:Ef.
      + pose proof (ra_size f Hf _ _ _ Ef) as Rs.
        destruct (keep_enc new (enc w l) rest (str_bytes (len s) w)) as [rest' ->].
        * intros m Hm Hmn. by eapply (ra_keep f Hf).
        * rewrite enc_length, str_bytes_eq. destruct w; cbn [width]; lia.
        * exists rest'. split; [reflexivity|apply Rs].
      + exists rest. split; [reflexivity|]. change (default (enc w l ++ rest) None) with (enc w l ++ rest).
        rewrite str_bytes_eq. destruct w; lia.
    - exists rest. split; [done|]. rewrite str_bytes_eq. destruct w; lia. }
  rewrite Et. rewrite Et, str_bytes_eq, length_app, enc_length in Hlt.
  assert (∃ rest2, (if negb w then store8 (enc w l ++ rest') (len s) 0 else Some (enc w l ++ rest')) = Some (enc w l ++ rest2)) as (rest2 & ->).
  { destruct w; cbn [negb enc width] in *; [by eexists|]. destruct rest' as [|x rest']; [cbn in Hlt; lia|].
    unfold store8. rewrite byte_set_at by done. by eexists. }
  cbn [mbind option_bind]. rewrite Hl, Nat2Z.id, load_all_ok by done. cbn [mbind option_bind].
  eexists. split; [reflexivity|]. by split.
Qed.

Lemma init_ok sz : 0 <= sz <= LEN_OK → sb_ok (fst (string_buffer_init f sz)) [] ∨ sb_error f (fst (string_buffer_init f sz)).
Proof using Hf.
  intros Hsz. unfold LEN_OK in Hsz.
  unfold string_buffer_init, string_buffer_init2, js_alloc_string.
  destruct (f [] _) as [t|] eqn:Ef; [left|right; split_and!; try done; eexists _, _; split; [|exact Ef]; rewrite str_bytes_eq; lia].
  pose proof (ra_size f Hf _ _ _ Ef). constructor; cbn [fst error_status len size is_wide_char str]; [done|done|lia|done|].
  exists t. split; [done|]. cbn [enc app]. lia.
Qed.

(** A string built by operations is the string of what they appended: whatever
    the allocator refuses, no operation accesses memory outside the block or
    overflows, an error comes only from the allocator and stays, and the end
    returns an exception after an error
    and otherwise a string of 8-bit or 16-bit characters that are exactly those
    appended, in order. *)
Lemma string_buffer_refines sz os : 0 <= sz <= LEN_OK → Forall op_ok os → zlen (os ≫= op_chars) + 1 <= LEN_OK →
  ∃ s res, run_ops (fst (string_buffer_init f sz)) os = Some s ∧ string_buffer_end f s = Some res ∧
    match res with
    | None => error_status s = true ∧ refused f
    | Some p => error_status s = false ∧ chars p = os ≫= op_chars ∧ Forall (is_char (str_wide p)) (chars p)
    end.
Proof using Hf.
  intros Hsz Hos Hl. pose proof (init_ok sz Hsz) as H0.
  destruct (run_ops_ok os _ [] H0 Hos Hl) as (s & E & [Hok|Herr]).
  - destruct (string_buffer_end_ok s _ Hok) as (p & Ep & Hp & Hw). exists s, (Some p). split; [done|]. split; [done|].
    split; [apply Hok|]. cbn [app] in Hp, Hw. rewrite Hp. by split.
  - exists s, None. split; [done|]. destruct Herr as (He & _ & _ & Hr). split; [|done]. unfold string_buffer_end. by rewrite He.
Qed.

End Ops.

(** Growing a buffer of more than 715827882 characters, which strings may have,
    overflows. *)
Lemma realloc_overflows f s n c : error_status s = false → n <= JS_STRING_LEN_MAX → 715827883 <= size s →
  string_buffer_realloc f s n c = None.
Proof.
  intros He Hn Hs. unfold string_buffer_realloc. rewrite He, (proj2 (Z.ltb_ge _ _)), (proj2 (Z.leb_le _ _)) by lia. done.
Qed.

End JsString.
