(* ===== verification/JsUri.v ===== *)
(** * URI and escape functions of the global object ([quickjs/quickjs.c])

    [encodeURI], [decodeURI], their component versions, [escape] and
    [unescape], over string buffers. A position in a string is the rest of the
    string from there; arguments are strings already. Decoding inverts
    encoding. *)
From Stdlib Require Import (notations) String.
From stdpp Require Import list.
From S2P Require Import Prelude Bytes Cutils JsString.

Module JsUri.
Import JsString.
Local Open Scope cint_scope.

(** ** Characters *)

Definition memchr (cs : list Z) (c : Z) : bool := existsb (Z.eqb c) cs.

Definition reserved_chars : list Z := lit ";/?:@&=+$,#".
Definition mark_chars : list Z := lit "-_.!~*'()".
Definition unescaped_chars : list Z :=
  lit "ABCDEFGHIJKLMNOPQRSTUVWXYZabcdefghijklmnopqrstuvwxyz0123456789@*_+-./".

Definition is_alnum (c : Z) : bool :=
  ((0x61 <=? c) && (c <=? 0x7a)) || ((0x41 <=? c) && (c <=? 0x5a)) || ((0x30 <=? c) && (c <=? 0x39)).

Definition isURIReserved (c : Z) : bool := (c <? 0x100) && memchr reserved_chars c.

Definition isUnescaped (c : Z) : bool := (c <? 0x100) && memchr unescaped_chars c.

Definition isURIUnescaped (c : Z) (isComponent : bool) : bool :=
  (c <? 0x100) && (is_alnum c || memchr mark_chars c || (negb isComponent && isURIReserved c)).

(** ** Hexadecimal digits *)

(** [None]: the string ends, -1: not a digit. *)
Fixpoint string_get_hex (rest : list Z) (n : nat) (c : Z) {struct n} : option Z :=
  match n with
  | O => Some c
  | S n =>
      match rest with
      | [] => None
      | x :: rest =>
          let h := Cutils.from_hex x in
          if h <? 0 then Some (-1) else string_get_hex rest n ((c << 4) .| h)
      end
  end.

(** -1: a URIError. *)
Definition hex_decode (rest : list Z) : option Z :=
  match rest with
  | 37 :: digits => if zlen rest <=? 2 then Some (-1) else string_get_hex digits 2 0
  | _ => Some (-1)
  end.

Definition hex : list Z := lit "0123456789ABCDEF".

Definition uri_digit (c : Z) : Z := default 0 (aget hex (c .& 15)).

Definition hex_chars (c : Z) : list Z :=
  37 :: (if 256 <=? c then [117; uri_digit (c >> 12); uri_digit (c >> 8)] else []) ++
  [uri_digit (c >> 4); uri_digit (c >> 0)].

Section Uri.
Context (realloc : list Z → Z → option (list Z)).

Definition encodeURI_hex (b : StringBuffer) (c : Z) : option StringBuffer :=
  '(b, _) ← string_buffer_write8 realloc b (hex_chars c); Some b.

Definition putc16 (b : StringBuffer) (c : Z) : option StringBuffer :=
  '(b, _) ← string_buffer_putc16 realloc b c; Some b.

(** The escapes of a code point. *)
Definition encode_char (b : StringBuffer) (c : Z) : option StringBuffer :=
  if c <? 0x80 then encodeURI_hex b c
  else
    b ← (if c <? 0x800 then encodeURI_hex b ((c >> 6) .| 0xc0)
         else
           b ← (if c <? 0x10000 then encodeURI_hex b ((c >> 12) .| 0xe0)
                else
                  b ← encodeURI_hex b ((c >> 18) .| 0xf0);
                  encodeURI_hex b (((c >> 12) .& 0x3f) .| 0x80));
           encodeURI_hex b (((c >> 6) .& 0x3f) .| 0x80));
    encodeURI_hex b ((c .& 0x3f) .| 0x80).

(** The inner [None] is a URIError. *)
Fixpoint encode_loop (rest : list Z) (isComponent : bool) (b : StringBuffer) : option (option StringBuffer) :=
  match rest with
  | [] => Some (Some b)
  | c :: rest =>
      if isURIUnescaped c isComponent then
        b ← putc16 b c; encode_loop rest isComponent b
      else if (0xdc00 <=? c) && (c <=? 0xdfff) then Some None
      else if (0xd800 <=? c) && (c <=? 0xdbff) then
        match rest with
        | [] => Some None
        | c1 :: rest =>
            if (c1 <? 0xdc00) || (0xdfff <? c1) then Some None
            else
              let c := (((c .& 0x3ff) << 10) .| (c1 .& 0x3ff)) + 0x10000 in
              b ← encode_char b c; encode_loop rest isComponent b
        end
      else b ← encode_char b c; encode_loop rest isComponent b
  end.

(** [None]: an exception. *)
Definition js_global_encodeURI (p : JSString) (isComponent : bool) : option (option JSString) :=
  res ← encode_loop (chars p) isComponent (fst (string_buffer_init realloc (zlen (chars p))));
  match res with
  | None => Some None
  | Some b => string_buffer_end realloc b
  end.

(** The bytes that continue a sequence; the inner [None] is a URIError. *)
Fixpoint decode_tail (n : nat) (rest : list Z) (c : Z) : option (option (Z * list Z)) :=
  match n with
  | O => Some (Some (c, rest))
  | S n =>
      c1 ← hex_decode rest;
      if c1 <? 0 then Some None
      else
        let rest := drop 3 rest in
        if negb (c1 .& 0xc0 =? 0x80) then Some (Some (0, rest))
        else decode_tail n rest ((c << 6) .| (c1 .& 0x3f))
  end.

(** The code point at a percent sign. *)
Definition decode_escape (rest : list Z) (isComponent : bool) : option (option (Z * list Z)) :=
  c ← hex_decode rest;
  if c <? 0 then Some None
  else if c <? 0x80 then
    if negb isComponent && isURIReserved c then Some (Some (37, drop 1 rest))
    else Some (Some (c, drop 3 rest))
  else
    let '(n, c_min, c) :=
      if (0xc0 <=? c) && (c <=? 0xdf) then (1%nat, 0x80, c .& 0x1f)
      else if (0xe0 <=? c) && (c <=? 0xef) then (2%nat, 0x800, c .& 0xf)
      else if (0xf0 <=? c) && (c <=? 0xf7) then (3%nat, 0x10000, c .& 0x7)
      else (O, 1, 0) in
    res ← decode_tail n (drop 3 rest) c;
    match res with
    | None => Some None
    | Some (c, rest) =>
        if (c <? c_min) || (0x10FFFF <? c) || ((0xd800 <=? c) && (c <? 0xe000)) then Some None
        else Some (Some (c, rest))
    end.

Fixpoint decode_loop (fuel : nat) (rest : list Z) (isComponent : bool) (b : StringBuffer) :
    option (option StringBuffer) :=
  match fuel with
  | O => None
  | S fuel =>
      match rest with
      | [] => Some (Some b)
      | c :: tl =>
          res ← (if c =? 37 then decode_escape rest isComponent else Some (Some (c, tl)));
          match res with
          | None => Some None
          | Some (c, rest) =>
              '(b, _) ← string_buffer_putc realloc b c;
              decode_loop fuel rest isComponent b
          end
      end
  end.

Definition js_global_decodeURI (p : JSString) (isComponent : bool) : option (option JSString) :=
  res ← decode_loop (S (length (chars p))) (chars p) isComponent (fst (string_buffer_init realloc 0));
  match res with
  | None => Some None
  | Some b => string_buffer_end realloc b
  end.

Fixpoint escape_loop (rest : list Z) (b : StringBuffer) : option StringBuffer :=
  match rest with
  | [] => Some b
  | c :: rest =>
      b ← (if isUnescaped c then putc16 b c else encodeURI_hex b c);
      escape_loop rest b
  end.

Definition js_global_escape (p : JSString) : option (option JSString) :=
  b ← escape_loop (chars p) (fst (string_buffer_init realloc (zlen (chars p))));
  string_buffer_end realloc b.

(** The character at a percent sign, and what follows. *)
Definition unescape_char (tl : list Z) : option (Z * list Z) :=
  let short :=
    if 2 <=? zlen tl then
      n ← string_get_hex tl 2 0;
      Some (if 0 <=? n then (n, drop 2 tl) else (37, tl))
    else Some (37, tl) in
  match tl with
  | 117 :: digits =>
      if 5 <=? zlen tl then
        n ← string_get_hex digits 4 0;
        if 0 <=? n then Some (n, drop 5 tl) else short
      else short
  | _ => short
  end.

Fixpoint unescape_loop (fuel : nat) (rest : list Z) (b : StringBuffer) : option StringBuffer :=
  match fuel with
  | O => None
  | S fuel =>
      match rest with
      | [] => Some b
      | c :: tl =>
          '(c, rest) ← (if c =? 37 then unescape_char tl else Some (c, tl));
          b ← putc16 b c;
          unescape_loop fuel rest b
      end
  end.

Definition js_global_unescape (p : JSString) : option (option JSString) :=
  b ← unescape_loop (S (length (chars p))) (chars p) (fst (string_buffer_init realloc 0));
  string_buffer_end realloc b.

End Uri.

(** ** What the functions append *)

(** The bytes of a code point in UTF-8, as the encoder computes them. *)
Definition utf8_bytes (c : Z) : list Z :=
  if c <? 0x80 then [c]
  else if c <? 0x800 then [(c >> 6) .| 0xc0; (c .& 0x3f) .| 0x80]
  else if c <? 0x10000 then [(c >> 12) .| 0xe0; ((c >> 6) .& 0x3f) .| 0x80; (c .& 0x3f) .| 0x80]
  else [(c >> 18) .| 0xf0; ((c >> 12) .& 0x3f) .| 0x80; ((c >> 6) .& 0x3f) .| 0x80; (c .& 0x3f) .| 0x80].

Definition escapes (c : Z) : list Z := utf8_bytes c ≫= hex_chars.

(** A code point, not half of a pair. *)
Definition scalar (c : Z) : Prop := 0 <= c <= 0x10ffff ∧ ¬ (0xd800 <= c < 0xe000).

(** The code points of a string, [None] when it has half a pair. *)
Fixpoint code_points (l : list Z) : option (list Z) :=
  match l with
  | [] => Some []
  | c :: l =>
      if (0xdc00 <=? c) && (c <=? 0xdfff) then None
      else if (0xd800 <=? c) && (c <=? 0xdbff) then
        match l with
        | [] => None
        | c1 :: l =>
            if (c1 <? 0xdc00) || (0xdfff <? c1) then None
            else cons (0x10000 + (c - 0xd800) * 0x400 + (c1 - 0xdc00)) <$> code_points l
        end
      else cons c <$> code_points l
  end.

(** The text of a code point, and the operations that append it. *)
Definition uri_char (isComponent : bool) (c : Z) : list Z :=
  if isURIUnescaped c isComponent then [c] else escapes c.

Definition uri_ops (isComponent : bool) (c : Z) : list sb_op :=
  if isURIUnescaped c isComponent then [Putc16 c] else Write8 ∘ hex_chars <$> utf8_bytes c.

(** The text of a character in [escape]. *)
Definition escape_text (c : Z) : list Z := if isUnescaped c then [c] else hex_chars c.

(** The state of a buffer to which [l] was appended. *)
Definition holds (f : list Z → Z → option (list Z)) (b : StringBuffer) (l : list Z) : Prop := sb_ok b l ∨ sb_error f b.

(** A property of all numbers below a bound, by computation. *)
Lemma all_below (P : Z → bool) n : forallb P (seqZ 0 n) = true → ∀ x, 0 <= x < n → P x = true.
Proof.
  intros H x Hx. rewrite forallb_forall in H. apply H, list_elem_of_In, elem_of_seqZ. lia.
Qed.

(** The bytes, arithmetically. *)
Lemma lead2 q : 0 <= q < 32 → q .| 0xc0 = 0xc0 + q.
Proof. intros Hq. apply Z.eqb_eq, (all_below (λ q, q .| 0xc0 =? 0xc0 + q) 32); [by vm_compute|done]. Qed.
Lemma lead3 q : 0 <= q < 16 → q .| 0xe0 = 0xe0 + q.
Proof. intros Hq. apply Z.eqb_eq, (all_below (λ q, q .| 0xe0 =? 0xe0 + q) 16); [by vm_compute|done]. Qed.
Lemma lead4 q : 0 <= q < 8 → q .| 0xf0 = 0xf0 + q.
Proof. intros Hq. apply Z.eqb_eq, (all_below (λ q, q .| 0xf0 =? 0xf0 + q) 8); [by vm_compute|done]. Qed.
Lemma tail_byte q : 0 <= q < 64 → q .| 0x80 = 0x80 + q ∧ (0x80 + q) .& 0xc0 = 0x80 ∧ (0x80 + q) .& 0x3f = q.
Proof.
  intros Hq. pose proof (all_below (λ q, (q .| 0x80 =? 0x80 + q) && ((0x80 + q) .& 0xc0 =? 0x80) && ((0x80 + q) .& 0x3f =? q)) 64) as H.
  specialize (H ltac:(by vm_compute) q Hq). rewrite !andb_true_iff, !Z.eqb_eq in H. tauto.
Qed.

Lemma six_bits x : x .& 0x3f = x mod 64.
Proof. change 0x3f with (2 ^ 6 - 1). by rewrite land_ones_mod by lia. Qed.

Lemma utf8_arith c : 0 <= c <= 0x10ffff →
  utf8_bytes c =
    if c <? 0x80 then [c]
    else if c <? 0x800 then [0xc0 + c / 64; 0x80 + c mod 64]
    else if c <? 0x10000 then [0xe0 + c / 4096; 0x80 + (c / 64) mod 64; 0x80 + c mod 64]
    else [0xf0 + c / 262144; 0x80 + (c / 4096) mod 64; 0x80 + (c / 64) mod 64; 0x80 + c mod 64].
Proof.
  intros Hc. unfold utf8_bytes. rewrite !six_bits, !Z.shiftr_div_pow2 by lia.
  change (2 ^ 6) with 64. change (2 ^ 12) with 4096. change (2 ^ 18) with 262144.
  assert (∀ x, x mod 64 .| 0x80 = 0x80 + x mod 64) as Ht by (intros; apply tail_byte, Z.mod_pos_bound; lia).
  rewrite !Ht. destruct (Z.ltb_spec c 0x80); [done|].
  destruct (Z.ltb_spec c 0x800); [rewrite lead2; [done|split; [apply Z.div_pos|apply Z.div_lt_upper_bound]; lia]|].
  destruct (Z.ltb_spec c 0x10000); [rewrite lead3; [done|split; [apply Z.div_pos|apply Z.div_lt_upper_bound]; lia]|].
  rewrite lead4; [done|split; [apply Z.div_pos|apply Z.div_lt_upper_bound]; lia].
Qed.

Lemma utf8_u8 c : 0 <= c <= 0x10ffff → Forall is_u8 (utf8_bytes c).
Proof.
  intros Hc. rewrite utf8_arith by done. unfold is_u8.
  assert (∀ x, 0 <= x mod 64 < 64) as Hm by (intros; apply Z.mod_pos_bound; lia).
  assert (∀ d q, 0 < d → c < d * q → 0 <= c / d < q) as Hd
    by (intros; split; [apply Z.div_pos|apply Z.div_lt_upper_bound]; lia).
  pose proof (Hm c). pose proof (Hm (c / 64)). pose proof (Hm (c / 4096)).
  destruct (Z.ltb_spec c 0x80); [repeat constructor; lia|].
  destruct (Z.ltb_spec c 0x800); [pose proof (Hd 64 32); repeat constructor; lia|].
  destruct (Z.ltb_spec c 0x10000); [pose proof (Hd 4096 16); repeat constructor; lia|].
  pose proof (Hd 262144 8). repeat constructor; lia.
Qed.

(** *** The escape of a byte *)

Lemma hex_byte x rest : is_u8 x →
  Forall is_u8 (hex_chars x) ∧ length (hex_chars x) = 3%nat ∧
  hex_decode (hex_chars x ++ rest) = Some x ∧ drop 3 (hex_chars x ++ rest) = rest ∧ take 1 (hex_chars x) = [37].
Proof.
  unfold is_u8. intros Hx. unfold hex_chars. rewrite (proj2 (Z.leb_gt 256 x)) by lia. cbn [app].
  rewrite Z.shiftr_0_r.
  pose proof (all_below (λ x, let h := uri_digit (x >> 4) in let k := uri_digit x in
     (0 <=? h) && (h <? 256) && (0 <=? k) && (k <? 256) && (0 <=? Cutils.from_hex h) && (0 <=? Cutils.from_hex k) &&
     (((0 << 4) .| Cutils.from_hex h) << 4 .| Cutils.from_hex k =? x)) 256) as H.
  specialize (H ltac:(by vm_compute) x ltac:(lia)). cbn zeta in H.
  rewrite !andb_true_iff, !Z.leb_le, !Z.ltb_lt, Z.eqb_eq in H. destruct H as [[[[[[H1 H2] H3] H4] H5] H6] H7].
  split_and!; [repeat constructor; lia|done| |done|done].
  unfold hex_decode. rewrite (proj2 (Z.leb_gt _ _)) by (cbn [length]; lia). cbn [string_get_hex].
  rewrite (proj2 (Z.ltb_ge (Cutils.from_hex (uri_digit (x >> 4))) 0)), (proj2 (Z.ltb_ge (Cutils.from_hex (uri_digit x)) 0)) by lia.
  f_equal. exact H7.
Qed.

(** *** Decoding an escaped code point *)

Lemma decode_tail_ok bs rest c : Forall (λ x, 0 <= x < 64) bs → 0 <= c →
  decode_tail (length bs) ((bs ≫= λ x, hex_chars (0x80 + x)) ++ rest) c =
    Some (Some (foldl (λ c x, c * 64 + x) c bs, rest)).
Proof.
  intros Hbs. revert c. induction Hbs as [|x bs Hx Hbs IH]; intros c Hc; cbn [length decode_tail foldl]; [done|].
  rewrite bind_cons, <- app_assoc.
  destruct (hex_byte (0x80 + x) ((bs ≫= λ x, hex_chars (0x80 + x)) ++ rest)) as (_ & _ & Eh & Ed & _); [unfold is_u8; lia|].
  rewrite Eh. cbn [mbind option_bind]. rewrite (proj2 (Z.ltb_ge (0x80 + x) 0)) by lia. cbn zeta. rewrite Ed.
  destruct (tail_byte x Hx) as (_ & -> & ->). change (negb (128 =? 128)) with false. cbn iota.
  rewrite Z.shiftl_mul_pow2 by lia. rewrite lor_low_high by lia. change (2 ^ 6) with 64. apply IH. lia.
Qed.

Lemma lead_bits : (∀ q, 0 <= q < 32 → (0xc0 + q) .& 0x1f = q) ∧ (∀ q, 0 <= q < 16 → (0xe0 + q) .& 0xf = q) ∧
  (∀ q, 0 <= q < 8 → (0xf0 + q) .& 0x7 = q).
Proof.
  split_and!; intros q Hq; apply Z.eqb_eq.
  - by apply (all_below (λ q, (0xc0 + q) .& 0x1f =? q) 32).
  - by apply (all_below (λ q, (0xe0 + q) .& 0xf =? q) 16).
  - by apply (all_below (λ q, (0xf0 + q) .& 0x7 =? q) 8).
Qed.

(** A sequence of more than one byte. *)
Lemma decode_sequence lead bs rest comp (n : nat) c_min q c : is_u8 lead → 0x80 <= lead →
  (if (0xc0 <=? lead) && (lead <=? 0xdf) then (1%nat, 0x80, lead .& 0x1f)
   else if (0xe0 <=? lead) && (lead <=? 0xef) then (2%nat, 0x800, lead .& 0xf)
   else if (0xf0 <=? lead) && (lead <=? 0xf7) then (3%nat, 0x10000, lead .& 0x7)
   else (O, 1, 0)) = (n, c_min, q) →
  length bs = n → 0 <= q → Forall (λ x, 0 <= x < 64) bs → foldl (λ c x, c * 64 + x) q bs = c → c_min <= c → scalar c →
  decode_escape (hex_chars lead ++ (bs ≫= λ x, hex_chars (0x80 + x)) ++ rest) comp = Some (Some (c, rest)).
Proof.
  intros Hl Hlow Hsel <- Hq Hbs Ec Hmin [Hr Hs]. unfold decode_escape.
  destruct (hex_byte lead ((bs ≫= λ x, hex_chars (0x80 + x)) ++ rest) Hl) as (_ & _ & Eh & Ed & _).
  rewrite Eh. cbn [mbind option_bind]. rewrite (proj2 (Z.ltb_ge lead 0)), (proj2 (Z.ltb_ge lead 0x80)) by lia.
  rewrite Hsel, Ed, decode_tail_ok by done. cbn [mbind option_bind]. rewrite Ec.
  rewrite (proj2 (Z.ltb_ge c c_min)), (proj2 (Z.ltb_ge 0x10FFFF c)) by lia. cbn [orb].
  destruct (Z.leb_spec 0xd800 c), (Z.ltb_spec c 0xe000); cbn [andb]; (done || lia).
Qed.

Lemma decode_escapes c rest comp : scalar c → (c < 0x80 → comp = true ∨ isURIReserved c = false) →
  decode_escape (escapes c ++ rest) comp = Some (Some (c, rest)) ∧ take 1 (escapes c) = [37].
Proof.
  intros Hc Hres. pose proof Hc as [Hr _]. pose proof (utf8_u8 c Hr) as Hu.
  unfold escapes. rewrite utf8_arith in * by done.
  assert (∀ x, 0 <= x mod 64 < 64) as Hm by (intros; apply Z.mod_pos_bound; lia).
  pose proof (Z.div_mod c 64 ltac:(lia)) as D1. pose proof (Z.div_mod (c / 64) 64 ltac:(lia)) as D2.
  rewrite Z.div_div in D2 by lia. change (64 * 64) with 4096 in D2.
  pose proof (Z.div_mod (c / 4096) 64 ltac:(lia)) as D3. rewrite Z.div_div in D3 by lia. change (4096 * 64) with 262144 in D3.
  pose proof (Hm c) as M1. pose proof (Hm (c / 64)) as M2. pose proof (Hm (c / 4096)) as M3.
  assert (0 <= c / 262144 ∧ 0 <= c / 4096 ∧ 0 <= c / 64) as (P1 & P2 & P3) by (split_and!; apply Z.div_pos; lia).
  destruct lead_bits as (L1 & L2 & L3).
  destruct (Z.ltb_spec c 0x80) as [Hlow|G1].
  - rewrite bind_cons. change (([] : list Z) ≫= hex_chars) with (@nil Z). rewrite app_nil_r.
    apply Forall_inv in Hu. destruct (hex_byte c rest Hu) as (_ & _ & Eh & Ed & E1). split; [|done].
    unfold decode_escape. rewrite Eh. cbn [mbind option_bind].
    rewrite (proj2 (Z.ltb_ge c 0)), (proj2 (Z.ltb_lt c 0x80)), Ed by lia.
    destruct (Hres Hlow) as [->|Hr']; [done|]. by rewrite Hr', andb_false_r.
  - destruct (Z.ltb_spec c 0x800) as [G2|G2]; [|destruct (Z.ltb_spec c 0x10000) as [G3|G3]];
      apply Forall_cons in Hu as [Hlead _]; destruct (hex_byte _ [] Hlead) as (_ & Hl3 & _ & _ & E1);
      rewrite bind_cons; (split; [|rewrite take_app_le by lia; exact E1]); rewrite <- app_assoc.
    + apply (decode_sequence (0xc0 + c / 64) [c mod 64] rest comp 1 0x80 (c / 64) c); try done; [lia| |by auto 9 using Forall_cons_2, Forall_nil_2|cbn; lia].
      by rewrite L1, !(proj2 (Z.leb_le _ _)) by lia.
    + apply (decode_sequence (0xe0 + c / 4096) [(c / 64) mod 64; c mod 64] rest comp 2 0x800 (c / 4096) c); try done;
        [lia| |by auto 9 using Forall_cons_2, Forall_nil_2|cbn; lia].
      by rewrite L2, (proj2 (Z.leb_gt (0xe0 + c / 4096) 0xdf)), andb_false_r, !(proj2 (Z.leb_le _ _)) by lia.
    + apply (decode_sequence (0xf0 + c / 262144) [(c / 4096) mod 64; (c / 64) mod 64; c mod 64] rest comp 3 0x10000 (c / 262144) c);
        try done; [lia| |by auto 9 using Forall_cons_2, Forall_nil_2|cbn; lia].
      by rewrite L3, (proj2 (Z.leb_gt (0xf0 + c / 262144) 0xdf)), (proj2 (Z.leb_gt (0xf0 + c / 262144) 0xef)),
        !andb_false_r, !(proj2 (Z.leb_le _ _)) by lia.
Qed.

(** *** Strings and their code points *)

Lemma pair_value c c1 : 0xd800 <= c <= 0xdbff → 0xdc00 <= c1 <= 0xdfff →
  (((c .& 0x3ff) << 10) .| (c1 .& 0x3ff)) + 0x10000 = 0x10000 + (c - 0xd800) * 0x400 + (c1 - 0xdc00).
Proof.
  intros Hc Hc1. change 0x3ff with (2 ^ 10 - 1). rewrite !land_ones_mod by lia.
  assert (∀ x q, 0 <= x - q * 2 ^ 10 < 2 ^ 10 → x mod 2 ^ 10 = x - q * 2 ^ 10) as Hm
    by (intros x q Hx; symmetry; apply (Z.mod_unique_pos _ _ q); lia).
  rewrite (Hm c 54), (Hm c1 55) by lia. rewrite Z.shiftl_mul_pow2 by lia. rewrite lor_low_high by lia. lia.
Qed.

Lemma pair_units h k : 0 <= h < 0x400 → 0 <= k < 0x400 → units (0x10000 + h * 0x400 + k) = [0xd800 + h; 0xdc00 + k].
Proof.
  intros Hh Hk. unfold units. rewrite (proj2 (Z.leb_le _ _)) by lia.
  replace (0x10000 + h * 0x400 + k - 0x10000) with (h * 2 ^ 10 + k) by lia.
  rewrite Z.shiftr_div_pow2 by lia. change 0x3ff with (2 ^ 10 - 1). rewrite land_ones_mod by lia.
  rewrite Z.div_add_l, Z.div_small by lia. rewrite (Z.add_comm (h * 2 ^ 10) k), Z.mod_add, Z.mod_small by lia. f_equal; [lia|f_equal; lia].
Qed.

Lemma code_points_ok n l cps : (length l <= n)%nat → Forall is_u16 l → code_points l = Some cps →
  Forall scalar cps ∧ cps ≫= units = l.
Proof.
  revert l cps. induction n as [|n IH]; intros [|c l] cps Hn Hl; cbn [code_points length] in *; try lia;
    try (intros [= <-]; by split).
  apply Forall_cons in Hl as [Hc Hl]. unfold is_u16 in Hc.
  destruct (Z.leb_spec 0xdc00 c), (Z.leb_spec c 0xdfff); cbn [andb]; try done;
  destruct (Z.leb_spec 0xd800 c), (Z.leb_spec c 0xdbff); cbn [andb]; try lia.
  all: try (intros (r & Er & ->)%fmap_Some; destruct (IH l r ltac:(lia) Hl Er) as [H1' H2'];
    split; [constructor; [split; lia|done]|]; rewrite bind_cons, H2'; unfold units;
    rewrite (proj2 (Z.leb_gt 0x10000 c)) by lia; done).
  destruct l as [|c1 l]; [done|]. cbn [length] in Hn. apply Forall_cons in Hl as [Hc1 Hl].
  destruct (Z.ltb_spec c1 0xdc00), (Z.ltb_spec 0xdfff c1); cbn [orb]; try done.
  intros (r & Er & ->)%fmap_Some. destruct (IH l r ltac:(lia) Hl Er) as [H1' H2']. split; [constructor; [split; lia|done]|].
  rewrite bind_cons, H2', pair_units by lia. cbn [app]. f_equal; [lia|f_equal; lia].
Qed.

(** ** The loops *)

Lemma utf8_length c : zlen (utf8_bytes c) <= 4 ∧ (c < 0x10000 → zlen (utf8_bytes c) <= 3).
Proof. unfold utf8_bytes. case_cmp; cbn [length]; lia. Qed.

Lemma escapes_length bs : Forall is_u8 bs → length (bs ≫= hex_chars) = (3 * length bs)%nat.
Proof.
  induction 1 as [|x bs Hx Hbs IH]; [done|]. rewrite bind_cons, length_app, IH.
  destruct (hex_byte x [] Hx) as (_ & -> & _). cbn. lia.
Qed.

Lemma uri_char_length comp c : scalar c → zlen (uri_char comp c) <= 9 * zlen (units c).
Proof.
  intros [Hc _]. unfold uri_char, units, escapes. pose proof (utf8_length c).
  pose proof (escapes_length _ (utf8_u8 c Hc)). destruct (isURIUnescaped c comp), (Z.leb_spec 0x10000 c); cbn [length]; lia.
Qed.

Lemma uri_ops_chars comp c : uri_ops comp c ≫= op_chars = uri_char comp c.
Proof.
  unfold uri_ops, uri_char, escapes. destruct (isURIUnescaped c comp); [done|].
  induction (utf8_bytes c) as [|x bs IH]; [done|]. rewrite fmap_cons, !bind_cons, IH. done.
Qed.

Lemma uri_ops_ok comp c : scalar c → Forall op_ok (uri_ops comp c).
Proof.
  intros [Hc Hs]. unfold uri_ops. destruct (isURIUnescaped c comp) eqn:E.
  - unfold isURIUnescaped in E. apply andb_true_iff in E as [E%Z.ltb_lt _].
    repeat constructor; unfold op_ok, is_u16; lia.
  - apply Forall_fmap. eapply Forall_impl; [by apply utf8_u8|]. intros x Hx. by apply (hex_byte x []).
Qed.

Section Loops.
Context (f : list Z → Z → option (list Z)) (Hf : realloc_ok f).

Lemma encode_char_ops b c : encode_char f b c = run_ops f b (Write8 ∘ hex_chars <$> utf8_bytes c).
Proof.
  unfold encode_char, utf8_bytes. assert (∀ b x, encodeURI_hex f b x = '(b, _) ← run_op f b (Write8 (hex_chars x)); Some b) as E by done.
  destruct (c <? 0x80); [done|]. destruct (c <? 0x800), (c <? 0x10000); rewrite !fmap_cons, fmap_nil; cbn [run_ops compose];
    rewrite !E; repeat (destruct (run_op f _ _) as [[? ?]|]; cbn [mbind option_bind]; [rewrite ?E|done]); done.
Qed.

(** One character. *)
Lemma ops_step os b l : holds f b l → Forall op_ok os → zlen l + zlen (os ≫= op_chars) + 1 <= LEN_OK →
  ∃ b', run_ops f b os = Some b' ∧ holds f b' (l ++ (os ≫= op_chars)).
Proof using Hf. intros Hb Hos Hl. by apply run_ops_ok. Qed.

Lemma encode_step comp c b l : holds f b l → scalar c → zlen l + 9 * zlen (units c) + 1 <= LEN_OK →
  ∃ b', run_ops f b (uri_ops comp c) = Some b' ∧ holds f b' (l ++ uri_char comp c).
Proof using Hf.
  intros Hb Hc Hl. pose proof (uri_char_length comp c Hc).
  rewrite <- uri_ops_chars. apply ops_step; [done|by apply uri_ops_ok|rewrite uri_ops_chars; lia].
Qed.

(** A step of the loop. *)
Definition encode_spec comp (l : list Z) b l0 : Prop :=
  match code_points l with
  | None => encode_loop f l comp b = Some None
  | Some cps => ∃ b', encode_loop f l comp b = Some (Some b') ∧ holds f b' (l0 ++ (cps ≫= uri_char comp))
  end.

Lemma encode_cons comp c l m b l0 :
  (∀ b, encode_loop f m comp b = b ← run_ops f b (uri_ops comp c); encode_loop f l comp b) →
  code_points m = cons c <$> code_points l →
  holds f b l0 → scalar c → zlen l0 + 9 * zlen (units c) + 1 <= LEN_OK →
  (∀ b', holds f b' (l0 ++ uri_char comp c) → encode_spec comp l b' (l0 ++ uri_char comp c)) →
  encode_spec comp m b l0.
Proof using Hf.
  intros Em Ecp Hb Hc Hl Hk. destruct (encode_step comp c b l0 Hb Hc Hl) as (b1 & E1 & Hb1).
  specialize (Hk b1 Hb1). unfold encode_spec in *. rewrite Ecp, Em, E1. cbn [mbind option_bind].
  destruct (code_points l) as [cps|]; cbn [fmap option_fmap option_map]; [|done].
  destruct Hk as (b' & E & Hb'). exists b'. split; [done|]. by rewrite bind_cons, app_assoc.
Qed.

Lemma units_small c : c < 0x10000 → units c = [c].
Proof. intros Hc. unfold units. by rewrite (proj2 (Z.leb_gt _ _)) by lia. Qed.

(** A pair of characters is one code point. *)
Lemma encode_pair comp c c1 l : 0xd800 <= c <= 0xdbff → 0xdc00 <= c1 <= 0xdfff →
  let p := 0x10000 + (c - 0xd800) * 0x400 + (c1 - 0xdc00) in
  code_points (c :: c1 :: l) = cons p <$> code_points l ∧
  ∀ b, encode_loop f (c :: c1 :: l) comp b = b ← run_ops f b (uri_ops comp p); encode_loop f l comp b.
Proof.
  intros Hc Hc1 p. assert (∀ x, 0x100 <= x → isURIUnescaped x comp = false) as Hu
    by (intros x Hx; unfold isURIUnescaped; by rewrite (proj2 (Z.ltb_ge x 0x100)) by lia).
  cbn [code_points encode_loop]. rewrite Hu, (proj2 (Z.leb_gt 0xdc00 c)) by lia. cbn [andb].
  rewrite !(proj2 (Z.leb_le _ _)), !(proj2 (Z.ltb_ge _ _)) by lia. cbn [andb orb]. cbn zeta. split; [done|]. intros b.
  rewrite pair_value by lia. fold p. rewrite encode_char_ops. unfold uri_ops. by rewrite Hu by lia.
Qed.

Lemma encode_loop_ok n comp l b l0 : (length l <= n)%nat → Forall is_u16 l → holds f b l0 →
  zlen l0 + 9 * zlen l + 1 <= LEN_OK → encode_spec comp l b l0.
Proof using Hf.
  revert l b l0. induction n as [|n IH]; intros [|c l] b l0 Hn Hl Hb Hlen; cbn [length] in *; try lia;
    try (exists b; split; [done|]; by rewrite app_nil_r).
  apply Forall_cons in Hl as [Hc Hl]. unfold is_u16 in Hc.
  assert (code_points (c :: l) = cons c <$> code_points l → scalar c →
    (∀ b, encode_loop f (c :: l) comp b = b ← run_ops f b (uri_ops comp c); encode_loop f l comp b) → encode_spec comp (c :: l) b l0) as Hone.
  { intros E Hsc Hst. pose proof (uri_char_length comp c Hsc) as Hu. rewrite units_small in Hu by lia. cbn [length] in Hu.
    apply (encode_cons comp c l); [done|done|done|done|rewrite units_small by lia; cbn [length]; lia|].
    intros b' Hb'. apply IH; [lia|done|done|rewrite length_app; lia]. }
  cbn [encode_loop code_points] in *. destruct (isURIUnescaped c comp) eqn:Eu.
  { pose proof Eu as Eu'. unfold isURIUnescaped in Eu'. apply andb_true_iff in Eu' as [Hlow%Z.ltb_lt _].
    apply Hone; [|split; lia|].
    - by rewrite (proj2 (Z.leb_gt 0xdc00 c)), (proj2 (Z.leb_gt 0xd800 c)) by lia.
    - intros b1. unfold uri_ops. rewrite Eu. unfold putc16. cbn [run_ops run_op].
      by destruct (string_buffer_putc16 f b1 c) as [[? ?]|]. }
  destruct ((0xdc00 <=? c) && (c <=? 0xdfff)) eqn:E1.
  { unfold encode_spec. cbn [encode_loop code_points]. by rewrite Eu, E1. }
  destruct ((0xd800 <=? c) && (c <=? 0xdbff)) eqn:E2.
  2: { apply Hone; [done|split; [lia|]|].
       - intros ?. destruct (Z.leb_spec 0xdc00 c), (Z.leb_spec c 0xdfff), (Z.leb_spec 0xd800 c), (Z.leb_spec c 0xdbff); (done || lia).
       - intros b1. unfold uri_ops. by rewrite Eu, encode_char_ops. }
  clear Hone. destruct l as [|c1 l]; [unfold encode_spec; cbn [encode_loop code_points]; by rewrite Eu, E1, E2|].
  destruct ((c1 <? 0xdc00) || (0xdfff <? c1)) eqn:E3.
  { unfold encode_spec; cbn [encode_loop code_points]; by rewrite Eu, E1, E2, E3. }
  apply andb_true_iff in E2 as [E2a%Z.leb_le E2b%Z.leb_le]. apply orb_false_iff in E3 as [E3a%Z.ltb_ge E3b%Z.ltb_ge].
  apply Forall_cons in Hl as [_ Hl]. cbn [length] in *.
  set (p := 0x10000 + (c - 0xd800) * 0x400 + (c1 - 0xdc00)). assert (scalar p) as Hp by (split; lia).
  assert (zlen (units p) = 2) as Hup by (unfold p; rewrite pair_units by lia; done).
  pose proof (uri_char_length comp p Hp) as Hul. destruct (encode_pair comp c c1 l) as [P1 P2]; [lia|lia|].
  apply (encode_cons comp p l); [exact P2|exact P1|done|done|lia|].
  intros b' Hb'. apply IH; [lia|done|done|rewrite length_app; lia].
Qed.

(** *** Decoding *)

Lemma decode_step comp c rest fuel b : scalar c →
  decode_loop f (S fuel) (uri_char comp c ++ rest) comp b =
    b ← run_ops f b [Putc c]; decode_loop f fuel rest comp b.
Proof.
  intros Hc. assert (∀ r, ('(b, _) ← string_buffer_putc f b c; decode_loop f fuel r comp b) =
    b ← run_ops f b [Putc c]; decode_loop f fuel r comp b) as Hops.
  { intros r. cbn [run_ops run_op]. by destruct (string_buffer_putc f b c) as [[? ?]|]. }
  unfold uri_char. destruct (isURIUnescaped c comp) eqn:Eu.
  - cbn [app decode_loop]. destruct (Z.eqb_spec c 37) as [->|_]; [by destruct comp|]. cbn [mbind option_bind]. apply Hops.
  - destruct (decode_escapes c rest comp Hc) as [Ed E1].
    { intros Hlow. unfold isURIUnescaped in Eu. rewrite (proj2 (Z.ltb_lt c 0x100)) in Eu by lia. cbn [andb] in Eu.
      apply orb_false_iff in Eu as [_ Eu]. destruct comp; [by left|by right]. }
    destruct (escapes c) as [|x e]; [done|]. cbn [take] in E1. injection E1 as ->. cbn [app decode_loop].
    change (37 =? 37) with true. cbn iota. cbn [app] in Ed. rewrite Ed. cbn [mbind option_bind]. apply Hops.
Qed.

Lemma decode_loop_ok comp cps fuel b l0 : Forall scalar cps → (length cps < fuel)%nat → holds f b l0 →
  zlen l0 + zlen (cps ≫= units) + 1 <= LEN_OK →
  ∃ b', decode_loop f fuel (cps ≫= uri_char comp) comp b = Some (Some b') ∧ holds f b' (l0 ++ (cps ≫= units)).
Proof using Hf.
  intros Hcps. revert fuel b l0. induction Hcps as [|c cps Hc Hcps IH]; intros [|fuel] b l0 Hfu Hb Hl; cbn [length] in *; try lia.
  - exists b. split; [done|]. by rewrite app_nil_r.
  - rewrite !bind_cons in *. rewrite length_app in Hl. rewrite decode_step by done.
    destruct (ops_step [Putc c] b l0 Hb) as (b1 & -> & Hb1);
      [repeat constructor; apply Hc|change ([Putc c] ≫= op_chars) with (units c ++ []); rewrite app_nil_r; lia|].
    change ([Putc c] ≫= op_chars) with (units c ++ []) in Hb1. rewrite app_nil_r in Hb1. cbn [mbind option_bind].
    destruct (IH fuel b1 (l0 ++ units c)) as (b' & E & Hb'); [lia|done|rewrite length_app; lia|].
    exists b'. split; [done|]. by rewrite app_assoc.
Qed.

Lemma text_length comp cps : (length cps <= length (cps ≫= uri_char comp))%nat.
Proof.
  induction cps as [|c cps IH]; [done|]. rewrite bind_cons, length_app. cbn [length].
  assert (1 <= length (uri_char comp c))%nat; [|lia]. unfold uri_char, escapes, utf8_bytes.
  destruct (isURIUnescaped c comp); [done|]. case_cmp; rewrite bind_cons, length_app; unfold hex_chars; cbn [length]; lia.
Qed.

(** *** [escape] and [unescape] *)

Definition escape_op (c : Z) : sb_op := if isUnescaped c then Putc16 c else Write8 (hex_chars c).

Lemma uri_digit_ok x : is_u8 (uri_digit x) ∧ uri_digit x ≠ 117 ∧ Cutils.from_hex (uri_digit x) = x mod 16.
Proof.
  pose proof (Z.mod_pos_bound x 16 ltac:(lia)) as Hm. unfold uri_digit. change 15 with (2 ^ 4 - 1).
  rewrite land_ones_mod by lia. change (2 ^ 4) with 16.
  pose proof (all_below (λ y, let h := default 0 (aget hex y) in
    (0 <=? h) && (h <? 256) && negb (h =? 117) && (Cutils.from_hex h =? y)) 16 ltac:(by vm_compute) (x mod 16) Hm) as H.
  cbn zeta in H. rewrite !andb_true_iff, negb_true_iff, Z.leb_le, Z.ltb_lt, Z.eqb_neq, Z.eqb_eq in H. unfold is_u8. tauto.
Qed.

(** Reading back digits. *)
Lemma hex_digits_ok xs rest c : 0 <= c →
  string_get_hex ((uri_digit <$> xs) ++ rest) (length xs) c = Some (foldl (λ c x, c * 16 + x mod 16) c xs).
Proof.
  revert c. induction xs as [|x xs IH]; intros c Hc; cbn [length string_get_hex foldl]; [done|].
  rewrite fmap_cons. cbn [app]. destruct (uri_digit_ok x) as (_ & _ & ->).
  pose proof (Z.mod_pos_bound x 16 ltac:(lia)). rewrite (proj2 (Z.ltb_ge _ 0)) by lia.
  rewrite Z.shiftl_mul_pow2 by lia. rewrite lor_low_high by lia. apply IH. lia.
Qed.

Lemma unescape_hex c rest : is_u16 c → ∃ tl, hex_chars c ++ rest = 37 :: tl ∧ unescape_char tl = Some (c, rest).
Proof.
  unfold is_u16. intros Hc. unfold hex_chars. rewrite Z.shiftr_0_r, !Z.shiftr_div_pow2 by lia.
  change (2 ^ 4) with 16. change (2 ^ 8) with 256. change (2 ^ 12) with 4096.
  pose proof (Z.div_mod c 16 ltac:(lia)) as D1. pose proof (Z.div_mod (c / 16) 16 ltac:(lia)) as D2.
  rewrite Z.div_div in D2 by lia. change (16 * 16) with 256 in D2.
  destruct (Z.leb_spec 256 c) as [Hw|Hw]; eexists; (split; [reflexivity|]); unfold unescape_char; cbn [app].
  - pose proof (Z.div_mod (c / 256) 16 ltac:(lia)) as D3. rewrite Z.div_div in D3 by lia. change (256 * 16) with 4096 in D3.
    assert (c / 4096 mod 16 = c / 4096) as D4
      by (apply Z.mod_small; split; [apply Z.div_pos|apply Z.div_lt_upper_bound]; lia).
    rewrite (proj2 (Z.leb_le 5 _)) by (cbn [length]; lia).
    pose proof (hex_digits_ok [c / 4096; c / 256; c / 16; c] rest 0 ltac:(lia)) as Hd.
    rewrite !fmap_cons, fmap_nil in Hd. cbn [app length] in Hd. rewrite Hd. cbn [mbind option_bind foldl].
    rewrite (proj2 (Z.leb_le 0 _)) by lia. cbn [drop]. rewrite D4. f_equal. f_equal. lia.
  - assert (c / 16 mod 16 = c / 16) as D4
      by (apply Z.mod_small; split; [apply Z.div_pos|apply Z.div_lt_upper_bound]; lia).
    destruct (uri_digit_ok (c / 16)) as (_ & Hu & _).
    match goal with |- context [if 2 <=? ?n then ?a else ?d] => set (short := if 2 <=? n then a else d) end.
    assert (short = Some (c, rest)) as Hs.
    { unfold short. rewrite (proj2 (Z.leb_le 2 _)) by (cbn [length]; lia).
      pose proof (hex_digits_ok [c / 16; c] rest 0 ltac:(lia)) as Hd.
      rewrite !fmap_cons, fmap_nil in Hd. cbn [app length] in Hd. rewrite Hd. cbn [mbind option_bind foldl].
      rewrite (proj2 (Z.leb_le 0 _)) by lia. cbn [drop]. rewrite D4. f_equal. f_equal. lia. }
    clearbody short. revert Hu. generalize (uri_digit (c / 16)). intros h Hh. by rewrite Hs; repeat case_match; subst.
Qed.

Lemma escape_op_ok c : is_u16 c → op_ok (escape_op c) ∧ op_chars (escape_op c) = escape_text c ∧ zlen (escape_text c) <= 6.
Proof.
  intros Hc. unfold escape_op, escape_text. destruct (isUnescaped c); [by split_and!|]. split; [|split; [done|]].
  - assert (∀ y, is_u8 (uri_digit y)) as Hd by (intros y; apply uri_digit_ok). cbn [op_ok]. unfold hex_chars.
    apply Forall_cons. split; [by split|]. apply Forall_app. split; [|auto using Forall_cons_2, Forall_nil_2].
    destruct (256 <=? c); auto 6 using Forall_cons_2, Forall_nil_2. repeat apply Forall_cons_2; auto. by split.
  - unfold hex_chars. destruct (256 <=? c); cbn; lia.
Qed.

Lemma escape_loop_ops l b : escape_loop f l b = run_ops f b (escape_op <$> l).
Proof.
  revert b. induction l as [|c l IH]; intros b; [done|]. rewrite fmap_cons. cbn [escape_loop run_ops].
  assert (run_op f b (escape_op c) = if isUnescaped c then string_buffer_putc16 f b c else string_buffer_write8 f b (hex_chars c)) as ->
    by (unfold escape_op; by destruct (isUnescaped c)).
  unfold putc16, encodeURI_hex. destruct (isUnescaped c).
  - destruct (string_buffer_putc16 f b c) as [[? ?]|]; [apply IH|done].
  - destruct (string_buffer_write8 f b (hex_chars c)) as [[? ?]|]; [apply IH|done].
Qed.

Lemma escape_chars l : Forall is_u16 l → Forall op_ok (escape_op <$> l) ∧
  (escape_op <$> l) ≫= op_chars = l ≫= escape_text ∧ zlen (l ≫= escape_text) <= 6 * zlen l.
Proof.
  induction 1 as [|c l Hc Hl (H1 & H2 & H3)]; [by split_and!|]. destruct (escape_op_ok c Hc) as (O1 & O2 & O3).
  rewrite fmap_cons, !bind_cons, O2, H2, length_app. cbn [length]. split; [by constructor|]. split; [done|lia].
Qed.

Lemma unescape_step c rest fuel b : is_u16 c →
  unescape_loop f (S fuel) (escape_text c ++ rest) b = b ← run_ops f b [Putc16 c]; unescape_loop f fuel rest b.
Proof.
  intros Hc. assert (∀ r, (b ← putc16 f b c; unescape_loop f fuel r b) = b ← run_ops f b [Putc16 c]; unescape_loop f fuel r b) as Hops.
  { intros r. unfold putc16. cbn [run_ops run_op]. by destruct (string_buffer_putc16 f b c) as [[? ?]|]. }
  unfold escape_text. destruct (isUnescaped c) eqn:Eu.
  - cbn [app unescape_loop]. destruct (Z.eqb_spec c 37) as [->|_]; [done|]. cbn [mbind option_bind]. apply Hops.
  - destruct (unescape_hex c rest Hc) as (tl & -> & E). cbn [unescape_loop]. change (37 =? 37) with true. cbn iota.
    rewrite E. cbn [mbind option_bind]. apply Hops.
Qed.

Lemma unescape_loop_ok l fuel b l0 : Forall is_u16 l → (length l < fuel)%nat → holds f b l0 → zlen l0 + zlen l + 1 <= LEN_OK →
  ∃ b', unescape_loop f fuel (l ≫= escape_text) b = Some b' ∧ holds f b' (l0 ++ l).
Proof using Hf.
  intros Hl. revert fuel b l0. induction Hl as [|c l Hc Hl IH]; intros [|fuel] b l0 Hfu Hb Hlen; cbn [length] in *; try lia.
  - exists b. split; [done|]. by rewrite app_nil_r.
  - rewrite bind_cons, unescape_step by done.
    destruct (ops_step [Putc16 c] b l0 Hb) as (b1 & -> & Hb1); [by repeat constructor; apply Hc|cbn; lia|].
    change ([Putc16 c] ≫= op_chars) with [c] in Hb1. cbn [mbind option_bind].
    destruct (IH fuel b1 (l0 ++ [c])) as (b' & E & Hb'); [lia|done|rewrite length_app; cbn; lia|].
    exists b'. split; [done|]. by rewrite <- app_assoc in Hb'.
Qed.

Lemma escape_length l : (length l <= length (l ≫= escape_text))%nat.
Proof.
  induction l as [|c l IH]; [done|]. rewrite bind_cons, length_app. cbn [length].
  assert (1 <= length (escape_text c))%nat; [|lia]. unfold escape_text, hex_chars. destruct (isUnescaped c); cbn; lia.
Qed.

(** *** The ends *)

Lemma init_holds n : 0 <= n <= LEN_OK → holds f (fst (string_buffer_init f n)) [].
Proof using Hf. intros Hn. by apply init_ok. Qed.

Lemma end_holds b l : holds f b l →
  ∃ res, string_buffer_end f b = Some res ∧
    match res with None => refused f | Some p => chars p = l ∧ Forall (is_char (str_wide p)) l end.
Proof using Hf.
  intros [Hb|(He & _ & _ & Hr)].
  - destruct (string_buffer_end_ok f Hf b l Hb) as (p & E & Hp). by exists (Some p).
  - exists None. split; [|done]. unfold string_buffer_end. by rewrite He.
Qed.

(** [escape] inverted by [unescape], on every string. *)
Lemma escape_roundtrip p : Forall is_u16 (chars p) → 6 * zlen (chars p) + 1 <= LEN_OK →
  ∃ res, js_global_escape f p = Some res ∧
    match res with
    | None => refused f
    | Some q => chars q = chars p ≫= escape_text ∧
        ∃ res', js_global_unescape f q = Some res' ∧ match res' with None => refused f | Some r => chars r = chars p end
    end.
Proof using Hf.
  intros Hp Hl. unfold js_global_escape, js_global_unescape. destruct (escape_chars _ Hp) as (H1 & H2 & H3).
  rewrite escape_loop_ops. destruct (ops_step (escape_op <$> chars p) (fst (string_buffer_init f (zlen (chars p)))) []) as (b & -> & Hb);
    [apply init_holds; lia|done|rewrite H2; cbn [length]; lia|]. rewrite H2 in Hb. cbn [mbind option_bind app] in *.
  destruct (end_holds b _ Hb) as (res & -> & R). exists res. split; [done|]. destruct res as [q|]; [|done].
  destruct R as [R _]. split; [done|]. rewrite R. pose proof (escape_length (chars p)).
  destruct (unescape_loop_ok (chars p) (S (length (chars p ≫= escape_text))) (fst (string_buffer_init f 0)) []) as (b' & -> & Hb');
    [done|lia|apply init_holds; unfold LEN_OK; lia|cbn [length]; lia|].
  cbn [mbind option_bind]. destruct (end_holds b' _ Hb') as (res' & -> & R'). exists res'. split; [done|].
  destruct res'; [|done]. apply R'.
Qed.

End Loops.

(** C20: For a string of at most (2^28 - 1) / 9 characters, [encodeURI] and
    [encodeURIComponent] return the UTF-8 bytes of the string's code points as
    escapes, but for the characters that stay as they are, and [decodeURI] and
    [decodeURIComponent] give the string back; a string with half a surrogate
    pair ends in an exception. Under the bound a call ends in another exception
    only if the allocator refuses a block, and accesses no memory outside the
    buffer's block either way. (An escape is nine characters for one of the
    input; a buffer that would outgrow 2^30 - 1 characters is an exception, and
    one that grows past 715827882 overflows an [int]: [realloc_overflows].) *)
Theorem uri_roundtrip f p isComponent : realloc_ok f → Forall is_u16 (chars p) → 9 * zlen (chars p) + 1 <= LEN_OK →
  match code_points (chars p) with
  | None => js_global_encodeURI f p isComponent = Some None
  | Some cps =>
      ∃ res, js_global_encodeURI f p isComponent = Some res ∧
        match res with
        | None => refused f
        | Some q => chars q = cps ≫= uri_char isComponent ∧
            ∃ res', js_global_decodeURI f q isComponent = Some res' ∧
              match res' with None => refused f | Some r => chars r = chars p end
        end
  end.
Proof.
  intros Hf Hp Hl. unfold js_global_encodeURI, js_global_decodeURI.
  pose proof (encode_loop_ok f Hf (length (chars p)) isComponent (chars p) (fst (string_buffer_init f (zlen (chars p)))) []) as He.
  unfold encode_spec in He. destruct (code_points (chars p)) as [cps|] eqn:Ec.
  2: { rewrite He; [done|done|done|apply init_holds; [done|lia]|cbn [length]; lia]. }
  destruct He as (b & -> & Hb); [done|done|apply init_holds; [done|lia]|cbn [length]; lia|]. cbn [mbind option_bind app] in *.
  destruct (code_points_ok _ _ _ (le_n _) Hp Ec) as [Hsc Hu].
  destruct (end_holds f Hf b _ Hb) as (res & -> & R). exists res. split; [done|]. destruct res as [q|]; [|done].
  destruct R as [R _]. split; [done|]. rewrite R. pose proof (text_length isComponent cps).
  destruct (decode_loop_ok f Hf isComponent cps (S (length (cps ≫= uri_char isComponent))) (fst (string_buffer_init f 0)) []) as (b' & -> & Hb');
    [done|lia|apply init_holds; [done|unfold LEN_OK; lia]|rewrite Hu; cbn [length]; lia|].
  rewrite Hu in Hb'. cbn [mbind option_bind]. destruct (end_holds f Hf b' _ Hb') as (res' & -> & R'). exists res'. split; [done|].
  destruct res'; [|done]. apply R'.
Qed.

(** An allocator that grants what is asked for. *)
Definition plain_realloc (old : list Z) (n : Z) : option (list Z) :=
  if n <? 0 then None else Some (resize (Z.to_nat n) 0 old).

Lemma plain_realloc_ok : realloc_ok plain_realloc.
Proof.
  unfold plain_realloc. constructor; intros old n new; destruct (Z.ltb_spec n 0) as [Hn|Hn]; try done.
  - intros [= <-]. rewrite length_resize. lia.
  - intros m [= <-] Hm Hmn. rewrite take_resize_le by lia. by rewrite resize_le.
Qed.

(** A space, a letter of two bytes and a pair of four. *)
Lemma uri_roundtrip_witness :
  let p := mkStr true [97; 32; 0xe9; 0xd83d; 0xde00] in
  (∃ res, js_global_encodeURI plain_realloc p true = Some res ∧
     match res with
     | None => refused plain_realloc
     | Some q => chars q = [97; 32; 0xe9; 0x1f600] ≫= uri_char true ∧
         ∃ res', js_global_decodeURI plain_realloc q true = Some res' ∧
           match res' with None => refused plain_realloc | Some r => chars r = chars p end
     end) ∧
  js_global_encodeURI plain_realloc p true = Some (Some (mkStr false (lit "a%20%C3%A9%F0%9F%98%80"))).
Proof.
  intros p. split; [|by vm_compute].
  apply (uri_roundtrip plain_realloc p true plain_realloc_ok); [|unfold LEN_OK; cbn; lia].
  repeat (constructor; [unfold is_u16; lia|]). constructor.
Defined.

End JsUri.
